(* ===== verification/_CoqProject ===== *)
-Q . S2P
Prelude.v
Codec.v
Store.v
Regex.v
Graph.v
ExternalDeliveryModel.v
DeliveryState.v
YouTubeDelivery.v
Livestream.v
PostModel.v
Backoff.v
Outbox.v
Dispatcher.v
UploadJobs.v
Cursor.v
PostStore.v
PostReads.v
Idempotency.v
PostStoreProps.v
GoError.v
ErrorClass.v
Sha256.v
ArtifactVerify.v
Storage.v
UploadErrors.v
PublishWorker.v
PublishWorkerProps.v
PublishSettle.v
ReconcileWorker.v
ReconcileProps.v
MediaAssets.v
MediaProps.v
YouTubeQueue.v
YouTubeQueueProps.v
YouTubeQuota.v
DeliveryIntake.v
DeliveryIntakeProps.v
UploadWorld.v
UploadDemo.v
UploadIngest.v
UploadIngestProps.v
UploadPublish.v
UploadPublishProps.v
YouTubeUpload.v
YouTubeUploadProps.v
UploadDrive.v
UploadPool.v
UploadPoolProps.v
Http.v
HttpProps.v
HttpClient.v
Webhooks.v
WebhooksProps.v
YouTubeResumable.v
YouTubeResumableProps.v
YouTubePublish.v
YouTubePublishProps.v
YouTubeChannel.v
YouTubeChannelProps.v
PostsAPI.v
PostsAPIProps.v
PostsAPILists.v
