(* ===== verification/Prelude.v ===== *)
(** * Verification of the InstaEdit publishing backend

    InstaEdit ([src/], Go) schedules and publishes videos for many tenants.
    External systems and users hand in work over HTTP; rows of a PostgreSQL
    database are the only shared state; pools of workers claim rows under
    leases, call the providers (YouTube, Drive, ...) and write the outcome
    back.  This development models the path of a video through the backend
    and proves what keeps it correct: that no state drifts, that nothing is
    published twice or lost, that leases fence stale workers, that every run
    of a worker leaves the row it claimed in a state from which the story goes
    on, and that tenants do not see each other.

    ** The parts and how they interact

    - A delivery of an external system is accepted into a journal
      ([internal/repository/external_delivery_*.go]); the Velox downloader
      ([internal/worker/velox_artifact_downloader.go]) claims it and registers
      one upload job for it in the same transaction.  [DeliveryIntake],
      [DeliveryIntakeProps]; statuses and metadata in [ExternalDeliveryModel].
    - Upload jobs ([internal/repository/upload_job_*.go]) are claimed by the
      ingest pool, then by the publish pool; failures are classified
      ([internal/services/error_classification.go]) and retried, dropped or
      buried ([internal/worker/upload_worker_errors.go]).  [UploadJobs],
      [GoError], [ErrorClass], [UploadErrors].
    - The ingest pool ([internal/worker/upload_worker_ingest.go]) streams the
      bytes of a job from its source through a verifying reader
      ([artifact_verify.go]) to the object storage ([internal/services/
      storage*.go]) and records them as a media asset
      ([internal/repository/asset_repo.go]).  [UploadIngest],
      [UploadIngestProps], [ArtifactVerify] over [Sha256], [Storage],
      [MediaAssets], [MediaProps] (with the media resolver).
    - The publish pool ([internal/worker/upload_worker_publish.go]) makes the
      post of a job and one row of the delivery queue
      ([internal/repository/youtube_delivery_queue.go]) per target on YouTube;
      the delivery pool uploads the video of a row as private, behind the
      quota gate ([internal/repository/youtube_quota_repo.go]).
      [UploadPublish], [UploadPublishProps], [UploadDrive]; [YouTubeQueue],
      [YouTubeQueueProps], [YouTubeQuota]; [YouTubeUpload],
      [YouTubeUploadProps].
    - The ticks of these pools ([internal/worker/upload_worker_lifecycle.go])
      claim rows and run one goroutine per row.  [UploadPool],
      [UploadPoolProps].  What the pools share (the databases, the calls that
      leave the worker, the registry of sources) is in [UploadWorld], and
      [UploadDemo] is the small system their witnesses run.
    - The client of the YouTube API ([internal/services/youtube_upload*.go],
      [youtube_publish.go], [youtube_validate.go], [youtube_channel_*.go]):
      the resumable upload, [YouTubeResumable], [YouTubeResumableProps]; the
      calls of the provider, the canary and the copyright check,
      [YouTubePublish], [YouTubePublishProps]; changes to a video,
      [YouTubeChannel], [YouTubeChannelProps].  [Http] has their monad (a
      client of a server with a state of any type, and the list of the
      requests sent), the JSON reader and the reasoning rules; [HttpProps] has
      the round trip of JSON.  [HttpClient] is the transport below it, which
      repeats requests, and the reader of throttling headers
      ([internal/services/http_client.go], [provider.go]).
    - Outgoing webhooks ([internal/repository/webhook_repo.go],
      [internal/services/webhook_*.go], [internal/worker/webhook_worker.go],
      [pkg/api/webhooks_handlers.go]): events fan out into deliveries, which a
      worker posts with a signature.  [Webhooks], [WebhooksProps].
    - Posts and their targets ([internal/repository/post_repo_*.go],
      [queries.go], [internal/models/post*.go]) carry the publication: the
      status of a post is a function of the statuses of its targets.
      [PostModel], [PostStore], [PostStoreProps], [PostReads].
    - The publish worker ([internal/worker/publish_worker*.go]) claims queued
      targets and publishes them; the reconcile worker
      ([internal/worker/reconcile_worker.go]) polls the publications that a
      provider finishes on its own time.  [PublishWorker],
      [PublishWorkerProps], [PublishSettle]; [ReconcileWorker],
      [ReconcileProps].
    - Events for other systems go through a transactional outbox
      ([internal/repository/outbox_repo.go]) drained by a dispatcher
      ([internal/outbox/dispatcher*.go]).  [Outbox], [Dispatcher].
    - The HTTP handlers of posts ([pkg/api/posts_*.go]), the idempotency gate
      ([pkg/api/idempotency.go], [internal/repository/idempotency_repo.go])
      and the cursor lists ([pkg/api/cursor_pagination.go]).  [PostsAPI],
      [PostsAPIProps], [PostsAPILists], [Idempotency], [Cursor], [Codec].
    - Status tables of delivery sets ([internal/deliveries/state.go]),
      of YouTube deliveries and of livestreams ([internal/models]).  [Graph],
      [DeliveryState], [YouTubeDelivery], [Livestream].
    - Backoff policies and jitter samplers of all workers.  [Backoff].
    - Shared: [Prelude] (errors, text, durations, tactics), [Store] (the
      database monad, transactions, tables, preorders on states), [Regex].

    ** The model of the database and of time

    A computation [M S A] of [Store] runs in an environment and threads the
    state and a counter of round trips.  The environment says what each round
    trip does: [Fine]; [Lost], an error and no effect; [Unacked], the effect
    happens and the caller sees an error.  It also gives the clocks of
    the process and of the server, the rows locked by peers (what SKIP LOCKED
    passes over) and the next UUID.  A statement is one function on the
    tables, its triggers, cascades and constraints included.  [transact] runs
    its body on the tables and keeps the result only at its commit; row locks
    make the transactions of peers atomic, so interleavings are sequences of
    transactions, and the history theorems quantify over all of them, each
    with its own environment.  A table is a finite map from the primary key,
    and rows of one instant come in the order of their ids.

    Times are nanoseconds in [Z], durations are 64-bit integers where a
    product can overflow, the zero time is 0, and ids are compared as the
    database compares them ([::uuid] casts as text).  Go errors keep the text
    and the sentinels along the chain ([err]); where a worker walks an error
    tree it is a [GoErr].  The text of a driver error is representative: no
    theorem depends on it.  [strings.ToLower], JSON strings and the message
    patterns are modelled on ASCII.

    Code outside the repository (providers, vaults, translation, storage) and
    the packages a worker reaches only through an interface are arguments of
    the model: a record of functions from the log of calls to the answer, so
    that the provider may answer the same call differently each time, and each
    call is in the log that the safety theorems talk about.  Where the worker
    hands control to a provider, peers may run on the store.

    ** What the theorems show

    - No drift.  Whatever operations of the post store run and fail, a post
      whose status disagrees with its targets is in the repair queue
      ([post_status_never_drifts]); aggregation never claims success that some
      target does not have ([Resolve_sound]).
    - At most once, and exactly once.  The publish worker calls the provider
      at most once per claim, under its lease and with the key stored
      ([publish_once_under_lease]); creating from an upload job, a source or a
      request is idempotent ([Create_exactly_once],
      [CreateIfSourceAbsent_unique], [create_idempotent],
      [expired_key_unprotected] for the limit of the last); a delivery is
      registered once ([deliveries_register_once]).
    - Fencing.  Every statement under a lease is refused to anyone else, and
      a leased row is offered to nobody ([lease_fencing], [lease_exclusive],
      [upload_job_fencing], [upload_job_exclusive],
      [reconcile_lease_protects]); finished targets stay as they are
      ([finished_targets_protected]).
    - Settling and ending.  A run on a claimed row ends with the row given
      back in a state from which work goes on ([publishTarget_settles],
      [reconcileTarget_settles], [processOne_outcome],
      [claimAndProcess_outcome]), a failing job or poll ends in the dead
      letters after its budget ([failing_job_is_buried],
      [transient_failures_end]), the drain loop terminates
      ([drainOnce_terminates]).
    - Invariants of the queues under any interleaving
      ([outbox_interleaving_safe], [upload_job_lifecycle]).
    - The upload pipeline.  An asset becomes ready only with the bytes its
      job was promised ([artifact_verified], [ready_asset_verified]), and a
      ready asset of the caller is what a URL names ([resolved_url_owned],
      [ready_asset_resolves], [presigned_url_names_object]); every run of the
      three pools ends with its row settled ([ingest_settles],
      [publish_job_effects], [delivery_settles], [tick_loses_no_job]); one
      worker uploads a delivery ([claimed_delivery_exclusive]) and no upload
      is made without quota ([quota_never_exceeded], [uploads_within_quota]).
      The file on the server is the source ([upload_stores_source],
      [published_video_is_source]), over a bounded number of requests
      ([upload_requests_bounded]).  Two dead ends: a row given back by a stopped worker
      ([released_delivery_stuck]) and the media of uploads from Drive
      ([drive_media_unresolvable]).
    - Changes to a video keep what they do not name
      ([metadata_patch_keeps_rest]); publish identifiers decode to what they
      encode ([publish_id_roundtrip]); a localization is not retried
      ([upsert_localizations_sends_once]); a request is repeated only where that
      is safe ([retry_transport]).
    - Webhooks.  An event fans out once ([webhook_fans_out_once]) and a claimed
      delivery is posted once and settled ([webhook_worker_settles]), but with
      the driver of the repository none is ever made ([webhooks_never_sent]).
    - Claims take the rows the code says, in its order ([ClaimNext_correct],
      [ClaimBatch_correct], [ClaimQueuedTargetWithLease_correct]).
    - Classification of errors is coherent, and its two paths agree
      ([ClassifyError_coherent], [classification_paths_agree],
      [handleProcessingError_routing]); delays stay in their bounds
      ([worker_backoffs]); illegal status changes are refused
      ([ingest_transition_checked]).
    - The API: who reaches whose posts ([tenant_isolation],
      [unguarded_handlers_ignore_caller]), what an edit does to the media
      ([patch_detaches_media]), expansion of targets
      ([expandCreatePostTargets_spec]), cursors read what they wrote
      ([list_cursor_roundtrip]) and pages enumerate the list
      ([list_walk_complete]).

    ** Fuel and bounds

    The drain loop of the dispatcher and the page walk take as many turns as
    there are rows to visit, and their theorems say that this is enough; the
    JSON reader takes the length of its input as fuel ([read_value_fuel]); the
    backoff loops run once per attempt; the client of an upload says how many
    reads it makes; the chunk loop of an upload reads a body in as many turns as
    it has bytes and takes as many new bodies as there are retries
    ([chunk_loop_ends]).  Everything else is structural.

    ** Not modelled

    Tickers and goroutine scheduling of the [Run] loops (a tick is modelled,
    the loop repeats it; the heartbeat goroutines are peers of the store), log
    lines and metrics, the decoding of request bodies, a nil pointer inside a
    non-nil error, [url.Parse] (the client of a server says which URLs are
    refused), the printing of invalid UTF-8 in JSON, and the parts of the program listed as such in the manifest:
    OAuth and the credential vault, the other provider clients, drive imports, content
    packages, livestreams, media rendering, analytics, agents, administration commands, configuration and
    wiring, and the frontend.  They are I/O around third-party services or
    plain queries whose behaviour is what the remote side does. *)

From Stdlib Require Export ZArith Lia Ascii.
From stdpp Require Export base tactics list gmap strings sorting relations.


Declare Scope go_scope.
Delimit Scope go_scope with go.

(** ** Go errors

    A Go [error] is reduced to what the code observes of it: the text that
    [Error()] returns and the package-level sentinels that [errors.Is] finds
    along its unwrap chain.  [fmt.Errorf] with a [%w] verb prefixes the text
    and keeps the chain. *)
Record err := mkErr { err_text : string; err_chain : list string }.

#[export] Instance err_eq_dec : EqDecision err.
Proof. solve_decision. Defined.

Definition errors_new (msg : string) : err := mkErr msg [].
Definition sentinel (name msg : string) : err := mkErr msg [name].
Definition wrap (prefix : string) (e : err) : err :=
  mkErr (prefix +:+ ": " +:+ err_text e) (err_chain e).
(** [fmt.Errorf] with the [%w] verb first, followed by plain text. *)
Definition wrap_suffix (e : err) (suffix : string) : err :=
  mkErr (err_text e +:+ ": " +:+ suffix) (err_chain e).
(** Two [%w] verbs: both chains are searched, the first one first. *)
Definition wrap2 (outer : err) (mid : string) (e : err) : err :=
  mkErr (err_text outer +:+ ": " +:+ mid +:+ ": " +:+ err_text e)
        (err_chain outer ++ err_chain e).
(** [errors.Is(e, target)] for a package-level sentinel. *)
Definition errors_is (e : err) (name : string) : bool :=
  bool_decide (name ∈ err_chain e).

(** The error a statement returns when the driver fails, wrapped with the name
    of the operation the way every repository does; the driver's own errors
    carry none of the program's sentinels. *)
Definition db_err (op : string) : err := wrap op (errors_new "driver error").

(** [fmt.Sprintf] with the [%d] verb on an integer. *)
Fixpoint digits_go (fuel : nat) (n : N) (acc : string) : string :=
  match fuel with
  | O => acc
  | S fuel' =>
      let acc' := String (ascii_of_N (48 + n mod 10)) acc in
      if (n <? 10)%N then acc' else digits_go fuel' (n / 10) acc'
  end.
Definition string_of_N (n : N) : string := digits_go (S (N.to_nat (N.log2 n))) n "".
Definition itoa (z : Z) : string :=
  match z with
  | Zneg p => "-" +:+ string_of_N (Npos p)
  | _ => string_of_N (Z.to_N z)
  end.

(** ** The [strings] package on byte strings *)
Fixpoint string_prefix_drop (w s : string) : option string :=
  match w, s with
  | "", _ => Some s
  | String a w', String b s' =>
      if Ascii.eqb a b then string_prefix_drop w' s' else None
  | _, _ => None
  end.

(** The UTF-8 encodings of the runes for which [unicode.IsSpace] holds. *)
Definition bytes (l : list N) : string :=
  String.string_of_list_ascii (ascii_of_N <$> l).
Definition space_runes : list string :=
  (bytes <$> [[9]; [10]; [11]; [12]; [13]; [32]; [194; 133]; [194; 160];
    [225; 154; 128]; [226; 128; 168]; [226; 128; 169]; [226; 128; 175];
    [226; 129; 159]; [227; 128; 128]])%N ++
  ((λ k, bytes [226; 128; 128 + k]) <$> [0; 1; 2; 3; 4; 5; 6; 7; 8; 9; 10])%N.

Definition first_some {A B} (f : A → option B) (l : list A) : option B :=
  foldr (λ a r, match f a with Some b => Some b | None => r end) None l.

Fixpoint trim_left_go (ws : list string) (fuel : nat) (s : string) : string :=
  match fuel with
  | O => s
  | S fuel' =>
      match first_some (λ w, string_prefix_drop w s) ws with
      | Some s' => trim_left_go ws fuel' s'
      | None => s
      end
  end.
Definition trim_left (ws : list string) (s : string) : string :=
  trim_left_go ws (String.length s) s.

(** [strings.TrimSpace]: one rune of white space at a time from both ends. *)
Definition TrimSpace (s : string) : string :=
  let l := trim_left space_runes s in
  String.rev (trim_left (String.rev <$> space_runes) (String.rev l)).

(** [strings.EqualFold] on ASCII letters. *)
Definition ascii_lower (a : ascii) : ascii :=
  let n := N_of_ascii a in
  if ((65 <=? n) && (n <=? 90))%N then ascii_of_N (n + 32) else a.
Fixpoint ToLower (s : string) : string :=
  match s with
  | "" => ""
  | String a s' => String (ascii_lower a) (ToLower s')
  end.
Definition EqualFold (s t : string) : bool := bool_decide (ToLower s = ToLower t).

(** [strings.Join]. *)
Fixpoint Join (l : list string) (sep : string) : string :=
  match l with
  | [] => ""
  | [s] => s
  | s :: l' => s +:+ sep +:+ Join l' sep
  end.

(** [strconv.Quote], the [%q] verb, on ASCII; the bytes of other runes are
    kept, as Go does for printable ones. *)
Definition hex_digit (n : N) : ascii :=
  ascii_of_N (if (n <? 10)%N then 48 + n else 87 + n).
Definition quote_byte (a : ascii) : string :=
  let n := N_of_ascii a in
  let esc c := bytes [92; c]%N in
  if (n =? 34)%N then esc 34%N else if (n =? 92)%N then esc 92%N
  else if (n =? 7)%N then esc 97%N else if (n =? 8)%N then esc 98%N
  else if (n =? 9)%N then esc 116%N else if (n =? 10)%N then esc 110%N
  else if (n =? 11)%N then esc 118%N else if (n =? 12)%N then esc 102%N
  else if (n =? 13)%N then esc 114%N
  else if ((n <? 32) || (n =? 127))%N then
    esc 120%N +:+ String (hex_digit (n / 16)) (String (hex_digit (n mod 16)) "")
  else String a "".
Fixpoint quote_body (s : string) : string :=
  match s with "" => "" | String a s' => quote_byte a +:+ quote_body s' end.
Definition quote (s : string) : string := bytes [34%N] +:+ quote_body s +:+ bytes [34%N].

(** ** Integers at Go's width

    [int], [int64] and [time.Duration] are 64-bit two's complement. *)
Definition int64_min : Z := -(2^63).
Definition int64_max : Z := 2^63 - 1.
Definition wrap64 (z : Z) : Z := (z + 2^63) mod 2^64 - 2^63.
Definition in_int64 (z : Z) : Prop := (int64_min ≤ z ≤ int64_max)%Z.

Definition Nanosecond : Z := 1.
Definition Second : Z := 1000000000.
Definition Minute : Z := 60 * Second.
Definition Hour : Z := 60 * Minute.

(** [time.Duration.String]: the largest unit of hours, minutes and seconds that
    applies, with a trimmed decimal fraction, or one smaller unit. *)
Fixpoint zeros (n : nat) : string := match n with O => "" | S n' => "0" +:+ zeros n' end.
Definition fraction (v : Z) (prec : nat) : string :=
  let digits := itoa (v mod 10 ^ Z.of_nat prec) in
  let padded := zeros (prec - String.length digits) +:+ digits in
  let trimmed := String.rev (trim_left ["0"] (String.rev padded)) in
  if String.eqb trimmed "" then "" else "." +:+ trimmed.
Definition decimal (v : Z) (prec : nat) : string :=
  itoa (v / 10 ^ Z.of_nat prec) +:+ fraction v prec.
Definition Duration_String (d : Z) : string :=
  let u := Z.abs d in
  let sign := if (d <? 0)%Z then "-" else "" in
  if (u =? 0)%Z then "0s"
  else if (u <? 1000)%Z then sign +:+ itoa u +:+ "ns"
  else if (u <? 1000000)%Z then sign +:+ decimal u 3 +:+ bytes [194; 181]%N +:+ "s"
  else if (u <? Second)%Z then sign +:+ decimal u 6 +:+ "ms"
  else
    let s := (u / Second)%Z in
    let sec := decimal (u mod (60 * Second)) 9 +:+ "s" in
    if (s <? 60)%Z then sign +:+ sec
    else if (s <? 3600)%Z then sign +:+ itoa (s / 60) +:+ "m" +:+ sec
    else sign +:+ itoa (s / 3600) +:+ "h" +:+ itoa (s / 60 mod 60) +:+ "m" +:+ sec.

Example Duration_String_ex :
  Duration_String <$> [Hour; 90 * Second; 1500000000; -5 * Second; 1500]%Z =
  ["1h0m0s"; "1m30s"; "1.5s"; "-5s"; "1.5" +:+ bytes [194; 181]%N +:+ "s"].
Proof. vm_compute. reflexivity. Qed.

Lemma wrap64_id z : in_int64 z → wrap64 z = z.
Proof.
  unfold in_int64, wrap64, int64_min, int64_max. intros H.
  rewrite Z.mod_small; lia.
Qed.

Lemma wrap64_in z : in_int64 (wrap64 z).
Proof.
  unfold in_int64, wrap64, int64_min, int64_max.
  pose proof (Z.mod_pos_bound (z + 2^63) (2^64)). lia.
Qed.

(** ** Case analysis on enumerations of string constants *)

(** Prove a decidable closed proposition by evaluating it. *)
Ltac decide_closed :=
  lazymatch goal with |- ?P => refine (bool_decide_unpack P _); vm_compute; exact I end.
(** Split a membership in an explicit list of constants. *)
Ltac enum_cases H :=
  repeat (apply elem_of_cons in H as [->|H]); [..|by apply elem_of_nil in H].
(** A string outside an enumeration differs from each of its constants. *)
Ltac enum_other H :=
  rewrite ?bool_decide_eq_false_2
    by first [by intros ->; apply H; decide_closed
             |by intros ?; apply H; set_solver].
