(* ===== verification/Codec.v ===== *)
(** * Encodings of the Go standard library

    What the API uses of [encoding/base64], [encoding/json], [strconv] and
    [time]: the raw URL alphabet, a JSON reader with the grammar and the string
    escapes of the scanner, decimal integers at their width, and RFC 3339 times
    with nanoseconds.  Each printer comes with the proof that the reader inverts
    it.  Bytes outside ASCII are copied, as the encoder and the decoder do for
    valid UTF-8. *)

From S2P Require Import Prelude.
From Stdlib Require Import ZArith Lia.
Local Open Scope Z_scope.

(** ** [base64.RawURLEncoding] *)
Definition b64_char (n : N) : ascii :=
  ascii_of_N (if n <? 26 then 65 + n else if n <? 52 then 71 + n
              else if n <? 62 then n - 4 else if n =? 62 then 45 else 95)%N.
Definition b64_value (a : ascii) : option N :=
  let c := N_of_ascii a in
  if ((65 <=? c) && (c <=? 90))%N then Some (c - 65)%N
  else if ((97 <=? c) && (c <=? 122))%N then Some (c - 71)%N
  else if ((48 <=? c) && (c <=? 57))%N then Some (c + 4)%N
  else if (c =? 45)%N then Some 62%N
  else if (c =? 95)%N then Some 63%N
  else None.
Fixpoint EncodeToString (s : string) : string :=
  match s with
  | "" => ""
  | String a "" =>
      let a := N_of_ascii a in
      String (b64_char (a / 4)) (String (b64_char (a mod 4 * 16)) "")
  | String a (String b "") =>
      let a := N_of_ascii a in let b := N_of_ascii b in
      String (b64_char (a / 4)) (String (b64_char (a mod 4 * 16 + b / 16))
        (String (b64_char (b mod 16 * 4)) ""))
  | String a (String b (String c s')) =>
      let a := N_of_ascii a in let b := N_of_ascii b in let c := N_of_ascii c in
      String (b64_char (a / 4)) (String (b64_char (a mod 4 * 16 + b / 16))
        (String (b64_char (b mod 16 * 4 + c / 64)) (String (b64_char (c mod 64))
          (EncodeToString s'))))
  end.
(** The decoder is not strict: spare bits of the last character are dropped, and
    line breaks are skipped. *)
Fixpoint b64_quanta (s : string) : option string :=
  match s with
  | "" => Some ""
  | String _ "" => None
  | String a (String b "") =>
      x ← b64_value a; y ← b64_value b;
      Some (String (ascii_of_N (x * 4 + y / 16)) "")
  | String a (String b (String c "")) =>
      x ← b64_value a; y ← b64_value b; z ← b64_value c;
      Some (String (ascii_of_N (x * 4 + y / 16))
        (String (ascii_of_N (y mod 16 * 16 + z / 4)) ""))
  | String a (String b (String c (String d s'))) =>
      x ← b64_value a; y ← b64_value b; z ← b64_value c; w ← b64_value d;
      r ← b64_quanta s';
      Some (String (ascii_of_N (x * 4 + y / 16)) (String (ascii_of_N (y mod 16 * 16 + z / 4))
        (String (ascii_of_N (z mod 4 * 64 + w)) r)))
  end%N.
Fixpoint drop_line_breaks (s : string) : string :=
  match s with
  | "" => ""
  | String a s' =>
      if ((N_of_ascii a =? 10) || (N_of_ascii a =? 13))%N then drop_line_breaks s'
      else String a (drop_line_breaks s')
  end.
Definition DecodeString (s : string) : option string := b64_quanta (drop_line_breaks s).

Example base64_ex :
  EncodeToString "ab?>" = "YWI_Pg" ∧ DecodeString "YWI_Pg" = Some "ab?>" ∧ DecodeString "YWI_P" = None.
Proof. vm_compute. done. Qed.

Definition b64_char_ok (n : N) : bool :=
  match b64_value (b64_char n) with Some m => (m =? n)%N | None => false end &&
  negb ((N_of_ascii (b64_char n) =? 10) || (N_of_ascii (b64_char n) =? 13))%N.
Lemma b64_chars_ok n : (n < 64)%N → b64_char_ok n = true.
Proof.
  intros Hn. assert (forallb b64_char_ok (N.of_nat <$> seq 0 64) = true) as H by reflexivity.
  rewrite forallb_forall in H. apply H, list_elem_of_In, list_elem_of_fmap.
  exists (N.to_nat n). rewrite elem_of_seq. split; lia.
Qed.
Lemma b64_value_char n : (n < 64)%N → b64_value (b64_char n) = Some n.
Proof.
  intros [H _]%b64_chars_ok%andb_true_iff. destruct (b64_value _); [|done].
  f_equal. by apply N.eqb_eq.
Qed.
Lemma b64_char_not_break n :
  (n < 64)%N → ((N_of_ascii (b64_char n) =? 10) || (N_of_ascii (b64_char n) =? 13))%N = false.
Proof. intros [_ H]%b64_chars_ok%andb_true_iff. by apply negb_true_iff. Qed.
Lemma byte_bound a : (N_of_ascii a < 256)%N.
Proof. apply N_ascii_bounded. Qed.
Lemma byte_of a n : n = N_of_ascii a → ascii_of_N n = a.
Proof. intros ->. apply ascii_N_embedding. Qed.

Ltac sextets :=
  zify; Z.to_euclidean_division_equations; lia.
Lemma string_triples (P : string → Prop) :
  P "" → (∀ a, P (String a "")) → (∀ a b, P (String a (String b ""))) →
  (∀ a b c s, P s → P (String a (String b (String c s)))) → ∀ s, P s.
Proof.
  intros H0 H1 H2 H3 s. remember (String.length s) as n eqn:Hn.
  assert (String.length s ≤ n)%nat as Hle by lia. clear Hn. revert s Hle.
  induction n as [|n IH]; intros [|a [|b [|c s]]] Hle; simpl in *; auto; try lia.
  apply H3, IH. lia.
Qed.
Lemma drop_line_breaks_encoded s : drop_line_breaks (EncodeToString s) = EncodeToString s.
Proof.
  induction s as [|a|a b|a b c s IH] using string_triples; [done|..];
    pose proof (byte_bound a); try pose proof (byte_bound b); try pose proof (byte_bound c);
    cbn [EncodeToString drop_line_breaks];
    rewrite !b64_char_not_break by sextets; [done..|]. by rewrite IH.
Qed.
(** The decoder inverts the encoder on every byte string. *)
Lemma DecodeString_EncodeToString s : DecodeString (EncodeToString s) = Some s.
Proof.
  unfold DecodeString. rewrite drop_line_breaks_encoded.
  induction s as [|a|a b|a b c s IH] using string_triples; [done|..];
    pose proof (byte_bound a); try pose proof (byte_bound b); try pose proof (byte_bound c);
    cbn [EncodeToString b64_quanta];
    rewrite !b64_value_char by sextets; cbn [mbind option_bind].
  - rewrite (byte_of a) by sextets. done.
  - rewrite (byte_of a), (byte_of b) by sextets. done.
  - rewrite IH. cbn [mbind option_bind].
    rewrite (byte_of a), (byte_of b), (byte_of c) by sextets. done.
Qed.

(** ** Decimal integers: [strconv.ParseInt(s, 10, 64)] and [strconv.Atoi] *)
Inductive NumErr := ErrSyntax | ErrRange.
Definition digit_value (a : ascii) : option Z :=
  let c := Z.of_N (N_of_ascii a) in if (48 <=? c) && (c <=? 57) then Some (c - 48) else None.
Definition is_digit (a : ascii) : bool := bool_decide (is_Some (digit_value a)).
(** [ParseUint]: a character that is no digit wins over an overflow only when it
    is read first. *)
Fixpoint parse_uint (acc : Z) (s : string) : NumErr + Z :=
  match s with
  | "" => inr acc
  | String a s' =>
      match digit_value a with
      | None => inl ErrSyntax
      | Some d => if 2^64 <=? acc * 10 + d then inl ErrRange else parse_uint (acc * 10 + d) s'
      end
  end.
Definition ParseInt (s : string) : Z * option NumErr :=
  let signed (neg : bool) (body : string) :=
    match (if bool_decide (body = "") then inl ErrSyntax else parse_uint 0 body) with
    | inl ErrSyntax => (0, Some ErrSyntax)
    | inl ErrRange => (if neg then int64_min else int64_max, Some ErrRange)
    | inr n =>
        if neg then if 2^63 <? n then (int64_min, Some ErrRange) else (- n, None)
        else if 2^63 <=? n then (int64_max, Some ErrRange) else (n, None)
    end in
  match s with
  | String "+" s' => signed false s'
  | String "-" s' => signed true s'
  | _ => signed false s
  end.
(** [NumError.Error()]. *)
Definition num_error (fn s : string) (e : NumErr) : err :=
  errors_new ("strconv." +:+ fn +:+ ": parsing " +:+ quote s +:+ ": " +:+
    match e with ErrSyntax => "invalid syntax" | ErrRange => "value out of range" end).

Example ParseInt_ex :
  ParseInt <$> ["42"; "-7"; "+0"; ""; "4 2"; "9223372036854775808"; "-9223372036854775808";
                "99999999999999999999x"; "-"] =
  [(42, None); (-7, None); (0, None); (0, Some ErrSyntax); (0, Some ErrSyntax);
   (int64_max, Some ErrRange); (int64_min, None); (int64_max, Some ErrRange); (0, Some ErrSyntax)].
Proof. vm_compute. reflexivity. Qed.

(** *** Printed digits *)
Definition digit_char (d : Z) : ascii := ascii_of_N (48 + Z.to_N d).
Lemma digit_value_char d : 0 ≤ d < 10 → digit_value (digit_char d) = Some d.
Proof.
  intros Hd. unfold digit_value, digit_char.
  rewrite N_ascii_embedding by lia.
  rewrite N2Z.inj_add, Z2N.id by lia.
  change (Z.of_N 48) with 48.
  rewrite (proj2 (andb_true_iff _ _)) by (split; lia). f_equal. lia.
Qed.
Lemma is_digit_char d : 0 ≤ d < 10 → is_digit (digit_char d) = true.
Proof. intros Hd. unfold is_digit. by rewrite digit_value_char. Qed.

Definition all_digits (s : string) : Prop := Forall (λ a, is_digit a) (String.list_ascii_of_string s).
(** The digits of a number in front of a digit string, without the bound of the
    width. *)
Fixpoint digits_value (acc : Z) (s : string) : option Z :=
  match s with
  | "" => Some acc
  | String a s' => match digit_value a with None => None | Some d => digits_value (acc * 10 + d) s' end
  end.

Lemma digits_go_value fuel (n : N) tail :
  (n < 2 ^ N.of_nat fuel)%N → (0 < fuel)%nat →
  digits_value 0 (digits_go fuel n tail) = digits_value (Z.of_N n) tail.
Proof.
  revert n tail. induction fuel as [|f IH]; intros n tail Hn Hf; [lia|].
  cbn [digits_go]. destruct (N.ltb_spec n 10) as [E|E].
  - cbn [digits_value].
    rewrite N.mod_small by lia.
    replace (ascii_of_N (48 + n)) with (digit_char (Z.of_N n)) by (unfold digit_char; by rewrite N2Z.id).
    rewrite digit_value_char by lia. done.
  - destruct f as [|f]; [change (2 ^ N.of_nat 1)%N with 2%N in Hn; lia|].
    rewrite IH; [|rewrite Nat2N.inj_succ, N.pow_succ_r' in Hn; sextets|lia].
    cbn [digits_value].
    replace (ascii_of_N (48 + n mod 10)) with (digit_char (Z.of_N (n mod 10)))
      by (unfold digit_char; by rewrite N2Z.id).
    rewrite digit_value_char by sextets. f_equal. sextets.
Qed.
Lemma digits_go_digits fuel n tail : all_digits tail → all_digits (digits_go fuel n tail).
Proof.
  revert n tail. induction fuel as [|f IH]; intros n tail Ht; [done|].
  assert (all_digits (String (ascii_of_N (48 + n mod 10)) tail)) as H.
  { constructor; [|done]. apply Is_true_true.
    rewrite <- (N2Z.id (n mod 10)).
    apply is_digit_char. sextets. }
  cbn [digits_go]. destruct (n <? 10)%N; [done|by apply IH].
Qed.
Lemma string_of_N_value n : digits_value 0 (string_of_N n) = Some (Z.of_N n).
Proof.
  unfold string_of_N. rewrite digits_go_value; [done| |lia].
  rewrite Nat2N.inj_succ, N2Nat.id. destruct (decide (n = 0%N)) as [->|]; [done|].
  apply N.log2_spec. lia.
Qed.
Lemma string_of_N_digits n : all_digits (string_of_N n).
Proof. apply digits_go_digits. constructor. Qed.
Lemma digits_go_nonempty fuel n tail : (0 < fuel)%nat → digits_go fuel n tail ≠ "".
Proof.
  revert n tail. induction fuel as [|f IH]; intros n tail Hf; [lia|].
  cbn [digits_go]. destruct (n <? 10)%N; [done|]. destruct f; [done|]. apply IH. lia.
Qed.
Lemma digits_value_ge s acc n : 0 ≤ acc → digits_value acc s = Some n → acc ≤ n.
Proof.
  revert acc. induction s as [|a s IH]; intros acc H0; cbn [digits_value]; [naive_solver lia|].
  destruct (digit_value a) as [d|] eqn:E; [|done]. intros H.
  assert (0 ≤ d) by (unfold digit_value in E; case_match; naive_solver lia).
  apply IH in H; lia.
Qed.
Lemma parse_uint_value s acc n :
  0 ≤ acc → n < 2^64 → digits_value acc s = Some n → parse_uint acc s = inr n.
Proof.
  revert acc. induction s as [|a s IH]; intros acc H0 Hn; cbn [digits_value parse_uint].
  { by intros [= ->]. }
  destruct (digit_value a) as [d|] eqn:E; [|done]. intros H.
  assert (0 ≤ d) by (unfold digit_value in E; case_match; naive_solver lia).
  assert (acc * 10 + d ≤ n) by (apply (digits_value_ge s); [lia|done]).
  destruct (2^64 <=? acc * 10 + d) eqn:?; [lia|]. apply IH; [lia|done|done].
Qed.
Lemma digit_head_unsigned {A} (s : string) (f g : string → A) (k : A) :
  all_digits s → match s with String "+" s' => f s' | String "-" s' => g s' | _ => k end = k.
Proof.
  destruct s as [|a s]; [done|]. intros [Ha%Is_true_true _]%Forall_cons.
  destruct a as [[] [] [] [] [] [] [] []]; done.
Qed.
(** Every integer of the width survives printing and parsing. *)
Lemma ParseInt_itoa z : in_int64 z → ParseInt (itoa z) = (z, None).
Proof.
  unfold in_int64, int64_min, int64_max. intros Hz. unfold ParseInt, itoa.
  destruct z as [|p|p]; [done|..].
  - rewrite digit_head_unsigned by apply string_of_N_digits.
    rewrite bool_decide_eq_false_2 by (apply digits_go_nonempty; lia).
    rewrite (parse_uint_value _ _ (Zpos p)) by first [apply (string_of_N_value (Npos p))|lia].
    destruct (2^63 <=? Z.pos p) eqn:?; [lia|done].
  - change ("-" +:+ ?s) with (String "-" s). cbv beta iota zeta.
    rewrite bool_decide_eq_false_2 by (apply digits_go_nonempty; lia).
    rewrite (parse_uint_value _ _ (Zpos p)) by first [apply (string_of_N_value (Npos p))|lia].
    destruct (2^63 <? Z.pos p) eqn:?; [lia|done].
Qed.

(** ** JSON text

    [json.Marshal] escapes strings as the encoder does for ASCII, HTML
    characters included. *)
Definition json_byte (a : ascii) : string :=
  let n := N_of_ascii a in
  let esc c := bytes [92; c]%N in
  if (n =? 34)%N then esc 34%N else if (n =? 92)%N then esc 92%N
  else if (n =? 8)%N then esc 98%N else if (n =? 12)%N then esc 102%N
  else if (n =? 10)%N then esc 110%N else if (n =? 13)%N then esc 114%N
  else if (n =? 9)%N then esc 116%N
  else if ((n <? 32) || (n =? 38) || (n =? 60) || (n =? 62))%N then
    esc 117%N +:+ "00" +:+ String (hex_digit (n / 16)) (String (hex_digit (n mod 16)) "")
  else String a "".
Fixpoint json_body (s : string) : string :=
  match s with "" => "" | String a s' => json_byte a +:+ json_body s' end.
Definition json_string (s : string) : string := bytes [34%N] +:+ json_body s +:+ bytes [34%N].
Definition json_object (fields : list (string * string)) : string :=
  "{" +:+ Join ((λ kv, json_string kv.1 +:+ ":" +:+ kv.2) <$> fields) "," +:+ "}".

(** *** The reader

    Values keep the literal of a number and the order of the members. *)
Inductive json :=
| JNull
| JBool (b : bool)
| JNum (literal : string)
| JStr (s : string)
| JArr (l : list json)
| JObj (members : list (string * json)).

Definition hex_value (a : ascii) : option N :=
  let c := N_of_ascii a in
  if ((48 <=? c) && (c <=? 57))%N then Some (c - 48)%N
  else if ((97 <=? c) && (c <=? 102))%N then Some (c - 87)%N
  else if ((65 <=? c) && (c <=? 70))%N then Some (c - 55)%N
  else None.
Definition hex4 (a b c d : ascii) : option N :=
  x ← hex_value a; y ← hex_value b; z ← hex_value c; w ← hex_value d;
  Some (x * 4096 + y * 256 + z * 16 + w)%N.
(** [utf8.AppendRune]. *)
Definition utf8 (r : N) : string :=
  if (r <? 128)%N then bytes [r]
  else if (r <? 2048)%N then bytes [192 + r / 64; 128 + r mod 64]%N
  else if (r <? 65536)%N then bytes [224 + r / 4096; 128 + r / 64 mod 64; 128 + r mod 64]%N
  else bytes [240 + r / 262144; 128 + r / 4096 mod 64; 128 + r / 64 mod 64; 128 + r mod 64]%N.
Definition replacement : string := bytes [239; 191; 189]%N.
Definition high_surrogate (u : N) : bool := ((55296 <=? u) && (u <? 56320))%N.
Definition low_surrogate (u : N) : bool := ((56320 <=? u) && (u <? 57344))%N.
Definition simple_escape (a : ascii) : option ascii :=
  let c := N_of_ascii a in
  if ((c =? 34) || (c =? 92) || (c =? 47))%N then Some a
  else ascii_of_N <$> (if (c =? 98)%N then Some 8%N else if (c =? 102)%N then Some 12%N
    else if (c =? 110)%N then Some 10%N else if (c =? 114)%N then Some 13%N
    else if (c =? 116)%N then Some 9%N else None).
Definition prepend (w : string) (r : option (string * string)) : option (string * string) :=
  '(s, rest) ← r; Some (w +:+ s, rest).
(** The rest of a string literal behind its opening quote; an unpaired surrogate
    becomes the replacement character. *)
Fixpoint read_string (s : string) : option (string * string) :=
  match s with
  | "" => None
  | String a s1 =>
      let c := N_of_ascii a in
      if (c =? 34)%N then Some ("", s1)
      else if (c <? 32)%N then None
      else if (c =? 92)%N then
        match s1 with
        | "" => None
        | String e s2 =>
            if (N_of_ascii e =? 117)%N then
              match s2 with
              | String h1 (String h2 (String h3 (String h4 s3))) =>
                  u ← hex4 h1 h2 h3 h4;
                  if high_surrogate u then
                    match s3 with
                    | String "\" (String "u" (String k1 (String k2 (String k3 (String k4 s4))))) =>
                        v ← hex4 k1 k2 k3 k4;
                        if low_surrogate v
                        then prepend (utf8 (65536 + (u - 55296) * 1024 + (v - 56320))) (read_string s4)
                        else prepend replacement (read_string s3)
                    | _ => prepend replacement (read_string s3)
                    end
                  else if low_surrogate u then prepend replacement (read_string s3)
                  else prepend (utf8 u) (read_string s3)
              | _ => None
              end
            else match simple_escape e with
                 | Some b => prepend (String b "") (read_string s2)
                 | None => None
                 end
        end
      else prepend (String a "") (read_string s1)
  end.

Fixpoint skip_space (s : string) : string :=
  match s with
  | String a s' =>
      if bool_decide (N_of_ascii a ∈ [32; 9; 10; 13]%N) then skip_space s' else s
  | "" => ""
  end.
Fixpoint span_digits (s : string) : string * string :=
  match s with
  | String a s' =>
      if is_digit a then let '(d, r) := span_digits s' in (String a d, r) else ("", s)
  | "" => ("", "")
  end.
Definition digits1 (s : string) : option (string * string) :=
  match span_digits s with ("", _) => None | r => Some r end.
Definition is_char (n : list N) (s : string) : option (string * string) :=
  match s with
  | String a s' => if bool_decide (N_of_ascii a ∈ n) then Some (String a "", s') else None
  | "" => None
  end.
Definition quote_char : ascii := ascii_of_N 34.
Definition expect (c : ascii) (s : string) : option string :=
  match s with String a s' => if Ascii.eqb a c then Some s' else None | "" => None end.
Definition optional (r : option (string * string)) (s : string) : string * string :=
  default ("", s) r.
(** [-? (0 | [1-9][0-9]* ) (\. [0-9]+)? ([eE] [+-]? [0-9]+)?]. *)
Definition read_number (s : string) : option (string * string) :=
  let '(sign, s) := optional (is_char [45%N] s) s in
  '(int, s) ← match expect "0" s with Some s' => Some ("0", s') | None => digits1 s end;
  '(frac, s) ← match is_char [46%N] s with
               | Some (p, s') => '(d, s'') ← digits1 s'; Some (p +:+ d, s'')
               | None => Some ("", s)
               end;
  '(ex, s) ← match is_char [101; 69]%N s with
             | Some (p, s') =>
                 let '(q, s') := optional (is_char [43; 45]%N s') s' in
                 '(d, s'') ← digits1 s'; Some (p +:+ q +:+ d, s'')
             | None => Some ("", s)
             end;
  Some (sign +:+ int +:+ frac +:+ ex, s).

(** There are at most two calls for a character, so twice the length of the
    text is fuel enough ([read_value_fuel]); [depth] is what is left of the
    scanner's ten thousand levels. *)
Fixpoint read_value (fuel : nat) (depth : Z) (s : string) : option (json * string) :=
  match fuel with
  | O => None
  | S f =>
      let s := skip_space s in
      match expect "{" s with
      | Some s1 =>
          if depth <=? 0 then None else
          match expect "}" (skip_space s1) with
          | Some r => Some (JObj [], r)
          | None => '(ms, r) ← read_members f (depth - 1) s1; Some (JObj ms, r)
          end
      | None =>
      match expect "[" s with
      | Some s1 =>
          if depth <=? 0 then None else
          match expect "]" (skip_space s1) with
          | Some r => Some (JArr [], r)
          | None => '(vs, r) ← read_elements f (depth - 1) s1; Some (JArr vs, r)
          end
      | None =>
      match expect quote_char s with
      | Some s1 => '(v, r) ← read_string s1; Some (JStr v, r)
      | None =>
      match string_prefix_drop "true" s with
      | Some r => Some (JBool true, r)
      | None =>
      match string_prefix_drop "false" s with
      | Some r => Some (JBool false, r)
      | None =>
      match string_prefix_drop "null" s with
      | Some r => Some (JNull, r)
      | None => '(n, r) ← read_number s; Some (JNum n, r)
      end end end end end end
  end
with read_members (fuel : nat) (depth : Z) (s : string) : option (list (string * json) * string) :=
  match fuel with
  | O => None
  | S f =>
      s1 ← expect quote_char (skip_space s);
      '(k, s2) ← read_string s1;
      s3 ← expect ":" (skip_space s2);
      '(v, s4) ← read_value f depth s3;
      match expect "," (skip_space s4) with
      | Some s5 => '(ms, r) ← read_members f depth s5; Some ((k, v) :: ms, r)
      | None => r ← expect "}" (skip_space s4); Some ([(k, v)], r)
      end
  end
with read_elements (fuel : nat) (depth : Z) (s : string) : option (list json * string) :=
  match fuel with
  | O => None
  | S f =>
      '(v, s1) ← read_value f depth s;
      match expect "," (skip_space s1) with
      | Some s2 => '(vs, r) ← read_elements f depth s2; Some (v :: vs, r)
      | None => r ← expect "]" (skip_space s1); Some ([v], r)
      end
  end.
Definition max_nesting : Z := 10000.
(** The syntax tree of a document, blanks around it included. *)
Definition read_json (s : string) : option json :=
  match read_value (S (2 * String.length s)) max_nesting s with
  | Some (v, r) => if bool_decide (skip_space r = "") then Some v else None
  | None => None
  end.

(** Literals for the examples: an apostrophe stands for a double quote. *)
Fixpoint quoted (s : string) : string :=
  match s with
  | "" => ""
  | String a s' => String (if Ascii.eqb a "'" then ascii_of_N 34 else a) (quoted s')
  end.
Example read_json_ex :
  read_json (quoted " { 'a' : [1, -2.5e+3, true], 'b':{}, 'c':'x\ty\u00e8\ud83d\ude00' } ") =
  Some (JObj [("a", JArr [JNum "1"; JNum "-2.5e+3"; JBool true]); ("b", JObj []);
              ("c", JStr ("x" +:+ bytes [9]%N +:+ "y" +:+ bytes [195; 168; 240; 159; 152; 128]%N))]) ∧
  read_json "01" = None ∧ read_json "[[[[[]]]]]" ≠ None ∧ read_json (quoted "{'a':1,}") = None.
Proof. vm_compute. done. Qed.

(** *** Fuel *)
Definition shorter {A} (k : nat) (s : string) (r : option (A * string)) : Prop :=
  ∀ v s', r = Some (v, s') → (String.length s' + k ≤ String.length s)%nat.
Lemma skip_space_length s : (String.length (skip_space s) ≤ String.length s)%nat.
Proof. induction s as [|a s IH]; simpl; [done|]. case_match; simpl; lia. Qed.
Lemma span_digits_length s : (String.length (span_digits s).2 ≤ String.length s)%nat.
Proof.
  induction s as [|a s IH]; simpl; [done|]. case_match; simpl; [|lia].
  destruct (span_digits s). simpl in *. lia.
Qed.

Lemma digits1_shorter s : shorter 1 s (digits1 s).
Proof.
  intros v s'. unfold digits1. destruct s as [|a s]; simpl; [done|].
  pose proof (span_digits_length s). destruct (is_digit a); [|done].
  destruct (span_digits s). simpl in *. intros [= <- <-]. lia.
Qed.
Lemma is_char_shorter n s : shorter 1 s (is_char n s).
Proof. intros v s'. destruct s as [|a s]; simpl; [done|]. case_match; naive_solver lia. Qed.
Lemma optional_length n s : (String.length (optional (is_char n s) s).2 ≤ String.length s)%nat.
Proof.
  unfold optional. destruct (is_char n s) as [[v s']|] eqn:E; [|done].
  apply is_char_shorter in E. simpl. lia.
Qed.
Lemma prefix_drop_length w s r :
  string_prefix_drop w s = Some r → (String.length r + String.length w = String.length s)%nat.
Proof.
  revert s. induction w as [|a w IH]; intros s; simpl; [intros [= ->]; lia|].
  destruct s as [|b s]; [done|]. destruct (Ascii.eqb a b); [|done]. intros H%IH. simpl. lia.
Qed.
Lemma expect_length c s r : expect c s = Some r → (String.length r + 1 = String.length s)%nat.
Proof. destruct s as [|a s]; simpl; [done|]. case_match; [|done]. intros [= ->]. lia. Qed.
(** Invert a chain of binds that returned something. *)
Ltac some_inv :=
  repeat match goal with
  | H : (_ ≫= _) = Some _ |- _ => apply bind_Some in H as (? & ? & H)
  | H : prepend _ _ = Some _ |- _ => unfold prepend in H
  | H : Some _ = Some _ |- _ => injection H as H; subst
  | H : None = Some _ |- _ => discriminate H
  | x : _ * _ |- _ => destruct x
  | H : (_, _) = (_, _) |- _ => injection H as H; subst
  end.
Lemma read_number_shorter s : shorter 1 s (read_number s).
Proof.
  intros v s' H. unfold read_number in H.
  pose proof (optional_length [45%N] s) as H0. destruct (optional _ s) as [sign s0]. simpl in H0.
  apply bind_Some in H as ([int s1] & H1 & H).
  assert (String.length s1 + 1 ≤ String.length s0)%nat as L1.
  { destruct (expect "0" s0) eqn:E; [apply expect_length in E; some_inv; lia|].
    by apply digits1_shorter in H1. }
  apply bind_Some in H as ([frac s2] & H2 & H).
  assert (String.length s2 ≤ String.length s1)%nat as L2.
  { destruct (is_char [46%N] s1) as [[p s1']|] eqn:E; [|some_inv; lia].
    apply is_char_shorter in E. some_inv.
    match goal with D : digits1 _ = _ |- _ => apply digits1_shorter in D end. lia. }
  apply bind_Some in H as ([ex s3] & H3 & H).
  assert (String.length s3 ≤ String.length s2)%nat as L3.
  { destruct (is_char [101; 69]%N s2) as [[p s2']|] eqn:E; [|some_inv; lia].
    apply is_char_shorter in E. pose proof (optional_length [43; 45]%N s2') as L.
    destruct (optional _ s2'). simpl in L. some_inv.
    match goal with D : digits1 _ = _ |- _ => apply digits1_shorter in D end. lia. }
  some_inv. lia.
Qed.
Lemma read_string_shorter s : shorter 1 s (read_string s).
Proof.
  remember (String.length s) as n eqn:Hn. assert (String.length s ≤ n)%nat as Hle by lia.
  clear Hn. revert s Hle. induction n as [|n IH]; intros s Hle v s' H.
  { destruct s; simpl in *; [done|lia]. }
  destruct s as [|a s1]; [done|]. simpl in Hle.
  assert (Hstep : ∀ w s2, prepend w (read_string s2) = Some (v, s') →
    (String.length s2 ≤ n)%nat → (String.length s' + 1 ≤ String.length s2)%nat).
  { intros w s2 Hp Hs2. some_inv.
    match goal with D : read_string _ = _ |- _ => apply IH in D; [done|done] end. }
  cbn [read_string] in H. cbn [String.length].
  case_match; [some_inv; simpl; lia|]. case_match; [done|].
  case_match; [|apply Hstep in H; lia].
  destruct s1 as [|e s2]; [done|]. cbn [String.length] in *. case_match.
  - destruct s2 as [|h1 [|h2 [|h3 [|h4 s3]]]]; try done. cbn [String.length] in *.
    apply bind_Some in H as (u & _ & H).
    assert (Hfar : prepend replacement (read_string s3) = Some (v, s') →
      (String.length s' + 1 ≤ String.length s3)%nat) by (intros Hp; apply Hstep in Hp; lia).
    case_match; [|case_match; apply Hstep in H; lia].
    repeat (case_match; try (apply Hfar in H; cbn [String.length] in *; lia)).
    apply bind_Some in H as (x & _ & H). cbn [String.length] in *.
    case_match; [apply Hstep in H; lia|].
    apply Hstep in H; cbn [String.length] in *; lia.
  - case_match; [apply Hstep in H; lia|done].
Qed.


(** Lengths of what the readers left over. *)
Ltac lengths :=
  repeat match goal with
  | H : expect _ _ = Some _ |- _ => apply expect_length in H
  | H : read_string _ = Some _ |- _ => apply read_string_shorter in H
  | H : read_number _ = Some _ |- _ => apply read_number_shorter in H
  | H : string_prefix_drop _ _ = Some _ |- _ =>
      apply prefix_drop_length in H; cbn [String.length] in H
  | H : ?f _ _ _ = Some _, IH : ∀ d s, shorter 1 s (?f _ d s) |- _ => apply IH in H
  end;
  repeat match goal with
  | H : context [String.length (skip_space ?s)] |- _ =>
      lazymatch goal with
      | _ : (String.length (skip_space s) ≤ String.length s)%nat |- _ => fail
      | _ => pose proof (skip_space_length s)
      end
  end.
Lemma reader_shorter fuel :
  (∀ d s, shorter 1 s (read_value fuel d s)) ∧
  (∀ d s, shorter 1 s (read_members fuel d s)) ∧
  (∀ d s, shorter 1 s (read_elements fuel d s)).
Proof.
  induction fuel as [|f (IHv & IHm & IHe)]; [done|].
  split_and!; intros d s v s' H; cbn [read_value read_members read_elements] in H;
    some_inv; repeat (case_match; some_inv; try done); lengths; try lia.
Qed.
(** Unfold the reader by one call on both sides of [r (S (S f)) = r (S f)]. *)
Ltac unfold_both r :=
  match goal with
  | |- r (S (S ?f)) ?d ?s = _ =>
      let t := eval cbn [r] in (r (S f) d s) in change (r (S f) d s) with t;
      let g := fresh "g" in let Hg := fresh in
      remember (S f) as g eqn:Hg; cbn [r]; subst g
  end.
(** More fuel than twice the length changes nothing. *)
Lemma reader_fuel fuel :
  (∀ d s, (2 * String.length s < fuel)%nat → read_value (S fuel) d s = read_value fuel d s) ∧
  (∀ d s, (2 * String.length s < fuel)%nat → read_members (S fuel) d s = read_members fuel d s) ∧
  (∀ d s, (2 * String.length s + 1 < fuel)%nat →
     read_elements (S fuel) d s = read_elements fuel d s).
Proof.
  induction fuel as [|f (IHv & IHm & IHe)]; [split_and!; lia|].
  split_and!; intros d s Hs.
  - unfold_both read_value. pose proof (skip_space_length s).
    destruct (expect "{" (skip_space s)) eqn:E1; [apply expect_length in E1; by rewrite IHm by lia|].
    destruct (expect "[" (skip_space s)) eqn:E2; [apply expect_length in E2; by rewrite IHe by lia|].
    done.
  - unfold_both read_members. pose proof (skip_space_length s).
    destruct (expect quote_char (skip_space s)) as [s1|] eqn:E1; [|done]. cbn [mbind option_bind].
    destruct (read_string s1) as [[k s2]|] eqn:E2; [|done]. cbn [mbind option_bind].
    destruct (expect ":" (skip_space s2)) as [s3|] eqn:E3; [|done]. cbn [mbind option_bind].
    lengths. rewrite IHv by lia. destruct (read_value f d s3) as [[v s4]|] eqn:E4; [|done].
    apply reader_shorter in E4. cbn [mbind option_bind].
    destruct (expect "," (skip_space s4)) as [s5|] eqn:E5; [|done].
    lengths. by rewrite IHm by lia.
  - unfold_both read_elements. rewrite IHv by lia.
    destruct (read_value f d s) as [[v s1]|] eqn:E1; [|done].
    apply reader_shorter in E1. cbn [mbind option_bind].
    destruct (expect "," (skip_space s1)) as [s2|] eqn:E2; [|done].
    lengths. by rewrite IHe by lia.
Qed.
Lemma read_value_fuel d s k :
  read_value (k + S (2 * String.length s)) d s = read_value (S (2 * String.length s)) d s.
Proof. induction k as [|k IH]; [done|]. rewrite <- IH. apply reader_fuel. lia. Qed.

(** *** Printing and reading *)
Lemma app_assoc_s (a b c : string) : (a +:+ b) +:+ c = a +:+ (b +:+ c).
Proof. unfold String.app. induction a as [|x a IH]; simpl; [done|by rewrite IH]. Qed.
Lemma app_nil_s (a : string) : a +:+ "" = a.
Proof. unfold String.app. induction a as [|x a IH]; simpl; [done|by rewrite IH]. Qed.
Lemma app_cons_s x (a b : string) : String x a +:+ b = String x (a +:+ b).
Proof. done. Qed.
Lemma read_json_byte a t : read_string (json_byte a +:+ t) = prepend (String a "") (read_string t).
Proof. destruct a as [[] [] [] [] [] [] [] []]; reflexivity. Qed.
Lemma read_json_body s t : read_string (json_body s +:+ String quote_char t) = Some (s, t).
Proof.
  induction s as [|a s IH]; [reflexivity|].
  cbn [json_body]. by rewrite app_assoc_s, read_json_byte, IH.
Qed.

(** ** Times

    A time is its number of nanoseconds since the epoch, UTC. *)
Definition padded (width : nat) (n : Z) : string :=
  let s := itoa n in zeros (width - String.length s) +:+ s.
(** The proleptic Gregorian date of a day, with the year starting in March
    inside the computation. *)
Definition civil (days : Z) : Z * Z * Z :=
  let z := days + 719468 in
  let era := z / 146097 in
  let doe := z mod 146097 in
  let yoe := (doe - doe / 1460 + doe / 36524 - doe / 146096) / 365 in
  let doy := doe - (365 * yoe + yoe / 4 - yoe / 100) in
  let mp := (5 * doy + 2) / 153 in
  let d := doy - (153 * mp + 2) / 5 + 1 in
  let m := if mp <? 10 then mp + 3 else mp - 9 in
  (yoe + era * 400 + (if m <=? 2 then 1 else 0), m, d).
(** [2006-01-02T15:04:05]. *)
Definition clock_text (t : Z) : string :=
  let s := t / Second in
  let '(y, m, d) := civil (s / 86400) in
  let r := s mod 86400 in
  padded 4 y +:+ "-" +:+ padded 2 m +:+ "-" +:+ padded 2 d +:+ "T" +:+
  padded 2 (r / 3600) +:+ ":" +:+ padded 2 (r / 60 mod 60) +:+ ":" +:+ padded 2 (r mod 60).
(** [time.Time.Format(time.RFC3339)] and [Format(time.RFC3339Nano)] of a UTC time
    of a year below 10000; [MarshalJSON] puts the latter in quotes. *)
Definition rfc3339 (t : Z) : string := clock_text t +:+ "Z".
Definition RFC3339Nano (t : Z) : string :=
  clock_text t +:+ fraction (t mod Second) 9 +:+ "Z".
Definition json_time (t : Z) : string := bytes [34%N] +:+ RFC3339Nano t +:+ bytes [34%N].

(** *** [time.Parse(time.RFC3339Nano, s)] *)
Definition days_from_civil (y m d : Z) : Z :=
  let y' := if m <=? 2 then y - 1 else y in
  let era := y' / 400 in
  let yoe := y' mod 400 in
  let mp := if m <=? 2 then m + 9 else m - 3 in
  let doy := (153 * mp + 2) / 5 + d - 1 in
  era * 146097 + (yoe * 365 + yoe / 4 - yoe / 100 + doy) - 719468.
Definition is_leap (y : Z) : bool :=
  (y mod 4 =? 0) && (negb (y mod 100 =? 0) || (y mod 400 =? 0)).
Definition days_in (m y : Z) : Z :=
  if m =? 2 then if is_leap y then 29 else 28
  else if bool_decide (m ∈ [4; 6; 9; 11]) then 30 else 31.
(** One or two digits, two when the field of the layout is padded. *)
Definition getnum (fixed : bool) (s : string) : option (Z * string) :=
  match s with
  | "" => None
  | String a s1 =>
      x ← digit_value a;
      match s1 with
      | "" => if fixed then None else Some (x, s1)
      | String b s2 =>
          match digit_value b with
          | Some y => Some (x * 10 + y, s2)
          | None => if fixed then None else Some (x, s1)
          end
      end
  end.
Definition long_year (s : string) : option (Z * string) :=
  match s with
  | String a (String b (String c (String d r))) =>
      y ← digits_value 0 (String a (String b (String c (String d "")))); Some (y, r)
  | _ => None
  end.
Fixpoint take_s (n : nat) (s : string) : string :=
  match n, s with S n', String a s' => String a (take_s n' s') | _, _ => "" end.
(** A fraction behind the seconds: a period or a comma and digits, of which nine
    count. *)
Definition frac_second (s : string) : Z * string :=
  match is_char [46; 44]%N s with
  | Some (_, s1) =>
      match digits1 s1 with
      | Some (ds, r) =>
          let ds := take_s 9 ds in
          (default 0 (digits_value 0 ds) * 10 ^ (9 - Z.of_nat (String.length ds)), r)
      | None => (0, s)
      end
  | None => (0, s)
  end.
(** [Z] or a signed offset in seconds. *)
Definition zone_offset (s : string) : option (Z * string) :=
  match expect "Z" s with
  | Some r => Some (0, r)
  | None =>
      '(sign, s1) ← is_char [43; 45]%N s;
      '(hr, s2) ← getnum true s1;
      s3 ← expect ":" s2;
      '(mm, r) ← getnum true s3;
      if (24 <? hr) || (60 <? mm) then None
      else Some ((if String.eqb sign "-" then -1 else 1) * ((hr * 60 + mm) * 60), r)
  end.
Definition in_range (lo hi x : Z) : option unit := if (lo <=? x) && (x <=? hi) then Some tt else None.
Definition parse_RFC3339Nano (s : string) : option Z :=
  '(y, s) ← long_year s; s ← expect "-" s;
  '(m, s) ← getnum true s; _ ← in_range 1 12 m; s ← expect "-" s;
  '(d, s) ← getnum true s; s ← expect "T" s;
  '(hh, s) ← getnum false s; _ ← in_range 0 23 hh; s ← expect ":" s;
  '(mi, s) ← getnum true s; _ ← in_range 0 59 mi; s ← expect ":" s;
  '(ss, s) ← getnum true s; _ ← in_range 0 59 ss;
  let '(ns, s) := frac_second s in
  '(off, s) ← zone_offset s;
  _ ← in_range 1 (days_in m y) d;
  if bool_decide (s = "") then
    Some ((days_from_civil y m d * 86400 + hh * 3600 + mi * 60 + ss - off) * Second + ns)
  else None.

Example RFC3339Nano_ex :
  RFC3339Nano 1700000000120000000 = "2023-11-14T22:13:20.12Z" ∧
  parse_RFC3339Nano "2023-11-14T22:13:20.12Z" = Some 1700000000120000000 ∧
  parse_RFC3339Nano "2023-11-15T0:13:20,12+02:00" = Some 1700000000120000000 ∧
  parse_RFC3339Nano "2023-02-29T00:00:00Z" = None ∧
  parse_RFC3339Nano "2024-02-29T00:00:00Z" = Some 1709164800000000000 ∧
  RFC3339Nano (-62135596800000000000) = "0001-01-01T00:00:00Z".
Proof. vm_compute. done. Qed.

(** *** Dates *)
Lemma civil_year_bound (doe yoe : Z) :
  0 ≤ doe < 146097 → yoe = (doe - doe / 1460 + doe / 36524 - doe / 146096) / 365 →
  0 ≤ yoe < 400 ∧ 0 ≤ doe - (365 * yoe + yoe / 4 - yoe / 100) ≤ 365.
Proof. intros H ->. Z.to_euclidean_division_equations. lia. Qed.
(** Only a leap year has a last day of February 29. *)
Lemma civil_leap_bound (doe yoe : Z) :
  0 ≤ doe < 146097 → yoe = (doe - doe / 1460 + doe / 36524 - doe / 146096) / 365 →
  doe - (365 * yoe + yoe / 4 - yoe / 100) = 365 →
  (yoe + 1) mod 4 = 0 ∧ ((yoe + 1) mod 100 ≠ 0 ∨ yoe + 1 = 400).
Proof. intros H ->. Z.to_euclidean_division_equations. lia. Qed.

(** The month and the day of a day of the year that starts in March. *)
Lemma civil_month (doy mp dd : Z) :
  0 ≤ doy ≤ 365 → mp = (5 * doy + 2) / 153 → dd = doy - (153 * mp + 2) / 5 + 1 →
  0 ≤ mp ≤ 11 ∧ 1 ≤ dd ≤ 31 ∧ (mp ∈ [1; 3; 6; 8] → dd ≤ 30) ∧
  (mp = 11 → dd ≤ 29 ∧ (dd = 29 → doy = 365)).
Proof.
  intros H -> ->. rewrite !elem_of_cons, elem_of_nil.
  Z.to_euclidean_division_equations. lia.
Qed.
Lemma civil_days z : let '(y, m, d) := civil z in
  days_from_civil y m d = z ∧ 1 ≤ m ≤ 12 ∧ 1 ≤ d ≤ days_in m y.
Proof.
  unfold civil. set (era := (z + 719468) / 146097). set (doe := (z + 719468) mod 146097).
  assert (0 ≤ doe < 146097) as Hdoe by (apply Z.mod_pos_bound; lia).
  assert (z + 719468 = 146097 * era + doe) as Hz by (apply Z.div_mod; lia).
  clearbody era doe.
  set (yoe := (doe - doe / 1460 + doe / 36524 - doe / 146096) / 365).
  pose proof (civil_year_bound doe yoe Hdoe eq_refl) as [Hyoe Hdoy].
  pose proof (civil_leap_bound doe yoe Hdoe eq_refl) as Hleap. clearbody yoe.
  set (doy := doe - (365 * yoe + yoe / 4 - yoe / 100)) in *.
  assert (doe = 365 * yoe + yoe / 4 - yoe / 100 + doy) as Hd by lia. clearbody doy.
  pose proof (civil_month doy _ _ Hdoy eq_refl eq_refl) as (Hmp & Hdd & H30 & H29).
  set (mp := (5 * doy + 2) / 153) in *. set (dd := doy - (153 * mp + 2) / 5 + 1) in *.
  assert (doy = (153 * mp + 2) / 5 + dd - 1) as Hdoy' by lia. clearbody mp dd.
  set (m := if mp <? 10 then mp + 3 else mp - 9).
  assert ((m <=? 2) = (10 <=? mp)) as Hm by (subst m; destruct (mp <? 10) eqn:?; lia).
  assert ((yoe + era * 400) / 400 = era ∧ (yoe + era * 400) mod 400 = yoe) as [He Hy].
  { rewrite Z.div_add, Z.mod_add, Z.div_small, Z.mod_small by lia. lia. }
  split_and!.
  - unfold days_from_civil. rewrite Hm. destruct (10 <=? mp) eqn:E.
    + replace (yoe + era * 400 + 1 - 1) with (yoe + era * 400) by lia. rewrite He, Hy.
      replace (m + 9) with mp by (subst m; destruct (mp <? 10) eqn:?; lia). lia.
    + replace (yoe + era * 400 + 0) with (yoe + era * 400) by lia. rewrite He, Hy.
      replace (m - 3) with mp by (subst m; destruct (mp <? 10) eqn:?; lia). lia.
  - subst m. destruct (mp <? 10) eqn:?; lia.
  - subst m. destruct (mp <? 10) eqn:?; lia.
  - lia.
  - rewrite Hm. unfold days_in.
    assert (m = if mp <? 10 then mp + 3 else mp - 9) as Hm' by done. clearbody m.
    destruct (m =? 2) eqn:E2.
    + assert (mp = 11) as -> by (destruct (mp <? 10) eqn:?; lia).
      destruct (H29 eq_refl) as [H29' H365]. change (10 <=? 11) with true. cbv iota.
      assert (is_leap (yoe + era * 400 + 1) = true ∨ dd ≤ 28) as [->|Hle]; [|lia|].
      * destruct (decide (dd = 29)) as [Heq|]; [left|right; lia].
        specialize (Hleap ltac:(lia)) as [H4 H100]. unfold is_leap.
        replace (yoe + era * 400 + 1) with (yoe + 1 + era * 400) by lia.
        rewrite Z.mod_add by lia.
        replace (yoe + 1 + era * 400) with (yoe + 1 + era * 4 * 100) by lia.
        rewrite Z.mod_add by lia.
        replace (yoe + 1 + era * 4 * 100) with (yoe + 1 + era * 100 * 4) by lia.
        rewrite Z.mod_add by lia. rewrite H4. cbn [Z.eqb andb].
        destruct H100 as [H100| ->]; [|by rewrite orb_true_r].
        apply Z.eqb_neq in H100. by rewrite H100.
      * destruct (is_leap _); lia.
    + case_bool_decide as Hin; [|lia]. rewrite !elem_of_cons, elem_of_nil in Hin, H30.
      apply H30. destruct (mp <? 10) eqn:?; lia.
Qed.

(** *** Padded numbers and fractions *)
Lemma length_app_s (a b : string) :
  String.length (a +:+ b) = (String.length a + String.length b)%nat.
Proof. unfold String.app. induction a as [|x a IH]; simpl; [done|by rewrite IH]. Qed.
Lemma list_app_s (a b : string) : String.list_ascii_of_string (a +:+ b) =
  String.list_ascii_of_string a ++ String.list_ascii_of_string b.
Proof. unfold String.app. induction a as [|x a IH]; simpl; [done|by rewrite IH]. Qed.
Lemma zeros_length k : String.length (zeros k) = k.
Proof. induction k as [|k IH]; [done|]. cbn [zeros]. by rewrite length_app_s, IH. Qed.
Lemma zeros_digits k : all_digits (zeros k).
Proof. induction k as [|k IH]; [constructor|]. constructor; [done|exact IH]. Qed.
Lemma all_digits_app a b : all_digits (a +:+ b) ↔ all_digits a ∧ all_digits b.
Proof. unfold all_digits. by rewrite list_app_s, Forall_app. Qed.
Lemma digits_value_app a b acc :
  digits_value acc (a +:+ b) = digits_value acc a ≫= λ x, digits_value x b.
Proof.
  revert acc. induction a as [|x a IH]; intros acc; [done|].
  rewrite app_cons_s. cbn [digits_value]. by destruct (digit_value x).
Qed.
Lemma digits_value_zeros k acc : digits_value acc (zeros k) = Some (acc * 10 ^ Z.of_nat k).
Proof.
  revert acc. induction k as [|k IH]; intros acc; [cbn; f_equal; lia|].
  change (zeros (S k)) with (String "0" (zeros k)). cbn [digits_value].
  change (digit_value "0") with (Some 0). cbv iota beta. rewrite IH.
  rewrite Nat2Z.inj_succ, Z.pow_succ_r by lia. f_equal. lia.
Qed.
Lemma digits_go_length fuel n tail w :
  (n < 10 ^ N.of_nat w)%N → (0 < w)%nat →
  (String.length (digits_go fuel n tail) ≤ w + String.length tail)%nat.
Proof.
  revert n tail w. induction fuel as [|f IH]; intros n tail w Hn Hw; cbn [digits_go]; [lia|].
  destruct (N.ltb_spec n 10) as [E|E]; [simpl; lia|].
  destruct w as [|[|w]]; [lia|change (10 ^ N.of_nat 1)%N with 10%N in Hn; lia|].
  etrans; [apply (IH _ _ (S w)); [|lia]|simpl; lia].
  rewrite Nat2N.inj_succ, N.pow_succ_r' in Hn. sextets.
Qed.
(** A number of at most [w] digits is printed with exactly [w]. *)
Lemma padded_spec (w : nat) n :
  0 ≤ n < 10 ^ Z.of_nat w → (0 < w)%nat →
  all_digits (padded w n) ∧ String.length (padded w n) = w ∧ digits_value 0 (padded w n) = Some n.
Proof.
  intros Hn Hw. unfold padded. replace (itoa n) with (string_of_N (Z.to_N n))
    by (destruct n; [done..|lia]).
  assert (String.length (string_of_N (Z.to_N n)) ≤ w)%nat as L.
  { etrans; [apply (digits_go_length _ _ _ w); [|done]|simpl; lia].
    apply N2Z.inj_lt. rewrite N2Z.inj_pow, Z2N.id, nat_N_Z by lia. apply Hn. }
  split_and!.
  - apply all_digits_app. split; [apply zeros_digits|apply string_of_N_digits].
  - rewrite length_app_s, zeros_length. lia.
  - rewrite digits_value_app, digits_value_zeros. cbn [mbind option_bind].
    change (0 * _) with 0. rewrite string_of_N_value, Z2N.id by lia. done.
Qed.
Lemma padded2 n r : 0 ≤ n < 100 → ∃ a b x y,
  padded 2 n +:+ r = String a (String b r) ∧ digit_value a = Some x ∧ digit_value b = Some y ∧
  x * 10 + y = n.
Proof.
  intros Hn. destruct (padded_spec 2 n) as (_ & L & V); [lia|lia|].
  destruct (padded 2 n) as [|a [|b [|]]]; try done. cbn [digits_value] in V.
  destruct (digit_value a) as [x|] eqn:?; [|done]. destruct (digit_value b) as [y|] eqn:?; [|done].
  injection V as V. exists a, b, x, y. split_and!; [done..|lia].
Qed.
Lemma getnum_padded f n r : 0 ≤ n < 100 → getnum f (padded 2 n +:+ r) = Some (n, r).
Proof.
  intros (a & b & x & y & -> & Ha & Hb & <-)%(padded2 _ r). cbn [getnum]. rewrite Ha.
  cbn [mbind option_bind]. by rewrite Hb.
Qed.
Lemma long_year_padded n r : 0 ≤ n < 10000 → long_year (padded 4 n +:+ r) = Some (n, r).
Proof.
  intros Hn. destruct (padded_spec 4 n) as (_ & L & V); [lia|lia|].
  destruct (padded 4 n) as [|a [|b [|c [|d [|]]]]]; try done. rewrite !app_cons_s.
  unfold long_year. rewrite V. done.
Qed.

Lemma rev_app_list a b : String.list_ascii_of_string (String.rev_app a b) =
  rev (String.list_ascii_of_string a) ++ String.list_ascii_of_string b.
Proof.
  revert b. induction a as [|x a IH]; intros b; [done|]. simpl. rewrite IH.
  by rewrite <- app_assoc.
Qed.
Lemma list_of_string_inj a b : String.list_ascii_of_string a = String.list_ascii_of_string b → a = b.
Proof.
  intros H. rewrite <- (String.string_of_list_ascii_of_string a), H.
  apply String.string_of_list_ascii_of_string.
Qed.
Lemma rev_app_s a b : String.rev (a +:+ b) = String.rev b +:+ String.rev a.
Proof.
  apply list_of_string_inj. unfold String.rev.
  rewrite list_app_s, !rev_app_list, list_app_s, rev_app_distr. simpl. by rewrite !app_nil_r.
Qed.
Lemma rev_involutive_s a : String.rev (String.rev a) = a.
Proof.
  apply list_of_string_inj. unfold String.rev.
  rewrite !rev_app_list. simpl. by rewrite !app_nil_r, rev_involutive.
Qed.
Lemma zeros_snoc k : zeros k +:+ "0" = zeros (S k).
Proof. induction k as [|k IH]; [done|]. cbn [zeros] in *. by rewrite app_assoc_s, IH. Qed.
Lemma rev_zeros k : String.rev (zeros k) = zeros k.
Proof.
  induction k as [|k IH]; [done|]. rewrite <- zeros_snoc at 1. by rewrite rev_app_s, IH.
Qed.
Lemma trim_left_zeros fuel s : ∃ k, s = zeros k +:+ trim_left_go ["0"] fuel s.
Proof.
  revert s. induction fuel as [|f IH]; intros s; [by exists 0%nat|]. cbn [trim_left_go first_some foldr].
  destruct (string_prefix_drop "0" s) as [s'|] eqn:E; [|by exists 0%nat].
  destruct (IH s') as [k Hk]. exists (S k).
  assert (s = "0" +:+ s') as ->.
  { destruct s as [|a s]; cbn [string_prefix_drop] in E; [done|]. destruct (Ascii.eqb "0" a) eqn:Ea; [|done].
    apply Ascii.eqb_eq in Ea as <-. by injection E as ->. }
  cbn [zeros]. by rewrite app_assoc_s, <- Hk.
Qed.
Lemma span_digits_app s c t :
  all_digits s → is_digit c = false → span_digits (s +:+ String c t) = (s, String c t).
Proof.
  intros Hs Hc. induction s as [|a s IH].
  { change (span_digits (String c t) = ("", String c t)). cbn [span_digits]. by rewrite Hc. }
  apply Forall_cons in Hs as [Ha%Is_true_true Hs]. rewrite app_cons_s. cbn [span_digits].
  by rewrite Ha, IH.
Qed.
Lemma take_s_all n s : (String.length s ≤ n)%nat → take_s n s = s.
Proof.
  revert s. induction n as [|n IH]; intros [|a s] H; simpl in *; try done; [lia|].
  f_equal. apply IH. lia.
Qed.
(** The fraction that [Format] trims is what [Parse] scales back. *)
Lemma frac_second_fraction v : 0 ≤ v < Second → frac_second (fraction v 9 +:+ "Z") = (v, "Z").
Proof.
  intros Hv. unfold Second in Hv. unfold fraction.
  change (10 ^ Z.of_nat 9) with 1000000000. rewrite Z.mod_small by lia.
  fold (padded 9 v). destruct (padded_spec 9 v) as (Hd & Hl & Hval); [lia|lia|].
  set (p := padded 9 v) in *. set (q := String.rev (trim_left ["0"] (String.rev p))).
  assert (∃ k, p = q +:+ zeros k) as [k Hk].
  { destruct (trim_left_zeros (String.length (String.rev p)) (String.rev p)) as [k Hk].
    exists k. rewrite <- (rev_involutive_s p), Hk, rev_app_s, rev_zeros. done. }
  clearbody p q. subst p. apply all_digits_app in Hd as [Hq _].
  rewrite length_app_s, zeros_length in Hl. rewrite digits_value_app in Hval.
  destruct (digits_value 0 q) as [x|] eqn:Hx; [|done]. cbn [mbind option_bind] in Hval.
  rewrite digits_value_zeros in Hval. injection Hval as Hval.
  destruct (String.eqb q "") eqn:E.
  - apply String.eqb_eq in E as ->. cbn [digits_value] in Hx. injection Hx as <-.
    rewrite Z.mul_0_l in Hval. by subst v.
  - rewrite app_assoc_s. change ("." +:+ ?s) with (String "." s). unfold frac_second. cbn [is_char].
    rewrite bool_decide_eq_true_2 by decide_closed.
    unfold digits1. rewrite span_digits_app by done.
    destruct q as [|a q]; [done|]. rewrite take_s_all by lia. rewrite Hx. cbn [default].
    f_equal. rewrite <- Hval. do 2 f_equal. lia.
Qed.

(** [time.Parse] inverts [Format] on the times of the years 0 to 9999. *)
Definition printable_year (t : Z) : Prop := -62167219200 * Second ≤ t < 253402300800 * Second.
Lemma civil_last_january (doe yoe : Z) :
  0 ≤ doe < 146097 → yoe = (doe - doe / 1460 + doe / 36524 - doe / 146096) / 365 →
  146037 ≤ doe ↔ yoe = 399 ∧ 306 ≤ doe - (365 * yoe + yoe / 4 - yoe / 100).
Proof. intros H ->. Z.to_euclidean_division_equations. lia. Qed.
Lemma printable_year_civil t : printable_year t → 0 ≤ (civil (t / Second / 86400)).1.1 < 10000.
Proof.
  unfold printable_year, Second, civil. intros Ht. cbn [fst].
  assert (-60 ≤ t / 1000000000 / 86400 + 719468 < 3652365) as Hz
    by (Z.to_euclidean_division_equations; lia).
  revert Hz. generalize (t / 1000000000 / 86400 + 719468). clear t Ht. intros z Hz.
  set (era := z / 146097). set (doe := z mod 146097).
  assert (0 ≤ doe < 146097) as Hdoe by (apply Z.mod_pos_bound; lia).
  assert (z = 146097 * era + doe) as Hz' by (apply Z.div_mod; lia). clearbody era doe.
  set (yoe := (doe - doe / 1460 + doe / 36524 - doe / 146096) / 365).
  pose proof (civil_year_bound doe yoe Hdoe eq_refl) as [Hyoe Hdoy].
  pose proof (civil_last_january doe yoe Hdoe eq_refl) as Hlast. clearbody yoe.
  set (doy := doe - (365 * yoe + yoe / 4 - yoe / 100)) in *. clearbody doy.
  pose proof (civil_month doy _ _ Hdoy eq_refl eq_refl) as (Hmp & _).
  assert (306 ≤ doy ↔ 10 ≤ (5 * doy + 2) / 153) as Hj by (Z.to_euclidean_division_equations; lia).
  set (mp := (5 * doy + 2) / 153) in *. clearbody mp.
  destruct (mp <? 10) eqn:E.
  - destruct (mp + 3 <=? 2) eqn:?; lia.
  - destruct (mp - 9 <=? 2) eqn:?; lia.
Qed.
Lemma in_range_true lo hi x : lo ≤ x ≤ hi → in_range lo hi x = Some tt.
Proof. intros H. unfold in_range. by rewrite (proj2 (andb_true_iff _ _)) by (split; lia). Qed.
Lemma expect_char a s : expect a (String a s) = Some s.
Proof. cbn [expect]. by rewrite (proj2 (Ascii.eqb_eq a a)). Qed.
Lemma parse_RFC3339Nano_format t : printable_year t → parse_RFC3339Nano (RFC3339Nano t) = Some t.
Proof.
  intros Ht. pose proof (printable_year_civil t Ht) as Hy.
  pose proof (civil_days (t / Second / 86400)) as Hc.
  unfold RFC3339Nano, clock_text.
  destruct (civil (t / Second / 86400)) as [[y m] d]. cbn [fst] in Hy.
  destruct Hc as (Hdays & Hm & Hd).
  assert (days_in m y ≤ 31) as H31 by (unfold days_in; repeat case_match; lia).
  assert (0 ≤ t mod Second < Second) as Hns by (apply Z.mod_pos_bound; done).
  assert (0 ≤ t / Second mod 86400 < 86400) as Hr by (apply Z.mod_pos_bound; lia).
  assert (t = (t / Second / 86400 * 86400 + t / Second mod 86400) * Second + t mod Second) as Et.
  { rewrite <- (Z.mul_comm 86400), <- Z.div_mod by lia.
    rewrite (Z.mul_comm _ Second). by apply Z.div_mod. }
  set (r := t / Second mod 86400) in *. set (ns := t mod Second) in *.
  rewrite !app_assoc_s. unfold parse_RFC3339Nano.
  repeat first
    [ rewrite long_year_padded by lia
    | rewrite getnum_padded by (Z.to_euclidean_division_equations; lia)
    | rewrite in_range_true by (Z.to_euclidean_division_equations; lia)
    | progress change ("-" +:+ ?s) with (String "-" s)
    | progress change ("T" +:+ ?s) with (String "T" s)
    | progress change (":" +:+ ?s) with (String ":" s)
    | rewrite expect_char | progress cbn [mbind option_bind] ].
  rewrite frac_second_fraction by done. cbv beta iota. change (zone_offset "Z") with (Some (0, "")).
  cbn [mbind option_bind]. rewrite ?in_range_true by lia. cbn [mbind option_bind].
  rewrite bool_decide_eq_true_2 by done. f_equal. rewrite Hdays.
  etrans; [|symmetry; exact Et]. do 2 f_equal. clear -Hr. Z.to_euclidean_division_equations; lia.
Qed.

(** ** Objects

    [reads text v]: the reader finds [v] in front of whatever may follow a
    member of an object. *)
Definition reads (text : string) (v : json) : Prop := ∀ fuel depth c t,
  c = ","%char ∨ c = "}"%char →
  read_value (S fuel) depth (text +:+ String c t) = Some (v, String c t).
Lemma reads_string s : reads (json_string s) (JStr s).
Proof.
  intros f d c t _. unfold json_string. rewrite app_assoc_s.
  change (bytes [34%N] +:+ ?x) with (String quote_char x). rewrite app_assoc_s.
  change (bytes [34%N] +:+ String c t) with (String quote_char (String c t)).
  transitivity ('(v, r) ← read_string (json_body s +:+ String quote_char (String c t));
                Some (JStr v, r)); [reflexivity|]. by rewrite read_json_body.
Qed.
Lemma read_members_join d (l : list (string * string * json)) fuel :
  l ≠ [] → (length l < fuel)%nat → Forall (λ x, reads x.1.2 x.2) l →
  read_members fuel d
    (Join ((λ kv, json_string kv.1 +:+ ":" +:+ kv.2) <$> l.*1) "," +:+ "}") =
  Some ((λ x, (x.1.1, x.2)) <$> l, "").
Proof.
  revert fuel. induction l as [|[[k x] v] l IH]; intros fuel Hne Hf Hl; [done|].
  apply Forall_cons in Hl as [Hx Hl]. cbn [fst snd] in Hx.
  destruct fuel as [|[|f]]; simpl in Hf; [lia..|].
  set (rest := match l with [] => "}" | _ => String "," (Join ((λ kv : string * string,
    json_string kv.1 +:+ ":" +:+ kv.2) <$> l.*1) "," +:+ "}") end).
  assert (Join ((λ kv, json_string kv.1 +:+ ":" +:+ kv.2) <$> ((k, x, v) :: l).*1) "," +:+ "}" =
    String quote_char (json_body k +:+ String quote_char (String ":" (x +:+ rest)))) as ->.
  { subst rest. destruct l as [|[[k' x'] v'] l].
    - cbn [fmap list_fmap fst snd Join]. unfold json_string. by rewrite !app_assoc_s.
    - cbn [fmap list_fmap fst snd Join]. unfold json_string. by rewrite !app_assoc_s. }
  remember (S f) as g eqn:Hg. cbn [read_members].
  change (skip_space (String quote_char ?s)) with (String quote_char s).
  rewrite expect_char. cbn [mbind option_bind]. rewrite read_json_body. cbn [mbind option_bind].
  change (skip_space (String ":" ?s)) with (String ":" s). rewrite expect_char.
  cbn [mbind option_bind]. destruct l as [|y l]; subst rest.
  - subst g. rewrite (Hx f) by (by right). reflexivity.
  - rewrite Hg at 1. rewrite (Hx f) by (by left). cbn [mbind option_bind].
    change (skip_space (String "," ?s)) with (String "," s). rewrite expect_char.
    rewrite IH by (done || simpl in *; lia). reflexivity.
Qed.
(** The reader finds the members a marshalled object was built from. *)
Lemma read_json_object (l : list (string * string * json)) :
  l ≠ [] → Forall (λ x, reads x.1.2 x.2) l →
  read_json (json_object l.*1) = Some (JObj ((λ x, (x.1.1, x.2)) <$> l)).
Proof.
  intros Hne Hl. unfold read_json, json_object. rewrite <- (read_value_fuel _ _ (S (length l))).
  set (body := Join _ ","). set (len := String.length _).
  assert (∃ b, body +:+ "}" = String quote_char b) as [b Hb].
  { subst body. destruct l as [|[[k x] v] [|y l]]; [done|by eexists..]. }
  change ("{" +:+ body +:+ "}") with (String "{" (body +:+ "}")).
  change (S (length l) + S (2 * len))%nat with (S (length l + S (2 * len)))%nat. cbn [read_value].
  change (skip_space (String "{" ?s)) with (String "{" s). rewrite expect_char.
  change (max_nesting <=? 0) with false. cbv iota.
  rewrite Hb at 1. change (expect "}" (skip_space (String quote_char b))) with (@None string).
  cbv iota. subst body. rewrite read_members_join by (done || lia). cbn [mbind option_bind].
  by rewrite bool_decide_eq_true_2.
Qed.
