(* ===== verification/Store.v ===== *)
(** * The database seen from the repositories

    Every repository of [src/internal/repository] talks to PostgreSQL
    through [database/sql].  This file gives the small state-and-error monad
    in which their methods are written: one [exec] per SQL statement, one
    [transact] per [Begin]/[Commit] block.  A statement may fail, and when it
    does the client cannot tell whether the server applied it; [Fault] has
    both cases, so a theorem quantified over the environment covers lost and
    unacknowledged statements.  Row locks make the statements of one method
    atomic with respect to other methods; rows locked by somebody else are
    visible through [held], which is what [SKIP LOCKED] tests. *)

From S2P Require Import Prelude.
From Stdlib Require Import ZArith Lia.

(** ** Environment, faults, computations *)
Inductive Fault :=
| Fine      (* executed and acknowledged *)
| Lost      (* never executed, the client gets an error *)
| Unacked.  (* executed, but the client gets an error *)

Record Env := mkEnv {
  app_now : Z;            (* time.Now() of the process *)
  db_now : Z;             (* NOW() of the server, constant in a transaction *)
  fault : nat → Fault;    (* what happens to the n-th round trip *)
  held : Z → bool;        (* rows (by integer key) locked by a peer *)
  held_key : string → bool; (* rows (by text key) locked by a peer *)
  fresh_uuid : string     (* uuid.NewString() *)
}.

Definition M (S A : Type) : Type := Env → S * nat → (err + A) * (S * nat).

#[export] Instance M_ret {S} : MRet (M S) := λ A a _ w, (inr a, w).
#[export] Instance M_bind {S} : MBind (M S) := λ A B k m e w,
  match m e w with
  | (inl er, w') => (inl er, w')
  | (inr a, w') => k a e w'
  end.

Definition throw {S A} (er : err) : M S A := λ _ w, (inl er, w).
Definition ask {S} : M S Env := λ e w, (inr e, w).
(** [if err != nil { return f(err) }]: rewrite the error of a computation. *)
Definition map_err {S A} (f : err → err) (m : M S A) : M S A := λ e w,
  match m e w with
  | (inl er, w') => (inl (f er), w')
  | r => r
  end.
(** A driver error that is returned as it is. *)
Definition raw {S A} (m : M S A) : M S A := map_err (λ _, errors_new "driver error") m.
(** Observe the error instead of returning it ([_ = f()], or a log line). *)
Definition try {S A} (m : M S A) : M S (err + A) := λ e w,
  let '(r, w') := m e w in (inr r, w').
(** Run in the environment of a later moment. *)
Definition at_env {S A} (e : Env) (m : M S A) : M S A := λ _ w, m e w.

(** One SQL statement. *)
Definition exec {S A} (op : string) (f : Env → S → A * S) : M S A := λ e w,
  let '(s, n) := w in
  match fault e n with
  | Fine => let '(a, s') := f e s in (inr a, (s', Datatypes.S n))
  | Lost => (inl (db_err op), (s, Datatypes.S n))
  | Unacked => (inl (db_err op), ((f e s).2, Datatypes.S n))
  end.

(** [sql.Result.RowsAffected()]: may fail after the statement was applied. *)
Definition rows_affected {S} (op : string) (k : nat) : M S nat :=
  exec (op +:+ " rows affected") (λ _ s, (k, s)).

Inductive TxOut (A : Type) := Commit (a : A) | Rollback (a : A).
Arguments Commit {A} a.
Arguments Rollback {A} a.

(** [Begin]; body; [Commit], or [Rollback] on an error or on request. *)
Definition transact {S A} (op : string) (body : M S (TxOut A)) : M S A := λ e w,
  let '(s, n) := w in
  match fault e n with
  | Fine =>
      match body e (s, Datatypes.S n) with
      | (inl er, (_, n')) => (inl er, (s, n'))
      | (inr (Rollback a), (_, n')) => (inr a, (s, n'))
      | (inr (Commit a), (s', n')) =>
          match fault e n' with
          | Fine => (inr a, (s', Datatypes.S n'))
          | Lost => (inl (db_err (op +:+ " commit")), (s, Datatypes.S n'))
          | Unacked => (inl (db_err (op +:+ " commit")), (s', Datatypes.S n'))
          end
      end
  | _ => (inl (db_err (op +:+ " begin")), (s, Datatypes.S n))
  end.

Definition state_of {S A} (r : (err + A) * (S * nat)) : S := r.2.1.
Definition result_of {S A} (r : (err + A) * (S * nat)) : err + A := r.1.

(** ** Inverting successful runs *)
Section inversion.
Context {S : Type}.
Implicit Types (e : Env) (s : S) (n : nat) (w : S * nat).

Lemma ret_inr {A} (a b : A) e w w' :
  (mret a : M S A) e w = (inr b, w') → b = a ∧ w' = w.
Proof. intros [= -> ->]. done. Qed.

Lemma ask_inr e e' w w' : (ask : M S Env) e w = (inr e', w') → e' = e ∧ w' = w.
Proof. intros [= -> ->]. done. Qed.

Lemma bind_inr {A B} (m : M S A) (k : A → M S B) e w b w' :
  (m ≫= k) e w = (inr b, w') →
  ∃ a w1, m e w = (inr a, w1) ∧ k a e w1 = (inr b, w').
Proof.
  unfold mbind, M_bind. destruct (m e w) as [[er|a] w1]; [done|]. eauto.
Qed.

Lemma map_err_inr {A} f (m : M S A) e w a w' :
  map_err f m e w = (inr a, w') → m e w = (inr a, w').
Proof. unfold map_err. destruct (m e w) as [[?|?] ?]; naive_solver. Qed.

Lemma exec_inr {A} op (f : Env → S → A * S) e s n a w' :
  exec op f e (s, n) = (inr a, w') →
  fault e n = Fine ∧ w'.2 = Datatypes.S n ∧ f e s = (a, w'.1).
Proof.
  unfold exec. destruct (fault e n); try done.
  destruct (f e s) as [a' s'] eqn:?. intros [= -> <-]. done.
Qed.

(** Acknowledged or not, a statement was executed or was not. *)
Lemma exec_state {A} op (f : Env → S → A * S) e w r w' :
  exec op f e w = (r, w') → w'.1 = w.1 ∨ w'.1 = (f e w.1).2.
Proof.
  destruct w as [s n]. unfold exec. destruct (fault e n).
  - destruct (f e s) eqn:E. intros [= <- <-]. right. simpl. by rewrite E.
  - intros [= <- <-]. by left.
  - intros [= <- <-]. by right.
Qed.

Lemma rows_inr op k e w j w' :
  (rows_affected op k : M S nat) e w = (inr j, w') → j = k ∧ w'.1 = w.1.
Proof.
  destruct w as [s n]. intros (?&?&[= -> ->])%exec_inr. done.
Qed.

Lemma transact_inr {A} op (body : M S (TxOut A)) e s n a w' :
  transact op body e (s, n) = (inr a, w') →
  (∃ n', body e (s, Datatypes.S n) = (inr (Commit a), (w'.1, n'))) ∨
  (w'.1 = s ∧ ∃ w1, body e (s, Datatypes.S n) = (inr (Rollback a), w1)).
Proof.
  unfold transact. destruct (fault e n); try done.
  destruct (body e (s, Datatypes.S n)) as [[er|[b|b]] [s' n']]; try done.
  - destruct (fault e n'); try done. intros [= -> <-]. eauto.
  - intros [= -> <-]. eauto.
Qed.

(** A transaction that fails leaves the old state, or, when the commit went
    through unacknowledged, exactly the state its body committed. *)
Lemma transact_atomic {A} op (body : M S (TxOut A)) e s n :
  state_of (transact op body e (s, n)) = s ∨
  ∃ a n', body e (s, Datatypes.S n) =
          (inr (Commit a), (state_of (transact op body e (s, n)), n')).
Proof.
  unfold transact, state_of. destruct (fault e n); [|by left..].
  destruct (body e (s, Datatypes.S n)) as [[er|[b|b]] [s' n']]; [by left| |by left].
  destruct (fault e n'); simpl; eauto.
Qed.
End inversion.

(** ** Effects bounded by a preorder

    [respects R m]: whatever the environment does, the state after [m] is
    [R]-above the state before.  With [R := eq] this is "reads only"; with
    [R s s' := I s → I s'] it is "preserves the invariant [I]". *)
Definition respects {S A} (R : relation S) (m : M S A) : Prop :=
  ∀ e s n, R s (state_of (m e (s, n))).

Section respects.
Context {S : Type} (R : relation S) `{!PreOrder R}.

Lemma respects_run {A} (m : M S A) e w : respects R m → R w.1 (state_of (m e w)).
Proof. destruct w as [s n]. intros H. apply H. Qed.

Lemma respects_ret {A} (a : A) : respects R (mret a).
Proof. intros e s n. reflexivity. Qed.
Lemma respects_throw {A} er : respects R (throw er : M S A).
Proof. intros e s n. reflexivity. Qed.
Lemma respects_ask : respects R ask.
Proof. intros e s n. reflexivity. Qed.

Lemma respects_bind {A B} (m : M S A) (k : A → M S B) :
  respects R m → (∀ a, respects R (k a)) → respects R (m ≫= k).
Proof.
  intros Hm Hk e s n. specialize (Hm e s n). unfold mbind, M_bind.
  unfold state_of in *. destruct (m e (s, n)) as [[er|a] [s1 n1]]; [done|].
  etrans; [done|]. apply Hk.
Qed.

Lemma respects_map_err {A} f (m : M S A) : respects R m → respects R (map_err f m).
Proof.
  intros Hm e s n. specialize (Hm e s n). unfold map_err, state_of in *.
  by destruct (m e (s, n)) as [[er|a] w].
Qed.

Lemma respects_try {A} (m : M S A) : respects R m → respects R (try m).
Proof.
  intros Hm e s n. specialize (Hm e s n). unfold try, state_of in *.
  by destruct (m e (s, n)) as [r w].
Qed.

Lemma respects_at_env {A} e' (m : M S A) : respects R m → respects R (at_env e' m).
Proof. intros Hm e s n. apply Hm. Qed.

Lemma respects_exec {A} op (f : Env → S → A * S) :
  (∀ e s, R s (f e s).2) → respects R (exec op f).
Proof.
  intros Hf e s n. specialize (Hf e s). unfold exec, state_of.
  destruct (fault e n); simpl; [|reflexivity|done].
  by destruct (f e s).
Qed.

Lemma respects_rows op k : respects R (rows_affected op k).
Proof. apply respects_exec. intros. reflexivity. Qed.

(** Only the runs that reach [Commit] matter for a transaction. *)
Lemma respects_transact {A} op (body : M S (TxOut A)) :
  (∀ e s n a s' n', body e (s, n) = (inr (Commit a), (s', n')) → R s s') →
  respects R (transact op body).
Proof.
  intros Hb e s n.
  destruct (transact_atomic op body e s n) as [->|(a & n' & H)].
  - reflexivity.
  - by eapply Hb.
Qed.

Lemma respects_transact_body {A} op (body : M S (TxOut A)) :
  respects R body → respects R (transact op body).
Proof.
  intros Hb. apply respects_transact. intros e s n a s' n' H.
  specialize (Hb e s n). unfold state_of in Hb. by rewrite H in Hb.
Qed.
End respects.

Create HintDb respects.
#[export] Hint Resolve respects_ret respects_throw respects_ask respects_rows
  respects_map_err respects_try respects_at_env respects_transact_body : respects.

(** Decompose a computation into its statements. *)
Ltac respects_step :=
  match goal with
  | |- respects _ (_ ≫= _) => apply respects_bind; [try apply _| |intros ?]
  | |- respects _ (transact _ _) => apply respects_transact_body; [try apply _|]
  | |- respects _ (map_err _ _) => apply respects_map_err
  | |- respects _ (try _) => apply respects_try
  | |- respects _ (at_env _ _) => apply respects_at_env
  | |- respects _ (match ?x with _ => _ end) => destruct x
  | |- respects _ (let '(_, _) := ?x in _) => destruct x
  | |- respects _ _ => progress (eauto with respects typeclass_instances)
  end.
Ltac respects_tac := repeat respects_step.

(** ** Partial correctness

    [triple P m Q]: a run of [m] from a state in [P] that succeeds with [a] ends
    in a state in [Q a].  A failed run may end anywhere: inside a transaction
    it is rolled back. *)
Definition triple {S A} (P : S → Prop) (m : M S A) (Q : A → S → Prop) : Prop :=
  ∀ e s n a s' n', P s → m e (s, n) = (inr a, (s', n')) → Q a s'.

Section triple.
Context {S : Type}.
Implicit Types (P I : S → Prop).

Lemma triple_ret {A} P (a : A) (Q : A → S → Prop) : (∀ s, P s → Q a s) → triple P (mret a) Q.
Proof. intros H e s n b s' n' Hs [= -> -> _]. auto. Qed.
Lemma triple_throw {A} P er (Q : A → S → Prop) : triple P (throw er) Q.
Proof. by intros e s n b s' n' Hs [=]. Qed.
Lemma triple_bind {A B} P (m : M S A) (k : A → M S B) Q R :
  triple P m Q → (∀ a, triple (Q a) (k a) R) → triple P (m ≫= k) R.
Proof.
  intros Hm Hk e s n b s' n' Hs (a & [s1 n1] & H1 & H2)%bind_inr.
  eapply Hk; [|exact H2]. by eapply Hm.
Qed.
Lemma triple_exec {A} op (f : Env → S → A * S) P (Q : A → S → Prop) :
  (∀ e s, P s → Q (f e s).1 (f e s).2) → triple P (exec op f) Q.
Proof.
  intros H e s n a s' n' Hs (_ & _ & Hf)%exec_inr. specialize (H e s Hs). by rewrite Hf in H.
Qed.
Lemma triple_rows op k P : triple P (rows_affected op k) (λ j s, j = k ∧ P s).
Proof. intros e s n a s' n' Hs [-> Hs']%rows_inr. simpl in Hs'. by subst. Qed.
Lemma triple_map_err {A} f P (m : M S A) Q : triple P m Q → triple P (map_err f m) Q.
Proof. intros H e s n a s' n' Hs Hm%map_err_inr. by eapply H. Qed.
Lemma triple_ask P : triple P ask (λ _ s, P s).
Proof. intros e s n a s' n' Hs [_ [= -> _]]%ask_inr. done. Qed.
Lemma triple_weaken {A} P P' (m : M S A) (Q Q' : A → S → Prop) :
  triple P' m Q' → (∀ s, P s → P' s) → (∀ a s, Q' a s → Q a s) → triple P m Q.
Proof. intros H HP HQ e s n a s' n' Hs Hm. eapply HQ, H; [|exact Hm]. auto. Qed.

(** A transaction keeps an invariant if its body establishes it where it
    commits. *)
Lemma transact_invariant {A} op (body : M S (TxOut A)) I :
  triple I body (λ r s, match r with Commit _ => I s | Rollback _ => True end) →
  respects (λ s s', I s → I s') (transact op body).
Proof.
  intros H e s n Hs. destruct (transact_atomic op body e s n) as [->|(a & n' & Hb)]; [done|].
  by apply (H e _ _ _ _ _ Hs Hb).
Qed.

(** A transaction whose body cannot succeed fails and changes nothing. *)
Lemma transact_never {A} op (body : M S (TxOut A)) P e s n :
  triple P body (λ _ _, False) → P s →
  (∃ er, result_of (transact op body e (s, n)) = inl er) ∧
  state_of (transact op body e (s, n)) = s.
Proof.
  intros H Hs. unfold transact, result_of, state_of.
  destruct (fault e n); [|split; [by eexists|done]..].
  destruct (body e (s, Datatypes.S n)) as [[er|x] [s' n']] eqn:E; [split; [by exists er|done]|].
  destruct (H e s _ x s' n' Hs E).
Qed.
End triple.

#[export] Instance invariant_preorder {S} (I : S → Prop) : PreOrder (λ s s', I s → I s').
Proof. split; [by intros s|]. intros s1 s2 s3 H1 H2 H. auto. Qed.

(** Take apart a hypothesis saying that a computation succeeded. *)
Ltac run_inv :=
  repeat match goal with
  | H : (mret _) _ _ = (inr _, _) |- _ => apply ret_inr in H as [? ?]; simplify_eq/=
  | H : (throw _) _ _ = (inr _, _) |- _ => discriminate H
  | H : ask _ _ = (inr _, _) |- _ => apply ask_inr in H as [? ?]; simplify_eq/=
  | H : (_ ≫= _) _ _ = (inr _, _) |- _ =>
      let a := fresh "a" in let s := fresh "s" in let n := fresh "n" in
      let H1 := fresh "Hrun" in
      apply bind_inr in H as (a & [s n] & H1 & H)
  | H : map_err _ _ _ _ = (inr _, _) |- _ => apply map_err_inr in H
  | H : rows_affected _ _ _ _ = (inr _, _) |- _ =>
      apply rows_inr in H as [? ?]; simplify_eq/=
  | H : exec _ _ _ (_, _) = (inr _, _) |- _ =>
      let Hf := fresh "Hfine" in let Hs := fresh "Hstmt" in
      apply exec_inr in H as (Hf & ? & Hs); simplify_eq/=
  end.

(** ** Runs against a database that answers *)
Definition reliable (e : Env) : Prop := ∀ n, fault e n = Fine.

Section reliable.
Context {S : Type} (e : Env) (Hrel : reliable e).

Lemma exec_fine {A} op (f : Env → S → A * S) s n :
  exec op f e (s, n) = (inr (f e s).1, ((f e s).2, Datatypes.S n)).
Proof. unfold exec. rewrite Hrel. by destruct (f e s). Qed.

Lemma rows_fine op k (s : S) n :
  rows_affected op k e (s, n) = (inr k, (s, Datatypes.S n)).
Proof. unfold rows_affected. by rewrite exec_fine. Qed.

Lemma bind_run {A B} (m : M S A) (k : A → M S B) w a w1 :
  m e w = (inr a, w1) → (m ≫= k) e w = k a e w1.
Proof. unfold mbind, M_bind. by intros ->. Qed.

Lemma transact_fine {A} op (body : M S (TxOut A)) s n a s' n' :
  body e (s, Datatypes.S n) = (inr (Commit a), (s', n')) →
  transact op body e (s, n) = (inr a, (s', Datatypes.S n')).
Proof. intros H. unfold transact. by rewrite Hrel, H, Hrel. Qed.

Lemma transact_fine_err {A} op (body : M S (TxOut A)) s n er w :
  body e (s, Datatypes.S n) = (inl er, w) →
  transact op body e (s, n) = (inl er, (s, w.2)).
Proof. intros H. unfold transact. rewrite Hrel, H. by destruct w. Qed.
End reliable.

(** ** Tables

    A table is a finite map from the primary key.  [update_row] is
    [UPDATE ... SET f WHERE id = $id AND p]; it returns the rows affected. *)
Section table.
Context {K : Type} `{Countable K} {R : Type}.
Implicit Types (t : gmap K R) (p : R → bool) (f : R → R).

Definition update_row (id : K) p f t : nat * gmap K R :=
  match t !! id with
  | Some r => if p r then (1, <[id := f r]> t) else (0, t)
  | None => (0, t)
  end.

(** [UPDATE ... SET f WHERE p]. *)
Definition update_where p f t : gmap K R := (λ r, if p r then f r else r) <$> t.

Lemma update_row_hit id p f t r :
  t !! id = Some r → p r = true → update_row id p f t = (1, <[id := f r]> t).
Proof. unfold update_row. by intros -> ->. Qed.

Lemma update_row_miss id p f t :
  (∀ r, t !! id = Some r → p r = false) → update_row id p f t = (0, t).
Proof.
  intros Hp. unfold update_row. destruct (t !! id) as [r|] eqn:E; [|done].
  by rewrite (Hp r).
Qed.

(** One row was affected: it was there, it satisfied the guard, and only it
    changed. *)
Lemma update_row_1 id p f t t' k :
  update_row id p f t = (S k, t') →
  ∃ r, t !! id = Some r ∧ p r = true ∧ t' = <[id := f r]> t ∧ k = 0.
Proof.
  unfold update_row. destruct (t !! id) as [r|]; [|done].
  destruct (p r) eqn:?; [|done]. intros [= <- <-]. eauto.
Qed.

Lemma update_row_0 id p f t t' :
  update_row id p f t = (0, t') →
  t' = t ∧ ∀ r, t !! id = Some r → p r = false.
Proof.
  unfold update_row. destruct (t !! id) as [r|]; [|naive_solver].
  destruct (p r) eqn:?; naive_solver.
Qed.

Lemma update_row_lookup id p f t j r :
  (update_row id p f t).2 !! j = Some r →
  t !! j = Some r ∨ (j = id ∧ ∃ r0, t !! id = Some r0 ∧ p r0 = true ∧ r = f r0).
Proof.
  unfold update_row. destruct (t !! id) as [r0|] eqn:E; [|by left].
  destruct (p r0) eqn:?; [|by left]. simpl.
  destruct (decide (j = id)) as [->|Hne].
  - rewrite lookup_insert_eq. intros [= <-]. right. eauto.
  - rewrite lookup_insert_ne by done. by left.
Qed.

Lemma update_row_other id p f t j :
  j ≠ id → (update_row id p f t).2 !! j = t !! j.
Proof.
  intros Hne. unfold update_row. destruct (t !! id) as [r0|]; [|done].
  destruct (p r0); [|done]. apply lookup_insert_ne. done.
Qed.

Lemma update_row_row id p f t r :
  t !! id = Some r →
  (update_row id p f t).2 !! id = Some (if p r then f r else r).
Proof.
  intros E. unfold update_row. rewrite E. destruct (p r); simpl; [|done].
  by rewrite lookup_insert_eq.
Qed.

Lemma update_row_dom id p f t : dom (update_row id p f t).2 = dom t.
Proof.
  unfold update_row. destruct (t !! id) as [r|] eqn:E; [|done].
  destruct (p r); [|done]. simpl. rewrite dom_insert_lookup_L; [done|eauto].
Qed.

(** A property of every row survives an update that establishes it on the
    row it writes. *)
Lemma update_row_all (I : K → R → Prop) id p f t :
  (∀ r, I id r → p r = true → I id (f r)) →
  map_Forall I t → map_Forall I (update_row id p f t).2.
Proof.
  intros Hf Ht j r [?|(-> & r0 & E & ? & ->)]%update_row_lookup; [by apply Ht|].
  apply Hf; [|done]. by apply Ht.
Qed.

Lemma update_where_lookup p f t j :
  update_where p f t !! j = (λ r, if p r then f r else r) <$> (t !! j).
Proof. unfold update_where. by rewrite lookup_fmap. Qed.

Lemma update_where_all (I : K → R → Prop) p f t :
  (∀ j r, I j r → p r = true → I j (f r)) →
  map_Forall I t → map_Forall I (update_where p f t).
Proof.
  intros Hf Ht j r'. rewrite update_where_lookup.
  intros (r & Hr & ->)%fmap_Some. destruct (p r) eqn:?; [|by apply Ht].
  apply Hf; [by apply Ht|done].
Qed.
End table.

(** ** Ordered selection: [ORDER BY ... LIMIT n] *)
Section ordered.
Context {R : Type} (le : R → R → bool).
Implicit Types (x y : R) (l : list R).

Fixpoint insert_by x l : list R :=
  match l with
  | [] => [x]
  | y :: l' => if le x y then x :: l else y :: insert_by x l'
  end.
Definition sort_by l : list R := foldr insert_by [] l.

Lemma insert_by_perm x l : insert_by x l ≡ₚ x :: l.
Proof.
  induction l as [|y l IH]; simpl; [done|]. destruct (le x y); [done|].
  rewrite IH. apply Permutation_swap.
Qed.
Lemma sort_by_perm l : sort_by l ≡ₚ l.
Proof. induction l as [|x l IH]; simpl; [done|]. by rewrite insert_by_perm, IH. Qed.

Context (le_total : ∀ x y, le x y = false → le y x = true).
Context (le_trans : ∀ x y z, le x y = true → le y z = true → le x z = true).

Lemma insert_by_sorted x l :
  StronglySorted (λ a b, le a b = true) l → StronglySorted (λ a b, le a b = true) (insert_by x l).
Proof using All.
  induction 1 as [|y l Hl IH Hy]; simpl; [repeat constructor|].
  destruct (le x y) eqn:E.
  - constructor; [by constructor|]. constructor; [done|].
    eapply Forall_impl; [exact Hy|]. eauto.
  - constructor; [done|]. rewrite insert_by_perm. constructor; [by apply le_total|done].
Qed.
Lemma sort_by_sorted l : StronglySorted (λ a b, le a b = true) (sort_by l).
Proof using All.
  induction l as [|x l IH]; simpl; [constructor|]. by apply insert_by_sorted.
Qed.

(** What the limit cuts off does not come before what it keeps. *)
Lemma sort_by_take n l x y :
  x ∈ take n (sort_by l) → y ∈ drop n (sort_by l) → le x y = true.
Proof using All.
  pose proof (sort_by_sorted l) as Hs. revert Hs. generalize (sort_by l). clear l.
  intros l Hs. revert n. induction Hs as [|z l _ IH Hz]; intros n.
  - rewrite take_nil. intros H. by apply elem_of_nil in H.
  - destruct n as [|n]; simpl; [intros H; by apply elem_of_nil in H|].
    intros [->|Hx]%elem_of_cons Hy; [|by eapply IH].
    rewrite Forall_forall in Hz. apply Hz. rewrite <- (take_drop n l).
    apply elem_of_app. by right.
Qed.
End ordered.

(** [UPDATE ... WHERE id IN (selected)]. *)
Section update_ids.
Context {K : Type} `{Countable K} {R : Type}.
Implicit Types (t : gmap K R) (f : R → R) (ids : list K).

Definition update_ids ids f t : gmap K R :=
  map_imap (λ k r, Some (if bool_decide (k ∈ ids) then f r else r)) t.

Lemma update_ids_lookup ids f t k :
  update_ids ids f t !! k = (λ r, if bool_decide (k ∈ ids) then f r else r) <$> t !! k.
Proof. unfold update_ids. rewrite map_lookup_imap. by destruct (t !! k). Qed.

Lemma update_ids_dom ids f t : dom (update_ids ids f t) = dom t.
Proof.
  apply set_eq. intros k. rewrite !elem_of_dom, update_ids_lookup.
  by rewrite fmap_is_Some.
Qed.
End update_ids.

(** ** Components of a larger state *)
Definition zoom {S T A} (get : S → T) (put : T → S → S) (m : M T A) : M S A := λ e w,
  let '(r, (t, n)) := m e (get w.1, w.2) in (r, (put t w.1, n)).

Lemma zoom_run {S T A} (get : S → T) (put : T → S → S) (m : M T A) e s n r t n' :
  m e (get s, n) = (r, (t, n')) → zoom get put m e (s, n) = (r, (put t s, n')).
Proof. unfold zoom. simpl. by intros ->. Qed.
Lemma respects_zoom {S T A} (R : relation T) (Q : relation S) get (put : T → S → S) (m : M T A) :
  respects R m → (∀ s t, R (get s) t → Q s (put t s)) → respects Q (zoom get put m).
Proof.
  intros Hm H e s n. specialize (Hm e (get s) n). unfold zoom, state_of in *.
  destruct (m e (get s, n)) as [r [t n']] eqn:E. simpl in *. rewrite E. simpl. by apply H.
Qed.
