(* ===== verification/Regex.v ===== *)
(** * Regular expressions of the [regexp] package

    The few patterns the program compiles, as syntax trees over byte classes,
    with an executable matcher by derivatives and its specification.  Anchored
    patterns ([^...$]) are [full_match]; unanchored ones add [any_star]. *)

From S2P Require Import Prelude.

Inductive regex :=
| RNone
| REps
| RClass (c : ascii → bool)
| RSeq (r1 r2 : regex)
| RAlt (r1 r2 : regex)
| RStar (r : regex).

Inductive matches : regex → list ascii → Prop :=
| MEps : matches REps []
| MClass (c : ascii → bool) a : c a = true → matches (RClass c) [a]
| MSeq r1 r2 s1 s2 : matches r1 s1 → matches r2 s2 → matches (RSeq r1 r2) (s1 ++ s2)
| MAltL r1 r2 s : matches r1 s → matches (RAlt r1 r2) s
| MAltR r1 r2 s : matches r2 s → matches (RAlt r1 r2) s
| MStarNil r : matches (RStar r) []
| MStarCons r s1 s2 : matches r s1 → matches (RStar r) s2 → matches (RStar r) (s1 ++ s2).

Fixpoint nullable (r : regex) : bool :=
  match r with
  | RNone | RClass _ => false
  | REps | RStar _ => true
  | RSeq r1 r2 => nullable r1 && nullable r2
  | RAlt r1 r2 => nullable r1 || nullable r2
  end.

Fixpoint deriv (a : ascii) (r : regex) : regex :=
  match r with
  | RNone | REps => RNone
  | RClass c => if c a then REps else RNone
  | RSeq r1 r2 =>
      let d := RSeq (deriv a r1) r2 in
      if nullable r1 then RAlt d (deriv a r2) else d
  | RAlt r1 r2 => RAlt (deriv a r1) (deriv a r2)
  | RStar r => RSeq (deriv a r) (RStar r)
  end.

Fixpoint match_list (r : regex) (s : list ascii) : bool :=
  match s with
  | [] => nullable r
  | a :: s' => match_list (deriv a r) s'
  end.
Definition full_match (r : regex) (s : string) : bool :=
  match_list r (String.list_ascii_of_string s).

#[local] Hint Constructors matches : core.

Lemma nullable_spec r : nullable r = true ↔ matches r [].
Proof.
  split.
  - induction r; simpl; try done; auto.
    + intros [??]%andb_true_iff. apply (MSeq _ _ [] []); auto.
    + intros [?|?]%orb_true_iff; auto.
  - remember [] as s eqn:E. induction 1; simplify_list_eq; auto.
    + apply app_eq_nil in E as [-> ->]. rewrite IHmatches1, IHmatches2; done.
    + by rewrite IHmatches.
    + by rewrite IHmatches, orb_true_r.
Qed.

Lemma star_cons_inv r s : matches (RStar r) s →
  ∀ a s', s = a :: s' → ∃ s1 s2, s' = s1 ++ s2 ∧ matches r (a :: s1) ∧ matches (RStar r) s2.
Proof.
  remember (RStar r) as q eqn:E. induction 1; simplify_eq; try done.
  intros b s' Hs. destruct s1 as [|c s1]; simplify_list_eq; eauto.
Qed.

Lemma deriv_spec a r : ∀ s, matches (deriv a r) s ↔ matches r (a :: s).
Proof.
  induction r as [| |c|r1 IH1 r2 IH2|r1 IH1 r2 IH2|r IH]; intros s; simpl.
  1,2: split; inversion 1.
  - split.
    + destruct (c a) eqn:?; inversion 1; subst; auto.
    + inversion 1; subst. by rewrite H2.
  - assert (Hseq : ∀ s, matches (RSeq (deriv a r1) r2) s ↔
      ∃ s1 s2, s = s1 ++ s2 ∧ matches r1 (a :: s1) ∧ matches r2 s2).
    { intros q. split.
      - inversion 1; subst. do 2 eexists. split; [done|]. by rewrite <- IH1.
      - intros (s1 & s2 & -> & ?%IH1 & ?). auto. }
    assert (Hinv : matches (RSeq r1 r2) (a :: s) ↔
      (∃ s1 s2, s = s1 ++ s2 ∧ matches r1 (a :: s1) ∧ matches r2 s2) ∨
      (nullable r1 = true ∧ matches r2 (a :: s))).
    { split.
      - inversion 1 as [| |? ? s1 s2 H1 H2 E Hs| | | |]; subst.
        destruct s1; simplify_list_eq; [right; by rewrite nullable_spec|left; eauto].
      - intros [(s1 & s2 & -> & ? & ?)|[?%nullable_spec ?]].
        + apply (MSeq _ _ (a :: s1)); auto.
        + apply (MSeq _ _ []); auto. }
    rewrite Hinv. destruct (nullable r1).
    + split.
      * inversion 1; subst; [left; by apply Hseq|right; split; [done|]; by apply IH2].
      * intros [?%Hseq|[_ ?%IH2]]; auto.
    + rewrite Hseq. naive_solver.
  - split.
    + inversion 1; subst; [apply MAltL, IH1|apply MAltR, IH2]; done.
    + inversion 1; subst; [apply MAltL, IH1|apply MAltR, IH2]; done.
  - split.
    + inversion 1; subst. apply (MStarCons _ (a :: s1)); [by apply IH|done].
    + intros Hs. destruct (star_cons_inv _ _ Hs _ _ eq_refl) as (s1 & s2 & -> & ?%IH & ?).
      auto.
Qed.

Lemma match_list_spec s : ∀ r, match_list r s = true ↔ matches r s.
Proof.
  induction s as [|a s IH]; intros r; simpl; [apply nullable_spec|].
  by rewrite IH, deriv_spec.
Qed.

(** ** Derived forms *)
Definition rplus (r : regex) : regex := RSeq r (RStar r).
Definition ropt (r : regex) : regex := RAlt REps r.
(** [r{n}] and [r{m,n}]. *)
Fixpoint rtimes (n : nat) (r : regex) : regex :=
  match n with O => REps | S n' => RSeq r (rtimes n' r) end.
Fixpoint rupto (n : nat) (r : regex) : regex :=
  match n with O => REps | S n' => ropt (RSeq r (rupto n' r)) end.
Definition rrange (m n : nat) (r : regex) : regex := RSeq (rtimes m r) (rupto (n - m) r).
Definition any_star : regex := RStar (RClass (λ _, true)).

Definition between (lo hi : ascii) (a : ascii) : bool :=
  (N_of_ascii lo <=? N_of_ascii a)%N && (N_of_ascii a <=? N_of_ascii hi)%N.
Definition is_lower : ascii → bool := between "a" "z".
Definition is_upper : ascii → bool := between "A" "Z".
Definition is_digit : ascii → bool := between "0" "9".

Lemma star_class c s : matches (RStar (RClass c)) s ↔ Forall (λ a, c a = true) s.
Proof.
  split.
  - remember (RStar (RClass c)) as q eqn:E. induction 1; simplify_eq; [constructor|].
    inversion H; subst. constructor; auto.
  - induction 1 as [|a s Ha _ IH]; [constructor|]. apply (MStarCons _ [a]); auto.
Qed.

Lemma plus_class c s :
  matches (rplus (RClass c)) s ↔ s ≠ [] ∧ Forall (λ a, c a = true) s.
Proof.
  unfold rplus. split.
  - inversion 1 as [| |? ? s1 s2 H1 H2 E Hs| | | |]; subst.
    inversion H1; subst. split; [done|]. constructor; [done|]. by apply star_class.
  - intros [Hne Hs]. destruct Hs as [|a s Ha Hs]; [done|].
    apply (MSeq _ _ [a]); [auto|by apply star_class].
Qed.

Lemma times_class c n s :
  matches (rtimes n (RClass c)) s ↔ length s = n ∧ Forall (λ a, c a = true) s.
Proof.
  revert s. induction n as [|n IH]; intros s; simpl.
  - split; [inversion 1; split; [done|constructor]|].
    intros [?%length_zero_iff_nil _]. subst. constructor.
  - split.
    + inversion 1 as [| |? ? s1 s2 H1 H2 E Hs| | | |]; subst. inversion H1; subst.
      apply IH in H2 as [<- ?]. split; [done|by constructor].
    + intros [Hl Hs]. destruct Hs as [|a s Ha Hs]; [done|]. simplify_eq/=.
      apply (MSeq _ _ [a]); [auto|]. by apply IH.
Qed.

Lemma upto_class c n s :
  matches (rupto n (RClass c)) s ↔ length s ≤ n ∧ Forall (λ a, c a = true) s.
Proof.
  revert s. induction n as [|n IH]; intros s; simpl.
  - split; [inversion 1; split; [done|constructor]|].
    intros [?%Nat.le_0_r%length_zero_iff_nil _]. subst. constructor.
  - unfold ropt. split.
    + inversion 1 as [| | |? ? ? H1|? ? ? H1| |]; subst.
      * inversion H1; subst. split; [simpl; lia|constructor].
      * inversion H1 as [| |? ? s1 s2 H2 H3 E Hs| | | |]; subst. inversion H2; subst.
        apply IH in H3 as [? ?]. split; [simpl; lia|by constructor].
    + intros [Hl Hs]. destruct Hs as [|a s Ha Hs]; [auto|]. simpl in Hl.
      apply MAltR, (MSeq _ _ [a]); [auto|]. apply IH. split; [lia|done].
Qed.

Lemma range_class c m n s :
  m ≤ n →
  matches (rrange m n (RClass c)) s ↔ m ≤ length s ≤ n ∧ Forall (λ a, c a = true) s.
Proof.
  intros Hmn. unfold rrange. split.
  - inversion 1 as [| |? ? s1 s2 H1 H2 E Hs| | | |]; subst.
    apply times_class in H1 as [??]. apply upto_class in H2 as [??].
    rewrite length_app. split; [lia|by apply Forall_app].
  - intros [Hl Hs]. rewrite <- (take_drop m s). constructor.
    + apply times_class. rewrite length_take. split; [lia|by apply Forall_take].
    + apply upto_class. rewrite length_drop. split; [lia|by apply Forall_drop].
Qed.
