(* ===== verification/Graph.v ===== *)
(** * Status machines given as transition tables

    The Go code writes every status machine as a
    [map[Status]map[Status]bool] over string-typed constants.  A table is an
    association list here, so that [CanTransitionTo] is a lookup on arbitrary
    strings, unknown and empty ones included, and so that a property of all
    edges is decided by evaluating the table once.  The lemmas lift such
    evaluations to statements about all strings and all runs. *)

From S2P Require Import Prelude.
From Stdlib Require Import Lia.

Definition table := list (string * list string).

(** [successors, ok := transitionMap[s]]. *)
Fixpoint table_lookup (g : table) (s : string) : option (list string) :=
  match g with
  | [] => None
  | (k, v) :: g' => if bool_decide (k = s) then Some v else table_lookup g' s
  end.
Definition successors (g : table) (s : string) : list string :=
  default [] (table_lookup g s).
(** [transitionMap[s][t]], the zero value [false] when either key is missing. *)
Definition can_step (g : table) (s t : string) : bool :=
  bool_decide (t ∈ successors g s).

Definition edges (g : table) : list (string * string) :=
  g ≫= λ kv, (λ t, (kv.1, t)) <$> kv.2.
Definition step (g : table) : relation string := λ s t, can_step g s t = true.
Abbreviation reach g := (rtc (step g)).

(** [sort.Slice(out, func(i, j int) bool { return out[i] < out[j] })] on the
    keys of one row; [nil] for an unknown state or an empty row. *)
Definition sort_strings (l : list string) : list string := merge_sort String.le l.
Definition legal (g : table) (s : string) : list string :=
  sort_strings (successors g s).

Lemma table_lookup_elem g s l : table_lookup g s = Some l → (s, l) ∈ g.
Proof.
  induction g as [|[k v] g IH]; simpl; [done|].
  case_bool_decide; [intros [= ->]; subst; by left|]. intros ?. right. auto.
Qed.

Lemma step_edges g s t : step g s t → (s, t) ∈ edges g.
Proof.
  unfold step, can_step, successors. intros Ht%bool_decide_eq_true.
  destruct (table_lookup g s) as [l|] eqn:E; simpl in Ht; [|set_solver].
  apply table_lookup_elem in E. unfold edges. apply list_elem_of_bind.
  exists (s, l). split; [|done]. simpl. by apply list_elem_of_fmap_2.
Qed.

(** Evaluating a boolean over the edges proves it for every pair of strings. *)
Lemma step_forall g (P : string → string → bool) :
  forallb (uncurry P) (edges g) = true → ∀ s t, step g s t → P s t = true.
Proof.
  intros Hf s t Hst. rewrite forallb_forall in Hf.
  apply (Hf (s, t)), list_elem_of_In, step_edges, Hst.
Qed.

Lemma reach_invariant g (I : string → bool) :
  forallb (uncurry (λ s t, implb (I s) (I t))) (edges g) = true →
  ∀ s t, reach g s t → I s = true → I t = true.
Proof.
  intros Hf s t. induction 1 as [|x y z Hxy _ IH]; [done|]. intros Hx. apply IH.
  pose proof (step_forall _ _ Hf _ _ Hxy) as Hi. simpl in Hi. by rewrite Hx in Hi.
Qed.

(** A rank that every edge increases bounds the length of every run. *)
Lemma rank_bound g (rank : string → nat) :
  forallb (uncurry (λ s t, bool_decide (rank s < rank t))) (edges g) = true →
  ∀ n s t, nsteps (step g) n s t → n + rank s ≤ rank t.
Proof.
  intros Hf n s t. induction 1 as [|n x y z Hxy _ IH]; [done|].
  pose proof (step_forall _ _ Hf _ _ Hxy) as Hr%bool_decide_eq_true. lia.
Qed.

(** ** Computing reachability *)
Fixpoint closure (g : table) (fuel : nat) (todo seen : list string) : list string :=
  match fuel, todo with
  | S fuel', s :: todo' =>
      if bool_decide (s ∈ seen) then closure g fuel' todo' seen
      else closure g fuel' (successors g s ++ todo') (s :: seen)
  | _, _ => seen
  end.
(** Every state reachable from [s]; each edge is put on the list once. *)
Definition reachable (g : table) (s : string) : list string :=
  closure g (S (S (length (edges g)))) [s] [].
Definition closed_set (g : table) (l : list string) : bool :=
  forallb (λ s, forallb (λ t, bool_decide (t ∈ l)) (successors g s)) l.

Lemma closure_sound g (s0 : string) fuel : ∀ todo seen,
  (∀ s, s ∈ todo ++ seen → reach g s0 s) →
  ∀ s, s ∈ closure g fuel todo seen → reach g s0 s.
Proof.
  induction fuel as [|fuel IH]; intros todo seen H s; simpl; [set_solver|].
  destruct todo as [|x todo]; [set_solver|]. case_bool_decide as Hx.
  - apply IH. set_solver.
  - apply IH. intros y Hy. rewrite !elem_of_app, elem_of_cons in Hy.
    destruct Hy as [[Hy|Hy]|[->|Hy]]; [|apply H; set_solver..].
    eapply rtc_r; [apply (H x); set_solver|]. by apply bool_decide_eq_true.
Qed.

Lemma reachable_sound g s t : t ∈ reachable g s → reach g s t.
Proof.
  apply closure_sound. intros x Hx. assert (x = s) as -> by set_solver. done.
Qed.

Lemma closed_set_reach g l :
  closed_set g l = true → ∀ s t, reach g s t → s ∈ l → t ∈ l.
Proof.
  unfold closed_set. rewrite forallb_forall. intros H s t.
  induction 1 as [|x y z Hxy _ IH]; [done|]. intros Hx. apply IH.
  specialize (H x). rewrite <- list_elem_of_In, forallb_forall in H.
  specialize (H Hx y). rewrite <- list_elem_of_In, bool_decide_eq_true in H.
  apply H. by apply bool_decide_eq_true in Hxy.
Qed.

Lemma reachable_complete g s :
  closed_set g (reachable g s) = true → s ∈ reachable g s →
  ∀ t, reach g s t ↔ t ∈ reachable g s.
Proof.
  intros Hc Hs t. split; [|apply reachable_sound]. intros Ht.
  by eapply closed_set_reach.
Qed.

(** The table without the outgoing edges of [v]: what is not reachable in it
    is only reachable through [v]. *)
Definition cut (g : table) (v : string) : table :=
  List.filter (λ kv, negb (bool_decide (kv.1 = v))) g.

Lemma table_lookup_cut g v s : s ≠ v → table_lookup (cut g v) s = table_lookup g s.
Proof.
  intros Hs. unfold cut. induction g as [|[k l] g IH]; [done|].
  simpl. repeat case_bool_decide; simpl; repeat case_bool_decide; congruence.
Qed.

Lemma step_cut g v s t : s ≠ v → step g s t → step (cut g v) s t.
Proof. intros Hs. unfold step, can_step, successors. by rewrite table_lookup_cut. Qed.

(** Every run to [t] either avoids [v] or visits it. *)
Lemma reach_cut g v s t :
  reach g s t → reach (cut g v) s t ∨ (reach g s v ∧ reach g v t).
Proof.
  induction 1 as [s|x y z Hxy Hyz IH]; [by left|].
  destruct (decide (x = v)) as [->|Hx]; [right; split; [done|by eapply rtc_l]|].
  destruct IH as [IH|[IH1 IH2]].
  - left. eapply rtc_l; [by apply step_cut|done].
  - right. split; [by eapply rtc_l|done].
Qed.

Lemma reach_through g v s t :
  closed_set (cut g v) (reachable (cut g v) s) = true →
  bool_decide (s ∈ reachable (cut g v) s) = true →
  bool_decide (t ∉ reachable (cut g v) s) = true →
  reach g s t → reach g s v ∧ reach g v t.
Proof.
  intros Hc Hs%bool_decide_eq_true Ht%bool_decide_eq_true Hr.
  destruct (reach_cut g v s t Hr) as [H|H]; [|done].
  apply reachable_complete in H; [|done..]. done.
Qed.

(** The same statements for all declared states at once, by one evaluation. *)
Definition through_check (g : table) (states : list string) (v t : string) : bool :=
  forallb (λ s, bool_decide (s = t) ||
    closed_set (cut g v) (reachable (cut g v) s) &&
    bool_decide (s ∈ reachable (cut g v) s) &&
    bool_decide (t ∉ reachable (cut g v) s)) states.
Definition reach_check (g : table) (states : list string) (P : string → bool)
    (t : string) : bool :=
  forallb (λ s, P s || bool_decide (t ∈ reachable g s)) states.

Lemma through_check_sound g states v t :
  through_check g states v t = true →
  ∀ s, s ∈ states → s ≠ t → reach g s t → reach g s v ∧ reach g v t.
Proof.
  unfold through_check. rewrite forallb_forall. intros H s Hs Hne.
  specialize (H s). rewrite <- list_elem_of_In in H. specialize (H Hs).
  rewrite bool_decide_eq_false_2 in H by done. simpl in H.
  apply andb_true_iff in H as [[? ?]%andb_true_iff ?]. by apply reach_through.
Qed.

Lemma reach_check_sound g states P t :
  reach_check g states P t = true →
  ∀ s, s ∈ states → P s = false → reach g s t.
Proof.
  unfold reach_check. rewrite forallb_forall. intros H s Hs HP.
  specialize (H s). rewrite <- list_elem_of_In, HP in H. simpl in H.
  apply reachable_sound. by apply bool_decide_eq_true in H; auto.
Qed.

(** ** What every table of the repository satisfies *)
Class WellFormedTable (g : table) (states : list string) : Prop := {
  wf_keys : g.*1 ≡ₚ states;               (* a row for every declared state *)
  wf_targets : ∀ s t, step g s t → t ∈ states;
  wf_rows : ∀ s l, table_lookup g s = Some l → NoDup l;
  wf_irrefl : ∀ s, ¬ step g s s;
  wf_nonempty : "" ∉ states;
}.

Definition wf_check (g : table) (states : list string) : bool :=
  bool_decide (sort_strings g.*1 = sort_strings states) &&
  forallb (uncurry (λ s t, bool_decide (t ∈ states) && negb (bool_decide (s = t)))) (edges g) &&
  forallb (λ kv, bool_decide (NoDup kv.2)) g &&
  bool_decide ("" ∉ states).

Lemma sort_strings_perm l : sort_strings l ≡ₚ l.
Proof. apply merge_sort_Permutation. Qed.

Lemma wf_check_sound g states : wf_check g states = true → WellFormedTable g states.
Proof.
  unfold wf_check. intros [[[Hk He]%andb_true_iff Hr]%andb_true_iff Hn]%andb_true_iff.
  apply bool_decide_eq_true in Hk, Hn. pose proof (step_forall _ _ He) as Hstep.
  split; [| | | |done].
  - by rewrite <- (sort_strings_perm g.*1), Hk, sort_strings_perm.
  - intros s t Hst. apply Hstep in Hst. apply andb_true_iff in Hst as [Hst _].
    by apply bool_decide_eq_true in Hst.
  - intros s l Hl%table_lookup_elem. rewrite forallb_forall in Hr.
    apply list_elem_of_In in Hl. specialize (Hr _ Hl). by apply bool_decide_eq_true in Hr.
  - intros s Hst. apply Hstep in Hst. apply andb_true_iff in Hst as [_ Hst].
    by rewrite bool_decide_eq_true_2 in Hst.
Qed.

(** [if !ok || len(successors) == 0 { return nil }]. *)
Lemma legal_match g s :
  match table_lookup g s with
  | None | Some [] => []
  | Some succ => sort_strings succ
  end = legal g s.
Proof. unfold legal, successors. by destruct (table_lookup g s) as [[|t l]|]. Qed.

Section wf.
Context (g : table) (states : list string) `{!WellFormedTable g states}.

Lemma step_source s t : step g s t → s ∈ states.
Proof using All.
  intros (kv & Hst & Hk)%step_edges%list_elem_of_bind.
  apply list_elem_of_fmap in Hst as (? & [= -> ->] & ?).
  rewrite <- wf_keys. apply list_elem_of_fmap_2. done.
Qed.

Lemma step_not_empty s t : step g s t → s ≠ "" ∧ t ≠ "".
Proof.
  intros Hst. split; intros ->; apply wf_nonempty;
    [by eapply step_source|by eapply wf_targets].
Qed.

(** The defensive guards of [CanTransitionTo] never reject a table edge. *)
Lemma guarded_lookup s t :
  (if bool_decide (s = "") || bool_decide (t = "") then false
   else match table_lookup g s with
        | None => false
        | Some succ => bool_decide (t ∈ succ)
        end) = can_step g s t.
Proof using All.
  unfold can_step, successors. destruct (table_lookup g s) as [l|] eqn:E; simpl.
  - destruct (bool_decide_reflect (t ∈ l)) as [Ht|]; [|by destruct (_ || _)].
    destruct (step_not_empty s t) as [Hs Ht'].
    { unfold step, can_step, successors. rewrite E. by apply bool_decide_eq_true_2. }
    by rewrite !bool_decide_eq_false_2.
  - by destruct (_ || _).
Qed.

(** [LegalTransitions] lists exactly the legal successors, in increasing
    order and without repetitions. *)
Lemma legal_spec s :
  (∀ t, t ∈ legal g s ↔ step g s t) ∧
  StronglySorted String.le (legal g s) ∧ NoDup (legal g s).
Proof.
  unfold legal. split; [|split].
  - intros t. unfold step, can_step. rewrite bool_decide_eq_true.
    by rewrite sort_strings_perm.
  - apply StronglySorted_merge_sort; apply _.
  - rewrite sort_strings_perm. unfold successors.
    destruct (table_lookup g s) as [l|] eqn:E; simpl; [|constructor].
    by eapply wf_rows.
Qed.

Lemma reach_states s t : s ∈ states → reach g s t → t ∈ states.
Proof.
  intros Hs. induction 1 as [|x y z Hxy _ IH]; [done|].
  apply IH. by eapply wf_targets.
Qed.
End wf.

(** Prove a [WellFormedTable] by evaluating the table. *)
Ltac solve_wf := apply wf_check_sound; vm_compute; exact eq_refl.
(** Prove [reach g s t] or its negation on concrete states by evaluation. *)
Ltac solve_reach := apply reachable_sound; decide_closed.
(** From [reach g s t], [s ≠ t] and [s ∈ states] conclude [reach g s v] because
    the evaluation of [through_check] says so. *)
Ltac solve_through states :=
  lazymatch goal with
  | Hin : ?s ∈ states, Hne : ?s ≠ ?t, Hr : rtc (step ?g) ?s ?t |- rtc (step ?g) ?s ?v =>
      refine (proj1 (through_check_sound g states v t _ s Hin Hne Hr));
      vm_compute; exact eq_refl
  end.
