(* ===== verification/ExternalDeliveryModel.v ===== *)
(** * The external delivery journal: status machine and publish envelope

    [src/internal/models/external_delivery.go]: the 11 statuses of a Velox
    hand-off, the legal transitions between them, the row itself and the
    validation of its metadata envelope. *)

From S2P Require Import Prelude Regex Graph.
From Stdlib Require Import Lia.

(* Source: internal/models/external_delivery.go *)

(** ** Statuses *)
Definition ExternalDeliveryStatusAccepted : string := "accepted". (* 54 *)
Definition ExternalDeliveryStatusDownloading : string := "downloading". (* 57 *)
Definition ExternalDeliveryStatusArtifactVerified : string := "artifact_verified". (* 61 *)
Definition ExternalDeliveryStatusIngestCompleted : string := "ingest_completed". (* 66 *)
Definition ExternalDeliveryStatusQueued : string := "queued". (* 69 *)
Definition ExternalDeliveryStatusPublishing : string := "publishing". (* 73 *)
Definition ExternalDeliveryStatusPublished : string := "published". (* 76 *)
Definition ExternalDeliveryStatusRetryWait : string := "retry_wait". (* 80 *)
Definition ExternalDeliveryStatusBlockedAuth : string := "blocked_auth". (* 83 *)
Definition ExternalDeliveryStatusFailed : string := "failed". (* 87 *)
Definition ExternalDeliveryStatusDeadLetter : string := "dead_letter". (* 90 *)

(* 51-91 ExternalDeliveryStatus constants *)
Definition ExternalDeliveryStatuses : list string :=
  [ExternalDeliveryStatusAccepted; ExternalDeliveryStatusDownloading;
   ExternalDeliveryStatusArtifactVerified; ExternalDeliveryStatusIngestCompleted;
   ExternalDeliveryStatusQueued; ExternalDeliveryStatusPublishing;
   ExternalDeliveryStatusPublished; ExternalDeliveryStatusRetryWait;
   ExternalDeliveryStatusBlockedAuth; ExternalDeliveryStatusFailed;
   ExternalDeliveryStatusDeadLetter].

(* 97-106 ExternalDeliveryStatus.IsTerminal *)
Definition IsTerminal (s : string) : bool :=
  bool_decide (s ∈ [ExternalDeliveryStatusPublished; ExternalDeliveryStatusFailed;
    ExternalDeliveryStatusDeadLetter; ExternalDeliveryStatusBlockedAuth]).

(* 115-127 ExternalDeliveryStatus.IsRetryable *)
Definition IsRetryable (s : string) : bool :=
  bool_decide (s ∈ [ExternalDeliveryStatusAccepted; ExternalDeliveryStatusDownloading;
    ExternalDeliveryStatusArtifactVerified; ExternalDeliveryStatusIngestCompleted;
    ExternalDeliveryStatusQueued; ExternalDeliveryStatusPublishing;
    ExternalDeliveryStatusRetryWait]).

(* 140-156 ExternalDeliveryStatus.Next *)
Definition Next (s : string) : string :=
  if bool_decide (s = ExternalDeliveryStatusAccepted) then ExternalDeliveryStatusDownloading
  else if bool_decide (s = ExternalDeliveryStatusDownloading) then ExternalDeliveryStatusArtifactVerified
  else if bool_decide (s = ExternalDeliveryStatusArtifactVerified) then ExternalDeliveryStatusIngestCompleted
  else if bool_decide (s = ExternalDeliveryStatusIngestCompleted) then ExternalDeliveryStatusQueued
  else if bool_decide (s = ExternalDeliveryStatusQueued) then ExternalDeliveryStatusPublishing
  else if bool_decide (s = ExternalDeliveryStatusPublishing) then ExternalDeliveryStatusPublished
  else "".

(* 193-252 transitionMap *)
Definition transitionMap : table :=
  [(ExternalDeliveryStatusAccepted,
      [ExternalDeliveryStatusDownloading; ExternalDeliveryStatusRetryWait;
       ExternalDeliveryStatusBlockedAuth; ExternalDeliveryStatusFailed]);
   (ExternalDeliveryStatusDownloading,
      [ExternalDeliveryStatusArtifactVerified; ExternalDeliveryStatusRetryWait;
       ExternalDeliveryStatusBlockedAuth; ExternalDeliveryStatusFailed]);
   (ExternalDeliveryStatusArtifactVerified,
      [ExternalDeliveryStatusIngestCompleted; ExternalDeliveryStatusRetryWait;
       ExternalDeliveryStatusBlockedAuth; ExternalDeliveryStatusFailed]);
   (ExternalDeliveryStatusIngestCompleted,
      [ExternalDeliveryStatusQueued; ExternalDeliveryStatusRetryWait;
       ExternalDeliveryStatusBlockedAuth; ExternalDeliveryStatusFailed]);
   (ExternalDeliveryStatusQueued,
      [ExternalDeliveryStatusPublishing; ExternalDeliveryStatusRetryWait;
       ExternalDeliveryStatusBlockedAuth; ExternalDeliveryStatusFailed]);
   (ExternalDeliveryStatusPublishing,
      [ExternalDeliveryStatusPublished; ExternalDeliveryStatusRetryWait;
       ExternalDeliveryStatusBlockedAuth; ExternalDeliveryStatusFailed]);
   (ExternalDeliveryStatusPublished, []);
   (ExternalDeliveryStatusRetryWait,
      [ExternalDeliveryStatusDownloading; ExternalDeliveryStatusQueued;
       ExternalDeliveryStatusBlockedAuth; ExternalDeliveryStatusFailed;
       ExternalDeliveryStatusDeadLetter]);
   (ExternalDeliveryStatusBlockedAuth, [ExternalDeliveryStatusQueued]);
   (ExternalDeliveryStatusFailed, []);
   (ExternalDeliveryStatusDeadLetter, [])].

(* 271-280 ExternalDeliveryStatus.CanTransitionTo *)
Definition CanTransitionTo (s target : string) : bool :=
  if bool_decide (s = "") || bool_decide (target = "") then false
  else match table_lookup transitionMap s with
       | None => false
       | Some succ => bool_decide (target ∈ succ)
       end.

(* 293-306 ExternalDeliveryStatus.LegalTransitions *)
Definition LegalTransitions (s : string) : list string :=
  match table_lookup transitionMap s with
  | None | Some [] => []
  | Some succ => sort_strings succ
  end.

(* 353-361 ExternalDeliveryStatus.CanonicalResume *)
Definition CanonicalResume (s : string) (downloadURLValid : bool) : string :=
  if bool_decide (s ≠ ExternalDeliveryStatusRetryWait) then ""
  else if downloadURLValid then ExternalDeliveryStatusQueued
  else ExternalDeliveryStatusDownloading.

(** ** The row

    Timestamps are [Z] nanoseconds, [*T] fields options, [json.RawMessage]
    its bytes. *)
(* 375-414 ExternalDelivery *)
Record ExternalDelivery := mkExternalDelivery {
  ID : string;
  SourceSystem : string;
  ExternalDeliveryID : string;
  IdempotencyKey : string;
  ExternalDestinationID : string;
  SourceArtifactID : string;
  ExpectedSHA256 : string;
  ExpectedSizeBytes : Z;
  ExpectedMimeType : string;
  DownloadURL : option string;
  Metadata : string;
  PublishAt : option Z;
  CallbackURL : option string;
  Status : string;
  RequestSHA256 : string;
  UploadJobID : option Z;
  PostID : option Z;
  PlatformMediaID : option string;
  PlatformURL : option string;
  LastErrorCode : option string;
  LastErrorMessage : option string;
  CreatedAt : Z;
  UpdatedAt : Z;
  CompletedAt : option Z;
  LeaseExpiresAt : option Z;
  AttemptCount : Z;
  NextAttemptAt : option Z;
  LeasedByWorkerID : option string;
  MaxAttempts : Z;
}.

(** ** The metadata envelope *)
(* 421-433 VeloxDeliveryMetadata *)
Record VeloxDeliveryMetadata := mkVeloxDeliveryMetadata {
  Title : string;
  Description : string;
  PrivacyStatus : string;
  FinalPrivacy : string;
  RequireThumbnail : bool;
  Language : option string;
  Timezone : option string;
  Tags : list string;
  TargetAccountIDs : list Z;
  DriveAccountID : option Z;
  FolderID : option string;
}.

(* 497-497 veloxLanguageRegex *)
Definition veloxLanguageRegex : regex :=
  RSeq (rrange 2 8 (RClass is_lower))
       (RStar (RSeq (RClass (Ascii.eqb "-"))
                    (rplus (RClass (λ a, is_lower a || is_upper a || is_digit a || Ascii.eqb "-" a))))).

(* 499-507 validateVeloxLanguage *)
Definition validateVeloxLanguage (lang : string) : option err :=
  if bool_decide (TrimSpace lang = "") then Some (errors_new "must be non-empty when set")
  else if negb (full_match veloxLanguageRegex lang) then
    Some (errors_new (quote lang +:+ " is not a valid BCP 47 language tag"))
  else None.

Section metadata.
(** [time.LoadLocation]: whether the IANA database has the zone. *)
Context (LoadLocation : string → bool).

(* 509-520 validateVeloxTimezone *)
Definition validateVeloxTimezone (tz : string) : option err :=
  if bool_decide (TrimSpace tz = "") then Some (errors_new "must be non-empty when set")
  else if negb (LoadLocation tz) || bool_decide (tz = "Local") then
    Some (errors_new (quote tz +:+ " is not a valid IANA timezone"))
  else None.

(* 522-525 maxVeloxTags, maxVeloxTagLen *)
Definition maxVeloxTags : nat := 50.
Definition maxVeloxTagLen : nat := 100. (* 524 *)

(** The loop of [validateVeloxTags] with its [seen] set. *)
(* 535-547 validateVeloxTags *)
Fixpoint validateVeloxTags_loop (seen : gset string) (tags : list string) : option err :=
  match tags with
  | [] => None
  | tag :: tags' =>
      let trimmed := TrimSpace tag in
      if bool_decide (trimmed = "") then Some (errors_new "tags must be non-empty strings")
      else if bool_decide (maxVeloxTagLen < String.length trimmed) then
        Some (errors_new ("tag " +:+ quote trimmed +:+ " exceeds " +:+
                          itoa (Z.of_nat maxVeloxTagLen) +:+ " characters"))
      else if bool_decide (trimmed ∈ seen) then
        Some (errors_new ("duplicate tag " +:+ quote trimmed))
      else validateVeloxTags_loop ({[trimmed]} ∪ seen) tags'
  end.

(* 527-549 validateVeloxTags *)
Definition validateVeloxTags (tags : list string) : option err :=
  match tags with
  | [] => None
  | _ =>
      if bool_decide (maxVeloxTags < length tags) then
        Some (errors_new ("too many tags: " +:+ itoa (Z.of_nat (length tags)) +:+
                          " (max " +:+ itoa (Z.of_nat maxVeloxTags) +:+ ")"))
      else validateVeloxTags_loop ∅ tags
  end.

(** One [if err != nil { return err }] after the other. *)
Definition then_check (c1 c2 : option err) : option err :=
  match c1 with Some e => Some e | None => c2 end.
Definition fail_if (c : bool) (e : err) : option err := if c then Some e else None.
Definition on_some {A} (o : option A) (f : A → option err) : option err :=
  match o with Some a => f a | None => None end.

(* 452-491 VeloxDeliveryMetadata.Validate *)
Definition Validate (o : option VeloxDeliveryMetadata) : option err :=
  match o with
  | None => Some (errors_new "metadata is nil")
  | Some m =>
      then_check (fail_if (bool_decide (TrimSpace (Title m) = "") &&
                           bool_decide (TrimSpace (Description m) = ""))
        (errors_new "metadata must contain a non-empty title or description"))
      (then_check (fail_if (negb (bool_decide (PrivacyStatus m = "")) &&
          negb (bool_decide (PrivacyStatus m ∈ ["private"; "public"; "unlisted"])))
        (errors_new ("metadata.privacy_status must be private, public or unlisted, got "
                     +:+ quote (PrivacyStatus m))))
      (then_check (match List.filter (λ i, i <=? 0)%Z (TargetAccountIDs m) with
                   | id :: _ => Some (errors_new
                       ("metadata.target_account_ids must contain positive IDs, got " +:+ itoa id))
                   | [] => None
                   end)
      (then_check (on_some (DriveAccountID m) (λ i, fail_if (i <=? 0)%Z
        (errors_new "metadata.drive_account_id must be positive when set")))
      (then_check (on_some (FolderID m) (λ f, fail_if (bool_decide (TrimSpace f = ""))
        (errors_new "metadata.folder_id must be non-empty when set")))
      (then_check (wrap "metadata.language" <$> on_some (Language m) validateVeloxLanguage)
      (then_check (wrap "metadata.timezone" <$> on_some (Timezone m) validateVeloxTimezone)
                  (wrap "metadata.tags" <$> validateVeloxTags (Tags m))))))))
  end.
End metadata.

(** ** The status machine *)
#[export] Instance transitionMap_wf :
  WellFormedTable transitionMap ExternalDeliveryStatuses.
Proof. solve_wf. Qed.

(** The defensive guards of [CanTransitionTo] never reject a table edge. *)
Lemma external_CanTransitionTo_step s t : CanTransitionTo s t = can_step transitionMap s t.
Proof. apply (guarded_lookup _ ExternalDeliveryStatuses). Qed.

Lemma external_LegalTransitions_legal s : LegalTransitions s = legal transitionMap s.
Proof. apply legal_match. Qed.

(** [validateVeloxTags] accepts exactly the short lists of distinct short
    non-empty tags. *)
Lemma validateVeloxTags_loop_None tags : ∀ seen,
  validateVeloxTags_loop seen tags = None ↔
  Forall (λ t, TrimSpace t ≠ "" ∧ String.length (TrimSpace t) ≤ 100 ∧
               TrimSpace t ∉ seen) tags ∧
  NoDup (TrimSpace <$> tags).
Proof.
  induction tags as [|t tags IH]; intros seen; simpl.
  { split; [intros _; split; constructor|done]. }
  unfold maxVeloxTagLen. rewrite Forall_cons, NoDup_cons.
  case_bool_decide; [split; [done|intros [[[??] _] _]; done]|].
  case_bool_decide; [split; [done|intros [[(?&?&?) _] _]; lia]|].
  case_bool_decide; [split; [done|intros [[(?&?&?) _] _]; done]|].
  rewrite IH, list_elem_of_fmap, !Forall_forall. split.
  - intros [Ha Hd]. split; [|split; [|done]].
    + split; [split; [done|split; [lia|done]]|].
      intros x Hx. specialize (Ha x Hx) as (?&?&?). set_solver.
    + intros (x & E & Hx). specialize (Ha x Hx) as (?&?&?). set_solver.
  - intros [[? Ha] [Hn Hd]]. split; [|done]. intros x Hx.
    specialize (Ha x Hx) as (?&?&Hs). split; [done|]. split; [done|].
    rewrite elem_of_union, elem_of_singleton. naive_solver.
Qed.

Lemma validateVeloxTags_None tags :
  validateVeloxTags tags = None ↔
  length tags ≤ 50 ∧
  Forall (λ t, TrimSpace t ≠ "" ∧ String.length (TrimSpace t) ≤ 100) tags ∧
  NoDup (TrimSpace <$> tags).
Proof.
  unfold validateVeloxTags, maxVeloxTags. destruct tags as [|t tags].
  { split; [intros _; repeat split; [simpl; lia|constructor..]|done]. }
  case_bool_decide as Hl.
  - split; [done|]. intros [? _]. lia.
  - rewrite validateVeloxTags_loop_None, !Forall_forall. split.
    + intros [Ha ?]. split; [lia|]. split; [|done]. intros x Hx.
      by destruct (Ha x Hx) as (?&?&?).
    + intros (? & Ha & ?). split; [|done]. intros x Hx. destruct (Ha x Hx).
      split; [done|]. split; [done|apply not_elem_of_empty].
Qed.

Lemma then_check_None c1 c2 : then_check c1 c2 = None ↔ c1 = None ∧ c2 = None.
Proof. destruct c1; naive_solver. Qed.
Lemma fail_if_None c e : fail_if c e = None ↔ c = false.
Proof. by destruct c. Qed.

Lemma on_some_None {A} (o : option A) f :
  on_some o f = None ↔ ∀ a, o = Some a → f a = None.
Proof. destruct o; naive_solver. Qed.

Lemma first_bad_None {B} (l : list Z) (f : Z → B) :
  match List.filter (λ i, i <=? 0)%Z l with id :: _ => Some (f id) | [] => None end = None ↔
  Forall (λ i, 0 < i)%Z l.
Proof.
  induction l as [|i l IH]; simpl; [split; [constructor|done]|].
  rewrite Forall_cons. destruct (Z.leb_spec i 0).
  - split; [done|]. lia.
  - rewrite IH. naive_solver.
Qed.

Lemma validateVeloxLanguage_None l :
  validateVeloxLanguage l = None ↔
  TrimSpace l ≠ "" ∧ matches veloxLanguageRegex (String.list_ascii_of_string l).
Proof.
  unfold validateVeloxLanguage, full_match. rewrite <- match_list_spec.
  case_bool_decide; [naive_solver|].
  by destruct (match_list _ _); naive_solver.
Qed.

Lemma validateVeloxTimezone_None zones z :
  validateVeloxTimezone zones z = None ↔ TrimSpace z ≠ "" ∧ zones z = true ∧ z ≠ "Local".
Proof.
  unfold validateVeloxTimezone. case_bool_decide; [naive_solver|].
  case_bool_decide; destruct (zones z); naive_solver.
Qed.

(** A language tag is 2 to 8 lower-case letters, then nothing or a dash and
    letters, digits and dashes that do not stop at that dash. *)
Lemma veloxLanguageRegex_spec l :
  matches veloxLanguageRegex l ↔
  ∃ p q, l = p ++ q ∧ 2 ≤ length p ≤ 8 ∧ Forall (λ a, is_lower a = true) p ∧
    (q = [] ∨ ∃ r, q = "-"%char :: r ∧ r ≠ [] ∧
       Forall (λ a, is_lower a || is_upper a || is_digit a || Ascii.eqb "-" a = true) r).
Proof.
  unfold veloxLanguageRegex.
  set (c := λ a, is_lower a || is_upper a || is_digit a || Ascii.eqb "-" a).
  assert (Hstar : ∀ q, matches (RStar (RSeq (RClass (Ascii.eqb "-")) (rplus (RClass c)))) q ↔
    q = [] ∨ ∃ r, q = "-"%char :: r ∧ r ≠ [] ∧ Forall (λ a, c a = true) r).
  { intros q. split.
    - remember (RStar _) as st eqn:E. induction 1; simplify_eq; [by left|]. right.
      inversion H as [| |? ? s3 s4 H1 H2 E' Hs| | | |]; subst. inversion H1; subst.
      apply plus_class in H2 as [? ?].
      match goal with Hc : Ascii.eqb _ _ = true |- _ => apply Ascii.eqb_eq in Hc as <- end.
      destruct (IHmatches2 eq_refl) as [->|(r & -> & ? & ?)].
      + exists s4. split; [by simpl; rewrite app_nil_r|done].
      + exists (s4 ++ "-"%char :: r). split; [done|]. split; [by destruct s4|].
        apply Forall_app. split; [done|]. by constructor.
    - intros [->|(r & -> & ? & ?)]; [constructor|].
      rewrite <- (app_nil_r (_ :: r)). apply MStarCons; [|constructor].
      apply (MSeq _ _ ["-"%char]); [by constructor|]. by apply plus_class. }
  split.
  - inversion 1 as [| |? ? s1 s2 H1 H2 E Hs| | | |]; subst.
    apply range_class in H1 as [??]; [|lia]. apply Hstar in H2. eauto 10.
  - intros (p & q & -> & ? & ? & Hq). constructor; [|by apply Hstar].
    apply range_class; [lia|done].
Qed.

(** ** Properties *)

(** The delivery journal can only end where it should.  Along any run of
    legal transitions: a row that reaches [published] went through
    [publishing]; a row that reaches [dead_letter] went through [retry_wait];
    [published], [failed] and [dead_letter] are never left, while
    [blocked_auth], terminal for the workers, can only return to [queued];
    from every other status [published] is still reachable; and
    [LegalTransitions] lists exactly the transitions [CanTransitionTo]
    allows, in increasing order. *)
Theorem external_delivery_lifecycle (s t : string) :
  let final := [ExternalDeliveryStatusPublished; ExternalDeliveryStatusFailed;
                ExternalDeliveryStatusDeadLetter] in
  (s ∈ ExternalDeliveryStatuses →
   (reach transitionMap s ExternalDeliveryStatusPublished →
      s ≠ ExternalDeliveryStatusPublished →
      reach transitionMap s ExternalDeliveryStatusPublishing) ∧
   (reach transitionMap s ExternalDeliveryStatusDeadLetter →
      s ≠ ExternalDeliveryStatusDeadLetter →
      reach transitionMap s ExternalDeliveryStatusRetryWait) ∧
   (s ∉ final → reach transitionMap s ExternalDeliveryStatusPublished)) ∧
  (CanTransitionTo s t = true → IsTerminal s = true →
     s = ExternalDeliveryStatusBlockedAuth ∧ t = ExternalDeliveryStatusQueued) ∧
  (t ∈ LegalTransitions s ↔ CanTransitionTo s t = true) ∧
  StronglySorted String.le (LegalTransitions s) ∧ NoDup (LegalTransitions s).
Proof.
  rewrite external_CanTransitionTo_step, external_LegalTransitions_legal.
  destruct (legal_spec transitionMap ExternalDeliveryStatuses s) as (Hl & Hs & Hn).
  split; [|split; [|by rewrite Hl]].
  - intros Hin. split; [|split].
    + intros Hr Hne. by solve_through ExternalDeliveryStatuses.
    + intros Hr Hne. by solve_through ExternalDeliveryStatuses.
    + intros Hf. apply (reach_check_sound _ ExternalDeliveryStatuses
        (λ s, bool_decide (s ∈ [ExternalDeliveryStatusPublished;
          ExternalDeliveryStatusFailed; ExternalDeliveryStatusDeadLetter])));
        [vm_compute; exact eq_refl|done|by apply bool_decide_eq_false_2].
  - intros Hst Ht.
    apply (step_forall transitionMap (λ s t, implb (IsTerminal s)
      (bool_decide (s = ExternalDeliveryStatusBlockedAuth) &&
       bool_decide (t = ExternalDeliveryStatusQueued)))) in Hst;
      [|vm_compute; exact eq_refl].
    rewrite Ht in Hst. by apply andb_true_iff in Hst as [->%bool_decide_eq_true
      ->%bool_decide_eq_true].
Qed.

(** The resume choice and the happy path stay inside the transition
    graph.  [CanonicalResume] answers only for [retry_wait], with [queued]
    when the download URL is still valid and [downloading] otherwise, both
    legal; [Next] is a legal transition whenever it answers, it answers
    exactly for the six stages of the pipeline, and six applications lead
    from [accepted] to [published]. *)
Theorem external_delivery_next_and_resume (s : string) (valid : bool) :
  (CanonicalResume s valid ≠ "" ↔ s = ExternalDeliveryStatusRetryWait) ∧
  (CanonicalResume s valid ≠ "" → CanTransitionTo s (CanonicalResume s valid) = true ∧
     (CanonicalResume s valid = ExternalDeliveryStatusQueued ↔ valid = true)) ∧
  (Next s ≠ "" → CanTransitionTo s (Next s) = true) ∧
  (Next s ≠ "" ↔ IsRetryable s = true ∧ s ≠ ExternalDeliveryStatusRetryWait) ∧
  Nat.iter 6 Next ExternalDeliveryStatusAccepted = ExternalDeliveryStatusPublished.
Proof.
  destruct (decide (s ∈ ExternalDeliveryStatuses)) as [Hs|Hs].
  - unfold ExternalDeliveryStatuses in Hs. enum_cases Hs; destruct valid; decide_closed.
  - assert (Hne : ∀ c, c ∈ ExternalDeliveryStatuses → s ≠ c) by congruence.
    unfold CanonicalResume, Next, IsRetryable.
    rewrite !(bool_decide_eq_false_2 (s = _)) by (apply Hne; decide_closed).
    rewrite (bool_decide_eq_true_2 (s ≠ _)) by (apply Hne; decide_closed).
    rewrite bool_decide_eq_false_2 by (intros H; enum_cases H; apply Hs; decide_closed).
    split; [split; [done|]|split; [done|split; [done|split; [|decide_closed]]]].
    + intros ->. by destruct Hs; decide_closed.
    + split; [done|by intros [? _]].
Qed.

(** [Validate] accepts a metadata envelope exactly when the pipeline can
    publish it: there is a title or a description, the privacy is absent or
    one of the three YouTube values, every identifier is positive, the folder
    is not blank, the language matches the tag pattern, the timezone is a
    known zone other than [Local], and the tags are at most 50 distinct
    non-blank strings of at most 100 bytes after trimming. *)
Theorem velox_metadata_Validate_iff (zones : string → bool) (m : VeloxDeliveryMetadata) :
  Validate zones (Some m) = None ↔
  (TrimSpace (Title m) ≠ "" ∨ TrimSpace (Description m) ≠ "") ∧
  PrivacyStatus m ∈ [""; "private"; "public"; "unlisted"] ∧
  Forall (λ i, 0 < i)%Z (TargetAccountIDs m) ∧
  (∀ i, DriveAccountID m = Some i → 0 < i)%Z ∧
  (∀ f, FolderID m = Some f → TrimSpace f ≠ "") ∧
  (∀ l, Language m = Some l → TrimSpace l ≠ "" ∧
     matches veloxLanguageRegex (String.list_ascii_of_string l)) ∧
  (∀ z, Timezone m = Some z → TrimSpace z ≠ "" ∧ zones z = true ∧ z ≠ "Local") ∧
  length (Tags m) ≤ 50 ∧
  Forall (λ t, TrimSpace t ≠ "" ∧ String.length (TrimSpace t) ≤ 100) (Tags m) ∧
  NoDup (TrimSpace <$> Tags m).
Proof.
  unfold Validate.
  rewrite !then_check_None, !fail_if_None, !fmap_None, validateVeloxTags_None.
  assert (Hids : match List.filter (λ i, i <=? 0)%Z (TargetAccountIDs m) with
      | id :: _ => Some (errors_new ("metadata.target_account_ids must contain positive IDs, got "
                     +:+ itoa id))
      | [] => None end = None ↔ Forall (λ i, 0 < i)%Z (TargetAccountIDs m)) by apply first_bad_None.
  rewrite Hids, !on_some_None. setoid_rewrite fail_if_None.
  setoid_rewrite validateVeloxLanguage_None. setoid_rewrite validateVeloxTimezone_None.
  setoid_rewrite Z.leb_gt. setoid_rewrite bool_decide_eq_false.
  rewrite !andb_false_iff, !negb_false_iff, !bool_decide_eq_false, !bool_decide_eq_true.
  rewrite !(elem_of_cons _ (PrivacyStatus m)). tauto.
Qed.
