(* ===== verification/DeliveryState.v ===== *)
(** * The DeliverySet children: 21-state pipeline, privacy floor, roll-up

    [src/internal/deliveries/state.go] and
    [src/internal/deliveries/group_expand_status.go]. *)

From S2P Require Import Prelude Graph.
From Stdlib Require Import Lia.

(* Source: internal/deliveries/state.go *)

(** ** States *)
Definition DeliveryStateDeliveryQueued : string := "delivery_queued". (* 95 *)
Definition DeliveryStateTargetValidating : string := "target_validating". (* 96 *)
Definition DeliveryStateTargetValidated : string := "target_validated". (* 97 *)
Definition DeliveryStateMediaDownloading : string := "media_downloading". (* 98 *)
Definition DeliveryStateMediaVerified : string := "media_verified". (* 99 *)
Definition DeliveryStatePrivateUploadQueued : string := "private_upload_queued". (* 100 *)
Definition DeliveryStatePrivateUploading : string := "private_uploading". (* 101 *)
Definition DeliveryStatePrivateUploaded : string := "private_uploaded". (* 102 *)
Definition DeliveryStateThumbnailPending : string := "thumbnail_pending". (* 103 *)
Definition DeliveryStateThumbnailUploading : string := "thumbnail_uploading". (* 104 *)
Definition DeliveryStateThumbnailApplied : string := "thumbnail_applied". (* 105 *)
Definition DeliveryStateReadyToPublish : string := "ready_to_publish". (* 106 *)
Definition DeliveryStatePublishing : string := "publishing". (* 107 *)
Definition DeliveryStatePublished : string := "published". (* 108 *)
Definition DeliveryStateBlockedTarget : string := "blocked_target". (* 113 *)
Definition DeliveryStateBlockedAuth : string := "blocked_auth". (* 114 *)
Definition DeliveryStateMediaInvalid : string := "media_invalid". (* 115 *)
Definition DeliveryStatePrivateUploadFailed : string := "private_upload_failed". (* 116 *)
Definition DeliveryStateThumbnailFailed : string := "thumbnail_failed". (* 117 *)
Definition DeliveryStatePublishFailed : string := "publish_failed". (* 118 *)
Definition DeliveryStateCancelled : string := "cancelled". (* 119 *)

(* 462-488 AllDeliveryStates *)
Definition AllDeliveryStates : list string :=
  [DeliveryStateDeliveryQueued; DeliveryStateTargetValidating;
   DeliveryStateTargetValidated; DeliveryStateMediaDownloading;
   DeliveryStateMediaVerified; DeliveryStatePrivateUploadQueued;
   DeliveryStatePrivateUploading; DeliveryStatePrivateUploaded;
   DeliveryStateThumbnailPending; DeliveryStateThumbnailUploading;
   DeliveryStateThumbnailApplied; DeliveryStateReadyToPublish; DeliveryStatePublishing;
   DeliveryStatePublished; DeliveryStateBlockedTarget; DeliveryStateBlockedAuth;
   DeliveryStateMediaInvalid; DeliveryStatePrivateUploadFailed;
   DeliveryStateThumbnailFailed; DeliveryStatePublishFailed; DeliveryStateCancelled].

(** [json.Unmarshal(data, &raw)] of the standard library gives the decoded
    string or its error. *)
(* 70-88 DeliveryState.UnmarshalJSON *)
Definition UnmarshalJSON (decoded : err + string) : err + string :=
  match decoded with
  | inl e => inl (wrap "DeliveryState unmarshal: expected JSON string, got" e)
  | inr raw =>
      if existsb (λ allowed, bool_decide (raw = allowed)) AllDeliveryStates then inr raw
      else inl (errors_new ("DeliveryState unmarshal: " +:+ quote raw +:+
                            " is not one of the 21 canonical states"))
  end.

(* 131-143 DeliveryState.IsPrivateFloorReached *)
Definition IsPrivateFloorReached (s : string) : bool :=
  bool_decide (s ∈
    [DeliveryStatePrivateUploaded; DeliveryStateThumbnailPending;
     DeliveryStateThumbnailUploading; DeliveryStateThumbnailApplied;
     DeliveryStateReadyToPublish; DeliveryStatePublishing; DeliveryStatePublished]).

(* 150-163 DeliveryState.IsTerminal *)
Definition IsTerminal (s : string) : bool :=
  bool_decide (s ∈
    [DeliveryStatePublished; DeliveryStateBlockedTarget; DeliveryStateBlockedAuth;
     DeliveryStateMediaInvalid; DeliveryStatePrivateUploadFailed;
     DeliveryStateThumbnailFailed; DeliveryStatePublishFailed; DeliveryStateCancelled]).

(* 166-178 DeliveryState.IsErrorExit *)
Definition IsErrorExit (s : string) : bool :=
  bool_decide (s ∈
    [DeliveryStateBlockedTarget; DeliveryStateBlockedAuth; DeliveryStateMediaInvalid;
     DeliveryStatePrivateUploadFailed; DeliveryStateThumbnailFailed;
     DeliveryStatePublishFailed; DeliveryStateCancelled]).

(* 194-210 DeliveryState.IsRetryable *)
Definition IsRetryable (s : string) : bool :=
  bool_decide (s ∈
    [DeliveryStateDeliveryQueued; DeliveryStateTargetValidating;
     DeliveryStateTargetValidated; DeliveryStateMediaDownloading;
     DeliveryStateMediaVerified; DeliveryStatePrivateUploadQueued;
     DeliveryStatePrivateUploading; DeliveryStateThumbnailPending;
     DeliveryStateThumbnailUploading; DeliveryStateReadyToPublish;
     DeliveryStatePublishing]).

(* 225-307 transitionMap *)
Definition transitionMap : table :=
  [(DeliveryStateDeliveryQueued,
      [DeliveryStateTargetValidating; DeliveryStateBlockedTarget;
       DeliveryStateCancelled]);
   (DeliveryStateTargetValidating,
      [DeliveryStateTargetValidated; DeliveryStateBlockedTarget; DeliveryStateCancelled]);
   (DeliveryStateTargetValidated,
      [DeliveryStateMediaDownloading; DeliveryStateBlockedTarget;
       DeliveryStateBlockedAuth; DeliveryStateCancelled]);
   (DeliveryStateMediaDownloading,
      [DeliveryStateMediaVerified; DeliveryStateMediaInvalid; DeliveryStateBlockedAuth;
       DeliveryStateCancelled]);
   (DeliveryStateMediaVerified,
      [DeliveryStatePrivateUploadQueued; DeliveryStateMediaInvalid;
       DeliveryStateBlockedAuth; DeliveryStateCancelled]);
   (DeliveryStatePrivateUploadQueued,
      [DeliveryStatePrivateUploading; DeliveryStatePrivateUploadFailed;
       DeliveryStateCancelled]);
   (DeliveryStatePrivateUploading,
      [DeliveryStatePrivateUploaded; DeliveryStatePrivateUploadFailed;
       DeliveryStateCancelled]);
   (DeliveryStatePrivateUploaded,
      [DeliveryStateThumbnailPending; DeliveryStateThumbnailFailed]);
   (DeliveryStateThumbnailPending,
      [DeliveryStateThumbnailUploading; DeliveryStateThumbnailFailed]);
   (DeliveryStateThumbnailUploading,
      [DeliveryStateThumbnailApplied; DeliveryStateThumbnailFailed]);
   (DeliveryStateThumbnailApplied,
      [DeliveryStateReadyToPublish; DeliveryStatePublishFailed]);
   (DeliveryStateReadyToPublish,
      [DeliveryStatePublishing; DeliveryStatePublishFailed]);
   (DeliveryStatePublishing,
      [DeliveryStatePublished; DeliveryStatePublishFailed]);
   (DeliveryStatePublished, []);
   (DeliveryStateBlockedTarget, []);
   (DeliveryStateBlockedAuth, []);
   (DeliveryStateMediaInvalid, []);
   (DeliveryStatePrivateUploadFailed, []);
   (DeliveryStateThumbnailFailed, []);
   (DeliveryStatePublishFailed, []);
   (DeliveryStateCancelled, [])].

(* 313-322 DeliveryState.CanTransitionTo *)
Definition CanTransitionTo (s target : string) : bool :=
  if bool_decide (target = "") then false
  else match table_lookup transitionMap s with
       | None => false
       | Some succ => bool_decide (target ∈ succ)
       end.

(* 333-338 DeliveryState.PrivacyFloor *)
Definition PrivacyFloor (s : string) : string :=
  if IsPrivateFloorReached s then "private" else "".

(* 350-361 DeliveryState.EnforcePrivacyInvariant *)
Definition EnforcePrivacyInvariant (s finalPrivacy : string) : option err :=
  if negb (IsPrivateFloorReached s) then None
  else if EqualFold finalPrivacy "private" then None
  else Some (errors_new ("privacy invariant violated: state=" +:+ s +:+
    " has crossed private-uploaded boundary; final_privacy=" +:+ quote finalPrivacy +:+
    " refused, YouTube-side privacy must remain " +:+ quote "private" +:+
    " until operator-side public transition")).

(* 378-402 happyPathSuccessor *)
Definition happyPathSuccessor : list (string * string) :=
  [(DeliveryStateDeliveryQueued, DeliveryStateTargetValidating);
   (DeliveryStateTargetValidating, DeliveryStateTargetValidated);
   (DeliveryStateTargetValidated, DeliveryStateMediaDownloading);
   (DeliveryStateMediaDownloading, DeliveryStateMediaVerified);
   (DeliveryStateMediaVerified, DeliveryStatePrivateUploadQueued);
   (DeliveryStatePrivateUploadQueued, DeliveryStatePrivateUploading);
   (DeliveryStatePrivateUploading, DeliveryStatePrivateUploaded);
   (DeliveryStatePrivateUploaded, DeliveryStateThumbnailPending);
   (DeliveryStateThumbnailPending, DeliveryStateThumbnailUploading);
   (DeliveryStateThumbnailUploading, DeliveryStateThumbnailApplied);
   (DeliveryStateThumbnailApplied, DeliveryStateReadyToPublish);
   (DeliveryStateReadyToPublish, DeliveryStatePublishing);
   (DeliveryStatePublishing, DeliveryStatePublished);
   (DeliveryStatePublished, "");
   (DeliveryStateBlockedTarget, "");
   (DeliveryStateBlockedAuth, "");
   (DeliveryStateMediaInvalid, "");
   (DeliveryStatePrivateUploadFailed, "");
   (DeliveryStateThumbnailFailed, "");
   (DeliveryStatePublishFailed, "");
   (DeliveryStateCancelled, "")].

(** A missing key reads as the zero value, the empty string. *)
(* 415-417 DeliveryState.Next *)
Definition Next (s : string) : string :=
  default "" (snd <$> List.find (λ kv, bool_decide (kv.1 = s)) happyPathSuccessor).

(* 444-446 sortDeliveryStates *)
Definition sortDeliveryStates (l : list string) : list string := sort_strings l.

(* 424-437 DeliveryState.LegalTransitions *)
Definition LegalTransitions (s : string) : list string :=
  match table_lookup transitionMap s with
  | None | Some [] => []
  | Some succ => sortDeliveryStates succ
  end.

(** ** The DeliverySet roll-up *)
(* Source: internal/deliveries/group_expand_status.go *)
Definition DeliverySetStatusPending : string := "set_pending". (* 31 *)
Definition DeliverySetStatusInProgress : string := "set_in_progress". (* 32 *)
Definition DeliverySetStatusSucceeded : string := "set_succeeded". (* 33 *)
Definition DeliverySetStatusPartial : string := "set_partial". (* 34 *)
Definition DeliverySetStatusFailed : string := "set_failed". (* 35 *)
Definition DeliverySetStatusCancelled : string := "set_cancelled". (* 36 *)

(* 43-52 AllDeliverySetStatuses *)
Definition AllDeliverySetStatuses : list string :=
  [DeliverySetStatusPending; DeliverySetStatusInProgress; DeliverySetStatusSucceeded;
   DeliverySetStatusPartial; DeliverySetStatusFailed; DeliverySetStatusCancelled].

(** The counters of the loop. *)
(* 92-98 AggregateStatus *)
Record Counters := mkCounters {
  published : nat;
  errorExits : nat;
  cancelled : nat;
  inProgress : nat;
  allCancelled : bool
}.

(* 99-139 AggregateStatus *)
Definition count_child (c : Counters) (s : string) : Counters :=
  let 'mkCounters p x k i a := c in
  if bool_decide (s = "") then mkCounters p x k (S i) false
  else if bool_decide (s = DeliveryStateCancelled) then mkCounters p x (S k) i a
  else if bool_decide (s = DeliveryStatePublished) then mkCounters (S p) x k i false
  else if IsTerminal s then mkCounters p (S x) k i false
  else mkCounters p x k (S i) false.

(* 87-167 AggregateStatus *)
Definition AggregateStatus (childStates : list string) : string :=
  match childStates with
  | [] => DeliverySetStatusPending
  | _ =>
      let c := foldl count_child (mkCounters 0 0 0 0 true) childStates in
      if allCancelled c then DeliverySetStatusCancelled
      else if bool_decide (0 < inProgress c) then DeliverySetStatusInProgress
      else if bool_decide (Z.of_nat (published c) =
                 Z.of_nat (length childStates) - Z.of_nat (cancelled c))%Z
           then DeliverySetStatusSucceeded
      else if bool_decide (0 < published c) && bool_decide (0 < errorExits c)
           then DeliverySetStatusPartial
      else if bool_decide (0 < errorExits c) then DeliverySetStatusFailed
      else DeliverySetStatusPending
  end.

(* 172-181 DeliverySetStatus.IsTerminal *)
Definition SetIsTerminal (s : string) : bool :=
  bool_decide (s ∈ [DeliverySetStatusSucceeded; DeliverySetStatusPartial;
    DeliverySetStatusFailed; DeliverySetStatusCancelled]).

(** ** The pipeline as a graph *)
#[export] Instance transitionMap_wf : WellFormedTable transitionMap AllDeliveryStates.
Proof. solve_wf. Qed.

Lemma delivery_CanTransitionTo_step s t : CanTransitionTo s t = can_step transitionMap s t.
Proof.
  rewrite <- (guarded_lookup transitionMap AllDeliveryStates).
  unfold CanTransitionTo. destruct (bool_decide_reflect (s = "")) as [->|]; [|done].
  by destruct (bool_decide _).
Qed.

Lemma delivery_LegalTransitions_legal s : LegalTransitions s = legal transitionMap s.
Proof. apply legal_match. Qed.

(** The position in the pipeline; every edge increases it. *)
Definition pipeline_rank (s : string) : nat :=
  if IsErrorExit s then 13
  else default 0 (fst <$> list_find (λ t, t = s) AllDeliveryStates).

Lemma rank_le s : pipeline_rank s ≤ 20.
Proof.
  unfold pipeline_rank. destruct (IsErrorExit s); [lia|].
  destruct (list_find _ _) as [[i x]|] eqn:E; simpl; [|lia].
  apply list_find_Some in E as (E & _). apply lookup_lt_Some in E. simpl in E. lia.
Qed.

(** ** Counting children *)
Definition is_error (s : string) : bool :=
  IsErrorExit s && negb (bool_decide (s = DeliveryStateCancelled)).
Definition is_published (s : string) : bool := bool_decide (s = DeliveryStatePublished).
Definition is_cancelled (s : string) : bool := bool_decide (s = DeliveryStateCancelled).
Definition is_open (s : string) : bool := negb (IsTerminal s).
Definition count (P : string → bool) (l : list string) : nat := length (List.filter P l).

Lemma count_cons P s l : count P (s :: l) = Nat.b2n (P s) + count P l.
Proof. unfold count. simpl. by destruct (P s). Qed.
Lemma count_pos P l : 0 < count P l ↔ Exists (λ s, P s = true) l.
Proof.
  induction l as [|s l IH]; [unfold count; simpl; rewrite Exists_nil; lia|].
  rewrite count_cons, Exists_cons, <- IH. destruct (P s); simpl; intuition lia.
Qed.
Lemma count_perm P l l' : l ≡ₚ l' → count P l = count P l'.
Proof. induction 1; rewrite ?count_cons; lia. Qed.

(** Each child falls in exactly one class, and the loop counts the classes. *)
Lemma count_child_class p x k i a s :
  count_child (mkCounters p x k i a) s =
  mkCounters (p + Nat.b2n (is_published s)) (x + Nat.b2n (is_error s))
             (k + Nat.b2n (is_cancelled s)) (i + Nat.b2n (is_open s))
             (a && is_cancelled s).
Proof.
  destruct (decide (s ∈ AllDeliveryStates)) as [Hs|Hs].
  - unfold AllDeliveryStates in Hs.
    enum_cases Hs; cbv -[Nat.add andb];
      rewrite ?Nat.add_0_r, ?Nat.add_1_r, ?andb_true_r, ?andb_false_r; done.
  - assert (Ht : IsTerminal s = false).
    { apply bool_decide_eq_false. intros H. enum_cases H; apply Hs; decide_closed. }
    assert (Hx : IsErrorExit s = false).
    { apply bool_decide_eq_false. intros H. enum_cases H; apply Hs; decide_closed. }
    unfold count_child, is_published, is_error, is_cancelled, is_open. rewrite Ht, Hx.
    rewrite !(bool_decide_eq_false_2 (s = DeliveryStateCancelled)),
      !(bool_decide_eq_false_2 (s = DeliveryStatePublished))
      by (intros ->; apply Hs; decide_closed).
    simpl. rewrite !Nat.add_0_r, Nat.add_1_r, andb_false_r. by destruct (bool_decide _).
Qed.

Lemma count_children l : ∀ p x k i a,
  foldl count_child (mkCounters p x k i a) l =
  mkCounters (p + count is_published l) (x + count is_error l)
             (k + count is_cancelled l) (i + count is_open l)
             (a && forallb is_cancelled l).
Proof.
  induction l as [|s l IH]; intros; cbn [foldl forallb].
  - unfold count. simpl. by rewrite !Nat.add_0_r, andb_true_r.
  - rewrite count_child_class, IH, !count_cons. f_equal; try lia. by rewrite andb_assoc.
Qed.

Lemma class_total s :
  Nat.b2n (is_published s) + Nat.b2n (is_error s) + Nat.b2n (is_cancelled s) +
  Nat.b2n (is_open s) = 1.
Proof.
  pose proof (count_child_class 0 0 0 0 true s) as H. unfold count_child in H.
  repeat case_bool_decide; destruct (IsTerminal s); injection H as Hp Hx Hk Hi _; lia.
Qed.

Lemma count_total l :
  count is_published l + count is_error l + count is_cancelled l + count is_open l
  = length l.
Proof.
  induction l as [|s l IH]; [done|]. rewrite !count_cons.
  pose proof (class_total s). simpl. lia.
Qed.

(** The roll-up as its documentation orders the rules. *)
Definition set_status (l : list string) : string :=
  if bool_decide (l = []) then DeliverySetStatusPending
  else if forallb is_cancelled l then DeliverySetStatusCancelled
  else if existsb is_open l then DeliverySetStatusInProgress
  else if negb (existsb is_error l) then DeliverySetStatusSucceeded
  else if existsb is_published l then DeliverySetStatusPartial
  else DeliverySetStatusFailed.

Lemma existsb_count (P : string → bool) l : existsb P l = bool_decide (0 < count P l).
Proof.
  induction l as [|s l IH]; [done|]. rewrite count_cons. simpl. rewrite IH.
  destruct (P s); [|done]. symmetry. apply bool_decide_eq_true_2. simpl. lia.
Qed.

Lemma AggregateStatus_set_status l : AggregateStatus l = set_status l.
Proof.
  destruct l as [|s l]; [done|]. unfold AggregateStatus, set_status.
  generalize (@nil_cons _ s l). generalize (s :: l). intros cs Hne. rewrite count_children. simpl allCancelled. cbn [inProgress published
    errorExits cancelled]. rewrite !existsb_count, !Nat.add_0_l.
  rewrite (bool_decide_eq_false_2 (cs = [])) by congruence.
  destruct (forallb is_cancelled cs) eqn:Hc; [done|].
  pose proof (count_total cs) as Ht.
  repeat case_bool_decide; simpl; try done; lia.
Qed.

Lemma existsb_perm (P : string → bool) l l' : l ≡ₚ l' → existsb P l = existsb P l'.
Proof. intros H. by rewrite !existsb_count, (count_perm P _ _ H). Qed.
Lemma forallb_perm (P : string → bool) (l l' : list string) : l ≡ₚ l' → forallb P l = forallb P l'.
Proof. induction 1; simpl; repeat match goal with |- context [P ?x] => destruct (P x) end; simpl; congruence. Qed.

Lemma terminal_absorbing s t : IsTerminal s = true → reach transitionMap s t → t = s.
Proof.
  intros Hs Hr. destruct Hr as [|s u t Hsu]; [done|].
  apply (step_forall transitionMap (λ s _, negb (IsTerminal s))) in Hsu;
    [by rewrite Hs in Hsu|vm_compute; exact eq_refl].
Qed.

(** ** Properties *)

(** The delivery pipeline cannot loop.  Every run of legal transitions has
    at most 13 steps, whatever state it starts in; the happy path of [Next]
    is such a run of exactly 13 steps from [delivery_queued] to [published],
    each of them legal; and a state has no legal successor exactly when
    [IsTerminal] holds or it is not one of the 21 states. *)
Theorem pipeline_terminates (s t : string) (n : nat) :
  (nsteps (step transitionMap) n s t → n ≤ 13) ∧
  (Next s ≠ "" → CanTransitionTo s (Next s) = true ∧ IsErrorExit (Next s) = false) ∧
  Nat.iter 13 Next DeliveryStateDeliveryQueued = DeliveryStatePublished ∧
  (LegalTransitions s = [] ↔ IsTerminal s = true ∨ s ∉ AllDeliveryStates).
Proof.
  split; [|split; [|split; [decide_closed|]]].
  - intros Hn. apply (rank_bound transitionMap pipeline_rank) in Hn;
      [|vm_compute; exact eq_refl].
    destruct (decide (t ∈ AllDeliveryStates)) as [Ht|Ht].
    + assert (pipeline_rank t ≤ 13); [|lia].
      unfold AllDeliveryStates in Ht. enum_cases Ht; vm_compute; lia.
    + assert (pipeline_rank t = 0); [|lia]. unfold pipeline_rank.
      unfold IsErrorExit. rewrite bool_decide_eq_false_2
        by (intros H; enum_cases H; apply Ht; decide_closed).
      destruct (list_find _ _) as [[i x]|] eqn:E; [|done].
      apply list_find_Some in E as (E & -> & _). destruct Ht. by eapply list_elem_of_lookup_2.
  - destruct (decide (s ∈ AllDeliveryStates)) as [Hs|Hs].
    + unfold AllDeliveryStates in Hs. enum_cases Hs; decide_closed.
    + assert (Hf : Next s = ""); [|done]. unfold Next.
      destruct (List.find _ _) as [[k v]|] eqn:E; [|done].
      apply find_some in E as [E Hk%bool_decide_eq_true]. simpl in Hk. subst k.
      apply list_elem_of_In in E. destruct Hs.
      apply (list_elem_of_fmap_2 fst) in E. simpl fst in E.
      enum_cases E; decide_closed.
  - rewrite delivery_LegalTransitions_legal. destruct (decide (s ∈ AllDeliveryStates)) as [Hs|Hs].
    + unfold AllDeliveryStates in Hs. enum_cases Hs; decide_closed.
    + split; [by right|intros _]. destruct (legal transitionMap s) as [|t' l] eqn:E; [done|].
      destruct Hs. apply (step_source transitionMap _ s t').
      apply (legal_spec transitionMap AllDeliveryStates). rewrite E. by left.
Qed.

(** What the privacy floor guarantees, and where it stops.  Once
    [private_uploaded] is reached the floor holds at every later state, it
    refuses every final privacy other than "private" there, and
    [cancelled] is out of reach; except that the two error exits
    [thumbnail_failed] and [publish_failed], also reachable only from behind
    the boundary, have no floor at all. *)
Theorem privacy_floor (s : string) :
  (reach transitionMap DeliveryStatePrivateUploaded s →
     IsPrivateFloorReached s = true ∨
     s = DeliveryStateThumbnailFailed ∨ s = DeliveryStatePublishFailed) ∧
  (IsPrivateFloorReached s = true →
     reach transitionMap DeliveryStatePrivateUploaded s ∧
     ¬ reach transitionMap s DeliveryStateCancelled ∧ PrivacyFloor s = "private") ∧
  (∀ p, EnforcePrivacyInvariant s p = None ↔
     IsPrivateFloorReached s = false ∨ ToLower p = "private") ∧
  reach transitionMap DeliveryStatePrivateUploaded DeliveryStatePublishFailed ∧
  reach transitionMap DeliveryStatePrivateUploaded DeliveryStateThumbnailFailed ∧
  EnforcePrivacyInvariant DeliveryStatePublishFailed "public" = None ∧
  EnforcePrivacyInvariant DeliveryStateThumbnailFailed "public" = None.
Proof.
  split; [|split; [|split; [|split; [solve_reach|split; [solve_reach|split; decide_closed]]]]].
  - intros Hr. apply (reachable_complete transitionMap) in Hr; [|decide_closed..].
    assert (Hs : s ∈ AllDeliveryStates).
    { apply (reach_states transitionMap _ DeliveryStatePrivateUploaded); [decide_closed|].
      by apply reachable_sound. }
    revert Hr. unfold AllDeliveryStates in Hs. enum_cases Hs; decide_closed.
  - intros Hf. unfold PrivacyFloor. rewrite Hf. apply bool_decide_eq_true in Hf.
    enum_cases Hf; (split; [solve_reach|split; [|done]]);
      rewrite (reachable_complete transitionMap) by decide_closed; decide_closed.
  - intros p. unfold EnforcePrivacyInvariant, EqualFold.
    destruct (IsPrivateFloorReached s); simpl; [|naive_solver].
    case_bool_decide as Hp; simpl in Hp; naive_solver.
Qed.

(** [AggregateStatus] rolls the children up by the documented rules, in
    their order of priority: no child gives [set_pending]; only cancelled
    children [set_cancelled]; otherwise an open child [set_in_progress];
    otherwise [set_succeeded] without an error, [set_partial] with an error
    and a published child, [set_failed] with errors only.  The degenerate
    default is never reached, the order of the children is irrelevant, and
    the set is terminal exactly when all its children are, after which no run
    of the children can change it. *)
Theorem AggregateStatus_rules (l : list string) :
  AggregateStatus l = set_status l ∧
  (∀ l', l ≡ₚ l' → AggregateStatus l' = AggregateStatus l) ∧
  (SetIsTerminal (AggregateStatus l) = true ↔ l ≠ [] ∧ Forall (λ s, IsTerminal s = true) l) ∧
  (SetIsTerminal (AggregateStatus l) = true →
     ∀ l', Forall2 (reach transitionMap) l l' → AggregateStatus l' = AggregateStatus l).
Proof.
  assert (Hterm : SetIsTerminal (AggregateStatus l) = true ↔
    l ≠ [] ∧ Forall (λ s, IsTerminal s = true) l).
  { rewrite AggregateStatus_set_status. unfold set_status.
    case_bool_decide as Hl; [by vm_compute; naive_solver|].
    assert (Ho : existsb is_open l = false ↔ Forall (λ s, IsTerminal s = true) l).
    { rewrite <- not_true_iff_false, existsb_count, bool_decide_eq_true, count_pos.
      rewrite Forall_forall, Exists_exists.
      unfold is_open. setoid_rewrite negb_true_iff. split.
      - intros H x Hx. destruct (IsTerminal x) eqn:?; [done|]. naive_solver.
      - intros H (x & Hx & E). rewrite H in E; done. }
    destruct (forallb is_cancelled l) eqn:Hc.
    - split; [|done]. intros _. split; [done|]. rewrite forallb_forall in Hc.
      apply Forall_forall. intros x Hx%list_elem_of_In.
      by apply Hc, bool_decide_eq_true in Hx as ->.
    - rewrite <- Ho. destruct (existsb is_open l); [split; [done|naive_solver]|].
      destruct (existsb is_error l), (existsb is_published l); naive_solver. }
  split; [apply AggregateStatus_set_status|]. split; [|split; [done|]].
  - intros l' Hp. rewrite !AggregateStatus_set_status. unfold set_status.
    rewrite (existsb_perm is_open _ _ Hp), (existsb_perm is_error _ _ Hp),
      (existsb_perm is_published _ _ Hp), (forallb_perm is_cancelled _ _ Hp).
    destruct l, l'; try done; [by apply Permutation_nil_cons in Hp
      |by symmetry in Hp; apply Permutation_nil_cons in Hp].
  - intros [_ Ht]%Hterm l' Hl'. f_equal. clear Hterm. revert Ht.
    induction Hl' as [|s t l l' Hst _ IH]; [done|]. intros [Hs Ht]%Forall_cons.
    f_equal; [by eapply terminal_absorbing|auto].
Qed.
