(* ===== verification/YouTubeDelivery.v ===== *)
(** * The state of one video on one channel

    [src/internal/models/youtube_delivery_state.go]: the worker's transition
    table and the operator's, kept apart. *)

From S2P Require Import Prelude Graph.
From Stdlib Require Import Lia.

(* Source: internal/models/youtube_delivery_state.go *)

(** ** States *)
Definition YouTubeDeliveryPreflight : string := "preflight". (* 44 *)
Definition YouTubeDeliveryReadyToUpload : string := "ready_to_upload". (* 47 *)
Definition YouTubeDeliveryUploading : string := "uploading". (* 49 *)
Definition YouTubeDeliveryUploaded : string := "youtube_uploaded". (* 52 *)
Definition YouTubeDeliveryProcessing : string := "processing". (* 54 *)
Definition YouTubeDeliveryThumbnailPending : string := "thumbnail_pending". (* 57 *)
Definition YouTubeDeliveryThumbnailReady : string := "thumbnail_ready". (* 59 *)
Definition YouTubeDeliveryScheduled : string := "scheduled". (* 62 *)
Definition YouTubeDeliveryPublished : string := "published". (* 65 *)
Definition YouTubeDeliveryVerified : string := "verified". (* 68 *)
Definition YouTubeDeliveryRetryWait : string := "retry_wait". (* 72 *)
Definition YouTubeDeliveryQuotaWait : string := "quota_wait". (* 75 *)
Definition YouTubeDeliveryBlockedAuth : string := "blocked_auth". (* 79 *)
Definition YouTubeDeliveryCopyrightReview : string := "copyright_review". (* 82 *)
Definition YouTubeDeliveryProcessingStuck : string := "processing_stuck". (* 86 *)
Definition YouTubeDeliveryFailed : string := "failed". (* 89 *)
Definition YouTubeDeliveryDeadLetter : string := "dead_letter". (* 93 *)

(* 40-94 YouTubeDeliveryState constants *)
Definition YouTubeDeliveryStates : list string :=
  [YouTubeDeliveryPreflight; YouTubeDeliveryReadyToUpload; YouTubeDeliveryUploading;
   YouTubeDeliveryUploaded; YouTubeDeliveryProcessing; YouTubeDeliveryThumbnailPending;
   YouTubeDeliveryThumbnailReady; YouTubeDeliveryScheduled; YouTubeDeliveryPublished;
   YouTubeDeliveryVerified; YouTubeDeliveryRetryWait; YouTubeDeliveryQuotaWait;
   YouTubeDeliveryBlockedAuth; YouTubeDeliveryCopyrightReview;
   YouTubeDeliveryProcessingStuck; YouTubeDeliveryFailed; YouTubeDeliveryDeadLetter].

(* 98-106 YouTubeDeliveryState.IsTerminal *)
Definition IsTerminal (s : string) : bool :=
  bool_decide (s ∈ [YouTubeDeliveryVerified; YouTubeDeliveryFailed; YouTubeDeliveryDeadLetter]).

(* 113-123 YouTubeDeliveryState.IsSideState *)
Definition IsSideState (s : string) : bool :=
  bool_decide (s ∈ [YouTubeDeliveryRetryWait; YouTubeDeliveryQuotaWait;
    YouTubeDeliveryBlockedAuth; YouTubeDeliveryCopyrightReview;
    YouTubeDeliveryProcessingStuck]).

(* 145-220 youtubeDeliveryTransitionMap *)
Definition youtubeDeliveryTransitionMap : table :=
  [(YouTubeDeliveryPreflight,
      [YouTubeDeliveryReadyToUpload; YouTubeDeliveryQuotaWait;
       YouTubeDeliveryBlockedAuth; YouTubeDeliveryFailed]);
   (YouTubeDeliveryReadyToUpload,
      [YouTubeDeliveryUploading; YouTubeDeliveryQuotaWait; YouTubeDeliveryBlockedAuth]);
   (YouTubeDeliveryUploading,
      [YouTubeDeliveryUploaded; YouTubeDeliveryRetryWait; YouTubeDeliveryBlockedAuth;
       YouTubeDeliveryDeadLetter]);
   (YouTubeDeliveryUploaded,
      [YouTubeDeliveryProcessing; YouTubeDeliveryCopyrightReview]);
   (YouTubeDeliveryProcessing,
      [YouTubeDeliveryThumbnailPending; YouTubeDeliveryScheduled;
       YouTubeDeliveryProcessingStuck; YouTubeDeliveryCopyrightReview]);
   (YouTubeDeliveryThumbnailPending,
      [YouTubeDeliveryThumbnailReady; YouTubeDeliveryRetryWait]);
   (YouTubeDeliveryThumbnailReady,
      [YouTubeDeliveryScheduled]);
   (YouTubeDeliveryScheduled,
      [YouTubeDeliveryPublished]);
   (YouTubeDeliveryPublished,
      [YouTubeDeliveryVerified]);
   (YouTubeDeliveryVerified, []);
   (YouTubeDeliveryRetryWait,
      [YouTubeDeliveryReadyToUpload; YouTubeDeliveryUploading;
       YouTubeDeliveryThumbnailPending; YouTubeDeliveryDeadLetter]);
   (YouTubeDeliveryQuotaWait,
      [YouTubeDeliveryReadyToUpload; YouTubeDeliveryThumbnailPending]);
   (YouTubeDeliveryBlockedAuth,
      [YouTubeDeliveryPreflight; YouTubeDeliveryReadyToUpload; YouTubeDeliveryUploading]);
   (YouTubeDeliveryCopyrightReview,
      [YouTubeDeliveryProcessing; YouTubeDeliveryScheduled]);
   (YouTubeDeliveryProcessingStuck,
      [YouTubeDeliveryThumbnailPending; YouTubeDeliveryScheduled]);
   (YouTubeDeliveryFailed, []);
   (YouTubeDeliveryDeadLetter, [])].

(* 226-231 youtubeDeliveryOperatorTransitionMap *)
Definition youtubeDeliveryOperatorTransitionMap : table :=
  [(YouTubeDeliveryDeadLetter, [YouTubeDeliveryRetryWait])].

(* 242-251 YouTubeDeliveryState.CanTransitionTo *)
Definition CanTransitionTo (s target : string) : bool :=
  if bool_decide (s = "") || bool_decide (target = "") then false
  else match table_lookup youtubeDeliveryTransitionMap s with
       | None => false
       | Some succ => bool_decide (target ∈ succ)
       end.

(* 258-267 YouTubeDeliveryState.CanOperatorTransitionTo *)
Definition CanOperatorTransitionTo (s target : string) : bool :=
  if bool_decide (s = "") || bool_decide (target = "") then false
  else match table_lookup youtubeDeliveryOperatorTransitionMap s with
       | None => false
       | Some succ => bool_decide (target ∈ succ)
       end.

(* 273-286 YouTubeDeliveryState.LegalTransitions *)
Definition LegalTransitions (s : string) : list string :=
  match table_lookup youtubeDeliveryTransitionMap s with
  | None | Some [] => []
  | Some succ => sort_strings succ
  end.

#[export] Instance youtube_wf :
  WellFormedTable youtubeDeliveryTransitionMap YouTubeDeliveryStates.
Proof. solve_wf. Qed.
Lemma youtube_CanTransitionTo_step s t :
  CanTransitionTo s t = can_step youtubeDeliveryTransitionMap s t.
Proof. apply (guarded_lookup _ YouTubeDeliveryStates). Qed.

Lemma youtube_LegalTransitions_legal s : LegalTransitions s = legal youtubeDeliveryTransitionMap s.
Proof. apply legal_match. Qed.

Lemma CanOperatorTransitionTo_iff s t :
  CanOperatorTransitionTo s t = true ↔
  s = YouTubeDeliveryDeadLetter ∧ t = YouTubeDeliveryRetryWait.
Proof.
  split; [|intros [-> ->]; decide_closed].
  unfold CanOperatorTransitionTo. destruct (_ || _); [done|]. simpl.
  case_bool_decide; [|done]. rewrite bool_decide_eq_true. set_solver.
Qed.

(** ** Properties *)

(** The worker's table protects the video.  A delivery that reaches
    [verified] was [published], and before that [scheduled]; the terminal
    states are exactly those the worker can never leave, and from every other
    state [verified] is still reachable; the operator can make exactly one
    transition, out of [dead_letter] into [retry_wait], and the worker can
    never make it.  The table alone does not force an upload: [preflight]
    leads to [verified] through [quota_wait] without [uploading], which is
    left to the recorded resume state. *)
Theorem youtube_delivery_lifecycle (s t : string) :
  (s ∈ YouTubeDeliveryStates →
   (reach youtubeDeliveryTransitionMap s YouTubeDeliveryVerified →
      s ≠ YouTubeDeliveryVerified →
      reach youtubeDeliveryTransitionMap s YouTubeDeliveryPublished) ∧
   (reach youtubeDeliveryTransitionMap s YouTubeDeliveryPublished →
      s ≠ YouTubeDeliveryPublished →
      reach youtubeDeliveryTransitionMap s YouTubeDeliveryScheduled) ∧
   (IsTerminal s = true ↔ LegalTransitions s = []) ∧
   (IsTerminal s = false → reach youtubeDeliveryTransitionMap s YouTubeDeliveryVerified)) ∧
  (CanOperatorTransitionTo s t = true ↔
     s = YouTubeDeliveryDeadLetter ∧ t = YouTubeDeliveryRetryWait) ∧
  (CanOperatorTransitionTo s t = true → CanTransitionTo s t = false) ∧
  reach (cut youtubeDeliveryTransitionMap YouTubeDeliveryUploading)
        YouTubeDeliveryPreflight YouTubeDeliveryVerified.
Proof.
  split; [|split; [apply CanOperatorTransitionTo_iff|split; [|solve_reach]]].
  - intros Hin. split; [|split; [|split]].
    + intros Hr Hne. by solve_through YouTubeDeliveryStates.
    + intros Hr Hne. by solve_through YouTubeDeliveryStates.
    + rewrite youtube_LegalTransitions_legal. unfold YouTubeDeliveryStates in Hin.
      enum_cases Hin; decide_closed.
    + apply (reach_check_sound _ YouTubeDeliveryStates IsTerminal);
        [vm_compute; exact eq_refl|done].
  - intros [-> ->]%CanOperatorTransitionTo_iff. decide_closed.
Qed.

(** Every state the worker can enter from [preflight] is one of the
    17 declared ones, and a side state never dead-ends: it is not terminal
    and each of its legal exits except [dead_letter] is a state of the main
    flow, from which [LegalTransitions] continues; [LegalTransitions] lists
    exactly what [CanTransitionTo] allows, sorted. *)
Theorem youtube_side_states_resume (s t : string) :
  (reach youtubeDeliveryTransitionMap YouTubeDeliveryPreflight t ↔ t ∈ YouTubeDeliveryStates) ∧
  (IsSideState s = true → IsTerminal s = false ∧ LegalTransitions s ≠ [] ∧
     (CanTransitionTo s t = true → t = YouTubeDeliveryDeadLetter ∨
        (IsSideState t = false ∧ IsTerminal t = false))) ∧
  (t ∈ LegalTransitions s ↔ CanTransitionTo s t = true) ∧
  StronglySorted String.le (LegalTransitions s) ∧ NoDup (LegalTransitions s).
Proof.
  rewrite youtube_CanTransitionTo_step, youtube_LegalTransitions_legal.
  destruct (legal_spec youtubeDeliveryTransitionMap YouTubeDeliveryStates s) as (Hl & Hs & Hn).
  split; [|split; [|by rewrite Hl]].
  - split; [apply (reach_states _ YouTubeDeliveryStates); decide_closed|].
    intros Ht. unfold YouTubeDeliveryStates in Ht. enum_cases Ht; solve_reach.
  - intros Hside. split; [|split].
    + apply bool_decide_eq_true in Hside. enum_cases Hside; decide_closed.
    + apply bool_decide_eq_true in Hside. enum_cases Hside; decide_closed.
    + intros Hst. apply (step_forall youtubeDeliveryTransitionMap (λ s t, implb (IsSideState s)
        (bool_decide (t = YouTubeDeliveryDeadLetter) ||
         negb (IsSideState t) && negb (IsTerminal t)))) in Hst; [|vm_compute; exact eq_refl].
      rewrite Hside in Hst. simpl in Hst.
      apply orb_true_iff in Hst as [?%bool_decide_eq_true|[??]%andb_true_iff]; [by left|right].
      by rewrite !negb_true_iff in *.
Qed.
