(* ===== verification/Livestream.v ===== *)
(** * Livestreams: operator intent and observed truth

    [src/internal/models/livestream_state_machine.go]. *)

From S2P Require Import Prelude Graph.
From Stdlib Require Import Lia.

(* Source: internal/models/livestream_state_machine.go *)

(** ** Desired states *)
Definition LivestreamDesiredDraft : string := "draft". (* 16 *)
Definition LivestreamDesiredPrepared : string := "prepared". (* 17 *)
Definition LivestreamDesiredRunning : string := "running". (* 18 *)
Definition LivestreamDesiredStopped : string := "stopped". (* 19 *)
Definition LivestreamDesiredCancelled : string := "cancelled". (* 20 *)

(* 23-32 LivestreamDesiredState.Valid *)
Definition DesiredValid (s : string) : bool :=
  bool_decide (s ∈
    [LivestreamDesiredDraft; LivestreamDesiredPrepared; LivestreamDesiredRunning;
     LivestreamDesiredStopped; LivestreamDesiredCancelled]).

(** ** Actual states *)
Definition LivestreamActualDraft : string := "draft". (* 40 *)
Definition LivestreamActualPreflighting : string := "preflighting". (* 41 *)
Definition LivestreamActualPreparing : string := "preparing". (* 42 *)
Definition LivestreamActualReady : string := "ready". (* 43 *)
Definition LivestreamActualScheduled : string := "scheduled". (* 44 *)
Definition LivestreamActualStarting : string := "starting". (* 45 *)
Definition LivestreamActualWaitingForIngest : string := "waiting_for_ingest". (* 46 *)
Definition LivestreamActualTesting : string := "testing". (* 47 *)
Definition LivestreamActualLive : string := "live". (* 48 *)
Definition LivestreamActualDegraded : string := "degraded". (* 49 *)
Definition LivestreamActualReconnecting : string := "reconnecting". (* 50 *)
Definition LivestreamActualStopping : string := "stopping". (* 51 *)
Definition LivestreamActualCompleted : string := "completed". (* 52 *)
Definition LivestreamActualFailed : string := "failed". (* 53 *)
Definition LivestreamActualCancelled : string := "cancelled". (* 54 *)

(* 57-69 LivestreamActualState.Valid *)
Definition ActualValid (s : string) : bool :=
  bool_decide (s ∈
    [LivestreamActualDraft; LivestreamActualPreflighting; LivestreamActualPreparing;
     LivestreamActualReady; LivestreamActualScheduled; LivestreamActualStarting;
     LivestreamActualWaitingForIngest; LivestreamActualTesting; LivestreamActualLive;
     LivestreamActualDegraded; LivestreamActualReconnecting; LivestreamActualStopping;
     LivestreamActualCompleted; LivestreamActualFailed; LivestreamActualCancelled]).

(* 71-88 desiredTransitions *)
Definition desiredTransitions : table :=
  [(LivestreamDesiredDraft,
      [LivestreamDesiredPrepared; LivestreamDesiredRunning; LivestreamDesiredStopped;
       LivestreamDesiredCancelled]);
   (LivestreamDesiredPrepared,
      [LivestreamDesiredDraft; LivestreamDesiredRunning; LivestreamDesiredStopped;
       LivestreamDesiredCancelled]);
   (LivestreamDesiredRunning,
      [LivestreamDesiredStopped; LivestreamDesiredCancelled]);
   (LivestreamDesiredStopped,
      [LivestreamDesiredRunning; LivestreamDesiredDraft; LivestreamDesiredCancelled]);
   (LivestreamDesiredCancelled, [])].

(* 90-142 actualTransitions *)
Definition actualTransitions : table :=
  [(LivestreamActualDraft,
      [LivestreamActualPreflighting; LivestreamActualPreparing;
       LivestreamActualCancelled; LivestreamActualFailed]);
   (LivestreamActualPreflighting,
      [LivestreamActualPreparing; LivestreamActualFailed; LivestreamActualCancelled]);
   (LivestreamActualPreparing,
      [LivestreamActualReady; LivestreamActualFailed; LivestreamActualCancelled]);
   (LivestreamActualReady,
      [LivestreamActualStarting; LivestreamActualStopping; LivestreamActualFailed;
       LivestreamActualCancelled]);
   (LivestreamActualScheduled,
      [LivestreamActualStarting; LivestreamActualStopping; LivestreamActualCancelled]);
   (LivestreamActualStarting,
      [LivestreamActualWaitingForIngest; LivestreamActualReconnecting;
       LivestreamActualStopping; LivestreamActualFailed]);
   (LivestreamActualWaitingForIngest,
      [LivestreamActualTesting; LivestreamActualReconnecting; LivestreamActualStopping;
       LivestreamActualFailed]);
   (LivestreamActualTesting,
      [LivestreamActualLive; LivestreamActualDegraded; LivestreamActualReconnecting;
       LivestreamActualStopping; LivestreamActualFailed]);
   (LivestreamActualLive,
      [LivestreamActualDegraded; LivestreamActualReconnecting;
       LivestreamActualStopping; LivestreamActualCompleted; LivestreamActualFailed]);
   (LivestreamActualDegraded,
      [LivestreamActualLive; LivestreamActualReconnecting; LivestreamActualStopping;
       LivestreamActualCompleted; LivestreamActualFailed]);
   (LivestreamActualReconnecting,
      [LivestreamActualStarting; LivestreamActualWaitingForIngest;
       LivestreamActualTesting; LivestreamActualLive; LivestreamActualDegraded;
       LivestreamActualStopping; LivestreamActualFailed]);
   (LivestreamActualStopping,
      [LivestreamActualCompleted; LivestreamActualFailed; LivestreamActualCancelled]);
   (LivestreamActualFailed,
      [LivestreamActualPreflighting; LivestreamActualPreparing; LivestreamActualCancelled]);
   (LivestreamActualCompleted, []);
   (LivestreamActualCancelled, [])].

(* 145-151 CanTransitionDesiredState *)
Definition CanTransitionDesiredState (from to : string) : bool :=
  if negb (DesiredValid from) || negb (DesiredValid to) || bool_decide (from = to) then false
  else bool_decide (to ∈ successors desiredTransitions from).

(* 156-162 CanTransitionActualState *)
Definition CanTransitionActualState (from to : string) : bool :=
  if negb (ActualValid from) || negb (ActualValid to) || bool_decide (from = to) then false
  else bool_decide (to ∈ successors actualTransitions from).

(** ** Events *)
(* 174-182 LivestreamEvent *)
Record LivestreamEvent := mkLivestreamEvent {
  ID : Z;
  LivestreamID : string;
  RunID : option string;
  EventType : string;
  Severity : string;
  Payload : string;
  CreatedAt : Z
}.

(* 204-206 validLivestreamEventSeverities *)
Definition validLivestreamEventSeverities : list string :=
  ["info"; "warning"; "error"; "critical"].

Section event.
(** [json.Unmarshal(payload, &object)] into a map, and the map is not nil. *)
Context (is_json_object : string → bool).

(** The event is updated in place: an empty payload becomes an empty object
    even when the validation goes on to fail. *)
(* 208-223 ValidateLivestreamEvent *)
Definition ValidateLivestreamEvent (event : option LivestreamEvent) :
    option err * option LivestreamEvent :=
  let missing := errors_new "livestream event requires livestream ID and event type" in
  match event with
  | None => (Some missing, event)
  | Some ev =>
      if bool_decide (LivestreamID ev = "") || bool_decide (EventType ev = "")
      then (Some missing, event)
      else if negb (bool_decide (Severity ev ∈ validLivestreamEventSeverities))
      then (Some (errors_new ("invalid livestream event severity " +:+ quote (Severity ev))), event)
      else
        let ev' := if bool_decide (Payload ev = "")
          then mkLivestreamEvent (ID ev) (LivestreamID ev) (RunID ev) (EventType ev)
                 (Severity ev) "{}" (CreatedAt ev)
          else ev in
        if negb (is_json_object (Payload ev'))
        then (Some (errors_new "livestream event payload must be a JSON object"), Some ev')
        else (None, Some ev')
  end.
End event.

#[export] Instance desired_wf : WellFormedTable desiredTransitions
  [LivestreamDesiredDraft; LivestreamDesiredPrepared; LivestreamDesiredRunning;
   LivestreamDesiredStopped; LivestreamDesiredCancelled].
Proof. solve_wf. Qed.
#[export] Instance actual_wf : WellFormedTable actualTransitions
  [LivestreamActualDraft; LivestreamActualPreflighting; LivestreamActualPreparing;
   LivestreamActualReady; LivestreamActualScheduled; LivestreamActualStarting;
   LivestreamActualWaitingForIngest; LivestreamActualTesting; LivestreamActualLive;
   LivestreamActualDegraded; LivestreamActualReconnecting; LivestreamActualStopping;
   LivestreamActualCompleted; LivestreamActualFailed; LivestreamActualCancelled].
Proof. solve_wf. Qed.

(** The [Valid] guards and the [from == to] guard never reject an edge. *)
Lemma CanTransitionDesiredState_step from to :
  CanTransitionDesiredState from to = can_step desiredTransitions from to.
Proof.
  unfold CanTransitionDesiredState. destruct (_ || _) eqn:E; [|done].
  symmetry. apply not_true_iff_false. intros Hst.
  pose proof (step_source desiredTransitions _ from to Hst) as Hf.
  pose proof (wf_targets from to Hst) as Ht.
  unfold DesiredValid in E. rewrite !bool_decide_eq_true_2 in E by done. simpl in E.
  apply bool_decide_eq_true in E as ->. by apply (wf_irrefl to) in Hst.
Qed.
Lemma CanTransitionActualState_step from to :
  CanTransitionActualState from to = can_step actualTransitions from to.
Proof.
  unfold CanTransitionActualState. destruct (_ || _) eqn:E; [|done].
  symmetry. apply not_true_iff_false. intros Hst.
  pose proof (step_source actualTransitions _ from to Hst) as Hf.
  pose proof (wf_targets from to Hst) as Ht.
  unfold ActualValid in E. rewrite !bool_decide_eq_true_2 in E by done. simpl in E.
  apply bool_decide_eq_true in E as ->. by apply (wf_irrefl to) in Hst.
Qed.

(** ** Properties *)

(** What operators and workers can bring a livestream to.  A cancelled
    intent is final and any other intent can still reach every intent;
    [completed] and [cancelled] runs are never left; a run goes [live] only
    from [testing], [degraded] or [reconnecting] and completes only from
    [live], [degraded] or [stopping]; a failed run can be prepared again; and no
    transition ever enters [scheduled], so the row of that state is dead. *)
Theorem livestream_lifecycle (s t : string) :
  (DesiredValid s = true → s ≠ LivestreamDesiredCancelled →
     DesiredValid t = true → reach desiredTransitions s t) ∧
  (CanTransitionDesiredState s t = true → s ≠ LivestreamDesiredCancelled) ∧
  (CanTransitionActualState s t = true →
     s ≠ LivestreamActualCompleted ∧ s ≠ LivestreamActualCancelled ∧
     t ≠ LivestreamActualDraft ∧ t ≠ LivestreamActualScheduled ∧
     (t = LivestreamActualLive → s ∈ [LivestreamActualTesting; LivestreamActualDegraded;
        LivestreamActualReconnecting]) ∧
     (t = LivestreamActualCompleted → s ∈ [LivestreamActualLive; LivestreamActualDegraded;
        LivestreamActualStopping])) ∧
  (reach actualTransitions LivestreamActualDraft t ↔
     ActualValid t = true ∧ t ≠ LivestreamActualScheduled) ∧
  reach actualTransitions LivestreamActualFailed LivestreamActualLive.
Proof.
  split; [|split; [|split; [|split; [|solve_reach]]]].
  - intros Hs Hne Ht. apply bool_decide_eq_true in Hs, Ht.
    enum_cases Hs; try done; enum_cases Ht; solve_reach.
  - rewrite CanTransitionDesiredState_step. intros Hst ->.
    by apply (step_forall desiredTransitions (λ s _, negb (bool_decide
      (s = LivestreamDesiredCancelled)))) in Hst; [|vm_compute; exact eq_refl].
  - rewrite CanTransitionActualState_step. intros Hst.
    apply (bool_decide_unpack (_ ∧ _)).
    apply Is_true_true. revert s t Hst. apply step_forall. vm_compute. exact eq_refl.
  - split.
    + intros Hr. rewrite (reachable_complete actualTransitions) in Hr by decide_closed.
      assert (Hv : ActualValid t = true).
      { apply bool_decide_eq_true. apply (reach_states actualTransitions _ LivestreamActualDraft);
          [decide_closed|by apply reachable_sound]. }
      split; [done|]. revert Hr. apply bool_decide_eq_true in Hv. enum_cases Hv; decide_closed.
    + intros [Hv Hne]. apply bool_decide_eq_true in Hv. enum_cases Hv; try done; solve_reach.
Qed.
