(* ===== verification/PostModel.v ===== *)
(** * Posts, their targets, and the aggregate status

    [src/internal/models/post.go] and
    [src/internal/models/post_aggregate_status.go]: a post is published to
    several targets, and its own status is a pure function of theirs. *)

From S2P Require Import Prelude.
From Stdlib Require Import Lia.

(* Source: internal/models/post.go *)

(** ** Statuses *)
Definition PostStatusDraft : string := "draft". (* 45 *)
Definition PostStatusQueued : string := "queued". (* 46 *)
Definition PostStatusPublishing : string := "publishing". (* 47 *)
Definition PostStatusPublished : string := "published". (* 48 *)
Definition PostStatusPartiallyPublished : string := "partially_published". (* 49 *)
Definition PostStatusFailed : string := "failed". (* 50 *)
Definition PostStatusWaitingProvider : string := "waiting_provider". (* 51 *)
Definition PostStatusRetrying : string := "retrying". (* 57 *)
Definition PostStatusDLQ : string := "dlq". (* 67 *)
Definition PostStatusBlockedAuth : string := "blocked_auth". (* 82 *)
Definition PostStatusDriveRequiredFailed : string := "drive_required_failed". (* 95 *)
Definition PostStatusScheduled : string := PostStatusQueued. (* 98 *)

(* 44-99 PostStatus constants *)
Definition PostStatuses : list string :=
  [PostStatusDraft; PostStatusQueued; PostStatusPublishing; PostStatusPublished;
   PostStatusPartiallyPublished; PostStatusFailed; PostStatusWaitingProvider;
   PostStatusRetrying; PostStatusDLQ; PostStatusBlockedAuth; PostStatusDriveRequiredFailed].

(* 102-119 PostStatus.IsValid *)
Definition IsValid (s : string) : bool := bool_decide (s ∈ PostStatuses).

(* 127-135 PostStatus.IsTerminal *)
Definition IsTerminal (s : string) : bool :=
  bool_decide (s = PostStatusPublished) || bool_decide (s = PostStatusPartiallyPublished) ||
  bool_decide (s = PostStatusFailed) || bool_decide (s = PostStatusDLQ) ||
  bool_decide (s = "dead_letter") || bool_decide (s = PostStatusBlockedAuth) ||
  bool_decide (s = PostStatusDriveRequiredFailed).

(** What the driver hands to [Scan]; any other type is reported by its name. *)
Inductive DriverValue :=
| VNil
| VString (s : string)
| VBytes (s : string)
| VOther (type_name : string).

(* 141-143 PostStatus.Value *)
Definition Value (s : string) : DriverValue := VString s.

(* 146-160 PostStatus.Scan *)
Definition Scan (src : DriverValue) : err + string :=
  match src with
  | VNil => inr ""
  | VString v => inr v
  | VBytes v => inr v
  | VOther t => inl (errors_new ("models: cannot scan PostStatus from " +:+ t))
  end.

(** ** Rows

    [PlatformPostID] and the other plain strings are never NULL in Go; the
    empty string stands for NULL where the queries use [COALESCE]. *)
(* 188-267 Post *)
Record Post := mkPost {
  post_ID : Z;
  post_WorkspaceID : Z;
  post_Title : string;
  post_Caption : string;
  post_MediaURL : string;
  post_MediaAssetID : option string;
  post_StorageObjectKey : option string;
  post_Bucket : option string;
  post_PrivacyLevel : string;
  post_DefaultPrivacyLevel : string;
  post_UploadJobID : option Z;
  post_IngestAfter : Z;
  post_PublishAt : option Z;
  post_Status : string;
  post_IdempotencyKey : option string;
  post_Metadata : string;
  post_Version : Z;
  post_CreatedAt : Z;
  post_UpdatedAt : Z
}.

(* 277-351 PostTarget *)
Record PostTarget := mkPostTarget {
  ID : Z;
  PostID : Z;
  PlatformAccountID : Z;
  Status : string;
  AttemptCount : Z;
  NextAttemptAt : option Z;
  ReconcileAttempt : Z;
  NextReconcileAt : option Z;
  ReconcileOwnerID : string;
  ReconcileUntil : option Z;
  ReconcileHeartbeatAt : option Z;
  PlatformPostID : string;
  RemotePostID : string;
  RemotePostURL : string;
  ErrorMessage : string;
  PublishedAt : option Z;
  CompletedAt : option Z;
  ProviderState : string;
  ContainerID : string;
  LastErrorCode : string;
  ProviderIdempotencyKey : option string;
  LeaseOwner : string;
  LeaseUntil : option Z;
  HeartbeatAt : option Z;
  Version : Z;
  CreatedAt : Z;
  UpdatedAt : Z
}.

(** ** Language tags *)
(** The [%q] verb on a rune. *)
Definition quote_rune (a : ascii) : string :=
  let n := N_of_ascii a in
  "'" +:+ (if (n =? 34)%N then String a "" else if (n =? 39)%N then bytes [92; 39]%N else quote_byte a)
  +:+ "'".
(** On ASCII: lower-casing maps no other rune to a letter. *)
(* Source: internal/models/youtube_publish_options.go *)
(* 119-149 CheckBCP47Like *)
Definition CheckBCP47Like (label code : string) : option err :=
  let l := String.list_ascii_of_string code in
  let says (t : string) := Some (errors_new (label +:+ " " +:+ quote code +:+ " " +:+ t)) in
  let forbidden a := existsb (N.eqb (N_of_ascii a)) [47; 92; 32; 9; 10; 13]%N in
  let letter a := let c := N_of_ascii (ascii_lower a) in ((97 <=? c) && (c <=? 122))%N in
  if bool_decide (code = "") then None
  else if negb (Nat.leb (String.length code) 35) then
    says "looks malformed (BCP-47 codes are short)"
  else match List.find forbidden l with
       | Some r => says ("contains a forbidden character (" +:+ quote_rune r +:+ ")")
       | None => if existsb letter l then None else says "has no language subtag"
       end.

(** ** Aggregation *)
(* Source: internal/models/post_aggregate_status.go *)

(** The local flags of [Resolve]. *)
(* 38-46 PostAggregateStatusResolver.Resolve *)
Record Flags := mkFlags {
  allPublished : bool;
  anyPublished : bool;
  anyPartial : bool;
  anyPublishing : bool;
  anyRetrying : bool;
  anyWaitingProvider : bool;
  anyQueued : bool;
  allDraft : bool;
  allFailed : bool
}.

(** One iteration of the loop; [None] is the [default] case. *)
(* 48-88 PostAggregateStatusResolver.Resolve *)
Definition flag_step (f : Flags) (status : string) : option Flags :=
  let 'mkFlags allPub anyPub anyPart anyPing anyRetry anyWait anyQ allD allF := f in
  if bool_decide (status = PostStatusPublished) then
    Some (mkFlags allPub true anyPart anyPing anyRetry anyWait anyQ false false)
  else if bool_decide (status = PostStatusPartiallyPublished) then
    Some (mkFlags false anyPub true anyPing anyRetry anyWait anyQ false false)
  else if bool_decide (status = PostStatusPublishing) then
    Some (mkFlags false anyPub anyPart true anyRetry anyWait anyQ false false)
  else if bool_decide (status = PostStatusRetrying) then
    Some (mkFlags false anyPub anyPart anyPing true anyWait anyQ false false)
  else if bool_decide (status = PostStatusWaitingProvider) then
    Some (mkFlags false anyPub anyPart anyPing anyRetry true anyQ false false)
  else if bool_decide (status = PostStatusQueued) then
    Some (mkFlags false anyPub anyPart anyPing anyRetry anyWait true false false)
  else if bool_decide (status = PostStatusDraft) then
    Some (mkFlags false anyPub anyPart anyPing anyRetry anyWait anyQ allD false)
  else if bool_decide (status ∈ [PostStatusFailed; PostStatusDLQ; "dead_letter";
            PostStatusBlockedAuth; PostStatusDriveRequiredFailed]) then
    Some (mkFlags false anyPub anyPart anyPing anyRetry anyWait anyQ false allF)
  else None.

(* 48-89 PostAggregateStatusResolver.Resolve *)
Fixpoint flag_loop (f : Flags) (statuses : list string) : err + Flags :=
  match statuses with
  | [] => inr f
  | s :: l =>
      match flag_step f s with
      | Some f' => flag_loop f' l
      | None => inl (errors_new ("post aggregate: unknown target status " +:+ quote s))
      end
  end.

(* 91-124 PostAggregateStatusResolver.Resolve *)
Definition flag_status (f : Flags) : string :=
  if allPublished f then PostStatusPublished
  else if anyPublishing f then PostStatusPublishing
  else if anyRetrying f then PostStatusRetrying
  else if anyWaitingProvider f then PostStatusWaitingProvider
  else if anyQueued f then PostStatusQueued
  else if anyPublished f || anyPartial f then PostStatusPartiallyPublished
  else if allFailed f then PostStatusFailed
  else if allDraft f then PostStatusDraft
  else PostStatusFailed.

(** The resolver reads nothing of a target but its status. *)
(* 33-125 PostAggregateStatusResolver.Resolve *)
Definition resolve_statuses (statuses : list string) : err + string :=
  match statuses with
  | [] => inr PostStatusDraft
  | _ =>
      match flag_loop (mkFlags true false false false false false false true true) statuses with
      | inl e => inl e
      | inr f => inr (flag_status f)
      end
  end.
(* 33-125 PostAggregateStatusResolver.Resolve *)
Definition Resolve (targets : list PostTarget) : err + string :=
  resolve_statuses (Status <$> targets).

(** ** The rules of the resolver *)

(** The statuses [Resolve] accepts: the declared ones and the outbox spelling
    of the dead letter queue. *)
Definition known_status (s : string) : bool :=
  bool_decide (s ∈ "dead_letter" :: PostStatuses).
Definition has (c s : string) : bool := bool_decide (s = c).
Definition is_failure (s : string) : bool :=
  bool_decide (s ∈ [PostStatusFailed; PostStatusDLQ; "dead_letter";
                    PostStatusBlockedAuth; PostStatusDriveRequiredFailed]).

(** The precedence rules, in the order in which they are tried. *)
Definition aggregate_rules (l : list string) : string :=
  if bool_decide (l = []) then PostStatusDraft
  else if forallb (has PostStatusPublished) l then PostStatusPublished
  else if existsb (has PostStatusPublishing) l then PostStatusPublishing
  else if existsb (has PostStatusRetrying) l then PostStatusRetrying
  else if existsb (has PostStatusWaitingProvider) l then PostStatusWaitingProvider
  else if existsb (has PostStatusQueued) l then PostStatusQueued
  else if existsb (has PostStatusPublished) l || existsb (has PostStatusPartiallyPublished) l
       then PostStatusPartiallyPublished
  else if forallb (has PostStatusDraft) l then PostStatusDraft
  else PostStatusFailed.

Lemma flag_step_known f s :
  known_status s = true →
  flag_step f s = Some (mkFlags
    (allPublished f && has PostStatusPublished s) (anyPublished f || has PostStatusPublished s)
    (anyPartial f || has PostStatusPartiallyPublished s)
    (anyPublishing f || has PostStatusPublishing s) (anyRetrying f || has PostStatusRetrying s)
    (anyWaitingProvider f || has PostStatusWaitingProvider s)
    (anyQueued f || has PostStatusQueued s) (allDraft f && has PostStatusDraft s)
    (allFailed f && is_failure s)).
Proof.
  intros Hs. apply bool_decide_eq_true in Hs. unfold PostStatuses in Hs. destruct f.
  enum_cases Hs; cbv -[andb orb];
    rewrite ?andb_true_r, ?andb_false_r, ?orb_true_r, ?orb_false_r; done.
Qed.

Lemma flag_step_unknown f s : known_status s = false → flag_step f s = None.
Proof.
  intros Hs. apply bool_decide_eq_false in Hs. destruct f. unfold flag_step.
  rewrite !(bool_decide_eq_false_2 (s = _)) by (intros ->; apply Hs; decide_closed).
  rewrite bool_decide_eq_false_2; [done|]. intros H. enum_cases H; apply Hs; decide_closed.
Qed.

Lemma flag_loop_known l : ∀ f,
  forallb known_status l = true →
  flag_loop f l = inr (mkFlags
    (allPublished f && forallb (has PostStatusPublished) l)
    (anyPublished f || existsb (has PostStatusPublished) l)
    (anyPartial f || existsb (has PostStatusPartiallyPublished) l)
    (anyPublishing f || existsb (has PostStatusPublishing) l)
    (anyRetrying f || existsb (has PostStatusRetrying) l)
    (anyWaitingProvider f || existsb (has PostStatusWaitingProvider) l)
    (anyQueued f || existsb (has PostStatusQueued) l)
    (allDraft f && forallb (has PostStatusDraft) l)
    (allFailed f && forallb is_failure l)).
Proof.
  induction l as [|s l IH]; intros f; cbn [flag_loop forallb existsb].
  - intros _. destruct f; simpl. by rewrite !andb_true_r, !orb_false_r.
  - intros [Hs Hl]%andb_true_iff. rewrite flag_step_known, IH by done.
    cbn. by rewrite !andb_assoc, !orb_assoc.
Qed.

Lemma flag_loop_unknown l : ∀ f,
  forallb known_status l = false →
  ∃ l1 s l2, l = l1 ++ s :: l2 ∧ forallb known_status l1 = true ∧
    known_status s = false ∧
    flag_loop f l = inl (errors_new ("post aggregate: unknown target status " +:+ quote s)).
Proof.
  induction l as [|s l IH]; intros f; cbn [flag_loop forallb]; [done|].
  intros H. destruct (known_status s) eqn:Hs; simpl in H.
  - destruct (flag_step f s) as [f'|] eqn:Ef; [|by rewrite flag_step_known in Ef].
    destruct (IH f' H) as (l1 & s' & l2 & -> & ? & ? & E).
    exists (s :: l1), s', l2. cbn [forallb]. by rewrite Hs.
  - rewrite flag_step_unknown by done. by exists [], s, l.
Qed.

(** Failed targets only are all of the failure class, so the last two rules
    of [Resolve] give the same answer. *)
Lemma resolve_known l :
  forallb known_status l = true → resolve_statuses l = inr (aggregate_rules l).
Proof.
  intros Hl. destruct l as [|s l]; [done|]. unfold resolve_statuses, aggregate_rules.
  rewrite flag_loop_known by done. generalize (@nil_cons _ s l). revert Hl.
  generalize (s :: l). intros cs Hl Hne. rewrite (bool_decide_eq_false_2 (cs = [])) by congruence.
  unfold flag_status. cbn -[forallb existsb].
  destruct (forallb (has PostStatusPublished) cs); [done|].
  destruct (existsb (has PostStatusPublishing) cs); [done|].
  destruct (existsb (has PostStatusRetrying) cs); [done|].
  destruct (existsb (has PostStatusWaitingProvider) cs); [done|].
  destruct (existsb (has PostStatusQueued) cs); [done|].
  destruct (_ || _); [done|]. destruct (forallb is_failure cs) eqn:Hf; [|by destruct (forallb _ _)].
  destruct (forallb (has PostStatusDraft) cs) eqn:Hd; [|done].
  destruct cs as [|c cs]; [done|]. simpl in Hf, Hd.
  apply andb_true_iff in Hf as [Hf _], Hd as [Hd _].
  apply bool_decide_eq_true in Hd as ->. by vm_compute in Hf.
Qed.

Lemma existsb_Permutation {A} (P : A → bool) l l' : l ≡ₚ l' → existsb P l = existsb P l'.
Proof.
  induction 1; simpl; try congruence.
  by destruct (P x), (P y).
Qed.
Lemma forallb_Permutation {A} (P : A → bool) l l' : l ≡ₚ l' → forallb P l = forallb P l'.
Proof.
  induction 1; simpl; try congruence.
  by destruct (P x), (P y).
Qed.

Lemma has_excl c d l :
  c ≠ d → forallb (has c) l = true → existsb (has d) l = false.
Proof.
  intros Hcd. induction l as [|s l IH]; simpl; [done|].
  intros [->%bool_decide_eq_true Hl]%andb_true_iff. rewrite (IH Hl), orb_false_r.
  by apply bool_decide_eq_false.
Qed.
Lemma has_excl' c d l :
  c ≠ d → existsb (has d) l = true → forallb (has c) l = false.
Proof.
  intros Hcd Hd. apply not_true_iff_false. intros Hc. by rewrite (has_excl c d) in Hd.
Qed.
Lemma forallb_has_exists c l :
  l ≠ [] → forallb (has c) l = true → existsb (has c) l = true.
Proof. destruct l as [|s l]; [done|]. simpl. intros _ [-> _]%andb_true_iff. done. Qed.

(** A target the worker is still going to touch. *)
Definition active (s : string) : bool :=
  has PostStatusPublishing s || has PostStatusRetrying s || has PostStatusWaitingProvider s ||
  has PostStatusQueued s.

Lemma existsb_orb {A} (P Q : A → bool) l :
  existsb (λ x, P x || Q x) l = existsb P l || existsb Q l.
Proof.
  induction l as [|x l IH]; simpl; [done|]. rewrite IH.
  by destruct (P x), (Q x), (existsb P l), (existsb Q l).
Qed.

Lemma aggregate_terminal l :
  IsTerminal (aggregate_rules l) = true ↔
  existsb active l = false ∧ forallb (has PostStatusDraft) l = false.
Proof.
  unfold active. rewrite !existsb_orb. unfold aggregate_rules.
  case_bool_decide as Hn; [subst; by vm_compute; naive_solver|].
  destruct (forallb (has PostStatusPublished) l) eqn:Hp.
  { rewrite !(has_excl PostStatusPublished _ l) by done.
    rewrite (has_excl' _ PostStatusPublished) by first [done|by apply forallb_has_exists].
    done. }
  destruct (existsb (has PostStatusPublishing) l); [by vm_compute; naive_solver|].
  destruct (existsb (has PostStatusRetrying) l); [by vm_compute; naive_solver|].
  destruct (existsb (has PostStatusWaitingProvider) l); [by vm_compute; naive_solver|].
  destruct (existsb (has PostStatusQueued) l); [by vm_compute; naive_solver|].
  destruct (existsb (has PostStatusPublished) l) eqn:E1; simpl.
  { by rewrite (has_excl' _ PostStatusPublished) by done. }
  destruct (existsb (has PostStatusPartiallyPublished) l) eqn:E2.
  { by rewrite (has_excl' _ PostStatusPartiallyPublished) by done. }
  destruct (forallb (has PostStatusDraft) l); by vm_compute; naive_solver.
Qed.

(** ** Properties *)

(** The aggregate status of a post follows the precedence rules.  For
    targets with known statuses, [Resolve] returns the first rule that
    applies: no target gives [draft], all published [published], then any
    publishing, retrying, waiting or queued target in this order, then
    [partially_published] if anything was published, then [draft] if
    everything still is, and [failed] otherwise; an unknown status is an
    error that names the first such target; and the result does not depend
    on the order of the targets. *)
Theorem Resolve_rules (targets : list PostTarget) :
  let statuses := Status <$> targets in
  (forallb known_status statuses = true → Resolve targets = inr (aggregate_rules statuses)) ∧
  (forallb known_status statuses = false →
     ∃ l1 s l2, statuses = l1 ++ s :: l2 ∧ forallb known_status l1 = true ∧
       known_status s = false ∧
       Resolve targets =
         inl (errors_new ("post aggregate: unknown target status " +:+ quote s))) ∧
  (∀ targets', targets ≡ₚ targets' → forallb known_status statuses = true →
     Resolve targets' = Resolve targets).
Proof.
  unfold Resolve. split; [|split].
  - apply resolve_known.
  - intros H. destruct (flag_loop_unknown _
      (mkFlags true false false false false false false true true) H)
      as (l1 & s & l2 & E & ? & ? & Hl).
    exists l1, s, l2. split; [done|]. split; [done|]. split; [done|].
    unfold resolve_statuses. rewrite Hl. by rewrite E; destruct l1.
  - intros targets' Hp Hk. apply (fmap_Permutation Status) in Hp.
    rewrite !resolve_known; [|done|by rewrite <- (forallb_Permutation _ _ _ Hp)].
    f_equal. unfold aggregate_rules.
    rewrite !(existsb_Permutation _ _ _ Hp), !(forallb_Permutation _ _ _ Hp).
    destruct (Status <$> targets); destruct (Status <$> targets'); try done.
    + by apply Permutation_nil_cons in Hp.
    + symmetry in Hp. by apply Permutation_nil_cons in Hp.
Qed.

(** A parent never claims more than its targets did.  The aggregate of
    known statuses is a valid status; it is [published] exactly when there
    are targets and all of them are; it is terminal exactly when there are
    targets, none of them is active, and not all of them are drafts; and a
    queued sibling hides a published one: {published, queued} aggregates to
    [queued]. *)
Theorem Resolve_sound (targets : list PostTarget) (status : string)
    (Hres : Resolve targets = inr status) :
  let statuses := Status <$> targets in
  IsValid status = true ∧
  (status = PostStatusPublished ↔
     targets ≠ [] ∧ Forall (λ t, Status t = PostStatusPublished) targets) ∧
  (IsTerminal status = true ↔
     existsb active statuses = false ∧ forallb (has PostStatusDraft) statuses = false) ∧
  resolve_statuses [PostStatusPublished; PostStatusQueued] = inr PostStatusQueued.
Proof.
  unfold Resolve in Hres. intros statuses. fold statuses in Hres.
  assert (Hk : forallb known_status statuses = true).
  { apply not_false_iff_true. intros H. destruct (flag_loop_unknown _
      (mkFlags true false false false false false false true true) H)
      as (l1 & s & l2 & E & _ & _ & Hl).
    unfold resolve_statuses in Hres. rewrite Hl in Hres. by rewrite E in Hres; destruct l1. }
  rewrite resolve_known in Hres by done. injection Hres as <-.
  split; [|split; [|split; [|decide_closed]]].
  - unfold aggregate_rules. repeat case_match; decide_closed.
  - assert (Hall : forallb (has PostStatusPublished) statuses = true ↔
      Forall (λ t, Status t = PostStatusPublished) targets).
    { rewrite forallb_forall, Forall_forall. unfold statuses, has.
      setoid_rewrite bool_decide_eq_true. setoid_rewrite <- list_elem_of_In.
      setoid_rewrite list_elem_of_fmap. naive_solver. }
    rewrite <- Hall. unfold aggregate_rules.
    assert (Hnil : statuses = [] ↔ targets = []) by (unfold statuses; by destruct targets).
    case_bool_decide as Hn; [split; [done|naive_solver]|].
    destruct (forallb (has PostStatusPublished) statuses); [naive_solver|].
    split; [|naive_solver]. repeat case_match; done.
  - apply aggregate_terminal.
Qed.

Lemma Resolve_sound_witness :
  let t s := mkPostTarget 1 1 1 s 0 None 0 None "" None None "" "" "" "" None None "" "" ""
               None "" None None 1 0 0 in
  let targets := [t PostStatusPublished; t PostStatusFailed] in
  Resolve targets = inr PostStatusPartiallyPublished ∧
  (IsTerminal PostStatusPartiallyPublished = true ↔
     existsb active (Status <$> targets) = false ∧
     forallb (has PostStatusDraft) (Status <$> targets) = false).
Proof.
  intros t targets. assert (H : Resolve targets = inr PostStatusPartiallyPublished).
  { vm_compute. reflexivity. }
  split; [exact H|]. exact (proj1 (proj2 (proj2 (Resolve_sound _ _ H)))).
Defined.
