(* ===== verification/Backoff.v ===== *)
(** * Retry delays and random durations

    The backoff policies of the workers and of the outbox dispatcher, and the
    samplers they draw jitter from.  [time.Duration] is a 64-bit integer
    ([wrap64] after every multiplication), [int] arguments range over [Z], and
    the random sources are parameters with their documented contract:
    [rand.Int63n(n)] is in [[0, n)] for positive [n]. *)

From S2P Require Import Prelude.
From Stdlib Require Import ZArith Lia.
Local Open Scope Z_scope.

(** ** Samplers *)
(* Source: internal/sampler/uniform_duration.go *)
(* 15-20 UniformDuration *)
Definition UniformDuration (min max : Z) (int63n : Z → Z) : Z :=
  if (min <? 0) || (max <? 0) || (max <=? min) then min
  else wrap64 (min + int63n (wrap64 (max - min))).

(* Source: internal/sampler/random_duration.go *)
Definition minRandomDurationSeconds : Z := - Z.quot (2^63 - 1) Second. (* 11 *)
Definition maxRandomDurationSeconds : Z := Z.quot (2^63 - 1) Second. (* 12 *)

(** [rand.Int(rand.Reader, max)] of crypto/rand: an error of the reader, or a
    number in [[0, max)]. *)
(* 19-42 RandomDurationInRange *)
Definition RandomDurationInRange (rand_Int : Z → err + Z) (minSeconds maxSeconds : Z) : err + Z :=
  if maxSeconds <? minSeconds then
    inl (errors_new ("random duration: min (" +:+ itoa minSeconds +:+ ") > max (" +:+
                     itoa maxSeconds +:+ ")"))
  else if (minSeconds <? minRandomDurationSeconds) || (maxRandomDurationSeconds <? maxSeconds) then
    inl (errors_new ("random duration: bounds [" +:+ itoa minSeconds +:+ ", " +:+
      itoa maxSeconds +:+ "] seconds exceed time.Duration range [" +:+
      itoa minRandomDurationSeconds +:+ ", " +:+ itoa maxRandomDurationSeconds +:+ "]"))
  else
    let span := wrap64 (maxSeconds - minSeconds) in
    match rand_Int (wrap64 (span + 1)) with
    | inl e => inl (wrap "random duration: crypto/rand" e)
    | inr n => inr (wrap64 (wrap64 (minSeconds + n) * Second))
    end.

(** ** The outbox dispatcher: decorrelated jitter in floating point

    All the values of [computeBackoff] are non-negative integers, so a
    [float64] is an integer with at most 53 significant bits; [round53] rounds
    to nearest, ties to even.  [2^n] beyond the range is +Inf in Go and a
    large integer here; both are cut by the cap. *)
Definition round53 (z : Z) : Z :=
  if z <? 2^53 then z
  else
    let unit := 2 ^ (Z.log2 z - 52) in
    let q := z / unit in
    let r := z mod unit in
    if (2 * r <? unit) || ((2 * r =? unit) && Z.even q) then q * unit
    else (q + 1) * unit.

(* Source: internal/outbox/dispatcher_backoff.go *)
(* 56-65 pow2 *)
Definition pow2 (n : Z) : Z := if n <=? 0 then 1 else 2 ^ n.

(* 31-51 Dispatcher.computeBackoff *)
Definition computeBackoff (BaseDelay CapDelay : Z) (int63n : Z → Z) (attempt : Z) : Z :=
  let attempt := if attempt <? 1 then 1 else attempt in
  let prev := round53 BaseDelay * pow2 (attempt - 1) in
  let prev := if round53 CapDelay <? prev then round53 CapDelay else prev in
  let temp := round53 (prev * 3) in
  let temp := if round53 CapDelay <? temp then round53 CapDelay else temp in
  UniformDuration BaseDelay (wrap64 temp) int63n.

(** ** Workers *)
(* Source: internal/worker/publish_worker_lease.go *)
(** [for i := 0; i < attempt && backoff < 5*time.Minute; i++ { backoff *= 2 }]
    with [n] iterations left. *)
(* 43-45 publishRetryBackoff *)
Fixpoint publishRetryBackoff_loop (n : nat) (backoff : Z) : Z :=
  match n with
  | O => backoff
  | S n' =>
      if backoff <? 5 * Minute then publishRetryBackoff_loop n' (wrap64 (backoff * 2))
      else backoff
  end.
(* 38-50 publishRetryBackoff *)
Definition publishRetryBackoff (attempt : Z) : Z :=
  let attempt := if attempt <? 0 then 0 else attempt in
  let backoff := publishRetryBackoff_loop (Z.to_nat attempt) (5 * Second) in
  if 5 * Minute <? backoff then 5 * Minute else backoff.

(* Source: internal/worker/upload_worker_errors.go *)
(* 168-174 computeUploadBackoff *)
Fixpoint computeUploadBackoff_loop (n : nat) (prev : Z) : Z :=
  match n with
  | O => prev
  | S n' =>
      let prev := wrap64 (prev * 3) in
      if Hour <? prev then Hour else computeUploadBackoff_loop n' prev
  end.
(* 159-184 computeUploadBackoff *)
Definition computeUploadBackoff (int63n : Z → Z) (attempt : Z) : Z :=
  let base := 5 * Second in
  let cap := Hour in
  let attempt := if attempt <? 1 then 1 else attempt in
  let prev := computeUploadBackoff_loop (Z.to_nat (attempt - 1)) base in
  let temp := if cap <? prev then cap else prev in
  let span := wrap64 (temp - base) in
  if span <=? 0 then base else wrap64 (base + int63n (wrap64 (span + 1))).

(* Source: internal/worker/velox_artifact_downloader.go *)
(* 350-356 VeloxArtifactDownloader.retryBackoff *)
Fixpoint retryBackoff_loop (n : nat) (backoff : Z) : Z :=
  match n with
  | O => backoff
  | S n' =>
      let backoff := wrap64 (backoff * 2) in
      if 30 * Minute <=? backoff then 30 * Minute else retryBackoff_loop n' backoff
  end.
(* 346-358 VeloxArtifactDownloader.retryBackoff *)
Definition retryBackoff (attemptCount : Z) : Z :=
  retryBackoff_loop (Z.to_nat (attemptCount - 1)) (5 * Second).

(* Source: internal/worker/reconcile_worker.go *)
Definition reconcileMaxAttempts : Z := 5. (* 245 *)
(* 248-254 reconcileBackoffSchedule *)
Definition reconcileBackoffSchedule : list Z :=
  [5 * Second; 15 * Second; 30 * Second; 60 * Second; 120 * Second].
(* 572-580 reconcileBackoffForAttempt *)
Definition reconcileBackoffForAttempt (attempt : Z) : Z :=
  let attempt := if attempt <? 0 then 0 else attempt in
  if Z.of_nat (length reconcileBackoffSchedule) <=? attempt
  then nth (length reconcileBackoffSchedule - 1) reconcileBackoffSchedule 0
  else nth (Z.to_nat attempt) reconcileBackoffSchedule 0.

(** ** Closed forms *)
Lemma wrap64_small z : 0 ≤ z < 2^63 → wrap64 z = z.
Proof. intros H. apply wrap64_id. unfold in_int64, int64_min, int64_max. lia. Qed.

Lemma round53_small z : 0 ≤ z ≤ 2^53 → round53 z = z.
Proof.
  intros H. unfold round53. destruct (Z.ltb_spec z (2^53)); [done|].
  replace z with (2^53) by lia. reflexivity.
Qed.

Lemma pow2_pos n : 1 ≤ pow2 n.
Proof. unfold pow2. destruct (Z.leb_spec n 0); [lia|]. apply (Z.pow_le_mono_r 2 0); lia. Qed.
Lemma pow2_pow n : 0 ≤ n → pow2 n = 2 ^ n.
Proof.
  intros H. unfold pow2. destruct (Z.leb_spec n 0); [|done].
  by replace n with 0 by lia.
Qed.

Lemma publishRetryBackoff_loop_min n b :
  0 < b < 10 * Minute →
  Z.min (publishRetryBackoff_loop n b) (5 * Minute) = Z.min (b * 2 ^ Z.of_nat n) (5 * Minute).
Proof.
  revert b. induction n as [|n IH]; intros b Hb; cbn [publishRetryBackoff_loop].
  { f_equal. simpl. lia. }
  assert (Hp : 1 ≤ 2 ^ Z.of_nat n) by (apply (Z.pow_le_mono_r 2 0); lia).
  replace (2 ^ Z.of_nat (S n)) with (2 * 2 ^ Z.of_nat n)
    by (rewrite Nat2Z.inj_succ, Z.pow_succ_r by lia; lia).
  destruct (Z.ltb_spec b (5 * Minute)).
  - unfold Minute, Second in *. rewrite wrap64_small by lia. rewrite IH by lia. f_equal. lia.
  - nia.
Qed.

Lemma publishRetryBackoff_closed attempt :
  publishRetryBackoff attempt = Z.min (5 * Second * 2 ^ Z.max attempt 0) (5 * Minute).
Proof.
  unfold publishRetryBackoff.
  set (a := if attempt <? 0 then 0 else attempt).
  assert (Ha : a = Z.max attempt 0) by (subst a; destruct (Z.ltb_spec attempt 0); lia).
  rewrite <- Ha.
  assert (E := publishRetryBackoff_loop_min (Z.to_nat a) (5 * Second)).
  rewrite Z2Nat.id in E by lia. rewrite <- E by (unfold Minute, Second; lia).
  destruct (Z.ltb_spec (5 * Minute) (publishRetryBackoff_loop (Z.to_nat a) (5 * Second))); lia.
Qed.

Lemma computeUploadBackoff_loop_min n b :
  0 < b ≤ Hour → computeUploadBackoff_loop n b = Z.min (b * 3 ^ Z.of_nat n) Hour.
Proof.
  revert b. induction n as [|n IH]; intros b Hb; cbn [computeUploadBackoff_loop].
  { simpl. lia. }
  assert (Hp : 1 ≤ 3 ^ Z.of_nat n) by (apply (Z.pow_le_mono_r 3 0); lia).
  replace (3 ^ Z.of_nat (S n)) with (3 * 3 ^ Z.of_nat n)
    by (rewrite Nat2Z.inj_succ, Z.pow_succ_r by lia; lia).
  rewrite wrap64_small by (unfold Hour, Minute, Second in *; lia).
  destruct (Z.ltb_spec Hour (b * 3)); [nia|]. rewrite IH by lia. f_equal. lia.
Qed.

Lemma retryBackoff_loop_min n b :
  0 < b < 30 * Minute → retryBackoff_loop n b = Z.min (b * 2 ^ Z.of_nat n) (30 * Minute).
Proof.
  revert b. induction n as [|n IH]; intros b Hb; cbn [retryBackoff_loop].
  { simpl. lia. }
  assert (Hp : 1 ≤ 2 ^ Z.of_nat n) by (apply (Z.pow_le_mono_r 2 0); lia).
  replace (2 ^ Z.of_nat (S n)) with (2 * 2 ^ Z.of_nat n)
    by (rewrite Nat2Z.inj_succ, Z.pow_succ_r by lia; lia).
  rewrite wrap64_small by (unfold Minute, Second in *; lia).
  destruct (Z.leb_spec (30 * Minute) (b * 2)); [nia|]. rewrite IH by lia. f_equal. lia.
Qed.

(** The contract of [rand.Int63n]. *)
Definition Int63n_contract (int63n : Z → Z) : Prop := ∀ n, 0 < n → 0 ≤ int63n n < n.

Lemma UniformDuration_range min max int63n :
  Int63n_contract int63n → 0 ≤ min < 2^63 → 0 ≤ max < 2^63 →
  min ≤ UniformDuration min max int63n ∧
  (UniformDuration min max int63n < max ∨
   UniformDuration min max int63n = min ∧ max ≤ min).
Proof.
  intros Hr Hmin Hmax. unfold UniformDuration.
  destruct (Z.ltb_spec min 0), (Z.ltb_spec max 0), (Z.leb_spec max min); simpl; try lia.
  rewrite (wrap64_small (max - min)) by lia. specialize (Hr (max - min)).
  rewrite wrap64_small by lia. lia.
Qed.

Lemma computeBackoff_uniform base cap int63n attempt :
  0 < base ≤ 2^51 → 0 < cap ≤ 2^51 →
  computeBackoff base cap int63n attempt =
  UniformDuration base (Z.min cap (3 * base * 2 ^ (Z.max attempt 1 - 1))) int63n.
Proof.
  intros Hbase Hcap.
  unfold computeBackoff. rewrite (round53_small base), (round53_small cap) by lia.
  replace (if attempt <? 1 then 1 else attempt) with (Z.max attempt 1)
    by (destruct (Z.ltb_spec attempt 1); lia).
  rewrite pow2_pow by lia.
  set (p := 2 ^ (Z.max attempt 1 - 1)).
  assert (Hp : 1 ≤ p) by (apply (Z.pow_le_mono_r 2 0); lia).
  assert (Hq : 1 ≤ base * p) by nia. replace (3 * base * p) with (3 * (base * p)) by ring. revert Hq.
  generalize (base * p). intros q Hq.
  destruct (Z.ltb_spec cap q).
  - rewrite round53_small by lia. destruct (Z.ltb_spec cap (cap * 3)); [|lia].
    rewrite wrap64_small by lia. f_equal. lia.
  - rewrite round53_small by lia. destruct (Z.ltb_spec cap (q * 3));
      rewrite wrap64_small by lia; f_equal; lia.
Qed.

Lemma computeBackoff_lower base cap int63n attempt :
  Int63n_contract int63n → 0 < base ≤ 2^51 → 0 < cap ≤ 2^51 →
  base ≤ computeBackoff base cap int63n attempt.
Proof.
  intros Hr Hb Hc. rewrite computeBackoff_uniform by done.
  set (p := 2 ^ (Z.max attempt 1 - 1)).
  assert (1 ≤ p) by (apply (Z.pow_le_mono_r 2 0); lia).
  destruct (UniformDuration_range base (Z.min cap (3 * base * p)) int63n Hr); nia.
Qed.

Lemma computeUploadBackoff_bounds int63n attempt : Int63n_contract int63n →
  5 * Second ≤ computeUploadBackoff int63n attempt
             ≤ Z.min (5 * Second * 3 ^ Z.max (attempt - 1) 0) Hour.
Proof.
  intros Hrand. unfold computeUploadBackoff.
  set (a := if attempt <? 1 then 1 else attempt).
  assert (Ha : Z.to_nat (a - 1) = Z.to_nat (attempt - 1))
    by (subst a; destruct (Z.ltb_spec attempt 1); lia).
  rewrite Ha, computeUploadBackoff_loop_min by (unfold Hour, Minute, Second; lia).
  rewrite ZifyInst.of_nat_to_nat_eq, (Z.max_comm 0).
  set (t := Z.min (5 * Second * 3 ^ Z.max (attempt - 1) 0) Hour).
  assert (Ht : 5 * Second ≤ t ≤ Hour).
  { assert (1 ≤ 3 ^ Z.max (attempt - 1) 0) by (apply (Z.pow_le_mono_r 3 0); lia).
    subst t. unfold Hour, Minute, Second. lia. }
  replace (if Hour <? t then Hour else t) with t by (destruct (Z.ltb_spec Hour t); lia).
  unfold Hour, Minute, Second in *.
  rewrite wrap64_small by lia. destruct (Z.leb_spec (t - 5 * 1000000000) 0); [lia|].
  rewrite (wrap64_small (_ + 1)) by lia.
  specialize (Hrand (t - 5 * 1000000000 + 1)). rewrite wrap64_small by lia. lia.
Qed.

(** ** Properties *)

(** Every worker's backoff is the documented geometric schedule with its
    cap, computed without overflow for any attempt number: 5s doubling to 5m
    for the publish worker, 5s doubling to 30m for the artifact downloader,
    and for the upload worker a delay between 5s and 5s times 3 to the number
    of previous attempts, at most one hour, whatever the random source
    returns. *)
Theorem worker_backoffs (int63n : Z → Z) (attempt : Z)
    (Hrand : Int63n_contract int63n) :
  publishRetryBackoff attempt = Z.min (5 * Second * 2 ^ Z.max attempt 0) (5 * Minute) ∧
  retryBackoff attempt = Z.min (5 * Second * 2 ^ Z.max (attempt - 1) 0) (30 * Minute) ∧
  5 * Second ≤ computeUploadBackoff int63n attempt
             ≤ Z.min (5 * Second * 3 ^ Z.max (attempt - 1) 0) Hour.
Proof.
  split; [apply publishRetryBackoff_closed|]. split.
  - unfold retryBackoff. rewrite retryBackoff_loop_min by (unfold Minute, Second; lia).
    by rewrite ZifyInst.of_nat_to_nat_eq, Z.max_comm.
  - by apply computeUploadBackoff_bounds.
Qed.

Lemma worker_backoffs_witness :
  Int63n_contract (λ _, 0) ∧ publishRetryBackoff 3 = 40 * Second ∧
  retryBackoff 100 = 30 * Minute ∧ 5 * Second ≤ computeUploadBackoff (λ _, 0) 9 ≤ Hour.
Proof.
  assert (H : Int63n_contract (λ _, 0)) by (intros n Hn; lia).
  split; [exact H|].
  destruct (worker_backoffs (λ _, 0) 3 H) as (H1 & _).
  destruct (worker_backoffs (λ _, 0) 100 H) as (_ & H2 & _).
  destruct (worker_backoffs (λ _, 0) 9 H) as (_ & _ & H3 & H4).
  split; [rewrite H1; reflexivity|]. split; [rewrite H2; reflexivity|].
  split; [exact H3|]. etransitivity; [exact H4|]. vm_compute. discriminate.
Defined.

(** The dispatcher's decorrelated jitter.  For a positive base delay and
    a cap of at most 2^51 ns (26 days) the floating point computation is
    exact: the delay is at least the base delay, and either the base itself
    or strictly below min(cap, 3 * base * 2^(attempt-1)); so it never exceeds
    the cap unless the base already does. *)
Theorem computeBackoff_range (base cap : Z) (int63n : Z → Z) (attempt : Z)
    (Hrand : Int63n_contract int63n) (Hbase : 0 < base ≤ 2^51) (Hcap : 0 < cap ≤ 2^51) :
  let temp := Z.min cap (3 * base * 2 ^ (Z.max attempt 1 - 1)) in
  let d := computeBackoff base cap int63n attempt in
  base ≤ d ∧ (d < temp ∨ d = base ∧ temp ≤ base) ∧ d ≤ Z.max base cap.
Proof.
  intros temp d.
  assert (Hd : d = UniformDuration base temp int63n) by (by apply computeBackoff_uniform).
  assert (Ht : 0 ≤ temp ≤ cap).
  { unfold temp. assert (1 ≤ 2 ^ (Z.max attempt 1 - 1)) by (apply (Z.pow_le_mono_r 2 0); lia).
    nia. }
  rewrite Hd. destruct (UniformDuration_range base temp int63n Hrand) as [? ?]; lia.
Qed.

Lemma computeBackoff_range_witness :
  Int63n_contract (λ n, n - 1) ∧
  computeBackoff Second (30 * Second) (λ n, n - 1) 4 = 24 * Second - 1 ∧
  computeBackoff Second (30 * Second) (λ n, n - 1) 4 ≤ Z.max Second (30 * Second).
Proof.
  assert (H : Int63n_contract (λ n, n - 1)) by (intros n Hn; lia).
  split; [exact H|]. split; [vm_compute; reflexivity|].
  refine (proj2 (proj2 (computeBackoff_range _ _ _ 4 H _ _))); vm_compute; split; discriminate || reflexivity.
Defined.

(** [RandomDurationInRange] validates before it samples, and what it
    returns is safe: on success the bounds were ordered and representable, the
    result is a whole number of seconds between them and the multiplication
    by a second did not overflow; it fails exactly on bad bounds or when the
    entropy source fails. *)
Theorem RandomDurationInRange_spec (rand_Int : Z → err + Z) (lo hi : Z)
    (Hrand : ∀ n k, 0 < n → rand_Int n = inr k → 0 ≤ k < n) :
  match RandomDurationInRange rand_Int lo hi with
  | inr d => ∃ s, d = s * Second ∧ lo ≤ s ≤ hi ∧ in_int64 (s * Second)
  | inl _ => hi < lo ∨ lo < -9223372036 ∨ 9223372036 < hi ∨ ∃ e, rand_Int (hi - lo + 1) = inl e
  end.
Proof.
  unfold RandomDurationInRange.
  replace minRandomDurationSeconds with (-9223372036) by reflexivity.
  replace maxRandomDurationSeconds with 9223372036 by reflexivity.
  destruct (Z.ltb_spec hi lo); [by left|].
  destruct (Z.ltb_spec lo (-9223372036)); [by right; left|].
  destruct (Z.ltb_spec 9223372036 hi); [by right; right; left|]. cbn [orb].
  rewrite (wrap64_small (hi - lo)), (wrap64_small (_ + 1)) by lia.
  destruct (rand_Int (hi - lo + 1)) as [e|k] eqn:E; [by right; right; right; exists e|].
  specialize (Hrand (hi - lo + 1) k ltac:(lia) E).
  assert (Hs : in_int64 ((lo + k) * Second)).
  { unfold in_int64, int64_min, int64_max, Second. lia. }
  rewrite (wrap64_id (lo + k)) by (unfold in_int64, int64_min, int64_max; lia).
  rewrite wrap64_id by done. exists (lo + k). split; [done|]. split; [lia|done].
Qed.

Lemma RandomDurationInRange_spec_witness :
  (∀ n k, 0 < n → (λ n : Z, inr (n - 1) : err + Z) n = inr k → 0 ≤ k < n) ∧
  ∃ s, 7 * Second = s * Second ∧ 3 ≤ s ≤ 7 ∧ in_int64 (s * Second).
Proof.
  assert (H : ∀ n k, 0 < n → (λ n : Z, inr (n - 1) : err + Z) n = inr k → 0 ≤ k < n).
  { intros n k Hn [= <-]. lia. }
  split; [exact H|].
  exact (RandomDurationInRange_spec (λ n, inr (n - 1)) 3 7 H).
Defined.
