(* ===== verification/Outbox.v ===== *)
(** * The transactional outbox table

    [src/internal/repository/outbox_repo.go] over the rows of
    [src/internal/models/post.go].  The table is shared by the dispatchers of
    all replicas; a row is claimed with a fresh lease id and every later
    statement on it is guarded by that id.  Lease ids are compared as text:
    the [::uuid] cast of the queries rejects malformed ids, which match no
    row here. *)

From S2P Require Import Prelude Store.
From Stdlib Require Import ZArith Lia.
Local Open Scope Z_scope.

(* Source: internal/models/post.go *)
Definition OutboxStatusPending : string := "pending". (* 503 *)
Definition OutboxStatusProcessed : string := "processed". (* 504 *)
Definition OutboxStatusDeadLetter : string := "dead_letter". (* 505 *)

(** A row; nullable columns are options. *)
(* 463-496 OutboxEvent *)
Record OutboxEvent := mkOutboxEvent {
  ID : Z;
  AggregateType : string;
  AggregateID : Z;
  EventType : string;
  Payload : string;
  Status : string;
  LeaseID : option string;
  LeaseUntil : option Z;
  AttemptCount : Z;
  NextAttemptAt : option Z;
  LastError : option string;
  CreatedAt : Z;
  ProcessedAt : option Z
}.

(** The table and its BIGSERIAL sequence. *)
Record OutboxDB := mkOutboxDB {
  events : gmap Z OutboxEvent;
  next_id : Z
}.
Definition on_events {A} (f : gmap Z OutboxEvent → A * gmap Z OutboxEvent) (db : OutboxDB) :
    A * OutboxDB :=
  let '(a, t) := f (events db) in (a, mkOutboxDB t (next_id db)).

(* Source: internal/repository/outbox_repo.go *)
(* 72 *)
Definition ErrOutboxAlreadyClaimed : err := sentinel "ErrOutboxAlreadyClaimed"
  "outbox: no pending row available to claim (queue may be empty or all rows leased)".
Definition ErrOutboxRace : err := sentinel "ErrOutboxRace" (* 73 *)
  "outbox: row claimed-and-finished by a concurrent dispatcher between our SELECT and UPDATE".
Definition ErrOutboxGone : err := sentinel "ErrOutboxGone" "outbox: row not found". (* 74 *)

(** ** Insert *)
(* 105-109 Insert *)
Definition insert_row (ev : OutboxEvent) (e : Env) (db : OutboxDB) : (Z * Z) * OutboxDB :=
  let id := next_id db in
  (id, db_now e,
   mkOutboxDB (<[id := mkOutboxEvent id (AggregateType ev) (AggregateID ev) (EventType ev)
                         (Payload ev) OutboxStatusPending None None 0 None None (db_now e) None]>
                 (events db)) (id + 1)).

(** Returns the struct with the assigned columns written back to it. *)
(* 95-119 OutboxRepository.Insert *)
Definition Insert (ev : OutboxEvent) : M OutboxDB OutboxEvent :=
  if bool_decide (AggregateType ev = "") || bool_decide (EventType ev = "") ||
     bool_decide (Payload ev = "") then
    throw (errors_new ("outbox Insert: missing required fields (aggregate_type=" +:+
      quote (AggregateType ev) +:+ " event_type=" +:+ quote (EventType ev) +:+
      " payload len=" +:+ itoa (Z.of_nat (String.length (Payload ev))) +:+ ")"))
  else if AggregateID ev <=? 0 then
    throw (errors_new ("outbox Insert: aggregate_id must be > 0 (got " +:+
      itoa (AggregateID ev) +:+ "; BIGSERIAL ids never start at zero)"))
  else
    '(id, created) ← exec "outbox Insert" (insert_row ev);
    mret (mkOutboxEvent id (AggregateType ev) (AggregateID ev) (EventType ev) (Payload ev)
      (if bool_decide (Status ev = "") then OutboxStatusPending else Status ev)
      (LeaseID ev) (LeaseUntil ev) (AttemptCount ev) (NextAttemptAt ev) (LastError ev)
      created (ProcessedAt ev)).

(** ** ClaimNext *)
(** [lease_until IS NULL OR lease_until < now()]. *)
Definition lease_free (now : Z) (r : OutboxEvent) : bool :=
  match LeaseUntil r with None => true | Some u => u <? now end.
(* 159-161 ClaimNext *)
Definition claimable (now : Z) (r : OutboxEvent) : bool :=
  bool_decide (Status r = OutboxStatusPending) && lease_free now r &&
  match NextAttemptAt r with None => true | Some t => t <=? now end.

(** [ORDER BY next_attempt_at NULLS FIRST, created_at ASC]; SQL leaves the order
    of equal keys open, the id decides here. *)
(* 162-162 ClaimNext *)
Definition claim_le (r1 r2 : OutboxEvent) : bool :=
  let k r := match NextAttemptAt r with None => 0 | Some _ => 1 end in
  let v r := default 0 (NextAttemptAt r) in
  (k r1 <? k r2) || ((k r1 =? k r2) &&
    ((v r1 <? v r2) || ((v r1 =? v r2) &&
      ((CreatedAt r1 <? CreatedAt r2) ||
        ((CreatedAt r1 =? CreatedAt r2) && (ID r1 <=? ID r2)))))).
Fixpoint first_row (l : list OutboxEvent) : option OutboxEvent :=
  match l with
  | [] => None
  | r :: l' => match first_row l' with
               | Some m => if claim_le r m then Some r else Some m
               | None => Some r
               end
  end.

(** The rows the SELECT ranges over; rows locked by a peer are skipped. *)
Definition candidates (e : Env) (db : OutboxDB) : list OutboxEvent :=
  List.filter (λ r, claimable (db_now e) r && negb (held e (ID r)))
    (map_to_list (events db)).*2.
(* 157-173 ClaimNext *)
Definition select_candidate (e : Env) (db : OutboxDB) : option Z :=
  ID <$> first_row (candidates e db).

(* 180-183 ClaimNext *)
Definition claim_row (leaseID : string) (leaseUntil : Z) (r : OutboxEvent) : OutboxEvent :=
  mkOutboxEvent (ID r) (AggregateType r) (AggregateID r) (EventType r) (Payload r) (Status r)
    (Some leaseID) (Some leaseUntil) (AttemptCount r + 1) (NextAttemptAt r) (LastError r)
    (CreatedAt r) (ProcessedAt r).
(* 179-191 ClaimNext *)
Definition claim_update (leaseID : string) (leaseUntil id : Z) (e : Env) (db : OutboxDB) :
    option OutboxEvent * OutboxDB :=
  on_events (λ t,
    let '(n, t') := update_row id
      (λ r, bool_decide (Status r = OutboxStatusPending) && lease_free (db_now e) r)
      (claim_row leaseID leaseUntil) t in
    (match n with O => None | _ => t' !! id end, t')) db.

(* 138-226 OutboxRepository.ClaimNext *)
Definition ClaimNext (leaseTTL : Z) : M OutboxDB OutboxEvent :=
  env ← ask;
  let leaseID := fresh_uuid env in
  let leaseUntil := app_now env + leaseTTL in
  transact "outbox ClaimNext" (
    sel ← exec "outbox ClaimNext SELECT" (λ e db, (select_candidate e db, db));
    match sel with
    | None => throw ErrOutboxAlreadyClaimed
    | Some id =>
        upd ← exec "outbox ClaimNext UPDATE" (claim_update leaseID leaseUntil id);
        match upd with
        | None => throw ErrOutboxRace
        | Some ev => mret (Commit ev)
        end
    end).

(** ** Statements guarded by the lease *)

(** [WHERE id = $1 AND lease_id = $2::uuid]. *)
Definition leased_by (leaseID : string) (r : OutboxEvent) : bool :=
  bool_decide (LeaseID r = Some leaseID).
Definition leased_update (id : Z) (leaseID : string) (f : Env → OutboxEvent → OutboxEvent)
    (e : Env) (db : OutboxDB) : nat * OutboxDB :=
  on_events (update_row id (leased_by leaseID) (f e)) db.

(** [Exec], [RowsAffected], and [ErrOutboxGone] when no row matched. *)
Definition exec_leased (op detail : string) (id : Z) (leaseID : string)
    (f : Env → OutboxEvent → OutboxEvent) : M OutboxDB unit :=
  k ← exec op (leased_update id leaseID f);
  n ← rows_affected op k;
  if bool_decide (n = O) then
    throw (wrap_suffix ErrOutboxGone ("id=" +:+ itoa id +:+ " (" +:+ detail +:+ ")"))
  else mret tt.

Definition stolen : string :=
  "lease_id mismatch " +:+ bytes [226; 128; 148]%N +:+ " possibly stolen".

(* 233-255 OutboxRepository.RenewLease *)
Definition RenewLease (id : Z) (leaseID : string) (leaseTTL : Z) : M OutboxDB unit :=
  if bool_decide (leaseID = "") then
    throw (errors_new ("outbox RenewLease: empty lease_id for id=" +:+ itoa id))
  else
    env ← ask;
    let leaseUntil := app_now env + leaseTTL in
    exec_leased "outbox RenewLease" "lease_id mismatch or row gone" id leaseID
      (λ _ r, mkOutboxEvent (ID r) (AggregateType r) (AggregateID r) (EventType r) (Payload r)
         (Status r) (LeaseID r) (Some leaseUntil) (AttemptCount r) (NextAttemptAt r)
         (LastError r) (CreatedAt r) (ProcessedAt r)).

(* 262-270 MarkProcessed *)
Definition processed_row (e : Env) (r : OutboxEvent) : OutboxEvent :=
  mkOutboxEvent (ID r) (AggregateType r) (AggregateID r) (EventType r) (Payload r)
    OutboxStatusProcessed None None (AttemptCount r) None None (CreatedAt r) (Some (db_now e)).
(* 260-283 OutboxRepository.MarkProcessed *)
Definition MarkProcessed (id : Z) (leaseID : string) : M OutboxDB unit :=
  exec_leased "outbox MarkProcessed" stolen id leaseID processed_row.

(* 306-311 MarkFailed *)
Definition failed_row (lastError : string) (nextAttemptAt : option Z) (r : OutboxEvent) :
    OutboxEvent :=
  mkOutboxEvent (ID r) (AggregateType r) (AggregateID r) (EventType r) (Payload r)
    (Status r) None None (AttemptCount r) nextAttemptAt (Some lastError) (CreatedAt r)
    (ProcessedAt r).
(* 296-325 OutboxRepository.MarkFailed *)
Definition MarkFailed (id : Z) (leaseID lastError : string) (backoff : option Z) :
    M OutboxDB unit :=
  if bool_decide (lastError = "") then
    throw (errors_new ("outbox MarkFailed: empty last_error for id=" +:+ itoa id))
  else
    env ← ask;
    let nextAttemptAt := (λ b, app_now env + b) <$> backoff in
    exec_leased "outbox MarkFailed" stolen id leaseID (λ _, failed_row lastError nextAttemptAt).

(** The statement does not write [last_error]. *)
(* 341-347 MarkDeadLetter *)
Definition dead_row (e : Env) (r : OutboxEvent) : OutboxEvent :=
  mkOutboxEvent (ID r) (AggregateType r) (AggregateID r) (EventType r) (Payload r)
    OutboxStatusDeadLetter None None (AttemptCount r) None (LastError r) (CreatedAt r)
    (Some (db_now e)).
(* 336-361 OutboxRepository.MarkDeadLetter *)
Definition MarkDeadLetter (id : Z) (leaseID lastError : string) : M OutboxDB unit :=
  if bool_decide (lastError = "") then
    throw (errors_new ("outbox MarkDeadLetter: empty last_error for id=" +:+ itoa id))
  else exec_leased "outbox MarkDeadLetter" stolen id leaseID dead_row.

(* 374-376 ReleaseLease *)
Definition released_row (r : OutboxEvent) : OutboxEvent :=
  mkOutboxEvent (ID r) (AggregateType r) (AggregateID r) (EventType r) (Payload r)
    (Status r) None None (AttemptCount r) (NextAttemptAt r) (LastError r) (CreatedAt r)
    (ProcessedAt r).
(* 372-386 OutboxRepository.ReleaseLease *)
Definition ReleaseLease (id : Z) (leaseID : string) : M OutboxDB unit :=
  k ← exec "outbox ReleaseLease" (leased_update id leaseID (λ _, released_row));
  _ ← try (rows_affected "outbox ReleaseLease" k);
  mret tt.

(** ** Reading *)
Definition with_status (st : string) (db : OutboxDB) : list OutboxEvent :=
  List.filter (λ r, bool_decide (Status r = st)) (map_to_list (events db)).*2.

(* 392-438 OutboxRepository.ListPending *)
Definition ListPending (limit : Z) : M OutboxDB (list OutboxEvent) :=
  let limit := if limit <=? 0 then 100 else limit in
  exec "outbox ListPending" (λ _ db,
    (take (Z.to_nat limit) (sort_by claim_le (with_status OutboxStatusPending db)), db)).
(* 451-459 OutboxRepository.CountPending *)
Definition CountPending : M OutboxDB nat :=
  exec "outbox CountPending" (λ _ db, (length (with_status OutboxStatusPending db), db)).
(* 464-472 OutboxRepository.CountDeadLetter *)
Definition CountDeadLetter : M OutboxDB nat :=
  exec "outbox CountDeadLetter" (λ _ db, (length (with_status OutboxStatusDeadLetter db), db)).

(** ** Operations of the table, as one type *)

(** Everything a replica can do to the table; the result is dropped. *)
Inductive OutboxOp :=
| OpInsert (ev : OutboxEvent)
| OpClaimNext (leaseTTL : Z)
| OpRenewLease (id : Z) (leaseID : string) (leaseTTL : Z)
| OpMarkProcessed (id : Z) (leaseID : string)
| OpMarkFailed (id : Z) (leaseID lastError : string) (backoff : option Z)
| OpMarkDeadLetter (id : Z) (leaseID lastError : string)
| OpReleaseLease (id : Z) (leaseID : string).

Definition run_op (op : OutboxOp) : M OutboxDB unit :=
  match op with
  | OpInsert ev => _ ← Insert ev; mret tt
  | OpClaimNext ttl => _ ← ClaimNext ttl; mret tt
  | OpRenewLease id l ttl => RenewLease id l ttl
  | OpMarkProcessed id l => MarkProcessed id l
  | OpMarkFailed id l er b => MarkFailed id l er b
  | OpMarkDeadLetter id l er => MarkDeadLetter id l er
  | OpReleaseLease id l => ReleaseLease id l
  end.

(** An interleaving of operations of any number of replicas, each in an
    environment of its own. *)
Definition history := list (Env * OutboxOp).
Definition run_history (h : history) (db : OutboxDB) : OutboxDB :=
  foldl (λ db eo, state_of (run_op eo.2 eo.1 (db, O))) db h.

(** ** The invariant of a row and how rows evolve *)
Record row_ok (id : Z) (r : OutboxEvent) : Prop := {
  ok_id : ID r = id;
  ok_status : Status r ∈ [OutboxStatusPending; OutboxStatusProcessed; OutboxStatusDeadLetter];
  ok_lease : LeaseID r = None ↔ LeaseUntil r = None;
  ok_leased : LeaseID r ≠ None → Status r = OutboxStatusPending ∧ 1 ≤ AttemptCount r;
  ok_final : Status r ≠ OutboxStatusPending → NextAttemptAt r = None ∧ ProcessedAt r ≠ None;
  ok_pending : Status r = OutboxStatusPending → ProcessedAt r = None;
  ok_attempts : 0 ≤ AttemptCount r;
  ok_route : AggregateType r ≠ "" ∧ EventType r ≠ "" ∧ Payload r ≠ "" ∧ 0 < AggregateID r
}.

(** The event a row carries never changes, attempts only grow, and a row that
    left [pending] is frozen. *)
Record row_evolves (r r' : OutboxEvent) : Prop := {
  ev_event : (ID r', AggregateType r', AggregateID r', EventType r', Payload r', CreatedAt r') =
             (ID r, AggregateType r, AggregateID r, EventType r, Payload r, CreatedAt r);
  ev_attempts : AttemptCount r ≤ AttemptCount r';
  ev_frozen : Status r ≠ OutboxStatusPending → r' = r
}.

Record db_ok (db : OutboxDB) : Prop := {
  ok_rows : map_Forall row_ok (events db);
  ok_serial : ∀ id, is_Some (events db !! id) → id < next_id db
}.
Definition db_grows (db db' : OutboxDB) : Prop :=
  ∀ id r, events db !! id = Some r → ∃ r', events db' !! id = Some r' ∧ row_evolves r r'.
(** What every operation does to the table, whatever the network does. *)
Definition safe_step (db db' : OutboxDB) : Prop := db_ok db → db_ok db' ∧ db_grows db db'.

#[export] Instance row_evolves_preorder : PreOrder row_evolves.
Proof.
  split.
  - intros r. by constructor.
  - intros r1 r2 r3 [E1 A1 F1] [E2 A2 F2]. constructor; [congruence|lia|].
    intros H. rewrite F2, F1; try done. by rewrite F1.
Qed.
#[export] Instance safe_step_preorder : PreOrder safe_step.
Proof.
  split.
  - intros db Hok. split; [done|]. intros id r Hr. by exists r.
  - intros d1 d2 d3 H12 H23 H1. destruct (H12 H1) as [H2 G12]. destruct (H23 H2) as [H3 G23].
    split; [done|]. intros id r Hr. destruct (G12 id r Hr) as (r2 & Hr2 & E12).
    destruct (G23 id r2 Hr2) as (r3 & Hr3 & E23). exists r3. split; [done|]. by etrans.
Qed.

(** Updating one row by a safe function is a safe step. *)
Lemma update_row_safe id p f db :
  (∀ r, row_ok id r → p r = true → row_ok id (f r) ∧ row_evolves r (f r)) →
  safe_step db (mkOutboxDB (update_row id p f (events db)).2 (next_id db)).
Proof.
  intros Hf [Hrows Hserial]. split; [split|].
  - apply update_row_all; [|done]. intros r Hr Hp. by apply Hf.
  - simpl. intros j Hj. apply Hserial. apply elem_of_dom.
    rewrite <- (update_row_dom id p f). by apply elem_of_dom.
  - intros j r Hr. simpl. destruct (decide (j = id)) as [->|Hne].
    + rewrite (update_row_row _ _ _ _ _ Hr). eexists. split; [done|].
      destruct (p r) eqn:Hp; [|done]. apply Hf; [by apply Hrows|done].
    + rewrite update_row_other by done. by exists r.
Qed.

Lemma on_events_update id p f db :
  (on_events (update_row id p f) db).2 = mkOutboxDB (update_row id p f (events db)).2 (next_id db).
Proof. unfold on_events. by destruct (update_row id p f (events db)). Qed.

Lemma claim_update_state leaseID leaseUntil id e db :
  (claim_update leaseID leaseUntil id e db).2 =
  mkOutboxDB (update_row id
      (λ r, bool_decide (Status r = OutboxStatusPending) && lease_free (db_now e) r)
      (claim_row leaseID leaseUntil) (events db)).2 (next_id db).
Proof. unfold claim_update, on_events. by destruct (update_row _ _ _ _). Qed.

Lemma leased_by_spec l r : leased_by l r = true ↔ LeaseID r = Some l.
Proof. apply bool_decide_eq_true. Qed.

Lemma exec_leased_safe op detail id l f :
  (∀ e r, row_ok id r → LeaseID r = Some l → row_ok id (f e r) ∧ row_evolves r (f e r)) →
  respects safe_step (exec_leased op detail id l f).
Proof.
  intros Hf. unfold exec_leased. respects_tac. apply respects_exec; [apply _|].
  intros e db. unfold leased_update. rewrite on_events_update. apply update_row_safe.
  intros r Hr Hl%leased_by_spec. by apply Hf.
Qed.

(** The rows the leased statements write. *)
Ltac safe_row :=
  let e := fresh "e" in let r := fresh "r" in let H := fresh "H" in let Hl := fresh "Hl" in
  intros e r H Hl; destruct H as [? ? Hlease Hp ? ? ? ?];
  destruct Hp as [Hpend ?]; [by rewrite Hl|]; rewrite Hl in Hlease;
  split; constructor; simpl; try done;
  solve [lia | set_solver | naive_solver lia].

Lemma claim_row_safe id leaseID leaseUntil r :
  row_ok id r → Status r = OutboxStatusPending →
  row_ok id (claim_row leaseID leaseUntil r) ∧ row_evolves r (claim_row leaseID leaseUntil r).
Proof. intros [] Hp. split; constructor; simpl; try done; naive_solver lia. Qed.

Lemma insert_safe ev : respects safe_step (Insert ev).
Proof.
  unfold Insert. destruct (_ || _) eqn:E; [apply respects_throw, _|].
  destruct (Z.leb_spec (AggregateID ev) 0) as [|Hagg]; [apply respects_throw, _|].
  apply orb_false_iff in E as [[Ha Hb]%orb_false_iff Hc].
  apply bool_decide_eq_false in Ha, Hb, Hc.
  respects_tac. apply respects_exec; [apply _|]. intros e db Hok. simpl.
  assert (Hnew : events db !! next_id db = None).
  { apply eq_None_not_Some. intros Hs%(ok_serial _ Hok). lia. }
  split; [split|]; simpl.
  - apply map_Forall_insert_2; [|apply Hok]. constructor; simpl; try done; set_solver.
  - intros id [?|?]%lookup_insert_is_Some'; [lia|]. apply (ok_serial _ Hok) in H. lia.
  - intros id r Hr. exists r. split; [|done]. simpl. rewrite lookup_insert_ne by congruence. done.
Qed.

Lemma ClaimNext_safe ttl : respects safe_step (ClaimNext ttl).
Proof.
  unfold ClaimNext. respects_tac; (apply respects_exec; [apply _|]; intros e db).
  - reflexivity.
  - rewrite claim_update_state. apply update_row_safe.
    intros r Hr [Hp _]%andb_true_iff. apply bool_decide_eq_true in Hp. by apply claim_row_safe.
Qed.

Lemma run_op_safe op : respects safe_step (run_op op).
Proof.
  destruct op as [ev|ttl|id l ttl|id l|id l er b|id l er|id l]; simpl.
  - respects_tac. apply insert_safe.
  - respects_tac. apply ClaimNext_safe.
  - unfold RenewLease. respects_tac. apply exec_leased_safe. safe_row.
  - apply exec_leased_safe. safe_row.
  - unfold MarkFailed. respects_tac. apply exec_leased_safe. safe_row.
  - unfold MarkDeadLetter. respects_tac. apply exec_leased_safe. safe_row.
  - unfold ReleaseLease. respects_tac. apply respects_exec; [apply _|]. intros e db.
    unfold leased_update. rewrite on_events_update. apply update_row_safe.
    intros r Hr Hl%leased_by_spec. revert r Hr Hl. revert e. safe_row.
Qed.

Lemma run_history_safe h db : safe_step db (run_history h db).
Proof.
  revert db. induction h as [|[e op] h IH]; intros db; [reflexivity|].
  etrans; [|apply IH]. apply (run_op_safe op e db O).
Qed.

(** ** The choice of the candidate *)
Definition null_rank (r : OutboxEvent) : Z :=
  match NextAttemptAt r with None => 0 | Some _ => 1 end.
Lemma claim_le_spec r1 r2 :
  let v r := default 0 (NextAttemptAt r) in
  claim_le r1 r2 = true ↔
  null_rank r1 < null_rank r2 ∨ null_rank r1 = null_rank r2 ∧
    (v r1 < v r2 ∨ v r1 = v r2 ∧
      (CreatedAt r1 < CreatedAt r2 ∨ CreatedAt r1 = CreatedAt r2 ∧ ID r1 ≤ ID r2)).
Proof.
  intros v. unfold claim_le, null_rank, v.
  rewrite !orb_true_iff, !andb_true_iff, !orb_true_iff, !andb_true_iff, !orb_true_iff,
    !andb_true_iff, !Z.ltb_lt, !Z.eqb_eq, Z.leb_le. done.
Qed.
Lemma claim_le_total r1 r2 : claim_le r1 r2 = false → claim_le r2 r1 = true.
Proof. rewrite <- not_true_iff_false, !claim_le_spec. lia. Qed.
Lemma claim_le_trans r1 r2 r3 :
  claim_le r1 r2 = true → claim_le r2 r3 = true → claim_le r1 r3 = true.
Proof. rewrite !claim_le_spec. lia. Qed.

Lemma first_row_spec l :
  match first_row l with
  | Some m => m ∈ l ∧ ∀ r, r ∈ l → claim_le m r = true
  | None => l = []
  end.
Proof.
  induction l as [|r l IH]; simpl; [done|].
  assert (Hrefl : ∀ x, claim_le x x = true).
  { intros x. destruct (claim_le x x) eqn:E; [done|]. by rewrite (claim_le_total _ _ E) in E. }
  destruct (first_row l) as [m|].
  - destruct IH as [Hm Hmin]. destruct (claim_le r m) eqn:E.
    + split; [by left|]. intros x [->|Hx]%elem_of_cons; [done|].
      eapply claim_le_trans; [done|auto].
    + split; [by right|]. intros x [->|Hx]%elem_of_cons; [by apply claim_le_total|auto].
  - subst. split; [by left|]. intros x [->|Hx]%elem_of_cons; [done|]. by apply elem_of_nil in Hx.
Qed.

Lemma candidates_spec e db r :
  db_ok db →
  r ∈ candidates e db ↔
  events db !! ID r = Some r ∧ claimable (db_now e) r = true ∧ held e (ID r) = false.
Proof.
  intros Hok. unfold candidates. rewrite list_elem_of_In, filter_In, <- list_elem_of_In.
  rewrite andb_true_iff, negb_true_iff, list_elem_of_fmap. split.
  - intros [([id r'] & -> & Hr%elem_of_map_to_list) H]. simpl in *.
    assert (id = ID r') as -> by (symmetry; apply (ok_rows _ Hok _ _ Hr)). done.
  - intros [Hr H]. split; [|done]. exists (ID r, r). split; [done|].
    by apply elem_of_map_to_list.
Qed.

(** ** Properties *)

(** C24: the outbox table is safe under any interleaving.  Whatever sequence of
    operations any number of replicas run, with whatever lease ids, clocks
    and lost or unacknowledged statements: the row invariant is preserved,
    no event is ever lost or altered, the attempt counter never decreases,
    and a row that reached [processed] or [dead_letter] is never changed
    again. *)
Theorem outbox_interleaving_safe (h : history) (db : OutboxDB) (Hok : db_ok db) :
  db_ok (run_history h db) ∧
  ∀ id r, events db !! id = Some r →
    ∃ r', events (run_history h db) !! id = Some r' ∧
      Payload r' = Payload r ∧ AggregateID r' = AggregateID r ∧ EventType r' = EventType r ∧
      AttemptCount r ≤ AttemptCount r' ∧
      (Status r ≠ OutboxStatusPending → r' = r).
Proof.
  destruct (run_history_safe h db Hok) as [Hok' Hg]. split; [done|].
  intros id r Hr. destruct (Hg id r Hr) as (r' & Hr' & [Hev Ha Hf]).
  exists r'. by simplify_eq/=.
Qed.

(** Sample environments and tables for the examples. *)
Definition ok_env (now : Z) (uuid : string) : Env :=
  mkEnv now now (λ _, Fine) (λ _, false) (λ _, false) uuid.
Definition sample_event : OutboxEvent :=
  mkOutboxEvent 0 "post_target" 7 "publish" "{}" "" None None 0 None None 0 None.
Definition empty_db : OutboxDB := mkOutboxDB ∅ 1.
Lemma empty_db_ok : db_ok empty_db.
Proof.
  split; [apply map_Forall_empty|]. intros id. simpl. rewrite lookup_empty.
  intros [? [=]].
Qed.

Lemma outbox_interleaving_safe_witness :
  let h1 := [(ok_env 100 "a", OpInsert sample_event); (ok_env 101 "a", OpClaimNext 60);
             (ok_env 102 "a", OpMarkProcessed 1 "a")] in
  let db := run_history h1 empty_db in
  let h2 := [(ok_env 200 "b", OpClaimNext 60); (ok_env 201 "b", OpMarkDeadLetter 1 "a" "boom");
             (mkEnv 202 202 (λ _, Unacked) (λ _, false) (λ _, false) "b", OpReleaseLease 1 "a")] in
  db_ok db ∧ Status <$> events db !! 1 = Some OutboxStatusProcessed ∧
  events (run_history h2 db) !! 1 = events db !! 1.
Proof.
  intros h1 db h2.
  assert (Hok : db_ok db) by exact (proj1 (outbox_interleaving_safe h1 empty_db empty_db_ok)).
  split; [exact Hok|]. split; [vm_compute; reflexivity|].
  destruct (events db !! 1) as [r|] eqn:Hr; [|vm_compute in Hr; discriminate].
  destruct (proj2 (outbox_interleaving_safe h2 db Hok) 1 r Hr) as (r' & Hr' & _ & _ & _ & _ & Hf).
  rewrite Hr'. f_equal. apply Hf. vm_compute in Hr. injection Hr as <-. vm_compute. discriminate.
Defined.

(** The transaction of [ClaimNext] on a database that answers. *)
Lemma ClaimNext_run ttl e db n :
  reliable e →
  ∃ n', ClaimNext ttl e (db, n) =
    match select_candidate e db with
    | None => (inl ErrOutboxAlreadyClaimed, (db, n'))
    | Some id =>
        match claim_update (fresh_uuid e) (app_now e + ttl) id e db with
        | (None, _) => (inl ErrOutboxRace, (db, n'))
        | (Some ev, db') => (inr ev, (db', n'))
        end
    end.
Proof.
  intros Hrel. unfold ClaimNext.
  erewrite bind_run by reflexivity. unfold transact. rewrite Hrel.
  erewrite bind_run by apply exec_fine, Hrel. simpl.
  destruct (select_candidate e db) as [id|]; [|by eexists].
  unfold mbind, M_bind. rewrite exec_fine by done.
  destruct (claim_update _ _ id e db) as [[ev|] db'] eqn:E; simpl; [|by eexists].
  rewrite Hrel. by eexists.
Qed.

Lemma first_candidate e db id :
  db_ok db → select_candidate e db = Some id →
  ∃ r, events db !! id = Some r ∧ r ∈ candidates e db ∧
    ∀ r', r' ∈ candidates e db → claim_le r r' = true.
Proof.
  intros Hok. unfold select_candidate. pose proof (first_row_spec (candidates e db)) as H.
  destruct (first_row (candidates e db)) as [m|]; [|done]. intros [= <-].
  destruct H as [Hm Hmin]. exists m. split; [|done].
  by apply (candidates_spec e db m Hok) in Hm as [? _].
Qed.

(** The guard of the UPDATE repeats that of the SELECT inside one transaction
    at one [now()], so the candidate never gets away. *)
Lemma claim_update_hit leaseID leaseUntil id e db r :
  events db !! id = Some r → claimable (db_now e) r = true →
  claim_update leaseID leaseUntil id e db =
  (Some (claim_row leaseID leaseUntil r),
   mkOutboxDB (<[id := claim_row leaseID leaseUntil r]> (events db)) (next_id db)).
Proof.
  intros Hr [[Hp Hl]%andb_true_iff _]%andb_true_iff. unfold claim_update, on_events.
  rewrite (update_row_hit _ _ _ _ r) by (done || by rewrite Hp, Hl).
  by rewrite lookup_insert_eq.
Qed.

Lemma ClaimNext_not_race ttl e db n er :
  db_ok db → result_of (ClaimNext ttl e (db, n)) = inl er → errors_is er "ErrOutboxRace" = false.
Proof.
  intros Hok. unfold ClaimNext, result_of, mbind, M_bind, ask, transact.
  destruct (fault e n); simpl; [|intros [= <-]; decide_closed..].
  unfold exec at 1. destruct (fault e (S n)); simpl; [|intros [= <-]; decide_closed..].
  destruct (select_candidate e db) as [id|] eqn:Hs; simpl; [|intros [= <-]; decide_closed].
  unfold exec. destruct (fault e (S (S n))); simpl; [|intros [= <-]; decide_closed..].
  destruct (first_candidate _ _ _ Hok Hs) as (r & Hr & Hc & _).
  apply (candidates_spec e db r Hok) in Hc as (_ & Hcl & _).
  rewrite (claim_update_hit _ _ _ _ _ r) by done. simpl.
  destruct (fault e _); simpl; [done|intros [= <-]; decide_closed..].
Qed.

(** [ClaimNext] takes the right row and only that row.  On a table that
    answers it reports an empty queue exactly when no pending row is due,
    unleased and unlocked; otherwise it stamps the first such row in the
    claim order with the fresh lease, counts one attempt, returns that row,
    and leaves every other row alone.  The [ErrOutboxRace] branch is never
    taken, even when statements fail. *)
Theorem ClaimNext_correct (ttl : Z) (e : Env) (db : OutboxDB) (n : nat) (Hok : db_ok db) :
  (reliable e →
   (candidates e db = [] ∧ result_of (ClaimNext ttl e (db, n)) = inl ErrOutboxAlreadyClaimed ∧
      state_of (ClaimNext ttl e (db, n)) = db) ∨
   ∃ r, let r' := claim_row (fresh_uuid e) (app_now e + ttl) r in
     events db !! ID r = Some r ∧ claimable (db_now e) r = true ∧ held e (ID r) = false ∧
     (∀ x, x ∈ candidates e db → claim_le r x = true) ∧
     result_of (ClaimNext ttl e (db, n)) = inr r' ∧
     state_of (ClaimNext ttl e (db, n)) = mkOutboxDB (<[ID r := r']> (events db)) (next_id db)) ∧
  (∀ er, result_of (ClaimNext ttl e (db, n)) = inl er → errors_is er "ErrOutboxRace" = false).
Proof.
  split.
  - intros Hrel. destruct (ClaimNext_run ttl e db n Hrel) as [n' ->].
    destruct (select_candidate e db) as [id|] eqn:Hs.
    + right. destruct (first_candidate _ _ _ Hok Hs) as (r & Hr & Hc & Hmin).
      apply (candidates_spec e db r Hok) in Hc as (Hr' & Hcl & Hh).
      assert (id = ID r) as -> by (symmetry; apply (ok_rows _ Hok _ _ Hr)).
      rewrite (claim_update_hit _ _ _ _ _ r) by done. by exists r.
    + left. split; [|done]. unfold select_candidate in Hs.
      pose proof (first_row_spec (candidates e db)) as H.
      by destruct (first_row (candidates e db)).
  - intros er. by apply ClaimNext_not_race.
Qed.

Lemma ClaimNext_correct_witness :
  db_ok (run_history [(ok_env 100 "a", OpInsert sample_event)] empty_db) ∧
  ∃ r, result_of (ClaimNext 60 (ok_env 105 "b")
         (run_history [(ok_env 100 "a", OpInsert sample_event)] empty_db, O)) =
       inr (claim_row "b" 165 r).
Proof.
  assert (Hok : db_ok (run_history [(ok_env 100 "a", OpInsert sample_event)] empty_db))
    by exact (proj1 (run_history_safe _ _ empty_db_ok)).
  split; [exact Hok|].
  destruct (proj1 (ClaimNext_correct 60 (ok_env 105 "b") _ O Hok) (λ _, eq_refl))
    as [(Hc & _)|(r & _ & _ & _ & _ & Hr & _)].
  - vm_compute in Hc. discriminate.
  - exists r. exact Hr.
Defined.

(** ** Fencing *)

(** What a leased statement does when the database answers. *)
Lemma exec_leased_run op detail id l f e db n :
  reliable e →
  ∃ n', exec_leased op detail id l f e (db, n) =
    match events db !! id with
    | Some r =>
        if leased_by l r
        then (inr tt, (mkOutboxDB (<[id := f e r]> (events db)) (next_id db), n'))
        else (inl (wrap_suffix ErrOutboxGone ("id=" +:+ itoa id +:+ " (" +:+ detail +:+ ")")),
              (db, n'))
    | None =>
        (inl (wrap_suffix ErrOutboxGone ("id=" +:+ itoa id +:+ " (" +:+ detail +:+ ")")),
         (db, n'))
    end.
Proof.
  intros Hrel. unfold exec_leased.
  erewrite bind_run by apply exec_fine, Hrel.
  erewrite bind_run by apply rows_fine, Hrel.
  unfold leased_update, on_events, update_row. destruct db as [t k]. simpl.
  destruct (t !! id) as [r|]; [|by eexists].
  by destruct (leased_by l r); eexists.
Qed.

(** Whatever the network does, a statement whose lease does not match leaves
    the table alone and fails. *)
Lemma exec_leased_stale op detail id l f e db n :
  (∀ r, events db !! id = Some r → LeaseID r ≠ Some l) →
  state_of (exec_leased op detail id l f e (db, n)) = db ∧
  ∃ er, result_of (exec_leased op detail id l f e (db, n)) = inl er.
Proof.
  intros Hst. unfold exec_leased, mbind, M_bind, rows_affected, exec.
  assert (Hu : leased_update id l f e db = (O, db)).
  { unfold leased_update, on_events. rewrite update_row_miss; [by destruct db|].
    intros r Hr. apply bool_decide_eq_false. by apply Hst. }
  rewrite Hu. destruct (fault e n); simpl; [|by eauto..].
  destruct (fault e (S n)); simpl; by eauto.
Qed.

Lemma leased_update_miss id l f e db :
  (∀ r, events db !! id = Some r → LeaseID r ≠ Some l) → leased_update id l f e db = (O, db).
Proof.
  intros Hst. unfold leased_update, on_events. rewrite update_row_miss; [by destruct db|].
  intros r Hr. apply bool_decide_eq_false. by apply Hst.
Qed.
Lemma leased_update_hit id l f e db r :
  events db !! id = Some r → LeaseID r = Some l →
  leased_update id l f e db = (1%nat, mkOutboxDB (<[id := f e r]> (events db)) (next_id db)).
Proof.
  intros Hr Hl. unfold leased_update, on_events.
  rewrite (update_row_hit _ _ _ _ r) by (done || by apply leased_by_spec). done.
Qed.

Lemma ReleaseLease_stale id l e db n :
  (∀ r, events db !! id = Some r → LeaseID r ≠ Some l) →
  state_of (ReleaseLease id l e (db, n)) = db.
Proof.
  intros Hst. unfold ReleaseLease, mbind, M_bind, try, rows_affected, exec.
  rewrite leased_update_miss by done. destruct (fault e n); simpl; [|done..].
  by destruct (fault e (S n)).
Qed.
Lemma ReleaseLease_hit id l e db n r :
  events db !! id = Some r → LeaseID r = Some l → reliable e →
  result_of (ReleaseLease id l e (db, n)) = inr tt ∧
  state_of (ReleaseLease id l e (db, n)) =
    mkOutboxDB (<[id := released_row r]> (events db)) (next_id db).
Proof.
  intros Hr Hl Hrel. unfold ReleaseLease, mbind, M_bind, try, rows_affected, exec.
  rewrite Hrel, (leased_update_hit _ _ _ _ _ r) by done. simpl. by rewrite Hrel.
Qed.

(** The operations that present a lease, and what they write. *)
Definition op_lease (op : OutboxOp) : option (Z * string) :=
  match op with
  | OpInsert _ | OpClaimNext _ => None
  | OpRenewLease id l _ | OpMarkProcessed id l | OpMarkFailed id l _ _
  | OpMarkDeadLetter id l _ | OpReleaseLease id l => Some (id, l)
  end.
(** Rejected before any statement is sent. *)
Definition op_rejected (op : OutboxOp) : bool :=
  match op with
  | OpRenewLease _ l _ => bool_decide (l = "")
  | OpMarkFailed _ _ er _ | OpMarkDeadLetter _ _ er => bool_decide (er = "")
  | _ => false
  end.
Definition op_write (op : OutboxOp) (e : Env) (r : OutboxEvent) : OutboxEvent :=
  match op with
  | OpRenewLease _ _ ttl =>
      mkOutboxEvent (ID r) (AggregateType r) (AggregateID r) (EventType r) (Payload r)
        (Status r) (LeaseID r) (Some (app_now e + ttl)) (AttemptCount r) (NextAttemptAt r)
        (LastError r) (CreatedAt r) (ProcessedAt r)
  | OpMarkProcessed _ _ => processed_row e r
  | OpMarkFailed _ _ er b => failed_row er ((λ d, app_now e + d) <$> b) r
  | OpMarkDeadLetter _ _ _ => dead_row e r
  | OpReleaseLease _ _ => released_row r
  | _ => r
  end.
Definition is_release (op : OutboxOp) : bool :=
  match op with OpReleaseLease _ _ => true | _ => false end.

(** C17: leases fence.  An operation that presents a lease its row does not
    carry, because a peer re-claimed it, finished it or the row is missing,
    changes nothing, whatever fails, and except for [ReleaseLease] reports an
    error, which is [ErrOutboxGone] when the database answers and the
    arguments are accepted.  One that presents the right lease writes exactly
    its row: processed, scheduled for retry, dead-lettered, renewed or
    released; an empty error text or lease id is refused before anything is
    written. *)
Theorem lease_fencing (op : OutboxOp) (id : Z) (l : string) (e : Env) (db : OutboxDB) (n : nat)
    (Hop : op_lease op = Some (id, l)) :
  let run := run_op op e (db, n) in
  ((∀ r, events db !! id = Some r → LeaseID r ≠ Some l) →
     state_of run = db ∧
     (is_release op = false → ∃ er, result_of run = inl er ∧
        (reliable e → op_rejected op = false → errors_is er "ErrOutboxGone" = true))) ∧
  (op_rejected op = true → state_of run = db ∧ ∃ er, result_of run = inl er) ∧
  (∀ r, events db !! id = Some r → LeaseID r = Some l → reliable e → op_rejected op = false →
     result_of run = inr tt ∧
     state_of run = mkOutboxDB (<[id := op_write op e r]> (events db)) (next_id db)).
Proof.
  assert (Hgone : ∀ detail, errors_is (wrap_suffix ErrOutboxGone detail) "ErrOutboxGone" = true)
    by done.
  assert (Hgen : ∀ o d f, let run := exec_leased o d id l f e (db, n) in
    ((∀ r, events db !! id = Some r → LeaseID r ≠ Some l) →
      state_of run = db ∧ ∃ er, result_of run = inl er ∧
        (reliable e → errors_is er "ErrOutboxGone" = true)) ∧
    (∀ r, events db !! id = Some r → LeaseID r = Some l → reliable e →
      result_of run = inr tt ∧
      state_of run = mkOutboxDB (<[id := f e r]> (events db)) (next_id db))).
  { intros o d f run. split.
    - intros Hst. destruct (exec_leased_stale o d id l f e db n Hst) as [Hs (er & Her)].
      split; [done|]. exists er. split; [done|]. intros Hrel.
      destruct (exec_leased_run o d id l f e db n Hrel) as [n' Hrun]. rewrite Hrun in Her.
      destruct (events db !! id) as [r|] eqn:Hr; [|by simplify_eq/=].
      destruct (leased_by l r) eqn:Hl; [|by simplify_eq/=].
      apply leased_by_spec in Hl. by destruct (Hst r).
    - intros r Hr Hl Hrel. unfold run.
      destruct (exec_leased_run o d id l f e db n Hrel) as [n' ->].
      rewrite Hr. apply leased_by_spec in Hl. by rewrite Hl. }
  intros run. subst run.
  destruct op as [ev|ttl|id' l' ttl|id' l'|id' l' er b|id' l' er|id' l']; simplify_eq/=.
  - unfold RenewLease. case_bool_decide; simpl; [by naive_solver|].
    unfold mbind, M_bind, ask. destruct (Hgen "outbox RenewLease" "lease_id mismatch or row gone"
      (λ _ r, op_write (OpRenewLease id l ttl) e r)) as [H1 H2]. naive_solver.
  - destruct (Hgen "outbox MarkProcessed" stolen processed_row) as [H1 H2]. naive_solver.
  - unfold MarkFailed. case_bool_decide; simpl; [by naive_solver|].
    unfold mbind, M_bind, ask. destruct (Hgen "outbox MarkFailed" stolen
      (λ _, failed_row er ((λ d, app_now e + d) <$> b))) as [H1 H2]. naive_solver.
  - unfold MarkDeadLetter. case_bool_decide; simpl; [by naive_solver|].
    destruct (Hgen "outbox MarkDeadLetter" stolen dead_row) as [H1 H2]. naive_solver.
  - split; [|split; [done|]].
    + intros Hst. split; [by apply ReleaseLease_stale|done].
    + intros r Hr Hl Hrel _. by apply ReleaseLease_hit.
Qed.

Lemma lease_fencing_witness :
  let db := run_history [(ok_env 100 "a", OpInsert sample_event); (ok_env 101 "a", OpClaimNext 60);
                         (ok_env 200 "b", OpClaimNext 60)] empty_db in
  op_lease (OpMarkProcessed 1 "a") = Some (1, "a") ∧
  state_of (run_op (OpMarkProcessed 1 "a") (ok_env 201 "a") (db, O)) = db ∧
  result_of (run_op (OpMarkProcessed 1 "b") (ok_env 202 "b") (db, O)) = inr tt.
Proof.
  intros db.
  assert (Hdb : ∃ r, events db !! 1 = Some r ∧ LeaseID r = Some "b").
  { vm_compute. eexists. split; reflexivity. }
  destruct Hdb as (r & Hr & Hl).
  split; [reflexivity|]. split.
  - refine (proj1 (proj1 (lease_fencing (OpMarkProcessed 1 "a") 1 "a" _ db O eq_refl) _)).
    intros r' Hr'. rewrite Hr in Hr'. injection Hr' as <-. rewrite Hl. discriminate.
  - exact (proj1 (proj2 (proj2 (lease_fencing (OpMarkProcessed 1 "b") 1 "b" (ok_env 202 "b") db O
             eq_refl)) r Hr Hl (λ _, eq_refl) eq_refl)).
Defined.

(** ** Exclusion *)

(** [e] and [op] leave the lease [l], valid until [u], on row [id] alone: the
    operation does not present that lease, and if it claims, the server clock
    has not passed [u] and its own lease is fresh. *)
Definition respects_lease (id : Z) (l : string) (u : Z) (eo : Env * OutboxOp) : Prop :=
  op_lease eo.2 ≠ Some (id, l) ∧ db_now eo.1 ≤ u.

Lemma exec_leased_other op detail id l id' l' f e db n r :
  events db !! id = Some r → LeaseID r = Some l → (id', l') ≠ (id, l) →
  events (state_of (exec_leased op detail id' l' f e (db, n))) !! id = Some r.
Proof.
  intros Hr Hl Hne.
  destruct (decide (id' = id)) as [->|Hid].
  - destruct (exec_leased_stale op detail id l' f e db n) as [-> _]; [|done].
    intros r' Hr'. simplify_eq. congruence.
  - unfold exec_leased, mbind, M_bind, rows_affected, exec, leased_update, on_events, state_of.
    assert (Hu : (update_row id' (leased_by l') (f e) (events db)).2 !! id = Some r)
      by (by rewrite update_row_other).
    destruct (update_row id' (leased_by l') (f e) (events db)) as [k t].
    destruct (fault e n); simpl; [|done..]. destruct (fault e (S n)); simpl; [|done..].
    by case_bool_decide.
Qed.

Lemma claim_update_keeps leaseID leaseUntil id' id e db r u :
  events db !! id = Some r → LeaseUntil r = Some u → db_now e ≤ u →
  events (claim_update leaseID leaseUntil id' e db).2 !! id = Some r.
Proof.
  intros Hr Hu Hnow. rewrite claim_update_state. simpl.
  destruct (decide (id' = id)) as [->|Hid]; [|by rewrite update_row_other].
  rewrite update_row_miss; [done|]. intros r' Hr'. simplify_eq.
  unfold lease_free. rewrite Hu, andb_false_iff. right. lia.
Qed.

Lemma ClaimNext_keeps ttl id e db n r u :
  events db !! id = Some r → LeaseUntil r = Some u → db_now e ≤ u →
  events (state_of (ClaimNext ttl e (db, n))) !! id = Some r.
Proof.
  intros Hr Hu Hnow. unfold ClaimNext, mbind, M_bind, ask, transact, state_of.
  destruct (fault e n); simpl; [|done..].
  unfold exec at 1. destruct (fault e (S n)); simpl; [|done..].
  destruct (select_candidate e db) as [id'|]; simpl; [|done].
  unfold exec. destruct (fault e (S (S n))); simpl; [|done..].
  pose proof (claim_update_keeps (fresh_uuid e) (app_now e + ttl) id' id e db r u Hr Hu Hnow) as H.
  destruct (claim_update _ _ id' e db) as [[ev|] db']; simpl; [|done].
  by destruct (fault e _).
Qed.

Lemma Insert_keeps ev id e db n r :
  db_ok db → events db !! id = Some r →
  events (state_of (Insert ev e (db, n))) !! id = Some r.
Proof.
  intros Hok Hr. unfold Insert. destruct (_ || _); [done|]. destruct (_ <=? _); [done|].
  assert (Hi : events (insert_row ev e db).2 !! id = Some r).
  { simpl. rewrite lookup_insert_ne; [done|]. intros <-.
    assert (H : next_id db < next_id db) by (apply (ok_serial _ Hok); eauto). lia. }
  unfold mbind, M_bind, exec, state_of. by destruct (fault e n).
Qed.

Lemma op_keeps_lease id l u e op db r :
  db_ok db → events db !! id = Some r → LeaseID r = Some l → LeaseUntil r = Some u →
  respects_lease id l u (e, op) →
  events (state_of (run_op op e (db, O))) !! id = Some r.
Proof.
  intros Hok Hr Hl Hu [Hop Hnow]. simpl in Hop, Hnow.
  assert (Hb : ∀ A (m : M OutboxDB A), state_of ((_ ← m; mret tt) e (db, O)) =
    state_of (m e (db, O))).
  { intros A m. unfold mbind, M_bind, state_of. by destruct (m e (db, O)) as [[?|?] ?]. }
  destruct op as [ev|ttl|id' l' ttl|id' l'|id' l' er b|id' l' er|id' l']; simpl in *.
  - rewrite Hb. by apply Insert_keeps.
  - rewrite Hb. by eapply ClaimNext_keeps.
  - unfold RenewLease. case_bool_decide; [done|].
    apply exec_leased_other with l; [done|done|congruence].
  - apply exec_leased_other with l; [done|done|congruence].
  - unfold MarkFailed. case_bool_decide; [done|].
    apply exec_leased_other with l; [done|done|congruence].
  - unfold MarkDeadLetter. case_bool_decide; [done|].
    apply exec_leased_other with l; [done|done|congruence].
  - destruct (decide (id' = id)) as [->|Hid].
    + rewrite ReleaseLease_stale; [done|]. intros r' Hr'. simplify_eq. congruence.
    + unfold ReleaseLease, mbind, M_bind, try, rows_affected, exec, leased_update, on_events,
        state_of.
      assert (Hk : (update_row id' (leased_by l') released_row (events db)).2 !! id = Some r)
        by (by rewrite update_row_other).
      destruct (update_row id' (leased_by l') released_row (events db)) as [k t].
      destruct (fault e O); simpl; [|done..]. by destruct (fault e 1%nat).
Qed.

(** A lease is exclusive while it lasts.  As long as the server clock has
    not passed the expiry of the lease on a row, no interleaving of
    operations that do not present that very lease, claims of other
    replicas and marks with stale leases included, can touch the row. *)
Theorem lease_exclusive (h : history) (db : OutboxDB) (id : Z) (r : OutboxEvent)
    (l : string) (u : Z)
    (Hok : db_ok db) (Hr : events db !! id = Some r)
    (Hl : LeaseID r = Some l) (Hu : LeaseUntil r = Some u)
    (Hh : Forall (respects_lease id l u) h) :
  events (run_history h db) !! id = Some r.
Proof.
  revert db Hok Hr. induction Hh as [|[e op] h Heo _ IH]; intros db Hok Hr; [done|].
  apply IH.
  - by apply (run_op_safe op e db O).
  - by apply op_keeps_lease with l u.
Qed.

Lemma lease_exclusive_witness :
  let db := run_history [(ok_env 100 "a", OpInsert sample_event);
                         (ok_env 101 "a", OpClaimNext 60)] empty_db in
  let h := [(ok_env 150 "b", OpClaimNext 60); (ok_env 160 "b", OpMarkProcessed 1 "b")] in
  Forall (respects_lease 1 "a" 161) h ∧ events (run_history h db) !! 1 = events db !! 1.
Proof.
  intros db h.
  assert (Hh : Forall (respects_lease 1 "a" 161) h).
  { repeat constructor; vm_compute; discriminate. }
  split; [exact Hh|].
  assert (Hok : db_ok db) by exact (proj1 (run_history_safe _ _ empty_db_ok)).
  destruct (events db !! 1) as [r|] eqn:Hr; [|vm_compute in Hr; discriminate].
  apply (lease_exclusive h db 1 r "a" 161 Hok Hr);
    [vm_compute in Hr; injection Hr as <-; reflexivity..|exact Hh].
Defined.
