(* ===== verification/Dispatcher.v ===== *)
(** * The outbox dispatcher

    [src/internal/outbox/dispatcher.go] and [dispatcher_mark.go]: claim,
    heartbeat, process, mark.  The dispatcher is written against the interface
    [OutboxStore]; what it relies on is the class [OutboxStoreLaws], which the
    repository of [Outbox.v] satisfies.

    The adapter ([ProcessFunc]), the clock and the network are outside the
    program.  A [Turn] fixes what they do during one iteration of the drain
    loop: the environment of the claim, the environments of the heartbeat ticks
    that fire before the adapter returns, the adapter's outcome on the claimed
    event, the random source of the backoff, and the environment of the mark.
    The heartbeat goroutine is stopped and awaited before the mark, so its
    renewals come between the claim and the mark, in order. *)

From S2P Require Import Prelude Store Backoff Outbox.
From Stdlib Require Import ZArith Lia.
Local Open Scope Z_scope.

(* Source: internal/outbox/dispatcher.go *)
Definition ErrTerminal : err := sentinel "ErrTerminal" (* 124 *)
  ("outbox: terminal error (do not retry " +:+ bytes [226; 128; 148]%N +:+ " go to DLQ)").
Definition ErrPartialPersistence : err := sentinel "ErrPartialPersistence" (* 136 *)
  "outbox partial persistence (side-effect ran; outbox row's mark* failed)".

(* 143-149 OutboxStore *)
Record OutboxStore (S : Type) := mkOutboxStore {
  s_ClaimNext : Z → M S (option OutboxEvent);
  s_RenewLease : Z → string → Z → M S unit;
  s_MarkProcessed : Z → string → M S unit;
  s_MarkFailed : Z → string → string → option Z → M S unit;
  s_MarkDeadLetter : Z → string → string → M S unit
}.
Arguments s_ClaimNext {S}. Arguments s_RenewLease {S}. Arguments s_MarkProcessed {S}.
Arguments s_MarkFailed {S}. Arguments s_MarkDeadLetter {S}.

(** What a [ProcessFunc] does: return an error or nil, or panic. *)
Inductive Outcome := Returned (e : option err) | Panicked (text : string).

(* 169-186 Default tunables *)
Definition DefaultLeaseTTL : Z := 60 * Second.
Definition DefaultHeartbeatInterval : Z := 20 * Second. (* 174 *)
Definition DefaultMaxAttempts : Z := 5. (* 178 *)
Definition DefaultBaseDelay : Z := 1 * Second. (* 179 *)
Definition DefaultCapDelay : Z := 1 * Hour. (* 180 *)
Definition DefaultTickInterval : Z := 5 * Second. (* 185 *)

(** The logger is left out; nil interfaces and functions are [None]. *)
(* 190-205 DispatcherConfig *)
Record DispatcherConfig (S : Type) := mkDispatcherConfig {
  OutboxStore_ : option (OutboxStore S);
  Process : option (OutboxEvent → Outcome);
  LeaseTTL : Z;
  HeartbeatInterval : Z;
  MaxAttempts : Z;
  BaseDelay : Z;
  CapDelay : Z;
  TickInterval : Z
}.
Arguments OutboxStore_ {S}. Arguments Process {S}. Arguments LeaseTTL {S}.
Arguments HeartbeatInterval {S}. Arguments MaxAttempts {S}. Arguments BaseDelay {S}.
Arguments CapDelay {S}. Arguments TickInterval {S}.

(** [None] is the panic on a nil dependency. *)
(* 218-256 NewDispatcher *)
Definition NewDispatcher {S} (cfg : DispatcherConfig S) : option (DispatcherConfig S) :=
  match OutboxStore_ cfg, Process cfg with
  | Some st, Some p =>
      let or_default v d := if v <=? 0 then d else v in
      let ttl := or_default (LeaseTTL cfg) DefaultLeaseTTL in
      let hb := or_default (HeartbeatInterval cfg)
                  (or_default (Z.quot ttl 3) DefaultHeartbeatInterval) in
      Some (mkDispatcherConfig S (Some st) (Some p) ttl hb
              (or_default (MaxAttempts cfg) DefaultMaxAttempts)
              (or_default (BaseDelay cfg) DefaultBaseDelay)
              (or_default (CapDelay cfg) DefaultCapDelay)
              (or_default (TickInterval cfg) DefaultTickInterval))
  | _, _ => None
  end.

(** ** One iteration *)
Record Turn := mkTurn {
  ctx_done : bool;                  (* ctx.Err() != nil at the top of the loop *)
  claim_env : Env;
  beats : list Env;                 (* heartbeat ticks before the adapter returns *)
  outcome : OutboxEvent → Outcome;  (* of the adapter, on the claimed event *)
  int63n : Z → Z;                   (* of d.rand *)
  mark_env : Env
}.

Section dispatcher.
Context {S : Type} (st : OutboxStore S) (cfg : DispatcherConfig S).

(* 444-453 Dispatcher.safeProcess *)
Definition safeProcess (o : Outcome) : option err :=
  match o with
  | Returned e => e
  | Panicked text => Some (errors_new ("processFunc panic: " +:+ text))
  end.

(* 460-477 Dispatcher.heartbeatLoop *)
Fixpoint heartbeatLoop (ticks : list Env) (id : Z) (leaseID : string) : M S unit :=
  match ticks with
  | [] => mret tt
  | e :: ticks' =>
      r ← try (at_env e (s_RenewLease st id leaseID (LeaseTTL cfg)));
      match r with
      | inl _ => mret tt
      | inr _ => heartbeatLoop ticks' id leaseID
      end
  end.

(** [fmt.Errorf] with two [%w] verbs. *)
Definition partial_persistence (what : string) : err → err := wrap2 ErrPartialPersistence what.

(* Source: internal/outbox/dispatcher_mark.go *)
(* 15-24 Dispatcher.markProcessed *)
Definition markProcessed (ev : OutboxEvent) (leaseID : string) : M S unit :=
  map_err (partial_persistence "MarkProcessed failed") (s_MarkProcessed st (ID ev) leaseID).
(* 30-39 Dispatcher.markDeadLetterTerminal *)
Definition markDeadLetterTerminal (ev : OutboxEvent) (leaseID : string) (processErr : err) :
    M S unit :=
  map_err (partial_persistence "MarkDeadLetter (terminal) failed")
    (s_MarkDeadLetter st (ID ev) leaseID (err_text processErr)).
(* 44-55 Dispatcher.markDeadLetterMaxAttempts *)
Definition markDeadLetterMaxAttempts (ev : OutboxEvent) (leaseID : string) (processErr : err) :
    M S unit :=
  map_err (partial_persistence "MarkDeadLetter (max attempts) failed")
    (s_MarkDeadLetter st (ID ev) leaseID
       ("max attempts (" +:+ itoa (MaxAttempts cfg) +:+ ") reached: " +:+ err_text processErr)).
(* 60-70 Dispatcher.markFailedBackoff *)
Definition markFailedBackoff (t : Turn) (ev : OutboxEvent) (leaseID : string)
    (processErr : err) : M S unit :=
  let backoff := computeBackoff (BaseDelay cfg) (CapDelay cfg) (int63n t) (AttemptCount ev) in
  map_err (partial_persistence "MarkFailed failed")
    (s_MarkFailed st (ID ev) leaseID (err_text processErr) (Some backoff)).

(* Source: internal/outbox/dispatcher.go *)
(* 425-437 Dispatcher.processOne *)
Definition mark (t : Turn) (ev : OutboxEvent) (leaseID : string) (processErr : option err) :
    M S unit :=
  match processErr with
  | None => markProcessed ev leaseID
  | Some pe =>
      if errors_is pe "ErrTerminal" then markDeadLetterTerminal ev leaseID pe
      else if MaxAttempts cfg <=? AttemptCount ev then markDeadLetterMaxAttempts ev leaseID pe
      else markFailedBackoff t ev leaseID pe
  end.

(* 482-487 evID *)
Definition evID (ev : option OutboxEvent) : Z := match ev with None => 0 | Some ev => ID ev end.

(* 375-438 Dispatcher.processOne *)
Definition processOne (t : Turn) (oev : option OutboxEvent) : M S unit :=
  let missing := throw (errors_new ("outbox event without lease_id: ev-id=" +:+ itoa (evID oev))) in
  match oev with
  | None => missing
  | Some ev =>
      match LeaseID ev with
      | None => missing
      | Some leaseID =>
          _ ← heartbeatLoop (beats t) (ID ev) leaseID;
          at_env (mark_env t) (mark t ev leaseID (safeProcess (outcome t ev)))
      end
  end.

(** Why the drain loop returned. *)
Inductive DrainEnd := CtxDone | QueueEmpty | ClaimError (e : err) | NilEvent.

(** The loop over the turns that the clock has in store; [None] when it would
    go on after the last one. *)
(* 303-339 Dispatcher.drainOnce *)
Fixpoint drainOnce (turns : list Turn) : M S (option DrainEnd) :=
  match turns with
  | [] => mret None
  | t :: turns' =>
      if ctx_done t then mret (Some CtxDone)
      else
        r ← try (at_env (claim_env t) (s_ClaimNext st (LeaseTTL cfg)));
        match r with
        | inl er =>
            if errors_is er "ErrOutboxAlreadyClaimed" then mret (Some QueueEmpty)
            else if errors_is er "ErrOutboxRace" then drainOnce turns'
            else mret (Some (ClaimError er))
        | inr None => mret (Some NilEvent)
        | inr (Some ev) =>
            _ ← try (processOne t (Some ev));
            drainOnce turns'
        end
  end.
End dispatcher.

(** ** What the dispatcher relies on *)

(** The decision of [processOne], as a specification of the row it is
    responsible for. *)
Inductive Verdict := VProcessed | VDead | VRetry (text : string) (backoff : Z).

Class OutboxStoreLaws {S} (st : OutboxStore S) := {
  row_of : S → Z → option OutboxEvent;
  (** An acknowledged mark was applied to a row that carried the lease. *)
  law_processed id l e w w' :
    s_MarkProcessed st id l e w = (inr tt, w') →
    ∃ r, row_of w.1 id = Some r ∧ LeaseID r = Some l ∧
         row_of w'.1 id = Some (processed_row e r);
  law_failed id l er b e w w' :
    s_MarkFailed st id l er b e w = (inr tt, w') →
    ∃ r, row_of w.1 id = Some r ∧ LeaseID r = Some l ∧
         row_of w'.1 id = Some (failed_row er ((λ d, app_now e + d) <$> b) r);
  law_dead id l er e w w' :
    s_MarkDeadLetter st id l er e w = (inr tt, w') →
    ∃ r, row_of w.1 id = Some r ∧ LeaseID r = Some l ∧
         row_of w'.1 id = Some (dead_row e r);
  (** A lost statement leaves the row alone and is reported. *)
  law_lost_processed id l e w : (∀ n, fault e n = Lost) →
    ∃ er w', s_MarkProcessed st id l e w = (inl er, w') ∧ w'.1 = w.1;
  law_lost_failed id l er b e w : (∀ n, fault e n = Lost) →
    ∃ er' w', s_MarkFailed st id l er b e w = (inl er', w') ∧ w'.1 = w.1;
  law_lost_dead id l er e w : (∀ n, fault e n = Lost) →
    ∃ er' w', s_MarkDeadLetter st id l er e w = (inl er', w') ∧ w'.1 = w.1;
  (** Renewing changes nothing of a row but its expiry. *)
  law_renew id l ttl e w r :
    row_of w.1 id = Some r →
    ∃ u, row_of (state_of (s_RenewLease st id l ttl e w)) id =
      Some (mkOutboxEvent (ID r) (AggregateType r) (AggregateID r) (EventType r) (Payload r)
              (Status r) (LeaseID r) u (AttemptCount r) (NextAttemptAt r) (LastError r)
              (CreatedAt r) (ProcessedAt r))
}.

Definition verdict {S} (cfg : DispatcherConfig S) (t : Turn) (ev : OutboxEvent) : Verdict :=
  match safeProcess (outcome t ev) with
  | None => VProcessed
  | Some pe =>
      if errors_is pe "ErrTerminal" then VDead
      else if MaxAttempts cfg <=? AttemptCount ev then VDead
      else VRetry (err_text pe)
             (computeBackoff (BaseDelay cfg) (CapDelay cfg) (int63n t) (AttemptCount ev))
  end.
Definition verdict_row (v : Verdict) (e : Env) (r : OutboxEvent) : OutboxEvent :=
  match v with
  | VProcessed => processed_row e r
  | VDead => dead_row e r
  | VRetry text b => failed_row text (Some (app_now e + b)) r
  end.

Section client.
Context {S : Type} (st : OutboxStore S) (cfg : DispatcherConfig S) `{!OutboxStoreLaws st}.

Lemma map_err_inl {A} f (m : M S A) e w er w' :
  map_err f m e w = (inl er, w') → ∃ er0, er = f er0.
Proof. unfold map_err. destruct (m e w) as [[er0|a] w0]; [|done]. intros [= <- _]. eauto. Qed.

(** Every arm of the classification rewrites the store's error. *)
Lemma mark_error t ev l pe e w er w' :
  mark st cfg t ev l pe e w = (inl er, w') → errors_is er "ErrPartialPersistence" = true.
Proof.
  unfold mark. intros H.
  assert (∃ what er0, er = partial_persistence what er0) as (what & er0 & ->).
  { destruct pe as [pe|]; [destruct (errors_is pe _); [|destruct (_ <=? _)]|];
      apply map_err_inl in H as [er0 ->]; eauto. }
  unfold errors_is. apply bool_decide_eq_true. by left.
Qed.

Lemma mark_ok t ev l e w w' :
  mark st cfg t ev l (safeProcess (outcome t ev)) e w = (inr tt, w') →
  ∃ r, row_of w.1 (ID ev) = Some r ∧ LeaseID r = Some l ∧
       row_of w'.1 (ID ev) = Some (verdict_row (verdict cfg t ev) e r).
Proof.
  unfold mark, verdict. destruct (safeProcess (outcome t ev)) as [pe|];
    [destruct (errors_is pe _); [|destruct (_ <=? _)]|]; intros H%map_err_inr.
  - by apply law_dead in H.
  - by apply law_dead in H.
  - by apply law_failed in H.
  - by apply law_processed in H.
Qed.

Lemma mark_lost t ev l pe e w :
  (∀ n, fault e n = Lost) →
  ∃ er w', mark st cfg t ev l pe e w = (inl er, w') ∧ w'.1 = w.1.
Proof.
  intros HL. unfold mark, markProcessed, markDeadLetterTerminal, markDeadLetterMaxAttempts,
    markFailedBackoff, map_err.
  destruct pe as [pe|]; [destruct (errors_is pe _); [|destruct (_ <=? _)]|].
  - destruct (law_lost_dead (ID ev) l (err_text pe) e w HL) as (er & w' & -> & ?). eauto.
  - match goal with |- context [s_MarkDeadLetter st ?i ?l ?m] =>
      destruct (law_lost_dead i l m e w HL) as (er & w' & -> & ?) end. eauto.
  - match goal with |- context [s_MarkFailed st ?i ?l ?m ?b] =>
      destruct (law_lost_failed i l m b e w HL) as (er & w' & -> & ?) end. eauto.
  - destruct (law_lost_processed (ID ev) l e w HL) as (er & w' & -> & ?). eauto.
Qed.

(** The heartbeat never fails the dispatcher and only moves the expiry. *)
Lemma heartbeat_row ticks id l e w r :
  row_of w.1 id = Some r →
  ∃ w', heartbeatLoop st cfg ticks id l e w = (inr tt, w') ∧
    ∃ u, row_of w'.1 id =
      Some (mkOutboxEvent (ID r) (AggregateType r) (AggregateID r) (EventType r) (Payload r)
              (Status r) (LeaseID r) u (AttemptCount r) (NextAttemptAt r) (LastError r)
              (CreatedAt r) (ProcessedAt r)).
Proof.
  revert w r. induction ticks as [|e' ticks IH]; intros w r Hr; simpl.
  - exists w. split; [done|]. exists (LeaseUntil r). rewrite Hr. by destruct r.
  - unfold mbind, M_bind, try, at_env.
    destruct (law_renew id l (LeaseTTL cfg) e' w r Hr) as [u Hu]. unfold state_of in Hu.
    destruct (s_RenewLease st id l (LeaseTTL cfg) e' w) as [[er|[]] w1] eqn:E; simpl in Hu.
    + exists w1. split; [done|]. by exists u.
    + destruct (IH w1 _ Hu) as (w' & Hrun & u' & Hw'). exists w'. split; [done|]. by exists u'.
Qed.
End client.

(** ** The repository satisfies the interface *)
Definition repository : OutboxStore OutboxDB :=
  mkOutboxStore OutboxDB (λ ttl, ev ← ClaimNext ttl; mret (Some ev)) RenewLease MarkProcessed
    MarkFailed MarkDeadLetter.

Lemma exec_leased_inr op d id l f e w w' :
  exec_leased op d id l f e w = (inr tt, w') →
  ∃ r, events w.1 !! id = Some r ∧ LeaseID r = Some l ∧ events w'.1 !! id = Some (f e r).
Proof.
  destruct w as [db n]. unfold exec_leased, mbind, M_bind, rows_affected, exec, leased_update,
    on_events, update_row. simpl.
  destruct (fault e n); [|done..].
  destruct (events db !! id) as [r|] eqn:Hr; simpl; [|by destruct (fault e _)].
  destruct (leased_by l r) eqn:Hl; simpl; destruct (fault e _); simpl; try done.
  intros [= <-]. exists r. simpl. rewrite lookup_insert_eq. by apply leased_by_spec in Hl.
Qed.

Lemma exec_leased_lost op d id l f e w :
  (∀ n, fault e n = Lost) →
  ∃ er w', exec_leased op d id l f e w = (inl er, w') ∧ w'.1 = w.1.
Proof.
  intros HL. destruct w as [db n]. unfold exec_leased, mbind, M_bind, exec. rewrite HL. eauto.
Qed.

Lemma exec_leased_row op d id l f e w r (P : OutboxEvent → Prop) :
  events w.1 !! id = Some r → P r → P (f e r) →
  ∃ r', events (state_of (exec_leased op d id l f e w)) !! id = Some r' ∧ P r'.
Proof.
  destruct w as [db n]. simpl. intros Hr HP Hf.
  unfold exec_leased, mbind, M_bind, rows_affected, exec, leased_update, on_events, state_of.
  assert (Hu : ∃ r', (update_row id (leased_by l) (f e) (events db)).2 !! id = Some r' ∧ P r').
  { rewrite (update_row_row _ _ _ _ _ Hr). destruct (leased_by l r); eauto. }
  destruct (update_row id (leased_by l) (f e) (events db)) as [k t].
  destruct (fault e n); simpl; eauto.
  destruct (fault e (Datatypes.S n)); simpl; eauto. case_bool_decide; simpl; eauto.
Qed.

#[local] Obligation Tactic := idtac.
#[export] Program Instance repository_laws : OutboxStoreLaws repository :=
  {| row_of := λ db id, events db !! id |}.
Next Obligation. intros id l e w w'. simpl. intros HR. apply exec_leased_inr in HR. exact HR. Qed.
Next Obligation.
  intros id l er b e w w'. simpl. unfold MarkFailed. case_bool_decide; [done|].
  unfold mbind, M_bind, ask. intros HR. apply exec_leased_inr in HR. exact HR.
Qed.
Next Obligation.
  intros id l er e w w'. simpl. unfold MarkDeadLetter. case_bool_decide; [done|].
  intros HR. apply exec_leased_inr in HR. exact HR.
Qed.
Next Obligation. intros id l e w HL. by apply exec_leased_lost. Qed.
Next Obligation.
  intros id l er b e w HL. simpl. unfold MarkFailed. case_bool_decide; [by eexists _, w|].
  unfold mbind, M_bind, ask. by apply exec_leased_lost.
Qed.
Next Obligation.
  intros id l er e w HL. simpl. unfold MarkDeadLetter. case_bool_decide; [by eexists _, w|].
  by apply exec_leased_lost.
Qed.
Next Obligation.
  intros id l ttl e w r Hr. simpl in *. unfold RenewLease.
  case_bool_decide; [exists (LeaseUntil r); unfold state_of; simpl; rewrite Hr; by destruct r|].
  unfold mbind, M_bind, ask.
  destruct (exec_leased_row "outbox RenewLease" "lease_id mismatch or row gone" id l
    (λ _ r, mkOutboxEvent (ID r) (AggregateType r) (AggregateID r) (EventType r) (Payload r)
         (Status r) (LeaseID r) (Some (app_now e + ttl)) (AttemptCount r) (NextAttemptAt r)
         (LastError r) (CreatedAt r) (ProcessedAt r)) e w r
    (λ r', ∃ u, r' = mkOutboxEvent (ID r) (AggregateType r) (AggregateID r) (EventType r)
         (Payload r) (Status r) (LeaseID r) u (AttemptCount r) (NextAttemptAt r) (LastError r)
         (CreatedAt r) (ProcessedAt r)) Hr) as (r' & Hr' & u & ->); [| |by exists u].
  - exists (LeaseUntil r). by destruct r.
  - by eexists.
Qed.

(** ** Safety and termination of the drain *)
Lemma RenewLease_safe id l ttl : respects safe_step (RenewLease id l ttl).
Proof. apply (run_op_safe (OpRenewLease id l ttl)). Qed.
Lemma MarkProcessed_safe id l : respects safe_step (MarkProcessed id l).
Proof. apply (run_op_safe (OpMarkProcessed id l)). Qed.
Lemma MarkFailed_safe id l er b : respects safe_step (MarkFailed id l er b).
Proof. apply (run_op_safe (OpMarkFailed id l er b)). Qed.
Lemma MarkDeadLetter_safe id l er : respects safe_step (MarkDeadLetter id l er).
Proof. apply (run_op_safe (OpMarkDeadLetter id l er)). Qed.
#[export] Hint Resolve RenewLease_safe MarkProcessed_safe MarkFailed_safe MarkDeadLetter_safe
  ClaimNext_safe : respects.

Lemma heartbeat_safe cfg ticks id l : respects safe_step (heartbeatLoop repository cfg ticks id l).
Proof.
  induction ticks as [|e ticks IH]; simpl; [apply respects_ret, _|].
  respects_tac.
Qed.

Lemma mark_safe cfg t ev l pe : respects safe_step (mark repository cfg t ev l pe).
Proof.
  unfold mark, markProcessed, markDeadLetterTerminal, markDeadLetterMaxAttempts,
    markFailedBackoff. simpl.
  repeat case_match; apply respects_map_err; eauto with respects.
Qed.

Lemma processOne_safe cfg t oev : respects safe_step (processOne repository cfg t oev).
Proof.
  unfold processOne. destruct oev as [ev|]; [|apply respects_throw, _].
  destruct (LeaseID ev); [|apply respects_throw, _].
  apply respects_bind; [apply _|apply heartbeat_safe|intros _].
  apply respects_at_env, mark_safe.
Qed.

Lemma drainOnce_safe cfg turns : respects safe_step (drainOnce repository cfg turns).
Proof.
  induction turns as [|t turns IH]; cbn [drainOnce]; [apply respects_ret, _|].
  destruct (ctx_done t); [apply respects_ret, _|].
  apply respects_bind; [apply _| |].
  - apply respects_try, respects_at_env. simpl. respects_tac.
  - intros [er|[ev|]]; [|  |apply respects_ret, _].
    + destruct (errors_is _ _); [apply respects_ret, _|].
      destruct (errors_is _ _); [apply IH|apply respects_ret, _].
    + apply respects_bind; [apply _|apply respects_try, processOne_safe|intros _; apply IH].
Qed.

(** The rows that could be claimed at a frozen clock, the measure of the
    drain loop. *)
Definition claimables (now : Z) (db : OutboxDB) : gset Z :=
  dom (filter (λ kr : Z * OutboxEvent, claimable now kr.2 = true) (events db)).
Definition frozen (now : Z) (e : Env) : Prop := app_now e = now ∧ db_now e = now.

Lemma elem_of_claimables now db id :
  id ∈ claimables now db ↔ ∃ r, events db !! id = Some r ∧ claimable now r = true.
Proof.
  unfold claimables. rewrite elem_of_dom. split.
  - intros [r [Hr Hc]%map_lookup_filter_Some]. by exists r.
  - intros (r & Hr & Hc). exists r. by apply map_lookup_filter_Some.
Qed.

(** A statement on one row of which nothing becomes claimable. *)
Lemma update_row_shrinks now id p f t k :
  (∀ r, p r = true → claimable now (f r) = true → claimable now r = true) →
  claimables now (mkOutboxDB (update_row id p f t).2 k) ⊆ claimables now (mkOutboxDB t k).
Proof.
  intros Hf j. rewrite !elem_of_claimables. simpl.
  intros (r & [Hr|(-> & r0 & Hr & Hp & ->)]%update_row_lookup & Hc); [eauto|].
  exists r0. auto.
Qed.

Lemma exec_leased_state op d id l f e db n :
  state_of (exec_leased op d id l f e (db, n)) = db ∨
  state_of (exec_leased op d id l f e (db, n)) =
    mkOutboxDB (update_row id (leased_by l) (f e) (events db)).2 (next_id db).
Proof.
  unfold exec_leased, mbind, M_bind, rows_affected, exec, leased_update, on_events, state_of.
  destruct (update_row id (leased_by l) (f e) (events db)) as [k t].
  destruct (fault e n); simpl; [|by left|by right].
  destruct (fault e (Datatypes.S n)); simpl; [|by right..]. case_bool_decide; by right.
Qed.

Lemma exec_leased_shrinks now op d id l f e w :
  (∀ r, claimable now (f e r) = true → claimable now r = true) →
  claimables now (state_of (exec_leased op d id l f e w)) ⊆ claimables now w.1.
Proof.
  intros Hf. destruct w as [db n].
  destruct (exec_leased_state op d id l f e db n) as [->| ->]; [done|].
  destruct db as [t k]. apply update_row_shrinks. auto.
Qed.

Lemma claimable_not_pending now r : Status r ≠ OutboxStatusPending → claimable now r = false.
Proof. intros H. unfold claimable. by rewrite bool_decide_eq_false_2. Qed.

Section drain.
Context (cfg : DispatcherConfig OutboxDB) (now : Z).
Hypothesis Httl : 0 < LeaseTTL cfg.
Hypothesis Hbase : 0 < BaseDelay cfg ≤ 2^51.
Hypothesis Hcap : 0 < CapDelay cfg ≤ 2^51.

(** The clock stands still during a turn, and the random source keeps its
    contract. *)
Definition frozen_turn (t : Turn) : Prop :=
  frozen now (claim_env t) ∧ Forall (frozen now) (beats t) ∧ frozen now (mark_env t) ∧
  Int63n_contract (int63n t).

Lemma heartbeat_shrinks ticks id l e w :
  Forall (frozen now) ticks →
  claimables now (state_of (heartbeatLoop repository cfg ticks id l e w)) ⊆ claimables now w.1.
Proof using Httl.
  intros Ht. revert w. induction Ht as [|e' ticks [Happ _] _ IH]; intros w; [done|].
  cbn [heartbeatLoop repository s_RenewLease].
  unfold mbind, M_bind, try, at_env, state_of in *.
  assert (H : claimables now (RenewLease id l (LeaseTTL cfg) e' w).2.1 ⊆ claimables now w.1).
  { unfold RenewLease. case_bool_decide; [done|]. unfold mbind, M_bind, ask.
    apply exec_leased_shrinks. intros r. unfold claimable, lease_free. simpl. rewrite Happ.
    destruct (Z.ltb_spec (now + LeaseTTL cfg) now); [lia|]. by rewrite andb_false_r. }
  destruct (RenewLease id l (LeaseTTL cfg) e' w) as [[er|[]] w1]; simpl in *; [done|].
  etrans; [apply IH|done].
Qed.

Lemma mark_shrinks t ev l pe w :
  frozen_turn t →
  claimables now (state_of (mark repository cfg t ev l pe (mark_env t) w)) ⊆ claimables now w.1.
Proof using Hbase Hcap.
  intros (_ & _ & [Happ _] & Hr).
  assert (Hm : ∀ f (m : M OutboxDB unit),
    claimables now (state_of (m (mark_env t) w)) ⊆ claimables now w.1 →
    claimables now (state_of (map_err f m (mark_env t) w)) ⊆ claimables now w.1).
  { intros f m H. unfold map_err, state_of in *. by destruct (m (mark_env t) w) as [[?|?] ?]. }
  assert (Hdead : ∀ er, claimables now (state_of (MarkDeadLetter (ID ev) l er (mark_env t) w))
    ⊆ claimables now w.1).
  { intros er. unfold MarkDeadLetter. case_bool_decide; [done|]. apply exec_leased_shrinks.
    intros r. by rewrite claimable_not_pending. }
  unfold mark. destruct pe as [pe|]; [destruct (errors_is pe _); [|destruct (_ <=? _)]|];
    apply Hm; simpl.
  - apply Hdead.
  - apply Hdead.
  - unfold MarkFailed. case_bool_decide; [done|]. unfold mbind, M_bind, ask.
    apply exec_leased_shrinks. intros r. unfold claimable. simpl. rewrite Happ.
    pose proof (computeBackoff_lower _ _ _ (AttemptCount ev) Hr Hbase Hcap).
    destruct (Z.leb_spec (now + computeBackoff (BaseDelay cfg) (CapDelay cfg) (int63n t)
      (AttemptCount ev)) now); [lia|]. by rewrite andb_false_r.
  - apply exec_leased_shrinks. intros r. by rewrite claimable_not_pending.
Qed.

Lemma processOne_shrinks t oev e w :
  frozen_turn t →
  claimables now (state_of (processOne repository cfg t oev e w)) ⊆ claimables now w.1.
Proof using Httl Hbase Hcap.
  intros Ht. unfold processOne. destruct oev as [ev|]; [|done].
  destruct (LeaseID ev) as [l|]; [|done].
  pose proof (heartbeat_shrinks (beats t) (ID ev) l e w (proj1 (proj2 Ht))) as Hh.
  unfold mbind, M_bind, at_env, state_of in *.
  destruct (heartbeatLoop _ _ _ _ _ e w) as [[er|[]] w1]; simpl in *; [done|].
  etrans; [by apply mark_shrinks|done].
Qed.

(** A successful claim takes one row out of the claimable ones. *)
Lemma ClaimNext_shrinks e db n ev w' :
  db_ok db → frozen now e →
  ClaimNext (LeaseTTL cfg) e (db, n) = (inr ev, w') →
  claimables now w'.1 ⊂ claimables now db.
Proof using Httl.
  intros Hok [Happ Hdb]. unfold ClaimNext, mbind, M_bind, ask, transact, exec.
  destruct (fault e n); simpl; [|done..].
  destruct (fault e (Datatypes.S n)); simpl; [|done..].
  destruct (select_candidate e db) as [id|] eqn:Hs; simpl; [|done].
  destruct (fault e (Datatypes.S (Datatypes.S n))); simpl; [|done..].
  destruct (first_candidate _ _ _ Hok Hs) as (r & Hr & Hc & _).
  apply (candidates_spec e db r Hok) in Hc as (_ & Hcl & _).
  rewrite (claim_update_hit _ _ _ _ _ r) by done. simpl.
  destruct (fault e _); simpl; [|done..]. intros [= _ <-]. simpl.
  rewrite Hdb in Hcl.
  assert (Hnew : claimable now (claim_row (fresh_uuid e) (app_now e + LeaseTTL cfg) r) = false).
  { unfold claimable, lease_free. simpl. rewrite Happ.
    destruct (Z.ltb_spec (now + LeaseTTL cfg) now); [lia|]. by rewrite andb_false_r. }
  apply strict_spec_alt. split.
  - intros j. rewrite !elem_of_claimables. simpl. intros (r' & Hr' & Hc').
    destruct (decide (j = id)) as [->|Hne]; [by exists r|].
    rewrite lookup_insert_ne in Hr' by done. by exists r'.
  - intros E. assert (Hin : id ∈ claimables now db) by (apply elem_of_claimables; eauto).
    rewrite <- E in Hin. apply elem_of_claimables in Hin as (r' & Hr' & Hc').
    simpl in Hr'. rewrite lookup_insert_eq in Hr'. congruence.
Qed.
End drain.

(** The loop, by induction on the turns left, with the claimable rows as the
    measure.  [good] turns can also not end on anything but an empty queue. *)
Definition good_turn (t : Turn) : Prop :=
  ctx_done t = false ∧ reliable (claim_env t) ∧ ∀ id, held (claim_env t) id = false.

Lemma drain_loop cfg now turns e db n :
  0 < LeaseTTL cfg → 0 < BaseDelay cfg ≤ 2^51 → 0 < CapDelay cfg ≤ 2^51 →
  db_ok db → Forall (frozen_turn now) turns →
  (size (claimables now db) < length turns)%nat →
  ∃ why w', drainOnce repository cfg turns e (db, n) = (inr (Some why), w') ∧
    (Forall good_turn turns → why = QueueEmpty ∧ claimables now w'.1 = ∅).
Proof.
  intros Httl Hbase Hcap Hok Ht. revert db n Hok.
  induction Ht as [|t turns Hft _ IH]; intros db n Hok Hlen; simpl in Hlen; [lia|].
  cbn [drainOnce]. destruct (ctx_done t) eqn:Hctx.
  { exists CtxDone, (db, n). split; [done|].
    intros [[Hc _] _]%Forall_cons. congruence. }
  unfold mbind at 1. unfold M_bind at 1. unfold try at 1, at_env.
  simpl s_ClaimNext. unfold mbind at 1, M_bind at 1.
  destruct (ClaimNext (LeaseTTL cfg) (claim_env t) (db, n)) as [[er|ev] w1] eqn:Hcl.
  - pose proof (ClaimNext_not_race (LeaseTTL cfg) (claim_env t) db n er Hok) as Hrace.
    unfold result_of in Hrace. rewrite Hcl in Hrace. specialize (Hrace eq_refl).
    assert (Hgood : Forall good_turn (t :: turns) →
      er = ErrOutboxAlreadyClaimed ∧ claimables now w1.1 = ∅).
    { intros [(_ & Hrel & Hheld) _]%Forall_cons.
      destruct (ClaimNext_run (LeaseTTL cfg) _ db n Hrel) as [n' Hrun]. rewrite Hcl in Hrun.
      destruct (select_candidate (claim_env t) db) as [id|] eqn:Hs.
      - destruct (first_candidate _ _ _ Hok Hs) as (r & Hr & Hc & _).
        apply (candidates_spec _ db r Hok) in Hc as (_ & Hc & _).
        rewrite (claim_update_hit _ _ _ _ _ r) in Hrun by done. done.
      - injection Hrun as -> ->. split; [done|]. apply set_eq. intros id.
        rewrite elem_of_claimables. split; [|set_solver]. intros (r & Hr & Hc).
        destruct Hft as ([_ Hdb] & _). rewrite <- Hdb in Hc.
        assert (Hin : r ∈ candidates (claim_env t) db).
        { apply candidates_spec; [done|]. rewrite (ok_id _ _ (ok_rows _ Hok _ _ Hr)). auto. }
        unfold select_candidate in Hs. pose proof (first_row_spec (candidates (claim_env t) db)) as H.
        destruct (first_row (candidates (claim_env t) db)); [done|]. rewrite H in Hin.
        by apply elem_of_nil in Hin. }
    rewrite Hrace. destruct (errors_is er "ErrOutboxAlreadyClaimed") eqn:Her.
    + eexists _, _. split; [reflexivity|]. intros Hg. by destruct (Hgood Hg).
    + eexists _, _. split; [reflexivity|]. intros Hg. destruct (Hgood Hg) as [-> _]. done.
  - pose proof (ClaimNext_shrinks cfg now Httl _ _ _ _ _ Hok (proj1 Hft) Hcl) as Hsub.
    assert (Hok1 : db_ok w1.1).
    { pose proof (ClaimNext_safe (LeaseTTL cfg) (claim_env t) db n Hok) as [H _].
      unfold state_of in H. by rewrite Hcl in H. }
    destruct w1 as [db1 n1]. cbn [fst] in *. unfold mbind, M_bind, try, mret, M_ret.
    pose proof (processOne_shrinks cfg now Httl Hbase Hcap t (Some ev) e (db1, n1) Hft) as Hp.
    pose proof (processOne_safe cfg t (Some ev) e db1 n1 Hok1) as [Hok2 _].
    unfold state_of in *.
    destruct (processOne repository cfg t (Some ev) e (db1, n1)) as [r [db2 n2]].
    cbn [fst snd] in *.
    destruct (IH db2 n2 Hok2) as (why & w' & Hrun & Hgood).
    { apply subset_size in Hsub. apply subseteq_size in Hp. lia. }
    exists why, w'. split; [exact Hrun|]. intros [_ Hg]%Forall_cons. auto.
Qed.

(** ** Properties *)

(** [drainOnce] terminates and drains.  With the clock standing still, a
    positive lease TTL and positive delays, the drain loop ends after at most
    one turn more than there are claimable rows, whatever the adapter returns
    or panics with and whatever statements are lost, because no row it has
    handled can be claimed again; the table invariant holds at the end and no
    event was lost; and if no claim fails and no peer holds a lock, it ends
    with an empty queue and no claimable row left. *)
Theorem drainOnce_terminates (cfg : DispatcherConfig OutboxDB) (now : Z) (turns : list Turn)
    (e : Env) (db : OutboxDB) (n : nat)
    (Httl : 0 < LeaseTTL cfg) (Hbase : 0 < BaseDelay cfg ≤ 2^51) (Hcap : 0 < CapDelay cfg ≤ 2^51)
    (Hok : db_ok db) (Hfrozen : Forall (frozen_turn now) turns)
    (Hfuel : (size (claimables now db) < length turns)%nat) :
  ∃ why db' n', drainOnce repository cfg turns e (db, n) = (inr (Some why), (db', n')) ∧
    db_ok db' ∧ db_grows db db' ∧
    (Forall good_turn turns → why = QueueEmpty ∧ claimables now db' = ∅).
Proof.
  destruct (drain_loop cfg now turns e db n Httl Hbase Hcap Hok Hfrozen Hfuel)
    as (why & [db' n'] & Hrun & Hgood).
  exists why, db', n'. split; [done|].
  pose proof (drainOnce_safe cfg turns e db n Hok) as [Hok' Hg]. unfold state_of in *.
  by rewrite Hrun in Hok', Hg.
Qed.

Definition sample_config : DispatcherConfig OutboxDB :=
  mkDispatcherConfig OutboxDB (Some repository) (Some (λ _, Returned None))
    DefaultLeaseTTL DefaultHeartbeatInterval DefaultMaxAttempts DefaultBaseDelay DefaultCapDelay
    DefaultTickInterval.
Definition sample_turn (o : Outcome) : Turn :=
  mkTurn false (ok_env 500 "w") [ok_env 500 "w"] (λ _, o) (λ _, 0) (ok_env 500 "w").

Lemma drainOnce_terminates_witness :
  let db := run_history [(ok_env 100 "a", OpInsert sample_event);
                         (ok_env 101 "a", OpInsert sample_event)] empty_db in
  let turns := [sample_turn (Returned None); sample_turn (Panicked "boom");
                sample_turn (Returned None)] in
  db_ok db ∧ size (claimables 500 db) = 2%nat ∧
  ∃ why db' n', drainOnce repository sample_config turns (ok_env 500 "w") (db, O) =
    (inr (Some why), (db', n')) ∧ why = QueueEmpty ∧ claimables 500 db' = ∅.
Proof.
  intros db turns. assert (Hok : db_ok db) by exact (proj1 (run_history_safe _ _ empty_db_ok)).
  split; [exact Hok|]. split; [vm_compute; reflexivity|].
  assert (Ht : ∀ o, frozen_turn 500 (sample_turn o)).
  { intros o. split; [split; reflexivity|]. split; [repeat constructor|].
    split; [split; reflexivity|]. intros k Hk. simpl. lia. }
  destruct (drainOnce_terminates sample_config 500 turns (ok_env 500 "w") db O)
    as (why & db' & n' & Hrun & _ & _ & Hg).
  - vm_compute. reflexivity.
  - vm_compute. split; [reflexivity|discriminate].
  - vm_compute. split; [reflexivity|discriminate].
  - exact Hok.
  - do 3 (apply List.Forall_cons; [apply Ht|]). apply List.Forall_nil.
  - vm_compute. lia.
  - exists why, db', n'. split; [exact Hrun|]. apply Hg. repeat constructor.
Defined.

(** C25: what one [processOne] does, for any store that satisfies the interface
    and any adapter.  It returns nil only when the row it claimed carried its
    lease and was marked as the outcome demands: processed on success, dead
    on [ErrTerminal] or when the attempts are used up, scheduled for retry
    with the error text and the backoff otherwise, a panic counting as a
    transient error.  Every error it returns is [ErrPartialPersistence]; and
    when the mark never reaches the store, the row keeps everything but its
    lease expiry, so the event is delivered again. *)
Theorem processOne_outcome {S} (st : OutboxStore S) `{!OutboxStoreLaws st}
    (cfg : DispatcherConfig S) (t : Turn) (ev : OutboxEvent) (l : string) (e : Env)
    (s : S) (n : nat) (r : OutboxEvent)
    (Hl : LeaseID ev = Some l) (Hr : row_of s (ID ev) = Some r) :
  let run := processOne st cfg t (Some ev) e (s, n) in
  let renewed u := mkOutboxEvent (ID r) (AggregateType r) (AggregateID r) (EventType r)
    (Payload r) (Status r) (LeaseID r) u (AttemptCount r) (NextAttemptAt r) (LastError r)
    (CreatedAt r) (ProcessedAt r) in
  (result_of run = inr tt → LeaseID r = Some l ∧
     ∃ u, row_of (state_of run) (ID ev) =
          Some (verdict_row (verdict cfg t ev) (mark_env t) (renewed u))) ∧
  (∀ er, result_of run = inl er → errors_is er "ErrPartialPersistence" = true) ∧
  ((∀ k, fault (mark_env t) k = Lost) →
     (∃ er, result_of run = inl er) ∧ ∃ u, row_of (state_of run) (ID ev) = Some (renewed u)).
Proof.
  intros run renewed. subst run. unfold processOne. rewrite Hl.
  destruct (heartbeat_row st cfg (beats t) (ID ev) l e (s, n) r Hr) as (w' & Hrun & u & Hu).
  unfold mbind, M_bind. rewrite Hrun. unfold at_env, result_of, state_of.
  split; [|split].
  - destruct (mark st cfg t ev l (safeProcess (outcome t ev)) (mark_env t) w')
      as [[er|[]] w2] eqn:Hm; [done|]. intros _.
    apply (mark_ok st cfg) in Hm as (r1 & Hr1 & Hl1 & Hr2).
    rewrite Hu in Hr1. injection Hr1 as <-. split; [done|]. by exists u.
  - intros er. destruct (mark st cfg t ev l (safeProcess (outcome t ev)) (mark_env t) w')
      as [[er'|[]] w2] eqn:Hm; [|done]. intros [= <-]. by apply (mark_error st cfg) in Hm.
  - intros HL. destruct (mark_lost st cfg t ev l (safeProcess (outcome t ev)) _ w' HL)
      as (er & w2 & -> & Hw2). split; [by exists er|]. exists u. simpl. rewrite Hw2. exact Hu.
Qed.

Definition sample_claimed : OutboxEvent :=
  mkOutboxEvent 1 "post_target" 7 "publish" "{}" OutboxStatusPending (Some "w")
    (Some (500 + DefaultLeaseTTL)) 1 None None 100 None.

Lemma processOne_outcome_witness :
  let db := run_history [(ok_env 100 "a", OpInsert sample_event);
                         (ok_env 500 "w", OpClaimNext DefaultLeaseTTL)] empty_db in
  let run := processOne repository sample_config
    (sample_turn (Returned (Some (wrap "no such post" ErrTerminal)))) (Some sample_claimed)
    (ok_env 500 "w") (db, O) in
  row_of db 1 = Some sample_claimed ∧ result_of run = inr tt ∧
  ∃ u, row_of (state_of run) 1 = Some (dead_row (ok_env 500 "w")
    (mkOutboxEvent 1 "post_target" 7 "publish" "{}" OutboxStatusPending (Some "w") u 1
       None None 100 None)).
Proof.
  intros db run.
  assert (Hr : row_of db 1 = Some sample_claimed) by (vm_compute; reflexivity).
  assert (Hres : result_of run = inr tt) by (vm_compute; reflexivity).
  split; [exact Hr|]. split; [exact Hres|].
  exact (proj2 (proj1 (processOne_outcome repository sample_config _ sample_claimed "w"
    (ok_env 500 "w") db O sample_claimed eq_refl Hr) Hres)).
Defined.
