(* ===== verification/UploadJobs.v ===== *)
(** * The upload job queue

    [src/internal/models/upload_job.go] and the upload job repository
    ([upload_job_repo.go], [upload_job_scan.go], [upload_job_claim.go],
    [upload_job_retry.go], [upload_job_dead_letter.go],
    [upload_job_youtube_session.go], [upload_job_calendar.go],
    [upload_job_dedupe.go], [upload_job_metadata.go]).  Two worker pools, ingest
    and publish, lease rows of one table; a reaper takes back the leases of
    dead workers.  Leases are identified by the worker id. *)

From S2P Require Import Prelude Store Graph.
From Stdlib Require Import ZArith Lia.
Local Open Scope Z_scope.

(* Source: internal/models/upload_job.go *)

(** ** Statuses *)
Definition UploadJobStatusPending : string := "pending". (* 54 *)
Definition UploadJobStatusProcessing : string := "processing". (* 55 *)
Definition UploadJobStatusCompleted : string := "completed". (* 56 *)
Definition UploadJobStatusFailed : string := "failed". (* 57 *)
Definition UploadJobStatusLeased : string := "leased". (* 61 *)
Definition UploadJobStatusRetryWait : string := "retry_wait". (* 62 *)
Definition UploadJobStatusDeadLetter : string := "dead_letter". (* 63 *)
Definition UploadJobStatusCancelled : string := "cancelled". (* 64 *)
Definition UploadJobStatusIngestCompleted : string := "ingest_completed". (* 83 *)
Definition UploadJobStatusPublishCompleted : string := "publish_completed". (* 84 *)
Definition UploadJobStatusPublishScheduled : string := "publish_scheduled". (* 87 *)
Definition UploadJobStatusReadyToPublish : string := "ready_to_publish". (* 93 *)

(* 100-107 UploadJobStatus.IsIngestTerminal *)
Definition IsIngestTerminal (s : string) : bool :=
  bool_decide (s = UploadJobStatusIngestCompleted) ||
  bool_decide (s = UploadJobStatusPublishCompleted) ||
  bool_decide (s = UploadJobStatusReadyToPublish) || bool_decide (s = UploadJobStatusCompleted).
(* 113-117 UploadJobStatus.IsPublishTerminal *)
Definition IsPublishTerminal (s : string) : bool :=
  bool_decide (s = UploadJobStatusPublishCompleted) || bool_decide (s = UploadJobStatusCompleted).
(* 120-126 UploadJobStatus.IsPrepared *)
Definition IsPrepared (s : string) : bool :=
  bool_decide (s = UploadJobStatusIngestCompleted) ||
  bool_decide (s = UploadJobStatusPublishScheduled) ||
  bool_decide (s = UploadJobStatusPublishCompleted) ||
  bool_decide (s = UploadJobStatusReadyToPublish) || bool_decide (s = UploadJobStatusCompleted).
(* 131-137 UploadJobStatus.IsTerminal *)
Definition IsTerminal (s : string) : bool :=
  bool_decide (s = UploadJobStatusPublishCompleted) || bool_decide (s = UploadJobStatusCompleted) ||
  bool_decide (s = UploadJobStatusDeadLetter) || bool_decide (s = UploadJobStatusCancelled) ||
  bool_decide (s = UploadJobStatusFailed).

(** ** Rows

    The columns of [UploadJob] are grouped by the statements that write them:
    what the producer asked for, the resumable YouTube session, the lease, and
    the status with its diagnosis.  [IngestAfter] is nullable in the table. *)
(* 168-217 UploadJob *)
Record JobSpec := mkJobSpec {
  UserID : Z;
  WorkspaceID : Z;
  SourceType : string;
  SourceID : string;
  DriveAccountID : option Z;
  FolderID : option string;
  Title : string;
  Caption : string;
  Metadata : string;
  DefaultPrivacyLevel : string;
  Targets : list Z;
  IngestAfter : option Z;
  PublishAt : option Z;
  BatchID : option string;
  MaxAttempts : Z;
  Priority : Z;
  CreatedAt : Z
}.
(* 246-250 UploadJob *)
Record YouTubeSession := mkYouTubeSession {
  YouTubeSessionURI : option string;
  YouTubeSessionOffset : option Z;
  YouTubeSessionExpiresAt : option Z;
  YouTubeChunkSize : option Z;
  YouTubeLastChunkAt : option Z
}.
Definition no_session : YouTubeSession := mkYouTubeSession None None None None None.
(* 221-223 UploadJob *)
Record JobLease := mkJobLease {
  LeaseOwner : option string;
  LeaseExpiresAt : option Z;
  HeartbeatAt : option Z
}.
(* 196-197 UploadJob *)
Record JobStatus := mkJobStatus {
  Status : string;
  ErrorMessage : option string;
  ErrorCode : option string;
  CompletedAt : option Z
}.
(* 218-229 UploadJob *)
Record UploadJob := mkUploadJob {
  ID : Z;
  Spec : JobSpec;
  Session : YouTubeSession;
  Lease : JobLease;
  State : JobStatus;
  PostID : option Z;
  AssetID : option string;
  UpdatedAt : Z;
  AttemptCount : Z;
  NextAttemptAt : option Z;
  ProgressBytes : Z;
  TotalBytes : option Z;
  StartedAt : option Z
}.
Definition job_status (j : UploadJob) : string := Status (State j).
Definition job_owner (j : UploadJob) : option string := LeaseOwner (Lease j).

Record JobDB := mkJobDB { jobs : gmap Z UploadJob; job_serial : Z }.
Definition on_jobs {A} (f : gmap Z UploadJob → A * gmap Z UploadJob) (db : JobDB) : A * JobDB :=
  let '(a, t) := f (jobs db) in (a, mkJobDB t (job_serial db)).

(* Source: internal/repository/upload_job_repo.go *)
Definition ErrUploadJobNotFound : err := (* 258 *)
  sentinel "ErrUploadJobNotFound" "upload job not found or no longer pending".
Definition ErrUploadJobLeaseLost : err := sentinel "ErrUploadJobLeaseLost" (* 274 *)
  "upload job: lease lost (row claimed by peer or recovered by reaper)".

(** ** Creation *)
(** A new row, with the column defaults of the schema. *)
Definition new_job (id : Z) (spec : JobSpec) (status : string) (e : Env) : UploadJob :=
  mkUploadJob id
    (mkJobSpec (UserID spec) (WorkspaceID spec) (SourceType spec) (SourceID spec)
       (DriveAccountID spec) (FolderID spec) (Title spec) (Caption spec) (Metadata spec)
       (DefaultPrivacyLevel spec) (Targets spec) (IngestAfter spec) (PublishAt spec)
       (BatchID spec) 8 100 (db_now e))
    no_session (mkJobLease None None None) (mkJobStatus status None None None)
    None None (db_now e) 0 None 0 None None.
Definition insert_job (spec : JobSpec) (status : string) (e : Env) (db : JobDB) : UploadJob * JobDB :=
  let j := new_job (job_serial db) spec status e in
  (j, mkJobDB (<[job_serial db := j]> (jobs db)) (job_serial db + 1)).

(** The columns of the insert, an empty metadata or privacy level defaulted.
    The JSON encoding of the targets cannot fail for a list of integers. *)
(* 152-175 createUploadJob *)
Definition create_columns (spec : JobSpec) : JobSpec :=
  let metadataJSON := if bool_decide (Metadata spec = "") then "{}" else Metadata spec in
  let privacyLevel :=
    if bool_decide (DefaultPrivacyLevel spec = "") then "private" else DefaultPrivacyLevel spec in
  mkJobSpec (UserID spec) (WorkspaceID spec) (SourceType spec) (SourceID spec)
    (DriveAccountID spec) (FolderID spec) (Title spec) (Caption spec) metadataJSON
    privacyLevel (Targets spec) (IngestAfter spec) (PublishAt spec) (BatchID spec)
    (MaxAttempts spec) (Priority spec) (CreatedAt spec).
(* 151-212 createUploadJob *)
Definition createUploadJob (spec : JobSpec) (status : string) : M JobDB UploadJob :=
  raw $ exec "create upload job" (insert_job (create_columns spec) status).
(* 214-216 UploadJobRepository.Create *)
Definition Create (spec : JobSpec) (status : string) : M JobDB UploadJob :=
  createUploadJob spec status.
(* 219-236 UploadJobRepository.FindByID *)
Definition FindByID (id : Z) : M JobDB (option UploadJob) :=
  raw $ exec "find upload job" (λ _ db, (jobs db !! id, db)).

(** ** Claiming *)
(* Source: internal/repository/upload_job_scan.go *)
Definition le_opt_now (now : Z) (o : option Z) : bool :=
  match o with None => true | Some t => t <=? now end.
(** [lease_expires_at IS NULL OR lease_expires_at < NOW()]. *)
Definition lease_over (now : Z) (j : UploadJob) : bool :=
  match LeaseExpiresAt (Lease j) with None => true | Some u => u <? now end.
Definition is_status (s : string) (j : UploadJob) : bool := bool_decide (job_status j = s).
Definition has_asset (j : UploadJob) : bool := bool_decide (AssetID j ≠ None).

(* 82-88 SQLClaimBatch *)
Definition ingest_candidate (now : Z) (j : UploadJob) : bool :=
  (is_status "pending" j || is_status "retry_wait" j) &&
  (is_status "pending" j || negb (has_asset j)) &&
  le_opt_now now (NextAttemptAt j) && le_opt_now now (IngestAfter (Spec j)) && lease_over now j.
(* 113-120 SQLClaimBatchForPublish *)
Definition publish_candidate (now : Z) (j : UploadJob) : bool :=
  (is_status "ingest_completed" j || (is_status "retry_wait" j && has_asset j)) &&
  le_opt_now now (IngestAfter (Spec j)) && le_opt_now now (NextAttemptAt j) && lease_over now j.
(** [ORDER BY priority ASC, created_at ASC, id ASC]. *)
(* 89-89 SQLClaimBatch *)
Definition claim_order (j1 j2 : UploadJob) : bool :=
  (Priority (Spec j1) <? Priority (Spec j2)) ||
  ((Priority (Spec j1) =? Priority (Spec j2)) &&
    ((CreatedAt (Spec j1) <? CreatedAt (Spec j2)) ||
      ((CreatedAt (Spec j1) =? CreatedAt (Spec j2)) && (ID j1 <=? ID j2)))).

(** [SELECT id ... ORDER BY ... FOR UPDATE SKIP LOCKED LIMIT n]. *)
Definition select_ids (cand : Z → UploadJob → bool) (order : UploadJob → UploadJob → bool)
    (limit : Z) (e : Env) (db : JobDB) : list Z :=
  ID <$> take (Z.to_nat limit) (sort_by order
    (List.filter (λ j, cand (db_now e) j && negb (held e (ID j))) (map_to_list (jobs db)).*2)).

(* 93-100 SQLClaimBatch *)
Definition leased_job (workerID : string) (leaseUntil : Z) (e : Env) (j : UploadJob) : UploadJob :=
  mkUploadJob (ID j) (Spec j) (Session j)
    (mkJobLease (Some workerID) (Some leaseUntil) (Some (db_now e)))
    (mkJobStatus UploadJobStatusLeased (ErrorMessage (State j)) (ErrorCode (State j))
       (CompletedAt (State j)))
    (PostID j) (AssetID j) (db_now e) (AttemptCount j + 1) (NextAttemptAt j) (ProgressBytes j)
    (TotalBytes j)
    (match StartedAt j with Some t => Some t | None => Some (db_now e) end).
(* 79-108 SQLClaimBatch *)
Definition claim_statement (cand : Z → UploadJob → bool) (workerID : string) (limit leaseUntil : Z)
    (e : Env) (db : JobDB) : list UploadJob * JobDB :=
  let ids := select_ids cand claim_order limit e db in
  let t := update_ids ids (leased_job workerID leaseUntil e) (jobs db) in
  (omap (λ id, t !! id) ids, mkJobDB t (job_serial db)).
(* 79-108 SQLClaimBatch *)
Definition SQLClaimBatch : string → Z → Z → Env → JobDB → list UploadJob * JobDB :=
  claim_statement ingest_candidate.
(* 110-140 SQLClaimBatchForPublish *)
Definition SQLClaimBatchForPublish : string → Z → Z → Env → JobDB → list UploadJob * JobDB :=
  claim_statement publish_candidate.

(* Source: internal/repository/upload_job_claim.go *)
Definition claim_batch (name workerID : string) (limit lease : Z)
    (stmt : string → Z → Z → Env → JobDB → list UploadJob * JobDB) : M JobDB (list UploadJob) :=
  if bool_decide (workerID = "") then throw (errors_new (name +:+ ": empty workerID"))
  else if limit <=? 0 then mret []
  else if lease <=? 0 then
    throw (errors_new (name +:+ ": non-positive lease (" +:+ Duration_String lease +:+ ")"))
  else
    env ← ask;
    exec name (stmt workerID limit (app_now env + lease)).
(* 37-70 UploadJobRepository.ClaimBatchForPublish *)
Definition ClaimBatchForPublish (workerID : string) (limit lease : Z) : M JobDB (list UploadJob) :=
  claim_batch "upload job ClaimBatchForPublish" workerID limit lease SQLClaimBatchForPublish.
(* 106-136 UploadJobRepository.ClaimBatch *)
Definition ClaimBatch (workerID : string) (limit lease : Z) : M JobDB (list UploadJob) :=
  claim_batch "upload job ClaimBatch" workerID limit lease SQLClaimBatch.

(** ** The reaper *)
(* Source: internal/repository/upload_job_scan.go *)
(* 32-35 SQLReclaimExpiredLeases *)
Definition expired (now : Z) (j : UploadJob) : bool :=
  is_status "leased" j &&
  match LeaseExpiresAt (Lease j) with Some u => u <? now | None => false end &&
  match HeartbeatAt (Lease j) with Some h => h <? now - 5 * Minute | None => false end.
(** [ORDER BY lease_expires_at ASC]; the id decides ties. *)
(* 36-36 SQLReclaimExpiredLeases *)
Definition expiry_order (j1 j2 : UploadJob) : bool :=
  let u j := default 0 (LeaseExpiresAt (Lease j)) in
  (u j1 <? u j2) || ((u j1 =? u j2) && (ID j1 <=? ID j2)).
(* 40-51 SQLReclaimExpiredLeases *)
Definition reaped_job (e : Env) (j : UploadJob) : UploadJob :=
  mkUploadJob (ID j) (Spec j) no_session (mkJobLease None None None)
    (mkJobStatus UploadJobStatusPending (ErrorMessage (State j))
       (match ErrorCode (State j) with Some c => Some c | None => Some "lease_expired" end)
       (CompletedAt (State j)))
    (PostID j) (AssetID j) (db_now e) (AttemptCount j) (NextAttemptAt j) (ProgressBytes j)
    (TotalBytes j) (StartedAt j).
(* 29-53 SQLReclaimExpiredLeases *)
Definition SQLReclaimExpiredLeases (maxRows : Z) (e : Env) (db : JobDB) : nat * JobDB :=
  let ids := select_ids expired expiry_order maxRows e db in
  (length ids, mkJobDB (update_ids ids (reaped_job e) (jobs db)) (job_serial db)).

(* Source: internal/repository/upload_job_claim.go *)
(* 192-208 UploadJobRepository.ReclaimExpiredLeases *)
Definition ReclaimExpiredLeases (maxRows : Z) : M JobDB nat :=
  let maxRows := if maxRows <=? 0 then 100 else maxRows in
  k ← exec "upload job ReclaimExpiredLeases" (SQLReclaimExpiredLeases maxRows);
  rows_affected "upload job ReclaimExpiredLeases" k.

(** ** Statements guarded by the lease owner *)
(** [WHERE id = $ AND lease_owner = $ AND status = 'leased']. *)
Definition owned_by (workerID : string) (j : UploadJob) : bool :=
  bool_decide (job_owner j = Some workerID) && is_status "leased" j.
Definition owned_update (id : Z) (workerID : string) (f : Env → UploadJob → UploadJob)
    (e : Env) (db : JobDB) : nat * JobDB :=
  on_jobs (update_row id (owned_by workerID) (f e)) db.
Definition lease_lost (id : Z) (workerID : string) : err :=
  wrap_suffix ErrUploadJobLeaseLost ("id=" +:+ itoa id +:+ " workerID=" +:+ workerID).
(** [op] and [rows_op] are the prefixes of the two driver errors. *)
Definition exec_owned (op rows_op : string) (id : Z) (workerID : string)
    (f : Env → UploadJob → UploadJob) : M JobDB unit :=
  k ← exec op (owned_update id workerID f);
  n ← map_err (λ _, db_err rows_op) (rows_affected op k);
  if bool_decide (n = O) then throw (lease_lost id workerID) else mret tt.

Definition no_lease : JobLease := mkJobLease None None None.
(** [lease_owner = NULL, lease_expires_at = NULL], the heartbeat kept. *)
Definition drop_lease (j : UploadJob) : JobLease := mkJobLease None None (HeartbeatAt (Lease j)).

(* 157-163 UploadJobRepository.Heartbeat *)
Definition heartbeat_job (leaseUntil : Z) (e : Env) (j : UploadJob) : UploadJob :=
  mkUploadJob (ID j) (Spec j) (Session j)
    (mkJobLease (job_owner j) (Some leaseUntil) (Some (db_now e))) (State j) (PostID j) (AssetID j)
    (UpdatedAt j) (AttemptCount j) (NextAttemptAt j) (ProgressBytes j) (TotalBytes j) (StartedAt j).
(* 149-177 UploadJobRepository.Heartbeat *)
Definition Heartbeat (jobID : Z) (workerID : string) (lease : Z) : M JobDB unit :=
  if bool_decide (workerID = "") then throw (errors_new "upload job Heartbeat: empty workerID")
  else if lease <=? 0 then
    throw (errors_new ("upload job Heartbeat: non-positive lease (" +:+ Duration_String lease +:+ ")"))
  else
    env ← ask;
    exec_owned "upload job Heartbeat" "upload job Heartbeat rows affected" jobID workerID
      (heartbeat_job (app_now env + lease)).

(* Source: internal/repository/upload_job_retry.go *)
(* 22-34 UploadJobRepository.MarkCompleted *)
Definition completed_job (postID : Z) (assetID : string) (e : Env) (j : UploadJob) : UploadJob :=
  mkUploadJob (ID j) (Spec j) (Session j) (drop_lease j)
    (mkJobStatus UploadJobStatusPublishCompleted None None (Some (db_now e)))
    (Some postID) (Some assetID) (db_now e) (AttemptCount j) (NextAttemptAt j) (ProgressBytes j)
    (TotalBytes j) (StartedAt j).
(* 20-48 UploadJobRepository.MarkCompleted *)
Definition MarkCompleted (id : Z) (workerID : string) (postID : Z) (assetID : string) : M JobDB unit :=
  exec_owned "failed to mark upload job completed" "failed to read rows affected" id workerID
    (completed_job postID assetID).

(* 54-66 UploadJobRepository.MarkPrepared *)
Definition prepared_job (postID : Z) (assetID : string) (e : Env) (j : UploadJob) : UploadJob :=
  mkUploadJob (ID j) (Spec j) (Session j) no_lease
    (mkJobStatus UploadJobStatusPublishScheduled None None (CompletedAt (State j)))
    (Some postID) (Some assetID) (db_now e) (AttemptCount j) (NextAttemptAt j) (ProgressBytes j)
    (TotalBytes j) (StartedAt j).
(* 52-80 UploadJobRepository.MarkPrepared *)
Definition MarkPrepared (id : Z) (workerID : string) (postID : Z) (assetID : string) : M JobDB unit :=
  exec_owned "failed to mark upload job prepared" "failed to read prepared rows affected" id workerID
    (prepared_job postID assetID).

(** [NULLIF(code, '')], also what a nil argument stands for. *)
Definition nullif_empty (code : string) : option string :=
  if bool_decide (code = "") then None else Some code.
(* 94-104 UploadJobRepository.MarkFailed *)
Definition failed_job (errorCode errMessage : string) (e : Env) (j : UploadJob) : UploadJob :=
  mkUploadJob (ID j) (Spec j) (Session j) (drop_lease j)
    (mkJobStatus UploadJobStatusFailed (Some errMessage) (nullif_empty errorCode) (Some (db_now e)))
    (PostID j) (AssetID j) (db_now e) (AttemptCount j) (NextAttemptAt j) (ProgressBytes j)
    (TotalBytes j) (StartedAt j).
(* 92-118 UploadJobRepository.MarkFailed *)
Definition MarkFailed (id : Z) (workerID errorCode errMessage : string) : M JobDB unit :=
  exec_owned "failed to mark upload job failed" "failed to read rows affected" id workerID
    (failed_job errorCode errMessage).

(* 133-143 UploadJobRepository.MarkRetry *)
Definition retry_job (errorCode errMessage : string) (nextAttemptAt : Z) (e : Env) (j : UploadJob) :
    UploadJob :=
  mkUploadJob (ID j) (Spec j) (Session j) (drop_lease j)
    (mkJobStatus UploadJobStatusRetryWait (Some errMessage) (nullif_empty errorCode)
       (CompletedAt (State j)))
    (PostID j) (AssetID j) (db_now e) (AttemptCount j) (Some nextAttemptAt) (ProgressBytes j)
    (TotalBytes j) (StartedAt j).
(* 127-157 UploadJobRepository.MarkRetry *)
Definition MarkRetry (id : Z) (workerID errorCode errMessage : string) (nextAttemptAt : Z) :
    M JobDB unit :=
  exec_owned "failed to mark upload job retry" "failed to read rows affected" id workerID
    (retry_job errorCode errMessage nextAttemptAt).

(* 186-197 UploadJobRepository.MarkIngested *)
Definition ingested_job (assetID : string) (totalBytes : Z) (e : Env) (j : UploadJob) : UploadJob :=
  mkUploadJob (ID j) (Spec j) (Session j) no_lease
    (mkJobStatus UploadJobStatusIngestCompleted (ErrorMessage (State j)) (ErrorCode (State j))
       (CompletedAt (State j)))
    (PostID j) (Some assetID) (db_now e) (AttemptCount j) (NextAttemptAt j) totalBytes
    (Some totalBytes) (StartedAt j).
(* 178-211 UploadJobRepository.MarkIngested *)
Definition MarkIngested (id : Z) (workerID assetID : string) (totalBytes : Z) : M JobDB unit :=
  if bool_decide (workerID = "") then throw (errors_new "upload job MarkIngested: empty workerID")
  else if bool_decide (assetID = "") then throw (errors_new "upload job MarkIngested: empty assetID")
  else exec_owned "failed to mark upload job ingested" "failed to read rows affected" id workerID
         (ingested_job assetID totalBytes).

(** The code is stored as it is, the empty one included. *)
(* Source: internal/repository/upload_job_scan.go *)
(* 55-65 SQLMarkDeadLetter *)
Definition dead_job (errorCode errMessage : string) (e : Env) (j : UploadJob) : UploadJob :=
  mkUploadJob (ID j) (Spec j) (Session j) (drop_lease j)
    (mkJobStatus UploadJobStatusDeadLetter (Some errMessage) (Some errorCode) (Some (db_now e)))
    (PostID j) (AssetID j) (db_now e) (AttemptCount j) (NextAttemptAt j) (ProgressBytes j)
    (TotalBytes j) (StartedAt j).
(* Source: internal/repository/upload_job_dead_letter.go *)
(* 17-33 UploadJobRepository.MarkDeadLetter *)
Definition MarkDeadLetter (id : Z) (workerID errorCode errMessage : string) : M JobDB unit :=
  exec_owned "failed to mark upload job dead_letter" "failed to read rows affected" id workerID
    (dead_job errorCode errMessage).

(* Source: internal/repository/upload_job_scan.go *)
(* 67-77 SQLSaveYouTubeSession *)
Definition session_job (uri : string) (offset chunkSize expiresAt : Z) (e : Env) (j : UploadJob) :
    UploadJob :=
  mkUploadJob (ID j) (Spec j)
    (mkYouTubeSession (Some uri) (Some offset) (Some expiresAt) (Some chunkSize) (Some (db_now e)))
    (Lease j) (State j) (PostID j) (AssetID j) (db_now e) (AttemptCount j) (NextAttemptAt j) offset
    (TotalBytes j) (StartedAt j).
(* Source: internal/repository/upload_job_youtube_session.go *)
(** The zero [time.Time] is [0] here. *)
(* 12-36 UploadJobRepository.SaveYouTubeSession *)
Definition SaveYouTubeSession (id : Z) (workerID sessionURI : string) (offset chunkSize expiresAt : Z) :
    M JobDB unit :=
  if bool_decide (workerID = "") || bool_decide (sessionURI = "") || (offset <? 0) ||
     (chunkSize <=? 0) || (expiresAt =? 0)
  then throw (errors_new "upload job SaveYouTubeSession: invalid session arguments")
  else exec_owned "upload job SaveYouTubeSession" "upload job SaveYouTubeSession rows affected"
         id workerID (session_job sessionURI offset chunkSize expiresAt).
(* 45-55 UploadJobRepository.ClearYouTubeSession *)
Definition cleared_job (e : Env) (j : UploadJob) : UploadJob :=
  mkUploadJob (ID j) (Spec j) no_session (Lease j) (State j) (PostID j) (AssetID j) (db_now e)
    (AttemptCount j) (NextAttemptAt j) (ProgressBytes j) (TotalBytes j) (StartedAt j).
(* 41-69 UploadJobRepository.ClearYouTubeSession *)
Definition ClearYouTubeSession (id : Z) (workerID : string) : M JobDB unit :=
  if bool_decide (workerID = "") then
    throw (errors_new "upload job ClearYouTubeSession: empty worker ID")
  else exec_owned "upload job ClearYouTubeSession" "upload job ClearYouTubeSession rows affected"
         id workerID cleared_job.

(** ** What the user can do to a pending job *)
(** [WHERE id = $1 AND user_id = $2 AND status = 'pending']. *)
Definition pending_of (userID : Z) (j : UploadJob) : bool :=
  (UserID (Spec j) =? userID) && is_status "pending" j.
Definition with_spec (f : JobSpec → JobSpec) (e : Env) (j : UploadJob) : UploadJob :=
  mkUploadJob (ID j) (f (Spec j)) (Session j) (Lease j) (State j) (PostID j) (AssetID j) (db_now e)
    (AttemptCount j) (NextAttemptAt j) (ProgressBytes j) (TotalBytes j) (StartedAt j).
Definition pending_update (jobID userID : Z) (f : JobSpec → JobSpec) (e : Env) :
    JobDB → nat * JobDB := on_jobs (update_row jobID (pending_of userID) (with_spec f e)).
(** The [UPDATE], the affected rows, and the row read again. *)
Definition update_pending (op rows_op reread : string) (jobID userID : Z)
    (f : JobSpec → JobSpec) : M JobDB UploadJob :=
  k ← exec op (pending_update jobID userID f);
  n ← map_err (λ _, db_err rows_op) (rows_affected op k);
  if bool_decide (n = O) then throw ErrUploadJobNotFound
  else
    oj ← map_err (wrap reread) (FindByID jobID);
    match oj with
    | Some j => if UserID (Spec j) =? userID then mret j else throw ErrUploadJobNotFound
    | None => throw ErrUploadJobNotFound
    end.

(* Source: internal/repository/upload_job_calendar.go *)
Definition with_publish_at (t : Z) (s : JobSpec) : JobSpec :=
  mkJobSpec (UserID s) (WorkspaceID s) (SourceType s) (SourceID s) (DriveAccountID s)
    (FolderID s) (Title s) (Caption s) (Metadata s) (DefaultPrivacyLevel s) (Targets s)
    (IngestAfter s) (Some t) (BatchID s) (MaxAttempts s) (Priority s) (CreatedAt s).
(* 119-148 UploadJobRepository.Reschedule *)
Definition Reschedule (jobID userID newPublishAt : Z) : M JobDB UploadJob :=
  update_pending "failed to reschedule upload job" "failed to read rows affected"
    "failed to re-read after reschedule" jobID userID
    (with_publish_at newPublishAt).
(* 232-238 UploadJobRepository.Cancel *)
Definition delete_pending (jobID userID : Z) (_ : Env) : JobDB → nat * JobDB := on_jobs (λ t,
  match t !! jobID with
  | Some j => if pending_of userID j then (1%nat, delete jobID t) else (0%nat, t)
  | None => (0%nat, t)
  end).
(* 231-250 UploadJobRepository.Cancel *)
Definition Cancel (jobID userID : Z) : M JobDB unit :=
  k ← exec "failed to cancel upload job" (delete_pending jobID userID);
  n ← map_err (λ _, db_err "failed to read rows affected") (rows_affected "cancel" k);
  if bool_decide (n = O) then throw ErrUploadJobNotFound else mret tt.

(* Source: internal/repository/upload_job_metadata.go *)
(* 27-31 UploadJobRepository.UpdateScheduledContent *)
Definition with_content (title caption : option string) (metadata : string) (metadataSet : bool)
    (s : JobSpec) : JobSpec :=
  mkJobSpec (UserID s) (WorkspaceID s) (SourceType s) (SourceID s) (DriveAccountID s)
    (FolderID s) (default (Title s) title) (default (Caption s) caption)
    (if metadataSet then metadata else Metadata s) (DefaultPrivacyLevel s) (Targets s)
    (IngestAfter s) (PublishAt s) (BatchID s) (MaxAttempts s) (Priority s) (CreatedAt s).
(* 16-55 UploadJobRepository.UpdateScheduledContent *)
Definition UpdateScheduledContent (jobID userID : Z) (title caption : option string)
    (metadata : string) (metadataSet : bool) : M JobDB UploadJob :=
  if (jobID <=? 0) || (userID <=? 0) then throw ErrUploadJobNotFound
  else update_pending "failed to update scheduled upload content"
    "failed to read scheduled content rows affected"
    "failed to reread scheduled upload content" jobID userID
    (with_content title caption metadata metadataSet).

(** ** Duplicates *)
(* Source: internal/repository/upload_job_dedupe.go *)
Definition duplicateUploadJobMessage : string := "duplicate source suppressed before upload". (* 11 *)
(** The in-place compaction of a sorted slice: [last] is [canonical[write-1]]. *)
(* 164-171 canonicalUploadTargets *)
Fixpoint compact (last : Z) (l : list Z) : list Z :=
  match l with
  | [] => []
  | x :: l' => if x =? last then compact last l' else x :: compact x l'
  end.
(* 156-173 canonicalUploadTargets *)
Definition canonicalUploadTargets (targets : list Z) : list Z :=
  match merge_sort Z.le targets with
  | [] => []
  | x :: l => x :: compact x l
  end.

Definition with_targets (targets : list Z) (s : JobSpec) : JobSpec :=
  mkJobSpec (UserID s) (WorkspaceID s) (SourceType s) (SourceID s) (DriveAccountID s)
    (FolderID s) (Title s) (Caption s) (Metadata s) (DefaultPrivacyLevel s) targets
    (IngestAfter s) (PublishAt s) (BatchID s) (MaxAttempts s) (Priority s) (CreatedAt s).
(** The key of a source, compared with [IS NOT DISTINCT FROM]. *)
(* 52-58 CreateIfSourceAbsent *)
Definition same_source (s : JobSpec) (j : UploadJob) : bool :=
  (UserID (Spec j) =? UserID s) && bool_decide (SourceType (Spec j) = SourceType s) &&
  bool_decide (SourceID (Spec j) = SourceID s) &&
  bool_decide (DriveAccountID (Spec j) = DriveAccountID s) &&
  bool_decide (Targets (Spec j) = Targets s) && negb (is_status "failed" j).
Definition all_jobs (db : JobDB) : list UploadJob := (map_to_list (jobs db)).*2.
(** The insert names neither the metadata nor the batch, and takes the privacy
    as it is. *)
(* 72-96 UploadJobRepository.CreateIfSourceAbsent *)
Definition absent_columns (spec : JobSpec) : JobSpec :=
  mkJobSpec (UserID spec) (WorkspaceID spec) (SourceType spec) (SourceID spec)
    (DriveAccountID spec) (FolderID spec) (Title spec) (Caption spec) "{}"
    (DefaultPrivacyLevel spec) (Targets spec) (IngestAfter spec) (PublishAt spec) None
    (MaxAttempts spec) (Priority spec) (CreatedAt spec).
(** The advisory lock serialises callers with the same source; the transaction
    is atomic here. *)
(* 21-105 UploadJobRepository.CreateIfSourceAbsent *)
Definition CreateIfSourceAbsent (spec0 : JobSpec) (status : string) : M JobDB (option UploadJob) :=
  let spec := with_targets (canonicalUploadTargets (Targets spec0)) spec0 in
  transact "failed to begin upload job dedupe tx" (
    _ ← exec "failed to lock upload job source" (λ _ db, (tt, db));
    dup ← exec "failed to check upload job source" (λ _ db,
             (existsb (same_source spec) (all_jobs db), db));
    if (dup : bool) then mret (Commit None)
    else
      j ← exec "failed to create upload job" (insert_job (absent_columns spec) status);
      mret (Commit (Some j))).

(* 118-125 SuppressPendingDuplicates *)
Definition status_rank (s : string) : Z :=
  if bool_decide (s = "completed") then 0
  else if bool_decide (s = "processing") then 1
  else if bool_decide (s = "leased") then 1
  else if bool_decide (s = "pending") then 2
  else if bool_decide (s = "retry_wait") then 2
  else 3.
(** [PARTITION BY user_id, source_type, source_id, COALESCE(drive_account_id, 0),
    targets]. *)
(* 116-116 SuppressPendingDuplicates *)
Definition same_partition (j1 j2 : UploadJob) : bool :=
  (UserID (Spec j1) =? UserID (Spec j2)) &&
  bool_decide (SourceType (Spec j1) = SourceType (Spec j2)) &&
  bool_decide (SourceID (Spec j1) = SourceID (Spec j2)) &&
  (default 0 (DriveAccountID (Spec j1)) =? default 0 (DriveAccountID (Spec j2))) &&
  bool_decide (Targets (Spec j1) = Targets (Spec j2)).
Definition rank_before (j1 j2 : UploadJob) : bool :=
  let r j := status_rank (job_status j) in
  (r j1 <? r j2) || ((r j1 =? r j2) && (ID j1 <? ID j2)).
(** [duplicate_rank > 1]: some other row of the partition comes first. *)
(* 112-135 SuppressPendingDuplicates *)
Definition is_duplicate (userID : Z) (db : JobDB) (j : UploadJob) : bool :=
  (UserID (Spec j) =? userID) && negb (is_status "failed" j) &&
  existsb (λ j', (UserID (Spec j') =? userID) && negb (is_status "failed" j') &&
                 same_partition j' j && rank_before j' j) (all_jobs db).
(* 136-142 SuppressPendingDuplicates *)
Definition suppressed_job (e : Env) (j : UploadJob) : UploadJob :=
  mkUploadJob (ID j) (Spec j) (Session j) (Lease j)
    (mkJobStatus UploadJobStatusFailed (Some duplicateUploadJobMessage) (ErrorCode (State j))
       (CompletedAt (State j)))
    (PostID j) (AssetID j) (db_now e) (AttemptCount j) (NextAttemptAt j) (ProgressBytes j)
    (TotalBytes j) (StartedAt j).
(* 111-145 SuppressPendingDuplicates *)
Definition suppress_statement (userID : Z) (e : Env) (db : JobDB) : nat * JobDB :=
  let hit j := is_duplicate userID db j && is_status "pending" j in
  (length (List.filter hit (all_jobs db)),
   mkJobDB (update_where hit (suppressed_job e) (jobs db)) (job_serial db)).
(* 110-154 UploadJobRepository.SuppressPendingDuplicates *)
Definition SuppressPendingDuplicates (userID : Z) : M JobDB nat :=
  k ← exec "failed to suppress duplicate upload jobs" (suppress_statement userID);
  map_err (λ _, db_err "failed to read duplicate upload job count")
    (rows_affected "suppress" k).

(** ** Operations of the queue, as one type *)
Inductive JobOp :=
| OpCreate (spec : JobSpec) (status : string)
| OpCreateIfSourceAbsent (spec : JobSpec) (status : string)
| OpClaimBatch (workerID : string) (limit lease : Z)
| OpClaimBatchForPublish (workerID : string) (limit lease : Z)
| OpReclaimExpiredLeases (maxRows : Z)
| OpHeartbeat (id : Z) (workerID : string) (lease : Z)
| OpMarkCompleted (id : Z) (workerID : string) (postID : Z) (assetID : string)
| OpMarkPrepared (id : Z) (workerID : string) (postID : Z) (assetID : string)
| OpMarkFailed (id : Z) (workerID errorCode errMessage : string)
| OpMarkRetry (id : Z) (workerID errorCode errMessage : string) (nextAttemptAt : Z)
| OpMarkIngested (id : Z) (workerID assetID : string) (totalBytes : Z)
| OpMarkDeadLetter (id : Z) (workerID errorCode errMessage : string)
| OpSaveYouTubeSession (id : Z) (workerID sessionURI : string) (offset chunkSize expiresAt : Z)
| OpClearYouTubeSession (id : Z) (workerID : string)
| OpReschedule (id userID newPublishAt : Z)
| OpUpdateScheduledContent (id userID : Z) (title caption : option string) (metadata : string)
    (metadataSet : bool)
| OpCancel (id userID : Z)
| OpSuppressPendingDuplicates (userID : Z).

Definition ignore {S A} (m : M S A) : M S unit := _ ← m; mret tt.
Definition run_op (op : JobOp) : M JobDB unit :=
  match op with
  | OpCreate s st => ignore (Create s st)
  | OpCreateIfSourceAbsent s st => ignore (CreateIfSourceAbsent s st)
  | OpClaimBatch w n l => ignore (ClaimBatch w n l)
  | OpClaimBatchForPublish w n l => ignore (ClaimBatchForPublish w n l)
  | OpReclaimExpiredLeases n => ignore (ReclaimExpiredLeases n)
  | OpHeartbeat id w l => Heartbeat id w l
  | OpMarkCompleted id w p a => MarkCompleted id w p a
  | OpMarkPrepared id w p a => MarkPrepared id w p a
  | OpMarkFailed id w c m => MarkFailed id w c m
  | OpMarkRetry id w c m t => MarkRetry id w c m t
  | OpMarkIngested id w a n => MarkIngested id w a n
  | OpMarkDeadLetter id w c m => MarkDeadLetter id w c m
  | OpSaveYouTubeSession id w u o c x => SaveYouTubeSession id w u o c x
  | OpClearYouTubeSession id w => ClearYouTubeSession id w
  | OpReschedule id u t => ignore (Reschedule id u t)
  | OpUpdateScheduledContent id u t c m b => ignore (UpdateScheduledContent id u t c m b)
  | OpCancel id u => Cancel id u
  | OpSuppressPendingDuplicates u => ignore (SuppressPendingDuplicates u)
  end.
(** Producers create jobs as [pending]. *)
Definition op_ok (op : JobOp) : Prop :=
  match op with
  | OpCreate _ st | OpCreateIfSourceAbsent _ st => st = UploadJobStatusPending
  | _ => True
  end.
Definition history := list (Env * JobOp).
Definition run_history (h : history) (db : JobDB) : JobDB :=
  foldl (λ db eo, state_of (run_op eo.2 eo.1 (db, O))) db h.

(** ** The life of a job *)
Definition job_transitions : table :=
  [(UploadJobStatusPending, [UploadJobStatusLeased; UploadJobStatusFailed]);
   (UploadJobStatusRetryWait, [UploadJobStatusLeased]);
   (UploadJobStatusIngestCompleted, [UploadJobStatusLeased]);
   (UploadJobStatusLeased,
      [UploadJobStatusPending; UploadJobStatusRetryWait; UploadJobStatusIngestCompleted;
       UploadJobStatusPublishScheduled; UploadJobStatusPublishCompleted;
       UploadJobStatusFailed; UploadJobStatusDeadLetter]);
   (UploadJobStatusPublishScheduled, []);
   (UploadJobStatusPublishCompleted, []);
   (UploadJobStatusFailed, []);
   (UploadJobStatusDeadLetter, [])].

Record job_ok (id : Z) (j : UploadJob) : Prop := {
  ok_id : ID j = id;
  ok_known : table_lookup job_transitions (job_status j) ≠ None;
  ok_leased : job_status j = UploadJobStatusLeased ↔ job_owner j ≠ None;
  ok_expiry : job_owner j = None ↔ LeaseExpiresAt (Lease j) = None;
  ok_beat : job_owner j ≠ None → HeartbeatAt (Lease j) ≠ None ∧ 1 ≤ AttemptCount j;
  ok_attempts : 0 ≤ AttemptCount j;
  ok_asset : IsPrepared (job_status j) = true → AssetID j ≠ None;
  ok_post : IsPublishTerminal (job_status j) = true ∨
            job_status j = UploadJobStatusPublishScheduled → PostID j ≠ None
}.
Record job_evolves (j j' : UploadJob) : Prop := {
  ev_status : reach job_transitions (job_status j) (job_status j');
  ev_source : (ID j', UserID (Spec j'), SourceType (Spec j'), SourceID (Spec j'),
               DriveAccountID (Spec j'), Targets (Spec j'), MaxAttempts (Spec j')) =
              (ID j, UserID (Spec j), SourceType (Spec j), SourceID (Spec j),
               DriveAccountID (Spec j), Targets (Spec j), MaxAttempts (Spec j));
  ev_attempts : AttemptCount j ≤ AttemptCount j';
  ev_asset : AssetID j ≠ None → AssetID j' ≠ None;
  ev_frozen : successors job_transitions (job_status j) = [] → j' = j
}.
Record db_ok (db : JobDB) : Prop := {
  ok_rows : map_Forall job_ok (jobs db);
  ok_serial : ∀ id, is_Some (jobs db !! id) → id < job_serial db
}.
(** Only a row that is not at the end of its life can disappear, and a row that
    did never comes back. *)
Record db_grows (db db' : JobDB) : Prop := {
  gr_rows : ∀ id j, jobs db !! id = Some j →
    match jobs db' !! id with
    | Some j' => job_evolves j j'
    | None => successors job_transitions (job_status j) ≠ []
    end;
  gr_gone : ∀ id, id < job_serial db → jobs db !! id = None → jobs db' !! id = None;
  gr_serial : job_serial db ≤ job_serial db'
}.
Definition safe_step (db db' : JobDB) : Prop := db_ok db → db_ok db' ∧ db_grows db db'.

#[export] Instance job_evolves_preorder : PreOrder job_evolves.
Proof.
  split.
  - intros j. by constructor.
  - intros j1 j2 j3 [R1 S1 A1 T1 F1] [R2 S2 A2 T2 F2].
    constructor; [by etrans|congruence|lia|auto|].
    intros H. rewrite F2, F1; try done. by rewrite F1.
Qed.
#[export] Instance job_safe_preorder : PreOrder safe_step.
Proof.
  split.
  - intros db Hok. split; [done|]. split; [|done|done]. intros id j Hj. by rewrite Hj.
  - intros d1 d2 d3 H12 H23 H1. destruct (H12 H1) as [H2 [G1 N1 S1]].
    destruct (H23 H2) as [H3 [G2 N2 S2]]. split; [done|]. split; [|intros; apply N2; auto; lia|lia].
    intros id j Hj. specialize (G1 id j Hj).
    destruct (jobs d2 !! id) as [j2|] eqn:E2.
    + specialize (G2 id j2 E2). destruct (jobs d3 !! id) as [j3|]; [by etrans|].
      intros Hn. by rewrite (ev_frozen _ _ G1 Hn) in G2.
    + rewrite N2; [done| |done]. assert (id < job_serial d1); [|lia].
      apply (ok_serial _ H1). by exists j.
Qed.

(** Rewriting rows by safe functions is a safe step. *)
Lemma rewrite_safe (db : JobDB) (t : gmap Z UploadJob) :
  (∀ id, t !! id = jobs db !! id ∨
     ∃ j j', jobs db !! id = Some j ∧ t !! id = Some j' ∧
       (job_ok id j → job_ok id j' ∧ job_evolves j j')) →
  safe_step db (mkJobDB t (job_serial db)).
Proof.
  intros Ht [Hrows Hserial]. split; [split|split; [| |done]]; simpl.
  - intros id j' Hj'. destruct (Ht id) as [E|(j & j2 & Hj & E & H)].
    + rewrite E in Hj'. by apply Hrows.
    + rewrite E in Hj'. injection Hj' as <-. by apply H, Hrows.
  - intros id Hid. apply Hserial. destruct (Ht id) as [<-|(j & j2 & Hj & _)]; [done|by exists j].
  - intros id j Hj. destruct (Ht id) as [E|(j1 & j2 & Hj1 & E & H)].
    + by rewrite E, Hj.
    + rewrite E. simplify_eq. apply H. by apply Hrows.
  - intros id _ Hn. destruct (Ht id) as [E|(j1 & j2 & Hj1 & _)]; congruence.
Qed.

Lemma job_row_safe id p f db :
  (∀ j, job_ok id j → p j = true → job_ok id (f j) ∧ job_evolves j (f j)) →
  safe_step db (mkJobDB (update_row id p f (jobs db)).2 (job_serial db)).
Proof.
  intros Hf. apply rewrite_safe. intros k. destruct (decide (k = id)) as [->|Hne].
  - destruct (jobs db !! id) as [j|] eqn:Hj.
    + rewrite (update_row_row _ _ _ _ _ Hj). destruct (p j) eqn:Hp; [|by left].
      right. exists j, (f j). split; [done|]. split; [done|]. intros Hok. by apply Hf.
    + left. unfold update_row. by rewrite Hj.
  - left. by rewrite update_row_other.
Qed.

Lemma job_ids_safe (ids : list Z) f db :
  (∀ id j, id ∈ ids → jobs db !! id = Some j → job_ok id j → job_ok id (f j) ∧ job_evolves j (f j)) →
  safe_step db (mkJobDB (update_ids ids f (jobs db)) (job_serial db)).
Proof.
  intros Hf. apply rewrite_safe. intros k. rewrite update_ids_lookup.
  destruct (jobs db !! k) as [j|] eqn:Hj; simpl; [|by left].
  case_bool_decide as Hk; [|by left]. right. exists j, (f j).
  split; [done|]. split; [done|]. by apply Hf.
Qed.

Lemma owned_by_spec w j : owned_by w j = true ↔ job_owner j = Some w ∧ job_status j = "leased".
Proof. unfold owned_by, is_status. by rewrite andb_true_iff, !bool_decide_eq_true. Qed.

Lemma owned_update_state id w f e db :
  (owned_update id w f e db).2 =
  mkJobDB (update_row id (owned_by w) (f e) (jobs db)).2 (job_serial db).
Proof. unfold owned_update, on_jobs. by destruct (update_row _ _ _ _). Qed.

Lemma exec_owned_safe op rop id w f :
  (∀ e j, job_ok id j → job_owner j = Some w → job_status j = "leased" →
     job_ok id (f e j) ∧ job_evolves j (f e j)) →
  respects safe_step (exec_owned op rop id w f).
Proof.
  intros Hf. unfold exec_owned. respects_tac. apply respects_exec; [apply _|].
  intros e db. rewrite owned_update_state. apply job_row_safe.
  intros j Hj [Ho Hs]%owned_by_spec. by apply Hf.
Qed.

(** A leased row may go to any of the statuses in the row of the table. *)
Lemma leased_to s : s ∈ successors job_transitions UploadJobStatusLeased →
  reach job_transitions UploadJobStatusLeased s.
Proof. intros H. apply rtc_once. by apply bool_decide_eq_true. Qed.

Ltac owned_row :=
  let e := fresh "e" in let j := fresh "j" in let H := fresh "H" in
  let Ho := fresh "Ho" in let Hs := fresh "Hs" in
  intros e j H Ho Hs; destruct H as [? ? ? Hexp Hbeat ? ? ?];
  destruct Hbeat as [? ?]; [by rewrite Ho|];
  split; constructor; unfold job_status, job_owner in *; simpl;
  try rewrite Hs; try rewrite Ho; try done;
  try solve [lia | congruence | apply leased_to; decide_closed | naive_solver | intros H'; discriminate H'
            | intros [H'|H']; discriminate H'].

Lemma MarkCompleted_safe id w p a : respects safe_step (MarkCompleted id w p a).
Proof. apply exec_owned_safe. owned_row. Qed.
Lemma MarkPrepared_safe id w p a : respects safe_step (MarkPrepared id w p a).
Proof. apply exec_owned_safe. owned_row. Qed.
Lemma job_MarkFailed_safe id w c m : respects safe_step (MarkFailed id w c m).
Proof. apply exec_owned_safe. owned_row. Qed.
Lemma MarkRetry_safe id w c m t : respects safe_step (MarkRetry id w c m t).
Proof. apply exec_owned_safe. owned_row. Qed.
Lemma MarkIngested_safe id w a n : respects safe_step (MarkIngested id w a n).
Proof. unfold MarkIngested. respects_tac. apply exec_owned_safe. owned_row. Qed.
Lemma job_MarkDeadLetter_safe id w c m : respects safe_step (MarkDeadLetter id w c m).
Proof. apply exec_owned_safe. owned_row. Qed.
Lemma Heartbeat_safe id w l : respects safe_step (Heartbeat id w l).
Proof. unfold Heartbeat. respects_tac. apply exec_owned_safe. owned_row. Qed.
Lemma SaveYouTubeSession_safe id w u o c x : respects safe_step (SaveYouTubeSession id w u o c x).
Proof. unfold SaveYouTubeSession. respects_tac. apply exec_owned_safe. owned_row. Qed.
Lemma ClearYouTubeSession_safe id w : respects safe_step (ClearYouTubeSession id w).
Proof. unfold ClearYouTubeSession. respects_tac. apply exec_owned_safe. owned_row. Qed.

(** ** The other operations are safe too *)
Lemma insert_job_safe spec e db :
  safe_step db (insert_job spec UploadJobStatusPending e db).2.
Proof.
  intros [Hrows Hserial]. unfold insert_job. simpl.
  assert (Hfresh : jobs db !! job_serial db = None).
  { apply eq_None_not_Some. intros H. specialize (Hserial _ H). lia. }
  split; [split|split]; simpl.
  - apply map_Forall_insert_2; [|done].
    constructor; unfold job_status, job_owner; simpl; try done.
    intros [H|H]; discriminate H.
  - intros id. rewrite lookup_insert_is_Some. intros [<-|[_ H]]; [lia|].
    specialize (Hserial _ H). lia.
  - intros id j Hj. rewrite lookup_insert_ne by congruence. by rewrite Hj.
  - intros id Hlt Hn. rewrite lookup_insert_ne by lia. done.
  - lia.
Qed.

Lemma Create_safe spec : respects safe_step (Create spec UploadJobStatusPending).
Proof.
  unfold Create, createUploadJob, raw. respects_tac. apply respects_exec; [apply _|].
  intros e db. apply insert_job_safe.
Qed.
Lemma CreateIfSourceAbsent_safe spec :
  respects safe_step (CreateIfSourceAbsent spec UploadJobStatusPending).
Proof.
  unfold CreateIfSourceAbsent. respects_tac; apply respects_exec; try apply _;
    intros e db; try done. apply insert_job_safe.
Qed.

Lemma select_ids_spec cand order limit e db id :
  db_ok db → id ∈ select_ids cand order limit e db →
  ∃ j, jobs db !! id = Some j ∧ cand (db_now e) j = true ∧ held e id = false.
Proof.
  intros Hok. unfold select_ids. intros (j & -> & Hj)%list_elem_of_fmap.
  assert (Hj2 : j ∈ sort_by order (List.filter (λ j, cand (db_now e) j && negb (held e (ID j)))
    (map_to_list (jobs db)).*2)).
  { rewrite <- (take_drop (Z.to_nat limit)). apply elem_of_app. by left. }
  clear Hj. rename Hj2 into Hj.
  rewrite sort_by_perm, list_elem_of_In, filter_In, <- list_elem_of_In in Hj.
  destruct Hj as [Hj [Hc Hh]%andb_true_iff]. apply negb_true_iff in Hh.
  apply list_elem_of_fmap in Hj as ([id j'] & -> & Hj%elem_of_map_to_list). simpl in *.
  pose proof (ok_id _ _ (ok_rows _ Hok _ _ Hj)) as Hid. rewrite Hid in *. by exists j'.
Qed.

Ltac row_ok :=
  split; constructor; unfold job_status, job_owner in *; simpl; try done;
  try solve [lia | by intros [] | by split | by intros _; split; [done|lia]].

Lemma candidate_status now j :
  ingest_candidate now j = true ∨ publish_candidate now j = true →
  job_status j ∈ ["pending"; "retry_wait"; "ingest_completed"].
Proof.
  unfold ingest_candidate, publish_candidate, is_status.
  rewrite !andb_true_iff, !orb_true_iff, !andb_true_iff, !bool_decide_eq_true.
  rewrite !elem_of_cons. tauto.
Qed.

Lemma leased_job_ok w u e id j :
  job_status j ∈ ["pending"; "retry_wait"; "ingest_completed"] →
  job_ok id j → job_ok id (leased_job w u e j) ∧ job_evolves j (leased_job w u e j).
Proof.
  intros Hs [? ? ? ? ? ? ? ?]. unfold leased_job. row_ok.
  - enum_cases Hs; by apply rtc_once.
  - by enum_cases Hs.
Qed.

Lemma claim_statement_safe cand w limit u e db :
  (∀ now j, cand now j = true → job_status j ∈ ["pending"; "retry_wait"; "ingest_completed"]) →
  safe_step db (claim_statement cand w limit u e db).2.
Proof.
  intros Hc Hok. revert Hok. unfold claim_statement. simpl. intros Hok.
  refine (job_ids_safe _ _ _ _ Hok). intros id j Hid Hj Hjok.
  destruct (select_ids_spec _ _ _ _ _ _ Hok Hid) as (j' & Hj' & Hcj & _). simplify_eq.
  apply leased_job_ok; [by eapply Hc|done].
Qed.

Lemma claim_batch_safe name w limit lease cand :
  (∀ now j, cand now j = true → job_status j ∈ ["pending"; "retry_wait"; "ingest_completed"]) →
  respects safe_step (claim_batch name w limit lease (claim_statement cand)).
Proof.
  intros Hc. unfold claim_batch. respects_tac. apply respects_exec; [apply _|].
  intros e db. by apply claim_statement_safe.
Qed.
Lemma ClaimBatch_safe w limit lease : respects safe_step (ClaimBatch w limit lease).
Proof. apply claim_batch_safe. eauto using candidate_status. Qed.
Lemma ClaimBatchForPublish_safe w limit lease :
  respects safe_step (ClaimBatchForPublish w limit lease).
Proof. apply claim_batch_safe. eauto using candidate_status. Qed.

Lemma reaped_job_ok e id j :
  job_status j = "leased" → job_ok id j → job_ok id (reaped_job e j) ∧ job_evolves j (reaped_job e j).
Proof.
  intros Hs [? ? ? ? ? ? ? ?]. unfold reaped_job. row_ok.
  - rewrite Hs. by apply rtc_once.
  - by rewrite Hs.
Qed.
Lemma ReclaimExpiredLeases_safe n : respects safe_step (ReclaimExpiredLeases n).
Proof.
  unfold ReclaimExpiredLeases. respects_tac. apply respects_exec; [apply _|].
  intros e db Hok. unfold SQLReclaimExpiredLeases. simpl.
  refine (job_ids_safe _ _ _ _ Hok). intros id j Hid Hj.
  destruct (select_ids_spec _ _ _ _ _ _ Hok Hid) as (j' & Hj' & Hcj & _). simplify_eq.
  apply reaped_job_ok. unfold expired, is_status in Hcj.
  by rewrite !andb_true_iff, bool_decide_eq_true in Hcj; destruct Hcj as [[? _] _].
Qed.

Lemma pending_of_spec u j : pending_of u j = true ↔ UserID (Spec j) = u ∧ job_status j = "pending".
Proof. unfold pending_of, is_status. by rewrite andb_true_iff, bool_decide_eq_true, Z.eqb_eq. Qed.

(** The part of the row that identifies the source. *)
Definition keeps_source (f : JobSpec → JobSpec) : Prop := ∀ s,
  (UserID (f s), SourceType (f s), SourceID (f s), DriveAccountID (f s), Targets (f s),
   MaxAttempts (f s)) =
  (UserID s, SourceType s, SourceID s, DriveAccountID s, Targets s, MaxAttempts s).

Lemma update_pending_safe op rop rr id u f :
  keeps_source f → respects safe_step (update_pending op rop rr id u f).
Proof.
  intros Hf. unfold update_pending, FindByID, raw. respects_tac; apply respects_exec; try apply _.
  - intros e db. unfold pending_update, on_jobs.
    destruct (update_row id (pending_of u) (with_spec f e) (jobs db)) as [k t] eqn:E.
    assert (t = (update_row id (pending_of u) (with_spec f e) (jobs db)).2) as -> by by rewrite E.
    apply job_row_safe. intros j [? ? ? ? ? ? ? ?] [_ Hs]%pending_of_spec.
    specialize (Hf (Spec j)). unfold with_spec. row_ok.
    + by injection Hf as -> -> -> -> -> ->.
    + by rewrite Hs.
  - intros e db. done.
Qed.
Lemma Reschedule_safe id u t : respects safe_step (Reschedule id u t).
Proof. by apply update_pending_safe. Qed.
Lemma UpdateScheduledContent_safe id u t c m b :
  respects safe_step (UpdateScheduledContent id u t c m b).
Proof. unfold UpdateScheduledContent. respects_tac. by apply update_pending_safe. Qed.

Lemma Cancel_safe id u : respects safe_step (Cancel id u).
Proof.
  unfold Cancel. respects_tac. apply respects_exec; [apply _|].
  intros e db. unfold delete_pending, on_jobs.
  destruct (jobs db !! id) as [j|] eqn:Hj; [|by destruct db].
  destruct (pending_of u j) eqn:Hp; [|by destruct db]. apply pending_of_spec in Hp as [_ Hs].
  intros [Hrows Hserial]. split; [split|split]; simpl; [| | | |done].
  - by apply map_Forall_delete.
  - intros k. rewrite lookup_delete_is_Some. intros [_ H]. by apply Hserial.
  - intros k j' Hj'. destruct (decide (k = id)) as [->|Hne].
    + rewrite lookup_delete_eq. simplify_eq. by rewrite Hs.
    + by rewrite lookup_delete_ne, Hj' by done.
  - intros k _ Hn. destruct (decide (k = id)) as [->|Hne].
    + apply lookup_delete_eq.
    + by rewrite lookup_delete_ne.
Qed.

Lemma SuppressPendingDuplicates_safe u : respects safe_step (SuppressPendingDuplicates u).
Proof.
  unfold SuppressPendingDuplicates. respects_tac. apply respects_exec; [apply _|].
  intros e db. simpl. apply rewrite_safe. intros k. rewrite update_where_lookup.
  destruct (jobs db !! k) as [j|]; [|by left]. simpl.
  destruct (is_duplicate u db j && is_status "pending" j) eqn:Hp; [|by left].
  apply andb_true_iff in Hp as [_ Hs]. apply bool_decide_eq_true in Hs.
  right. eexists _, _. split; [done|]. split; [done|]. intros [? ? Hl ? ? ? ? ?].
  unfold suppressed_job. row_ok.
  - unfold job_owner in *. simpl. split; [done|]. intros Ho. apply Hl in Ho. by rewrite Hs in Ho.
  - rewrite Hs. by apply rtc_once.
  - by rewrite Hs.
Qed.

Lemma respects_ignore {A} R `{!PreOrder R} (m : M JobDB A) : respects R m → respects R (ignore m).
Proof. intros Hm. unfold ignore. by respects_tac. Qed.

#[export] Hint Resolve MarkCompleted_safe MarkPrepared_safe job_MarkFailed_safe MarkRetry_safe
  MarkIngested_safe job_MarkDeadLetter_safe Heartbeat_safe SaveYouTubeSession_safe
  ClearYouTubeSession_safe ClaimBatch_safe ClaimBatchForPublish_safe ReclaimExpiredLeases_safe
  Reschedule_safe UpdateScheduledContent_safe Cancel_safe SuppressPendingDuplicates_safe
  Create_safe CreateIfSourceAbsent_safe : respects.

Lemma job_op_safe op : op_ok op → respects safe_step (run_op op).
Proof.
  destruct op; simpl; try (intros ->); try intros _;
    try (apply respects_ignore; [apply _|]); auto with respects.
Qed.
Lemma job_history_safe h db :
  Forall (λ eo, op_ok eo.2) h → safe_step db (run_history h db).
Proof.
  intros Hh. revert db. induction Hh as [|[e op] h Hop _ IH]; intros db; [reflexivity|].
  simpl. etrans; [by apply (job_op_safe op Hop e db O)|apply IH].
Qed.

(** ** Properties *)


Definition sample_env (now : Z) : Env :=
  mkEnv now now (λ _, Fine) (λ _, false) (λ _, false) "".
Definition sample_spec : JobSpec :=
  mkJobSpec 7 1 "drive_file" "f1" (Some 3) None "t" "c" "" "" [4; 2; 4] None None None 0 0 0.
Definition no_jobs : JobDB := mkJobDB ∅ 1.
Lemma no_jobs_ok : db_ok no_jobs.
Proof.
  split; [apply map_Forall_empty|]. intros id. simpl. rewrite lookup_empty. intros [? [=]].
Qed.
Definition sample_history : history :=
  [(sample_env 100, OpCreateIfSourceAbsent sample_spec UploadJobStatusPending);
   (sample_env 101, OpClaimBatch "ingest-1" 5 Minute);
   (sample_env 102, OpMarkIngested 1 "ingest-1" "asset" 10);
   (sample_env 103, OpClaimBatchForPublish "publish-1" 5 Minute)].


(** ** Fencing by the lease owner *)
Lemma owned_update_miss id w f e db :
  (∀ j, jobs db !! id = Some j → owned_by w j = false) → owned_update id w f e db = (O, db).
Proof.
  intros H. unfold owned_update, on_jobs. rewrite update_row_miss by done. by destruct db.
Qed.
Lemma owned_update_hit id w f e db j :
  jobs db !! id = Some j → owned_by w j = true →
  owned_update id w f e db = (1%nat, mkJobDB (<[id := f e j]> (jobs db)) (job_serial db)).
Proof.
  intros Hj Hw. unfold owned_update, on_jobs. by rewrite (update_row_hit _ _ _ _ j).
Qed.
Lemma exec_owned_stale op rop id w f e db n :
  (∀ j, jobs db !! id = Some j → owned_by w j = false) →
  state_of (exec_owned op rop id w f e (db, n)) = db ∧
  ∃ er, result_of (exec_owned op rop id w f e (db, n)) = inl er ∧
    (reliable e → errors_is er "ErrUploadJobLeaseLost" = true).
Proof.
  intros H. unfold exec_owned, mbind, M_bind, map_err, rows_affected, exec.
  rewrite owned_update_miss by done.
  destruct (fault e n) eqn:E; simpl; [|split; [done|]; eexists; split; [done|]; intros Hr;
    by rewrite Hr in E..].
  destruct (fault e (S n)) eqn:E2; simpl; (split; [done|]; eexists; split; [done|]; intros Hr);
    [done|by rewrite Hr in E2..].
Qed.
Lemma exec_owned_hit op rop id w f e db n j :
  jobs db !! id = Some j → owned_by w j = true → reliable e →
  result_of (exec_owned op rop id w f e (db, n)) = inr tt ∧
  state_of (exec_owned op rop id w f e (db, n)) =
    mkJobDB (<[id := f e j]> (jobs db)) (job_serial db).
Proof.
  intros Hj Hw Hr. unfold exec_owned, mbind, M_bind, map_err, rows_affected, exec.
  rewrite (owned_update_hit _ _ _ _ _ j) by done. by rewrite !Hr.
Qed.

(** The operations of a lease owner, what they refuse and what they write. *)
Definition op_owner (op : JobOp) : option (Z * string) :=
  match op with
  | OpHeartbeat id w _ | OpMarkCompleted id w _ _ | OpMarkPrepared id w _ _
  | OpMarkFailed id w _ _ | OpMarkRetry id w _ _ _ | OpMarkIngested id w _ _
  | OpMarkDeadLetter id w _ _ | OpSaveYouTubeSession id w _ _ _ _
  | OpClearYouTubeSession id w => Some (id, w)
  | _ => None
  end.
Definition op_rejected (op : JobOp) : bool :=
  match op with
  | OpHeartbeat _ w l => bool_decide (w = "") || (l <=? 0)
  | OpMarkIngested _ w a _ => bool_decide (w = "") || bool_decide (a = "")
  | OpSaveYouTubeSession _ w u o c x =>
      bool_decide (w = "") || bool_decide (u = "") || (o <? 0) || (c <=? 0) || (x =? 0)
  | OpClearYouTubeSession _ w => bool_decide (w = "")
  | _ => false
  end.
Definition op_write (op : JobOp) (e : Env) (j : UploadJob) : UploadJob :=
  match op with
  | OpHeartbeat _ _ l => heartbeat_job (app_now e + l) e j
  | OpMarkCompleted _ _ p a => completed_job p a e j
  | OpMarkPrepared _ _ p a => prepared_job p a e j
  | OpMarkFailed _ _ c m => failed_job c m e j
  | OpMarkRetry _ _ c m t => retry_job c m t e j
  | OpMarkIngested _ _ a n => ingested_job a n e j
  | OpMarkDeadLetter _ _ c m => dead_job c m e j
  | OpSaveYouTubeSession _ _ u o c x => session_job u o c x e j
  | OpClearYouTubeSession _ _ => cleared_job e j
  | _ => j
  end.

(** Every operation of an owner is a refusal or one guarded statement. *)
Lemma op_owner_exec op id w e : op_owner op = Some (id, w) →
  (op_rejected op = true ∧ ∃ er, run_op op = throw er) ∨
  (op_rejected op = false ∧ ∃ o ro f,
     (∀ s, run_op op e s = exec_owned o ro id w f e s) ∧ ∀ j, f e j = op_write op e j).
Proof.
  destruct op; intros [= <- <-]; simpl;
    unfold Heartbeat, MarkIngested, SaveYouTubeSession, ClearYouTubeSession;
    repeat (match goal with |- context [if ?b then _ else _] => destruct b end); simpl;
    first [by left; split; [done|eexists]
          |by right; split; [done|]; do 3 eexists; split; [intros s; reflexivity|]].
Qed.

(** C23: only the owner of a lease can act on a job.  A heartbeat, a mark or a
    session update by a worker that does not hold the lease of the row, because
    the reaper took it back, a peer claimed it or the row is gone, changes
    nothing, whatever fails, and reports an error, which is
    [ErrUploadJobLeaseLost] when the database answers and the arguments are
    accepted; refused arguments change nothing; and the holder's operation
    writes exactly its row. *)
Theorem upload_job_fencing (op : JobOp) (id : Z) (w : string) (e : Env) (db : JobDB) (n : nat)
    (Hop : op_owner op = Some (id, w)) :
  let run := run_op op e (db, n) in
  (op_rejected op = true → state_of run = db ∧ ∃ er, result_of run = inl er) ∧
  ((∀ j, jobs db !! id = Some j → job_owner j ≠ Some w ∨ job_status j ≠ "leased") →
     state_of run = db ∧ ∃ er, result_of run = inl er ∧
       (reliable e → op_rejected op = false → errors_is er "ErrUploadJobLeaseLost" = true)) ∧
  (∀ j, jobs db !! id = Some j → job_owner j = Some w → job_status j = "leased" →
     reliable e → op_rejected op = false →
     result_of run = inr tt ∧
     state_of run = mkJobDB (<[id := op_write op e j]> (jobs db)) (job_serial db)).
Proof.
  destruct (op_owner_exec op id w e Hop) as [[Hr [er Her]]|(Hr & o & ro & f & Hrun & Hf)].
  - rewrite Her, Hr. simpl. split; [eauto|]. split; [|done]. intros _. split; [done|].
    by exists er.
  - rewrite Hrun, Hr. simpl. split; [done|]. split.
    + intros Hst. destruct (exec_owned_stale o ro id w f e db n) as [Hs (er & Her & Hl)].
      { intros j Hj. apply not_true_iff_false. rewrite owned_by_spec.
        destruct (Hst j Hj); tauto. }
      split; [done|]. exists er. auto.
    + intros j Hj Ho Hs Hrel _. rewrite <- Hf. apply exec_owned_hit; [done| |done].
      by apply owned_by_spec.
Qed.

Lemma upload_job_fencing_witness :
  let db := run_history sample_history no_jobs in
  state_of (run_op (OpMarkCompleted 1 "ingest-1" 9 "asset") (sample_env 104) (db, O)) = db ∧
  result_of (run_op (OpMarkCompleted 1 "publish-1" 9 "asset") (sample_env 104) (db, O)) = inr tt.
Proof.
  intros db.
  assert (Hdb : ∃ j, jobs db !! 1 = Some j ∧ job_owner j = Some "publish-1" ∧
    job_status j = "leased").
  { vm_compute. eexists. repeat split; reflexivity. }
  destruct Hdb as (j & Hj & Ho & Hs). split.
  - refine (proj1 (proj1 (proj2 (upload_job_fencing (OpMarkCompleted 1 "ingest-1" 9 "asset") 1
      "ingest-1" (sample_env 104) db O eq_refl)) _)).
    intros j' Hj'. left. rewrite Hj in Hj'. injection Hj' as <-. rewrite Ho. discriminate.
  - exact (proj1 (proj2 (proj2 (upload_job_fencing (OpMarkCompleted 1 "publish-1" 9 "asset") 1
      "publish-1" (sample_env 104) db O eq_refl)) j Hj Ho Hs (λ _, eq_refl) eq_refl)).
Defined.

(** ** Claims *)
Lemma claim_order_spec j1 j2 :
  let k j := (Priority (Spec j), CreatedAt (Spec j), ID j) in
  claim_order j1 j2 = true ↔
  (k j1).1.1 < (k j2).1.1 ∨ (k j1).1.1 = (k j2).1.1 ∧
    ((k j1).1.2 < (k j2).1.2 ∨ (k j1).1.2 = (k j2).1.2 ∧ (k j1).2 ≤ (k j2).2).
Proof.
  simpl. unfold claim_order.
  by rewrite !orb_true_iff, !andb_true_iff, !orb_true_iff, !andb_true_iff, !Z.ltb_lt, !Z.eqb_eq,
    Z.leb_le.
Qed.
Lemma claim_order_total j1 j2 : claim_order j1 j2 = false → claim_order j2 j1 = true.
Proof. rewrite <- not_true_iff_false, !claim_order_spec. simpl. lia. Qed.
Lemma claim_order_trans j1 j2 j3 :
  claim_order j1 j2 = true → claim_order j2 j3 = true → claim_order j1 j3 = true.
Proof. rewrite !claim_order_spec. simpl. lia. Qed.

(** The rows a claim may take, and the ones it takes. *)
Definition offered (cand : Z → UploadJob → bool) (e : Env) (db : JobDB) : list UploadJob :=
  List.filter (λ j, cand (db_now e) j && negb (held e (ID j))) (all_jobs db).
Definition taken (cand : Z → UploadJob → bool) (limit : Z) (e : Env) (db : JobDB) : list UploadJob :=
  take (Z.to_nat limit) (sort_by claim_order (offered cand e db)).

Lemma offered_spec cand e db j : db_ok db →
  j ∈ offered cand e db ↔
  jobs db !! ID j = Some j ∧ cand (db_now e) j = true ∧ held e (ID j) = false.
Proof.
  intros Hok. unfold offered, all_jobs.
  rewrite list_elem_of_In, filter_In, <- list_elem_of_In, andb_true_iff, negb_true_iff,
    list_elem_of_fmap. split.
  - intros [([id j'] & -> & Hj%elem_of_map_to_list) H]. simpl in *.
    assert (id = ID j') as -> by (symmetry; apply (ok_id _ _ (ok_rows _ Hok _ _ Hj))). done.
  - intros [Hj H]. split; [|done]. exists (ID j, j). split; [done|]. by apply elem_of_map_to_list.
Qed.
Lemma offered_NoDup cand e db : db_ok db → NoDup (ID <$> offered cand e db).
Proof.
  intros Hok. assert (Hall : ID <$> all_jobs db = (map_to_list (jobs db)).*1).
  { unfold all_jobs. rewrite <- list_fmap_compose. apply list_fmap_ext. intros i [id j] Hi. simpl.
    apply list_elem_of_lookup_2, elem_of_map_to_list in Hi.
    apply (ok_id _ _ (ok_rows _ Hok _ _ Hi)). }
  pose proof (NoDup_fst_map_to_list (jobs db)) as Hnd. rewrite <- Hall in Hnd.
  unfold offered. revert Hnd. generalize (all_jobs db). intros l.
  induction l as [|j l IH]; simpl; [done|]. rewrite NoDup_cons. intros [Hj Hnd].
  destruct (_ && _); simpl; [|by apply IH]. constructor; [|by apply IH].
  intros (j' & E & Hj')%list_elem_of_fmap. apply Hj, list_elem_of_fmap. exists j'.
  split; [done|]. rewrite list_elem_of_In, filter_In, <- list_elem_of_In in Hj'. tauto.
Qed.
Lemma taken_ids cand limit e db :
  ID <$> taken cand limit e db = select_ids cand claim_order limit e db.
Proof. done. Qed.

(** What one claim statement does. *)
Lemma claim_statement_taken cand w limit u e db :
  db_ok db →
  let l := taken cand limit e db in
  (claim_statement cand w limit u e db).1 = leased_job w u e <$> l ∧
  ∀ id, jobs (claim_statement cand w limit u e db).2 !! id =
        (λ j, if bool_decide (id ∈ ID <$> l) then leased_job w u e j else j) <$> jobs db !! id.
Proof.
  intros Hok l. unfold claim_statement. rewrite <- taken_ids. fold l. simpl.
  split; [|intros id; apply update_ids_lookup].
  assert (Hl : Forall (λ j, jobs db !! ID j = Some j) l).
  { apply Forall_forall. intros j Hj. apply (offered_spec cand e db j Hok).
    rewrite <- (sort_by_perm claim_order), <- (take_drop (Z.to_nat limit)).
    apply elem_of_app. by left. }
  set (t := update_ids _ _ _).
  assert (Ht : ∀ j, j ∈ l → jobs db !! ID j = Some j → t !! ID j = Some (leased_job w u e j)).
  { intros j Hj Hjj. unfold t. rewrite update_ids_lookup, Hjj. simpl.
    rewrite bool_decide_eq_true_2; [done|]. apply list_elem_of_fmap. by exists j. }
  clearbody t l. induction Hl as [|j l Hj Hl IH]; [done|]. simpl.
  rewrite Ht by (done || by left). f_equal. apply IH. intros j' Hj'. apply Ht. by right.
Qed.

Lemma elem_of_length_pos {A} (x : A) (l : list A) : x ∈ l → (0 < length l)%nat.
Proof. destruct l; [by intros ?%elem_of_nil|simpl; lia]. Qed.

(** Claims.  A claim by a named worker with a positive limit and lease, on
    a table that answers, leases the first [limit] of the rows its pool may
    take, in the order priority, age, id: all of them are due, unlocked,
    distinct and unleased, no row left out comes before one taken, and rows
    are left out only when the limit is reached; each gets the worker as owner, the
    new expiry, a heartbeat and one more attempt, and no other row changes.
    No row is ever offered to both pools. *)
Theorem ClaimBatch_correct (publish : bool) (w : string) (limit lease : Z) (e : Env)
    (db : JobDB) (n : nat)
    (Hok : db_ok db) (Hrel : reliable e) (Hw : w ≠ "") (Hlimit : 0 < limit) (Hlease : 0 < lease) :
  let cand := if publish then publish_candidate else ingest_candidate in
  let run := (if publish then ClaimBatchForPublish w limit lease else ClaimBatch w limit lease)
               e (db, n) in
  ∃ l, result_of run = inr (leased_job w (app_now e + lease) e <$> l) ∧
    NoDup (ID <$> l) ∧ Z.of_nat (length l) ≤ limit ∧
    (∀ j, j ∈ l → jobs db !! ID j = Some j ∧ cand (db_now e) j = true ∧ held e (ID j) = false) ∧
    (∀ id j, jobs db !! id = Some j → cand (db_now e) j = true → held e id = false → j ∉ l →
       Z.of_nat (length l) = limit ∧ ∀ j', j' ∈ l → claim_order j' j = true) ∧
    (∀ id, jobs (state_of run) !! id =
       (λ j, if bool_decide (id ∈ ID <$> l) then leased_job w (app_now e + lease) e j else j)
         <$> jobs db !! id) ∧
    ∀ now j, ingest_candidate now j && publish_candidate now j = false.
Proof.
  intros cand run. exists (taken cand limit e db).
  assert (Hrun : run = (inr (claim_statement cand w limit (app_now e + lease) e db).1,
                        ((claim_statement cand w limit (app_now e + lease) e db).2, S n))).
  { subst run cand. destruct publish; unfold ClaimBatchForPublish, ClaimBatch, claim_batch;
      rewrite bool_decide_eq_false_2, !(proj2 (Z.leb_gt _ _)) by (done || lia);
      apply (exec_fine e Hrel). }
  destruct (claim_statement_taken cand w limit (app_now e + lease) e db Hok) as [H1 H2].
  rewrite Hrun. unfold result_of, state_of. cbn [fst snd]. rewrite H1.
  pose proof (offered_NoDup cand e db Hok) as Hnd.
  rewrite <- (sort_by_perm claim_order (offered cand e db)) in Hnd.
  rewrite <- (take_drop (Z.to_nat limit) (sort_by _ _)), fmap_app in Hnd.
  apply NoDup_app in Hnd as (Hnd & _ & _).
  split; [done|]. split; [done|]. split.
  { unfold taken. rewrite length_take. lia. }
  split.
  { intros j Hj. apply (offered_spec cand e db j Hok).
    rewrite <- (sort_by_perm claim_order), <- (take_drop (Z.to_nat limit)).
    apply elem_of_app. by left. }
  split; [|split; [done|]].
  - intros id j Hj Hc Hh Hn.
    assert (Hid : ID j = id) by apply (ok_id _ _ (ok_rows _ Hok _ _ Hj)). subst id.
    assert (Hd : j ∈ drop (Z.to_nat limit) (sort_by claim_order (offered cand e db))).
    { assert (Hj' : j ∈ sort_by claim_order (offered cand e db))
        by (rewrite sort_by_perm; by apply offered_spec).
      rewrite <- (take_drop (Z.to_nat limit)) in Hj'. by apply elem_of_app in Hj' as [?|?]. }
    split.
    + unfold taken. rewrite length_take.
      apply elem_of_length_pos in Hd. rewrite length_drop in Hd. lia.
    + intros j' Hj'. eapply sort_by_take; eauto using claim_order_total, claim_order_trans.
  - intros now j. apply not_true_iff_false. unfold ingest_candidate, publish_candidate, is_status.
    rewrite !andb_true_iff, !orb_true_iff, !andb_true_iff, negb_true_iff, !bool_decide_eq_true.
    intuition congruence.
Qed.

Lemma ClaimBatch_correct_witness :
  let db := run_history [(sample_env 100, OpCreate sample_spec "pending")] no_jobs in
  ∃ l, result_of (ClaimBatch "w" 5 Minute (sample_env 105) (db, O)) =
       inr (leased_job "w" (105 + Minute) (sample_env 105) <$> l).
Proof.
  intros db.
  assert (Hok : db_ok db).
  { refine (proj1 (job_history_safe _ _ _ no_jobs_ok)). repeat constructor. }
  assert (Hw : "w" ≠ "") by discriminate.
  destruct (ClaimBatch_correct false "w" 5 Minute (sample_env 105) db O Hok (λ _, eq_refl) Hw
    eq_refl eq_refl) as (l & H & _).
  exists l. exact H.
Defined.

(** ** Exclusion *)

(** The one statement of an operation that writes. *)
Definition op_effect (op : JobOp) (e : Env) (db : JobDB) : JobDB :=
  match op with
  | OpCreate s st => (insert_job (create_columns s) st e db).2
  | OpCreateIfSourceAbsent s st =>
      (insert_job (absent_columns (with_targets (canonicalUploadTargets (Targets s)) s)) st e db).2
  | OpClaimBatch w n l => (SQLClaimBatch w n (app_now e + l) e db).2
  | OpClaimBatchForPublish w n l => (SQLClaimBatchForPublish w n (app_now e + l) e db).2
  | OpReclaimExpiredLeases n =>
      (SQLReclaimExpiredLeases (if n <=? 0 then 100 else n) e db).2
  | OpReschedule id u t => (pending_update id u (with_publish_at t) e db).2
  | OpUpdateScheduledContent id u t c m b => (pending_update id u (with_content t c m b) e db).2
  | OpCancel id u => (delete_pending id u e db).2
  | OpSuppressPendingDuplicates u => (suppress_statement u e db).2
  | _ =>
      match op_owner op with
      | Some (id, w) => (owned_update id w (λ e, op_write op e) e db).2
      | None => db
      end
  end.

Ltac all_faults :=
  repeat match goal with
  | |- context [fault ?e ?n] => destruct (fault e n); simpl; auto
  end.
Lemma exec_owned_effect op rop id w f e db n :
  state_of (exec_owned op rop id w f e (db, n)) = db ∨
  state_of (exec_owned op rop id w f e (db, n)) = (owned_update id w f e db).2.
Proof.
  unfold exec_owned, mbind, M_bind, map_err, rows_affected, exec, state_of.
  destruct (owned_update id w f e db) as [k db']. all_faults. by case_bool_decide; right.
Qed.
Lemma ignore_state {A} (m : M JobDB A) e w : state_of (ignore m e w) = state_of (m e w).
Proof. unfold ignore, mbind, M_bind, state_of. by destruct (m e w) as [[?|?] ?]. Qed.
Lemma owned_update_ext id w f g e db : (∀ j, f e j = g e j) →
  (owned_update id w f e db).2 = (owned_update id w g e db).2.
Proof.
  intros H. unfold owned_update, on_jobs, update_row. destruct (jobs db !! id) as [j|]; [|done].
  destruct (owned_by w j); [|done]. by rewrite H.
Qed.

Lemma exec_effect {A B} o (f : Env → JobDB → A * JobDB) (k : A → M JobDB B) e db n :
  (∀ a, respects eq (k a)) →
  state_of ((exec o f ≫= k) e (db, n)) = db ∨ state_of ((exec o f ≫= k) e (db, n)) = (f e db).2.
Proof.
  intros Hk. unfold mbind, M_bind, exec, state_of. destruct (f e db) as [a db'] eqn:E.
  destruct (fault e n); simpl; rewrite ?E; auto. right. symmetry. apply (Hk a e db' (S n)).
Qed.

Lemma owned_op_effect op e db n id w : op_owner op = Some (id, w) →
  state_of (run_op op e (db, n)) = db ∨
  state_of (run_op op e (db, n)) = (owned_update id w (λ e, op_write op e) e db).2.
Proof.
  intros Hop. destruct (op_owner_exec op id w e Hop) as [[_ [er ->]]|(_ & o & ro & f & -> & Hf)].
  - by left.
  - destruct (exec_owned_effect o ro id w f e db n) as [->| ->]; [by left|right].
    by apply owned_update_ext.
Qed.

Lemma claim_batch_effect name w limit lease stmt e db n :
  state_of (claim_batch name w limit lease stmt e (db, n)) = db ∨
  state_of (claim_batch name w limit lease stmt e (db, n)) = (stmt w limit (app_now e + lease) e db).2.
Proof.
  unfold claim_batch. case_bool_decide; [by left|]. destruct (limit <=? 0); [by left|].
  destruct (lease <=? 0); [by left|]. unfold mbind, M_bind, ask, exec, state_of.
  destruct (stmt w limit (app_now e + lease) e db) eqn:E. destruct (fault e n); simpl; auto.
Qed.

Lemma update_pending_effect o ro rr id u f e db n :
  state_of (update_pending o ro rr id u f e (db, n)) = db ∨
  state_of (update_pending o ro rr id u f e (db, n)) = (pending_update id u f e db).2.
Proof.
  apply exec_effect. intros k. unfold FindByID, raw. respects_tac.
  by apply respects_exec; [apply _|].
Qed.

Definition canonical_spec (s : JobSpec) : JobSpec :=
  with_targets (canonicalUploadTargets (Targets s)) s.
Lemma CreateIfSourceAbsent_effect s st e db n :
  state_of (CreateIfSourceAbsent s st e (db, n)) = db ∨
  existsb (same_source (canonical_spec s)) (all_jobs db) = false ∧
  state_of (CreateIfSourceAbsent s st e (db, n)) =
    (insert_job (absent_columns (canonical_spec s)) st e db).2.
Proof.
  unfold CreateIfSourceAbsent, mbind, M_bind, transact, exec, state_of. fold (canonical_spec s).
  all_faults. destruct (existsb _ _); simpl; all_faults.
Qed.

Lemma run_op_effect op e db n :
  state_of (run_op op e (db, n)) = db ∨ state_of (run_op op e (db, n)) = op_effect op e db.
Proof.
  destruct (op_owner op) as [[id w]|] eqn:Hop.
  - replace (op_effect op e db) with (owned_update id w (λ e, op_write op e) e db).2;
      [by apply owned_op_effect|]. by destruct op; simplify_eq/=.
  - destruct op; simplify_eq/=; rewrite ?ignore_state.
    + unfold Create, createUploadJob, raw, map_err, exec, state_of. all_faults.
    + destruct (CreateIfSourceAbsent_effect spec status e db n) as [?|[_ ?]]; auto.
    + apply claim_batch_effect.
    + apply claim_batch_effect.
    + apply exec_effect. intros k. respects_tac.
    + apply update_pending_effect.
    + unfold UpdateScheduledContent. destruct (_ || _); [by left|]. apply update_pending_effect.
    + apply exec_effect. intros k. respects_tac.
    + apply exec_effect. intros k. respects_tac.
Qed.

(** The operation leaves the lease of [w] on row [id] alone: it does not present
    it, and if it is the reaper, the lease has not expired or the last
    heartbeat is less than five minutes old by the server clock. *)
Definition respects_job (id : Z) (w : string) (until beat : Z) (eo : Env * JobOp) : Prop :=
  op_owner eo.2 ≠ Some (id, w) ∧
  (∀ n, eo.2 = OpReclaimExpiredLeases n → db_now eo.1 ≤ until ∨ db_now eo.1 - 5 * Minute ≤ beat).

Lemma selected_keeps cand order limit f e db id j :
  db_ok db → jobs db !! id = Some j → cand (db_now e) j = false →
  update_ids (select_ids cand order limit e db) f (jobs db) !! id = Some j.
Proof.
  intros Hok Hj Hc. rewrite update_ids_lookup, Hj. simpl. rewrite bool_decide_eq_false_2; [done|].
  intros Hid. destruct (select_ids_spec _ _ _ _ _ _ Hok Hid) as (j' & ? & ? & _). congruence.
Qed.
Lemma row_keeps id id' p f db j :
  jobs db !! id = Some j → (id' = id → p j = false) →
  jobs (on_jobs (update_row id' p f) db).2 !! id = Some j.
Proof.
  intros Hj Hp. unfold on_jobs, update_row. destruct (jobs db !! id') as [j'|] eqn:Hj'; [|done].
  destruct (p j') eqn:E; [|done]. simpl. rewrite lookup_insert_ne; [done|].
  intros ->. simplify_eq. by rewrite Hp in E.
Qed.
Lemma pending_not_leased u j : job_status j = "leased" → pending_of u j = false.
Proof.
  intros Hs. apply not_true_iff_false. rewrite pending_of_spec, Hs. by intros [_ ?].
Qed.
Lemma insert_keeps spec st e db id j :
  db_ok db → jobs db !! id = Some j → jobs (insert_job spec st e db).2 !! id = Some j.
Proof.
  intros Hok Hj. simpl. rewrite lookup_insert_ne; [done|]. intros <-.
  assert (job_serial db < job_serial db); [|lia]. apply (ok_serial _ Hok). by exists j.
Qed.
Lemma claim_keeps cand w limit u e db id j :
  (∀ now j, cand now j = true → job_status j ∈ ["pending"; "retry_wait"; "ingest_completed"]) →
  db_ok db → jobs db !! id = Some j → job_status j = "leased" →
  jobs (claim_statement cand w limit u e db).2 !! id = Some j.
Proof.
  intros Hc Hok Hj Hs. apply selected_keeps; [done|done|]. apply not_true_iff_false.
  intros H%Hc. revert Hs H. generalize (job_status j). intros s -> H. set_solver.
Qed.
Lemma reaper_keeps n e db id j u b :
  db_ok db → jobs db !! id = Some j → LeaseExpiresAt (Lease j) = Some u →
  HeartbeatAt (Lease j) = Some b → db_now e ≤ u ∨ db_now e - 5 * Minute ≤ b →
  jobs (SQLReclaimExpiredLeases n e db).2 !! id = Some j.
Proof.
  intros Hok Hj Hu Hb Ht. apply selected_keeps; [done|done|]. apply not_true_iff_false.
  unfold expired. rewrite Hu, Hb, !andb_true_iff, !Z.ltb_lt. lia.
Qed.
Lemma suppress_keeps u e db id j :
  jobs db !! id = Some j → job_status j = "leased" →
  jobs (suppress_statement u e db).2 !! id = Some j.
Proof.
  intros Hj Hs. simpl. rewrite update_where_lookup, Hj. simpl. unfold is_status.
  by rewrite Hs, andb_false_r.
Qed.
Lemma delete_keeps id' u e db id j :
  jobs db !! id = Some j → job_status j = "leased" →
  jobs (delete_pending id' u e db).2 !! id = Some j.
Proof.
  intros Hj Hs. unfold delete_pending, on_jobs.
  destruct (jobs db !! id') as [j'|] eqn:Hj'; [|done].
  destruct (pending_of u j') eqn:E; [|done]. simpl. rewrite lookup_delete_ne; [done|].
  intros ->. simplify_eq. by rewrite pending_not_leased in E.
Qed.

Lemma op_effect_keeps op e db id j w u b :
  db_ok db → jobs db !! id = Some j → job_status j = "leased" → job_owner j = Some w →
  LeaseExpiresAt (Lease j) = Some u → HeartbeatAt (Lease j) = Some b →
  respects_job id w u b (e, op) → jobs (op_effect op e db) !! id = Some j.
Proof.
  intros Hok Hj Hs Ho Hu Hb [Hop Hr]. simpl in Hop, Hr.
  assert (Howned : ∀ id' w' f, (id', w') ≠ (id, w) →
    jobs (owned_update id' w' f e db).2 !! id = Some j).
  { intros id' w' f Hne. apply row_keeps; [done|]. intros ->. apply not_true_iff_false.
    rewrite owned_by_spec, Ho. intros [[= <-] _]. done. }
  destruct op; try (apply Howned; simpl in Hop; congruence).
  1-2: by apply insert_keeps.
  1-2: apply claim_keeps; eauto using candidate_status.
  - by eapply reaper_keeps, Hr.
  - by apply row_keeps; [|intros; apply pending_not_leased].
  - by apply row_keeps; [|intros; apply pending_not_leased].
  - by apply delete_keeps.
  - by apply suppress_keeps.
Qed.

(** A lease is exclusive.  While a worker holds a row, no interleaving of
    operations that do not present that worker's lease (claims of both pools,
    marks of workers that lost theirs, reschedules and cancellations by the
    user, the duplicate filter) can touch it; the reaper can only once the
    lease has expired and the last heartbeat is over five minutes old. *)
Theorem upload_job_exclusive (h : history) (db : JobDB) (id : Z) (j : UploadJob) (w : string)
    (u b : Z) (Hok : db_ok db) (Hh : Forall (λ eo, op_ok eo.2) h)
    (Hj : jobs db !! id = Some j) (Hs : job_status j = "leased") (Ho : job_owner j = Some w)
    (Hu : LeaseExpiresAt (Lease j) = Some u) (Hb : HeartbeatAt (Lease j) = Some b)
    (Hr : Forall (respects_job id w u b) h) :
  jobs (run_history h db) !! id = Some j.
Proof.
  revert db Hok Hj. induction Hh as [|[e op] h Hop _ IH]; intros db Hok Hj; [done|].
  apply Forall_cons in Hr as [Hr1 Hr]. apply (IH Hr); simpl.
  - by apply (job_op_safe op Hop e db O).
  - destruct (run_op_effect op e db O) as [->| ->]; [done|by eapply op_effect_keeps].
Qed.

Lemma upload_job_exclusive_witness :
  let db := run_history sample_history no_jobs in
  let h := [(sample_env 104, OpClaimBatch "ingest-2" 5 Minute);
            (sample_env 105, OpMarkFailed 1 "ingest-1" "" "late");
            (sample_env (102 + 5 * Minute), OpReclaimExpiredLeases 10);
            (sample_env 107, OpCancel 1 7)] in
  jobs (run_history h db) !! 1 = jobs db !! 1 ∧ jobs db !! 1 ≠ None.
Proof.
  intros db h.
  assert (Hok : db_ok db).
  { refine (proj1 (job_history_safe _ _ _ no_jobs_ok)). repeat constructor. }
  assert (Hr : Forall (respects_job 1 "publish-1" (103 + Minute) 103) h).
  { unfold h. repeat apply List.Forall_cons; [| | | |apply List.Forall_nil];
      (split; [discriminate|intros n Hn; try discriminate Hn; right; vm_compute; discriminate]). }
  destruct (jobs db !! 1) as [j|] eqn:Hj; [|vm_compute in Hj; discriminate].
  split; [|discriminate].
  apply (upload_job_exclusive h db 1 j "publish-1" (103 + Minute) 103 Hok); try exact Hr;
    [repeat constructor|exact Hj|vm_compute in Hj; injection Hj as <-; reflexivity..].
Defined.

(** ** Sources *)
Lemma compact_sorted x l : Sorted Z.le (x :: l) → StronglySorted Z.lt (x :: compact x l) ∧
  ∀ y, y ∈ x :: compact x l ↔ y ∈ x :: l.
Proof.
  intros H. apply Sorted_StronglySorted in H; [|intros ???; lia].
  revert x H. induction l as [|y l IH]; intros x H; simpl; [by split; [repeat constructor|]|].
  apply StronglySorted_inv in H as [H Hx].
  apply Forall_cons in Hx as [Hxy Hx]. destruct (y =? x) eqn:E.
  - apply Z.eqb_eq in E as ->. destruct (IH x H) as [H1 H2]. split; [done|].
    intros z. rewrite H2. rewrite !elem_of_cons. tauto.
  - apply Z.eqb_neq in E. destruct (IH y H) as [H1 H2]. split.
    + constructor; [done|]. apply Forall_forall. intros z Hz. apply H2 in Hz.
      apply elem_of_cons in Hz as [->|Hz]; [lia|].
      apply StronglySorted_inv in H as [_ Hy]. rewrite Forall_forall in Hy.
      specialize (Hy z Hz). lia.
    + intros z. specialize (H2 z). rewrite !elem_of_cons in *. tauto.
Qed.
Lemma canonical_sorted l :
  StronglySorted Z.lt (canonicalUploadTargets l) ∧ ∀ y, y ∈ canonicalUploadTargets l ↔ y ∈ l.
Proof.
  unfold canonicalUploadTargets. pose proof (Sorted_merge_sort Z.le l) as Hs.
  pose proof (merge_sort_Permutation Z.le l) as Hp.
  destruct (merge_sort Z.le l) as [|x l'].
  - split; [constructor|]. intros y. by rewrite Hp.
  - destruct (compact_sorted x l' Hs) as [H1 H2]. split; [done|]. intros y. by rewrite H2, Hp.
Qed.

Definition source_key (s : JobSpec) : Z * string * string * option Z * list Z :=
  (UserID s, SourceType s, SourceID s, DriveAccountID s, Targets s).
(** At most one row of a source has not failed. *)
Definition sources_unique (db : JobDB) : Prop := ∀ id1 id2 j1 j2,
  jobs db !! id1 = Some j1 → jobs db !! id2 = Some j2 →
  job_status j1 ≠ "failed" → job_status j2 ≠ "failed" →
  source_key (Spec j1) = source_key (Spec j2) → id1 = id2.

Lemma same_source_spec s j :
  same_source s j = true ↔ source_key (Spec j) = source_key s ∧ job_status j ≠ "failed".
Proof.
  unfold same_source, is_status, source_key.
  rewrite !andb_true_iff, Z.eqb_eq, !bool_decide_eq_true, negb_true_iff, bool_decide_eq_false.
  split; [by intros [[[[[-> ->] ->] ->] ->] ?]|]. intros [[=] ?]. tauto.
Qed.
Lemma existsb_source s db :
  existsb (same_source s) (all_jobs db) = true ↔
  ∃ id j, jobs db !! id = Some j ∧ source_key (Spec j) = source_key s ∧ job_status j ≠ "failed".
Proof.
  rewrite existsb_exists. unfold all_jobs. split.
  - intros (j & Hj & Hs). apply list_elem_of_In, list_elem_of_fmap in Hj
      as ([id j'] & -> & Hj%elem_of_map_to_list). exists id, j'. split; [done|].
    by apply same_source_spec.
  - intros (id & j & Hj & Hs). exists j. split; [|by apply same_source_spec].
    apply list_elem_of_In, list_elem_of_fmap. exists (id, j). split; [done|].
    by apply elem_of_map_to_list.
Qed.

(** Without new rows, uniqueness is kept by any safe step. *)
Lemma safe_step_unique db db' :
  db_ok db → safe_step db db' → job_serial db' = job_serial db →
  sources_unique db → sources_unique db'.
Proof.
  intros Hok Hst Hser Hu. destruct (Hst Hok) as [Hok' [Hg Hn _]].
  assert (Hback : ∀ id j', jobs db' !! id = Some j' → job_status j' ≠ "failed" →
    ∃ j, jobs db !! id = Some j ∧ job_status j ≠ "failed" ∧
         source_key (Spec j') = source_key (Spec j)).
  { intros id j' Hj' Hl. destruct (jobs db !! id) as [j|] eqn:Hj.
    - specialize (Hg id j Hj). rewrite Hj' in Hg. exists j. split; [done|]. split.
      + intros Hf. apply Hl. rewrite (ev_frozen _ _ Hg); [done|]. by rewrite Hf.
      + destruct Hg as [_ Hsrc _ _ _]. unfold source_key. congruence.
    - assert (jobs db' !! id = None); [|congruence]. apply Hn; [|done].
      rewrite <- Hser. apply (ok_serial _ Hok'). by exists j'. }
  intros id1 id2 j1 j2 H1 H2 L1 L2 Hk.
  destruct (Hback id1 j1 H1 L1) as (k1 & ? & ? & E1).
  destruct (Hback id2 j2 H2 L2) as (k2 & ? & ? & E2).
  apply (Hu id1 id2 k1 k2); congruence.
Qed.

Lemma insert_unique s st e db :
  db_ok db → existsb (same_source s) (all_jobs db) = false → sources_unique db →
  sources_unique (insert_job (absent_columns s) st e db).2.
Proof.
  intros Hok Hex%not_true_iff_false Hu id1 id2 j1 j2. simpl. rewrite existsb_source in Hex.
  destruct (decide (id1 = job_serial db)) as [->|N1], (decide (id2 = job_serial db)) as [->|N2];
    rewrite ?lookup_insert_eq, ?lookup_insert_ne by done; intros H1 H2 L1 L2 Hk; [done| | |].
  - injection H1 as <-. destruct Hex. by exists id2, j2.
  - injection H2 as <-. destruct Hex. by exists id1, j1.
  - by apply (Hu id1 id2 j1 j2).
Qed.

Lemma op_effect_serial op e db :
  match op with OpCreate _ _ | OpCreateIfSourceAbsent _ _ => True
  | _ => job_serial (op_effect op e db) = job_serial db end.
Proof.
  destruct op; simpl; try done; unfold owned_update, pending_update, delete_pending, on_jobs;
    try (by destruct (update_row _ _ _ _)). by repeat case_match.
Qed.
Definition not_create (op : JobOp) : Prop :=
  match op with OpCreate _ _ => False | _ => True end.
Lemma run_op_unique op e db :
  op_ok op → not_create op → db_ok db → sources_unique db →
  sources_unique (state_of (run_op op e (db, O))).
Proof.
  intros Hop Hc Hok Hu. pose proof (op_effect_serial op e db) as Hs.
  pose proof (job_op_safe op Hop e db O) as Hst.
  destruct (run_op_effect op e db O) as [E|E]; rewrite E in Hst |- *; [done|].
  destruct op; try done; try (by apply (safe_step_unique db)).
  rewrite <- E. simpl. rewrite ignore_state.
  destruct (CreateIfSourceAbsent_effect spec status e db O) as [->|[Hex ->]];
    [done|by apply insert_unique].
Qed.

(** The transaction on a database that answers. *)
Lemma CreateIfSourceAbsent_run s st e db n : reliable e →
  ∃ n', CreateIfSourceAbsent s st e (db, n) =
    if existsb (same_source (canonical_spec s)) (all_jobs db) then (inr None, (db, n'))
    else let '(j, db') := insert_job (absent_columns (canonical_spec s)) st e db in
         (inr (Some j), (db', n')).
Proof.
  intros Hrel.
  unfold CreateIfSourceAbsent, mbind, M_bind, mret, M_ret, transact, exec.
  fold (canonical_spec s). rewrite !Hrel.
  destruct (existsb (same_source (canonical_spec s)) (all_jobs db)); rewrite ?Hrel;
    cbn [insert_job]; rewrite ?Hrel; by eexists.
Qed.

(** No source is queued twice.  However many schedulers run at the same time,
    as long as jobs are created with [CreateIfSourceAbsent], one source (user,
    provider, file, account and canonical target list) never has two rows that
    did not fail, and on a database that answers the call creates a row exactly
    when there is none.  The canonical target list depends only on the set of
    targets: it is strictly increasing with the same elements. *)
Theorem CreateIfSourceAbsent_unique (h : history) (db : JobDB) (s : JobSpec) (e : Env) (n : nat)
    (Hok : db_ok db) (Hu : sources_unique db)
    (Hh : Forall (λ eo, op_ok eo.2 ∧ not_create eo.2) h) (Hrel : reliable e) :
  let db' := run_history h db in
  let run := CreateIfSourceAbsent s "pending" e (db', n) in
  sources_unique db' ∧
  (result_of run = inr None ∧ state_of run = db' ∧
     (∃ id j, jobs db' !! id = Some j ∧ job_status j ≠ "failed" ∧
              source_key (Spec j) = source_key (canonical_spec s)) ∨
   ∃ j, result_of run = inr (Some j) ∧ job_status j = "pending" ∧ ID j = job_serial db' ∧
     source_key (Spec j) = source_key (canonical_spec s) ∧
     jobs (state_of run) = <[ID j := j]> (jobs db') ∧
     ¬ (∃ id j, jobs db' !! id = Some j ∧ job_status j ≠ "failed" ∧
              source_key (Spec j) = source_key (canonical_spec s))) ∧
  StronglySorted Z.lt (Targets (canonical_spec s)) ∧
  (∀ t, t ∈ Targets (canonical_spec s) ↔ t ∈ Targets s).
Proof.
  intros db' run. split; [|split; [|apply canonical_sorted]].
  - subst db' run. revert db Hok Hu. induction Hh as [|[e' op] h' [Hop Hc] _ IH];
      intros db Hok Hu; [done|]. apply IH; simpl.
    + by apply (job_op_safe op Hop e' db O).
    + by apply run_op_unique.
  - destruct (CreateIfSourceAbsent_run s "pending" e db' n Hrel) as [n' Hrun].
    subst run. rewrite Hrun. clear Hrun.
    destruct (existsb (same_source (canonical_spec s)) (all_jobs db')) eqn:E.
    + left. split; [done|]. split; [done|].
      apply existsb_source in E as (id & j & ? & ? & ?). eauto.
    + right. eexists. do 5 (split; [reflexivity|]). intros (id & j & ? & ? & ?).
      apply not_true_iff_false in E. apply E, existsb_source. eauto.
Qed.

Lemma CreateIfSourceAbsent_unique_witness :
  let op := OpCreateIfSourceAbsent sample_spec UploadJobStatusPending in
  let h := [(sample_env 100, op); (sample_env 101, op)] in
  sources_unique (run_history h no_jobs) ∧
  job_status <$> jobs (run_history h no_jobs) !! 1 = Some "pending" ∧
  jobs (run_history h no_jobs) !! 2 = None.
Proof.
  intros op h. split; [|vm_compute; split; reflexivity].
  refine (proj1 (CreateIfSourceAbsent_unique h no_jobs sample_spec (sample_env 102) O no_jobs_ok
    _ _ (λ _, eq_refl))).
  - intros id1 id2 j1 j2 H. cbn in H. rewrite lookup_empty in H. discriminate H.
  - repeat constructor.
Defined.

Lemma select_ids_full cand order limit e db id j :
  db_ok db → jobs db !! id = Some j → cand (db_now e) j = true → held e id = false →
  id ∉ select_ids cand order limit e db →
  length (select_ids cand order limit e db) = Z.to_nat limit.
Proof.
  intros Hok Hj Hc Hh. unfold select_ids.
  assert (Hin : j ∈ sort_by order (offered cand e db)).
  { rewrite sort_by_perm. apply offered_spec; [done|].
    by rewrite (ok_id _ _ (ok_rows _ Hok _ _ Hj)). }
  fold (all_jobs db). fold (offered cand e db). revert Hin.
  generalize (sort_by order (offered cand e db)). intros l Hin Hn.
  rewrite length_fmap, length_take.
  rewrite <- (take_drop (Z.to_nat limit) l) in Hin. apply elem_of_app in Hin as [Hin|Hin].
  - destruct Hn. apply list_elem_of_fmap. exists j. split; [|done].
    by rewrite (ok_id _ _ (ok_rows _ Hok _ _ Hj)).
  - apply elem_of_length_pos in Hin. rewrite length_drop in Hin. lia.
Qed.

(** What the reaper does with the jobs of dead workers.  On a table that
    answers it takes back leases that expired with a heartbeat over five
    minutes old, leaving some only when the batch is full, and no other row
    changes.  A row taken back keeps its staged asset and its counted
    attempts, and goes to the ingest pool whatever it had reached: the publish
    pool is not offered it at any later time, and the ingest pool is as soon as
    the row's own due times allow. *)
Theorem reaper_returns_to_ingest (maxRows : Z) (e : Env) (db : JobDB) (n : nat)
    (Hok : db_ok db) (Hrel : reliable e) :
  let run := ReclaimExpiredLeases maxRows e (db, n) in
  ∃ ids, result_of run = inr (length ids) ∧
    (∀ id, jobs (state_of run) !! id =
       (λ j, if bool_decide (id ∈ ids) then reaped_job e j else j) <$> jobs db !! id) ∧
    ∀ id j, jobs db !! id = Some j →
      if bool_decide (id ∈ ids) then
        expired (db_now e) j = true ∧ held e id = false ∧
        ∃ j', jobs (state_of run) !! id = Some j' ∧ job_status j' = "pending" ∧
          AssetID j' = AssetID j ∧ AttemptCount j' = AttemptCount j ∧ Spec j' = Spec j ∧
          ∀ now, publish_candidate now j' = false ∧
            ingest_candidate now j' =
              le_opt_now now (NextAttemptAt j) && le_opt_now now (IngestAfter (Spec j))
      else expired (db_now e) j = true → held e id = false →
        length ids = Z.to_nat (if maxRows <=? 0 then 100 else maxRows).
Proof.
  intros run. set (m := if maxRows <=? 0 then 100 else maxRows).
  set (ids := select_ids expired expiry_order m e db). exists ids.
  assert (Hrun : run = (inr (length ids),
    (mkJobDB (update_ids ids (reaped_job e) (jobs db)) (job_serial db), S (S n)))).
  { subst run. unfold ReclaimExpiredLeases.
    erewrite bind_run by apply exec_fine, Hrel. apply rows_fine, Hrel. }
  rewrite Hrun. unfold result_of, state_of. cbn [fst snd jobs].
  split; [done|]. split; [intros id; apply update_ids_lookup|].
  intros id j Hj. case_bool_decide as Hid.
  - destruct (select_ids_spec _ _ _ _ _ _ Hok Hid) as (j' & Hj' & Hc & Hh). simplify_eq.
    split; [done|]. split; [done|]. exists (reaped_job e j).
    rewrite update_ids_lookup, Hj, bool_decide_eq_true_2 by done.
    do 5 (split; [done|]). intros now. split; [done|].
    unfold ingest_candidate, is_status, lease_over. simpl. by rewrite andb_true_r.
  - intros Hc Hh. by apply (select_ids_full _ _ _ _ _ _ _ Hok Hj Hc Hh).
Qed.
Lemma reaper_returns_to_ingest_witness :
  let db := run_history sample_history no_jobs in
  let run := ReclaimExpiredLeases 10 (sample_env (8 * Minute)) (db, O) in
  result_of run = inr 1%nat ∧
  ∃ ids : list Z, result_of run = inr (length ids).
Proof.
  intros db run. split; [vm_compute; reflexivity|].
  assert (Hok : db_ok db).
  { refine (proj1 (job_history_safe _ _ _ no_jobs_ok)). repeat constructor. }
  destruct (reaper_returns_to_ingest 10 (sample_env (8 * Minute)) db O Hok (λ _, eq_refl))
    as (ids & H & _).
  exists ids. exact H.
Defined.
