(* ===== verification/Cursor.v ===== *)
(** * List cursors and page parameters

    [src/pkg/api/cursor_pagination.go] and the page parameters of the post lists
    ([posts_shared.go], [list_pagination_handlers.go], [list_dtos.go]).  A query
    string is the list of its decoded pairs; the encodings are those of
    [Codec]. *)

From S2P Require Import Prelude Codec PostModel.
From Stdlib Require Import ZArith Lia.
Local Open Scope Z_scope.

(** [url.Values]. *)
Definition Values := list (string * string).
Definition values_of (q : Values) (key : string) : list string :=
  (List.filter (λ kv, bool_decide (kv.1 = key)) q).*2.
Definition Get (q : Values) (key : string) : string := default "" (head (values_of q key)).
(** [url.QueryEscape]. *)
Definition upper_hex (n : N) : ascii := ascii_of_N (if (n <? 10)%N then 48 + n else 55 + n)%N.
Definition query_byte (a : ascii) : string :=
  let c := N_of_ascii a in
  if is_digit a || ((65 <=? c) && (c <=? 90))%N || ((97 <=? c) && (c <=? 122))%N ||
     bool_decide (c ∈ [45; 46; 95; 126]%N) then String a ""
  else if (c =? 32)%N then "+"
  else "%" +:+ String (upper_hex (c / 16)) (String (upper_hex (c mod 16)) "").
Fixpoint QueryEscape (s : string) : string :=
  match s with "" => "" | String a s' => query_byte a +:+ QueryEscape s' end.
(** [url.Values.Encode], the keys in order. *)
Definition Encode (q : Values) : string :=
  let keys := foldr (λ k l, if bool_decide (k ∈ l) then l else k :: l) [] (q.*1) in
  Join ((λ kv, QueryEscape kv.1 +:+ "=" +:+ QueryEscape kv.2) <$>
    (k ← merge_sort (λ a b, Is_true (String.leb a b)) keys; pair k <$> values_of q k)) "&".

(* Source: pkg/api/cursor_pagination.go *)
Definition defaultListPageSize : Z := 50. (* 15 *)
Definition maxListPageSize : Z := 100. (* 16 *)
Definition errInvalidListCursor : err := (* 19 *)
  sentinel "errInvalidListCursor" "invalid list cursor".
(* 21-28 listCursor *)
Record listCursor := mkListCursor {
  Version : Z;
  Scope : string;
  Context : string;
  Time : string;
  NullTime : bool;
  cursor_ID : string
}.
(** [json.Marshal] of the struct: fields in order, the empty ones left out where
    the tag says so. *)
Definition marshal_listCursor (c : listCursor) : string :=
  let omit {A} (empty : bool) (f : A) := if empty then [] else [f] in
  json_object
    (("v", itoa (Version c)) :: ("s", json_string (Scope c)) ::
     omit (bool_decide (Context c = "")) ("c", json_string (Context c)) ++
     omit (bool_decide (Time c = "")) ("t", json_string (Time c)) ++
     omit (negb (NullTime c)) ("n", "true") ++ [("i", json_string (cursor_ID c))]).
(** [json.Unmarshal] into the struct: a key selects a field by name or, failing
    that, by its folded name; [null] leaves a field alone. *)
Definition field_of (k : string) : string :=
  if bool_decide (k ∈ ["v"; "s"; "c"; "t"; "n"; "i"]) then k
  else if bool_decide (k = bytes [197; 191]%N) then "s"
  else ToLower k.
Definition set_field (c : listCursor) (kv : string * json) : option listCursor :=
  let '(mkListCursor v s x t n i) := c in
  let k := field_of kv.1 in
  match kv.2 with
  | JNull => Some c
  | JNum l =>
      if bool_decide (k = "v") then
        match ParseInt l with (z, None) => Some (mkListCursor z s x t n i) | _ => None end
      else if bool_decide (k ∈ ["s"; "c"; "t"; "n"; "i"]) then None else Some c
  | JStr w =>
      if bool_decide (k = "s") then Some (mkListCursor v w x t n i)
      else if bool_decide (k = "c") then Some (mkListCursor v s w t n i)
      else if bool_decide (k = "t") then Some (mkListCursor v s x w n i)
      else if bool_decide (k = "i") then Some (mkListCursor v s x t n w)
      else if bool_decide (k ∈ ["v"; "n"]) then None else Some c
  | JBool b =>
      if bool_decide (k = "n") then Some (mkListCursor v s x t b i)
      else if bool_decide (k ∈ ["v"; "s"; "c"; "t"; "i"]) then None else Some c
  | JArr _ | JObj _ =>
      if bool_decide (k ∈ ["v"; "s"; "c"; "t"; "n"; "i"]) then None else Some c
  end.
Definition zero_cursor : listCursor := mkListCursor 0 "" "" "" false "".
Fixpoint set_fields (c : listCursor) (ms : list (string * json)) : option listCursor :=
  match ms with [] => Some c | kv :: ms' => c' ← set_field c kv; set_fields c' ms' end.
Definition unmarshal_listCursor (text : string) : option listCursor :=
  match read_json text with
  | Some JNull => Some zero_cursor
  | Some (JObj ms) => set_fields zero_cursor ms
  | _ => None
  end.

(* 34-43 encodeListCursorForContext *)
Definition encodeListCursorForContext (scope context : string) (timestamp : Z) (id : string) : string :=
  let '(time, null) :=
    if timestamp =? 0 then ("", true) else (RFC3339Nano timestamp, false) in
  EncodeToString (marshal_listCursor (mkListCursor 1 scope context time null id)).
(* 30-32 encodeListCursor *)
Definition encodeListCursor (scope : string) (timestamp : Z) (id : string) : string :=
  encodeListCursorForContext scope "" timestamp id.
(** The zero time is 0. *)
(* 54-74 decodeListCursorDetails *)
Definition decodeListCursorDetails (raw scope context : string) : err + (Z * string * bool) :=
  if bool_decide (TrimSpace raw = "") then inr (0, "", false) else
  match DecodeString raw with
  | None => inl (wrap_suffix errInvalidListCursor "encoding")
  | Some decoded =>
      let malformed := inl (wrap_suffix errInvalidListCursor "malformed token or filter scope") in
      match unmarshal_listCursor decoded with
      | None => malformed
      | Some cursor =>
          if negb (Version cursor =? 1) || negb (bool_decide (Scope cursor = scope)) ||
             bool_decide (cursor_ID cursor = "") || negb (bool_decide (Context cursor = context))
          then malformed
          else if NullTime cursor || bool_decide (Time cursor = "") then inr (0, cursor_ID cursor, true)
          else match parse_RFC3339Nano (Time cursor) with
               | None => inl (wrap_suffix errInvalidListCursor "timestamp")
               | Some timestamp => inr (timestamp, cursor_ID cursor, false)
               end
      end
  end.
(* 49-52 decodeListCursorForContext *)
Definition decodeListCursorForContext (raw scope context : string) : err + (Z * string) :=
  match decodeListCursorDetails raw scope context with
  | inl er => inl er
  | inr (timestamp, id, _) => inr (timestamp, id)
  end.
(* 45-47 decodeListCursor *)
Definition decodeListCursor (raw scope : string) : err + (Z * string) :=
  decodeListCursorForContext raw scope "".
(* 76-84 listCursorFilterContext *)
Definition listCursorFilterContext (q : Values) (keys : list string) : string :=
  Encode (k ← foldr (λ k l, if bool_decide (k ∈ l) then l else k :: l) [] keys;
          pair k <$> values_of q k).
(* 90-93 parseCursorID *)
Definition parseCursorID (raw : string) : Z := (ParseInt (TrimSpace raw)).1.
(* 95-104 parseListPageWithBounds *)
Definition parseListPageWithBounds (q : Values) (defaultLimit maxLimit : Z) : err + (Z * string) :=
  let raw := TrimSpace (Get q "limit") in
  let bad := inl (errors_new ("limit must be between 1 and " +:+ itoa maxLimit)) in
  let cursor := TrimSpace (Get q "cursor") in
  if bool_decide (raw = "") then inr (defaultLimit, cursor)
  else match ParseInt raw with
       | (limit, None) =>
           if (limit <? 1) || (maxLimit <? limit) then bad else inr (limit, cursor)
       | _ => bad
       end.
(* 86-88 parseListPage *)
Definition parseListPage (q : Values) : err + (Z * string) :=
  parseListPageWithBounds q defaultListPageSize maxListPageSize.

(** ** Pages of posts *)
(** The limit, and the position behind which the page starts. *)
(* Source: pkg/api/posts_shared.go *)
(* 19-39 parsePostListPage *)
Definition parsePostListPage (q : Values) (cursorContext : string) : err + (Z * option (Z * Z)) :=
  match parseListPageWithBounds q 50 100 with
  | inl er => inl er
  | inr (limit, rawCursor) =>
      match decodeListCursorDetails rawCursor "posts" cursorContext with
      | inl er => inl er
      | inr (cursorTime, cursorID, cursorNull) =>
          if cursorNull && negb (bool_decide (rawCursor = "")) then
            inl (errors_new "invalid list cursor: post cursor timestamp is required")
          else if bool_decide (rawCursor = "") then inr (limit, None)
          else match ParseInt cursorID with
               | (afterID, None) =>
                   if afterID <=? 0 then inl (errors_new "invalid list cursor")
                   else inr (limit, Some (cursorTime, afterID))
               | _ => inl (errors_new "invalid list cursor")
               end
      end
  end.
(* Source: pkg/api/list_pagination_handlers.go *)
(* 10-16 joinInt64List *)
Definition joinInt64List (values : list Z) : string := Join (itoa <$> values) ",".
(** The projection of a post in a list; the snapshot is kept as a syntax tree. *)
(* Source: pkg/api/list_dtos.go *)
(* 13-30 postListItem *)
Record postListItem := mkPostListItem {
  item_ID : Z;
  item_WorkspaceID : Z;
  item_Title : string;
  item_Caption : string;
  item_MediaURL : string;
  item_MediaAssetID : option string;
  item_PrivacyLevel : string;
  item_DefaultPrivacy : string;
  item_IngestAfter : Z;
  item_PublishAt : option Z;
  item_Status : string;
  item_UploadJobID : option Z;
  item_CreatedAt : Z;
  item_GenerationStatus : string;
  item_GenerationProgress : option Z;
  item_GenerationPhase : string;
  item_GenerationSnapshot : option json
}.
(** A member of an object decoded into a map: the last one of the name. *)
Definition member (k : string) (ms : list (string * json)) : option json :=
  last (List.filter (λ kv, bool_decide (kv.1 = k)) ms).*2.
(* 32-58 postListItemFromModel *)
Definition postListItemFromModel (post : Post) : postListItem :=
  let metadata := match read_json (post_Metadata post) with Some (JObj ms) => ms | _ => [] end in
  let text k := match member k metadata with Some (JStr s) => s | _ => "" end in
  mkPostListItem (post_ID post) (post_WorkspaceID post) (post_Title post) (post_Caption post)
    (post_MediaURL post) (post_MediaAssetID post) (post_PrivacyLevel post)
    (post_DefaultPrivacyLevel post) (post_IngestAfter post) (post_PublishAt post) (post_Status post)
    (post_UploadJobID post) (post_CreatedAt post) (text "generation_status")
    (match member "generation_progress" metadata with
     | Some (JNum l) => match ParseInt l with (z, None) => Some z | _ => Some 0 end
     | Some (JStr _ | JBool _ | JArr _ | JObj _) => Some 0
     | _ => None
     end)
    (text "generation_phase") (member "generation_snapshot" metadata).
(* 60-64 paginatedPostListResponse *)
Record paginatedPostListResponse := mkPostPage {
  Posts : list postListItem;
  NextCursor : string;
  HasMore : bool
}.
(* Source: pkg/api/list_pagination_handlers.go *)
(* 18-29 postListResponse *)
Definition postListResponse (posts : list Post) (hasMore : bool) (context : string) :
    paginatedPostListResponse :=
  mkPostPage (postListItemFromModel <$> posts)
    (match last posts with
     | Some p => if hasMore
                 then encodeListCursorForContext "posts" context (post_CreatedAt p) (itoa (post_ID p))
                 else ""
     | None => ""
     end) hasMore.

Example cursor_ex :
  let c := encodeListCursorForContext "posts" "workspace_id=7" 1700000000120000000 "42" in
  c = "eyJ2IjoxLCJzIjoicG9zdHMiLCJjIjoid29ya3NwYWNlX2lkPTciLCJ0IjoiMjAyMy0xMS0xNFQyMjoxMzoyMC4xMloiLCJpIjoiNDIifQ" ∧
  parsePostListPage [("limit", "2"); ("cursor", c)] "workspace_id=7" =
    inr (2, Some (1700000000120000000, 42)) ∧
  match parsePostListPage [("limit", "2"); ("cursor", c)] "workspace_id=8" with
  | inl er => errors_is er "errInvalidListCursor" | inr _ => false end = true ∧
  listCursorFilterContext [("limit", "1"); ("workspace_id", "7 &")] ["workspace_id"] =
    "workspace_id=7+%26".
Proof. vm_compute. done. Qed.

(** ** Round trips *)
Lemma unmarshal_marshal s x t n i :
  unmarshal_listCursor (marshal_listCursor (mkListCursor 1 s x t n i)) =
  Some (mkListCursor 1 s x t n i).
Proof.
  set (omit := λ (b : bool) (m : string * string * json), if b then [] else [m]).
  set (l := ("v", "1", JNum "1") :: ("s", json_string s, JStr s) ::
    omit (bool_decide (x = "")) ("c", json_string x, JStr x) ++
    omit (bool_decide (t = "")) ("t", json_string t, JStr t) ++
    omit (negb n) ("n", "true", JBool true) ++ [("i", json_string i, JStr i)]).
  assert (marshal_listCursor (mkListCursor 1 s x t n i) = json_object l.*1) as ->.
  { subst l omit. unfold marshal_listCursor. cbn [Version Scope Context Time NullTime cursor_ID].
    by destruct (bool_decide (x = "")), (bool_decide (t = "")), n. }
  unfold unmarshal_listCursor. rewrite read_json_object; [|done|].
  - subst l omit. case_bool_decide as Hx; case_bool_decide as Ht; destruct n; subst; reflexivity.
  - pose proof reads_string as Hs.
    assert (reads "1" (JNum "1")) as H1 by (by intros f d c r [-> | ->]).
    assert (reads "true" (JBool true)) as Ht by (by intros f d c r [-> | ->]).
    subst l omit. cbv beta.
    destruct (bool_decide (x = "")), (bool_decide (t = "")), n; cbn [negb app];
      repeat apply Forall_cons_2; first [apply Forall_nil_2|apply Hs|exact H1|exact Ht].
Qed.

(** What base64 prints is not blank, and [TrimSpace] leaves it alone. *)
Definition graphic (a : ascii) : bool := let c := N_of_ascii a in ((33 <=? c) && (c <=? 126))%N.
Definition graphic_string (s : string) : Prop :=
  Forall (λ a, graphic a) (String.list_ascii_of_string s).
Definition starts_blank (w : string) : bool :=
  match w with String a _ => negb (graphic a) | "" => false end.
Lemma trim_left_graphic ws fuel a s :
  forallb starts_blank ws = true → graphic a = true →
  trim_left_go ws fuel (String a s) = String a s.
Proof.
  intros Hws Ha. destruct fuel as [|f]; [done|]. cbn [trim_left_go].
  assert (first_some (λ w, string_prefix_drop w (String a s)) ws = None) as ->; [|done].
  induction ws as [|w ws IH]; [done|]. cbn [forallb] in Hws. apply andb_true_iff in Hws as [Hw Hws].
  cbn [first_some foldr]. destruct w as [|b w]; [done|]. cbn [string_prefix_drop].
  destruct (Ascii.eqb b a) eqn:E; [|by apply IH].
  apply Ascii.eqb_eq in E as ->. cbn [starts_blank] in Hw. by rewrite Ha in Hw.
Qed.
Lemma TrimSpace_graphic s : graphic_string s → TrimSpace s = s.
Proof.
  intros Hs. unfold TrimSpace, trim_left.
  assert (trim_left_go space_runes (String.length s) s = s) as ->.
  { destruct s as [|a s]; [done|]. apply Forall_cons in Hs as [Ha%Is_true_true _].
    by apply trim_left_graphic; [vm_compute|]. }
  assert (graphic_string (String.rev s)) as Hr.
  { unfold graphic_string, String.rev. rewrite rev_app_list. simpl. rewrite app_nil_r.
    by apply Forall_rev. }
  rewrite <- (rev_involutive_s s) at 3. f_equal. destruct (String.rev s) as [|a r]; [done|].
  apply Forall_cons in Hr as [Ha%Is_true_true _]. by apply trim_left_graphic; [vm_compute|].
Qed.
Lemma b64_char_graphic n : (n < 64)%N → graphic (b64_char n).
Proof.
  intros Hn. assert (forallb (λ n, graphic (b64_char n)) (N.of_nat <$> seq 0 64) = true) as H
    by reflexivity.
  rewrite forallb_forall in H. apply Is_true_true, H, list_elem_of_In, list_elem_of_fmap.
  exists (N.to_nat n). rewrite elem_of_seq. split; lia.
Qed.
Lemma EncodeToString_graphic s : graphic_string (EncodeToString s).
Proof.
  induction s as [|a|a b|a b c s IH] using string_triples; [constructor|..];
    pose proof (byte_bound a); try pose proof (byte_bound b); try pose proof (byte_bound c);
    cbn [EncodeToString]; repeat (constructor; [apply b64_char_graphic; sextets|]);
    first [constructor|exact IH].
Qed.
Lemma EncodeToString_blank s : TrimSpace (EncodeToString s) = "" → s = "".
Proof.
  rewrite TrimSpace_graphic by apply EncodeToString_graphic.
  by destruct s as [|a [|b [|c s]]].
Qed.

Lemma RFC3339Nano_nonempty t : RFC3339Nano t ≠ "".
Proof.
  intros H. apply (f_equal String.length) in H. unfold RFC3339Nano in H.
  rewrite !length_app_s in H. simpl in H. lia.
Qed.
Lemma marshal_nonempty c : marshal_listCursor c ≠ "".
Proof. unfold marshal_listCursor, json_object. done. Qed.
(** Reading back a cursor: the checks of the decoder are left. *)
Lemma decode_encoded scope context t id scope' context' : t = 0 ∨ printable_year t →
  decodeListCursorDetails (encodeListCursorForContext scope context t id) scope' context' =
  if bool_decide (scope = scope') && negb (bool_decide (id = "")) && bool_decide (context = context')
  then inr (t, id, t =? 0)
  else inl (wrap_suffix errInvalidListCursor "malformed token or filter scope").
Proof.
  intros Ht. unfold encodeListCursorForContext, decodeListCursorDetails.
  destruct (t =? 0) eqn:E0;
    rewrite bool_decide_eq_false_2 by (intros H%EncodeToString_blank; by apply marshal_nonempty in H);
    rewrite DecodeString_EncodeToString, unmarshal_marshal;
    cbn [Version Scope Context Time NullTime cursor_ID orb];
    destruct (bool_decide (scope = scope')), (bool_decide (id = "")), (bool_decide (context = context'));
    cbn [negb andb orb Z.eqb]; try done.
  - f_equal. f_equal. f_equal. lia.
  - destruct Ht as [->|Ht]; [done|].
    change (1 =? 1) with true. cbn [negb orb].
    rewrite bool_decide_eq_false_2 by apply RFC3339Nano_nonempty.
    by rewrite parse_RFC3339Nano_format.
Qed.

(** ** Page parameters *)
Lemma all_digits_graphic s : all_digits s → graphic_string s.
Proof.
  intros H. eapply Forall_impl; [exact H|]. intros a Ha%Is_true_true. apply Is_true_true.
  unfold is_digit, digit_value in Ha. unfold graphic.
  apply bool_decide_eq_true in Ha as [d Hd]. case_match eqn:E; [|done].
  apply andb_true_iff in E as [E1 E2]. apply andb_true_iff. split; apply N.leb_le; lia.
Qed.
Lemma itoa_graphic z : 0 ≤ z → graphic_string (itoa z).
Proof. intros Hz. destruct z; [..|lia]; apply all_digits_graphic, string_of_N_digits. Qed.
Lemma itoa_nonempty z : itoa z ≠ "".
Proof. destruct z; try apply digits_go_nonempty; try lia. done. Qed.
Lemma TrimSpace_nil : TrimSpace "" = "".
Proof. done. Qed.
(** The limit and the cursor of a well-formed page request. *)
Lemma parse_page_bounds q n c lo hi : 1 ≤ n ≤ hi → hi < 2^63 →
  Get q "limit" = itoa n → Get q "cursor" = c → graphic_string c →
  parseListPageWithBounds q lo hi = inr (n, c).
Proof.
  intros Hn Hhi Hl Hc Hg. unfold parseListPageWithBounds. rewrite Hl, Hc.
  rewrite !TrimSpace_graphic by (done || apply itoa_graphic; lia).
  rewrite bool_decide_eq_false_2 by apply itoa_nonempty.
  rewrite ParseInt_itoa by (unfold in_int64, int64_min, int64_max; lia).
  replace ((n <? 1) || (hi <? n)) with false by lia. done.
Qed.
Lemma parse_first_page q n context : 1 ≤ n ≤ 100 → Get q "limit" = itoa n → Get q "cursor" = "" →
  parsePostListPage q context = inr (n, None).
Proof.
  intros Hn Hl Hc. unfold parsePostListPage.
  rewrite (parse_page_bounds q n "" 50 100) by (done || lia || constructor). done.
Qed.
(** The cursor of a post is read back as its position. *)
Lemma parse_next_page q n context t id : 1 ≤ n ≤ 100 → Get q "limit" = itoa n →
  Get q "cursor" = encodeListCursorForContext "posts" context t (itoa id) →
  t ≠ 0 → printable_year t → 0 < id → in_int64 id →
  parsePostListPage q context = inr (n, Some (t, id)).
Proof.
  intros Hn Hl Hc Ht0 Ht Hid Hid'. unfold parsePostListPage.
  set (c := encodeListCursorForContext "posts" context t (itoa id)) in *.
  assert (c ≠ "" ∧ graphic_string c) as [Hne Hg].
  { subst c. unfold encodeListCursorForContext. destruct (t =? 0);
      (split; [|apply EncodeToString_graphic]);
      intros H; eapply marshal_nonempty, EncodeToString_blank; rewrite H; done. }
  rewrite (parse_page_bounds q n c 50 100) by (done || lia).
  subst c. rewrite decode_encoded by (by right).
  rewrite (bool_decide_eq_true_2 ("posts" = "posts")), (bool_decide_eq_true_2 (context = context)) by done.
  rewrite (bool_decide_eq_false_2 (itoa id = "")) by apply itoa_nonempty. cbn [negb andb].
  replace (t =? 0) with false by lia. cbn [andb].
  rewrite bool_decide_eq_false_2 by done.
  rewrite ParseInt_itoa by done. by replace (id <=? 0) with false by lia.
Qed.
