(* ===== verification/PostStore.v ===== *)
(** * The post store

    [src/internal/repository/post_repo_*.go] and the statements of
    [queries.go]: posts, their targets, the publish and reconcile leases of the
    workers, and the aggregate status that every transaction on a target writes
    back to its post.  The triggers of migrations 105 and 108 run inside the
    statements that fire them; the statuses are the labels of the enum type of
    the schema.  This file holds the operations, [PostStoreProps] what is proved
    about them. *)

From S2P Require Import Prelude Codec Store PostModel.
From S2P Require Outbox.
From Stdlib Require Import ZArith Lia.
Local Open Scope Z_scope.

(* Source: internal/repository/errors.go *)
Definition ErrPostNotFound : err := sentinel "ErrPostNotFound" "post not found". (* 35 *)
Definition ErrPostUnauthorized : err := (* 46 *)
  sentinel "ErrPostUnauthorized" "post not owned by workspace".
Definition ErrPostTargetNotFound : err := (* 52 *)
  sentinel "ErrPostTargetNotFound" "post_target not found".
Definition ErrPostTargetTransitionStale : err := (* 56 *)
  sentinel "ErrPostTargetTransitionStale" "post_target transition stale".
Definition ErrPostTargetDuplicate : err := sentinel "ErrPostTargetDuplicate" (* 97 *)
  "post target already exists for this post + platform account".
Definition ErrProviderIdempotencyConflict : err := (* 109 *)
  sentinel "ErrProviderIdempotencyConflict"
    "provider idempotency key conflict: account already has a target with this key".
Definition sql_ErrNoRows : err := sentinel "ErrNoRows" "sql: no rows in result set".

(** ** The schema

    The labels of the enum type [post_status] after all migrations: 003, 012,
    018, 035, 130 and 132. *)
(* Source: internal/database/migrations/003_posts_workspaces.sql *)
(* 34-40 post_status *)
Definition post_status_labels : list string :=
  ["draft"; "scheduled"; "publishing"; "published"; "failed"; "waiting_provider"; "queued";
   "partially_published"; "retrying"; "dlq"; "drive_required_failed"; "blocked_auth"].

(** A target is keyed by its id.  Its columns are grouped by who writes them:
    the publish lease, the reconciler, the retry schedule, the provider. *)
(* Source: internal/database/migrations/035_worker_hardening.sql *)
(* 29-35 post_targets *)
Record PublishLease := mkPublishLease {
  lease_owner_id : option string;
  leased_until : option Z;
  heartbeat_at : option Z
}.
(* Source: internal/database/migrations/108_reconcile_target_lease.sql *)
(* 7-10 post_targets *)
Record ReconcileState := mkReconcileState {
  reconcile_owner_id : option string;
  reconcile_until : option Z;
  reconcile_heartbeat_at : option Z;
  reconcile_attempt : Z;
  next_reconcile_at : Z
}.
(* Source: internal/database/migrations/018_publish_state_machine.sql *)
(* 57-72 post_targets *)
Record RetryState := mkRetryState {
  attempt_count : Z;
  next_attempt_at : option Z;
  next_retry_at : option Z;
  rate_limit_reset_at : option Z;
  last_error_code : option string
}.
Record ProviderData := mkProviderData {
  platform_post_id : option string;
  error_message : option string;
  published_at : option Z;
  completed_at : option Z;
  provider_state : option string;
  container_id : option string;
  provider_idempotency_key : option string;
  upload_offset : Z
}.
(* Source: internal/database/migrations/003_posts_workspaces.sql *)
(* 62-70 post_targets *)
Record TargetRow := mkTargetRow {
  t_post : Z;
  t_account : Z;
  t_status : string;
  t_lease : PublishLease;
  t_reconcile : ReconcileState;
  t_retry : RetryState;
  t_provider : ProviderData;
  t_version : Z;
  t_updated_at : Z
}.
Definition no_lease : PublishLease := mkPublishLease None None None.

(** The tables a post touches; [dirty] is [post_aggregate_repair_queue]. *)
Record PostDB := mkPostDB {
  posts : gmap Z Post;
  targets : gmap Z TargetRow;
  dirty : gmap Z Z;
  outbox : Outbox.OutboxDB;
  post_serial : Z;
  target_serial : Z
}.
Definition with_posts (m : gmap Z Post) (db : PostDB) : PostDB :=
  mkPostDB m (targets db) (dirty db) (outbox db) (post_serial db) (target_serial db).
Definition with_targets (m : gmap Z TargetRow) (db : PostDB) : PostDB :=
  mkPostDB (posts db) m (dirty db) (outbox db) (post_serial db) (target_serial db).
Definition with_dirty (m : gmap Z Z) (db : PostDB) : PostDB :=
  mkPostDB (posts db) (targets db) m (outbox db) (post_serial db) (target_serial db).

(** A statement that names statuses, as literals or as arguments: the server
    rejects it when one of them is not a label of the type. *)
Definition exec_status {A} (statuses : list string) (op : string)
    (f : Env → PostDB → A * PostDB) : M PostDB A :=
  if forallb (λ s, bool_decide (s ∈ post_status_labels)) statuses then exec op f
  else throw (db_err op).

(** ** Triggers *)
Definition with_status (s : string) (t : TargetRow) : TargetRow :=
  mkTargetRow (t_post t) (t_account t) s (t_lease t) (t_reconcile t) (t_retry t) (t_provider t)
    (t_version t) (t_updated_at t).
Definition with_lease (l : PublishLease) (t : TargetRow) : TargetRow :=
  mkTargetRow (t_post t) (t_account t) (t_status t) l (t_reconcile t) (t_retry t) (t_provider t)
    (t_version t) (t_updated_at t).
Definition with_reconcile (r : ReconcileState) (t : TargetRow) : TargetRow :=
  mkTargetRow (t_post t) (t_account t) (t_status t) (t_lease t) r (t_retry t) (t_provider t)
    (t_version t) (t_updated_at t).
Definition with_retry (r : RetryState) (t : TargetRow) : TargetRow :=
  mkTargetRow (t_post t) (t_account t) (t_status t) (t_lease t) (t_reconcile t) r (t_provider t)
    (t_version t) (t_updated_at t).
Definition with_provider (p : ProviderData) (t : TargetRow) : TargetRow :=
  mkTargetRow (t_post t) (t_account t) (t_status t) (t_lease t) (t_reconcile t) (t_retry t) p
    (t_version t) (t_updated_at t).

(** BEFORE UPDATE OF status. *)
(* Source: internal/database/migrations/108_reconcile_target_lease.sql *)
(* 25-39 reset_reconcile_schedule_on_publish_start *)
Definition reset_reconcile_schedule_on_publish_start (e : Env) (old new : TargetRow) : TargetRow :=
  if bool_decide (t_status new = "publishing") && negb (bool_decide (t_status old = t_status new))
  then with_reconcile (mkReconcileState None None None 0 (db_now e)) new
  else new.
(** AFTER INSERT OR UPDATE OF status, for the parents of the rows that changed. *)
(* Source: internal/database/migrations/105_post_aggregate_repair_queue.sql *)
(* 24-41 enqueue_post_aggregate_repair *)
Definition enqueue_post_aggregate_repair (e : Env) (parents : list Z) (db : PostDB) : PostDB :=
  with_dirty (dirty db ∪ list_to_map ((λ p, (p, db_now e)) <$> parents)) db.

(** [UPDATE post_targets SET f WHERE sel] with its triggers. *)
Definition update_targets (sel : Z → TargetRow → bool) (f : TargetRow → TargetRow)
    (e : Env) (db : PostDB) : nat * PostDB :=
  let hit := List.filter (λ kt, sel kt.1 kt.2) (map_to_list (targets db)) in
  let changed := List.filter (λ kt, negb (bool_decide (t_status kt.2 = t_status (f kt.2)))) hit in
  (length hit,
   enqueue_post_aggregate_repair e ((λ kt, t_post kt.2) <$> changed)
     (with_targets (map_imap (λ k t, Some
        (if sel k t then reset_reconcile_schedule_on_publish_start e t (f t) else t))
        (targets db)) db)).
(** [... WHERE id = $1 AND p]. *)
Definition row (id : Z) (p : TargetRow → bool) (k : Z) (t : TargetRow) : bool := (k =? id) && p t.
Definition at_status (s : string) (t : TargetRow) : bool := bool_decide (t_status t = s).
Definition status_in (l : list string) (t : TargetRow) : bool := bool_decide (t_status t ∈ l).
Definition leased_to (owner : string) (t : TargetRow) : bool :=
  bool_decide (lease_owner_id (t_lease t) = Some owner).
Definition set_post_status (s : string) (p : Post) : Post :=
  mkPost (post_ID p) (post_WorkspaceID p) (post_Title p) (post_Caption p) (post_MediaURL p)
    (post_MediaAssetID p) (post_StorageObjectKey p) (post_Bucket p) (post_PrivacyLevel p)
    (post_DefaultPrivacyLevel p) (post_UploadJobID p) (post_IngestAfter p) (post_PublishAt p) s
    (post_IdempotencyKey p) (post_Metadata p) (post_Version p) (post_CreatedAt p) (post_UpdatedAt p).

(** ** Aggregation inside a transaction *)
(* Source: internal/repository/post_repo_aggregate.go *)
Definition target_not_found (id : Z) : err :=
  wrap_suffix ErrPostTargetNotFound ("id=" +:+ itoa id).
(* 12-20 postIDForTargetTx *)
Definition postIDForTargetTx (targetID : Z) : M PostDB Z :=
  o ← exec ("find parent for target " +:+ itoa targetID)
        (λ _ db, (t_post <$> targets db !! targetID, db));
  match o with Some postID => mret postID | None => throw (target_not_found targetID) end.

(** The rows of a post, [ORDER BY id ASC]. *)
Definition post_rows (postID : Z) (db : PostDB) : list (Z * TargetRow) :=
  sort_by (λ x y, x.1 <=? y.1)
    (List.filter (λ kt, t_post kt.2 =? postID) (map_to_list (targets db))).
(* 25-44 lockTargetsForPostTx *)
Definition lockTargetsForPostTx (postID : Z) : M PostDB (list Z) :=
  exec ("lock targets for post " +:+ itoa postID) (λ _ db, ((post_rows postID db).*1, db)).
(* 46-55 lockTargetTx *)
Definition lockTargetTx (targetID : Z) : M PostDB unit :=
  found ← exec "lock target for aggregate" (λ _ db, (bool_decide (is_Some (targets db !! targetID)), db));
  if (found : bool) then mret tt else throw (target_not_found targetID).
(* 57-66 lockPostTx *)
Definition lockPostTx (postID : Z) : M PostDB unit :=
  found ← exec "lock post for aggregate" (λ _ db, (bool_decide (is_Some (posts db !! postID)), db));
  if (found : bool) then mret tt
  else throw (wrap_suffix ErrPostNotFound ("id=" +:+ itoa postID)).
Definition post_statuses (postID : Z) (db : PostDB) : list string :=
  (λ kt, t_status kt.2) <$> post_rows postID db.
(* 68-91 resolvePostStatusLockedTx *)
Definition resolvePostStatusLockedTx (postID : Z) : M PostDB string :=
  statuses ← exec ("select target statuses for post " +:+ itoa postID)
               (λ _ db, (post_statuses postID db, db));
  match resolve_statuses statuses with inl er => throw er | inr s => mret s end.
Definition update_post_status (postID : Z) (status : string) (_ : Env) (db : PostDB) : unit * PostDB :=
  (tt, with_posts (alter (set_post_status status) postID (posts db)) db).
(* 93-102 persistAggregatePostStatusLockedTx *)
Definition persistAggregatePostStatusLockedTx (postID : Z) : M PostDB unit :=
  status ← resolvePostStatusLockedTx postID;
  exec_status [status] ("update aggregate status for post " +:+ itoa postID)
    (update_post_status postID status).

(** Why a guarded UPDATE matched nothing. *)
Definition stale_or_missing (targetID : Z) : M PostDB unit :=
  current ← exec ("read stale target " +:+ itoa targetID)
              (λ _ db, (t_status <$> targets db !! targetID, db));
  match current with
  | None => throw (target_not_found targetID)
  | Some c =>
      if IsTerminal c then
        throw (wrap_suffix ErrPostTargetTransitionStale
                 ("id=" +:+ itoa targetID +:+ " current=" +:+ c))
      else throw (target_not_found targetID)
  end.

(** ** Status writes *)
(** Empty strings stand for what the caller passes; they are stored as such. *)
(* Source: internal/models/post.go *)
(** The fields of [PostTarget] a status write reads. *)
(* 277-347 PostTarget *)
Record TargetUpdate := mkTargetUpdate {
  u_ID : Z;
  u_Status : string;
  u_PlatformPostID : string;
  u_ErrorMessage : string;
  u_PublishedAt : option Z;
  u_ProviderState : string;
  u_ContainerID : string;
  u_LastErrorCode : string
}.
Definition write_provider (u : TargetUpdate) (completed : option Z) (t : TargetRow) : TargetRow :=
  let p := t_provider t in
  with_provider (mkProviderData (Some (u_PlatformPostID u)) (Some (u_ErrorMessage u))
    (u_PublishedAt u) completed (Some (u_ProviderState u)) (Some (u_ContainerID u))
    (provider_idempotency_key p) (upload_offset p)) t.

(* Source: internal/repository/queries.go *)
(* 249-253 qUpdateTargetStatus *)
Definition qUpdateTargetStatus (u : TargetUpdate) : Env → PostDB → nat * PostDB :=
  update_targets
    (row (u_ID u) (λ t, at_status (u_Status u) t ||
       negb (status_in ["published"; "partially_published"; "failed"; "dlq"] t)))
    (λ t, write_provider u (completed_at (t_provider t)) (with_status (u_Status u) t)).
(* Source: internal/repository/post_repo_aggregate.go *)
(* 104-143 updateTargetStatusTx *)
Definition updateTargetStatusTx (u : TargetUpdate) : M PostDB unit :=
  postID ← postIDForTargetTx (u_ID u);
  _ ← lockTargetTx (u_ID u);
  _ ← lockPostTx postID;
  k ← exec_status [u_Status u] "failed to update post_target status" (qUpdateTargetStatus u);
  n ← map_err (λ _, db_err "failed to read rows affected") (rows_affected "status" k);
  if bool_decide (n = O) then stale_or_missing (u_ID u)
  else persistAggregatePostStatusLockedTx postID.
(** [Begin]; body; [Commit] for the methods that return only an error. *)
Definition tx (op : string) (body : M PostDB unit) : M PostDB unit :=
  transact op (_ ← body; mret (Commit tt)).
(* 270-290 updateStatusWithAggregate *)
Definition updateStatusWithAggregate (target : option TargetUpdate) : M PostDB unit :=
  match target with
  | None => throw (errors_new "failed to update post_target status: target is nil")
  | Some u => tx "target-status tx" (updateTargetStatusTx u)
  end.
(* Source: internal/repository/post_repo_target.go *)
(* 102-104 PostRepository.UpdateStatus *)
Definition UpdateStatus (target : option TargetUpdate) : M PostDB unit :=
  updateStatusWithAggregate target.

(* Source: internal/repository/post_repo_aggregate.go *)
(* 492-498 setTargetStatusWithAggregate *)
Definition set_target_status (targetID : Z) (status errorMessage : string) (e : Env) :
    PostDB → nat * PostDB :=
  update_targets
    (row targetID (λ t, at_status status t ||
       negb (status_in ["published"; "partially_published"; "failed"; "dlq"; "dead_letter";
                    "blocked_auth"] t)))
    (λ t, let p := t_provider t in
       mkTargetRow (t_post t) (t_account t) status (t_lease t) (t_reconcile t) (t_retry t)
         (mkProviderData (platform_post_id p)
            (if bool_decide (errorMessage = "") then error_message p else Some errorMessage)
            (published_at p) (completed_at p) (provider_state p) (container_id p)
            (provider_idempotency_key p) (upload_offset p))
         (t_version t + 1) (db_now e)) e.
(** The statement compares the column with a list of literals; all of them have
    to be labels. *)
(* 472-527 setTargetStatusWithAggregate *)
Definition setTargetStatusWithAggregate (targetID : Z) (status errorMessage : string) :
    M PostDB unit :=
  tx "post target SetTargetStatus" (
    postID ← postIDForTargetTx targetID;
    _ ← lockTargetTx targetID;
    _ ← lockPostTx postID;
    k ← exec_status [status; "published"; "partially_published"; "failed"; "dlq"; "dead_letter";
                     "blocked_auth"]
          "post target SetTargetStatus" (set_target_status targetID status errorMessage);
    n ← rows_affected "post target SetTargetStatus" k;
    if bool_decide (n = O) then stale_or_missing targetID
    else persistAggregatePostStatusLockedTx postID).
(* Source: internal/repository/post_repo_target.go *)
(* 311-319 PostRepository.SetTargetStatus *)
Definition SetTargetStatus (targetID : Z) (status errorMessage : string) : M PostDB unit :=
  if targetID <=? 0 then
    throw (errors_new ("post target SetTargetStatus: targetID must be positive (got " +:+
                         itoa targetID +:+ ")"))
  else if negb (IsValid status) then
    throw (errors_new ("post target SetTargetStatus: status " +:+ quote status +:+
                         " is not a valid PostStatus"))
  else setTargetStatusWithAggregate targetID status errorMessage.

(** ** Publishing, cancelling and retrying a whole post *)
Definition with_error_message (m : option string) (t : TargetRow) : TargetRow :=
  let p := t_provider t in
  with_provider (mkProviderData (platform_post_id p) m (published_at p) (completed_at p)
    (provider_state p) (container_id p) (provider_idempotency_key p) (upload_offset p)) t.
Definition reset_to (s : string) (t : TargetRow) : TargetRow :=
  with_error_message (Some "") (with_status s t).
(* Source: internal/repository/queries.go *)
(* 303-303 qPublishPostTargetsReset *)
Definition qPublishPostTargetsReset (postID : Z) : Env → PostDB → nat * PostDB :=
  update_targets (λ _ t, t_post t =? postID) (reset_to "queued").
(* 309-312 qCancelPostTargetsReset *)
Definition qCancelPostTargetsReset (postID : Z) : Env → PostDB → nat * PostDB :=
  update_targets (λ _ t, (t_post t =? postID) &&
      negb (status_in ["published"; "partially_published"; "failed"; "dlq"] t)) (reset_to "draft").
(* 323-323 qRetryPostResetFailedTargets *)
Definition qRetryPostResetFailedTargets (postID : Z) : Env → PostDB → nat * PostDB :=
  update_targets (λ _ t, (t_post t =? postID) && at_status "failed" t) (reset_to "queued").
(* 325-325 qRetryTargetResetTarget *)
Definition qRetryTargetResetTarget (targetID : Z) : Env → PostDB → nat * PostDB :=
  update_targets (row targetID (at_status "failed")) (reset_to "queued").

(* Source: internal/repository/post_repo_aggregate.go *)
(* 173-184 resetPostTargetsAndAggregateTx *)
Definition resetPostTargetsAndAggregateTx (postID : Z) (resetQuery : Env → PostDB → nat * PostDB) :
    M PostDB unit :=
  _ ← lockTargetsForPostTx postID;
  _ ← lockPostTx postID;
  _ ← exec ("reset targets for post " +:+ itoa postID) resetQuery;
  persistAggregatePostStatusLockedTx postID.
(* 187-219 resetTargetAndAggregateTx *)
Definition resetTargetAndAggregateTx (targetID : Z) : M PostDB unit :=
  postID ← postIDForTargetTx targetID;
  _ ← lockTargetTx targetID;
  _ ← lockPostTx postID;
  k ← exec ("reset target " +:+ itoa targetID) (qRetryTargetResetTarget targetID);
  n ← map_err (λ _, db_err "read reset target rows affected") (rows_affected "reset" k);
  if bool_decide (n = O) then stale_or_missing targetID
  else persistAggregatePostStatusLockedTx postID.
(* Source: internal/repository/post_repo_post.go *)
(* 481-491 PostRepository.PublishPost *)
Definition PublishPost (id : Z) : M PostDB unit :=
  tx "publish post" (resetPostTargetsAndAggregateTx id (qPublishPostTargetsReset id)).
(* 497-514 PostRepository.CancelPost *)
Definition CancelPost (id : Z) : M PostDB unit :=
  tx "failed to begin cancel-post tx" (map_err (wrap "failed to cancel post")
    (resetPostTargetsAndAggregateTx id (qCancelPostTargetsReset id))).
(* Source: internal/repository/post_repo_retry.go *)
(* 14-24 PostRepository.RetryPost *)
Definition RetryPost (id : Z) : M PostDB unit :=
  tx "retry post" (resetPostTargetsAndAggregateTx id (qRetryPostResetFailedTargets id)).
(* 28-38 PostRepository.RetryTarget *)
Definition RetryTarget (id : Z) : M PostDB unit := tx "retry target" (resetTargetAndAggregateTx id).

(** ** The publish lease *)
(** [int(leaseTTL.Seconds())], at least one second.  The float is exact enough
    for leases of up to 2^23 seconds. *)
(* 82-85 ClaimQueuedTargetWithLease *)
Definition lease_seconds (leaseTTL : Z) : Z :=
  let s := Z.quot leaseTTL Second in if s <? 1 then 1 else s.
Definition require_owner (name ownerID : string) {A} (m : M PostDB A) : M PostDB A :=
  if bool_decide (ownerID = "") then throw (errors_new (name +:+ ": ownerID is empty")) else m.
Definition require_ttl (name : string) (leaseTTL : Z) {A} (m : M PostDB A) : M PostDB A :=
  if leaseTTL <=? 0 then
    throw (errors_new (name +:+ ": leaseTTL must be positive (got " +:+ Duration_String leaseTTL +:+ ")"))
  else m.

(* Source: internal/repository/post_repo_aggregate.go *)
(* 148-168 claimTargetTx *)
Definition claimTargetTx (targetID : Z) (updateQuery : Env → PostDB → nat * PostDB) :
    M PostDB unit :=
  postID ← postIDForTargetTx targetID;
  _ ← lockPostTx postID;
  k ← exec "update claimed target" updateQuery;
  n ← map_err (λ _, db_err "read claimed target rows affected") (rows_affected "claim" k);
  if bool_decide (n = O) then throw (target_not_found targetID)
  else persistAggregatePostStatusLockedTx postID.

(** [SELECT ... FOR UPDATE SKIP LOCKED] on one target. *)
Definition select_target (id : Z) (p : Env → TargetRow → bool) (e : Env) (db : PostDB) :
    bool * PostDB :=
  (match targets db !! id with Some t => p e t && negb (held e id) | None => false end, db).
Definition due (o : option Z) (now : Z) : bool :=
  match o with None => true | Some t => t <=? now end.
(* Source: internal/repository/queries.go *)
(* 343-348 qClaimQueuedTargetWithLeaseSelect *)
Definition qClaimQueuedTargetWithLeaseSelect (e : Env) (t : TargetRow) : bool :=
  status_in ["queued"; "waiting_provider"; "retrying"] t &&
  due (next_attempt_at (t_retry t)) (db_now e) && due (next_retry_at (t_retry t)) (db_now e).
(* 350-356 qClaimQueuedTargetWithLeaseUpdate *)
Definition qClaimQueuedTargetWithLeaseUpdate (id : Z) (ownerID : string) (seconds : Z) (e : Env) :
    PostDB → nat * PostDB :=
  update_targets (row id (status_in ["queued"; "waiting_provider"; "retrying"]))
    (λ t, with_lease (mkPublishLease (Some ownerID) (Some (db_now e + seconds * Second))
                        (Some (db_now e))) (with_status "publishing" t)) e.
(* Source: internal/repository/post_repo_retry.go *)
(* 75-121 PostRepository.ClaimQueuedTargetWithLease *)
Definition ClaimQueuedTargetWithLease (id : Z) (ownerID : string) (leaseTTL : Z) : M PostDB bool :=
  require_owner "ClaimQueuedTargetWithLease" ownerID $
  require_ttl "ClaimQueuedTargetWithLease" leaseTTL $
  transact "failed to begin claim-with-lease tx" (
    found ← exec "failed to select for update (lease)"
              (select_target id qClaimQueuedTargetWithLeaseSelect);
    if (found : bool) then
      _ ← map_err (wrap "failed to update claimed target with lease")
            (claimTargetTx id
               (qClaimQueuedTargetWithLeaseUpdate id ownerID (lease_seconds leaseTTL)));
      mret (Commit true)
    else mret (Rollback false)).

(* Source: internal/repository/queries.go *)
(* 329-331 qClaimWaitingProviderTargetSelect *)
Definition qClaimWaitingProviderTargetSelect (_ : Env) (t : TargetRow) : bool :=
  at_status "waiting_provider" t.
(* 341-341 qClaimQueuedTargetUpdate *)
Definition qClaimQueuedTargetUpdate (id : Z) : Env → PostDB → nat * PostDB :=
  update_targets (row id (λ _, true)) (with_status "publishing").
(* Source: internal/repository/post_repo_retry.go *)
(* 522-555 PostRepository.ClaimWaitingProviderTarget *)
Definition ClaimWaitingProviderTarget (id : Z) : M PostDB bool :=
  transact "failed to begin claim-waiting tx" (
    found ← exec "failed to select for update (waiting)"
              (select_target id qClaimWaitingProviderTargetSelect);
    if (found : bool) then
      _ ← map_err (wrap "failed to update claimed waiting target")
            (claimTargetTx id (qClaimQueuedTargetUpdate id));
      mret (Commit true)
    else mret (Rollback false)).

(* Source: internal/repository/queries.go *)
(* 358-363 qUpdatePublishProgress *)
Definition qUpdatePublishProgress (id : Z) (ownerID : string) (offset : Z) (state : string)
    (seconds : Z) (e : Env) : PostDB → nat * PostDB :=
  update_targets (row id (leased_to ownerID))
    (λ t, let p := t_provider t in
       with_provider (mkProviderData (platform_post_id p) (error_message p) (published_at p)
           (completed_at p) (Some state) (container_id p) (provider_idempotency_key p) offset)
         (with_lease (mkPublishLease (lease_owner_id (t_lease t))
             (Some (db_now e + seconds * Second)) (Some (db_now e))) t)) e.
(* Source: internal/repository/post_repo_retry.go *)
(* 140-159 PostRepository.UpdatePublishProgress *)
Definition UpdatePublishProgress (id : Z) (ownerID : string) (offset : Z) (state : string)
    (leaseTTL : Z) : M PostDB unit :=
  require_owner "UpdatePublishProgress" ownerID $ require_ttl "UpdatePublishProgress" leaseTTL $
  _ ← exec "failed to update publish progress"
        (qUpdatePublishProgress id ownerID offset state (lease_seconds leaseTTL));
  mret tt.
(* Source: internal/repository/queries.go *)
(* 365-369 qReleaseLease *)
Definition qReleaseLease (id : Z) (ownerID : string) : Env → PostDB → nat * PostDB :=
  update_targets (row id (leased_to ownerID)) (with_lease no_lease).
(* Source: internal/repository/post_repo_retry.go *)
(* 168-180 PostRepository.ReleaseLease *)
Definition ReleaseLease (id : Z) (ownerID : string) : M PostDB unit :=
  require_owner "ReleaseLease" ownerID $
  _ ← exec "failed to release lease" (qReleaseLease id ownerID); mret tt.

(** ** Marks of the lease owner *)
Definition with_last_error (code : string) (r : RetryState) : RetryState :=
  mkRetryState (attempt_count r) (next_attempt_at r) (next_retry_at r) (rate_limit_reset_at r)
    (Some code).
Definition with_completed (at_ : option Z) (t : TargetRow) : TargetRow :=
  let p := t_provider t in
  with_provider (mkProviderData (platform_post_id p) (error_message p) (published_at p) at_
    (provider_state p) (container_id p) (provider_idempotency_key p) (upload_offset p)) t.
(* Source: internal/repository/queries.go *)
(* 371-379 qMarkDeadLetter *)
Definition qMarkDeadLetter (id : Z) (ownerID lastError : string) (e : Env) :
    PostDB → nat * PostDB :=
  update_targets (row id (leased_to ownerID)) (λ t,
    with_retry (with_last_error "DLQ" (t_retry t))
      (with_completed (Some (db_now e)) (with_error_message (Some lastError)
        (with_lease no_lease (with_status "dlq" t))))) e.
(* 381-391 qMarkRateLimitedRetryWithLease *)
Definition qMarkRateLimitedRetryWithLease (id : Z) (ownerID : string) (nextAttemptAt : Z)
    (lastError : string) : Env → PostDB → nat * PostDB :=
  update_targets (row id (λ t, leased_to ownerID t && at_status "publishing" t)) (λ t,
    with_retry (mkRetryState (attempt_count (t_retry t) + 1) (Some nextAttemptAt)
        (next_retry_at (t_retry t)) (Some nextAttemptAt) (Some "RATE_LIMITED"))
      (with_error_message (Some lastError) (with_lease no_lease (with_status "queued" t)))).
(* 393-402 qMarkRetrying *)
Definition qMarkRetrying (id : Z) (ownerID : string) (nextAttemptAt : Z) (lastError : string) :
    Env → PostDB → nat * PostDB :=
  update_targets (row id (leased_to ownerID)) (λ t,
    with_retry (mkRetryState (attempt_count (t_retry t) + 1) (Some nextAttemptAt)
        (Some nextAttemptAt) (rate_limit_reset_at (t_retry t)) (last_error_code (t_retry t)))
      (with_error_message (Some lastError) (with_lease no_lease (with_status "retrying" t)))).
(* 404-413 qMarkRateLimited *)
Definition qMarkRateLimited (id : Z) (ownerID : string) (retryAfter : Z) :
    Env → PostDB → nat * PostDB :=
  update_targets (row id (leased_to ownerID)) (λ t,
    with_retry (mkRetryState (attempt_count (t_retry t)) (Some retryAfter) (Some retryAfter)
        (Some retryAfter) (Some "RATE_LIMITED"))
      (with_lease no_lease (with_status "queued" t))).

(* Source: internal/repository/post_repo_aggregate.go *)
(* 223-249 mutateLeasedTargetTx *)
Definition mutateLeasedTargetTx (targetID : Z) (query : Env → PostDB → nat * PostDB) :
    M PostDB unit :=
  postID ← postIDForTargetTx targetID;
  _ ← lockTargetTx targetID;
  _ ← lockPostTx postID;
  k ← raw (exec "mutate leased target" query);
  n ← map_err (λ _, db_err "read leased target rows affected") (rows_affected "mutate" k);
  if bool_decide (n = O) then mret tt else persistAggregatePostStatusLockedTx postID.
(* 251-268 mutateLeasedTarget *)
Definition mutateLeasedTarget (targetID : Z) (query : Env → PostDB → nat * PostDB) : M PostDB unit :=
  tx "leased target mutation" (mutateLeasedTargetTx targetID query).
(* Source: internal/repository/post_repo_retry.go *)
(* 199-204 PostRepository.MarkDeadLetter *)
Definition MarkDeadLetter (id : Z) (ownerID lastError : string) : M PostDB unit :=
  require_owner "MarkDeadLetter" ownerID $
  mutateLeasedTarget id (qMarkDeadLetter id ownerID lastError).
(* 216-221 PostRepository.MarkRetrying *)
Definition MarkRetrying (id : Z) (ownerID lastError : string) (nextAttemptAt : Z) : M PostDB unit :=
  require_owner "MarkRetrying" ownerID $
  mutateLeasedTarget id (qMarkRetrying id ownerID nextAttemptAt lastError).
(* 412-417 PostRepository.MarkRateLimitedRetryWithLease *)
Definition MarkRateLimitedRetryWithLease (id : Z) (ownerID : string) (nextAttemptAt : Z)
    (lastError : string) : M PostDB unit :=
  require_owner "MarkRateLimitedRetryWithLease" ownerID $
  mutateLeasedTarget id (qMarkRateLimitedRetryWithLease id ownerID nextAttemptAt lastError).
(* 419-424 PostRepository.MarkRateLimited *)
Definition MarkRateLimited (id : Z) (ownerID : string) (retryAfter : Z) : M PostDB unit :=
  require_owner "MarkRateLimited" ownerID $
  mutateLeasedTarget id (qMarkRateLimited id ownerID retryAfter).

(* 259-261 qMarkDeliveryDispatchFailed *)
Definition qMarkDeliveryDispatchFailed (id : Z) (errorCode : string) : Env → PostDB → nat * PostDB :=
  update_targets (row id (λ _, true))
    (λ t, with_retry (with_last_error errorCode (t_retry t)) t).
(* 233-252 PostRepository.MarkDeliveryDispatchFailed *)
Definition MarkDeliveryDispatchFailed (id : Z) (errorCode : string) : M PostDB unit :=
  if id <=? 0 then
    throw (errors_new ("MarkDeliveryDispatchFailed: non-positive id " +:+ itoa id))
  else if bool_decide (errorCode = "") then
    throw (errors_new "MarkDeliveryDispatchFailed: empty errorCode")
  else
    k ← exec ("MarkDeliveryDispatchFailed target " +:+ itoa id)
          (qMarkDeliveryDispatchFailed id errorCode);
    n ← map_err (λ _, db_err ("MarkDeliveryDispatchFailed rows affected " +:+ itoa id))
          (rows_affected "mark" k);
    if bool_decide (n = O) then throw (target_not_found id) else mret tt.

(* 340-346 qMarkDriveRequiredFailed *)
Definition qMarkDriveRequiredFailed (id : Z) (lastError : string) (e : Env) :
    PostDB → nat * PostDB :=
  update_targets (row id (at_status "published")) (λ t,
    with_retry (with_last_error "DRIVE_REQUIRED" (t_retry t))
      (with_completed (Some (db_now e)) (with_error_message (Some lastError)
        (with_status PostStatusDriveRequiredFailed t)))) e.
(* 304-338 markDriveRequiredFailedTx *)
Definition markDriveRequiredFailedTx (targetID : Z) (lastError : string) : M PostDB unit :=
  postID ← postIDForTargetTx targetID;
  _ ← lockTargetTx targetID;
  _ ← lockPostTx postID;
  k ← exec ("mark drive_required_failed target " +:+ itoa targetID)
        (qMarkDriveRequiredFailed targetID lastError);
  n ← map_err (λ _, db_err "read drive_required_failed rows affected") (rows_affected "mark" k);
  if bool_decide (n = O) then
    current ← exec ("read stale target " +:+ itoa targetID)
                (λ _ db, (t_status <$> targets db !! targetID, db));
    match current with
    | None => throw (target_not_found targetID)
    | Some c => throw (wrap_suffix ErrPostTargetTransitionStale
                         ("id=" +:+ itoa targetID +:+ " current=" +:+ c))
    end
  else persistAggregatePostStatusLockedTx postID.
(* 285-302 PostRepository.MarkDriveRequiredFailed *)
Definition MarkDriveRequiredFailed (id : Z) (lastError : string) : M PostDB unit :=
  tx "MarkDriveRequiredFailed" (markDriveRequiredFailedTx id lastError).

(* Source: internal/repository/queries.go *)
(* 266-274 qUpdateTargetStatusWithLease *)
Definition qUpdateTargetStatusWithLease (u : TargetUpdate) (ownerID : string) :
    Env → PostDB → nat * PostDB :=
  update_targets (row (u_ID u) (λ t, leased_to ownerID t && at_status "publishing" t)) (λ t,
    write_provider u (completed_at (t_provider t))
      (with_lease (if bool_decide (u_Status u = "publishing") then t_lease t else no_lease)
        (with_status (u_Status u) t))).
(* Source: internal/repository/post_repo_retry.go *)
(* 363-406 PostRepository.UpdateStatusWithLease *)
Definition UpdateStatusWithLease (target : option TargetUpdate) (ownerID : string) : M PostDB unit :=
  match target with
  | None => throw (errors_new "update post_target with lease: nil target")
  | Some u =>
      if bool_decide (ownerID = "") then
        throw (errors_new "update post_target with lease: empty ownerID")
      else tx "leased target status" (
        postID ← postIDForTargetTx (u_ID u);
        _ ← lockPostTx postID;
        k ← exec_status [u_Status u] "update leased target status"
              (qUpdateTargetStatusWithLease u ownerID);
        n ← map_err (λ _, db_err "read leased target status rows") (rows_affected "leased" k);
        if bool_decide (n = O) then
          throw (wrap_suffix ErrPostTargetTransitionStale
                   ("id=" +:+ itoa (u_ID u) +:+ " owner=" +:+ ownerID))
        else persistAggregatePostStatusLockedTx postID)
  end.

(** ** Taking back expired publish leases *)
Definition lease_expired (myWorkerID : string) (now : Z) (t : TargetRow) : bool :=
  match leased_until (t_lease t) with Some u => u <=? now | None => false end &&
  match lease_owner_id (t_lease t) with
  | Some o => negb (bool_decide (o = myWorkerID)) | None => false end &&
  status_in ["publishing"; "queued"] t.
(* Source: internal/repository/queries.go *)
(* 214-221 qSelectExpiredLeaseTargets *)
Definition qSelectExpiredLeaseTargets (myWorkerID : string) (e : Env) (db : PostDB) : list (Z * Z) :=
  (λ kt, (kt.1, t_post kt.2)) <$> sort_by (λ x y : Z * TargetRow, x.1 <=? y.1)
    (List.filter (λ kt, lease_expired myWorkerID (db_now e) kt.2 && negb (held e kt.1))
       (map_to_list (targets db))).
(* 223-232 qReclaimExpiredLeaseByID *)
Definition qReclaimExpiredLeaseByID (id : Z) (myWorkerID : string) (e : Env) :
    PostDB → nat * PostDB :=
  update_targets
    (row id (λ t, match lease_owner_id (t_lease t) with
                  | Some o => negb (bool_decide (o = myWorkerID)) | None => false end &&
                  status_in ["publishing"; "queued"] t))
    (λ t, let r := t_retry t in
       with_retry (mkRetryState (attempt_count r) (next_attempt_at r) (Some (db_now e))
                     (rate_limit_reset_at r) (last_error_code r))
         (with_lease no_lease (with_status "queued" t))) e.
(* Source: internal/repository/post_repo_retry.go *)
(* 490-511 PostRepository.ReclaimExpiredLeases *)
Fixpoint reclaim_loop (myWorkerID : string) (expired : list (Z * Z)) (reclaimed : nat) :
    M PostDB nat :=
  match expired with
  | [] => mret reclaimed
  | (id, postID) :: rest =>
      _ ← lockPostTx postID;
      k ← exec ("failed to reclaim lease " +:+ itoa id) (qReclaimExpiredLeaseByID id myWorkerID);
      affected ← map_err (λ _, db_err ("failed to read reclaimed lease " +:+ itoa id +:+
                                         " rows affected")) (rows_affected "reclaim" k);
      if bool_decide (affected = O) then reclaim_loop myWorkerID rest reclaimed
      else
        _ ← persistAggregatePostStatusLockedTx postID;
        reclaim_loop myWorkerID rest (reclaimed + affected)%nat
  end.
(* 454-516 PostRepository.ReclaimExpiredLeases *)
Definition ReclaimExpiredLeases (myWorkerID : string) : M PostDB nat :=
  transact "failed to begin reclaim leases tx" (
    expired ← exec "failed to select expired leases"
                (λ e db, (qSelectExpiredLeaseTargets myWorkerID e db, db));
    n ← reclaim_loop myWorkerID expired 0;
    mret (Commit n)).

(** ** The reconcile lease *)
(* Source: internal/repository/post_repo_reconcile_lease.go *)
Definition ErrReconcileLeaseLost : err := (* 15 *)
  sentinel "ErrReconcileLeaseLost" "reconcile target lease lost".
(* 17-29 validateReconcileLease *)
Definition validateReconcileLease (ownerID : string) (leaseTTL : Z) : err + Z :=
  if bool_decide (ownerID = "") then inl (errors_new "reconcile lease owner is empty")
  else if leaseTTL <=? 0 then
    inl (errors_new ("reconcile lease TTL must be positive (got " +:+
                       Duration_String leaseTTL +:+ ")"))
  else inr (lease_seconds leaseTTL).
Definition reconcile_live (ownerID : string) (now : Z) (t : TargetRow) : bool :=
  bool_decide (reconcile_owner_id (t_reconcile t) = Some ownerID) &&
  match reconcile_until (t_reconcile t) with Some u => now <? u | None => false end &&
  at_status "publishing" t.
Definition has_platform_post (t : TargetRow) : bool :=
  match platform_post_id (t_provider t) with
  | Some p => negb (bool_decide (p = "")) | None => false end.
Definition with_reconcile_lease (owner : option string) (until beat : option Z) (t : TargetRow) :
    TargetRow :=
  let r := t_reconcile t in
  with_reconcile (mkReconcileState owner until beat (reconcile_attempt r) (next_reconcile_at r)) t.
(* Source: internal/repository/queries.go *)
(* 433-439 candidate *)
Definition reconcile_due (now : Z) (t : TargetRow) : bool :=
  at_status "publishing" t && has_platform_post t && (next_reconcile_at (t_reconcile t) <=? now) &&
  match reconcile_owner_id (t_reconcile t), reconcile_until (t_reconcile t) with
  | Some _, Some u => u <=? now | _, _ => true end.
(* 431-448 qClaimPublishingTargetSelect *)
Definition qClaimPublishingTargetSelect (id : Z) (ownerID : string) (seconds : Z) (e : Env) :
    PostDB → nat * PostDB :=
  update_targets (λ k t, row id (reconcile_due (db_now e)) k t && negb (held e k))
    (with_reconcile_lease (Some ownerID) (Some (db_now e + seconds * Second)) (Some (db_now e))) e.
(* Source: internal/repository/post_repo_reconcile_lease.go *)
(* 34-49 PostRepository.ClaimPublishingTarget *)
Definition ClaimPublishingTarget (id : Z) (ownerID : string) (leaseTTL : Z) : M PostDB bool :=
  match validateReconcileLease ownerID leaseTTL with
  | inl er => throw er
  | inr seconds =>
      k ← exec "claim publishing target with reconcile lease"
            (qClaimPublishingTargetSelect id ownerID seconds);
      mret (negb (bool_decide (k = O)))
  end.
(** A statement of the reconciler that has to match one row. *)
Definition exec_reconcile (op what : string) (id : Z) (ownerID : string)
    (f : Env → PostDB → nat * PostDB) : M PostDB unit :=
  k ← exec op f;
  n ← rows_affected op k;
  if bool_decide (n = O) then
    throw (wrap_suffix ErrReconcileLeaseLost
             (what +:+ " target=" +:+ itoa id +:+ " owner=" +:+ ownerID))
  else mret tt.
(* Source: internal/repository/queries.go *)
(* 450-456 qHeartbeatReconcileTarget *)
Definition qHeartbeatReconcileTarget (id : Z) (ownerID : string) (seconds : Z) (e : Env) :
    PostDB → nat * PostDB :=
  update_targets (row id (reconcile_live ownerID (db_now e)))
    (λ t, with_reconcile_lease (reconcile_owner_id (t_reconcile t))
            (Some (db_now e + seconds * Second)) (Some (db_now e)) t) e.
(* Source: internal/repository/post_repo_reconcile_lease.go *)
(* 52-69 PostRepository.HeartbeatReconcileTarget *)
Definition HeartbeatReconcileTarget (id : Z) (ownerID : string) (leaseTTL : Z) : M PostDB unit :=
  match validateReconcileLease ownerID leaseTTL with
  | inl er => throw er
  | inr seconds => exec_reconcile ("heartbeat reconcile target " +:+ itoa id) "heartbeat" id ownerID
                     (qHeartbeatReconcileTarget id ownerID seconds)
  end.
(* Source: internal/repository/queries.go *)
(* 458-465 qReleaseReconcileTarget *)
Definition qReleaseReconcileTarget (id : Z) (ownerID : string) (e : Env) : PostDB → nat * PostDB :=
  update_targets (row id (reconcile_live ownerID (db_now e)))
    (with_reconcile_lease None None None) e.
(* Source: internal/repository/post_repo_reconcile_lease.go *)
(* 74-90 PostRepository.ReleaseReconcileTarget *)
Definition ReleaseReconcileTarget (id : Z) (ownerID : string) : M PostDB unit :=
  if bool_decide (ownerID = "") then throw (errors_new "reconcile lease owner is empty")
  else exec_reconcile ("release reconcile target " +:+ itoa id) "release" id ownerID
         (qReleaseReconcileTarget id ownerID).

(* Source: internal/repository/queries.go *)
(* 467-482 qScheduleNextReconcile *)
Definition qScheduleNextReconcile (id next expectedAttempt : Z) (ownerID : string)
    (increment : bool) (errorCode errorMessage : string) (e : Env) : PostDB → nat * PostDB :=
  update_targets
    (row id (λ t, (reconcile_attempt (t_reconcile t) =? expectedAttempt) &&
                  has_platform_post t && reconcile_live ownerID (db_now e) t))
    (λ t,
       let q := t_retry t in
       let limited := if bool_decide (errorCode = "RATE_LIMITED") then Some next
                      else rate_limit_reset_at q in
       let code := if bool_decide (errorCode = "") then last_error_code q else Some errorCode in
       with_retry (mkRetryState (attempt_count q) (next_attempt_at q) (next_retry_at q) limited code)
         (with_error_message
            (if bool_decide (errorMessage = "") then error_message (t_provider t)
             else Some errorMessage)
            (with_reconcile (mkReconcileState None None None
               (reconcile_attempt (t_reconcile t) + (if increment then 1 else 0)) next) t))) e.
(** The zero [time.Time] is [0] here. *)
(* Source: internal/repository/post_repo_reconcile_lease.go *)
(* 94-116 PostRepository.ScheduleNextReconcileWithLease *)
Definition ScheduleNextReconcileWithLease (id : Z) (ownerID : string) (expectedAttempt next : Z)
    (increment : bool) (errorCode errorMessage : string) : M PostDB unit :=
  if bool_decide (ownerID = "") then throw (errors_new "reconcile lease owner is empty")
  else if expectedAttempt <? 0 then
    throw (errors_new ("reconcile attempt must be non-negative (got " +:+
                         itoa expectedAttempt +:+ ")"))
  else if next =? 0 then throw (errors_new "next reconcile time must be non-zero")
  else exec_reconcile ("schedule next reconcile for target " +:+ itoa id) "schedule" id ownerID
         (qScheduleNextReconcile id next expectedAttempt ownerID increment errorCode errorMessage).
(* Source: internal/repository/post_repo_target.go *)
(* 255-278 PostRepository.ScheduleNextReconcile *)
Definition ScheduleNextReconcile (id : Z) (ownerID : string) (expectedAttempt next : Z) :
    M PostDB unit :=
  if id <=? 0 then
    throw (errors_new ("schedule next reconcile: target ID must be positive (got " +:+
                         itoa id +:+ ")"))
  else if bool_decide (ownerID = "") then
    throw (errors_new "schedule next reconcile: ownerID must not be empty")
  else if expectedAttempt <? 0 then
    throw (errors_new ("schedule next reconcile: attempt must be non-negative (got " +:+
                         itoa expectedAttempt +:+ ")"))
  else if next =? 0 then
    throw (errors_new "schedule next reconcile: next time must be non-zero")
  else
    k ← exec ("schedule next reconcile for target " +:+ itoa id)
          (qScheduleNextReconcile id next expectedAttempt ownerID true "" "");
    n ← map_err (λ _, db_err ("schedule next reconcile rows affected for target " +:+ itoa id))
          (rows_affected "schedule" k);
    if bool_decide (n = O) then
      throw (errors_new ("schedule next reconcile lost CAS for target " +:+ itoa id))
    else mret tt.

(* Source: internal/repository/queries.go *)
(* 287-295 qUpdateTargetStatusWithReconcileLease *)
Definition qUpdateTargetStatusWithReconcileLease (u : TargetUpdate) (ownerID : string) (e : Env) :
    PostDB → nat * PostDB :=
  update_targets (row (u_ID u) (reconcile_live ownerID (db_now e))) (λ t,
    with_retry (with_last_error (u_LastErrorCode u) (t_retry t))
      (write_provider u
         (if bool_decide (u_Status u ∈ ["failed"; "dlq"; "blocked_auth"]) then
            match completed_at (t_provider t) with Some c => Some c | None => Some (db_now e) end
          else completed_at (t_provider t))
         (with_reconcile_lease None None None (with_status (u_Status u) t)))) e.
(* Source: internal/repository/post_repo_reconcile_lease.go *)
(* 120-167 PostRepository.UpdateReconcileStatusWithLease *)
Definition UpdateReconcileStatusWithLease (target : option TargetUpdate) (ownerID : string) :
    M PostDB unit :=
  match target with
  | None => throw (errors_new "update reconcile status: nil target")
  | Some u =>
      if bool_decide (ownerID = "") then throw (errors_new "reconcile lease owner is empty")
      else tx ("reconcile status for target " +:+ itoa (u_ID u)) (
        postID ← postIDForTargetTx (u_ID u);
        _ ← lockTargetTx (u_ID u);
        _ ← lockPostTx postID;
        k ← exec_status [u_Status u] ("update reconcile status for target " +:+ itoa (u_ID u))
              (qUpdateTargetStatusWithReconcileLease u ownerID);
        n ← rows_affected ("update reconcile status target " +:+ itoa (u_ID u)) k;
        if bool_decide (n = O) then
          throw (wrap_suffix ErrReconcileLeaseLost
                   ("terminal target=" +:+ itoa (u_ID u) +:+ " owner=" +:+ ownerID))
        else persistAggregatePostStatusLockedTx postID)
  end.

(** ** Disconnecting an account *)
(* Source: internal/repository/queries.go *)
(* 317-320 WHERE *)
Definition future_job (accountID : Z) (t : TargetRow) : bool :=
  (t_account t =? accountID) &&
  negb (status_in ["published"; "partially_published"; "failed"; "dlq"] t).
(** The update and the parents it returns; they are visited in the order of the
    targets here. *)
(* 317-321 qCancelFutureJobsForAccount *)
Definition qCancelFutureJobsForAccount (accountID : Z) (e : Env) (db : PostDB) : list Z * PostDB :=
  ((λ kt, t_post kt.2) <$>
     List.filter (λ kt, future_job accountID kt.2) (map_to_list (targets db)),
   (update_targets (λ _, future_job accountID) (reset_to "draft") e db).2).
(* Source: internal/repository/platform_account_disconnect.go *)
(* 184-194 cancelFutureJobsTx *)
Fixpoint recompute_loop (prefix : string) (postIDs : list Z) : M PostDB unit :=
  match postIDs with
  | [] => mret tt
  | postID :: rest =>
      _ ← map_err (wrap prefix) (
        _ ← lockTargetsForPostTx postID;
        _ ← lockPostTx postID;
        persistAggregatePostStatusLockedTx postID);
      recompute_loop prefix rest
  end.
(* 161-196 cancelFutureJobsTx *)
Definition cancelFutureJobsTx (accountID : Z) : M PostDB unit :=
  let prefix := "cancel future jobs for account " +:+ itoa accountID in
  postIDs ← exec prefix (qCancelFutureJobsForAccount accountID);
  recompute_loop prefix (remove_dups postIDs).

(** ** Inserting targets *)
Inductive InsertResult := Inserted (id : Z) | Duplicate | NoParent.
Definition new_target (post account : Z) (status : string) (e : Env) : TargetRow :=
  mkTargetRow post account status no_lease (mkReconcileState None None None 0 (db_now e))
    (mkRetryState 0 None None None None) (mkProviderData None None None None None None None 0)
    1 (db_now e).
(** UNIQUE (post_id, platform_account_id) and the foreign key to posts; the
    AFTER INSERT trigger queues the parent. *)
(* Source: internal/repository/queries.go *)
(* 49-51 qInsertPostTarget *)
Definition qInsertPostTarget (post account : Z) (status : string) (e : Env) (db : PostDB) :
    InsertResult * PostDB :=
  if existsb (λ kt, (t_post kt.2 =? post) && (t_account kt.2 =? account)) (map_to_list (targets db))
  then (Duplicate, db)
  else if bool_decide (posts db !! post = None) then (NoParent, db)
  else
    let id := target_serial db in
    (Inserted id, enqueue_post_aggregate_repair e [post]
       (mkPostDB (posts db) (<[id := new_target post account status e]> (targets db)) (dirty db)
          (outbox db) (post_serial db) (id + 1))).
Definition insert_target (op : string) (post account : Z) (status : string) : M PostDB Z :=
  r ← exec_status [status] op (qInsertPostTarget post account status);
  match r with
  | Inserted id => mret id
  | Duplicate => throw (wrap_suffix ErrPostTargetDuplicate
                   ("post=" +:+ itoa post +:+ " platform_account=" +:+ itoa account))
  | NoParent => throw (db_err op)
  end.
(* Source: internal/repository/post_repo_target.go *)
(* 30-44 PostRepository.Save *)
Definition Save (post account : Z) (status : string) : M PostDB Z :=
  insert_target "failed to save post_target" post account status.
(* 281-283 PostRepository.SaveTarget *)
Definition SaveTarget (post account : Z) (status : string) : M PostDB Z := Save post account status.

(** UNIQUE (platform_account_id, provider_idempotency_key). *)
Definition key_taken (id : Z) (key : string) (db : PostDB) : bool :=
  match targets db !! id with
  | None => false
  | Some t => existsb (λ kt, negb (kt.1 =? id) && (t_account kt.2 =? t_account t) &&
                bool_decide (provider_idempotency_key (t_provider kt.2) = Some key))
                (map_to_list (targets db))
  end.
(* Source: internal/repository/queries.go *)
(* 245-247 qUpdateTargetProviderIdempotencyKey *)
Definition qUpdateTargetProviderIdempotencyKey (key : string) (id : Z) (e : Env) (db : PostDB) :
    option nat * PostDB :=
  if key_taken id key db then (None, db)
  else
    let '(k, db') := update_targets (row id (λ _, true)) (λ t, let p := t_provider t in
      with_provider (mkProviderData (platform_post_id p) (error_message p) (published_at p)
        (completed_at p) (provider_state p) (container_id p) (Some key) (upload_offset p)) t) e db in
    (Some k, db').
(* Source: internal/repository/post_repo_target.go *)
(* 67-90 PostRepository.SetProviderIdempotencyKey *)
Definition SetProviderIdempotencyKey (id : Z) (key : string) : M PostDB unit :=
  if bool_decide (key = "") then
    throw (errors_new ("SetProviderIdempotencyKey: key is empty for post_target id=" +:+ itoa id))
  else
    o ← exec "failed to set provider_idempotency_key" (qUpdateTargetProviderIdempotencyKey key id);
    match o with
    | None => throw (wrap_suffix ErrProviderIdempotencyConflict ("id=" +:+ itoa id))
    | Some k =>
        n ← map_err (λ _, db_err "failed to read rows affected") (rows_affected "key" k);
        if bool_decide (n = O) then throw (target_not_found id) else mret tt
    end.

(** ** Creating a post *)
(* Source: internal/models/post.go *)
(** The fields of [PostTarget] that [Create] reads and writes. *)
(* 277-282 PostTarget *)
Record NewTarget := mkNewTarget {
  n_ID : Z;
  n_PostID : Z;
  n_PlatformAccountID : Z;
  n_Status : string
}.
(* Source: internal/repository/post_repo_post.go *)
(* 196-206 PostRepository.Create *)
Definition publish_payload (post : Post) (t : NewTarget) : string :=
  json_object
    [("caption", json_string (post_Caption post)); ("event_version", json_string "v1");
     ("media_url", json_string (post_MediaURL post));
     ("platform_account_id", itoa (n_PlatformAccountID t)); ("post_id", itoa (post_ID post));
     ("publish_at", match post_PublishAt post with None => "null" | Some t => json_time t end);
     ("target_id", itoa (n_ID t)); ("title", json_string (post_Title post));
     ("workspace_id", itoa (post_WorkspaceID post))].

Definition stored_post (p : Post) (id : Z) (e : Env) : Post :=
  mkPost id (post_WorkspaceID p) (post_Title p) (post_Caption p) (post_MediaURL p)
    (post_MediaAssetID p) (post_StorageObjectKey p) (post_Bucket p) (post_PrivacyLevel p)
    (post_DefaultPrivacyLevel p) (post_UploadJobID p) (post_IngestAfter p) (post_PublishAt p)
    (post_Status p) None "{}" 1 (db_now e) (db_now e).
(** The partial unique index on [upload_job_id]. *)
Definition post_of_job (o : option Z) (db : PostDB) : option Post :=
  match o with
  | None => None
  | Some u => head (List.filter (λ p, bool_decide (post_UploadJobID p = Some u))
                      (map_to_list (posts db)).*2)
  end.
(** Returns the stored row, or nothing when the conflict clause fired. *)
(* Source: internal/repository/queries.go *)
(* 44-47 qInsertPost *)
Definition qInsertPost (p : Post) (e : Env) (db : PostDB) : option Post * PostDB :=
  match post_of_job (post_UploadJobID p) db with
  | Some _ => (None, db)
  | None =>
      let q := stored_post p (post_serial db) e in
      (Some q, mkPostDB (<[post_serial db := q]> (posts db)) (targets db) (dirty db) (outbox db)
                 (post_serial db + 1) (target_serial db))
  end.
(** The caller's struct after [Scan(&post.ID, &post.CreatedAt, &post.UploadJobID)]. *)
Definition scanned_post (p q : Post) : Post :=
  mkPost (post_ID q) (post_WorkspaceID p) (post_Title p) (post_Caption p) (post_MediaURL p)
    (post_MediaAssetID p) (post_StorageObjectKey p) (post_Bucket p) (post_PrivacyLevel p)
    (post_DefaultPrivacyLevel p) (post_UploadJobID q) (post_IngestAfter p) (post_PublishAt p)
    (post_Status p) (post_IdempotencyKey p) (post_Metadata p) (post_Version p) (post_CreatedAt q)
    (post_UpdatedAt p).
Definition set_metadata (m : string) (p : Post) : Post :=
  mkPost (post_ID p) (post_WorkspaceID p) (post_Title p) (post_Caption p) (post_MediaURL p)
    (post_MediaAssetID p) (post_StorageObjectKey p) (post_Bucket p) (post_PrivacyLevel p)
    (post_DefaultPrivacyLevel p) (post_UploadJobID p) (post_IngestAfter p) (post_PublishAt p)
    (post_Status p) (post_IdempotencyKey p) m (post_Version p) (post_CreatedAt p) (post_UpdatedAt p).
Definition set_ingest_after (t : Z) (p : Post) : Post :=
  mkPost (post_ID p) (post_WorkspaceID p) (post_Title p) (post_Caption p) (post_MediaURL p)
    (post_MediaAssetID p) (post_StorageObjectKey p) (post_Bucket p) (post_PrivacyLevel p)
    (post_DefaultPrivacyLevel p) (post_UploadJobID p) t (post_PublishAt p) (post_Status p)
    (post_IdempotencyKey p) (post_Metadata p) (post_Version p) (post_CreatedAt p) (post_UpdatedAt p).

(* Source: internal/repository/queries.go *)
(* 53-54 qInsertOutboxEvent *)
Definition qInsertOutboxEvent (targetID : Z) (payload : string) (e : Env) (db : PostDB) :
    unit * PostDB :=
  (tt, mkPostDB (posts db) (targets db) (dirty db)
         (Outbox.insert_row (Outbox.mkOutboxEvent 0 "post_target" targetID
            "post_target.publish_requested" payload "" None None 0 None None 0 None) e (outbox db)).2
         (post_serial db) (target_serial db)).

(* Source: internal/repository/post_repo_post.go *)
(* 161-175 PostRepository.Create *)
Fixpoint insert_targets (postID : Z) (l : list NewTarget) : M PostDB (list NewTarget) :=
  match l with
  | [] => mret []
  | t :: l' =>
      id ← insert_target "failed to create post_target" postID (n_PlatformAccountID t) (n_Status t);
      rest ← insert_targets postID l';
      mret (mkNewTarget id postID (n_PlatformAccountID t) (n_Status t) :: rest)
  end.
(* 187-217 PostRepository.Create *)
Fixpoint insert_events (post : Post) (l : list NewTarget) : M PostDB unit :=
  match l with
  | [] => mret tt
  | t :: l' =>
      _ ← exec ("failed to insert outbox event for target " +:+ itoa (n_ID t))
            (qInsertOutboxEvent (n_ID t) (publish_payload post t));
      insert_events post l'
  end.

(** The struct read back from the table keeps the fields the query does not
    select. *)
Definition reread_post (p q : Post) : Post :=
  mkPost (post_ID q) (post_WorkspaceID q) (post_Title q) (post_Caption q) (post_MediaURL q)
    (post_MediaAssetID q) (post_StorageObjectKey q) (post_Bucket q) (post_PrivacyLevel q)
    (post_DefaultPrivacyLevel q) (post_UploadJobID q) (post_IngestAfter q) (post_PublishAt q)
    (post_Status q) (post_IdempotencyKey p) (post_Metadata p) (post_Version p) (post_CreatedAt q)
    (post_UpdatedAt p).
Definition stamp (t : NewTarget) (kt : Z * TargetRow) : NewTarget :=
  mkNewTarget kt.1 (t_post kt.2) (n_PlatformAccountID t) (t_status kt.2).
(* 260-320 PostRepository.fetchExistingByUploadJobID *)
Definition fetchExistingByUploadJobID (uploadJobID : Z) (post : Post) (l : list NewTarget) :
    M PostDB (Post * list NewTarget) :=
  found ← exec ("post create: failed to re-fetch existing post by upload_job_id=" +:+
                  itoa uploadJobID) (λ _ db, (post_of_job (Some uploadJobID) db, db));
  match found with
  | None => throw (wrap ("post create: ON CONFLICT fired but no post row found for upload_job_id=" +:+
              itoa uploadJobID +:+ " (race detected — row deleted between CONFLICT and re-fetch)")
              sql_ErrNoRows)
  | Some q =>
      existing ← exec ("post create: failed to re-fetch existing post_targets by post_id=" +:+
                         itoa (post_ID q)) (λ _ db, (post_rows (post_ID q) db, db));
      if negb (bool_decide (length existing = length l)) then
        throw (errors_new ("post create: ON CONFLICT fanout mismatch (existing=" +:+
          itoa (Z.of_nat (length existing)) +:+ " vs caller=" +:+ itoa (Z.of_nat (length l)) +:+
          " for upload_job_id=" +:+ itoa uploadJobID +:+
          ") — escalate: worker must rebuild post from canonical source"))
      else mret (reread_post post q, zip_with stamp l existing)
  end.

(** Returns the structs with the columns written back to them. *)
(* 64-223 PostRepository.Create *)
Definition Create (post0 : Post) (l : list NewTarget) : M PostDB (Post * list NewTarget) :=
  transact "failed to begin create-post tx" (
    env ← ask;
    let post := if post_IngestAfter post0 =? 0 then set_ingest_after (app_now env) post0 else post0 in
    o ← exec_status [post_Status post] "failed to create post" (qInsertPost post);
    match o with
    | None =>
        match post_UploadJobID post with
        | None => throw (wrap ("post create: ON CONFLICT fired for nil upload_job_id " +:+
                    "(impossible per partial index predicate, but defensive)") sql_ErrNoRows)
        | Some u => r ← fetchExistingByUploadJobID u post l; mret (Commit r)
        end
    | Some q =>
        let post := scanned_post post q in
        _ ← (if bool_decide (post_Metadata post = "") then mret tt
             else exec "failed to persist post metadata" (λ _ db,
               (tt, with_posts (alter (set_metadata (post_Metadata post)) (post_ID post) (posts db))
                      db)));
        l' ← insert_targets (post_ID post) l;
        _ ← insert_events post l';
        mret (Commit (post, l'))
    end).

(** ** Editing and deleting *)
Definition edited_post (p q : Post) : Post :=
  mkPost (post_ID q) (post_WorkspaceID q) (post_Title p) (post_Caption p) (post_MediaURL p)
    (post_MediaAssetID p) (post_StorageObjectKey p) (post_Bucket p) (post_PrivacyLevel p)
    (post_DefaultPrivacyLevel p) (post_UploadJobID q) (post_IngestAfter q) (post_PublishAt p)
    (post_Status p) (post_IdempotencyKey q) (post_Metadata q) (post_Version q) (post_CreatedAt q)
    (post_UpdatedAt q).
(* Source: internal/repository/queries.go *)
(* 241-243 qUpdatePost *)
Definition qUpdatePost (p : Post) (_ : Env) (db : PostDB) : nat * PostDB :=
  let '(k, m) := update_row (post_ID p) (λ q, post_WorkspaceID q =? post_WorkspaceID p)
                   (edited_post p) (posts db) in
  (k, with_posts m db).
(* Source: internal/repository/post_repo_post.go *)
(* 330-365 PostRepository.Update *)
Definition Update (post : Post) : M PostDB unit :=
  k ← exec_status [post_Status post] "failed to update post" (qUpdatePost post);
  n ← map_err (λ _, db_err "failed to read rows affected") (rows_affected "update" k);
  if bool_decide (n = O) then
    throw (wrap_suffix ErrPostUnauthorized ("id=" +:+ itoa (post_ID post)))
  else mret tt.
(** The foreign keys cascade to the targets and the repair queue. *)
(* Source: internal/repository/queries.go *)
(* 297-297 qDeletePost *)
Definition qDeletePost (id : Z) (_ : Env) (db : PostDB) : unit * PostDB :=
  (tt, mkPostDB (delete id (posts db)) (filter (λ kt, t_post kt.2 ≠ id) (targets db))
         (delete id (dirty db)) (outbox db) (post_serial db) (target_serial db)).
(* Source: internal/repository/post_repo_post.go *)
(* 472-478 PostRepository.Delete *)
Definition Delete (id : Z) : M PostDB unit := exec "failed to delete post" (qDeletePost id).

(** ** Repairing the aggregate *)
(* Source: internal/repository/post_repo_aggregate.go *)
(* 295-317 ListDirtyAggregatePostIDs *)
Definition ListDirtyAggregatePostIDs (limit : Z) : M PostDB (list Z) :=
  if limit <=? 0 then
    throw (errors_new ("list dirty aggregate posts: limit must be positive (got " +:+
                         itoa limit +:+ ")"))
  else exec "list dirty aggregate posts" (λ _ db,
    ((take (Z.to_nat limit)
        (sort_by (λ x y : Z * Z, (x.2 <? y.2) || ((x.2 =? y.2) && (x.1 <=? y.1)))
           (map_to_list (dirty db)))).*1, db)).
(* 322-364 RepairDirtyAggregatePost *)
Definition RepairDirtyAggregatePost (postID : Z) : M PostDB unit :=
  let n := itoa postID in
  if postID <=? 0 then
    throw (errors_new ("repair dirty aggregate post: postID must be positive (got " +:+ n +:+ ")"))
  else transact ("dirty aggregate repair for post " +:+ n) (
    _ ← map_err (wrap ("lock dirty aggregate targets for post " +:+ n)) (lockTargetsForPostTx postID);
    _ ← map_err (wrap ("lock dirty aggregate parent " +:+ n)) (lockPostTx postID);
    queued ← exec ("lock dirty aggregate post " +:+ n)
               (λ _ db, (bool_decide (is_Some (dirty db !! postID)), db));
    if (queued : bool) then
      _ ← map_err (wrap ("repair dirty aggregate post " +:+ n))
            (persistAggregatePostStatusLockedTx postID);
      _ ← exec ("dequeue dirty aggregate post " +:+ n)
            (λ _ db, (tt, with_dirty (delete postID (dirty db)) db));
      mret (Commit tt)
    else mret (Rollback tt)).
Definition post_status_of (postID : Z) (db : PostDB) : option string :=
  post_Status <$> posts db !! postID.
(* 371-410 RepairAggregateStatusForPost *)
Definition RepairAggregateStatusForPost (postID : Z) : M PostDB (string * string * bool) :=
  let n := itoa postID in
  if postID <=? 0 then
    throw (errors_new ("repair aggregate status: postID must be positive (got " +:+ n +:+ ")"))
  else transact ("targeted aggregate repair for post " +:+ n) (
    _ ← map_err (wrap ("lock targeted aggregate targets for post " +:+ n))
          (lockTargetsForPostTx postID);
    old ← exec ("lock targeted aggregate post " +:+ n) (λ _ db, (post_status_of postID db, db));
    match old with
    | None => throw (wrap_suffix ErrPostNotFound ("id=" +:+ n))
    | Some oldStatus =>
        newStatus ← map_err (wrap ("resolve targeted aggregate status for post " +:+ n))
                      (resolvePostStatusLockedTx postID);
        let changed := negb (bool_decide (oldStatus = newStatus)) in
        _ ← (if changed then
               exec_status [newStatus] ("persist targeted aggregate status for post " +:+ n)
                 (update_post_status postID newStatus)
             else mret tt);
        mret (Commit (oldStatus, newStatus, changed))
    end).
(** One round of the loop: [None] is [continue]. *)
(* 437-467 RepairAggregateStatuses *)
Definition repair_one (postID : Z) : M PostDB nat :=
  let n := itoa postID in
  transact ("aggregate repair for post " +:+ n) (
    _ ← map_err (wrap ("lock aggregate repair targets for post " +:+ n)) (lockTargetsForPostTx postID);
    old ← exec ("lock aggregate repair post " +:+ n) (λ _ db, (post_status_of postID db, db));
    match old with
    | None => mret (Rollback O)
    | Some oldStatus =>
        newStatus ← map_err (wrap ("repair aggregate status for post " +:+ n))
                      (resolvePostStatusLockedTx postID);
        if bool_decide (newStatus = oldStatus) then mret (Commit O)
        else
          _ ← exec_status [newStatus] ("persist repaired status for post " +:+ n)
                (update_post_status postID newStatus);
          mret (Commit 1%nat)
    end).
(* 436-468 RepairAggregateStatuses *)
Fixpoint repair_loop (postIDs : list Z) (repaired : nat) : M PostDB nat :=
  match postIDs with
  | [] => mret repaired
  | postID :: rest => k ← repair_one postID; repair_loop rest (repaired + k)%nat
  end.
(** The number repaired before a failure is not returned here. *)
(* 415-470 RepairAggregateStatuses *)
Definition RepairAggregateStatuses : M PostDB nat :=
  postIDs ← exec "select aggregate repair candidates"
              (λ _ db, ((sort_by (λ x y : Z * Post, x.1 <=? y.1) (map_to_list (posts db))).*1, db));
  repair_loop postIDs 0.

(** ** The pickup query of the publish worker *)
(* Source: internal/repository/queries.go *)
(* 151-153 pending *)
Definition pending_target (before now : Z) (db : PostDB) (t : TargetRow) : bool :=
  status_in ["queued"; "waiting_provider"; "retrying"] t && due (next_attempt_at (t_retry t)) now &&
  match posts db !! t_post t with
  | Some p => match post_PublishAt p with None => true | Some at_ => at_ <=? before end
  | None => false
  end.
(* Source: internal/repository/queries.go *)
(* 139-155 pending *)
Definition pending (before now : Z) (db : PostDB) : list (Z * TargetRow) :=
  List.filter (λ kt, pending_target before now db kt.2) (map_to_list (targets db)).
(** [ROW_NUMBER() OVER (PARTITION BY post_id ORDER BY id)]. *)
(* 148 ROW_NUMBER *)
Definition child_position (l : list (Z * TargetRow)) (kt : Z * TargetRow) : nat :=
  length (List.filter (λ k', (t_post k'.2 =? t_post kt.2) && (k'.1 <=? kt.1)) l).
(* 159 ORDER BY *)
Definition fair_order (pos : Z * TargetRow → nat) (at_ : Z * TargetRow → option Z)
    (x y : Z * TargetRow) : bool :=
  let k o := match o with None => 0 | Some _ => 1 end in
  let v o := default 0 o in
  (pos x <? pos y)%nat || ((pos x =? pos y)%nat &&
    ((k (at_ x) <? k (at_ y)) || ((k (at_ x) =? k (at_ y)) &&
      ((v (at_ x) <? v (at_ y)) || ((v (at_ x) =? v (at_ y)) &&
        ((t_post x.2 <? t_post y.2) || ((t_post x.2 =? t_post y.2) && (x.1 <=? y.1)))))))).
(* 139-160 qSelectPendingTargetsFair *)
Definition qSelectPendingTargetsFair (before : Z) (e : Env) (db : PostDB) : list (Z * TargetRow) :=
  let l := pending before (db_now e) db in
  take 100 (sort_by (fair_order (child_position l)
    (λ kt, p ← posts db !! t_post kt.2; post_PublishAt p)) l).
(* Source: internal/repository/post_repo_target.go *)
(* 229-250 PostRepository.ListPending *)
Definition ListPending (before : Z) : M PostDB (list (Z * TargetRow)) :=
  exec "failed to list pending post_targets" (λ e db, (qSelectPendingTargetsFair before e db, db)).

(** ** Operations of the store, as one type *)
Inductive PostOp :=
| OpCreate (post : Post) (l : list NewTarget)
| OpUpdate (post : Post)
| OpDelete (id : Z)
| OpSave (post account : Z) (status : string)
| OpSetProviderIdempotencyKey (id : Z) (key : string)
| OpPublishPost (id : Z)
| OpCancelPost (id : Z)
| OpRetryPost (id : Z)
| OpRetryTarget (id : Z)
| OpUpdateStatus (target : option TargetUpdate)
| OpSetTargetStatus (id : Z) (status errorMessage : string)
| OpClaimQueuedTargetWithLease (id : Z) (ownerID : string) (leaseTTL : Z)
| OpClaimWaitingProviderTarget (id : Z)
| OpUpdatePublishProgress (id : Z) (ownerID : string) (offset : Z) (state : string) (leaseTTL : Z)
| OpReleaseLease (id : Z) (ownerID : string)
| OpMarkDeadLetter (id : Z) (ownerID lastError : string)
| OpMarkRetrying (id : Z) (ownerID lastError : string) (nextAttemptAt : Z)
| OpMarkRateLimitedRetryWithLease (id : Z) (ownerID : string) (nextAttemptAt : Z) (lastError : string)
| OpMarkRateLimited (id : Z) (ownerID : string) (retryAfter : Z)
| OpMarkDeliveryDispatchFailed (id : Z) (errorCode : string)
| OpMarkDriveRequiredFailed (id : Z) (lastError : string)
| OpUpdateStatusWithLease (target : option TargetUpdate) (ownerID : string)
| OpReclaimExpiredLeases (myWorkerID : string)
| OpClaimPublishingTarget (id : Z) (ownerID : string) (leaseTTL : Z)
| OpHeartbeatReconcileTarget (id : Z) (ownerID : string) (leaseTTL : Z)
| OpReleaseReconcileTarget (id : Z) (ownerID : string)
| OpScheduleNextReconcile (id : Z) (ownerID : string) (expectedAttempt next : Z)
| OpScheduleNextReconcileWithLease (id : Z) (ownerID : string) (expectedAttempt next : Z)
    (increment : bool) (errorCode errorMessage : string)
| OpUpdateReconcileStatusWithLease (target : option TargetUpdate) (ownerID : string)
| OpCancelFutureJobs (accountID : Z)
| OpRepairDirtyAggregatePost (postID : Z)
| OpRepairAggregateStatusForPost (postID : Z)
| OpRepairAggregateStatuses.

Definition ignore {A} (m : M PostDB A) : M PostDB unit := _ ← m; mret tt.
Definition run_op (op : PostOp) : M PostDB unit :=
  match op with
  | OpCreate p l => ignore (Create p l)
  | OpUpdate p => Update p
  | OpDelete id => Delete id
  | OpSave p a s => ignore (Save p a s)
  | OpSetProviderIdempotencyKey id k => SetProviderIdempotencyKey id k
  | OpPublishPost id => PublishPost id
  | OpCancelPost id => CancelPost id
  | OpRetryPost id => RetryPost id
  | OpRetryTarget id => RetryTarget id
  | OpUpdateStatus u => UpdateStatus u
  | OpSetTargetStatus id s m => SetTargetStatus id s m
  | OpClaimQueuedTargetWithLease id o l => ignore (ClaimQueuedTargetWithLease id o l)
  | OpClaimWaitingProviderTarget id => ignore (ClaimWaitingProviderTarget id)
  | OpUpdatePublishProgress id o off s l => UpdatePublishProgress id o off s l
  | OpReleaseLease id o => ReleaseLease id o
  | OpMarkDeadLetter id o m => MarkDeadLetter id o m
  | OpMarkRetrying id o m t => MarkRetrying id o m t
  | OpMarkRateLimitedRetryWithLease id o t m => MarkRateLimitedRetryWithLease id o t m
  | OpMarkRateLimited id o t => MarkRateLimited id o t
  | OpMarkDeliveryDispatchFailed id c => MarkDeliveryDispatchFailed id c
  | OpMarkDriveRequiredFailed id m => MarkDriveRequiredFailed id m
  | OpUpdateStatusWithLease u o => UpdateStatusWithLease u o
  | OpReclaimExpiredLeases w => ignore (ReclaimExpiredLeases w)
  | OpClaimPublishingTarget id o l => ignore (ClaimPublishingTarget id o l)
  | OpHeartbeatReconcileTarget id o l => HeartbeatReconcileTarget id o l
  | OpReleaseReconcileTarget id o => ReleaseReconcileTarget id o
  | OpScheduleNextReconcile id o n t => ScheduleNextReconcile id o n t
  | OpScheduleNextReconcileWithLease id o n t b c m =>
      ScheduleNextReconcileWithLease id o n t b c m
  | OpUpdateReconcileStatusWithLease u o => UpdateReconcileStatusWithLease u o
  | OpCancelFutureJobs a => tx "disconnect platform account" (cancelFutureJobsTx a)
  | OpRepairDirtyAggregatePost p => RepairDirtyAggregatePost p
  | OpRepairAggregateStatusForPost p => ignore (RepairAggregateStatusForPost p)
  | OpRepairAggregateStatuses => ignore RepairAggregateStatuses
  end.
Definition history := list (Env * PostOp).
Definition run_history (h : history) (db : PostDB) : PostDB :=
  foldl (λ db eo, state_of (run_op eo.2 eo.1 (db, O))) db h.
