(* ===== verification/PostReads.v ===== *)
(** * Reading posts, targets and workspaces

    The queries of [src/internal/repository/post_repo_*.go] and
    [workspace_repo.go] that the workers and the API read with: which columns
    come back, in which order, and the keyset pages of the post lists. *)

From S2P Require Import Prelude Store PostModel PostStore.
From Stdlib Require Import ZArith Lia.
Local Open Scope Z_scope.

(** The columns of the content pipeline: no metadata, version or key. *)
Definition selected_post (p : Post) : Post :=
  mkPost (post_ID p) (post_WorkspaceID p) (post_Title p) (post_Caption p) (post_MediaURL p)
    (post_MediaAssetID p) (post_StorageObjectKey p) (post_Bucket p) (post_PrivacyLevel p)
    (post_DefaultPrivacyLevel p) (post_UploadJobID p) (post_IngestAfter p) (post_PublishAt p)
    (post_Status p) None "" 0 (post_CreatedAt p) 0.
(* Source: internal/repository/post_repo_post.go *)
(* 385-405 PostRepository.FindByIDForWorkspace *)
Definition FindByIDForWorkspace (workspaceID postID : Z) : M PostDB (option Post) :=
  exec "failed to find post by id (workspace-scoped)" (λ _ db,
    (selected_post <$> (p ← posts db !! postID;
       if (workspaceID =? 0) || (post_WorkspaceID p =? workspaceID) then Some p else None), db)).
(* 369-371 PostRepository.FindByID *)
Definition FindByID (id : Z) : M PostDB (option Post) := FindByIDForWorkspace 0 id.
(* Source: internal/repository/post_repo_metadata.go *)
(* 13-29 PostRepository.GetMetadata *)
Definition GetMetadata (id : Z) : M PostDB string :=
  exec "failed to load post metadata" (λ _ db, (default "" (post_Metadata <$> posts db !! id), db)).

(** [ORDER BY created_at DESC, id DESC]; rows of one instant that a query leaves
    unordered come in the same order. *)
Definition newest_first (x y : Post) : bool :=
  (post_CreatedAt y <? post_CreatedAt x) ||
  ((post_CreatedAt x =? post_CreatedAt y) && (post_ID y <=? post_ID x)).
Definition posts_of (workspaceIDs : list Z) (db : PostDB) : list Post :=
  sort_by newest_first
    (List.filter (λ p, bool_decide (post_WorkspaceID p ∈ workspaceIDs)) (map_to_list (posts db)).*2).
(* Source: internal/repository/post_repo_post.go *)
(* 410-437 PostRepository.ListByWorkspace *)
Definition ListByWorkspace (workspaceID : Z) : M PostDB (list Post) :=
  exec "failed to list posts by workspace" (λ _ db,
    ((λ p, set_metadata (post_Metadata p) (selected_post p)) <$> posts_of [workspaceID] db, db)).
(* 444-475 PostRepository.ListQueued *)
Definition ListQueued (before : Z) : M PostDB (list Post) :=
  exec "failed to list scheduled posts" (λ _ db,
    (selected_post <$> sort_by (λ x y, match post_PublishAt x, post_PublishAt y with
        | None, None => post_ID x <=? post_ID y | None, _ => true | _, None => false
        | Some s, Some t => (s <? t) || ((s =? t) && (post_ID x <=? post_ID y)) end)
      (List.filter (λ p, bool_decide (post_Status p = "queued") && due (post_PublishAt p) before)
         (map_to_list (posts db)).*2), db)).

(** [(created_at, id) < ($2, $3)], or no position at all. *)
Definition behind (after : option (Z * Z)) (p : Post) : bool :=
  match after with
  | None => true
  | Some (t, id) => (post_CreatedAt p <? t) || ((post_CreatedAt p =? t) && (post_ID p <? id))
  end.
Definition rows_behind (workspaceIDs : list Z) (after : option (Z * Z)) (db : PostDB) : list Post :=
  List.filter (behind after) (posts_of workspaceIDs db).
Definition clamp_limit (limit : Z) : Z :=
  let limit := if limit <=? 0 then 50 else limit in if 100 <? limit then 100 else limit.
(* Source: internal/repository/post_repo_page.go *)
(* 26-91 PostRepository.listByWorkspaceIDsPage *)
Definition listByWorkspaceIDsPage (workspaceIDs : list Z) (after : option (Z * Z)) (limit : Z) :
    M PostDB (list Post * bool) :=
  match workspaceIDs with
  | [] => mret ([], false)
  | _ =>
      match List.find (λ w, w <=? 0) workspaceIDs with
      | Some w => throw (errors_new ("list posts: invalid workspace id " +:+ itoa w))
      | None =>
          let limit := clamp_limit limit in
          rows ← exec "list paginated posts" (λ _ db,
                   (selected_post <$>
                      take (Z.to_nat (limit + 1)) (rows_behind workspaceIDs after db), db));
          let hasMore := limit <? Z.of_nat (length rows) in
          mret (if hasMore then take (Z.to_nat limit) rows else rows, hasMore)
      end
  end.
(* 15-17 PostRepository.ListByWorkspacePage *)
Definition ListByWorkspacePage (workspaceID : Z) (after : option (Z * Z)) (limit : Z) :
    M PostDB (list Post * bool) := listByWorkspaceIDsPage [workspaceID] after limit.
(* 22-24 PostRepository.ListByWorkspacesPage *)
Definition ListByWorkspacesPage (workspaceIDs : list Z) (after : option (Z * Z)) (limit : Z) :
    M PostDB (list Post * bool) := listByWorkspaceIDsPage workspaceIDs after limit.

(** The struct of a target row with the columns the two queries share. *)
Definition read_target (attempts : Z) (next : option Z) (kt : Z * TargetRow) : PostTarget :=
  let t := kt.2 in
  let p := t_provider t in
  mkPostTarget kt.1 (t_post t) (t_account t) (t_status t) attempts next 0 None "" None None
    (default "" (platform_post_id p)) "" "" (default "" (error_message p)) (published_at p)
    (completed_at p) (default "" (provider_state p)) (default "" (container_id p)) ""
    (provider_idempotency_key p) "" None None 0 0 0.
(* Source: internal/repository/post_repo_target.go *)
(* 126-141 PostRepository.FindTargetByID *)
Definition FindTargetByID (id : Z) : M PostDB (option PostTarget) :=
  exec "failed to find post_target by id" (λ _ db,
    ((λ t, read_target (attempt_count (t_retry t)) (next_attempt_at (t_retry t)) (id, t)) <$>
       targets db !! id, db)).
(* 143-164 PostRepository.ListByPost *)
Definition ListByPost (postID : Z) : M PostDB (list PostTarget) :=
  exec "failed to list post_targets by post" (λ _ db,
    (read_target 0 None <$> post_rows postID db, db)).

(** ** Workspaces *)
(* Source: internal/models/workspace.go *)
(* 11-16 Workspace *)
Record Workspace := mkWorkspace {
  ws_ID : Z;
  ws_Name : string;
  ws_OwnerID : Z;
  ws_CreatedAt : Z
}.
Definition WorkspaceDB := gmap Z Workspace.
(* Source: internal/repository/workspace_repo.go *)
(* 53-68 WorkspaceRepository.FindByID *)
Definition FindWorkspaceByID (id : Z) : M WorkspaceDB (option Workspace) :=
  exec "failed to find workspace by id" (λ _ db, (db !! id, db)).
(* 73-95 WorkspaceRepository.ListByOwner *)
Definition ListByOwner (ownerID : Z) : M WorkspaceDB (list Workspace) :=
  exec "failed to list workspaces by owner" (λ _ db,
    (sort_by (λ x y, (ws_CreatedAt y <? ws_CreatedAt x) ||
                     ((ws_CreatedAt x =? ws_CreatedAt y) && (ws_ID x <=? ws_ID y)))
       (List.filter (λ w, ws_OwnerID w =? ownerID) (map_to_list db).*2), db)).

(** ** Keyset pages *)
(** The key of a row and of the schema: ids are the keys of the table. *)
Definition post_ids_ok (db : PostDB) : Prop := ∀ id p, posts db !! id = Some p → post_ID p = id.
Definition position (p : Post) : Z * Z := (post_CreatedAt p, post_ID p).

Lemma newest_first_total x y : newest_first x y = false → newest_first y x = true.
Proof. unfold newest_first. lia. Qed.
Lemma newest_first_trans x y z :
  newest_first x y = true → newest_first y z = true → newest_first x z = true.
Proof. unfold newest_first. lia. Qed.
Lemma posts_of_elem ws db p :
  p ∈ posts_of ws db ↔ post_WorkspaceID p ∈ ws ∧ ∃ id, posts db !! id = Some p.
Proof.
  unfold posts_of. rewrite sort_by_perm. rewrite list_elem_of_In, filter_In, <- list_elem_of_In.
  rewrite bool_decide_eq_true, list_elem_of_fmap. split.
  - intros [([id q] & -> & H%elem_of_map_to_list) ?]. eauto.
  - intros [? [id H%elem_of_map_to_list]]. split; [|done]. by exists (id, p).
Qed.
Lemma posts_of_sorted ws db :
  StronglySorted (λ x y, newest_first x y = true) (posts_of ws db).
Proof. apply sort_by_sorted; [apply newest_first_total|apply newest_first_trans]. Qed.
Lemma posts_of_ids ws db : post_ids_ok db → NoDup (post_ID <$> posts_of ws db).
Proof.
  intros Hids. unfold posts_of. rewrite sort_by_perm.
  set (f := λ p, bool_decide (post_WorkspaceID p ∈ ws)).
  assert (∀ l : list (Z * Post), NoDup l.*1 → Forall (λ kp, post_ID kp.2 = kp.1) l →
            NoDup (post_ID <$> List.filter f l.*2)) as H.
  { induction l as [|[k p] l IH]; intros Hn Hl; [constructor|].
    apply NoDup_cons in Hn as [Hk Hn]. apply Forall_cons in Hl as [Hp Hl]. cbn [fst snd] in Hp, Hk.
    cbn [fmap list_fmap List.filter snd]. destruct (f p); [|by apply IH].
    cbn [fmap list_fmap]. apply NoDup_cons. split; [|by apply IH].
    intros (q & Hq & Hin)%list_elem_of_fmap. apply Hk.
    apply list_elem_of_In, filter_In in Hin as [Hin _]. apply list_elem_of_In in Hin.
    apply list_elem_of_fmap in Hin as ([k' q'] & -> & Hin).
    rewrite Forall_forall in Hl. specialize (Hl _ Hin). cbn in Hl, Hq.
    apply list_elem_of_fmap. exists (k', q'). split; [cbn; congruence|done]. }
  apply H; [apply NoDup_fst_map_to_list|]. apply Forall_forall. intros [k p] Hin%elem_of_map_to_list.
  by apply Hids.
Qed.
Lemma behind_newest x y : behind (Some (position x)) y = negb (newest_first y x).
Proof. unfold behind, newest_first, position. lia. Qed.
(** The rows behind a row of the list are what follows it. *)
Lemma rows_behind_split ws db L1 x L2 :
  post_ids_ok db → posts_of ws db = L1 ++ x :: L2 →
  rows_behind ws (Some (position x)) db = L2.
Proof.
  intros Hids E. unfold rows_behind. pose proof (posts_of_sorted ws db) as Hs.
  pose proof (posts_of_ids ws db Hids) as Hn. rewrite E in *. clear E.
  induction L1 as [|y L1 IH].
  - cbn [app List.filter]. cbn [app fmap list_fmap] in Hn, Hs.
    apply NoDup_cons in Hn as [Hx _]. apply StronglySorted_inv in Hs as [_ Hf].
    rewrite behind_newest. replace (newest_first x x) with true by (unfold newest_first; lia).
    cbn [negb]. induction L2 as [|z L2 IH2]; [done|].
    apply Forall_cons in Hf as [Hz Hf]. cbn [List.filter].
    rewrite behind_newest. rewrite fmap_cons, not_elem_of_cons in Hx. destruct Hx as [Hxz Hx].
    replace (newest_first z x) with false by (unfold newest_first in *; lia). cbn [negb].
    f_equal. by apply IH2.
  - cbn [app fmap list_fmap] in Hn, Hs. apply NoDup_cons in Hn as [_ Hn].
    apply StronglySorted_inv in Hs as [Hs Hf].
    cbn [app List.filter]. rewrite behind_newest.
    rewrite Forall_forall in Hf. rewrite (Hf x) by set_solver. by apply IH.
Qed.

(** A page against a database that answers. *)
Lemma page_run e ws after limit db n :
  reliable e → ws ≠ [] → Forall (λ w, 0 < w) ws → 1 ≤ limit ≤ 100 →
  let rest := rows_behind ws after db in
  listByWorkspaceIDsPage ws after limit e (db, n) =
    (inr (selected_post <$> take (Z.to_nat limit) rest, Z.to_nat limit <? length rest)%nat,
     (db, S n)).
Proof.
  intros Hrel Hne Hpos Hl rest. unfold listByWorkspaceIDsPage.
  destruct ws as [|w ws]; [done|]. set (ws' := w :: ws) in *.
  assert (List.find (λ w, w <=? 0) ws' = None) as ->.
  { destruct (List.find _ ws') as [x|] eqn:E; [|done].
    apply find_some in E as [Hin%list_elem_of_In Hx]. rewrite Forall_forall in Hpos.
    specialize (Hpos x Hin). lia. }
  replace (clamp_limit limit) with limit by (unfold clamp_limit; repeat case_match; lia).
  cbv beta iota zeta. erewrite bind_run by (apply exec_fine; done). cbn [fst snd].
  fold rest. unfold mret, M_ret. rewrite length_fmap, length_take. f_equal. f_equal.
  replace (Z.to_nat (limit + 1)) with (S (Z.to_nat limit)) by lia.
  destruct (Nat.ltb_spec (Z.to_nat limit) (length rest)) as [H|H].
  - rewrite (proj2 (Z.ltb_lt limit _)) by lia.
    rewrite <- fmap_take, take_take. by rewrite Nat.min_l by lia.
  - rewrite (proj2 (Z.ltb_ge limit _)) by lia.
    by rewrite !take_ge by lia.
Qed.
