(* ===== verification/Idempotency.v ===== *)
(** * Idempotent requests

    [src/internal/repository/idempotency_repo.go] and
    [src/pkg/api/idempotency.go]: the record of a request that created
    something, kept under the workspace and the key of the client, the side row
    with the response of a batch, and the decision to run, replay or refuse. *)

From S2P Require Import Prelude Store.
From Stdlib Require Import ZArith Lia.
Local Open Scope Z_scope.

(* Source: internal/models/post.go *)
(* 395-405 IdempotencyRecord *)
Record IdempotencyRecord := mkIdempotencyRecord {
  rec_ID : Z;
  rec_WorkspaceID : Z;
  rec_IdempotencyKey : string;
  rec_ResourceType : string;
  rec_ResourceID : Z;
  rec_RequestHash : string;
  rec_ResponseStatus : Z;
  rec_ExpiresAt : Z;
  rec_CreatedAt : Z
}.
(* 438-442 BatchReplay *)
Record BatchReplay := mkBatchReplay {
  br_IdempotencyRecordID : Z;
  br_ResponsePayload : string;
  br_CreatedAt : Z
}.
(** The two tables and the sequence of the ids. *)
(* Source: internal/database/migrations/021_idempotency_records.sql *)
(* 70-80 idempotency_records *)
Record IdemDB := mkIdemDB {
  records : gmap Z IdempotencyRecord;
  replays : gmap Z BatchReplay;
  record_serial : Z
}.

Section Idempotency.
(** What PostgreSQL answers for a JSON text stored in a JSONB column, or nothing
    when it refuses the text. *)
Context (jsonb : string → option string).

(* Source: internal/repository/idempotency_repo.go *)
Definition ErrIdempotencyKeyCollided : err := (* 65 *)
  sentinel "ErrIdempotencyKeyCollided" "idempotency key collided on insert".
(* 79-97 FindBatchReplay *)
Definition FindBatchReplay (id : Z) : M IdemDB (option BatchReplay) :=
  if id <=? 0 then mret None
  else exec "failed to find batch replay" (λ _ db, (replays db !! id, db)).
(** A refusal of the server: the foreign key, the primary key, the JSON syntax. *)
Definition insert_replay (rec : BatchReplay) (e : Env) (db : IdemDB) :
    (err + Z) * IdemDB :=
  let id := br_IdempotencyRecordID rec in
  match jsonb (br_ResponsePayload rec), records db !! id, replays db !! id with
  | None, _, _ | _, None, _ => (inl (db_err "failed to insert batch replay"), db)
  | Some _, Some _, Some _ =>
      (inl (wrap ("batch replay already exists for record " +:+ itoa id)
              ErrIdempotencyKeyCollided), db)
  | Some payload, Some _, None =>
      (inr (db_now e), mkIdemDB (records db)
         (<[id := mkBatchReplay id payload (db_now e)]> (replays db)) (record_serial db))
  end.
Definition refused {A} (r : err + A) : M IdemDB A :=
  match r with inl er => throw er | inr a => mret a end.
(* 107-136 InsertBatchReplay *)
Definition InsertBatchReplay (rec : BatchReplay) : M IdemDB Z :=
  if br_IdempotencyRecordID rec <=? 0 then throw (errors_new "idempotency_record_id is required")
  else if bool_decide (br_ResponsePayload rec = "") then
    throw (errors_new "response_payload is required")
  else r ← exec "failed to insert batch replay" (insert_replay rec); refused r.

Definition at_key (workspaceID : Z) (key : string) (r : IdempotencyRecord) : bool :=
  (rec_WorkspaceID r =? workspaceID) && bool_decide (rec_IdempotencyKey r = key).
Definition find_record (p : IdempotencyRecord → bool) (db : IdemDB) : option IdempotencyRecord :=
  head (List.filter p (map_to_list (records db)).*2).
(* 149-170 FindActiveByKey *)
Definition FindActiveByKey (workspaceID : Z) (key : string) (now : Z) :
    M IdemDB (option IdempotencyRecord) :=
  if bool_decide (key = "") then mret None
  else exec "failed to find idempotency record" (λ _ db,
         (find_record (λ r, at_key workspaceID key r && (now <? rec_ExpiresAt r)) db, db)).
(** The unique constraint covers expired records too. *)
Definition insert_record (rec : IdempotencyRecord) (e : Env) (db : IdemDB) : (err + Z) * IdemDB :=
  match find_record (at_key (rec_WorkspaceID rec) (rec_IdempotencyKey rec)) db with
  | Some _ =>
      (inl ErrIdempotencyKeyCollided, mkIdemDB (records db) (replays db) (record_serial db + 1))
  | None =>
      let id := record_serial db + 1 in
      (inr id, mkIdemDB
         (<[id := mkIdempotencyRecord id (rec_WorkspaceID rec) (rec_IdempotencyKey rec)
                    (rec_ResourceType rec) (rec_ResourceID rec) (rec_RequestHash rec)
                    (rec_ResponseStatus rec) (rec_ExpiresAt rec) (db_now e)]> (records db))
         (replays db) id)
  end.
(** Returns the id the row got. *)
(* 184-232 Insert *)
Definition Insert (rec : IdempotencyRecord) : M IdemDB Z :=
  if rec_WorkspaceID rec <=? 0 then throw (errors_new "workspace_id is required")
  else if bool_decide (rec_IdempotencyKey rec = "") then
    throw (errors_new "idempotency_key is required")
  else if negb (Z.of_nat (String.length (rec_RequestHash rec)) =? 32) then
    throw (errors_new ("request_hash must be 32 bytes (sha256); got " +:+
                         itoa (Z.of_nat (String.length (rec_RequestHash rec)))))
  else if bool_decide (rec_ResourceType rec = "") then throw (errors_new "resource_type is required")
  else if rec_ResourceID rec <=? 0 then throw (errors_new "resource_id is required")
  else if (rec_ResponseStatus rec <? 100) || (599 <? rec_ResponseStatus rec) then
    throw (errors_new ("response_status " +:+ itoa (rec_ResponseStatus rec) +:+ " out of HTTP range"))
  else if rec_ExpiresAt rec =? 0 then throw (errors_new "expires_at is required")
  else r ← exec "failed to insert idempotency record" (insert_record rec); refused r.

(** ** The gate of the handlers *)
(* Source: pkg/api/idempotency.go *)
Definition idempotencyResourceTypeDriveBatch : string := "drive_batch". (* 56 *)
(* 61-67 idempotencyOutcome *)
Inductive idempotencyOutcome := idempotencyContinue | idempotencyReplay | idempotencyConflict.
Definition idempotencyKeyMaxLen : Z := 255. (* 73 *)
(** [configured]: the router has an idempotency store. *)
(* 87-132 idempotencyLookup *)
Definition idempotencyLookup (configured : bool) (workspaceID : Z) (key hash resourceType : string) :
    M IdemDB (idempotencyOutcome * option IdempotencyRecord) :=
  if negb configured then mret (idempotencyContinue, None)
  else if (workspaceID <=? 0) || bool_decide (key = "") then mret (idempotencyContinue, None)
  else if idempotencyKeyMaxLen <? Z.of_nat (String.length key) then
    throw (errors_new ("idempotency key exceeds " +:+ itoa idempotencyKeyMaxLen +:+ " chars"))
  else if negb (Z.of_nat (String.length hash) =? 32) then mret (idempotencyContinue, None)
  else
    env ← ask;
    o ← map_err (wrap "idempotency lookup") (FindActiveByKey workspaceID key (app_now env));
    mret match o with
         | None => (idempotencyContinue, None)
         | Some r =>
             if negb (bool_decide (rec_RequestHash r = hash)) then (idempotencyConflict, None)
             else if negb (bool_decide (rec_ResourceType r = resourceType)) then
               (idempotencyConflict, None)
             else (idempotencyReplay, Some r)
         end.
Definition day : Z := 24 * Hour.
(** A failed insert is logged and forgotten. *)
(* 251-280 insertIdempotentRecord *)
Definition insertIdempotentRecord (configured : bool) (workspaceID : Z) (key resourceType : string)
    (resourceID : Z) (hash : string) (status : Z) : M IdemDB unit :=
  if negb configured || bool_decide (key = "") then mret tt
  else
    env ← ask;
    _ ← try (Insert (mkIdempotencyRecord 0 workspaceID key resourceType resourceID hash status
                       (app_now env + day) 0));
    mret tt.
(* 308-382 insertBatchIdempotentRecord *)
Definition insertBatchIdempotentRecord (configured : bool) (workspaceID : Z) (key : string)
    (resourceID : Z) (hash : string) (status : Z) (payload : string) : M IdemDB unit :=
  if negb configured || bool_decide (key = "") then mret tt
  else if resourceID <=? 0 then mret tt
  else if bool_decide (payload = "") then mret tt
  else
    env ← ask;
    r ← try (Insert (mkIdempotencyRecord 0 workspaceID key idempotencyResourceTypeDriveBatch
                       resourceID hash status (app_now env + day) 0));
    match r with
    | inl _ => mret tt
    | inr id =>
        if id <=? 0 then mret tt
        else _ ← try (InsertBatchReplay (mkBatchReplay id payload 0)); mret tt
    end.
End Idempotency.
