(* ===== verification/PostStoreProps.v ===== *)
(** * What the post store guarantees

    Over the operations of [PostStore]: the status of a post agrees with those
    of its targets, or the post waits in the repair queue; who can change a
    finished target; the claims of the publish workers; creation as one atomic,
    idempotent step; and the fairness of the pickup query. *)

From S2P Require Import Prelude Store PostModel PostStore.
From S2P Require Outbox.
From Stdlib Require Import ZArith Lia.
Local Open Scope Z_scope.

(** ** Statuses of a post, as a finite map *)
Definition smap (p : Z) (m : gmap Z TargetRow) : gmap Z string :=
  omap (λ t, if t_post t =? p then Some (t_status t) else None) m.

Lemma resolve_perm l l' s : l ≡ₚ l' → resolve_statuses l = inr s → resolve_statuses l' = inr s.
Proof.
  intros Hp Hl.
  assert (Hk : forallb known_status l = true).
  { apply not_false_iff_true. intros H. destruct (flag_loop_unknown _
      (mkFlags true false false false false false false true true) H)
      as (l1 & x & l2 & E & _ & _ & Hf).
    unfold resolve_statuses in Hl. rewrite Hf in Hl. by rewrite E in Hl; destruct l1. }
  rewrite resolve_known in Hl by done. injection Hl as <-.
  rewrite resolve_known by (by rewrite <- (forallb_Permutation _ _ _ Hp)).
  f_equal. unfold aggregate_rules.
  rewrite !(existsb_Permutation _ _ _ Hp), !(forallb_Permutation _ _ _ Hp).
  destruct l, l'; try done.
  - by apply Permutation_nil_cons in Hp.
  - symmetry in Hp. by apply Permutation_nil_cons in Hp.
Qed.

Lemma post_rows_elem p db k t :
  (k, t) ∈ post_rows p db ↔ targets db !! k = Some t ∧ t_post t = p.
Proof.
  unfold post_rows. rewrite sort_by_perm, list_elem_of_In, filter_In, <- list_elem_of_In.
  by rewrite elem_of_map_to_list, Z.eqb_eq.
Qed.
Lemma filter_NoDup_fst {A} (P : Z * A → bool) (l : list (Z * A)) :
  NoDup l.*1 → NoDup (List.filter P l).*1.
Proof.
  induction l as [|x l IH]; simpl; [done|]. intros [Hx Hl]%NoDup_cons.
  destruct (P x); simpl; [|by apply IH]. constructor; [|by apply IH].
  intros (y & E & Hy)%list_elem_of_fmap. apply Hx, list_elem_of_fmap. exists y. split; [done|].
  rewrite list_elem_of_In, filter_In, <- list_elem_of_In in Hy. tauto.
Qed.
Lemma post_rows_NoDup p db : NoDup (post_rows p db).*1.
Proof.
  unfold post_rows. rewrite sort_by_perm. apply filter_NoDup_fst, NoDup_fst_map_to_list.
Qed.
Lemma post_statuses_perm p db :
  post_statuses p db ≡ₚ (map_to_list (smap p (targets db))).*2.
Proof.
  unfold post_statuses.
  assert (H : (λ kt : Z * TargetRow, (kt.1, t_status kt.2)) <$> post_rows p db ≡ₚ
              map_to_list (smap p (targets db))).
  { apply NoDup_Permutation; [|apply NoDup_map_to_list|].
    - apply (NoDup_fmap_1 fst). rewrite <- list_fmap_compose. apply post_rows_NoDup.
    - intros [k s]. rewrite elem_of_map_to_list, list_elem_of_fmap. unfold smap.
      rewrite lookup_omap. split.
      + intros ([k' t] & [= -> ->] & [Ht Hp]%post_rows_elem). rewrite Ht. simpl.
        by rewrite (proj2 (Z.eqb_eq _ _) Hp).
      + destruct (targets db !! k) as [t|] eqn:Ht; [|done]. simpl.
        destruct (t_post t =? p) eqn:Hp; [|done]. intros [= <-]. exists (k, t).
        split; [done|]. apply post_rows_elem. by apply Z.eqb_eq in Hp. }
  rewrite <- H, <- list_fmap_compose. done.
Qed.

(** ** Invariants *)

(** The status of the post is what [Resolve] gives for its targets. *)
Definition fresh (p : Z) (db : PostDB) : Prop :=
  ∀ q, posts db !! p = Some q → resolve_statuses (post_statuses p db) = inr (post_Status q).
Lemma fresh_ext p db db' :
  smap p (targets db') = smap p (targets db) →
  post_Status <$> posts db' !! p = post_Status <$> posts db !! p →
  fresh p db → fresh p db'.
Proof.
  intros Hm Hp Hf q Hq. rewrite Hq in Hp. simpl in Hp.
  destruct (posts db !! p) as [q0|] eqn:Hq0; [|done]. injection Hp as ->.
  eapply resolve_perm; [|by apply Hf]. by rewrite !post_statuses_perm, Hm.
Qed.

(** Keys and foreign keys. *)
Record db_ok (db : PostDB) : Prop := {
  ok_fk : ∀ k t, targets db !! k = Some t → is_Some (posts db !! t_post t);
  ok_id : ∀ p q, posts db !! p = Some q → post_ID q = p ∧ p < post_serial db;
  ok_target : ∀ k, is_Some (targets db !! k) → k < target_serial db
}.
(** Every post is fresh, excused by [X], or, if the queue counts, waiting for
    repair. *)
Definition inv (queue : bool) (X : Z → Prop) (db : PostDB) : Prop :=
  db_ok db ∧ ∀ p, fresh p db ∨ X p ∨ queue = true ∧ is_Some (dirty db !! p).
Definition none (_ : Z) : Prop := False.

Lemma inv_weaken queue (X Y : Z → Prop) db :
  (∀ p, X p → Y p) → inv queue X db → inv queue Y db.
Proof. intros H [Hok Hi]. split; [done|]. intros p. destruct (Hi p) as [?|[?|?]]; auto. Qed.

(** ** Updating targets *)
Definition keeps_post (f : TargetRow → TargetRow) : Prop := ∀ t, t_post (f t) = t_post t.
Definition written (sel : Z → TargetRow → bool) (f : TargetRow → TargetRow) (e : Env) (k : Z)
    (t : TargetRow) : TargetRow :=
  if sel k t then reset_reconcile_schedule_on_publish_start e t (f t) else t.

Lemma reset_post e o t : t_post (reset_reconcile_schedule_on_publish_start e o t) = t_post t.
Proof. unfold reset_reconcile_schedule_on_publish_start. by destruct (_ && _). Qed.
Lemma reset_status e o t : t_status (reset_reconcile_schedule_on_publish_start e o t) = t_status t.
Proof. unfold reset_reconcile_schedule_on_publish_start. by destruct (_ && _). Qed.
Lemma reset_lease e o t : t_lease (reset_reconcile_schedule_on_publish_start e o t) = t_lease t.
Proof. unfold reset_reconcile_schedule_on_publish_start. by destruct (_ && _). Qed.

Section update_targets.
Context (sel : Z → TargetRow → bool) (f : TargetRow → TargetRow) (e : Env) (db : PostDB).
Let db' := (update_targets sel f e db).2.

Lemma update_targets_lookup k : targets db' !! k = written sel f e k <$> targets db !! k.
Proof.
  unfold db', update_targets. simpl. rewrite map_lookup_imap. by destruct (targets db !! k).
Qed.
Lemma update_targets_hit k t :
  targets db !! k = Some t → sel k t = true → (update_targets sel f e db).1 ≠ O.
Proof.
  intros Ht Hs. unfold update_targets. simpl. apply elem_of_map_to_list in Ht.
  assert (H : (k, t) ∈ List.filter (λ kt, sel kt.1 kt.2) (map_to_list (targets db))).
  { by rewrite list_elem_of_In, filter_In, <- list_elem_of_In. }
  destruct (List.filter _ _); [by apply elem_of_nil in H|done].
Qed.
Lemma update_targets_some :
  (update_targets sel f e db).1 ≠ O → ∃ k t, targets db !! k = Some t ∧ sel k t = true.
Proof.
  unfold update_targets. simpl.
  destruct (List.filter _ (map_to_list (targets db))) as [|[k t] l] eqn:E; [done|]. intros _.
  assert (H : (k, t) ∈ List.filter (λ kt, sel kt.1 kt.2) (map_to_list (targets db)))
    by (rewrite E; by left).
  rewrite list_elem_of_In, filter_In, <- list_elem_of_In, elem_of_map_to_list in H. eauto.
Qed.

Lemma update_targets_dirty p : is_Some (dirty db !! p) → is_Some (dirty db' !! p).
Proof.
  unfold db', update_targets. simpl. intros [x Hx]. exists x. by apply lookup_union_Some_l.
Qed.
Lemma update_targets_queued k t :
  targets db !! k = Some t → sel k t = true → t_status (f t) ≠ t_status t →
  is_Some (dirty db' !! t_post t).
Proof.
  intros Ht Hs Hne. unfold db', update_targets. simpl.
  apply lookup_union_is_Some. right. apply elem_of_dom. rewrite dom_list_to_map_L.
  apply elem_of_list_to_set. rewrite <- list_fmap_compose. apply list_elem_of_fmap.
  exists (t_post t). split; [done|]. apply list_elem_of_fmap. exists (k, t). split; [done|].
  rewrite !list_elem_of_In, !filter_In, <- !list_elem_of_In, elem_of_map_to_list.
  rewrite negb_true_iff, bool_decide_eq_false. naive_solver.
Qed.

Context (Hkeep : keeps_post f).
Lemma written_post k t : t_post (written sel f e k t) = t_post t.
Proof using Hkeep. unfold written. destruct (sel k t); [|done]. by rewrite reset_post. Qed.
Lemma update_targets_smap p :
  (∀ k t, targets db !! k = Some t → sel k t = true → t_post t = p →
     t_status (f t) = t_status t) →
  smap p (targets db') = smap p (targets db).
Proof using Hkeep.
  intros H. apply map_eq. intros k. unfold smap. rewrite !lookup_omap, update_targets_lookup.
  destruct (targets db !! k) as [t|] eqn:Ht; [|done]. simpl. rewrite written_post.
  destruct (t_post t =? p) eqn:Hp; [|done]. apply Z.eqb_eq in Hp. f_equal. unfold written.
  destruct (sel k t) eqn:Hs; [|done]. rewrite reset_status. by eapply H.
Qed.
Lemma update_targets_ok : db_ok db → db_ok db'.
Proof using Hkeep.
  intros [Hfk Hid Hts]. split; [| done |].
  - intros k t. rewrite update_targets_lookup. intros (t0 & Ht0 & ->)%fmap_Some.
    rewrite written_post. by eapply Hfk.
  - intros k. rewrite update_targets_lookup, fmap_is_Some. apply Hts.
Qed.

(** The posts whose targets changed are excused afterwards; with the queue they
    need no excuse. *)
Lemma update_targets_inv queue (X Y : Z → Prop) :
  (∀ p, X p → Y p) →
  (∀ k t, targets db !! k = Some t → sel k t = true → t_status (f t) ≠ t_status t →
     Y (t_post t) ∨ queue = true) →
  inv queue X db → inv queue Y db'.
Proof using Hkeep.
  intros HXY Hsel [Hok Hi]. split; [by apply update_targets_ok|]. intros p.
  assert (Hd : (∃ k t, targets db !! k = Some t ∧ sel k t = true ∧ t_post t = p ∧
                  t_status (f t) ≠ t_status t) ∨
               smap p (targets db') = smap p (targets db)).
  { destruct (decide (smap p (targets db') = smap p (targets db))) as [E|E]; [by right|left].
    destruct (decide (map_Exists (λ k t, sel k t = true ∧ t_post t = p ∧
                        t_status (f t) ≠ t_status t) (targets db))) as [(k & t & ? & ? & ? & ?)|Hn];
      [by exists k, t|].
    exfalso. apply E, update_targets_smap. intros k t Ht Hs Hp.
    destruct (decide (t_status (f t) = t_status t)); [done|]. exfalso. apply Hn.
    exists k, t. auto. }
  destruct Hd as [(k & t & Ht & Hs & <- & Hne)|E].
  - destruct (Hsel k t Ht Hs Hne) as [HY| ->]; [by right; left|]. right. right. split; [done|].
    by eapply update_targets_queued.
  - destruct (Hi p) as [Hf|[HX|[-> Hq]]]; [left|right; left; by apply HXY|right; right].
    + revert Hf. apply fresh_ext; [done|]. done.
    + split; [done|]. by apply update_targets_dirty.
Qed.
End update_targets.

(** ** The pieces of a transaction *)
Lemma triple_exec_status {A} ss op (f : Env → PostDB → A * PostDB) P Q :
  (∀ e s, P s → Q (f e s).1 (f e s).2) → triple P (exec_status ss op f) Q.
Proof.
  intros H. unfold exec_status. destruct (forallb _ _); [by apply triple_exec|].
  apply triple_throw.
Qed.
Lemma triple_read {A} op (g : PostDB → A) P :
  triple P (exec op (λ _ db, (g db, db))) (λ a s, P s ∧ a = g s).
Proof. by apply triple_exec. Qed.

Definition target_of (id p : Z) (db : PostDB) : Prop :=
  ∃ t, targets db !! id = Some t ∧ t_post t = p.
Lemma triple_postID id P :
  triple P (postIDForTargetTx id) (λ p s, P s ∧ target_of id p s).
Proof.
  unfold postIDForTargetTx. eapply triple_bind; [apply triple_read|]. intros [p|].
  - apply triple_ret. intros s [HP H]. split; [done|]. symmetry in H.
    apply fmap_Some in H as (t & Ht & ->). by exists t.
  - apply triple_throw.
Qed.
Lemma triple_lockTarget id P : triple P (lockTargetTx id) (λ _ s, P s).
Proof.
  unfold lockTargetTx. eapply triple_bind; [apply triple_read|]. intros [].
  - apply triple_ret. by intros s [? _].
  - apply triple_throw.
Qed.
Lemma triple_lockPost p P : triple P (lockPostTx p) (λ _ s, P s).
Proof.
  unfold lockPostTx. eapply triple_bind; [apply triple_read|]. intros [].
  - apply triple_ret. by intros s [? _].
  - apply triple_throw.
Qed.
Lemma triple_lockTargets p P : triple P (lockTargetsForPostTx p) (λ _ s, P s).
Proof. eapply triple_weaken; [apply triple_read|done|]. by intros a s [? _]. Qed.
Lemma triple_resolve p P :
  triple P (resolvePostStatusLockedTx p)
    (λ s db, P db ∧ resolve_statuses (post_statuses p db) = inr s).
Proof.
  unfold resolvePostStatusLockedTx. eapply triple_bind; [apply triple_read|]. intros l.
  destruct (resolve_statuses l) as [er|s] eqn:E; [apply triple_throw|].
  apply triple_ret. by intros db [? ->].
Qed.

(** Writing the resolved status makes the post fresh and touches no other. *)
Lemma update_post_status_inv queue X p s e db :
  resolve_statuses (post_statuses p db) = inr s →
  inv queue X db → inv queue (λ p', X p' ∧ p' ≠ p) (update_post_status p s e db).2.
Proof.
  intros Hs [[Hfk Hid Hts] Hi]. unfold update_post_status. simpl. split; [split|]; simpl.
  - intros k t Ht. apply lookup_alter_is_Some. by eapply Hfk.
  - intros p' q Hq. destruct (decide (p' = p)) as [->|Hne].
    + rewrite lookup_alter_eq in Hq. apply fmap_Some in Hq as (q0 & Hq0 & ->). simpl. by apply Hid.
    + rewrite lookup_alter_ne in Hq by done. by apply Hid.
  - done.
  - intros p'. destruct (decide (p' = p)) as [->|Hne].
    + left. intros q. simpl. rewrite lookup_alter_eq. intros (q0 & Hq0 & ->)%fmap_Some. done.
    + destruct (Hi p') as [Hf|[HX|Hq]]; [left|by right; left|by right; right].
      revert Hf. apply fresh_ext; [done|]. simpl. by rewrite lookup_alter_ne.
Qed.
Lemma triple_persist queue X p :
  triple (inv queue X) (persistAggregatePostStatusLockedTx p)
    (λ _, inv queue (λ p', X p' ∧ p' ≠ p)).
Proof.
  unfold persistAggregatePostStatusLockedTx. eapply triple_bind; [apply triple_resolve|].
  intros s. apply triple_exec_status. intros e db [Hi Hs]. by apply update_post_status_inv.
Qed.

(** The update of one target in a transaction: its parent is excused if it was
    matched. *)
Lemma triple_update_row queue id p (guard : Env → TargetRow → bool)
    (f : Env → TargetRow → TargetRow) ss op :
  (∀ e, keeps_post (f e)) →
  triple (λ s, inv queue none s ∧ target_of id p s)
    (exec_status ss op (λ e, update_targets (row id (guard e)) (f e) e))
    (λ k, inv queue (λ p', p' = p ∧ k ≠ O)).
Proof.
  intros Hf. apply triple_exec_status. intros e s [Hi (t & Ht & Hp)].
  apply (update_targets_inv _ _ e s (Hf e) queue none); [by unfold none| |exact Hi].
  intros k t' Ht' Hs _. left. unfold row in Hs. apply andb_true_iff in Hs as [Hk Hg].
  apply Z.eqb_eq in Hk as ->. simplify_eq. split; [done|].
  eapply update_targets_hit; [exact Ht|]. unfold row. by rewrite Z.eqb_refl.
Qed.
Lemma triple_rows_inv queue p op k :
  triple (inv queue (λ p', p' = p ∧ k ≠ O)) (rows_affected op k)
    (λ j s, inv queue (λ p', p' = p ∧ j ≠ O) s).
Proof. eapply triple_weaken; [apply triple_rows|done|]. by intros j s [-> ?]. Qed.
Lemma triple_finish queue p (n : nat) (m : M PostDB unit) :
  triple (inv queue none) m (λ _, inv queue none) →
  triple (inv queue (λ p', p' = p ∧ n ≠ O))
    (if bool_decide (n = O) then m else persistAggregatePostStatusLockedTx p)
    (λ _, inv queue none).
Proof.
  intros Hm. case_bool_decide as Hn.
  - eapply triple_weaken; [exact Hm| |done]. intros s. apply inv_weaken. by intros p2 [_ Hne].
  - eapply triple_weaken; [apply triple_persist|done|]. intros a s. apply inv_weaken.
    unfold none. intros q [[-> _] ?]. done.
Qed.
Lemma triple_stale id P Q : triple P (stale_or_missing id) Q.
Proof.
  unfold stale_or_missing. eapply triple_bind; [apply triple_read|]. intros [c|].
  - destruct (IsTerminal c); apply triple_throw.
  - apply triple_throw.
Qed.

(** A method that runs one body in a transaction keeps the invariant. *)
Definition keeps (queue : bool) {A} (m : M PostDB A) : Prop :=
  respects (λ s s', inv queue none s → inv queue none s') m.
Lemma keeps_tx queue op body :
  triple (inv queue none) body (λ _, inv queue none) → keeps queue (tx op body).
Proof.
  intros H. apply transact_invariant. eapply triple_bind; [exact H|]. intros [].
  by apply triple_ret.
Qed.
Lemma exec_as_status {A} op (f : Env → PostDB → A * PostDB) : exec op f = exec_status [] op f.
Proof. done. Qed.

Lemma triple_stuck {A B} P (m : M PostDB A) (k : A → M PostDB B) (Q : B → PostDB → Prop) :
  (∀ a, triple (λ _, True) (k a) Q) → triple P (m ≫= k) Q.
Proof.
  intros H. eapply triple_bind; [|exact H]. by intros e s n a s' n' _ _.
Qed.

(** Walk through the body of a transaction on one target. *)
Ltac body_step :=
  match goal with
  | |- triple _ (postIDForTargetTx _ ≫= _) _ => eapply triple_bind; [apply triple_postID|intros ?]
  | |- triple _ (lockTargetTx _ ≫= _) _ => eapply triple_bind; [apply triple_lockTarget|intros ?]
  | |- triple _ (lockPostTx _ ≫= _) _ => eapply triple_bind; [apply triple_lockPost|intros ?]
  | |- triple _ (lockTargetsForPostTx _ ≫= _) _ =>
      eapply triple_bind; [apply triple_lockTargets|intros ?]
  | |- triple _ (map_err _ (lockPostTx _) ≫= _) _ =>
      eapply triple_bind; [apply triple_map_err, triple_lockPost|intros ?]
  | |- triple _ (map_err _ (lockTargetsForPostTx _) ≫= _) _ =>
      eapply triple_bind; [apply triple_map_err, triple_lockTargets|intros ?]
  | |- triple _ (raw (exec _ _) ≫= _) _ =>
      eapply triple_bind; [apply triple_map_err; rewrite exec_as_status;
        apply triple_update_row; done|intros ?]
  | |- triple _ (exec _ _ ≫= _) _ =>
      eapply triple_bind; [rewrite exec_as_status; apply triple_update_row; done|intros ?]
  | |- triple _ (exec_status _ _ _ ≫= _) _ =>
      eapply triple_bind; [apply triple_update_row; done|intros ?]
  | |- triple _ (rows_affected _ _ ≫= _) _ =>
      eapply triple_bind; [apply triple_rows_inv|intros ?]
  | |- triple _ (map_err _ (rows_affected _ _) ≫= _) _ =>
      eapply triple_bind; [apply triple_map_err, triple_rows_inv|intros ?]
  | |- triple _ (if bool_decide (?n = O) then _ else persistAggregatePostStatusLockedTx _) _ =>
      apply triple_finish
  | |- triple _ (stale_or_missing _) _ => apply triple_stale
  | |- triple _ (throw _) _ => apply triple_throw
  | |- triple _ (mret tt) _ => by apply triple_ret
  end.

Lemma UpdateStatus_keeps queue u : keeps queue (UpdateStatus u).
Proof.
  destruct u as [u|]; simpl; [|apply respects_throw, _].
  apply keeps_tx. unfold updateTargetStatusTx. repeat body_step.
Qed.
Lemma SetTargetStatus_keeps queue id s m : keeps queue (SetTargetStatus id s m).
Proof.
  unfold SetTargetStatus. destruct (_ <=? _); [apply respects_throw, _|].
  destruct (negb _); [apply respects_throw, _|].
  apply keeps_tx. repeat body_step.
Qed.

Lemma require_owner_keeps queue name o {A} (m : M PostDB A) :
  keeps queue m → keeps queue (require_owner name o m).
Proof. intros H. unfold require_owner. case_bool_decide; [apply respects_throw, _|done]. Qed.
Lemma require_ttl_keeps queue name l {A} (m : M PostDB A) :
  keeps queue m → keeps queue (require_ttl name l m).
Proof. intros H. unfold require_ttl. destruct (_ <=? _); [apply respects_throw, _|done]. Qed.

Lemma mutateLeasedTarget_keeps queue id guard f :
  (∀ e, keeps_post (f e)) →
  keeps queue (mutateLeasedTarget id (λ e, update_targets (row id (guard e)) (f e) e)).
Proof. intros Hf. apply keeps_tx. unfold mutateLeasedTargetTx. repeat body_step. Qed.
Lemma MarkDeadLetter_keeps queue id o m : keeps queue (MarkDeadLetter id o m).
Proof. by apply require_owner_keeps, mutateLeasedTarget_keeps. Qed.
Lemma MarkRetrying_keeps queue id o m t : keeps queue (MarkRetrying id o m t).
Proof. by apply require_owner_keeps, (mutateLeasedTarget_keeps _ _ (λ _, _) (λ _, _)). Qed.
Lemma MarkRateLimitedRetry_keeps queue id o t m :
  keeps queue (MarkRateLimitedRetryWithLease id o t m).
Proof. by apply require_owner_keeps, (mutateLeasedTarget_keeps _ _ (λ _, _) (λ _, _)). Qed.
Lemma MarkRateLimited_keeps queue id o t : keeps queue (MarkRateLimited id o t).
Proof. by apply require_owner_keeps, (mutateLeasedTarget_keeps _ _ (λ _, _) (λ _, _)). Qed.
Lemma MarkDriveRequiredFailed_keeps queue id m : keeps queue (MarkDriveRequiredFailed id m).
Proof.
  apply keeps_tx. unfold markDriveRequiredFailedTx. repeat body_step.
  eapply triple_bind; [apply triple_read|]. intros [c|]; apply triple_throw.
Qed.
Lemma UpdateStatusWithLease_keeps queue u o : keeps queue (UpdateStatusWithLease u o).
Proof.
  destruct u as [u|]; simpl; [|apply respects_throw, _].
  case_bool_decide; [apply respects_throw, _|]. apply keeps_tx. repeat body_step.
Qed.
Lemma UpdateReconcileStatus_keeps queue u o : keeps queue (UpdateReconcileStatusWithLease u o).
Proof.
  destruct u as [u|]; simpl; [|apply respects_throw, _].
  case_bool_decide; [apply respects_throw, _|]. apply keeps_tx. repeat body_step.
Qed.
Lemma RetryTarget_keeps queue id : keeps queue (RetryTarget id).
Proof. apply keeps_tx. unfold resetTargetAndAggregateTx. repeat body_step. Qed.

Lemma claimTargetTx_triple queue id guard f :
  (∀ e, keeps_post (f e)) →
  triple (inv queue none) (claimTargetTx id (λ e, update_targets (row id (guard e)) (f e) e))
    (λ _, inv queue none).
Proof. intros Hf. unfold claimTargetTx. repeat body_step. Qed.
Lemma claim_tx_keeps queue op op' id p guard f g :
  (∀ e, keeps_post (f e)) →
  keeps queue (transact op (
    found ← exec op' (select_target id p);
    if (found : bool) then
      _ ← map_err g (claimTargetTx id (λ e, update_targets (row id (guard e)) (f e) e));
      mret (Commit true)
    else mret (Rollback false))).
Proof.
  intros Hf. apply transact_invariant. eapply triple_bind.
  { apply (triple_exec _ _ _ (λ _, inv queue none)). by intros e s Hs. }
  intros []; [|by apply triple_ret].
  eapply triple_bind; [by apply triple_map_err, claimTargetTx_triple|]. intros ?. by apply triple_ret.
Qed.
Lemma ClaimQueued_keeps queue id o l : keeps queue (ClaimQueuedTargetWithLease id o l).
Proof.
  apply require_owner_keeps, require_ttl_keeps.
  by apply (claim_tx_keeps _ _ _ _ _ (λ _, _) (λ e, _)).
Qed.
Lemma ClaimWaiting_keeps queue id : keeps queue (ClaimWaitingProviderTarget id).
Proof. by apply (claim_tx_keeps _ _ _ _ _ (λ _, _) (λ _, _)). Qed.

(** Statements that do not change statuses. *)
Lemma quiet_keeps queue {A B} op (sel : Env → Z → TargetRow → bool) f (g : Env → PostDB → nat → A)
    (k : A → M PostDB B) :
  (∀ e, keeps_post (f e)) → (∀ e t, t_status (f e t) = t_status t) →
  (∀ a, respects eq (k a)) →
  keeps queue (exec op (λ e s, (g e s (update_targets (sel e) (f e) e s).1,
                                (update_targets (sel e) (f e) e s).2)) ≫= k).
Proof.
  intros Hf Hs Hk. apply respects_bind; [apply _| |].
  - apply respects_exec; [apply _|]. intros e s. simpl.
    apply update_targets_inv; [done|done|]. intros k' t _ _ []. apply Hs.
  - intros a e s n. by rewrite <- (Hk a e s n).
Qed.
Lemma exec_eta {A} op (f : Env → PostDB → A * PostDB) :
  (∀ e s, exec op f e s = exec op (λ e s, ((f e s).1, (f e s).2)) e s).
Proof. intros e [s n]. unfold exec. destruct (fault e n); by destruct (f e s). Qed.
Lemma quiet_exec_keeps queue {B} op (sel : Env → Z → TargetRow → bool) f (k : nat → M PostDB B) :
  (∀ e, keeps_post (f e)) → (∀ e t, t_status (f e t) = t_status t) →
  (∀ a, respects eq (k a)) →
  keeps queue (exec op (λ e, update_targets (sel e) (f e) e) ≫= k).
Proof.
  intros Hf Hs Hk e s n.
  pose proof (quiet_keeps queue op sel f (λ _ _ n, n) k Hf Hs Hk e s n) as H.
  unfold mbind, M_bind in *. rewrite exec_eta. exact H.
Qed.

Lemma exec_reconcile_keeps queue op what id o sel f :
  (∀ e, keeps_post (f e)) → (∀ e t, t_status (f e t) = t_status t) →
  keeps queue (exec_reconcile op what id o (λ e, update_targets (sel e) (f e) e)).
Proof. intros Hf Hs. apply quiet_exec_keeps; [done|done|]. intros a. respects_tac. Qed.
Lemma ClaimPublishing_keeps queue id o l : keeps queue (ClaimPublishingTarget id o l).
Proof.
  unfold ClaimPublishingTarget. destruct (validateReconcileLease o l) as [er|n];
    [apply respects_throw, _|].
  apply (quiet_exec_keeps _ _ (λ e, _) (λ e, _)); [done|done|]. intros a. respects_tac.
Qed.
Lemma HeartbeatReconcile_keeps queue id o l : keeps queue (HeartbeatReconcileTarget id o l).
Proof.
  unfold HeartbeatReconcileTarget. destruct (validateReconcileLease o l) as [er|n];
    [apply respects_throw, _|].
  by apply (exec_reconcile_keeps _ _ _ _ _ (λ e, _) (λ e, _)).
Qed.
Lemma ReleaseReconcile_keeps queue id o : keeps queue (ReleaseReconcileTarget id o).
Proof.
  unfold ReleaseReconcileTarget. case_bool_decide; [apply respects_throw, _|].
  by apply (exec_reconcile_keeps _ _ _ _ _ (λ e, _) (λ e, _)).
Qed.
Lemma ScheduleNextWithLease_keeps queue id o n t b c m :
  keeps queue (ScheduleNextReconcileWithLease id o n t b c m).
Proof.
  unfold ScheduleNextReconcileWithLease. repeat (case_match; [apply respects_throw, _|]).
  by apply (exec_reconcile_keeps _ _ _ _ _ (λ e, _) (λ e, _)).
Qed.
Lemma ScheduleNext_keeps queue id o n t : keeps queue (ScheduleNextReconcile id o n t).
Proof.
  unfold ScheduleNextReconcile. repeat (case_match; [apply respects_throw, _|]).
  apply (quiet_exec_keeps _ _ (λ e, _) (λ e, _)); [done|done|]. intros a. respects_tac.
Qed.
Lemma UpdatePublishProgress_keeps queue id o off s l :
  keeps queue (UpdatePublishProgress id o off s l).
Proof.
  apply require_owner_keeps, require_ttl_keeps.
  apply (quiet_exec_keeps _ _ (λ e, _) (λ e, _)); [done|done|]. intros a. respects_tac.
Qed.
Lemma ReleaseLease_keeps queue id o : keeps queue (ReleaseLease id o).
Proof.
  apply require_owner_keeps.
  apply (quiet_exec_keeps _ _ (λ e, _) (λ e, _)); [done|done|]. intros a. respects_tac.
Qed.
Lemma MarkDeliveryDispatchFailed_keeps queue id c : keeps queue (MarkDeliveryDispatchFailed id c).
Proof.
  unfold MarkDeliveryDispatchFailed. repeat (case_match; [apply respects_throw, _|]).
  apply (quiet_exec_keeps _ _ (λ e, _) (λ e, _)); [done|done|]. intros a. respects_tac.
Qed.
Lemma SetProviderKey_keeps queue id key : keeps queue (SetProviderIdempotencyKey id key).
Proof.
  unfold SetProviderIdempotencyKey. case_bool_decide; [apply respects_throw, _|].
  apply respects_bind; [apply _| |].
  - apply respects_exec; [apply _|]. intros e s. unfold qUpdateTargetProviderIdempotencyKey.
    destruct (key_taken id key s); [done|].
    pose proof (update_targets_inv (row id (λ _, true)) (λ t, let p := t_provider t in
      with_provider (mkProviderData (platform_post_id p) (error_message p) (published_at p)
        (completed_at p) (provider_state p) (container_id p) (Some key) (upload_offset p)) t) e s)
      as Hinv.
    destruct (update_targets _ _ e s) as [k s']. simpl in *. apply Hinv; [done|done|].
    by intros k' t _ _ [].
  - intros [k|]; respects_tac.
Qed.

(** Resets of all targets of a post. *)
Lemma reset_keeps queue p op g (sel : Z → TargetRow → bool) s :
  (∀ k t, sel k t = true → t_post t = p) →
  triple (inv queue none)
    (map_err g (resetPostTargetsAndAggregateTx p (update_targets sel (reset_to s))))
    (λ _, inv queue none) ∧
  keeps queue (tx op (resetPostTargetsAndAggregateTx p (update_targets sel (reset_to s)))).
Proof.
  intros Hsel.
  assert (H : triple (inv queue none)
    (resetPostTargetsAndAggregateTx p (update_targets sel (reset_to s))) (λ _, inv queue none)).
  { unfold resetPostTargetsAndAggregateTx. do 2 body_step. eapply triple_bind.
    - apply (triple_exec _ (update_targets sel (reset_to s)) (inv queue none) (λ _, inv queue (λ q, q = p))). intros e db Hi. cbv beta.
      apply (update_targets_inv sel (reset_to s) e db (λ t, eq_refl) queue none); [by unfold none| |exact Hi].
      intros k t _ Hs _. left. by eapply Hsel.
    - intros k. eapply triple_weaken; [apply triple_persist|done|]. intros [] db.
      apply inv_weaken. unfold none. by intros q [-> ?]. }
  split; [by apply triple_map_err|by apply keeps_tx].
Qed.
Lemma PublishPost_keeps queue p : keeps queue (PublishPost p).
Proof.
  apply (reset_keeps queue p _ id (λ _ t, t_post t =? p)). by intros k t ->%Z.eqb_eq.
Qed.
Lemma CancelPost_keeps queue p : keeps queue (CancelPost p).
Proof.
  apply keeps_tx. apply (reset_keeps queue p "" _ (λ _ t, (t_post t =? p) && _)).
  by intros k t [->%Z.eqb_eq _]%andb_true_iff.
Qed.
Lemma RetryPost_keeps queue p : keeps queue (RetryPost p).
Proof.
  apply (reset_keeps queue p _ id (λ _ t, (t_post t =? p) && _)).
  by intros k t [->%Z.eqb_eq _]%andb_true_iff.
Qed.

(** The loops. *)
Definition target_here (x : Z * Z) (db : PostDB) : Prop := target_of x.1 x.2 db.
Definition posts_kept (db db' : PostDB) : Prop :=
  ∀ k t, targets db !! k = Some t → ∃ t', targets db' !! k = Some t' ∧ t_post t' = t_post t.
Lemma update_targets_posts sel f e db :
  keeps_post f → posts_kept db (update_targets sel f e db).2.
Proof.
  intros Hf k t Ht. rewrite update_targets_lookup, Ht. eexists. split; [done|].
  by apply written_post.
Qed.
Lemma target_of_kept id p db db' : posts_kept db db' → target_of id p db → target_of id p db'.
Proof. intros H (t & Ht & <-). destruct (H id t Ht) as (t' & ? & ?). by exists t'. Qed.

Lemma triple_frame {A} P (m : M PostDB A) Q F :
  triple P m Q → (∀ s s', F s → posts_kept s s' → F s') → respects posts_kept m →
  triple (λ s, P s ∧ F s) m (λ a s, Q a s ∧ F s).
Proof.
  intros Hm HF Hk e s n a s' n' [Hs Hfs] Hrun. split; [by eapply Hm|].
  eapply HF; [done|]. specialize (Hk e s n). by rewrite Hrun in Hk.
Qed.
#[export] Instance posts_kept_preorder : PreOrder posts_kept.
Proof.
  split; [intros db k t Ht; by exists t|]. intros d1 d2 d3 H1 H2 k t Ht.
  destruct (H1 k t Ht) as (t2 & Ht2 & E). destruct (H2 k t2 Ht2) as (t3 & Ht3 & E3).
  exists t3. split; [done|congruence].
Qed.
Lemma posts_kept_refl_targets db db' : targets db' = targets db → posts_kept db db'.
Proof. intros E k t Ht. rewrite E. by exists t. Qed.
Lemma exec_status_posts {A} ss op (f : Env → PostDB → A * PostDB) :
  (∀ e s, posts_kept s (f e s).2) → respects posts_kept (exec_status ss op f).
Proof.
  intros H. unfold exec_status. destruct (forallb _ _); [|apply respects_throw, _].
  by apply respects_exec; [apply _|].
Qed.
Lemma persist_posts p : respects posts_kept (persistAggregatePostStatusLockedTx p).
Proof.
  unfold persistAggregatePostStatusLockedTx, resolvePostStatusLockedTx. respects_tac.
  - apply respects_exec; [apply _|]. intros e s. reflexivity.
  - apply exec_status_posts. intros e s. by apply posts_kept_refl_targets.
Qed.
Lemma lockPost_posts p : respects posts_kept (lockPostTx p).
Proof. unfold lockPostTx. respects_tac. apply respects_exec; [apply _|]. intros e s. reflexivity. Qed.

Lemma reclaim_loop_triple queue w l : ∀ n,
  triple (λ s, inv queue none s ∧ Forall (λ x, target_here x s) l) (reclaim_loop w l n)
    (λ _, inv queue none).
Proof.
  induction l as [|[id p] l IH]; intros n; simpl.
  { apply triple_ret. by intros s [? _]. }
  set (F := λ s, Forall (λ x, target_here x s) l).
  assert (HF : ∀ s s', F s → posts_kept s s' → F s').
  { intros s s' H Hk. eapply Forall_impl; [exact H|]. intros x. by apply target_of_kept. }
  eapply triple_weaken with (P' := λ s, (inv queue none s ∧ target_of id p s) ∧ F s) (Q' := λ _, _);
    [| |done].
  2: { intros s [Hi Hl]. apply Forall_cons in Hl as [Ht Hl]. done. }
  eapply triple_bind.
  { apply triple_frame; [apply triple_lockPost|exact HF|apply lockPost_posts]. }
  intros []. eapply triple_bind.
  { apply triple_frame; [|exact HF|].
    - rewrite exec_as_status. by apply (triple_update_row queue id p (λ _, _) (λ e, _)).
    - apply respects_exec; [apply _|]. intros e s. by apply update_targets_posts. }
  intros k. eapply triple_bind.
  { apply triple_frame; [apply triple_map_err, triple_rows_inv|exact HF|].
    apply respects_map_err, respects_rows, _. }
  intros j. case_bool_decide as Hj.
  - eapply triple_weaken; [apply IH| |done]. intros s [Hi Hl]. split; [|done].
    revert Hi. apply inv_weaken. by intros p2 [_ ?].
  - eapply triple_bind.
    { apply triple_frame; [apply triple_persist|exact HF|apply persist_posts]. }
    intros []. eapply triple_weaken; [apply IH| |done]. intros s [Hi Hl]. split; [|done].
    revert Hi. apply inv_weaken. by intros p2 [[-> _] ?].
Qed.
Lemma ReclaimExpiredLeases_keeps queue w : keeps queue (ReclaimExpiredLeases w).
Proof.
  apply transact_invariant. eapply triple_bind.
  - apply (triple_exec _ _ _ (λ l s, inv queue none s ∧ Forall (λ x, target_here x s) l)).
    intros e s Hi. split; [done|]. simpl. unfold qSelectExpiredLeaseTargets.
    apply Forall_forall. intros x Hx. apply list_elem_of_fmap in Hx as ([k t] & -> & Hx).
    rewrite sort_by_perm, list_elem_of_In, filter_In, <- list_elem_of_In in Hx.
    destruct Hx as [Hx%elem_of_map_to_list _]. by exists t.
  - intros l. eapply triple_bind; [apply reclaim_loop_triple|]. intros n. by apply triple_ret.
Qed.

Lemma recompute_loop_triple queue pre l : ∀ X,
  (∀ p, X p → p ∈ l) →
  triple (inv queue X) (recompute_loop pre l) (λ _, inv queue none).
Proof.
  induction l as [|p l IH]; intros X HX; simpl.
  { apply triple_ret. intros s. apply inv_weaken. intros p Hp. apply HX in Hp.
    by apply elem_of_nil in Hp. }
  eapply triple_bind.
  - apply triple_map_err. do 2 body_step. apply triple_persist.
  - intros []. apply IH. intros p' [Hp Hne]. apply HX in Hp.
    by apply elem_of_cons in Hp as [->|?].
Qed.
Lemma CancelFutureJobs_keeps queue a : keeps queue (tx "disconnect platform account" (cancelFutureJobsTx a)).
Proof.
  apply keeps_tx. unfold cancelFutureJobsTx. eapply triple_bind.
  - apply (triple_exec _ _ _ (λ l, inv queue (λ p, p ∈ l))). intros e s Hi. cbv beta.
    unfold qCancelFutureJobsForAccount. cbn [fst snd].
    apply (update_targets_inv _ (reset_to "draft") e s (λ t, eq_refl) queue none); [by unfold none| |exact Hi].
    intros k t Ht Hs _. left. apply list_elem_of_fmap. exists (k, t). split; [done|].
    rewrite list_elem_of_In, filter_In, <- list_elem_of_In. by rewrite elem_of_map_to_list.
  - intros l. apply recompute_loop_triple. intros p. by rewrite elem_of_remove_dups.
Qed.

(** ** Repairs *)
Lemma update_post_status_fresh p s e db :
  resolve_statuses (post_statuses p db) = inr s → fresh p (update_post_status p s e db).2.
Proof.
  intros Hs q. simpl. rewrite lookup_alter_eq. by intros (q0 & Hq0 & ->)%fmap_Some.
Qed.
Lemma triple_persist_fresh queue p :
  triple (inv queue none) (persistAggregatePostStatusLockedTx p)
    (λ _ s, inv queue none s ∧ fresh p s).
Proof.
  unfold persistAggregatePostStatusLockedTx. eapply triple_bind; [apply triple_resolve|].
  intros s. apply triple_exec_status. intros e db [Hi Hs]. split.
  - eapply inv_weaken, update_post_status_inv; [|done|exact Hi]. by intros p' [[] ?].
  - by apply update_post_status_fresh.
Qed.
Lemma inv_dequeue queue p db :
  fresh p db → inv queue none db → inv queue none (with_dirty (delete p (dirty db)) db).
Proof.
  intros Hf [[? ? ?] Hi]. split; [done|]. intros p'.
  destruct (decide (p' = p)) as [->|Hne]; [by left|].
  destruct (Hi p') as [?|[?|[? ?]]]; [by left|done|]. right. right. split; [done|].
  simpl. by rewrite lookup_delete_ne.
Qed.
Lemma RepairDirty_keeps queue p : keeps queue (RepairDirtyAggregatePost p).
Proof.
  unfold RepairDirtyAggregatePost. destruct (p <=? 0); [apply respects_throw, _|].
  apply transact_invariant. do 2 body_step. eapply triple_bind; [apply triple_read|].
  intros []; [|by apply triple_ret].
  eapply triple_bind.
  { eapply triple_weaken; [apply triple_map_err, (triple_persist_fresh queue)| |done].
    by intros s [? _]. }
  intros []. eapply triple_bind.
  { apply (triple_exec _ _ _ (λ _, inv queue none)). intros e s [Hi Hf]. by apply inv_dequeue. }
  intros []. by apply triple_ret.
Qed.
Lemma update_resolved queue p s ss op :
  triple (λ db, inv queue none db ∧ resolve_statuses (post_statuses p db) = inr s)
    (exec_status ss op (update_post_status p s)) (λ _, inv queue none).
Proof.
  apply triple_exec_status. intros e db [Hi Hs].
  eapply inv_weaken, update_post_status_inv; [|done|exact Hi]. by intros p' [[] ?].
Qed.
Lemma RepairAggregateStatusForPost_keeps queue p : keeps queue (RepairAggregateStatusForPost p).
Proof.
  unfold RepairAggregateStatusForPost. destruct (p <=? 0); [apply respects_throw, _|].
  apply transact_invariant. body_step. eapply triple_bind; [apply triple_read|].
  intros [old|]; [|apply triple_throw].
  eapply triple_bind.
  { eapply triple_weaken; [apply triple_map_err, (triple_resolve p (inv queue none))| |done].
    by intros s [? _]. }
  intros s. eapply triple_bind with (Q := λ _, inv queue none); [|intros []; by apply triple_ret].
  destruct (negb _); [apply update_resolved|]. apply triple_ret. by intros db [? _].
Qed.
Lemma repair_one_keeps queue p : keeps queue (repair_one p).
Proof.
  apply transact_invariant. body_step. eapply triple_bind; [apply triple_read|].
  intros [old|]; [|by apply triple_ret].
  eapply triple_bind.
  { eapply triple_weaken; [apply triple_map_err, (triple_resolve p (inv queue none))| |done].
    by intros s [? _]. }
  intros s. case_bool_decide; [by apply triple_ret; intros db [? _]|].
  eapply triple_bind; [apply update_resolved|]. intros []. by apply triple_ret.
Qed.
Lemma RepairAggregateStatuses_keeps queue : keeps queue RepairAggregateStatuses.
Proof.
  apply respects_bind; [apply _| |].
  - by apply respects_exec; [apply _|].
  - intros l. generalize O. induction l as [|p l IH]; intros n; simpl; [by apply respects_ret, _|].
    apply respects_bind; [apply _|apply repair_one_keeps|]. intros k. apply IH.
Qed.

(** ** Deleting, editing, inserting *)
Lemma smap_filter p id m :
  p ≠ id → smap p (filter (λ kt : Z * TargetRow, t_post kt.2 ≠ id) m) = smap p m.
Proof.
  intros Hne. apply map_eq. intros k. unfold smap. rewrite !lookup_omap, map_lookup_filter.
  destruct (m !! k) as [t|]; [|done]. simpl.
  destruct (decide (t_post t = id)) as [->|Hp]; [by rewrite option_guard_False, (proj2 (Z.eqb_neq _ _)) by auto|].
  by rewrite option_guard_True.
Qed.
Lemma Delete_keeps queue id : keeps queue (Delete id).
Proof.
  apply respects_exec; [apply _|]. intros e s [[Hfk Hid Hts] Hi]. simpl. split; [split|]; simpl.
  - intros k t [Ht Hp]%map_lookup_filter_Some. simpl in Hp.
    rewrite lookup_delete_ne by done. by eapply Hfk.
  - intros p q [Hne Hq]%lookup_delete_Some. by apply Hid.
  - intros k [t [Ht _]%map_lookup_filter_Some]. apply Hts. by exists t.
  - intros p. destruct (decide (p = id)) as [->|Hne].
    + left. intros q. simpl. by rewrite lookup_delete_eq.
    + destruct (Hi p) as [Hf|[?|[? ?]]]; [left|done|right; right].
      * revert Hf. apply fresh_ext; simpl; [by apply smap_filter|by rewrite lookup_delete_ne].
      * split; [done|]. simpl. by rewrite lookup_delete_ne.
Qed.

Lemma Update_keeps queue p e s n :
  (∀ q, posts s !! post_ID p = Some q → post_Status p = post_Status q) →
  inv queue none s → inv queue none (state_of (Update p e (s, n))).
Proof.
  intros Hst Hi.
  assert (Hu : inv queue none (qUpdatePost p e s).2).
  { destruct Hi as [[Hfk Hid Hts] Hi]. unfold qUpdatePost, update_row.
    destruct (posts s !! post_ID p) as [q|] eqn:Hq; [|by destruct s].
    destruct (post_WorkspaceID q =? post_WorkspaceID p); [|by destruct s]. simpl.
    split; [split|]; simpl.
    - intros k t Ht. apply lookup_insert_is_Some'. right. by eapply Hfk.
    - intros p' q' [[<- <-]|[Hne Hq']]%lookup_insert_Some; simpl; by apply Hid.
    - done.
    - intros p'. destruct (Hi p') as [Hf|[?|?]]; [left|done|by right; right].
      revert Hf. apply fresh_ext; [done|]. simpl.
      destruct (decide (post_ID p = p')) as [<-|Hne]; [|by rewrite lookup_insert_ne].
      rewrite lookup_insert_eq, Hq. simpl. f_equal. by apply Hst. }
  unfold Update, exec_status. destruct (forallb _ _); [|done].
  unfold mbind, M_bind, map_err, rows_affected, exec, state_of.
  destruct (qUpdatePost p e s) as [k s'] eqn:E. simpl in Hu.
  destruct (fault e n); simpl; rewrite ?E; [|done..].
  destruct (fault e (S n)); simpl; [|done..]. by case_bool_decide.
Qed.

Lemma smap_insert_new p k t m :
  m !! k = None →
  smap p (<[k := t]> m) = if t_post t =? p then <[k := t_status t]> (smap p m) else smap p m.
Proof.
  intros Hk. apply map_eq. intros k'. destruct (decide (k' = k)) as [->|Hne].
  - unfold smap. rewrite lookup_omap, lookup_insert_eq. simpl. destruct (t_post t =? p).
    + by rewrite lookup_insert_eq.
    + by rewrite lookup_omap, Hk.
  - destruct (t_post t =? p); rewrite ?lookup_insert_ne by done; unfold smap;
      by rewrite !lookup_omap, lookup_insert_ne.
Qed.
Lemma target_serial_fresh db : db_ok db → targets db !! target_serial db = None.
Proof.
  intros [_ _ Hts]. apply eq_None_not_Some. intros H. specialize (Hts _ H). lia.
Qed.

(** One inserted target: its parent is excused, its status joins those of the
    parent, and the parent is queued. *)
Lemma insert_target_step queue X p a st e db id db' :
  qInsertPostTarget p a st e db = (Inserted id, db') → inv queue X db →
  inv queue (λ p', X p' ∨ p' = p) db' ∧
  post_statuses p db' ≡ₚ st :: post_statuses p db ∧ is_Some (dirty db' !! p) ∧
  id = target_serial db ∧ posts db' = posts db ∧ outbox db' = outbox db ∧
  targets db' = <[id := new_target p a st e]> (targets db) ∧
  target_serial db' = target_serial db + 1 ∧ post_serial db' = post_serial db.
Proof.
  unfold qInsertPostTarget. destruct (existsb _ _); [done|]. case_bool_decide as Hp; [done|].
  intros [= <- <-] [Hok Hi]. pose proof (target_serial_fresh db Hok) as Hfresh.
  assert (Hm : ∀ p', smap p' (<[target_serial db := new_target p a st e]> (targets db)) =
    if p =? p' then <[target_serial db := st]> (smap p' (targets db)) else smap p' (targets db)).
  { intros p'. by rewrite smap_insert_new. }
  split; [|split; [|split; [|done]]].
  - destruct Hok as [Hfk Hid Hts]. split; [split|]; simpl.
    + intros k t [[<- <-]|[_ Ht]]%lookup_insert_Some; simpl; [|by eapply Hfk].
      by apply not_eq_None_Some.
    + done.
    + intros k [t [[<- _]|[_ Ht]]%lookup_insert_Some]; [lia|].
      assert (k < target_serial db) by (apply Hts; by exists t). lia.
    + intros p'. destruct (decide (p' = p)) as [->|Hne]; [by right; left; right|].
      destruct (Hi p') as [Hf|[HX|[-> Hq]]]; [left|by right; left; left|right; right].
      * revert Hf. apply fresh_ext; [|done]. simpl. rewrite Hm.
        by rewrite (proj2 (Z.eqb_neq _ _)) by done.
      * split; [done|]. destruct Hq as [x Hx]. exists x. simpl. by apply lookup_union_Some_l.
  - rewrite !post_statuses_perm. simpl. rewrite Hm, Z.eqb_refl, map_to_list_insert; [done|].
    unfold smap. by rewrite lookup_omap, Hfresh.
  - simpl. apply lookup_union_is_Some. right. by rewrite lookup_insert_eq.
Qed.

(** What holds while the targets of a new post [p] are inserted. *)
Definition creating (queue : bool) (p : Z) (st : string) (done_ : list string) (db : PostDB) : Prop :=
  inv queue (λ p', p' = p) db ∧ post_Status <$> posts db !! p = Some st ∧
  post_statuses p db ≡ₚ done_ ∧ (done_ ≠ [] → is_Some (dirty db !! p)).

Lemma insert_targets_triple queue p st l : ∀ done_,
  triple (creating queue p st done_) (insert_targets p l)
    (λ _, creating queue p st (rev (n_Status <$> l) ++ done_)).
Proof.
  induction l as [|t l IH]; intros done_; simpl; [by apply triple_ret|].
  eapply triple_bind with (Q := λ _, creating queue p st (n_Status t :: done_)).
  - unfold insert_target. eapply triple_bind with (Q := λ r s,
      match r with Inserted _ => creating queue p st (n_Status t :: done_) s | _ => True end).
    + apply triple_exec_status. intros e s (Hi & Hst & Hp & Hd).
      destruct (qInsertPostTarget p _ _ e s) as [[id| |] s'] eqn:E; simpl; [|done..].
      destruct (insert_target_step queue _ p _ _ e s id s' E Hi) as (Hi' & Hp' & Hd' & _ & Hpp & _).
      split; [eapply inv_weaken, Hi'; by intros ? [?|?]|]. split; [by rewrite Hpp|]. split; [|done].
      by rewrite Hp', Hp.
    + intros [id| |]; [by apply triple_ret|apply triple_throw..].
  - intros id. eapply triple_bind; [apply IH|]. intros l'. apply triple_ret. intros s.
    by rewrite <- app_assoc.
Qed.
Lemma insert_events_triple queue q X l :
  triple (inv queue X) (insert_events q l) (λ _, inv queue X).
Proof.
  induction l as [|t l IH]; simpl; [by apply triple_ret|].
  eapply triple_bind with (Q := λ _, inv queue X); [|intros []; exact IH].
  apply (triple_exec _ _ _ (λ _, inv queue X)). intros e s [[? ? ?] Hi]. done.
Qed.

Lemma qInsertPost_creating queue p q e db :
  (qInsertPost p e db).1 = Some q → inv queue none db →
  post_ID q = post_serial db ∧
  creating queue (post_ID q) (post_Status p) [] (qInsertPost p e db).2.
Proof.
  unfold qInsertPost. destruct (post_of_job _ _); [done|]. simpl. intros [= <-] [[Hfk Hid Hts] Hi].
  assert (Hnew : posts db !! post_serial db = None).
  { apply eq_None_not_Some. intros [q Hq]. apply Hid in Hq. lia. }
  split; [done|]. unfold creating. cbn [posts targets dirty post_serial post_ID post_Status stored_post].
  split; [|split; [by rewrite lookup_insert_eq|split; [|done]]].
  - split; [split|]; simpl.
    + intros k t Ht. apply lookup_insert_is_Some'. right. by eapply Hfk.
    + intros p' q' [[<- <-]|[_ Hq]]%lookup_insert_Some; simpl; [lia|].
      apply Hid in Hq. lia.
    + done.
    + intros p'. destruct (decide (p' = post_serial db)) as [->|Hne]; [by right; left|].
      destruct (Hi p') as [Hf|[?|?]]; [left|done|by right; right].
      revert Hf. apply fresh_ext; [done|]. simpl. by rewrite lookup_insert_ne.
  - rewrite post_statuses_perm. simpl.
    replace (smap (post_serial db) (targets db)) with (∅ : gmap Z string); [done|].
    symmetry. apply map_eq. intros k. unfold smap. rewrite lookup_omap, lookup_empty.
    destruct (targets db !! k) as [t|] eqn:Ht; [|done]. simpl.
    destruct (t_post t =? post_serial db) eqn:E; [|done]. apply Z.eqb_eq in E.
    destruct (Hfk k t Ht) as [q Hq]. rewrite E in Hq. congruence.
Qed.

(** A post whose own status matches its targets, or that the queue will see. *)
Definition create_ok (queue : bool) (p : Post) (l : list NewTarget) : Prop :=
  resolve_statuses (n_Status <$> l) = inr (post_Status p) ∨ (queue = true ∧ l ≠ []).
Lemma creating_done queue p st l db :
  resolve_statuses (n_Status <$> l) = inr st ∨ (queue = true ∧ l ≠ []) →
  creating queue p st (rev (n_Status <$> l) ++ []) db → inv queue none db.
Proof.
  intros Hc ([Hok Hi] & Hst & Hp & Hd). split; [done|]. intros p'.
  destruct (Hi p') as [?|[->|?]]; [by left| |by right; right].
  rewrite app_nil_r in *. destruct Hc as [Hr|[-> Hl]].
  - left. intros q Hq. rewrite Hq in Hst. injection Hst as ->.
    eapply resolve_perm; [|exact Hr]. by rewrite Hp, <- Permutation_rev.
  - right. right. split; [done|]. apply Hd. destruct l as [|t l]; [done|]. simpl.
    intros H. by apply app_eq_nil in H as [_ ?].
Qed.

Lemma Create_keeps queue p l : create_ok queue p l → keeps queue (Create p l).
Proof.
  intros Hok. apply transact_invariant.
  eapply triple_bind; [apply triple_ask|]. intros env.
  set (p1 := if post_IngestAfter p =? 0 then _ else p).
  assert (Hst : post_Status p1 = post_Status p) by (unfold p1; by destruct (_ =? _)).
  eapply triple_bind with (Q := λ o s, match o with
    | Some q => creating queue (post_ID q) (post_Status p) [] s | None => inv queue none s end).
  { apply triple_exec_status. intros e s Hi.
    destruct (qInsertPost p1 e s).1 as [q|] eqn:E.
    - rewrite <- Hst. by apply (qInsertPost_creating queue p1 q e s E).
    - unfold qInsertPost in *. by destruct (post_of_job _ _). }
  intros [q|].
  - assert (Hid : post_ID (scanned_post p1 q) = post_ID q) by done.
    cbv zeta. rewrite Hid.
    eapply triple_bind with (Q := λ _, creating queue (post_ID q) (post_Status p) []).
    { case_bool_decide; [by apply triple_ret|]. apply (triple_exec _ _ _ (λ _, creating _ _ _ _)).
      intros e s ([[Hfk Hids Hts] Hi] & Hs & Hp & Hd). simpl in *.
      assert (Hsame : ∀ p', post_Status <$> alter (set_metadata (post_Metadata p1)) (post_ID q)
                         (posts s) !! p' = post_Status <$> posts s !! p').
      { intros p'. destruct (decide (p' = post_ID q)) as [->|Hne].
        - rewrite lookup_alter_eq. by destruct (posts s !! post_ID q).
        - by rewrite lookup_alter_ne. }
      split; [split; [split|]|split; [by rewrite Hsame|done]]; simpl.
      - intros k t Ht. apply lookup_alter_is_Some. by eapply Hfk.
      - intros p' q' Hq'. destruct (decide (p' = post_ID q)) as [->|Hne].
        + rewrite lookup_alter_eq in Hq'. apply fmap_Some in Hq' as (q0 & Hq0 & ->). simpl.
          by apply Hids.
        + rewrite lookup_alter_ne in Hq' by done. by apply Hids.
      - done.
      - intros p'. destruct (Hi p') as [Hf|[?|?]]; [left|by right; left|by right; right].
        revert Hf. by apply fresh_ext. }
    intros []. eapply triple_bind; [apply insert_targets_triple|]. intros l'.
    eapply triple_bind with (Q := λ _, inv queue none).
    { eapply triple_weaken; [apply (insert_events_triple queue _ none)| |by intros]. intros s.
      apply creating_done, Hok. }
    intros []. by apply triple_ret.
  - destruct (post_UploadJobID p1) as [u|]; [|apply triple_throw].
    eapply triple_bind with (Q := λ _, inv queue none); [|intros r; by apply triple_ret].
    unfold fetchExistingByUploadJobID. eapply triple_bind; [apply triple_read|].
    intros [q|]; [|apply triple_throw]. eapply triple_bind; [apply triple_read|]. intros rows.
    destruct (negb _); [apply triple_throw|]. apply triple_ret. tauto.
Qed.
Lemma Save_keeps p a s : keeps true (Save p a s).
Proof.
  unfold Save, insert_target. apply respects_bind; [apply _| |intros []; respects_tac].
  unfold exec_status. destruct (forallb _ _); [|apply respects_throw, _].
  apply respects_exec; [apply _|]. intros e db Hi.
  destruct (qInsertPostTarget p a s e db) as [[id| |] db'] eqn:E; simpl.
  - destruct (insert_target_step true none p a s e db id db' E Hi) as ([Hok Hi'] & _ & Hd & _).
    split; [done|]. intros p'. destruct (Hi' p') as [?|[[[]| ->]|?]]; auto.
  - unfold qInsertPostTarget in E. repeat case_match; by simplify_eq.
  - unfold qInsertPostTarget in E. repeat case_match; by simplify_eq.
Qed.

(** ** Histories *)

(** What the callers of three operations owe: a new post has the status of its
    targets (or, where the repair queue is relied on, some target); an edit
    leaves the status alone; single targets are inserted only where the queue
    is relied on. *)
Definition op_ok (queue : bool) (db : PostDB) (op : PostOp) : Prop :=
  match op with
  | OpCreate p l => create_ok queue p l
  | OpUpdate p => ∀ q, posts db !! post_ID p = Some q → post_Status p = post_Status q
  | OpSave _ _ _ => queue = true
  | _ => True
  end.
Fixpoint history_ok (queue : bool) (h : history) (db : PostDB) : Prop :=
  match h with
  | [] => True
  | (e, op) :: h' =>
      op_ok queue db op ∧ history_ok queue h' (state_of (run_op op e (db, O)))
  end.

Lemma ignore_keeps queue {A} (m : M PostDB A) : keeps queue m → keeps queue (ignore m).
Proof. intros H. apply respects_bind; [apply _|done|]. intros a. apply respects_ret, _. Qed.

#[export] Hint Resolve UpdateStatus_keeps SetTargetStatus_keeps MarkDeadLetter_keeps
  MarkRetrying_keeps MarkRateLimitedRetry_keeps MarkRateLimited_keeps MarkDriveRequiredFailed_keeps
  UpdateStatusWithLease_keeps UpdateReconcileStatus_keeps RetryTarget_keeps ClaimQueued_keeps
  ClaimWaiting_keeps ClaimPublishing_keeps HeartbeatReconcile_keeps ReleaseReconcile_keeps
  ScheduleNextWithLease_keeps ScheduleNext_keeps UpdatePublishProgress_keeps ReleaseLease_keeps
  MarkDeliveryDispatchFailed_keeps SetProviderKey_keeps PublishPost_keeps CancelPost_keeps
  RetryPost_keeps ReclaimExpiredLeases_keeps CancelFutureJobs_keeps RepairDirty_keeps
  RepairAggregateStatusForPost_keeps RepairAggregateStatuses_keeps Delete_keeps Create_keeps
  ignore_keeps : respects.

Lemma run_op_keeps queue op e db :
  op_ok queue db op → inv queue none db → inv queue none (state_of (run_op op e (db, O))).
Proof.
  intros Hop Hi. destruct op; cbn [run_op op_ok] in *;
    first [by apply Update_keeps
          |refine ((_ : keeps queue _) e db O Hi);
           first [auto with respects; fail|subst queue; apply ignore_keeps, Save_keeps]].
Qed.
Lemma run_history_keeps queue h : ∀ db,
  history_ok queue h db → inv queue none db → inv queue none (run_history h db).
Proof.
  induction h as [|[e op] h IH]; intros db; simpl; [done|]. intros [Hop Hh] Hi.
  apply IH; [done|]. by apply run_op_keeps.
Qed.

Definition consistent (db : PostDB) : Prop := db_ok db ∧ ∀ p, fresh p db.
Definition repairable (db : PostDB) : Prop := db_ok db ∧ ∀ p, fresh p db ∨ is_Some (dirty db !! p).
Lemma consistent_inv db : consistent db ↔ inv false none db.
Proof. unfold consistent, inv, none. naive_solver. Qed.
Lemma repairable_inv db : repairable db ↔ inv true none db.
Proof. unfold repairable, inv, none. naive_solver. Qed.

(** ** Properties *)

(** C1: the status of a post never drifts from those of its targets.  Through any
    interleaving of publish workers, reconcilers, users and repairs, with
    lost and unacknowledged statements and commits: if every post has the
    status [Resolve] computes for its targets, it keeps having it, as long as
    new posts are created with the status of their targets, edits do not
    change it and no target is inserted on its own; and without the first and
    the last of these, every post that disagrees is in the repair queue. *)
Theorem post_status_never_drifts (h : history) (db : PostDB) :
  (consistent db → history_ok false h db → consistent (run_history h db)) ∧
  (repairable db → history_ok true h db → repairable (run_history h db)).
Proof.
  split.
  - rewrite !consistent_inv. intros Hi Hh. by apply run_history_keeps.
  - rewrite !repairable_inv. intros Hi Hh. by apply run_history_keeps.
Qed.

Definition sample_env (now : Z) : Env :=
  mkEnv now now (λ _, Fine) (λ _, false) (λ _, false) "".
Definition empty_db : PostDB := mkPostDB ∅ ∅ ∅ (Outbox.mkOutboxDB ∅ 1) 1 1.
Definition sample_post : Post :=
  mkPost 0 5 "t" "c" "" None None None "" "" (Some 77) 0 None "queued" None "" 0 0 0.
Definition sample_targets : list NewTarget :=
  [mkNewTarget 0 0 11 "queued"; mkNewTarget 0 0 12 "queued"].
Definition sample_history : history :=
  [(sample_env 100, OpCreate sample_post sample_targets);
   (sample_env 200, OpClaimQueuedTargetWithLease 1 "w1" Minute);
   (sample_env 300, OpUpdateStatusWithLease
      (Some (mkTargetUpdate 1 "published" "yt1" "" (Some 300) "" "" "")) "w1");
   (sample_env 400, OpClaimQueuedTargetWithLease 2 "w2" Minute);
   (sample_env 500, OpMarkDeadLetter 2 "w2" "boom")].
Lemma empty_db_consistent : consistent empty_db.
Proof.
  split; [split|]; simpl.
  - intros k t. by rewrite lookup_empty.
  - intros p q. by rewrite lookup_empty.
  - intros k. rewrite lookup_empty. by intros [? [=]].
  - intros p q. simpl. by rewrite lookup_empty.
Qed.

Lemma post_status_never_drifts_witness :
  consistent (run_history sample_history empty_db) ∧
  post_Status <$> posts (run_history sample_history empty_db) !! 1 = Some "partially_published".
Proof.
  split; [|vm_compute; reflexivity].
  apply (proj1 (post_status_never_drifts sample_history empty_db)); [exact empty_db_consistent|].
  unfold sample_history. split; [left; vm_compute; reflexivity|]. repeat split.
Defined.

(** ** Finished targets *)

(** The statuses the writes without a lease do not protect. *)
Definition unprotected (t : TargetRow) : bool :=
  negb (status_in ["published"; "partially_published"; "failed"; "dlq"] t).
(** The operations that can change the status of a finished target. *)
Definition may_reopen (op : PostOp) (id : Z) (t : TargetRow) : bool :=
  match op with
  | OpDelete p | OpPublishPost p => t_post t =? p
  | OpRetryPost p => (t_post t =? p) && at_status "failed" t
  | OpRetryTarget i => (i =? id) && at_status "failed" t
  | OpCancelPost p => (t_post t =? p) && unprotected t
  | OpCancelFutureJobs a => (t_account t =? a) && unprotected t
  | OpUpdateStatus (Some u) => (u_ID u =? id) && unprotected t
  | OpMarkDriveRequiredFailed i _ => (i =? id) && at_status "published" t
  | OpMarkDeadLetter i o _ | OpMarkRetrying i o _ _ | OpMarkRateLimited i o _ =>
      (i =? id) && leased_to o t
  | _ => false
  end.

(** Row [id], finished and satisfying [ok], keeps its status and [ok]. *)
Definition stays (id : Z) (ok : TargetRow → Prop) (db db' : PostDB) : Prop :=
  id < target_serial db →
  ∀ t, targets db !! id = Some t → IsTerminal (t_status t) = true → ok t →
  id < target_serial db' ∧
  ∃ t', targets db' !! id = Some t' ∧ t_status t' = t_status t ∧ ok t'.
#[export] Instance stays_preorder id ok : PreOrder (stays id ok).
Proof.
  split; [intros db Hs t Ht _ Hk; split; [done|]; by exists t|].
  intros d1 d2 d3 H1 H2 Hs t Ht Hterm Hk. destruct (H1 Hs t Ht Hterm Hk) as (Hs2 & t2 & Ht2 & E2 & Hk2).
  destruct (H2 Hs2 t2 Ht2) as (Hs3 & t3 & Ht3 & E3 & Hk3); [by rewrite E2|done|].
  split; [done|]. exists t3. split; [done|]. split; [congruence|done].
Qed.
Lemma stays_same id ok db db' :
  targets db' = targets db → target_serial db' = target_serial db → stays id ok db db'.
Proof. intros E1 E2 Hs t Ht _ Hk. rewrite E1, E2. split; [done|]. by exists t. Qed.

Lemma stays_update_row id ok sel f e db :
  (∀ t, targets db !! id = Some t → sel id t = true → IsTerminal (t_status t) = true → ok t →
     t_status (f t) = t_status t ∧ ok (reset_reconcile_schedule_on_publish_start e t (f t))) →
  stays id ok db (update_targets sel f e db).2.
Proof.
  intros H Hs t Ht Hterm Hk. split; [done|]. rewrite update_targets_lookup, Ht.
  eexists. split; [done|]. unfold written. destruct (sel id t) eqn:E; [|done].
  rewrite reset_status. by apply H.
Qed.
Lemma stays_update id ok sel f e db :
  (∀ t, sel id t = true → IsTerminal (t_status t) = true → ok t →
     t_status (f t) = t_status t ∧ ok (reset_reconcile_schedule_on_publish_start e t (f t))) →
  stays id ok db (update_targets sel f e db).2.
Proof. intros H. apply stays_update_row. intros t _. apply H. Qed.
Lemma exec_stays {A} id ok op (f : Env → PostDB → A * PostDB) :
  (∀ e db, stays id ok db (f e db).2) → respects (stays id ok) (exec op f).
Proof. intros H. by apply respects_exec; [apply _|]. Qed.
Lemma read_stays {A} id ok op (g : Env → PostDB → A) :
  respects (stays id ok) (exec op (λ e db, (g e db, db))).
Proof. apply exec_stays. intros e db. by apply stays_same. Qed.
Lemma exec_status_stays {A} id ok ss op (f : Env → PostDB → A * PostDB) :
  (∀ e db, stays id ok db (f e db).2) → respects (stays id ok) (exec_status ss op f).
Proof.
  intros H. unfold exec_status. destruct (forallb _ _); [by apply exec_stays|].
  apply respects_throw, _.
Qed.
Lemma post_status_stays id ok p s e db : stays id ok db (update_post_status p s e db).2.
Proof. by apply stays_same. Qed.

Lemma postID_stays id ok i : respects (stays id ok) (postIDForTargetTx i).
Proof. unfold postIDForTargetTx. respects_tac. apply read_stays. Qed.
Lemma lockTarget_stays id ok i : respects (stays id ok) (lockTargetTx i).
Proof. unfold lockTargetTx. respects_tac. apply read_stays. Qed.
Lemma lockPost_stays id ok i : respects (stays id ok) (lockPostTx i).
Proof. unfold lockPostTx. respects_tac. apply read_stays. Qed.
Lemma lockTargets_stays id ok i : respects (stays id ok) (lockTargetsForPostTx i).
Proof. apply read_stays. Qed.
Lemma resolve_stays id ok i : respects (stays id ok) (resolvePostStatusLockedTx i).
Proof. unfold resolvePostStatusLockedTx. respects_tac. apply read_stays. Qed.
Lemma persist_stays id ok i : respects (stays id ok) (persistAggregatePostStatusLockedTx i).
Proof.
  unfold persistAggregatePostStatusLockedTx. respects_tac; [apply resolve_stays|].
  apply exec_status_stays, post_status_stays.
Qed.
Lemma stale_stays id ok i : respects (stays id ok) (stale_or_missing i).
Proof. unfold stale_or_missing. respects_tac. apply read_stays. Qed.
#[export] Hint Resolve postID_stays lockTarget_stays lockPost_stays lockTargets_stays resolve_stays
  persist_stays stale_stays read_stays : respects.
#[export] Hint Extern 4 (respects (stays _ _) (exec_status _ _ (update_post_status _ _))) =>
  (apply exec_status_stays, post_status_stays) : respects.

(** Decompose an operation; what remains are its updates of targets. *)
Ltac stays_tac :=
  unfold tx, ignore, require_owner, require_ttl; respects_tac;
  try (first [apply exec_stays|apply exec_status_stays]; intros ? ?).
Section stays_ops.
Context (id : Z) (ok : TargetRow → Prop).
Implicit Types (e : Env) (db : PostDB).

Lemma mutate_stays i query :
  (∀ e db, stays id ok db (query e db).2) → respects (stays id ok) (mutateLeasedTarget i query).
Proof.
  intros H. unfold mutateLeasedTarget, mutateLeasedTargetTx, raw. by stays_tac.
Qed.
Lemma reset_stays op p query :
  (∀ e db, stays id ok db (query e db).2) →
  respects (stays id ok) (tx op (resetPostTargetsAndAggregateTx p query)).
Proof. intros H. unfold resetPostTargetsAndAggregateTx. by stays_tac. Qed.
End stays_ops.

Lemma in_not_terminal l t :
  forallb (λ s, negb (IsTerminal s)) l = true → status_in l t = true →
  IsTerminal (t_status t) = true → False.
Proof.
  intros Hl Hs Ht. apply bool_decide_eq_true in Hs.
  rewrite forallb_forall in Hl. apply list_elem_of_In, Hl in Hs. by rewrite Ht in Hs.
Qed.
Lemma at_not_terminal s t :
  IsTerminal s = false → at_status s t = true → IsTerminal (t_status t) = true → False.
Proof. intros Hs ->%bool_decide_eq_true. congruence. Qed.
Lemma row_spec i p k t : row i p k t = true ↔ k = i ∧ p t = true.
Proof. unfold row. by rewrite andb_true_iff, Z.eqb_eq. Qed.

Lemma stays_active id ok sel f e db :
  (∀ t, sel id t = true → IsTerminal (t_status t) = true → False) →
  stays id ok db (update_targets sel f e db).2.
Proof. intros H. apply stays_update. intros t Hs Ht _. by destruct (H t Hs Ht). Qed.

Lemma reclaim_one_stays id ok i w e db :
  stays id ok db (qReclaimExpiredLeaseByID i w e db).2.
Proof.
  apply stays_active. intros t [_ [_ Hs]%andb_true_iff]%row_spec.
  revert Hs. by apply in_not_terminal.
Qed.
Lemma reclaim_loop_stays id ok w l : ∀ n, respects (stays id ok) (reclaim_loop w l n).
Proof.
  induction l as [|[i p] l IH]; intros n; simpl; [by apply respects_ret, _|].
  apply respects_bind; [apply _|apply lockPost_stays|]. intros _.
  apply respects_bind; [apply _|apply exec_stays; intros e db; apply reclaim_one_stays|].
  intros k. apply respects_bind; [apply _|apply respects_map_err, respects_rows, _|].
  intros j. case_bool_decide; [apply IH|].
  apply respects_bind; [apply _|apply persist_stays|]. intros _. apply IH.
Qed.
Lemma recompute_stays id ok pre l : respects (stays id ok) (recompute_loop pre l).
Proof.
  induction l as [|p l IH]; simpl; [by apply respects_ret, _|].
  apply respects_bind; [apply _| |by intros _]. stays_tac.
Qed.
Lemma repair_loop_stays id ok l : ∀ n, respects (stays id ok) (repair_loop l n).
Proof.
  induction l as [|p l IH]; intros n; simpl; [by apply respects_ret, _|].
  apply respects_bind; [apply _| |intros k; apply IH]. unfold repair_one. stays_tac.
Qed.
Lemma insert_stays id ok p a s e db : stays id ok db (qInsertPostTarget p a s e db).2.
Proof.
  unfold qInsertPostTarget. destruct (existsb _ _); [done|]. case_bool_decide; [done|].
  intros Hs t Ht _ Hk. simpl. split; [lia|]. exists t. by rewrite lookup_insert_ne by lia.
Qed.
Lemma insert_targets_stays id ok p l : respects (stays id ok) (insert_targets p l).
Proof.
  induction l as [|t l IH]; simpl; [by apply respects_ret, _|]. unfold insert_target.
  stays_tac; first [apply insert_stays|apply IH].
Qed.
Lemma insert_events_stays id ok q l : respects (stays id ok) (insert_events q l).
Proof.
  induction l as [|t l IH]; simpl; [by apply respects_ret, _|].
  stays_tac; first [apply IH|by apply stays_same].
Qed.
Lemma Create_stays id ok p l : respects (stays id ok) (Create p l).
Proof.
  unfold Create, fetchExistingByUploadJobID. stays_tac.
  all: try apply insert_targets_stays; try apply insert_events_stays.
  all: unfold qInsertPost; try destruct (post_of_job _ _); by apply stays_same.
Qed.
Lemma quiet_stays id (ok : TargetRow → Prop) (f : TargetRow → TargetRow) sel e db :
  (∀ t, t_status (f t) = t_status t) → (∀ t, ok t) →
  stays id ok db (update_targets sel f e db).2.
Proof. intros Hf Hk. apply stays_update. intros t _ _ _. split; [apply Hf|apply Hk]. Qed.

(** The update does not select a finished row on which [may_reopen] is false. *)
Lemma stays_guarded op id sel f e db :
  (∀ t, sel id t = true → IsTerminal (t_status t) = true → may_reopen op id t = true) →
  stays id (λ t, may_reopen op id t = false) db (update_targets sel f e db).2.
Proof. intros H. apply stays_update. intros t Hs Ht Hk. by rewrite H in Hk. Qed.

Lemma UpdateStatus_stays id u :
  respects (stays id (λ t, may_reopen (OpUpdateStatus u) id t = false)) (UpdateStatus u).
Proof.
  destruct u as [u|]; simpl; [|apply respects_throw, _].
  unfold updateTargetStatusTx. stays_tac. apply stays_update.
  intros t [-> Hs]%row_spec Ht Hk. rewrite Z.eqb_refl in *. simpl in *.
  unfold unprotected in Hk. rewrite Hk, orb_false_r in Hs. apply bool_decide_eq_true in Hs. split; [done|].
  unfold unprotected, status_in. rewrite reset_status. simpl. rewrite <- Hs. exact Hk.
Qed.
(** A statement with a status the type does not have is always rejected. *)
Lemma exec_status_rejected {A} s ss op (f : Env → PostDB → A * PostDB) :
  s ∈ ss → s ∉ post_status_labels → exec_status ss op f = throw (db_err op).
Proof.
  intros Hs Hl. unfold exec_status. destruct (forallb _ ss) eqn:E; [|done].
  rewrite forallb_forall in E. apply list_elem_of_In, E, bool_decide_eq_true in Hs. done.
Qed.
Lemma dead_letter_rejected {A} s op (f : Env → PostDB → A * PostDB) :
  exec_status [s; "published"; "partially_published"; "failed"; "dlq"; "dead_letter";
               "blocked_auth"] op f = throw (db_err op).
Proof. apply (exec_status_rejected "dead_letter"); [set_solver|decide_closed]. Qed.
Lemma SetTargetStatus_stays id ok i s m : respects (stays id ok) (SetTargetStatus i s m).
Proof.
  unfold SetTargetStatus, setTargetStatusWithAggregate, tx. respects_tac.
  rewrite dead_letter_rejected. apply respects_throw, _.
Qed.

Lemma SetProviderKey_stays id (ok : TargetRow → Prop) i key :
  (∀ t, ok t) → respects (stays id ok) (SetProviderIdempotencyKey i key).
Proof.
  intros Hk. unfold SetProviderIdempotencyKey. stays_tac.
  unfold qUpdateTargetProviderIdempotencyKey. destruct (key_taken _ _ _); [done|].
  match goal with |- stays _ _ _ (let '(_, _) := update_targets ?s ?f ?e ?d in _).2 =>
    pose proof (quiet_stays id ok f s e d (λ t, eq_refl) Hk) as Hq;
    destruct (update_targets s f e d) end.
  exact Hq.
Qed.
Lemma mark_stays op id i o query (f : Env → TargetRow → TargetRow) :
  query = (λ e, update_targets (row i (leased_to o)) (f e) e) →
  (∀ t, may_reopen op id t = (i =? id) && leased_to o t) →
  respects (stays id (λ t, may_reopen op id t = false)) (mutateLeasedTarget i query).
Proof.
  intros -> Hop. apply mutate_stays. intros e db. apply stays_guarded.
  intros t [-> Hs]%row_spec _. by rewrite Hop, Z.eqb_refl.
Qed.

Lemma ClaimWaiting_stays id ok i : respects (stays id ok) (ClaimWaitingProviderTarget i).
Proof.
  intros e db n. unfold ClaimWaitingProviderTarget.
  match goal with |- context [transact ?o ?b] =>
    assert (Hx : triple (λ s, s = db) b
      (λ r s, match r with Commit _ => stays id ok db s | _ => True end));
    [|destruct (transact_atomic o b e db n) as [->|(a & n' & Hb)];
      [done|by apply (Hx e _ _ _ _ _ eq_refl Hb)]]
  end.
  eapply triple_bind with (Q := λ (found : bool) s, s = db ∧
    (found = true → ∃ t, targets db !! i = Some t ∧ at_status "waiting_provider" t = true)).
  { apply triple_exec. intros e' s ->. split; [done|]. simpl. destruct (targets db !! i) as [t|]; [|done].
    unfold qClaimWaitingProviderTargetSelect. intros [Ht _]%andb_true_iff. by exists t. }
  intros []; [|by apply triple_ret].
  eapply triple_bind with (Q := λ _, stays id ok db); [|intros []; by apply triple_ret].
  apply triple_map_err. unfold claimTargetTx. do 2 body_step.
  eapply triple_bind with (Q := λ _, stays id ok db).
  { apply triple_exec. intros e' s [[-> H] _]. destruct (H eq_refl) as (t & Ht & Hw).
    apply stays_update_row. intros t' Ht' [-> _]%row_spec Hterm. simplify_eq.
    exfalso. revert Hw Hterm. by apply at_not_terminal. }
  assert (Hmono : ∀ A (m : M PostDB A), respects (stays id ok) m →
    triple (stays id ok db) m (λ _, stays id ok db)).
  { intros A m Hm e' s n0 x s' n2 Hs Hrun. etrans; [exact Hs|]. specialize (Hm e' s n0).
    by rewrite Hrun in Hm. }
  intros k. apply Hmono. respects_tac.
Qed.

Lemma op_stays op id :
  match op with OpUpdate _ | OpDelete _ => False | _ => True end →
  respects (stays id (λ t, may_reopen op id t = false)) (run_op op).
Proof.
  destruct op; cbn [run_op]; intros Hop; try done;
    try (unfold ignore; apply respects_bind; [apply _| |intros ?; apply respects_ret, _]).
  - apply Create_stays.
  - unfold Save, insert_target. stays_tac. apply insert_stays.
  - by apply SetProviderKey_stays.
  - apply reset_stays. intros e db. apply (stays_guarded (OpPublishPost _)). done.
  - unfold CancelPost, resetPostTargetsAndAggregateTx. stays_tac.
    apply (stays_guarded (OpCancelPost _)). done.
  - apply reset_stays. intros e db. apply (stays_guarded (OpRetryPost _)). done.
  - unfold RetryTarget, resetTargetAndAggregateTx. stays_tac.
    apply (stays_guarded (OpRetryTarget _)). intros t1 [-> Hs]%row_spec _. simpl.
    by rewrite Z.eqb_refl.
  - apply UpdateStatus_stays.
  - apply SetTargetStatus_stays.
  - unfold ClaimQueuedTargetWithLease, claimTargetTx. stays_tac. apply stays_active.
    intros t1 [_ Hs]%row_spec. revert Hs. by apply in_not_terminal.
  - apply ClaimWaiting_stays.
  - unfold UpdatePublishProgress. stays_tac. by apply quiet_stays.
  - unfold ReleaseLease. stays_tac. by apply quiet_stays.
  - unfold MarkDeadLetter. stays_tac. by eapply mark_stays.
  - unfold MarkRetrying. stays_tac. by eapply (mark_stays _ _ _ _ _ (λ e, _)).
  - unfold MarkRateLimitedRetryWithLease. stays_tac. apply mutate_stays. intros e db.
    apply stays_active. intros t1 [_ [_ Hs]%andb_true_iff]%row_spec. revert Hs. by apply at_not_terminal.
  - unfold MarkRateLimited. stays_tac. by eapply (mark_stays _ _ _ _ _ (λ e, _)).
  - unfold MarkDeliveryDispatchFailed. stays_tac. by apply quiet_stays.
  - unfold MarkDriveRequiredFailed, markDriveRequiredFailedTx. stays_tac.
    apply (stays_guarded (OpMarkDriveRequiredFailed _ _)). intros t1 [-> Hs]%row_spec _. simpl.
    by rewrite Z.eqb_refl.
  - unfold UpdateStatusWithLease. stays_tac. apply stays_active.
    intros t1 [_ [_ Hs]%andb_true_iff]%row_spec. revert Hs. by apply at_not_terminal.
  - unfold ReclaimExpiredLeases. stays_tac. apply reclaim_loop_stays.
  - unfold ClaimPublishingTarget. stays_tac. by apply quiet_stays.
  - unfold HeartbeatReconcileTarget, exec_reconcile. stays_tac. by apply quiet_stays.
  - unfold ReleaseReconcileTarget, exec_reconcile. stays_tac. by apply quiet_stays.
  - unfold ScheduleNextReconcile. stays_tac. by apply quiet_stays.
  - unfold ScheduleNextReconcileWithLease, exec_reconcile. stays_tac. by apply quiet_stays.
  - unfold UpdateReconcileStatusWithLease. stays_tac. apply stays_active.
    intros t1 [_ [_ Hs]%andb_true_iff]%row_spec. revert Hs. by apply at_not_terminal.
  - unfold cancelFutureJobsTx. stays_tac; [|apply recompute_stays].
    apply (stays_guarded (OpCancelFutureJobs _)). done.
  - unfold RepairDirtyAggregatePost. stays_tac. by apply stays_same.
  - unfold RepairAggregateStatusForPost. stays_tac.
  - unfold RepairAggregateStatuses. stays_tac. apply repair_loop_stays.
Qed.

(** C20: who can change a finished target.  A target that is published, failed,
    dead-lettered or blocked keeps its status through every operation of the
    store, whatever fails, except the ones [may_reopen] lists: publishing or
    deleting its whole post, retrying it after a failure, the Drive check on
    a published one, the marks of a worker that still holds its publish lease,
    and, for [blocked_auth] and [drive_required_failed] only, cancelling and
    status writes without a lease, whose guards leave these two out. *)
Theorem finished_targets_protected (op : PostOp) (e : Env) (db : PostDB) (n : nat) (id : Z)
    (t : TargetRow) (Hok : db_ok db) (Ht : targets db !! id = Some t)
    (Hterm : IsTerminal (t_status t) = true) (Hop : may_reopen op id t = false) :
  ∃ t', targets (state_of (run_op op e (db, n))) !! id = Some t' ∧ t_status t' = t_status t.
Proof.
  assert (Hs : id < target_serial db) by (apply (ok_target _ Hok); by exists t).
  assert (Hstay : respects (stays id (λ t, may_reopen op id t = false)) (run_op op) →
    ∃ t', targets (state_of (run_op op e (db, n))) !! id = Some t' ∧ t_status t' = t_status t).
  { intros H. destruct (H e db n Hs t Ht Hterm Hop) as (_ & t' & ? & ? & _). eauto. }
  destruct op; try (by apply Hstay, op_stays); cbn [run_op].
  - assert (Hx : targets (state_of (Update post e (db, n))) = targets db).
    { unfold Update, exec_status. destruct (forallb _ _); [|done].
      unfold mbind, M_bind, map_err, rows_affected, exec, state_of, qUpdatePost.
      destruct (update_row _ _ _ _) as [k m]. destruct (fault e n); simpl; [|done..].
      destruct (fault e (S n)); simpl; [|done..]. by case_bool_decide. }
    rewrite Hx. by exists t.
  - unfold Delete, exec, state_of. simpl in Hop. apply Z.eqb_neq in Hop.
    assert (Hd : targets (qDeletePost id0 e db).2 !! id = Some t).
    { simpl. by apply map_lookup_filter_Some. }
    exists t. split; [|done]. by destruct (fault e n).
Qed.

Lemma finished_targets_protected_witness :
  let db := run_history sample_history empty_db in
  let run := run_op (OpCancelPost 1) (sample_env 600) (db, O) in
  (t_status <$> targets db !! 1) = Some "published" ∧
  ∃ t', targets (state_of run) !! 1 = Some t' ∧ t_status t' = "published".
Proof.
  intros db run. split; [vm_compute; reflexivity|].
  assert (Hok : db_ok db).
  { refine (proj1 (proj1 (consistent_inv _) _ )). apply consistent_inv.
    apply run_history_keeps; [|apply consistent_inv; exact empty_db_consistent].
    split; [left; vm_compute; reflexivity|]. repeat split. }
  destruct (targets db !! 1) as [t|] eqn:Ht; [|vm_compute in Ht; discriminate].
  assert (Hs : t_status t = "published" ∧ may_reopen (OpCancelPost 1) 1 t = false).
  { vm_compute in Ht. injection Ht as <-. vm_compute. split; reflexivity. }
  destruct (finished_targets_protected (OpCancelPost 1) (sample_env 600) db O 1 t Hok Ht) as (t' & H1 & H2).
  - rewrite (proj1 Hs). reflexivity.
  - exact (proj2 Hs).
  - exists t'. split; [exact H1|]. rewrite H2. exact (proj1 Hs).
Defined.

(** [SetTargetStatus] cannot succeed on the schema of the migrations.  Its
    UPDATE compares the status with the literal 'dead_letter', which is not a
    label of [post_status], so the server rejects the statement: every call,
    with any arguments and in any state, fails and changes nothing. *)
Theorem SetTargetStatus_always_fails (targetID : Z) (status msg : string) (e : Env) (db : PostDB)
    (n : nat) :
  (∃ er, result_of (SetTargetStatus targetID status msg e (db, n)) = inl er) ∧
  state_of (SetTargetStatus targetID status msg e (db, n)) = db.
Proof.
  unfold SetTargetStatus. destruct (_ <=? _); [split; [by eexists|done]|].
  destruct (negb _); [split; [by eexists|done]|].
  unfold setTargetStatusWithAggregate, tx.
  apply (transact_never _ _ (λ _, True)); [|done].
  eapply triple_bind with (Q := λ _ _, False); [|by intros [] ?].
  eapply triple_bind; [apply triple_postID|]. intros p.
  eapply triple_bind; [apply triple_lockTarget|]. intros [].
  eapply triple_bind; [apply triple_lockPost|]. intros [].
  eapply triple_bind with (Q := λ _ _, False); [|by intros k e' s n' a s' n''].
  rewrite dead_letter_rejected. apply triple_throw.
Qed.

(** ** Claims on a database that answers *)
Lemma update_row_targets id p f e db t :
  targets db !! id = Some t → p t = true →
  targets (update_targets (row id p) f e db).2 =
    <[id := reset_reconcile_schedule_on_publish_start e t (f t)]> (targets db) ∧
  posts (update_targets (row id p) f e db).2 = posts db.
Proof.
  intros Ht Hp. split; [|done]. apply map_eq. intros k. rewrite update_targets_lookup.
  unfold written, row. destruct (decide (k = id)) as [->|Hne].
  - rewrite lookup_insert_eq, Ht. simpl. by rewrite Z.eqb_refl, Hp.
  - rewrite lookup_insert_ne by done. destruct (targets db !! k); [|done]. simpl.
    by rewrite (proj2 (Z.eqb_neq k id)).
Qed.
Lemma persist_run p s e db n :
  reliable e → resolve_statuses (post_statuses p db) = inr s →
  s ∈ post_status_labels →
  ∃ n', persistAggregatePostStatusLockedTx p e (db, n) =
        (inr tt, ((update_post_status p s e db).2, n')).
Proof.
  intros Hrel Hs Hl. unfold persistAggregatePostStatusLockedTx, resolvePostStatusLockedTx.
  eexists. erewrite bind_run.
  2: { erewrite bind_run by apply exec_fine, Hrel. simpl. rewrite Hs. reflexivity. }
  unfold exec_status. cbn [forallb]. rewrite bool_decide_eq_true_2 by done. cbn [andb].
  by rewrite exec_fine.
Qed.

Lemma statuses_known p db :
  (∀ k t, targets db !! k = Some t → known_status (t_status t) = true) →
  forallb known_status (post_statuses p db) = true.
Proof.
  intros H. apply forallb_forall. intros s Hs. apply list_elem_of_In in Hs.
  unfold post_statuses in Hs. apply list_elem_of_fmap in Hs as ([k t] & -> & Hkt).
  apply post_rows_elem in Hkt as [Hkt _]. by eapply H.
Qed.
Lemma resolve_publishing p db k t :
  (∀ k t, targets db !! k = Some t → known_status (t_status t) = true) →
  targets db !! k = Some t → t_post t = p → t_status t = "publishing" →
  resolve_statuses (post_statuses p db) = inr "publishing".
Proof.
  intros Hk Ht Hp Hs. rewrite resolve_known by by apply statuses_known.
  assert (He : existsb (has PostStatusPublishing) (post_statuses p db) = true).
  { apply existsb_exists. exists "publishing". split; [|done]. apply list_elem_of_In.
    unfold post_statuses. apply list_elem_of_fmap. exists (k, t). split; [done|].
    by apply post_rows_elem. }
  unfold aggregate_rules. rewrite He, (has_excl' _ PostStatusPublishing) by done.
  rewrite bool_decide_eq_false_2; [done|]. intros E. by rewrite E in He.
Qed.

Definition claimable (id : Z) (e : Env) (db : PostDB) : bool := (select_target id
  qClaimQueuedTargetWithLeaseSelect e db).1.
(** The row a successful claim leaves. *)
Definition claimed_row (w : string) (ttl : Z) (e : Env) (t : TargetRow) : TargetRow :=
  mkTargetRow (t_post t) (t_account t) "publishing"
    (mkPublishLease (Some w) (Some (db_now e + lease_seconds ttl * Second)) (Some (db_now e)))
    (mkReconcileState None None None 0 (db_now e)) (t_retry t) (t_provider t) (t_version t)
    (t_updated_at t).

Lemma claim_false_run id w ttl e db n :
  reliable e → w ≠ "" → 0 < ttl → claimable id e db = false →
  result_of (ClaimQueuedTargetWithLease id w ttl e (db, n)) = inr false ∧
  state_of (ClaimQueuedTargetWithLease id w ttl e (db, n)) = db.
Proof.
  intros Hrel Hw Httl Hc. unfold ClaimQueuedTargetWithLease, require_owner, require_ttl.
  rewrite bool_decide_eq_false_2, (proj2 (Z.leb_gt _ _)) by (done || lia).
  unfold transact. rewrite Hrel. erewrite bind_run by apply exec_fine, Hrel.
  unfold claimable in Hc. by rewrite Hc.
Qed.
(** The body of a claim, step by step. *)
Lemma claimTargetTx_run id e db n t query f p :
  query e db = update_targets (row id p) f e db → reliable e → db_ok db → targets db !! id = Some t → p t = true →
  (let db' := (update_targets (row id p) f e db).2 in
   resolve_statuses (post_statuses (t_post t) db') = inr "publishing") →
  ∃ n', claimTargetTx id query e (db, n) =
    (inr tt, ((update_post_status (t_post t) "publishing" e
                 (update_targets (row id p) f e db).2).2, n')).
Proof.
  intros Hq Hrel Hok Ht Hp Hres. cbv zeta in Hres.
  destruct (ok_fk _ Hok id t Ht) as [pst Hpst].
  assert (Hk : (update_targets (row id p) f e db).1 ≠ O).
  { eapply update_targets_hit; [exact Ht|]. by apply row_spec. }
  unfold claimTargetTx, postIDForTargetTx, lockPostTx.
  erewrite bind_run by (erewrite bind_run by apply exec_fine, Hrel; cbn [fst snd]; by rewrite Ht).
  erewrite bind_run by (erewrite bind_run by apply exec_fine, Hrel; cbn [fst snd]; rewrite Hpst;
    by rewrite bool_decide_eq_true_2 by done).
  erewrite bind_run by apply exec_fine, Hrel. rewrite Hq.
  destruct (update_targets (row id p) f e db) as [k db'] eqn:E. cbn [fst snd] in *.
  erewrite bind_run by (unfold map_err; by rewrite rows_fine).
  rewrite bool_decide_eq_false_2 by done. apply persist_run; [done|done|set_solver].
Qed.
Lemma claim_true_run id w ttl e db n t :
  db_ok db → reliable e → w ≠ "" → 0 < ttl → claimable id e db = true →
  targets db !! id = Some t →
  (∀ k t, targets db !! k = Some t → known_status (t_status t) = true) →
  let run := ClaimQueuedTargetWithLease id w ttl e (db, n) in
  result_of run = inr true ∧
  targets (state_of run) = <[id := claimed_row w ttl e t]> (targets db) ∧
  posts (state_of run) = alter (set_post_status "publishing") (t_post t) (posts db).
Proof.
  intros Hok Hrel Hw Httl Hc Ht Hknown run.
  assert (Hin : status_in ["queued"; "waiting_provider"; "retrying"] t = true).
  { unfold claimable, select_target in Hc. simpl in Hc. rewrite Ht in Hc.
    unfold qClaimQueuedTargetWithLeaseSelect in Hc.
    by apply andb_true_iff in Hc as [[[? _]%andb_true_iff _]%andb_true_iff _]. }
  set (f := λ t, with_lease (mkPublishLease (Some w) (Some (db_now e + lease_seconds ttl * Second))
      (Some (db_now e))) (with_status "publishing" t)).
  destruct (update_row_targets id (status_in ["queued"; "waiting_provider"; "retrying"])
    f e db t Ht Hin) as [Htg Hps].
  assert (Hrow : reset_reconcile_schedule_on_publish_start e t (f t) = claimed_row w ttl e t).
  { unfold reset_reconcile_schedule_on_publish_start. simpl.
    rewrite bool_decide_eq_false_2; [done|]. intros E. unfold status_in in Hin. by rewrite E in Hin. }
  rewrite Hrow in Htg.
  destruct (claimTargetTx_run id e db (S (S n)) t
    (qClaimQueuedTargetWithLeaseUpdate id w (lease_seconds ttl)) f
    (status_in ["queued"; "waiting_provider"; "retrying"]) eq_refl Hrel Hok Ht Hin) as [n' Hclaim].
  { cbv zeta. eapply (resolve_publishing _ _ id (claimed_row w ttl e t)); [|by rewrite Htg, lookup_insert_eq|done..].
    rewrite Htg. intros k t' [[_ <-]|[_ ?]]%lookup_insert_Some; [done|by eapply Hknown]. }
  assert (Hrun : run = (inr true, ((update_post_status (t_post t) "publishing" e
    (update_targets (row id (status_in ["queued"; "waiting_provider"; "retrying"])) f e db).2).2, S n'))).
  { unfold run, ClaimQueuedTargetWithLease, require_owner, require_ttl.
    rewrite bool_decide_eq_false_2, (proj2 (Z.leb_gt _ _)) by (done || lia).
    unfold transact. rewrite Hrel. erewrite bind_run by apply exec_fine, Hrel.
    unfold claimable in Hc. rewrite Hc.
    erewrite bind_run by (unfold map_err; cbn [snd select_target]; by rewrite Hclaim).
    cbn [mret M_ret]. by rewrite Hrel. }
  rewrite Hrun. split; [done|]. unfold state_of. cbn [fst snd update_post_status with_posts targets posts].
  by rewrite Htg, Hps.
Qed.

(** Claiming a target for publication.  On a database that answers, a worker
    with a name and a positive lease gets the target exactly when it is
    queued, waiting or retrying, both its due times have passed and nobody has
    it locked; then the target is [publishing] under the worker's lease (at
    least a second), its reconcile schedule starts afresh, its post becomes
    [publishing] and nothing else changes, and every later claim of it,
    by anybody, is refused without effect; otherwise nothing changes. *)
Theorem ClaimQueuedTargetWithLease_correct (id : Z) (w : string) (ttl : Z) (e : Env) (db : PostDB)
    (n : nat) (Hok : db_ok db) (Hrel : reliable e) (Hw : w ≠ "") (Httl : 0 < ttl)
    (Hknown : ∀ k t, targets db !! k = Some t → known_status (t_status t) = true) :
  let run := ClaimQueuedTargetWithLease id w ttl e (db, n) in
  match targets db !! id with
  | Some t =>
      if qClaimQueuedTargetWithLeaseSelect e t && negb (held e id) then
        result_of run = inr true ∧
        targets (state_of run) = <[id := claimed_row w ttl e t]> (targets db) ∧
        posts (state_of run) = alter (set_post_status "publishing") (t_post t) (posts db) ∧
        1 ≤ lease_seconds ttl ∧
        ∀ w' ttl' e' n', reliable e' → w' ≠ "" → 0 < ttl' →
          let run' := ClaimQueuedTargetWithLease id w' ttl' e' (state_of run, n') in
          result_of run' = inr false ∧ state_of run' = state_of run
      else result_of run = inr false ∧ state_of run = db
  | None => result_of run = inr false ∧ state_of run = db
  end.
Proof.
  intros run. destruct (targets db !! id) as [t|] eqn:Ht.
  - assert (Hc : claimable id e db = qClaimQueuedTargetWithLeaseSelect e t && negb (held e id)).
    { unfold claimable, select_target. simpl. by rewrite Ht. }
    rewrite <- Hc. destruct (claimable id e db) eqn:E; [|by apply claim_false_run].
    destruct (claim_true_run id w ttl e db n t Hok Hrel Hw Httl E Ht Hknown) as (H1 & H2 & H3).
    split; [done|]. split; [done|]. split; [done|]. split.
    { unfold lease_seconds. destruct (Z.quot ttl Second <? 1) eqn:E'; lia. }
    intros w' ttl' e' n' Hrel' Hw' Httl' run'. apply claim_false_run; [done|done|done|].
    unfold claimable, select_target. cbn [fst]. fold run in H2. rewrite H2, lookup_insert_eq. done.
  - apply claim_false_run; [done|done|done|]. unfold claimable, select_target. simpl. by rewrite Ht.
Qed.

Lemma sample_ok h : history_ok false h empty_db → db_ok (run_history h empty_db).
Proof.
  intros Hh. refine (proj1 (run_history_keeps false h empty_db Hh _)).
  apply consistent_inv, empty_db_consistent.
Qed.
Lemma ClaimQueuedTargetWithLease_correct_witness :
  let db := run_history [(sample_env 100, OpCreate sample_post sample_targets)] empty_db in
  result_of (ClaimQueuedTargetWithLease 2 "w" Minute (sample_env 200) (db, O)) = inr true.
Proof.
  intros db.
  assert (Hok : db_ok db).
  { apply sample_ok. split; [left; vm_compute; reflexivity|exact I]. }
  assert (Hw : "w" ≠ "") by discriminate.
  assert (Hdom : targets db = <[1 := new_target 1 11 "queued" (sample_env 100)]>
    (<[2 := new_target 1 12 "queued" (sample_env 100)]> ∅)) by (vm_compute; reflexivity).
  assert (Hknown : ∀ k t, targets db !! k = Some t → known_status (t_status t) = true).
  { rewrite Hdom. intros k t [[_ <-]|[_ [[_ <-]|[_ H]]%lookup_insert_Some]]%lookup_insert_Some;
      [reflexivity..|]. rewrite lookup_empty in H. discriminate H. }
  pose proof (ClaimQueuedTargetWithLease_correct 2 "w" Minute (sample_env 200) db O Hok
    (λ _, eq_refl) Hw eq_refl Hknown) as H.
  destruct (targets db !! 2) as [t|] eqn:Ht; [|vm_compute in Ht; discriminate].
  assert (Hc : qClaimQueuedTargetWithLeaseSelect (sample_env 200) t && negb (held (sample_env 200) 2)
               = true).
  { vm_compute in Ht. injection Ht as <-. reflexivity. }
  cbv zeta in H. rewrite Hc in H. exact (proj1 H).
Defined.

(** ** The pickup query is fair *)
Lemma fair_order_total pos at_ x y : fair_order pos at_ x y = false → fair_order pos at_ y x = true.
Proof.
  unfold fair_order. cbv zeta. destruct (at_ x), (at_ y); cbn [default from_option id];
  rewrite <- not_true_iff_false;
  repeat rewrite ?orb_true_iff, ?andb_true_iff, ?Z.ltb_lt, ?Z.eqb_eq, ?Z.leb_le, ?Nat.ltb_lt,
    ?Nat.eqb_eq; lia.
Qed.
Lemma fair_order_trans pos at_ x y z :
  fair_order pos at_ x y = true → fair_order pos at_ y z = true → fair_order pos at_ x z = true.
Proof.
  unfold fair_order. cbv zeta. destruct (at_ x), (at_ y), (at_ z); cbn [default from_option id];
  repeat rewrite ?orb_true_iff, ?andb_true_iff, ?Z.ltb_lt, ?Z.eqb_eq, ?Z.leb_le, ?Nat.ltb_lt,
    ?Nat.eqb_eq; lia.
Qed.
Lemma fair_order_position pos at_ x y : fair_order pos at_ x y = true → (pos x ≤ pos y)%nat.
Proof.
  unfold fair_order. cbv zeta. rewrite orb_true_iff, andb_true_iff, Nat.ltb_lt, Nat.eqb_eq. lia.
Qed.

Lemma pending_spec before now db k t :
  (k, t) ∈ pending before now db ↔ targets db !! k = Some t ∧ pending_target before now db t = true.
Proof.
  unfold pending. by rewrite list_elem_of_In, filter_In, <- list_elem_of_In, elem_of_map_to_list.
Qed.

(** The publish workers pick targets up fairly.  The list has only due
    targets, each at most once and at most a hundred; a due target is left out only when
    the list is full, and then every listed target is at least as early among
    the due ones of its own post: a post with a thousand targets cannot push
    out the first target of another post for more than the first of each. *)
Theorem ListPending_fair (before : Z) (e : Env) (db : PostDB) :
  let l := qSelectPendingTargetsFair before e db in
  let pos := child_position (pending before (db_now e) db) in
  (length l ≤ 100)%nat ∧ NoDup l.*1 ∧
  (∀ k t, (k, t) ∈ l → targets db !! k = Some t ∧ pending_target before (db_now e) db t = true) ∧
  (∀ i j x y, l !! i = Some x → l !! j = Some y → (i < j)%nat → (pos x ≤ pos y)%nat) ∧
  (∀ k t, targets db !! k = Some t → pending_target before (db_now e) db t = true →
     (k, t) ∉ l → length l = 100%nat ∧ ∀ x, x ∈ l → (pos x ≤ pos (k, t))%nat).
Proof.
  intros l pos. set (all := pending before (db_now e) db).
  set (le := fair_order (child_position all) (λ kt, p ← posts db !! t_post kt.2; post_PublishAt p)).
  assert (Hl : l = take 100 (sort_by le all)) by done.
  assert (Hin : ∀ x, x ∈ l → x ∈ all).
  { intros x Hx. rewrite <- (sort_by_perm le all), <- (take_drop 100).
    apply elem_of_app. left. by rewrite <- Hl. }
  pose proof (sort_by_sorted le (fair_order_total _ _) (fair_order_trans _ _) all) as Hsorted.
  split; [rewrite Hl, length_take; lia|]. split; [|split; [|split]].
  - assert (Hnd : NoDup (sort_by le all).*1).
    { rewrite sort_by_perm. apply filter_NoDup_fst, NoDup_fst_map_to_list. }
    rewrite <- (take_drop 100 (sort_by le all)), fmap_app in Hnd.
    apply NoDup_app in Hnd as (Hnd & _). by rewrite Hl.
  - intros k t Hk. apply pending_spec. by apply Hin.
  - intros i j x y Hx Hy Hij. apply (fair_order_position _
      (λ kt, p ← posts db !! t_post kt.2; post_PublishAt p)).
    rewrite Hl in Hx, Hy. apply lookup_take_Some in Hx as [Hx _], Hy as [Hy _].
    clear -Hsorted Hx Hy Hij. revert i j Hx Hy Hij.
    induction Hsorted as [|z s Hs IH Hz]; intros [|i] [|j] Hx Hy Hij; try done; try lia.
    + simpl in Hx, Hy. injection Hx as ->. rewrite Forall_forall in Hz. apply Hz.
      by eapply list_elem_of_lookup_2.
    + apply (IH i j Hx Hy). lia.
  - intros k t Ht Hp Hn.
    assert (Hd : (k, t) ∈ drop 100 (sort_by le all)).
    { assert (Hall : (k, t) ∈ sort_by le all) by (rewrite sort_by_perm; by apply pending_spec).
      rewrite <- (take_drop 100) in Hall. apply elem_of_app in Hall as [H|H]; [|done].
      by rewrite <- Hl in H. }
    split.
    + rewrite Hl, length_take. assert (0 < length (drop 100 (sort_by le all)))%nat as Hpos
        by (destruct (drop 100 _); [by apply elem_of_nil in Hd|simpl; lia]).
      rewrite length_drop in Hpos. lia.
    + intros x Hx. apply (fair_order_position _
        (λ kt, p ← posts db !! t_post kt.2; post_PublishAt p)).
      rewrite Hl in Hx. eapply sort_by_take; [| |exact Hx|exact Hd];
        [apply fair_order_total|apply fair_order_trans].
Qed.

(** ** Creation is atomic and idempotent *)
Lemma triple_exists {A X} (P : X → PostDB → Prop) (m : M PostDB A) Q :
  (∀ x, triple (P x) m Q) → triple (λ s, ∃ x, P x s) m Q.
Proof. intros H e s n a s' n' [x Hx] Hrun. by eapply H. Qed.

(** What the returned structs carry for the [i]-th target. *)
Definition numbered (p ts : Z) (l : list NewTarget) : list NewTarget :=
  imap (λ i t, mkNewTarget (ts + Z.of_nat i) p (n_PlatformAccountID t) (n_Status t)) l.
Definition has_row (t : NewTarget) (m : gmap Z TargetRow) : Prop :=
  ∃ r, m !! n_ID t = Some r ∧ t_post r = n_PostID t ∧ t_account r = n_PlatformAccountID t ∧
       t_status r = n_Status t.
Definition has_event (post : Post) (t : NewTarget) (id : Z) (m : gmap Z Outbox.OutboxEvent) : Prop :=
  ∃ ev, m !! id = Some ev ∧ Outbox.AggregateType ev = "post_target" ∧
    Outbox.AggregateID ev = n_ID t ∧ Outbox.EventType ev = "post_target.publish_requested" ∧
    Outbox.Payload ev = publish_payload post t ∧ Outbox.Status ev = "pending".

Definition at_serial (b ts : Z) (T : gmap Z TargetRow) (ps : gmap Z Post) (ob : Outbox.OutboxDB)
    (s : PostDB) : Prop :=
  (∀ k, k < b → targets s !! k = T !! k) ∧ target_serial s = ts ∧ T ⊆ targets s ∧ (∀ k, is_Some (targets s !! k) → k < ts) ∧
  posts s = ps ∧ outbox s = ob.
Lemma numbered_cons p ts t l :
  numbered p ts (t :: l) =
  mkNewTarget ts p (n_PlatformAccountID t) (n_Status t) :: numbered p (ts + 1) l.
Proof.
  unfold numbered. rewrite imap_cons. f_equal; [f_equal; lia|].
  apply imap_ext. intros i x _. simpl. f_equal. lia.
Qed.
Lemma insert_targets_rows p ps ob l : ∀ ts T,
  triple (at_serial ts ts T ps ob) (insert_targets p l)
    (λ l' s, at_serial ts (ts + Z.of_nat (length l)) T ps ob s ∧ l' = numbered p ts l ∧
       Forall (λ t, has_row t (targets s)) l').
Proof.
  induction l as [|t l IH]; intros ts T; simpl.
  { apply triple_ret. intros s Hs. rewrite Z.add_0_r. split; [done|]. split; [done|constructor]. }
  set (row_of := λ r : TargetRow, T !! ts = None ∧ t_post r = p ∧
    t_account r = n_PlatformAccountID t ∧ t_status r = n_Status t).
  eapply triple_bind with (Q := λ id s, id = ts ∧
    ∃ r, at_serial (ts + 1) (ts + 1) (<[ts := r]> T) ps ob s ∧ row_of r).
  - unfold insert_target. eapply triple_bind with (Q := λ o s, match o with
      | Inserted id => id = ts ∧ ∃ r, at_serial (ts + 1) (ts + 1) (<[ts := r]> T) ps ob s ∧ row_of r
      | _ => True end); [|intros [id| |]; [by apply triple_ret|apply triple_throw..]].
    apply triple_exec_status. intros e s (Hb & Hts & HT & Hk & Hps & Hob). unfold qInsertPostTarget.
    destruct (existsb _ _); [done|]. case_bool_decide; [done|]. simpl.
    assert (Hn : targets s !! ts = None).
    { apply eq_None_not_Some. intros Hx. apply Hk in Hx. lia. }
    split; [done|]. exists (new_target p (n_PlatformAccountID t) (n_Status t) e).
    split; [|split; [by eapply lookup_weaken_None|done]].
    unfold at_serial. simpl. rewrite Hts. split; [|split; [done|split; [by apply insert_mono|]]].
    + intros k Hk'. destruct (decide (k = ts)) as [->|Hne]; [by rewrite !lookup_insert_eq|].
      rewrite !lookup_insert_ne by done. apply Hb. lia.
    + split; [|done]. intros k. rewrite lookup_insert_is_Some. intros [<-|[_ Hx]]; [lia|].
      specialize (Hk k Hx). lia.
  - intros id.
    apply triple_weaken with (Q' := λ l' s, l' = numbered p ts (t :: l) ∧
        at_serial ts (ts + Z.of_nat (S (length l))) T ps ob s ∧ Forall (λ t, has_row t (targets s)) l')
      (P' := λ s, ∃ r, id = ts ∧ at_serial (ts + 1) (ts + 1) (<[ts := r]> T) ps ob s ∧ row_of r);
      [|intros s [? [r Hr]]; by exists r|naive_solver].
    apply triple_exists. intros r e s n a s' n' (-> & Hat & HTn & Hrp & Hra & Hrs) Hrun.
    apply bind_inr in Hrun as (l' & [s1 n1] & Hrun & Hret). injection Hret as <- <- <-.
    destruct (IH _ _ e s n l' s1 n1 Hat Hrun) as ((E0 & E1 & E2 & E3 & E4 & E5) & -> & Hf).
    split; [by rewrite numbered_cons|]. split.
    + split; [|split; [lia|split; [|split; [|done]]]].
      * intros k Hk. rewrite E0 by lia. apply lookup_insert_ne. lia.
      * etrans; [|exact E2]. by apply insert_subseteq.
      * intros k Hx. specialize (E3 k Hx). lia.
    + constructor; [|exact Hf]. exists r. split; [|done].
      eapply lookup_weaken; [|exact E2]. apply lookup_insert_eq.
Qed.

Definition at_event (ni : Z) (E : gmap Z Outbox.OutboxEvent) (T : gmap Z TargetRow)
    (ps : gmap Z Post) (s : PostDB) : Prop :=
  Outbox.next_id (outbox s) = ni ∧ E ⊆ Outbox.events (outbox s) ∧
  (∀ k, is_Some (Outbox.events (outbox s) !! k) → k < ni) ∧ targets s = T ∧ posts s = ps.
Lemma insert_events_events post T ps l : ∀ ni E,
  triple (at_event ni E T ps) (insert_events post l)
    (λ _ s, at_event (ni + Z.of_nat (length l)) E T ps s ∧
       ∀ i t, l !! i = Some t → has_event post t (ni + Z.of_nat i) (Outbox.events (outbox s))).
Proof.
  induction l as [|t l IH]; intros ni E; simpl.
  { apply triple_ret. intros s Hs. rewrite Z.add_0_r. split; [done|]. intros i t. by rewrite lookup_nil. }
  eapply triple_bind with (Q := λ _ s, ∃ ev, at_event (ni + 1) (<[ni := ev]> E) T ps s ∧
    E !! ni = None ∧ has_event post t ni (<[ni := ev]> E)).
  - apply triple_exec. intros e s (Hni & HE & Hk & HT & Hps). cbn [fst snd qInsertOutboxEvent].
    assert (Hn : Outbox.events (outbox s) !! ni = None).
    { apply eq_None_not_Some. intros Hx. apply Hk in Hx. lia. }
    eexists. split; [|split; [by eapply lookup_weaken_None|]].
    + unfold at_event. simpl. rewrite Hni. split; [done|]. split; [by apply insert_mono|].
      split; [|done]. intros k. rewrite lookup_insert_is_Some. intros [<-|[_ Hx]]; [lia|].
      specialize (Hk k Hx). lia.
    + eexists. rewrite lookup_insert_eq. split; [reflexivity|]. done.
  - intros []. apply triple_exists. intros ev e s n [] s' n' (Hat & HEn & Hev) Hrun.
    destruct (IH _ _ e s n tt s' n' Hat Hrun) as ((E1 & E2 & E3 & E4 & E5) & Hf).
    split.
    + split; [lia|]. split; [|split; [|done]].
      * etrans; [|exact E2]. by apply insert_subseteq.
      * intros k Hx. specialize (E3 k Hx). lia.
    + intros [|i] t' Ht'; simpl in Ht'.
      * injection Ht' as <-. destruct Hev as (ev' & Hl & Hrest). exists ev'. split; [|done].
        rewrite Z.add_0_r. by eapply lookup_weaken.
      * replace (ni + Z.of_nat (S i)) with (ni + 1 + Z.of_nat i) by lia. by apply Hf.
Qed.

(** The sequence of the outbox is ahead of its rows. *)
Definition outbox_fresh (db : PostDB) : Prop :=
  ∀ k, is_Some (Outbox.events (outbox db) !! k) → k < Outbox.next_id (outbox db).
(** The workspace and the media reference. *)
Definition same_media (q p : Post) : Prop :=
  post_WorkspaceID q = post_WorkspaceID p ∧ post_MediaAssetID q = post_MediaAssetID p ∧
  post_StorageObjectKey q = post_StorageObjectKey p ∧ post_Bucket q = post_Bucket p.
(** What a successful call left behind and returned. *)
Definition created (db : PostDB) (post : Post) (l : list NewTarget) (r : Post * list NewTarget)
    (db' : PostDB) : Prop :=
  post_of_job (post_UploadJobID post) db = None ∧
  post_ID r.1 = post_serial db ∧ r.2 = numbered (post_serial db) (target_serial db) l ∧
  (∃ q, posts db' = <[post_serial db := q]> (posts db) ∧ post_Status q = post_Status post ∧
     post_UploadJobID q = post_UploadJobID post ∧ post_ID q = post_serial db ∧ same_media q post) ∧
  targets db ⊆ targets db' ∧ (∀ k, k < target_serial db → targets db' !! k = targets db !! k) ∧
  Forall (λ t, has_row t (targets db')) r.2 ∧
  (∀ k, is_Some (targets db' !! k) → k < target_serial db + Z.of_nat (length l)) ∧
  Outbox.events (outbox db) ⊆ Outbox.events (outbox db') ∧
  Outbox.next_id (outbox db') = Outbox.next_id (outbox db) + Z.of_nat (length l) ∧
  ∀ i t, r.2 !! i = Some t →
    has_event r.1 t (Outbox.next_id (outbox db) + Z.of_nat i) (Outbox.events (outbox db')).
(** What a call that met an existing post returned. *)
Definition existing (db : PostDB) (post : Post) (l : list NewTarget) (r : Post * list NewTarget)
    (db' : PostDB) : Prop :=
  db' = db ∧ ∃ q, post_of_job (post_UploadJobID post) db = Some q ∧ post_ID r.1 = post_ID q ∧
    length (post_rows (post_ID q) db) = length l ∧
    (λ t, (n_ID t, n_Status t)) <$> r.2 = (λ kt, (kt.1, t_status kt.2)) <$> post_rows (post_ID q) db.

Lemma stamp_ids (l : list NewTarget) (rows : list (Z * TargetRow)) :
  length rows = length l →
  (λ t, (n_ID t, n_Status t)) <$> zip_with stamp l rows = (λ kt, (kt.1, t_status kt.2)) <$> rows.
Proof.
  revert rows. induction l as [|t l IH]; intros [|r rows]; simpl; try done. intros [= H].
  by rewrite IH.
Qed.
Lemma fetch_triple db u post l (Hu : post_UploadJobID post = Some u) :
  triple (λ s, s = db) (fetchExistingByUploadJobID u post l) (λ r s, existing db post l r s).
Proof.
  unfold fetchExistingByUploadJobID. eapply triple_bind; [apply triple_read|].
  intros [q|]; [|apply triple_throw]. eapply triple_bind; [apply triple_read|]. intros rows.
  destruct (negb _) eqn:Hlen; [apply triple_throw|].
  apply negb_false_iff, bool_decide_eq_true in Hlen.
  apply triple_ret. intros s [[-> Hq] ->]. split; [done|]. exists q. rewrite Hu.
  split; [done|]. split; [done|]. split; [done|]. by apply stamp_ids.
Qed.

Lemma numbered_length p ts l : length (numbered p ts l) = length l.
Proof. unfold numbered. by rewrite length_imap. Qed.

Definition with_ingest (env : Env) (p : Post) : Post :=
  if post_IngestAfter p =? 0 then set_ingest_after (app_now env) p else p.
Lemma with_ingest_same env p :
  post_UploadJobID (with_ingest env p) = post_UploadJobID p ∧
  post_Status (with_ingest env p) = post_Status p ∧ same_media (with_ingest env p) p.
Proof. unfold with_ingest. by destruct (_ =? _). Qed.

Lemma create_new_triple db post p1 q l e0 :
  db_ok db → outbox_fresh db → (qInsertPost p1 e0 db).1 = Some q →
  post_UploadJobID p1 = post_UploadJobID post → post_Status p1 = post_Status post → same_media p1 post →
  triple (λ s, s = (qInsertPost p1 e0 db).2)
    (let post := scanned_post p1 q in
     _ ← (if bool_decide (post_Metadata post = "") then mret tt
          else exec "failed to persist post metadata" (λ _ db,
            (tt, with_posts (alter (set_metadata (post_Metadata post)) (post_ID post) (posts db)) db)));
     l' ← insert_targets (post_ID post) l;
     _ ← insert_events post l';
     mret (Commit (post, l')))
    (λ out s, ∃ r, out = Commit r ∧ created db post l r s).
Proof.
  intros Hok Hob Hq Hu Hs Hmedia. unfold qInsertPost in *.
  destruct (post_of_job (post_UploadJobID p1) db) as [|] eqn:Hnone; [done|].
  simpl in Hq. injection Hq as <-. cbv zeta.
  set (post1 := scanned_post p1 (stored_post p1 (post_serial db) e0)).
  eapply triple_bind with (Q := λ _ s, ∃ q, at_serial (target_serial db) (target_serial db) (targets db)
    (<[post_serial db := q]> (posts db)) (outbox db) s ∧ post_Status q = post_Status post ∧
    post_UploadJobID q = post_UploadJobID post ∧ post_ID q = post_serial db ∧ same_media q post).
  { case_bool_decide.
    - apply triple_ret. intros s ->. exists (stored_post p1 (post_serial db) e0).
      split; [|by rewrite <- Hs, <- Hu]. do 3 (split; [done|]).
      split; [apply (ok_target _ Hok)|done].
    - apply triple_exec. intros e s ->. cbn [fst snd].
      exists (set_metadata (post_Metadata post1) (stored_post p1 (post_serial db) e0)).
      split; [|by rewrite <- Hs, <- Hu]. do 3 (split; [done|]).
      split; [apply (ok_target _ Hok)|]. simpl. split; [|done]. by rewrite alter_insert_eq. }
  intros []. apply triple_exists. intros q.
  eapply triple_weaken with (P' := λ s, (at_serial (target_serial db) (target_serial db) (targets db)
    (<[post_serial db := q]> (posts db)) (outbox db) s) ∧ (post_Status q = post_Status post ∧
    post_UploadJobID q = post_UploadJobID post ∧ post_ID q = post_serial db ∧ same_media q post));
    [|tauto|intros a s H; exact H].
  intros e s n out s' n' [Hat Hqq] Hrun.
  apply bind_inr in Hrun as (l' & [s1 n1] & Hrun1 & Hrun2).
  destruct (insert_targets_rows _ _ _ _ _ _ e s n l' s1 n1 Hat Hrun1)
    as ((A0 & A1 & A2 & A3 & A4 & A5) & -> & Hrows).
  apply bind_inr in Hrun2 as ([] & [s2 n2] & Hrun2 & Hret). injection Hret as <- <- <-.
  destruct (insert_events_events post1 (targets s1) (posts s1)
    (numbered (post_ID post1) (target_serial db) l) (Outbox.next_id (outbox db))
    (Outbox.events (outbox db)) e s1 n1 tt s2 n2) as ((E1 & E2 & E3 & E4 & E5) & Hev); [|exact Hrun2|].
  { unfold at_event. rewrite A5. split; [done|]. split; [done|].
    split; [apply Hob|done]. }
  rewrite numbered_length in E1.
  eexists. split; [reflexivity|]. unfold created. rewrite <- Hu. cbn [fst snd].
  split; [done|]. split; [done|]. split; [done|].
  split; [exists q; rewrite Hu, E5, A4; by destruct Hqq as (? & ? & ?)|].
  rewrite E4. do 6 (split; [done|]). exact Hev.
Qed.

Lemma Create_body_triple db post l :
  db_ok db → outbox_fresh db →
  ∀ e n out s' n', Create post l e (db, n) = (out, (s', n')) →
  match out with
  | inr r => created db post l r s' ∨ existing db post l r s'
  | inl _ => s' = db ∨ ∃ r, created db post l r s'
  end.
Proof.
  intros Hok Hob e n out s' n' Hrun. unfold Create in Hrun.
  match type of Hrun with transact ?o ?b _ _ = _ =>
    assert (Hb : triple (λ s, s = db) b (λ out s, ∃ r, out = Commit r ∧
      (created db post l r s ∨ existing db post l r s))); [|clear Hob; set (op := o) in *; set (body := b) in *]
  end.
  { eapply triple_bind; [apply triple_ask|]. intros env. fold (with_ingest env post).
    destruct (with_ingest_same env post) as (Hu & Hs & Hm).
    set (p1 := with_ingest env post) in *. cbv zeta.
    eapply triple_bind with (Q := λ o s, match o with
      | Some q => ∃ e0, (qInsertPost p1 e0 db).1 = Some q ∧ s = (qInsertPost p1 e0 db).2
      | None => s = db end).
    { apply triple_exec_status. intros e0 s ->. destruct (qInsertPost p1 e0 db).1 as [q|] eqn:E.
      - by exists e0.
      - unfold qInsertPost in *. by destruct (post_of_job _ _). }
    intros [q|].
    - apply triple_exists. intros e0.
      intros e1 s n1 out1 s1 n2 [Hq ->] Hr.
      destruct (create_new_triple db post p1 q l e0 Hok Hob Hq Hu Hs Hm e1 _ n1 out1 s1 n2 eq_refl Hr)
        as (r & -> & Hc). exists r. auto.
    - destruct (post_UploadJobID p1) as [u|] eqn:Hpu; [|apply triple_throw].
      eapply triple_bind; [apply fetch_triple; done|]. intros r. apply triple_ret. intros s He.
      exists r. split; [done|]. right. unfold existing in *. rewrite Hpu in He. by rewrite <- Hu. }
  clearbody body. unfold transact in Hrun. destruct (fault e n); [|by simplify_eq; left..].
  destruct (body e (db, S n)) as [[er|o] [s1 n1]] eqn:E; [by simplify_eq; left|].
  destruct (Hb e db _ _ _ _ eq_refl E) as (r & -> & Hr).
  destruct (fault e n1); simplify_eq; [done|by left|].
  destruct Hr as [Hr|[-> Hr]]; [right; by exists r|by left].
Qed.

Lemma filter_perm {A} (f : A → bool) (l l' : list A) :
  l ≡ₚ l' → List.filter f l ≡ₚ List.filter f l'.
Proof.
  induction 1 as [|x l l' _ IH|x y l|l1 l2 l3 _ IH1 _ IH2]; simpl; [done| | |by etrans].
  - destruct (f x); [by constructor|done].
  - destruct (f x), (f y); (reflexivity || constructor).
Qed.

(** Creating again with the same upload job meets the first post. *)
Lemma created_post_of_job db post l r db' u :
  created db post l r db' → post_UploadJobID post = Some u →
  ∃ q, post_of_job (Some u) db' = Some q ∧ post_ID q = post_ID r.1.
Proof.
  intros (Hnone & Hid & _ & (q & Hq & _ & Hqu & Hqid & _) & _) Hu. exists q. rewrite Hid.
  split; [|done]. rewrite Hu in *. unfold post_of_job in *. rewrite Hq.
  set (P := λ p, bool_decide (post_UploadJobID p = Some u)) in *.
  assert (Hm : List.filter P (map_to_list (posts db)).*2 = []).
  { by destruct (List.filter P _). }
  assert (Hp : List.filter P (map_to_list (<[post_serial db := q]> (posts db))).*2 = [q]).
  { apply Permutation_singleton_r. rewrite <- (insert_delete_eq (posts db) (post_serial db)).
    etrans; [apply filter_perm, fmap_Permutation, (map_to_list_insert (delete (post_serial db)
      (posts db)) (post_serial db) q (lookup_delete_eq (posts db) (post_serial db)))|].
    simpl. unfold P at 1. rewrite bool_decide_eq_true_2 by done. constructor.
    destruct (List.filter P (map_to_list (delete (post_serial db) (posts db))).*2) as [|x f] eqn:E.
    { unfold fmap in E. by rewrite E. }
    exfalso.
    assert (Hx : In x (List.filter P (map_to_list (delete (post_serial db) (posts db))).*2))
      by (rewrite E; left; done).
    apply filter_In in Hx as [Hx HP]. rewrite <- list_elem_of_In in Hx.
    apply list_elem_of_fmap in Hx as ([k x'] & -> & Hx). apply elem_of_map_to_list in Hx.
    apply lookup_delete_Some in Hx as [_ Hx].
    assert (H : In x' (List.filter P (map_to_list (posts db)).*2)).
    { apply filter_In. split; [|done]. rewrite <- list_elem_of_In. apply list_elem_of_fmap.
      exists (k, x'). split; [done|]. by apply elem_of_map_to_list. }
    by rewrite Hm in H. }
  by rewrite Hp.
Qed.

Lemma numbered_lookup p ts l x :
  x ∈ numbered p ts l → n_PostID x = p ∧ ts ≤ n_ID x < ts + Z.of_nat (length l).
Proof.
  unfold numbered. rewrite elem_of_lookup_imap. intros (i & t & -> & Ht). simpl.
  apply lookup_lt_Some in Ht. lia.
Qed.
Lemma numbered_ids p ts l k :
  k ∈ n_ID <$> numbered p ts l ↔ ts ≤ k < ts + Z.of_nat (length l).
Proof.
  rewrite list_elem_of_fmap. split; [intros (x & -> & Hx); by apply numbered_lookup in Hx as [_ Hx]|].
  intros Hk. destruct (l !! Z.to_nat (k - ts)) as [t|] eqn:Ht.
  - eexists. split; [|apply elem_of_lookup_imap; exists (Z.to_nat (k - ts)), t; done]. simpl. lia.
  - apply lookup_ge_None in Ht. lia.
Qed.
Lemma numbered_NoDup p ts l : NoDup (n_ID <$> numbered p ts l).
Proof.
  revert ts. induction l as [|t l IH]; intros ts; [constructor|].
  rewrite numbered_cons. simpl. constructor; [|apply IH]. rewrite numbered_ids. lia.
Qed.

(** The rows of a created post are the returned ones. *)
Lemma created_rows db post l r db' :
  db_ok db → created db post l r db' →
  (post_rows (post_ID r.1) db').*1 ≡ₚ n_ID <$> r.2.
Proof.
  intros Hok (_ & -> & -> & _ & _ & Hold & Hrows & Hbound & _).
  apply NoDup_Permutation; [|apply numbered_NoDup|].
  { unfold post_rows. rewrite sort_by_perm. apply filter_NoDup_fst, NoDup_fst_map_to_list. }
  intros k. rewrite numbered_ids. unfold post_rows. rewrite sort_by_perm, list_elem_of_fmap.
  split.
  - intros ([k' t] & -> & Hx). rewrite list_elem_of_In, filter_In, <- list_elem_of_In,
      elem_of_map_to_list in Hx. destruct Hx as [Hx Hp]. simpl in *. apply Z.eqb_eq in Hp.
    split; [|by apply Hbound; exists t]. destruct (decide (target_serial db ≤ k')); [done|exfalso].
    rewrite Hold in Hx by lia. destruct (ok_fk _ Hok _ _ Hx) as [q Hq].
    apply (ok_id _ Hok) in Hq. lia.
  - intros Hk. rewrite <- (numbered_ids (post_serial db)) in Hk.
    apply list_elem_of_fmap in Hk as (x & -> & Hx).
    rewrite Forall_forall in Hrows. destruct (Hrows x Hx) as (t & Ht & Hp & _).
    apply numbered_lookup in Hx as [Hx _].
    exists (n_ID x, t). split; [done|]. rewrite list_elem_of_In, filter_In, <- list_elem_of_In.
    split; [by apply elem_of_map_to_list|]. simpl. apply Z.eqb_eq. by rewrite Hp.
Qed.

(** A call with the upload job of a stored post. *)
Lemma Create_again post l u q e db n :
  reliable e → post_UploadJobID post = Some u → post_Status post ∈ post_status_labels →
  post_of_job (Some u) db = Some q → length (post_rows (post_ID q) db) = length l →
  ∃ r n', Create post l e (db, n) = (inr r, (db, n')) ∧ post_ID r.1 = post_ID q ∧
    n_ID <$> r.2 = (post_rows (post_ID q) db).*1.
Proof.
  intros Hrel Hu Hs Hq Hlen. unfold Create. eexists _, _. split; [|split].
  - apply transact_fine; [done|]. erewrite bind_run by reflexivity.
    fold (with_ingest e post). destruct (with_ingest_same e post) as (Hu' & Hs' & _).
    rewrite <- Hu in Hq. rewrite <- Hu' in Hu, Hq. rewrite <- Hs' in Hs. cbv zeta.
    set (p1 := with_ingest e post) in *.
    erewrite bind_run.
    2: { unfold exec_status. cbn [forallb]. rewrite bool_decide_eq_true_2 by done. cbn [andb].
         rewrite exec_fine by done. unfold qInsertPost. rewrite Hq. reflexivity. }
    cbn [fst snd]. rewrite Hu. rewrite Hu in Hq. erewrite bind_run; [reflexivity|].
    unfold fetchExistingByUploadJobID. erewrite bind_run by apply exec_fine, Hrel.
    cbn [fst snd]. rewrite Hq. erewrite bind_run by apply exec_fine, Hrel. cbn [fst snd].
    rewrite bool_decide_eq_true_2 by done. reflexivity.
  - done.
  - pose proof (stamp_ids l _ Hlen) as H. apply (f_equal (fmap fst)) in H.
    rewrite <- !list_fmap_compose in H. exact H.
Qed.
(** Calling again with the same upload job finds the post and the targets of
    [r] and changes nothing. *)
Definition retry_is_noop (post : Post) (l : list NewTarget) (r : Post * list NewTarget)
    (db : PostDB) : Prop :=
  ∀ u e n, post_UploadJobID post = Some u → reliable e →
    ∃ r' n', Create post l e (db, n) = (inr r', (db, n')) ∧ post_ID r'.1 = post_ID r.1 ∧
      n_ID <$> r'.2 ≡ₚ n_ID <$> r.2.
Lemma created_retry db post l r db' :
  db_ok db → post_Status post ∈ post_status_labels → created db post l r db' →
  retry_is_noop post l r db'.
Proof.
  intros Hok Hs Hc u e n Hu Hrel. destruct (created_post_of_job _ _ _ _ _ u Hc Hu) as (q & Hq & Hid).
  pose proof (created_rows _ _ _ _ _ Hok Hc) as Hrows. rewrite <- Hid in Hrows.
  destruct (Create_again post l u q e db' n Hrel Hu Hs Hq) as (r' & n' & Hrun & Hr & Hids).
  { pose proof (Permutation_length Hrows) as H. rewrite !length_fmap in H. rewrite H.
    destruct Hc as (_ & _ & -> & _). apply numbered_length. }
  exists r', n'. by rewrite Hr, Hids.
Qed.
Lemma existing_retry db post l r :
  post_Status post ∈ post_status_labels → existing db post l r db → retry_is_noop post l r db.
Proof.
  intros Hs (_ & q & Hq & Hid & Hlen & Hids) u e n Hu Hrel. rewrite Hu in Hq.
  destruct (Create_again post l u q e db n Hrel Hu Hs Hq Hlen) as (r' & n' & Hrun & Hr & Hids').
  exists r', n'. rewrite Hr, Hid, Hids'. split; [done|]. split; [done|].
  apply (f_equal (fmap fst)) in Hids. rewrite <- !list_fmap_compose in Hids.
  change (n_ID <$> r.2 = fst <$> post_rows (post_ID q) db) in Hids. by rewrite Hids.
Qed.

(** C6: a post is created all at once and once per upload job.  Whatever fails,
    a call either changes nothing or stores the post, every target in its
    status under the ids it returns, and one pending outbox event per target
    that carries the payload of that target; a successful call without effect
    returns the stored post of the same upload job with its own targets.  In
    each case, also when only the acknowledgement of the commit was lost, calling
    again with the same upload job returns the same post and targets and
    changes nothing. *)
Theorem Create_exactly_once (post : Post) (l : list NewTarget) (e : Env) (db : PostDB) (n : nat)
    (Hok : db_ok db) (Hob : outbox_fresh db) (Hs : post_Status post ∈ post_status_labels) :
  let run := Create post l e (db, n) in
  match result_of run with
  | inr r => (created db post l r (state_of run) ∨ existing db post l r (state_of run)) ∧
             retry_is_noop post l r (state_of run)
  | inl _ => state_of run = db ∨
             ∃ r, created db post l r (state_of run) ∧ retry_is_noop post l r (state_of run)
  end.
Proof.
  intros run. destruct run as [[er|r] [db' n']] eqn:E; unfold state_of; simpl;
    pose proof (Create_body_triple db post l Hok Hob e n _ _ _ E) as H.
  - destruct H as [->|[r Hr]]; [by left|right]. exists r. split; [done|]. by eapply created_retry.
  - split; [done|]. destruct H as [Hr|Hr]; [by eapply created_retry|].
    pose proof Hr as [-> _]. by apply existing_retry.
Qed.
Lemma Create_exactly_once_witness :
  let db := run_history [(sample_env 100, OpCreate sample_post sample_targets)] empty_db in
  ∃ r, result_of (Create sample_post sample_targets (sample_env 200) (db, O)) = inr r ∧
    retry_is_noop sample_post sample_targets r
      (state_of (Create sample_post sample_targets (sample_env 200) (db, O))).
Proof.
  intros db.
  assert (Hok : db_ok db).
  { apply sample_ok. split; [left; vm_compute; reflexivity|exact I]. }
  assert (Hob : outbox_fresh db).
  { intros k [v Hk].
    assert (H : map_Forall (λ k _, k < Outbox.next_id (outbox db)) (Outbox.events (outbox db)))
      by (apply (bool_decide_unpack _); vm_compute; exact I).
    exact (H k v Hk). }
  assert (Hs : post_Status sample_post ∈ post_status_labels) by (apply list_elem_of_In; vm_compute; tauto).
  pose proof (Create_exactly_once sample_post sample_targets (sample_env 200) db O Hok Hob Hs) as H.
  cbv zeta in H. destruct (result_of (Create sample_post sample_targets (sample_env 200) (db, O)))
    as [er|r] eqn:E; [vm_compute in E; discriminate|].
  exists r. split; [reflexivity|]. exact (proj2 H).
Defined.
