(* ===== verification/GoError.v ===== *)
(** * Go error trees and the typed errors of the providers

    The workers decide what to do with a failed job by looking into its error:
    [errors.Is] and [errors.As] walk the tree of wrapped errors, and the
    concrete types of [src/internal/services] (and two of [internal/worker])
    carry statuses, delays and classes.  An error is a node with its dynamic
    type and the errors that [Unwrap] returns.  A nil pointer inside a non-nil
    error value is not modelled.  Text is compared on ASCII. *)

From S2P Require Import Prelude.
From Stdlib Require Import ZArith Lia.
Local Open Scope Z_scope.

(** ** [strings] *)
(** [strings.Contains]. *)
Fixpoint Contains (s sub : string) : bool :=
  match string_prefix_drop sub s with
  | Some _ => true
  | None => match s with "" => false | String _ s' => Contains s' sub end
  end.
(** [strings.ReplaceAll] of one byte. *)
Fixpoint ReplaceByte (a b : ascii) (s : string) : string :=
  match s with
  | "" => ""
  | String c s' => String (if Ascii.eqb c a then b else c) (ReplaceByte a b s')
  end.

(** ** Dynamic types *)
(* Source: internal/services/provider_error.go *)
(* 112-122 ProviderError *)
Record ProviderError := mkProviderError {
  pe_Code : string;
  pe_Platform : string;
  pe_Retryable : bool;
  pe_RetryAfter : Z;
  pe_ProviderCode : string;
  pe_SafeMessage : string;
  pe_RequestID : string;
  pe_StatusCode : Z
}.
(* Source: internal/services/youtube_channel_retry.go *)
(* 12-16 YouTubeAPIError *)
Record YouTubeAPIError := mkYouTubeAPIError {
  ya_StatusCode : Z;
  ya_Category : string;
  ya_Message : string
}.
(* 46-57 YouTubeAPIError.Transient *)
Definition Transient (e : YouTubeAPIError) : bool :=
  if bool_decide (ya_Category e = "network") then true
  else if ya_StatusCode e =? 429 then true
  else if 500 <=? ya_StatusCode e then true
  else false.
(* Source: internal/services/youtube_live_gateway.go *)
(* 39-46 YouTubeLiveError *)
Record YouTubeLiveError := mkYouTubeLiveError {
  yl_Code : string;
  yl_Operation : string;
  yl_Reason : string;
  yl_StatusCode : Z;
  yl_RetryAfter : Z
}.
(* Source: internal/services/oauth_grant_revocation.go *)
(* 25-31 OAuthGrantRevocationError *)
Record OAuthGrantRevocationError := mkOAuthGrantRevocationError {
  rv_StatusCode : Z;
  rv_Code : string;
  rv_Class : string;
  rv_RetryAfter : Z
}.

Inductive Dyn :=
| DSentinel (name text : string)    (* a package-level errors.New *)
| DNew (text : string)              (* any other errors.New *)
| DWrap (text : string)             (* fmt.Errorf with %w verbs, formatted *)
| DJoin                             (* errors.Join of non-nil errors *)
| DCanceled                         (* context.Canceled *)
| DDeadline                         (* context.DeadlineExceeded *)
| DNet (text : string) (timeout temporary : bool) (* a net.Error of net/http *)
| DAuth (code : string)             (* *AuthenticationError *)
| DProvider (e : ProviderError)
| DRateLimit (retryAfter : Z)       (* *RateLimitError *)
| DRetryAfter (delay : Z)           (* *RetryAfterError *)
| DYouTube (e : YouTubeAPIError)
| DLive (e : YouTubeLiveError)
| DRevocation (e : OAuthGrantRevocationError)
| DTerminalPublish (state : string) (* *TerminalPublishError *)
| DPermanentPublish                 (* *PermanentPublishError *)
| DTransient                        (* transientError of the downloader *)
| DTerminal                         (* terminalError of the downloader *)
| DPermanent (code message : string). (* PermanentError of the worker *)

Inductive GoErr := mkGoErr (dyn : Dyn) (wrapped : list GoErr).
Definition leaf (d : Dyn) : GoErr := mkGoErr d [].

(* Source: internal/services/provider.go *)
Definition ErrPermanentUpload : string := "ErrPermanentUpload". (* 188 *)
(* Source: internal/services/provider_async_publisher.go *)
Definition ErrPublishTerminal : string := "ErrPublishTerminal". (* 39 *)
Definition ErrPublishPermanent : string := "ErrPublishPermanent". (* 74 *)
(* Source: internal/worker/permanent_error.go *)
Definition ErrPermanent : string := "ErrPermanent". (* 34 *)

(** ** [errors.Is] and [errors.As] *)
(** The two publish errors unwrap to [errors.Join] of their sentinel and the
    cause: what the walk meets before the cause. *)
(* Source: internal/services/provider_async_publisher.go *)
(* 60-65 TerminalPublishError.Unwrap *)
Definition terminal_unwrap : list Dyn :=
  [DJoin; DSentinel ErrPublishTerminal "publish reached terminal provider state"].
(* 89-94 PermanentPublishError.Unwrap *)
Definition permanent_unwrap : list Dyn :=
  [DJoin; DSentinel ErrPublishPermanent "publish reconciliation permanent error"].
Definition own_unwrap (d : Dyn) : list Dyn :=
  match d with
  | DTerminalPublish _ => terminal_unwrap
  | DPermanentPublish => permanent_unwrap
  | _ => []
  end.
(** The nodes in the order of the walk: depth first, a node before what it
    wraps. *)
Fixpoint chain (e : GoErr) : list Dyn :=
  match e with
  | mkGoErr d l =>
      d :: own_unwrap d ++
      (fix go l := match l with [] => [] | e :: l => chain e ++ go l end) l
  end.
(** Identity with a sentinel, or the type's own [Is] method. *)
(* Source: internal/worker/permanent_error.go *)
(* 49-51 PermanentError.Is *)
Definition is_target (name : string) (d : Dyn) : bool :=
  match d with
  | DSentinel n _ => bool_decide (n = name)
  | DCanceled => bool_decide (name = "context.Canceled")
  | DDeadline => bool_decide (name = "context.DeadlineExceeded")
  | DPermanent _ _ => bool_decide (name = ErrPermanent)
  | _ => false
  end.
Definition Is (e : GoErr) (name : string) : bool := existsb (is_target name) (chain e).
Definition As {A} (f : Dyn → option A) (e : GoErr) : option A := first_some f (chain e).

Definition as_auth (d : Dyn) := match d with DAuth c => Some c | _ => None end.
(* Source: internal/services/provider_error.go *)
(* 158-164 IsProviderError *)
Definition as_provider (d : Dyn) := match d with DProvider e => Some e | _ => None end.
Definition as_rate_limit (d : Dyn) := match d with DRateLimit r => Some r | _ => None end.
Definition as_youtube (d : Dyn) := match d with DYouTube e => Some e | _ => None end.
Definition as_live (d : Dyn) := match d with DLive e => Some e | _ => None end.
Definition as_revocation (d : Dyn) := match d with DRevocation e => Some e | _ => None end.
Definition as_retry_after (d : Dyn) := match d with DRetryAfter r => Some r | _ => None end.
(* Source: internal/services/oauth_grant_revocation.go *)
(* 53-55 OAuthGrantRevocationError.IsTransient *)
Definition revocation_transient (e : OAuthGrantRevocationError) : bool :=
  bool_decide (rv_Class e = "transient").
(** [interface{ IsTransient() bool }] and [interface{ IsPermanent() bool }]. *)
Definition as_transient (d : Dyn) : option bool :=
  match d with
  | DRevocation e => Some (revocation_transient e)
  | DTransient => Some true
  | _ => None
  end.
Definition as_permanent (d : Dyn) : option bool :=
  match d with DTerminal => Some true | DPermanent _ _ => Some true | _ => None end.
(** [interface{ RetryAfterDuration() time.Duration }]. *)
(* Source: internal/services/provider_error.go *)
(* 148-153 ProviderError.RetryAfterDuration *)
Definition provider_RetryAfterDuration (e : ProviderError) : Z :=
  if pe_RetryAfter e <=? 0 then 0 else pe_RetryAfter e.
(* Source: internal/services/provider.go *)
(* 178-183 RetryAfterError.RetryAfterDuration *)
Definition delay_RetryAfterDuration (delay : Z) : Z := if delay <=? 0 then 0 else delay.
(* 145-150 RateLimitError.RetryAfterDuration *)
Definition as_carrier (d : Dyn) : option Z :=
  match d with
  | DProvider e => Some (provider_RetryAfterDuration e)
  | DRateLimit r => Some r
  | DRetryAfter r => Some (delay_RetryAfterDuration r)
  | _ => None
  end.
(** [net.Error]: its two methods. *)
Definition as_net (d : Dyn) : option (bool * bool) :=
  match d with
  | DNet _ timeout temporary => Some (timeout, temporary)
  | DDeadline => Some (true, true)
  | _ => None
  end.

(** ** [Error()] *)
(* Source: internal/services/provider_error.go *)
(* 127-135 ProviderError.Error *)
Definition provider_text (e : ProviderError) : string :=
  if bool_decide (pe_SafeMessage e = "") then pe_Platform e +:+ ": " +:+ pe_Code e
  else pe_Platform e +:+ ": " +:+ pe_Code e +:+ " (" +:+ pe_SafeMessage e +:+ ")".
(* Source: internal/services/oauth_grant_revocation.go *)
(* 33-44 OAuthGrantRevocationError.Error *)
Definition revocation_text (e : OAuthGrantRevocationError) : string :=
  if 0 <? rv_StatusCode e then
    if bool_decide (rv_Code e = "") then
      "oauth grant revocation failed (status " +:+ itoa (rv_StatusCode e) +:+ ")"
    else "oauth grant revocation failed (status " +:+ itoa (rv_StatusCode e) +:+ ", code " +:+
         rv_Code e +:+ ")"
  else "oauth grant revocation failed (transport error)".
(* Source: internal/services/youtube_live_gateway.go *)
(* 48-56 YouTubeLiveError.Error *)
Definition live_text (e : YouTubeLiveError) : string :=
  if bool_decide (yl_Operation e = "") then "youtube live: " +:+ yl_Code e
  else "youtube live " +:+ yl_Operation e +:+ ": " +:+ yl_Code e.
(* Source: internal/services/provider.go *)
(* 161-169 RetryAfterError.Error *)
Definition retry_after_text (delay : Z) (causes : list string) : string :=
  match causes with
  | [] => "retryable provider error: retry after " +:+ Duration_String delay
  | c :: _ => c +:+ ": retry after " +:+ Duration_String delay
  end.
(* Source: internal/services/provider_async_publisher.go *)
(* 50-58 TerminalPublishError.Error *)
Definition terminal_publish_text (state : string) (causes : list string) : string :=
  match causes with
  | [] => "publish terminal state: " +:+ state
  | c :: _ => "publish terminal state " +:+ state +:+ ": " +:+ c
  end.
(* 82-87 PermanentPublishError.Error *)
Definition permanent_publish_text (causes : list string) : string :=
  default "publish reconciliation permanent error" (head causes).
(** The other one-line [Error] methods inline. *)
Fixpoint Error (e : GoErr) : string :=
  match e with
  | mkGoErr d l =>
      let texts := (fix go l := match l with [] => [] | e :: l => Error e :: go l end) l in
      match d with
      | DSentinel _ text | DNew text | DWrap text | DNet text _ _ => text
      | DJoin => Join texts (bytes [10%N])
      | DCanceled => "context canceled"
      | DDeadline => "context deadline exceeded"
      | DAuth code => if bool_decide (code = "") then "authentication error" else code
      | DProvider e => provider_text e
      | DRateLimit r => "rate limited: retry after " +:+ Duration_String r
      | DRetryAfter r => retry_after_text r texts
      | DYouTube e => ya_Message e
      | DLive e => live_text e
      | DRevocation e => revocation_text e
      | DTerminalPublish state => terminal_publish_text state texts
      | DPermanentPublish => permanent_publish_text texts
      | DTransient | DTerminal => default "" (head texts)
      | DPermanent code message => code +:+ ": " +:+ message
      end
  end.
(** [fmt.Errorf("%s: %w", prefix, e)]. *)
Definition Errorf_w (prefix : string) (e : GoErr) : GoErr :=
  mkGoErr (DWrap (prefix +:+ ": " +:+ Error e)) [e].

(** The store's error as a Go error value. *)
Definition of_err (er : err) : GoErr :=
  mkGoErr (DNew (err_text er)) ((λ n, leaf (DSentinel n n)) <$> err_chain er).

(** ** Lemmas *)
Lemma first_some_Some {A B} (f : A → option B) l b :
  first_some f l = Some b → ∃ a, a ∈ l ∧ f a = Some b.
Proof.
  induction l as [|a l IH]; simpl; [done|]. destruct (f a) eqn:E.
  - intros [= <-]. exists a. split; [left|done].
  - intros H. destruct (IH H) as (x & Hx & Hf). exists x. split; [by right|done].
Qed.
Lemma first_some_None {A B} (f : A → option B) l :
  first_some f l = None ↔ ∀ a, a ∈ l → f a = None.
Proof.
  induction l as [|a l IH]; simpl; [set_solver|]. destruct (f a) eqn:E.
  - split; [done|]. intros H. rewrite (H a) in E by left. done.
  - rewrite IH. setoid_rewrite elem_of_cons. naive_solver.
Qed.
Lemma chain_head e : ∃ d l, chain e = d :: l ∧ ∃ w, e = mkGoErr d w.
Proof. destruct e as [d w]. simpl. eauto. Qed.
Lemma Is_wrap prefix e name : Is (Errorf_w prefix e) name = Is e name.
Proof. unfold Is, Errorf_w. simpl. by rewrite app_nil_r. Qed.
Lemma As_wrap {A} (f : Dyn → option A) prefix e :
  f (DWrap (prefix +:+ ": " +:+ Error e)) = None → As f (Errorf_w prefix e) = As f e.
Proof. intros H. unfold As, Errorf_w. simpl. rewrite app_nil_r. by rewrite H. Qed.
