(* ===== verification/ErrorClass.v ===== *)
(** * Classification of provider errors

    [src/internal/services/provider_error.go] and [error_classification.go]: HTTP
    statuses and error trees become one decision, a [NormalizedError] with a kind,
    on which the workers retry, cool down, ask for a new login or give up. *)

From S2P Require Import Prelude GoError.
From Stdlib Require Import ZArith Lia.
Local Open Scope Z_scope.

(** ** The provider taxonomy *)
(* Source: internal/services/provider_error.go *)
Definition ErrorCodeValidationError : string := "validation_error". (* 34 *)
Definition ErrorCodeAuthenticationError : string := "authentication_error". (* 35 *)
Definition ErrorCodePermissionMissing : string := "permission_missing". (* 36 *)
Definition ErrorCodeReauthenticationRequired : string := "reauthentication_required". (* 37 *)
Definition ErrorCodeRateLimited : string := "rate_limited". (* 38 *)
Definition ErrorCodeProviderUnavailable : string := "provider_unavailable". (* 39 *)
Definition ErrorCodeMediaProcessingFailed : string := "media_processing_failed". (* 40 *)
Definition ErrorCodeContentRejected : string := "content_rejected". (* 41 *)
Definition ErrorCodeQuotaExceeded : string := "quota_exceeded". (* 42 *)
Definition ErrorCodeInternalError : string := "internal_error". (* 43 *)
(* 49-62 AllProviderErrorCodes *)
Definition AllProviderErrorCodes : list string :=
  [ErrorCodeValidationError; ErrorCodeAuthenticationError; ErrorCodePermissionMissing;
   ErrorCodeReauthenticationRequired; ErrorCodeRateLimited; ErrorCodeProviderUnavailable;
   ErrorCodeMediaProcessingFailed; ErrorCodeContentRejected; ErrorCodeQuotaExceeded;
   ErrorCodeInternalError].
(* 66-76 IsValidProviderErrorCode *)
Definition IsValidProviderErrorCode (code : string) : bool :=
  bool_decide (code ∈ [ErrorCodeValidationError; ErrorCodeAuthenticationError;
    ErrorCodePermissionMissing; ErrorCodeReauthenticationRequired; ErrorCodeRateLimited;
    ErrorCodeProviderUnavailable; ErrorCodeMediaProcessingFailed; ErrorCodeContentRejected;
    ErrorCodeQuotaExceeded; ErrorCodeInternalError]).
(* 192-214 MapHTTPStatus *)
Definition MapHTTPStatus (statusCode : Z) : string :=
  if statusCode =? 400 then ErrorCodeValidationError
  else if statusCode =? 401 then ErrorCodeAuthenticationError
  else if statusCode =? 402 then ErrorCodeQuotaExceeded
  else if statusCode =? 403 then ErrorCodePermissionMissing
  else if (statusCode =? 404) || (statusCode =? 410) then ErrorCodeContentRejected
  else if statusCode =? 429 then ErrorCodeRateLimited
  else if (500 <=? statusCode) && (statusCode <? 600) then ErrorCodeProviderUnavailable
  else if (400 <=? statusCode) && (statusCode <? 500) then ErrorCodeValidationError
  else ErrorCodeInternalError.
(* 334-343 isRetryable *)
Definition isRetryable (code : string) : bool :=
  bool_decide (code ∈ [ErrorCodeRateLimited; ErrorCodeProviderUnavailable;
                       ErrorCodeMediaProcessingFailed; ErrorCodeInternalError]).
(* 355-358 buildSafeMessage *)
Definition buildSafeMessage (platform code : string) (status : Z) : string :=
  platform +:+ " operation failed (status " +:+ itoa status +:+ "): " +:+
  ReplaceByte "_" " " code.
(* 172-181 NewRateLimitError *)
Definition NewRateLimitError (platform : string) (retryAfter : Z) : GoErr :=
  leaf (DProvider (mkProviderError ErrorCodeRateLimited platform true retryAfter ""
    (buildSafeMessage platform ErrorCodeRateLimited 429) "" 429)).

(** What the parsers of bodies and headers extract is an argument: the
    provider's code, its request id, the delay of the body, whether a Meta body
    says rate limit, and the delay of the throttling headers. *)
Record ParsedResponse := mkParsedResponse {
  providerCode : string;
  requestID : string;
  extraRetryAfter : Z;
  metaIsRateLimit : bool;
  throttleHeaders : Z
}.
(* 261-326 NewProviderError *)
Definition NewProviderError (platform : string) (status : Z) (body : string) (r : ParsedResponse)
    (cause : option GoErr) : GoErr :=
  let code := MapHTTPStatus status in
  let code := if metaIsRateLimit r then ErrorCodeRateLimited else code in
  let cause :=
    match cause with
    | None => if negb (bool_decide (body = "")) then
                Some (leaf (DNew "provider response body redacted"))
              else None
    | _ => cause
    end in
  let retryAfter := throttleHeaders r in
  let retryAfter := if (retryAfter =? 0) && (0 <? extraRetryAfter r) then extraRetryAfter r
                    else retryAfter in
  mkGoErr (DProvider (mkProviderError code platform (isRetryable code) retryAfter (providerCode r)
             (buildSafeMessage platform code status) (requestID r) status))
          (option_list cause).
(* 524-531 firstNonEmpty *)
Fixpoint firstNonEmpty (values : list string) : string :=
  match values with
  | [] => ""
  | v :: values => if negb (bool_decide (v = "")) then v else firstNonEmpty values
  end.

(** ** Outcome labels of the metrics *)
Definition PublishOutcomeSuccess : string := "success". (* 548 *)
Definition PublishOutcomeRateLimited : string := "rate_limited". (* 549 *)
Definition PublishOutcomeAuthError : string := "auth_error". (* 550 *)
Definition PublishOutcomeProviderUnavail : string := "provider_unavail". (* 551 *)
Definition PublishOutcomeMediaFailed : string := "media_failed". (* 552 *)
Definition PublishOutcomeContentRejected : string := "content_rejected". (* 553 *)
Definition PublishOutcomeValidation : string := "validation". (* 554 *)
Definition PublishOutcomeQuota : string := "quota". (* 555 *)
Definition PublishOutcomeInternal : string := "internal". (* 556 *)
(* 570-593 PublishOutcomeFromCode *)
Definition PublishOutcomeFromCode (code : string) : string :=
  if bool_decide (code = "") then PublishOutcomeSuccess
  else if bool_decide (code = ErrorCodeRateLimited) then PublishOutcomeRateLimited
  else if bool_decide (code ∈ [ErrorCodeAuthenticationError; ErrorCodePermissionMissing;
                               ErrorCodeReauthenticationRequired]) then PublishOutcomeAuthError
  else if bool_decide (code = ErrorCodeProviderUnavailable) then PublishOutcomeProviderUnavail
  else if bool_decide (code = ErrorCodeMediaProcessingFailed) then PublishOutcomeMediaFailed
  else if bool_decide (code = ErrorCodeContentRejected) then PublishOutcomeContentRejected
  else if bool_decide (code = ErrorCodeQuotaExceeded) then PublishOutcomeQuota
  else if bool_decide (code = ErrorCodeValidationError) then PublishOutcomeValidation
  else if bool_decide (code = ErrorCodeInternalError) then PublishOutcomeInternal
  else PublishOutcomeInternal.

(** ** Normalized errors *)
(* Source: internal/services/error_classification.go *)
Definition ErrorKindTransient : string := "transient". (* 21 *)
Definition ErrorKindRateLimited : string := "rate_limited". (* 22 *)
Definition ErrorKindAuth : string := "auth". (* 23 *)
Definition ErrorKindPermanent : string := "permanent". (* 24 *)
(* 30-39 NormalizedError *)
Record NormalizedError := mkNormalizedError {
  Provider : string;
  Operation : string;
  Kind : string;
  Code : string;
  HTTPStatus : Z;
  Retryable : bool;
  RetryAfter : Z;
  Cause : GoErr
}.
(* 83-108 ClassifyHTTPStatus *)
Definition ClassifyHTTPStatus (provider operation : string) (status retryAfter : Z) :
    option NormalizedError :=
  if (200 <=? status) && (status <? 300) then None
  else
    let '(kind, code, retryable) :=
      if (status =? 408) || (status =? 425) then (ErrorKindTransient, "timeout", true)
      else if status =? 429 then (ErrorKindRateLimited, "rate_limited", true)
      else if (status =? 401) || (status =? 403) then (ErrorKindAuth, "authentication_error", false)
      else if (500 <=? status) && (status <? 600) then
        (ErrorKindTransient, "provider_unavailable", true)
      else if status <? 100 then (ErrorKindPermanent, "unknown", false)
      else (ErrorKindPermanent, MapHTTPStatus status, false) in
    Some (mkNormalizedError provider operation kind code status retryable retryAfter
            (leaf (DWrap (provider +:+ " " +:+ operation +:+ " returned HTTP " +:+ itoa status)))).
(* 273-275 normalizedFrom *)
Definition normalizedFrom (cause : GoErr) (provider code : string) (status : Z) (kind : string)
    (retryable : bool) (retryAfter : Z) : NormalizedError :=
  mkNormalizedError provider "" kind code status retryable retryAfter cause.
(* 277-283 retryAfterFromCarrier *)
Definition retryAfterFromCarrier (e : GoErr) : Z := default 0 (As as_carrier e).
(* 285-292 isRetryableProviderCode *)
Definition isRetryableProviderCode (code : string) : bool :=
  bool_decide (code ∈ [ErrorCodeRateLimited; ErrorCodeProviderUnavailable;
                       ErrorCodeMediaProcessingFailed; ErrorCodeInternalError]).
(* 294-305 kindFromProviderCode *)
Definition kindFromProviderCode (code : string) : string :=
  if bool_decide (code = ErrorCodeRateLimited) then ErrorKindRateLimited
  else if bool_decide (code ∈ [ErrorCodeAuthenticationError; ErrorCodePermissionMissing;
                               ErrorCodeReauthenticationRequired]) then ErrorKindAuth
  else if bool_decide (code ∈ [ErrorCodeProviderUnavailable; ErrorCodeMediaProcessingFailed;
                               ErrorCodeInternalError]) then ErrorKindTransient
  else ErrorKindPermanent.

(** *** The status in a legacy message *)
Definition is_digit (a : ascii) : bool :=
  let n := N_of_ascii a in ((48 <=? n) && (n <=? 57))%N.
Definition digit (a : ascii) : Z := Z.of_N (N_of_ascii a) - 48.
(** [\s] of the [regexp] package. *)
Definition is_re_space (a : ascii) : bool :=
  bool_decide (N_of_ascii a ∈ [9; 10; 12; 13; 32]%N).
Fixpoint skip_spaces (s : string) : string :=
  match s with
  | String a s' => if is_re_space a then skip_spaces s' else s
  | "" => ""
  end.
Definition three_digits (s : string) : option (Z * string) :=
  match s with
  | String a (String b (String c s')) =>
      if is_digit a && is_digit b && is_digit c then
        Some (100 * digit a + 10 * digit b + digit c, s')
      else None
  | _ => None
  end.
(** A literal under [(?i)]: the long s folds to [s] too. *)
Fixpoint drop_folded (w s : string) : option string :=
  match w with
  | "" => Some s
  | String a w' =>
      match s with
      | "" => None
      | String b s' =>
          if Ascii.eqb a (ascii_lower b) then drop_folded w' s'
          else if Ascii.eqb a "s" then
            match string_prefix_drop (bytes [197; 191]%N) s with
            | Some s'' => drop_folded w' s''
            | None => None
            end
          else None
      end
  end.
(** [(?:status|http|returned)\s*[:=]?\s*(\d{3})] at the start: the parts
    have no byte in common, so no match needs backtracking. *)
Definition legacy_here (s : string) : option Z :=
  s ← first_some (λ w, drop_folded w s) ["status"; "http"; "returned"];
  let s := skip_spaces s in
  let s := match s with
           | String a s' => if bool_decide (a = ":"%char ∨ a = "="%char) then s' else s
           | "" => ""
           end in
  fst <$> three_digits (skip_spaces s).
Fixpoint leftmost (f : option ascii → string → option Z) (prev : option ascii) (s : string) :
    option Z :=
  match f prev s with
  | Some n => Some n
  | None => match s with "" => None | String a s' => leftmost f (Some a) s' end
  end.
(* 308 *)
Definition legacyStatusPattern (message : string) : option Z :=
  leftmost (λ _, legacy_here) None message.
Definition is_word (a : ascii) : bool :=
  let n := N_of_ascii (ascii_lower a) in
  is_digit a || ((97 <=? n) && (n <=? 122))%N || (n =? 95)%N.
Definition no_word (o : option ascii) : bool := negb (from_option is_word false o).
Definition head_byte (s : string) : option ascii :=
  match s with "" => None | String a _ => Some a end.
(** [\b([45]\d{2})\b]. *)
(* 309 *)
Definition bareHTTPStatusPattern (message : string) : option Z :=
  leftmost (λ prev s,
    '(n, s') ← three_digits s;
    if no_word prev && (400 <=? n) && (n <? 600) && no_word (head_byte s') then Some n else None)
    None message.
(* 312-325 statusFromLegacyError *)
Definition statusFromLegacyError (message : string) : Z :=
  let m := match legacyStatusPattern message with
           | Some n => Some n
           | None => bareHTTPStatusPattern message
           end in
  match m with
  | None => 0
  | Some status => if (status <? 100) || (599 <? status) then 0 else status
  end.
(* 327-341 providerFromMessage *)
Definition providerFromMessage (message : string) : string :=
  let lower := ToLower message in
  if Contains lower "youtube" then "youtube"
  else if Contains lower "drive" || Contains lower "googleapis" then "google_drive"
  else if Contains lower "nvidia" then "nvidia"
  else if Contains lower "s3" || Contains lower "minio" then "storage"
  else "".
(* 351-363 looksLikeTransientMessage *)
Definition looksLikeTransientMessage (message : string) : bool :=
  let lower := ToLower message in
  existsb (Contains lower) ["timeout"; "timed out"; "temporary"; "temporarily"; "network";
    "connection reset"; "connection refused"; "broken pipe"; "eof"; "unavailable"; "transport";
    "i/o timeout"].

(** *** The cascade *)
(* 223-241 classifyProviderError *)
Definition classifyProviderError (e : GoErr) (pe : ProviderError) : NormalizedError :=
  let c := pe_Code pe in
  let '(kind, retryable) :=
    if bool_decide (c = ErrorCodeRateLimited) then (ErrorKindRateLimited, true)
    else if bool_decide (c ∈ [ErrorCodeAuthenticationError; ErrorCodePermissionMissing;
                              ErrorCodeReauthenticationRequired]) then (ErrorKindAuth, false)
    else if bool_decide (c ∈ [ErrorCodeProviderUnavailable; ErrorCodeMediaProcessingFailed;
                              ErrorCodeInternalError]) then (ErrorKindTransient, true)
    else if bool_decide (c ∈ [ErrorCodeValidationError; ErrorCodeContentRejected;
                              ErrorCodeQuotaExceeded]) then (ErrorKindPermanent, false)
    else if pe_Retryable pe then (ErrorKindTransient, true)
    else (ErrorKindPermanent, false) in
  normalizedFrom e (pe_Platform pe) c (pe_StatusCode pe) kind retryable (pe_RetryAfter pe).
(* Source: internal/services/youtube_live_gateway.go *)
Definition YouTubeLiveAuthRequired : string := "AUTH_REQUIRED". (* 24 *)
Definition YouTubeLiveInsufficientScope : string := "INSUFFICIENT_SCOPE". (* 25 *)
Definition YouTubeLivePermissionBlocked : string := "LIVE_PERMISSION_BLOCKED". (* 27 *)
Definition YouTubeLiveRateLimited : string := "RATE_LIMITED". (* 28 *)
Definition YouTubeLiveTransientUpstream : string := "TRANSIENT_UPSTREAM". (* 33 *)
(* Source: internal/services/error_classification.go *)
(* 243-258 classifyYouTubeLiveError *)
Definition classifyYouTubeLiveError (e : GoErr) (l : YouTubeLiveError) : NormalizedError :=
  let c := yl_Code l in
  let '(kind, retryable) :=
    if bool_decide (c = YouTubeLiveRateLimited) then (ErrorKindRateLimited, true)
    else if bool_decide (c = YouTubeLiveTransientUpstream) then (ErrorKindTransient, true)
    else if bool_decide (c ∈ [YouTubeLiveAuthRequired; YouTubeLiveInsufficientScope;
                              YouTubeLivePermissionBlocked]) then (ErrorKindAuth, false)
    else (ErrorKindPermanent, false) in
  let '(kind, retryable) :=
    if 500 <=? yl_StatusCode l then (ErrorKindTransient, true) else (kind, retryable) in
  normalizedFrom e "youtube" c (yl_StatusCode l) kind retryable (yl_RetryAfter l).
(* 260-271 classifyHTTPShape *)
Definition classifyHTTPShape (e : GoErr) (provider : string) (status : Z) (category : string)
    (transient : bool) (retryAfter : Z) : NormalizedError :=
  if (status =? 429) || bool_decide (category = "rate_limit") then
    normalizedFrom e provider "rate_limited" status ErrorKindRateLimited true retryAfter
  else if (status =? 401) || (status =? 403) || bool_decide (category = "auth") then
    normalizedFrom e provider "authentication_error" status ErrorKindAuth false retryAfter
  else if transient || (500 <=? status) || bool_decide (category = "network") then
    normalizedFrom e provider "provider_unavailable" status ErrorKindTransient true retryAfter
  else normalizedFrom e provider "permanent" status ErrorKindPermanent false retryAfter.

(** Each rule of the cascade: a decision, or the next rule. *)
(* 147-152 ClassifyError *)
Definition classify_context (e : GoErr) : option NormalizedError :=
  if Is e "context.Canceled" then
    Some (normalizedFrom e "" "context_canceled" 0 ErrorKindTransient false 0)
  else if Is e "context.DeadlineExceeded" then
    Some (normalizedFrom e "" "timeout" 0 ErrorKindTransient true (retryAfterFromCarrier e))
  else None.
(* 154-191 ClassifyError *)
Definition classify_typed (e : GoErr) : option NormalizedError :=
  first_some id
  [(code ← As as_auth e;
    let code := if bool_decide (code = "") then "authentication_error" else code in
    Some (normalizedFrom e "" code 0 ErrorKindAuth false 0));
   classifyProviderError e <$> As as_provider e;
   (λ r, normalizedFrom e "" "rate_limited" 429 ErrorKindRateLimited true r) <$>
     As as_rate_limit e;
   (λ y, classifyHTTPShape e "youtube" (ya_StatusCode y) (ya_Category y) (Transient y)
           (retryAfterFromCarrier e)) <$> As as_youtube e;
   classifyYouTubeLiveError e <$> As as_live e;
   (λ v, let kind := if revocation_transient v then ErrorKindTransient else ErrorKindPermanent in
         normalizedFrom e "oauth" "oauth_revocation" (rv_StatusCode v) kind
           (bool_decide (kind = ErrorKindTransient)) (rv_RetryAfter v)) <$> As as_revocation e;
   (λ d, normalizedFrom e "" "retry_after" 0 ErrorKindTransient true d) <$> As as_retry_after e].
(* 192-202 ClassifyError *)
Definition classify_marked (e : GoErr) : option NormalizedError :=
  if default false (As as_transient e) then
    Some (normalizedFrom e "" "transient" 0 ErrorKindTransient true (retryAfterFromCarrier e))
  else if default false (As as_permanent e) then
    Some (normalizedFrom e "" "permanent" 0 ErrorKindPermanent false 0)
  else if Is e ErrPermanentUpload || Is e ErrPublishTerminal || Is e ErrPublishPermanent then
    Some (normalizedFrom e "" "permanent" 0 ErrorKindPermanent false 0)
  else None.
(* 204-220 ClassifyError *)
Definition classify_message (e : GoErr) : NormalizedError :=
  let status := statusFromLegacyError (Error e) in
  if negb (status =? 0) then
    let code := MapHTTPStatus status in
    normalizedFrom e (providerFromMessage (Error e)) code status (kindFromProviderCode code)
      (isRetryableProviderCode code) (retryAfterFromCarrier e)
  else if match As as_net e with Some (timeout, temporary) => timeout || temporary | None => false end
  then normalizedFrom e "" "network" 0 ErrorKindTransient true (retryAfterFromCarrier e)
  else if looksLikeTransientMessage (Error e) then
    normalizedFrom e (providerFromMessage (Error e)) "transient" 0 ErrorKindTransient true
      (retryAfterFromCarrier e)
  else normalizedFrom e (providerFromMessage (Error e)) "unknown" 0 ErrorKindPermanent false
         (retryAfterFromCarrier e).
(** On a non-nil error; a nil one is not classified. *)
(* 142-221 ClassifyError *)
Definition ClassifyError (e : GoErr) : NormalizedError :=
  default (classify_message e) (first_some id [classify_context e; classify_typed e;
                                               classify_marked e]).
(* 61-71 ClassifyErrorFor *)
Definition ClassifyErrorFor (provider operation : string) (e : GoErr) : NormalizedError :=
  let c := ClassifyError e in
  mkNormalizedError (if bool_decide (Provider c = "") then provider else Provider c) operation
    (Kind c) (Code c) (HTTPStatus c) (Retryable c) (RetryAfter c) (Cause c).
(* 74-77 IsErrorKind *)
Definition IsErrorKind (e : GoErr) (kind : string) : bool :=
  bool_decide (Kind (ClassifyError e) = kind).
(* Source: internal/services/provider.go *)
(* 203-206 IsRateLimitError *)
Definition IsRateLimitError (e : GoErr) : bool :=
  bool_decide (Kind (ClassifyError e) = ErrorKindRateLimited).
(* 215-224 RetryAfterFromError *)
Definition RetryAfterFromError (e : GoErr) : Z := default 0 (As as_carrier e).

(** ** What a kind says about retrying *)
Definition coherent (c : NormalizedError) : Prop :=
  Kind c ∈ [ErrorKindTransient; ErrorKindRateLimited; ErrorKindAuth; ErrorKindPermanent] ∧
  (Retryable c = true ↔ Kind c ∈ [ErrorKindTransient; ErrorKindRateLimited]).
Definition coherentb (kind : string) (retryable : bool) : bool :=
  bool_decide (kind ∈ [ErrorKindTransient; ErrorKindRateLimited; ErrorKindAuth; ErrorKindPermanent]) &&
  eqb retryable (bool_decide (kind ∈ [ErrorKindTransient; ErrorKindRateLimited])).
Lemma coherent_normalized e p code st kind r d :
  coherentb kind r = true → coherent (normalizedFrom e p code st kind r d).
Proof.
  unfold coherentb, coherent. rewrite andb_true_iff, eqb_true_iff, bool_decide_eq_true. simpl.
  intros [H ->]. by rewrite bool_decide_eq_true.
Qed.
Create HintDb coherent.
#[export] Hint Resolve coherent_normalized : coherent.
(** Every branch of a rule is a [normalizedFrom] of constants. *)
Ltac coherent_tac :=
  repeat case_match; simplify_eq/=;
  apply coherent_normalized; first [reflexivity|vm_compute; reflexivity].

Lemma kindFromProviderCode_coherent c :
  coherentb (kindFromProviderCode c) (isRetryableProviderCode c) = true.
Proof.
  unfold kindFromProviderCode, isRetryableProviderCode.
  repeat case_bool_decide; try reflexivity; exfalso; set_solver.
Qed.
Lemma classify_message_coherent e : coherent (classify_message e).
Proof.
  unfold classify_message.
  destruct (negb _); [apply coherent_normalized, kindFromProviderCode_coherent|].
  destruct (match As as_net e with Some (timeout, temporary) => timeout || temporary | None => false end); [by apply coherent_normalized|].
  destruct (looksLikeTransientMessage _); by apply coherent_normalized.
Qed.
Lemma classify_typed_coherent e c : classify_typed e = Some c → coherent c.
Proof.
  unfold classify_typed. intros (o & Ho & Hc)%first_some_Some. cbn in Hc. subst o.
  repeat (apply elem_of_cons in Ho as [Ho|Ho]); [..|by apply elem_of_nil in Ho];
    symmetry in Ho; [apply bind_Some in Ho as (x & _ & [= <-])
                    |apply fmap_Some in Ho as (x & _ & ->)..].
  - by apply coherent_normalized.
  - unfold classifyProviderError. repeat case_bool_decide; try destruct (pe_Retryable x);
      by apply coherent_normalized.
  - by apply coherent_normalized.
  - unfold classifyHTTPShape. repeat case_match; by apply coherent_normalized.
  - unfold classifyYouTubeLiveError. repeat case_bool_decide; destruct (_ <=? _);
      by apply coherent_normalized.
  - destruct (revocation_transient x); by apply coherent_normalized.
  - by apply coherent_normalized.
Qed.
Lemma classify_marked_coherent e c : classify_marked e = Some c → coherent c.
Proof. unfold classify_marked. intros H. repeat case_match; simplify_eq; by apply coherent_normalized. Qed.

Lemma classify_coherent e : Is e "context.Canceled" = false → coherent (ClassifyError e).
Proof.
  intros Ec. unfold ClassifyError, classify_context. rewrite Ec. cbn [first_some foldr id].
  destruct (Is e "context.DeadlineExceeded"); [by apply coherent_normalized|].
  destruct (classify_typed e) eqn:E; [by eapply classify_typed_coherent|].
  destruct (classify_marked e) eqn:E'; [by eapply classify_marked_coherent|].
  apply classify_message_coherent.
Qed.

(** C37: every error gets one of the four kinds, is its own cause in the
    classification, and is retryable exactly when its kind is transient or
    rate limited; the one exception is a cancelled context, transient but not to be
    retried.  So no worker that reads only the kind, or only the flag, can
    retry what the other calls final. *)
Theorem ClassifyError_coherent (e : GoErr) :
  let c := ClassifyError e in
  Cause c = e ∧
  if Is e "context.Canceled" then Kind c = ErrorKindTransient ∧ Retryable c = false
  else Kind c ∈ [ErrorKindTransient; ErrorKindRateLimited; ErrorKindAuth; ErrorKindPermanent] ∧
       (Retryable c = true ↔ Kind c ∈ [ErrorKindTransient; ErrorKindRateLimited]).
Proof.
  cbv zeta. split.
  - assert (Hm : Cause (classify_message e) = e) by (unfold classify_message; repeat case_match; done).
    unfold ClassifyError. destruct (first_some id _) as [c|] eqn:E; [|done].
    apply first_some_Some in E as (o & Ho & Hc). cbn in Hc. subst o.
    repeat (apply elem_of_cons in Ho as [Ho|Ho]); [..|by apply elem_of_nil in Ho]; symmetry in Ho.
    + unfold classify_context in Ho. by repeat case_match; simplify_eq.
    + unfold classify_typed in Ho. apply first_some_Some in Ho as (o & Ho & Hc). cbn in Hc. subst o.
      repeat (apply elem_of_cons in Ho as [Ho|Ho]); [..|by apply elem_of_nil in Ho];
        symmetry in Ho; [apply bind_Some in Ho as (x & _ & [= <-])
                        |apply fmap_Some in Ho as (x & _ & ->)..]; try done;
        unfold classifyProviderError, classifyHTTPShape, classifyYouTubeLiveError;
        by repeat case_match.
    + unfold classify_marked in Ho. by repeat case_match; simplify_eq.
  - destruct (Is e "context.Canceled") eqn:Ec; [|by apply classify_coherent].
    unfold ClassifyError, classify_context. by rewrite Ec.
Qed.

(** ** The three ways to classify a status agree *)

(** A text without decimal digits, and what [ClassifyHTTPStatus] appends. *)
Fixpoint plain (s : string) : bool :=
  match s with "" => true | String a s' => negb (is_digit a) && plain s' end.
Definition http_suffix (d : string) : string := " returned HTTP " +:+ d.
Definition before_digits (d s : string) : Prop :=
  (∃ p, plain p = true ∧ s = p +:+ http_suffix d) ∨ s = "returned HTTP " +:+ d.
Fixpoint spaceless (w : string) : bool :=
  match w with "" => true | String a w' => negb (Ascii.eqb a " ") && spaceless w' end.

Lemma append_cons a (p q : string) : String a p +:+ q = String a (p +:+ q).
Proof. done. Qed.
Lemma append_nil (q : string) : "" +:+ q = q.
Proof. done. Qed.
Lemma string_prefix_drop_Some w s s' : string_prefix_drop w s = Some s' → s = w +:+ s'.
Proof.
  revert s. induction w as [|a w IH]; intros s; [by intros [= ->]|].
  destruct s as [|b s]; [done|]. simpl. rewrite append_cons. destruct (Ascii.eqb_spec a b) as [<-|]; [|done]. intros H. by rewrite (IH s H).
Qed.
Lemma drop_folded_before d w : spaceless w = true → ∀ p s,
  plain p = true → drop_folded w (p +:+ http_suffix d) = Some s → before_digits d s.
Proof.
  induction w as [|a w IH]; intros Hw p s Hp H; [simpl in H; injection H as <-; left; by exists p|].
  simpl in Hw. apply andb_true_iff in Hw as [Ha Hw]. apply negb_true_iff in Ha.
  cbn [drop_folded] in H. destruct p as [|b p].
  - change ("" +:+ http_suffix d) with (String " " ("returned HTTP " +:+ d)) in H.
    cbv beta iota in H. change (ascii_lower " ") with " "%char in H. rewrite Ha in H. destruct (Ascii.eqb a "s"); [cbn in H|]; discriminate H.
  - rewrite append_cons in H. cbn [plain] in Hp. apply andb_true_iff in Hp as [_ Hp].
    destruct (Ascii.eqb a (ascii_lower b)); [by eapply IH|].
    destruct (Ascii.eqb a "s"); [|done].
    destruct (string_prefix_drop _ _) as [s'|] eqn:E; [|done].
    apply string_prefix_drop_Some in E. change (bytes [197; 191]%N) with
      (String (ascii_of_N 197) (String (ascii_of_N 191) "")) in E.
    rewrite !append_cons, append_nil in E. injection E as _ E.
    destruct p as [|c p]; [discriminate E|].
    rewrite append_cons in E. injection E as _ <-. cbn [plain] in Hp.
    apply andb_true_iff in Hp as [_ Hp]. by eapply IH.
Qed.
Lemma skip_spaces_before d s : before_digits d s → before_digits d (skip_spaces s).
Proof.
  intros [(p & Hp & ->)| ->]; [|by right].
  induction p as [|b p IH]; [by right|]. cbn [plain] in Hp. apply andb_true_iff in Hp as [Hb Hp].
  rewrite append_cons. cbn [skip_spaces].
  destruct (is_re_space b); [by apply IH|]. left. exists (String b p). simpl. by rewrite Hb.
Qed.
Lemma three_digits_before d s : before_digits d s → three_digits s = None.
Proof.
  intros [(p & Hp & ->)| ->]; [|reflexivity].
  destruct p as [|a p]; [reflexivity|]. rewrite append_cons. simpl in *. apply andb_true_iff in Hp as [Ha _].
  apply negb_true_iff in Ha. rewrite Ha. simpl. by repeat case_match.
Qed.
Lemma legacy_here_before d p : plain p = true → legacy_here (p +:+ http_suffix d) = None.
Proof.
  intros Hp. unfold legacy_here.
  destruct (first_some _ _) as [s|] eqn:E; [|done].
  apply first_some_Some in E as (w & Hw & Hs).
  assert (H : before_digits d s).
  { eapply drop_folded_before; [|exact Hp|exact Hs]. enum_cases Hw; reflexivity. }
  apply skip_spaces_before in H. cbv beta iota zeta delta [mbind option_bind].
  rewrite (three_digits_before d); [done|]. apply skip_spaces_before.
  destruct H as [(q & Hq & ->)| ->].
  - destruct q as [|a q]; [left; by exists ""|]. rewrite append_cons.
    case_bool_decide; left; [|by exists (String a q)].
    exists q. simpl in Hq. by apply andb_true_iff in Hq as [_ Hq].
  - by right.
Qed.
Lemma legacy_search d p prev : plain p = true →
  leftmost (λ _, legacy_here) prev (p +:+ http_suffix d) =
  leftmost (λ _, legacy_here) None (http_suffix d).
Proof.
  assert (Hprev : ∀ s prev prev', leftmost (λ _, legacy_here) prev s =
                                  leftmost (λ _, legacy_here) prev' s).
  { intros s q q'. by destruct s. }
  revert prev. induction p as [|a p IH]; intros prev Hp; [apply Hprev|].
  rewrite append_cons. cbn [leftmost]. rewrite <- append_cons, (legacy_here_before d _ Hp).
  apply IH. simpl in Hp. by apply andb_true_iff in Hp as [_ Hp].
Qed.

Definition statuses (a n : Z) : list Z := seqZ a n.
Lemma status_of_suffix s : 100 ≤ s ≤ 599 →
  leftmost (λ _, legacy_here) None (http_suffix (itoa s)) = Some s.
Proof.
  intros Hs.
  assert (H : forallb (λ s, bool_decide (leftmost (λ _, legacy_here) None (http_suffix (itoa s)) = Some s))
                (seqZ 100 500) = true) by (vm_compute; reflexivity).
  rewrite forallb_forall in H. specialize (H s). rewrite bool_decide_eq_true in H.
  apply H, list_elem_of_In, elem_of_seqZ. lia.
Qed.
Lemma plain_app p q : plain (p +:+ q) = plain p && plain q.
Proof. induction p as [|a p IH]; [done|]. rewrite append_cons. simpl. by rewrite IH, andb_assoc. Qed.
Lemma append_assoc' (p q r : string) : (p +:+ q) +:+ r = p +:+ (q +:+ r).
Proof. induction p as [|a p IH]; [done|]. by rewrite !append_cons, IH. Qed.

Lemma statusFromLegacyError_http p op s :
  plain p = true → plain op = true → 100 ≤ s ≤ 599 →
  statusFromLegacyError (p +:+ " " +:+ op +:+ " returned HTTP " +:+ itoa s) = s.
Proof.
  intros Hp Hop Hs. unfold statusFromLegacyError, legacyStatusPattern.
  change (" returned HTTP " +:+ itoa s) with (http_suffix (itoa s)).
  rewrite <- !append_assoc', legacy_search, status_of_suffix
    by (rewrite ?plain_app, ?Hp, ?Hop; done || lia).
  destruct (_ || _) eqn:E; [|done]. apply orb_true_iff in E as [E|E]; lia.
Qed.

Definition decision (c : NormalizedError) : string * bool := (Kind c, Retryable c).
Definition code_decision (code : string) : string * bool :=
  (kindFromProviderCode code, isRetryableProviderCode code).
Lemma MapHTTPStatus_codes s : MapHTTPStatus s ∈ AllProviderErrorCodes.
Proof.
  unfold MapHTTPStatus. repeat match goal with |- context [if ?b then _ else _] => destruct b end;
    decide_closed.
Qed.
Lemma typed_decision platform s body r :
  metaIsRateLimit r = false →
  let c := ClassifyError (NewProviderError platform s body r None) in
  decision c = code_decision (MapHTTPStatus s) ∧ Code c = MapHTTPStatus s ∧ HTTPStatus c = s.
Proof.
  intros Hr.
  assert (Hc : ∀ e pe, pe_Code pe = MapHTTPStatus s → pe_StatusCode pe = s →
    pe_Retryable pe = isRetryable (MapHTTPStatus s) →
    decision (classifyProviderError e pe) = code_decision (MapHTTPStatus s) ∧
    Code (classifyProviderError e pe) = MapHTTPStatus s ∧
    HTTPStatus (classifyProviderError e pe) = s).
  { intros e pe Hcode Hst Hret. unfold classifyProviderError. rewrite Hcode, Hret.
    pose proof (MapHTTPStatus_codes s) as H. remember (MapHTTPStatus s) as c eqn:Hc. clear Hc.
    unfold AllProviderErrorCodes in H.
    enum_cases H; (split; [reflexivity|split; [reflexivity|exact Hst]]). }
  unfold NewProviderError. rewrite Hr. cbv zeta.
  destruct (negb _); apply Hc; reflexivity.
Qed.
Lemma text_decision p op s :
  plain p = true → plain op = true → 100 ≤ s ≤ 599 →
  let c := ClassifyError (leaf (DWrap (p +:+ " " +:+ op +:+ " returned HTTP " +:+ itoa s))) in
  decision c = code_decision (MapHTTPStatus s) ∧ Code c = MapHTTPStatus s ∧ HTTPStatus c = s.
Proof.
  intros Hp Hop Hs. set (e := leaf _).
  assert (He : ClassifyError e = classify_message e) by reflexivity.
  cbv zeta. rewrite He. unfold classify_message. change (Error e) with
    (p +:+ " " +:+ op +:+ " returned HTTP " +:+ itoa s).
  rewrite statusFromLegacyError_http by done.
  rewrite (proj2 (Z.eqb_neq s 0)) by lia. done.
Qed.

