(* ===== verification/Sha256.v ===== *)
(** * SHA-256 and hexadecimal text

    What the workers use of [crypto/sha256] and [encoding/hex] on whole byte
    strings: the digest of FIPS 180-4, its lower case hexadecimal text, and the
    strict reader of [src/internal/worker/verification_helpers.go] with its
    proof that it inverts the text. *)

From S2P Require Import Prelude.
From Stdlib Require Import ZArith Lia.
Local Open Scope Z_scope.

(** ** 32-bit words *)
Definition w32 (z : Z) : Z := Z.land z 4294967295.
Definition rotr (n x : Z) : Z := Z.lor (Z.shiftr x n) (w32 (Z.shiftl x (32 - n))).
Definition add32 (x y : Z) : Z := w32 (x + y).
Definition not32 (x : Z) : Z := Z.lxor x 4294967295.
Definition Ch x y z := Z.lxor (Z.land x y) (Z.land (not32 x) z).
Definition Maj x y z := Z.lxor (Z.lxor (Z.land x y) (Z.land x z)) (Z.land y z).
Definition Sigma0 x := Z.lxor (Z.lxor (rotr 2 x) (rotr 13 x)) (rotr 22 x).
Definition Sigma1 x := Z.lxor (Z.lxor (rotr 6 x) (rotr 11 x)) (rotr 25 x).
Definition sigma0 x := Z.lxor (Z.lxor (rotr 7 x) (rotr 18 x)) (Z.shiftr x 3).
Definition sigma1 x := Z.lxor (Z.lxor (rotr 17 x) (rotr 19 x)) (Z.shiftr x 10).

(** The constants of the standard: the first 32 bits of the fractional parts
    of the cube roots of the first 64 primes, and of the square roots of the
    first eight. *)
Definition prime (n : nat) : bool :=
  (2 <=? n)%nat && forallb (λ d, negb (n mod d =? 0)%nat) (seq 2 (n - 2)).
Definition primes : list Z := Z.of_nat <$> List.filter prime (seq 0 312).
(** The largest [r] with [r ^ 3 ≤ n], bit by bit from [2 ^ k]. *)
Fixpoint cube_root (k : nat) (n r : Z) : Z :=
  match k with
  | O => r
  | S k' =>
      let r' := r + Z.shiftl 1 (Z.of_nat k') in
      cube_root k' n (if r' ^ 3 <=? n then r' else r)
  end.
Definition round_constants : list Z := Eval vm_compute in
  (λ p, w32 (cube_root 40 (Z.shiftl p 96) 0)) <$> primes.
Record Words := mkWords { wa : Z; wb : Z; wc : Z; wd : Z; we : Z; wf : Z; wg : Z; wh : Z }.
Definition words_of_list (l : list Z) : Words :=
  let w i := nth i l 0 in
  mkWords (w 0%nat) (w 1%nat) (w 2%nat) (w 3%nat) (w 4%nat) (w 5%nat) (w 6%nat) (w 7%nat).
Definition initial_words : Words := Eval vm_compute in
  words_of_list ((λ p, w32 (Z.sqrt (Z.shiftl p 64))) <$> take 8 primes).

(** The message schedule: a window of sixteen words, of which the first is
    emitted and a new one appended. *)
Fixpoint schedule (n : nat) (window : list Z) : list Z :=
  match n with
  | O => []
  | S n' =>
      let w i := nth i window 0 in
      w 0%nat :: schedule n' (tail window ++
        [add32 (add32 (sigma1 (w 14%nat)) (w 9%nat)) (add32 (sigma0 (w 1%nat)) (w 0%nat))])
  end.
Definition round (s : Words) (kw : Z * Z) : Words :=
  let t1 := add32 (add32 (add32 (wh s) (Sigma1 (we s))) (Ch (we s) (wf s) (wg s))) (add32 kw.1 kw.2) in
  let t2 := add32 (Sigma0 (wa s)) (Maj (wa s) (wb s) (wc s)) in
  mkWords (add32 t1 t2) (wa s) (wb s) (wc s) (add32 (wd s) t1) (we s) (wf s) (wg s).
Definition add_words (s t : Words) : Words :=
  mkWords (add32 (wa s) (wa t)) (add32 (wb s) (wb t)) (add32 (wc s) (wc t)) (add32 (wd s) (wd t))
    (add32 (we s) (we t)) (add32 (wf s) (wf t)) (add32 (wg s) (wg t)) (add32 (wh s) (wh t)).
Fixpoint words_of (n : nat) (bs : list Z) : list Z :=
  match n with
  | O => []
  | S n' => fold_left (λ w b, 256 * w + b) (take 4 bs) 0 :: words_of n' (drop 4 bs)
  end.
Definition compress (s : Words) (block : list Z) : Words :=
  add_words s (fold_left round (combine round_constants (schedule 64 (words_of 16 block))) s).
Fixpoint blocks (n : nat) (bs : list Z) (s : Words) : Words :=
  match n with O => s | S n' => blocks n' (drop 64 bs) (compress s (take 64 bs)) end.

(** ** The digest *)
Definition bytes_of (s : string) : list Z := Z.of_N ∘ N_of_ascii <$> String.list_ascii_of_string s.
Definition big_endian (n : nat) (w : Z) : list Z :=
  (λ i, Z.land (Z.shiftr w (8 * Z.of_nat i)) 255) <$> rev (seq 0 n).
Definition padded (bs : list Z) : list Z :=
  let k := Z.to_nat ((55 - Z.of_nat (length bs)) mod 64) in
  bs ++ [128] ++ repeat 0 k ++ big_endian 8 (8 * Z.of_nat (length bs)).
Definition digest_words (s : Words) : list Z :=
  [wa s; wb s; wc s; wd s; we s; wf s; wg s; wh s].
(** [sha256.Sum256]. *)
Definition Sum (s : string) : list Z :=
  let bs := padded (bytes_of s) in
  digest_words (blocks (length bs / 64) bs initial_words) ≫= big_endian 4.

Lemma Sum_length s : length (Sum s) = 32%nat.
Proof. reflexivity. Qed.
Lemma land_byte x : 0 ≤ Z.land x 255 < 256.
Proof.
  change 255 with (Z.ones 8). rewrite Z.land_ones by lia. apply Z.mod_pos_bound. lia.
Qed.
Lemma Sum_bytes s : Forall (λ b, 0 ≤ b < 256) (Sum s).
Proof.
  unfold Sum. generalize (digest_words (blocks (length (padded (bytes_of s)) / 64)
    (padded (bytes_of s)) initial_words)). intros l. apply Forall_bind, Forall_forall. intros w _.
  apply Forall_fmap, Forall_forall. intros i _. apply land_byte.
Qed.

(** ** Hexadecimal text *)
(** [hex.EncodeToString]. *)
Fixpoint EncodeToString (bs : list Z) : string :=
  match bs with
  | [] => ""
  | b :: bs' => String (hex_digit (Z.to_N b / 16)) (String (hex_digit (Z.to_N b mod 16)) (EncodeToString bs'))
  end.
Definition sha256_hex (s : string) : string := EncodeToString (Sum s).

(** The vectors of FIPS 180-4, and a message of two blocks. *)
Example sha256_abc :
  sha256_hex "abc" = "ba7816bf8f01cfea414140de5dae2223b00361a396177a9cb410ff61f20015ad".
Proof. vm_compute. reflexivity. Qed.
Example sha256_empty :
  sha256_hex "" = "e3b0c44298fc1c149afbf4c8996fb92427ae41e4649b934ca495991b7852b855".
Proof. vm_compute. reflexivity. Qed.
Example sha256_two_blocks :
  sha256_hex "abcdbcdecdefdefgefghfghighijhijkijkljklmklmnlmnomnopnopq" =
  "248d6a61d20638b8e5c026930c3e6039a33ce45964ff2167f6ecedd419db06c1".
Proof. vm_compute. reflexivity. Qed.

(** ** Reading it back *)
(** [hex.DecodeString] on an even number of digits. *)
Definition hex_digit_value (a : ascii) : option Z :=
  let c := Z.of_N (N_of_ascii a) in
  if (48 <=? c) && (c <=? 57) then Some (c - 48)
  else if (97 <=? c) && (c <=? 102) then Some (c - 87)
  else if (65 <=? c) && (c <=? 70) then Some (c - 55)
  else None.
Fixpoint DecodeString (s : string) : option (list Z) :=
  match s with
  | "" => Some []
  | String a (String b s') =>
      x ← hex_digit_value a; y ← hex_digit_value b; r ← DecodeString s'; Some (16 * x + y :: r)
  | String _ "" => None
  end.
Definition is_lower_hex (a : ascii) : bool :=
  let c := Z.of_N (N_of_ascii a) in ((48 <=? c) && (c <=? 57)) || ((97 <=? c) && (c <=? 102)).
Fixpoint all_lower_hex (s : string) : bool :=
  match s with "" => true | String a s' => is_lower_hex a && all_lower_hex s' end.

Lemma nibble_text (n : N) : (n < 16)%N →
  hex_digit_value (hex_digit n) = Some (Z.of_N n) ∧ is_lower_hex (hex_digit n) = true.
Proof.
  intros H. assert (Hin : n ∈ (N.of_nat <$> seq 0 16)).
  { apply list_elem_of_fmap. exists (N.to_nat n). rewrite elem_of_seq. lia. }
  clear H. revert n Hin. apply Forall_forall. repeat constructor; vm_compute; done.
Qed.
Definition nibble_ok (a : ascii) : bool :=
  match hex_digit_value a with
  | Some x => negb (is_lower_hex a) || (0 <=? x) && (x <? 16) && Ascii.eqb (hex_digit (Z.to_N x)) a
  | None => true
  end.
Lemma nibbles_ok a : nibble_ok a = true.
Proof. destruct a as [[] [] [] [] [] [] [] []]; reflexivity. Qed.
Lemma nibble_value a x : hex_digit_value a = Some x → is_lower_hex a = true →
  0 ≤ x < 16 ∧ hex_digit (Z.to_N x) = a.
Proof.
  intros H1 H2. pose proof (nibbles_ok a) as H. unfold nibble_ok in H. rewrite H1, H2 in H.
  simpl in H. rewrite !andb_true_iff, Ascii.eqb_eq in H. destruct H as [[? ?] ?]. split; [lia|done].
Qed.
Lemma byte_nibbles b : 0 ≤ b < 256 →
  (Z.to_N b / 16 < 16)%N ∧ (Z.to_N b mod 16 < 16)%N ∧
  16 * Z.of_N (Z.to_N b / 16) + Z.of_N (Z.to_N b mod 16) = b.
Proof.
  intros H. split; [apply N.Div0.div_lt_upper_bound; lia|].
  split; [apply N.mod_upper_bound; lia|].
  pose proof (N.Div0.div_mod (Z.to_N b) 16). lia.
Qed.
(** The reader inverts the text. *)
Lemma hex_decode_encode bs : Forall (λ b, 0 ≤ b < 256) bs →
  DecodeString (EncodeToString bs) = Some bs.
Proof.
  induction 1 as [|b bs Hb _ IH]; [done|]. cbn [EncodeToString DecodeString].
  destruct (byte_nibbles b Hb) as (H1 & H2 & E).
  rewrite (proj1 (nibble_text _ H1)), (proj1 (nibble_text _ H2)), IH. simpl. by rewrite E.
Qed.
Lemma EncodeToString_lower bs : Forall (λ b, 0 ≤ b < 256) bs → all_lower_hex (EncodeToString bs) = true.
Proof.
  induction 1 as [|b bs Hb _ IH]; [done|]. cbn [EncodeToString all_lower_hex].
  destruct (byte_nibbles b Hb) as (H1 & H2 & _).
  by rewrite (proj2 (nibble_text _ H1)), (proj2 (nibble_text _ H2)), IH.
Qed.
Lemma EncodeToString_length bs : String.length (EncodeToString bs) = (2 * length bs)%nat.
Proof. induction bs as [|b bs IH]; [done|]. simpl. rewrite IH. lia. Qed.
(** On lower case text it is injective. *)
Lemma EncodeToString_DecodeString bs : ∀ s, all_lower_hex s = true → DecodeString s = Some bs →
  EncodeToString bs = s.
Proof.
  induction bs as [|z bs IH]; intros [|a [|b s]] Hl Hd; try done; simpl in Hd.
  - destruct (hex_digit_value a), (hex_digit_value b), (DecodeString s); discriminate Hd.
  - destruct (hex_digit_value a) as [x|] eqn:Ha; [|discriminate Hd].
    destruct (hex_digit_value b) as [y|] eqn:Hb; [|discriminate Hd].
    destruct (DecodeString s) as [r|] eqn:Hs; [|discriminate Hd]. simpl in Hd, Hl.
    injection Hd as <- <-. apply andb_true_iff in Hl as [Hla [Hlb Hl]%andb_true_iff].
    destruct (nibble_value a x Ha Hla) as [Hx Ex]. destruct (nibble_value b y Hb Hlb) as [Hy Ey].
    cbn [EncodeToString]. rewrite (IH s Hl Hs).
    replace (Z.to_N (16 * x + y) / 16)%N with (Z.to_N x) by (apply (N.div_unique _ _ _ (Z.to_N y)); lia).
    replace (Z.to_N (16 * x + y) mod 16)%N with (Z.to_N y)
      by (apply (N.mod_unique _ _ (Z.to_N x)); lia).
    by rewrite Ex, Ey.
Qed.
Lemma sha256_hex_shape s : String.length (sha256_hex s) = 64%nat ∧ all_lower_hex (sha256_hex s) = true.
Proof.
  unfold sha256_hex. split; [by rewrite EncodeToString_length, Sum_length|].
  apply EncodeToString_lower, Sum_bytes.
Qed.
