(* ===== verification/ArtifactVerify.v ===== *)
(** * The integrity gate of the ingest stream

    [src/internal/worker/artifact_verify.go] and [verification_helpers.go]: the
    reader between a source and the storage counts and hashes the bytes that
    pass, stops the stream one byte after the expected size, and compares at the
    end.  A body is any reader: the chunks it has left, each with the error that
    comes with its last byte. *)

From S2P Require Import Prelude GoError Sha256.
From S2P Require Codec.
From Stdlib Require Import ZArith Lia.
Local Open Scope Z_scope.

(** ** Policy and codes *)
(* Source: internal/models/asset.go *)
(* 147-152 ArtifactVerificationPolicy *)
Record ArtifactVerificationPolicy := mkArtifactVerificationPolicy {
  ExpectedSize : Z;
  ExpectedSHA256 : string;
  ExpectedMIME : string;
  RequireSHA : bool
}.
(* Source: internal/worker/permanent_error.go *)
Definition CodeArtifactSizeMismatch : string := "ARTIFACT_SIZE_MISMATCH". (* 62 *)
Definition CodeArtifactSHA256Mismatch : string := "ARTIFACT_SHA256_MISMATCH". (* 63 *)
Definition PermanentError (code message : string) : GoErr := leaf (DPermanent code message).

(** ** Comparing digests and sizes *)
(* Source: internal/worker/verification_helpers.go *)
(** [%q] of a byte, on ASCII. *)
Definition quote_char (a : ascii) : string :=
  let n := N_of_ascii a in
  let body := if (n =? 39)%N then bytes [92; 39]%N else if (n =? 34)%N then String a "" else quote_byte a in
  bytes [39%N] +:+ body +:+ bytes [39%N].
(* 84-89 hexDecodeStrictLower *)
Fixpoint first_not_lower (i : Z) (s : string) : option (ascii * Z) :=
  match s with
  | "" => None
  | String c s' => if is_lower_hex c then first_not_lower (i + 1) s' else Some (c, i)
  end.
(* 80-95 hexDecodeStrictLower *)
Definition hexDecodeStrictLower (s : string) : string + list Z :=
  if negb (bool_decide (String.length s = 64%nat)) then
    inl ("sha256 hex must be 64 chars (got " +:+ itoa (Z.of_nat (String.length s)) +:+ ")")
  else match first_not_lower 0 s with
       | Some (c, i) => inl ("sha256 hex must be lowercase (got char " +:+ quote_char c +:+
                             " at pos " +:+ itoa i +:+ ")")
       | None => match DecodeString s with
                 | None => inl "sha256 hex decode: encoding/hex: invalid byte"
                 | Some out => inr out
                 end
       end.
(* 25-47 verifySHAConstantTime *)
Definition verifySHAConstantTime (expectedHex actualHex : string) : option GoErr :=
  let fail m := Some (PermanentError CodeArtifactSHA256Mismatch m) in
  match hexDecodeStrictLower expectedHex with
  | inl e => fail ("expected sha hex parse: " +:+ e)
  | inr expected =>
      match hexDecodeStrictLower actualHex with
      | inl e => fail ("actual sha hex parse: " +:+ e)
      | inr actual =>
          if bool_decide (expected = actual) then None
          else fail ("sha mismatch (expected " +:+ expectedHex +:+ ", got " +:+ actualHex +:+ ")")
      end
  end.
(* 53-64 verifySizeExact *)
Definition verifySizeExact (actual expected : Z) : option GoErr :=
  if actual =? expected then None
  else Some (PermanentError CodeArtifactSizeMismatch
    ("size mismatch (expected exactly " +:+ itoa expected +:+ " bytes, got " +:+ itoa actual +:+ ")")).

(** ** The body *)
Definition io_EOF : GoErr := leaf (DSentinel "io.EOF" "EOF").
Record Body := mkBody { chunks : list (string * option GoErr); close_error : option GoErr }.
Fixpoint take_bytes (n : nat) (s : string) : string :=
  match n, s with S n', String a s' => String a (take_bytes n' s') | _, _ => "" end.
Fixpoint drop_bytes (n : nat) (s : string) : string :=
  match n, s with S n', String _ s' => drop_bytes n' s' | _, s => s end.
(** [body.Read(p)] with [len(p) = n]. *)
Definition body_Read (n : nat) (b : Body) : string * option GoErr * Body :=
  match chunks b with
  | [] => ("", Some io_EOF, b)
  | (c, er) :: rest =>
      if bool_decide (String.length c ≤ n)%nat then (c, er, mkBody rest (close_error b))
      else (take_bytes n c, None, mkBody ((drop_bytes n c, er) :: rest) (close_error b))
  end.
Fixpoint content (l : list (string * option GoErr)) : string :=
  match l with [] => "" | (c, _) :: l' => c +:+ content l' end.

(** ** The reader *)
(* Source: internal/worker/artifact_verify.go *)
(** [hashed] are the bytes written to the hash. *)
(* 64-74 artifactVerifyReader *)
Record artifactVerifyReader := mkReader {
  body : Body;
  hashed : string;
  policy : ArtifactVerificationPolicy;
  byteCount : Z;
  closed : bool;
  resultError : option GoErr
}.
(* 86-95 NewArtifactVerifyReader *)
Definition NewArtifactVerifyReader (b : option Body) (p : ArtifactVerificationPolicy) :
    GoErr + artifactVerifyReader :=
  match b with
  | None => inl (leaf (DNew "artifactVerifyReader: nil body"))
  | Some b => inr (mkReader b "" p 0 false None)
  end.
(* 115-120 artifactVerifyReader.Read *)
Definition pass (n : nat) (r : artifactVerifyReader) : string * option GoErr * artifactVerifyReader :=
  let '(c, er, b) := body_Read n (body r) in
  (c, er, mkReader b (hashed r +:+ c) (policy r) (wrap64 (byteCount r + Z.of_nat (String.length c)))
            (closed r) (resultError r)).
(* 106-140 artifactVerifyReader.Read *)
Definition Read (n : nat) (r : artifactVerifyReader) : string * option GoErr * artifactVerifyReader :=
  let size := ExpectedSize (policy r) in
  if closed r then ("", Some (leaf (DNew "artifactVerifyReader: read after close")), r)
  else match resultError r with
  | Some er => ("", Some er, r)
  | None =>
      if size <=? 0 then pass n r
      else
        let remaining := wrap64 (wrap64 (size + 1) - byteCount r) in
        if remaining <=? 0 then
          ("", Some io_EOF, mkReader (body r) (hashed r) (policy r) (byteCount r) (closed r)
             (Some (PermanentError CodeArtifactSizeMismatch
               ("size exceeds expected (read " +:+ itoa (byteCount r) +:+ " > limit " +:+ itoa size +:+ ")"))))
        else pass (if remaining <? Z.of_nat n then Z.to_nat remaining else n) r
  end.
(* 146-152 artifactVerifyReader.Close *)
Definition Close (r : artifactVerifyReader) : option GoErr * artifactVerifyReader :=
  if closed r then (None, r)
  else (close_error (body r),
        mkReader (body r) (hashed r) (policy r) (byteCount r) true (resultError r)).
(* 191-193 artifactVerifyReader.ActualSHA256Hex *)
Definition ActualSHA256Hex (r : artifactVerifyReader) : string := sha256_hex (hashed r).
(* 198-200 artifactVerifyReader.ActualSize *)
Definition ActualSize (r : artifactVerifyReader) : Z := byteCount r.
(* 168-185 artifactVerifyReader.Verify *)
Definition Verify (r : artifactVerifyReader) : option GoErr :=
  match resultError r with
  | Some er => Some er
  | None =>
      let sha := if RequireSHA (policy r) then
                   verifySHAConstantTime (ExpectedSHA256 (policy r)) (ActualSHA256Hex r) else None in
      if 0 <? ExpectedSize (policy r) then
        match verifySizeExact (byteCount r) (ExpectedSize (policy r)) with
        | Some er => Some er
        | None => sha
        end
      else sha
  end.

(** What the HTTP client and the worker do with it, in any order. *)
Inductive Use := UseRead (n : nat) | UseClose.
Definition use (r : artifactVerifyReader) (u : Use) : artifactVerifyReader :=
  match u with UseRead n => (Read n r).2 | UseClose => (Close r).2 end.
Definition uses (l : list Use) (r : artifactVerifyReader) : artifactVerifyReader := foldl use r l.

(** ** Lemmas *)
Lemma first_not_lower_None s : ∀ i, first_not_lower i s = None ↔ all_lower_hex s = true.
Proof.
  induction s as [|c s IH]; intros i; simpl; [done|]. destruct (is_lower_hex c); simpl; [apply IH|done].
Qed.
Lemma hexDecode_hex s : hexDecodeStrictLower (sha256_hex s) = inr (Sum s).
Proof.
  destruct (sha256_hex_shape s) as [Hlen Hl]. unfold hexDecodeStrictLower.
  rewrite bool_decide_true by done. cbn [negb]. rewrite (proj2 (first_not_lower_None _ 0) Hl).
  unfold sha256_hex. by rewrite hex_decode_encode by apply Sum_bytes.
Qed.
Lemma hexDecode_inr s bs : hexDecodeStrictLower s = inr bs → EncodeToString bs = s.
Proof.
  unfold hexDecodeStrictLower. case_bool_decide; [|done]. cbn [negb].
  destruct (first_not_lower 0 s) as [[c i]|] eqn:E; [done|]. apply first_not_lower_None in E.
  destruct (DecodeString s) as [out|] eqn:D; [|done]. intros [= <-].
  by apply EncodeToString_DecodeString.
Qed.
(** The comparison accepts exactly the lower case text of the digest. *)
Lemma verifySHA_None e s : verifySHAConstantTime e (sha256_hex s) = None ↔ e = sha256_hex s.
Proof.
  unfold verifySHAConstantTime. rewrite hexDecode_hex.
  destruct (hexDecodeStrictLower e) as [m|bs] eqn:E.
  - split; [done|]. intros ->. by rewrite hexDecode_hex in E.
  - case_bool_decide as Hb.
    + subst. apply hexDecode_inr in E. split; [by intros _|done].
    + split; [done|]. intros ->. rewrite hexDecode_hex in E. congruence.
Qed.
Lemma take_drop_bytes n : ∀ s, take_bytes n s +:+ drop_bytes n s = s.
Proof. induction n as [|n IH]; intros [|a s]; simpl; try done. by rewrite Codec.app_cons_s, IH. Qed.
Lemma take_bytes_length n : ∀ s, (String.length (take_bytes n s) ≤ n)%nat.
Proof. induction n as [|n IH]; intros [|a s]; simpl; try lia. specialize (IH s). lia. Qed.
Lemma body_Read_content n b c er b' : body_Read n b = (c, er, b') →
  content (chunks b) = c +:+ content (chunks b') ∧ (String.length c ≤ n)%nat.
Proof.
  unfold body_Read. destruct (chunks b) as [|[d e] rest] eqn:E.
  - intros [= <- <- <-]. rewrite E. split; [done|simpl; lia].
  - case_bool_decide as Hn; intros [= <- <- <-]; cbn [chunks content].
    + by split.
    + split; [|apply take_bytes_length]. by rewrite <- Codec.app_assoc_s, take_drop_bytes.
Qed.

(** What holds after any use. *)
Record reader_ok (src : string) (p : ArtifactVerificationPolicy) (r : artifactVerifyReader) : Prop := {
  ro_policy : policy r = p;
  ro_split : src = hashed r +:+ content (chunks (body r));
  ro_count : byteCount r = Z.of_nat (String.length (hashed r));
  ro_cap : 0 < ExpectedSize p → Z.of_nat (String.length (hashed r)) ≤ ExpectedSize p + 1;
  ro_over : is_Some (resultError r) → 0 < ExpectedSize p < Z.of_nat (String.length (hashed r))
}.
Section reader.
Context (src : string) (p : ArtifactVerificationPolicy).
Context (Hsize : ExpectedSize p < int64_max) (Hlen : Z.of_nat (String.length src) ≤ int64_max).

Lemma ro_bound r : reader_ok src p r → Z.of_nat (String.length (hashed r)) ≤ int64_max.
Proof using Hlen.
  intros H. rewrite (ro_split _ _ _ H), Codec.length_app_s in Hlen. lia.
Qed.
Lemma pass_ok n r : reader_ok src p r → resultError r = None →
  (0 < ExpectedSize p → Z.of_nat n ≤ ExpectedSize p + 1 - Z.of_nat (String.length (hashed r))) →
  reader_ok src p (pass n r).2.
Proof using Hlen Hsize.
  intros [Hp Hs Hc Hcap Ho] Hr Hn. unfold pass. destruct (body_Read n (body r)) as [[c er] b] eqn:E.
  apply body_Read_content in E as [Hcont Hcn]. cbn [snd].
  assert (Hsrc : src = (hashed r +:+ c) +:+ content (chunks b)) by (by rewrite Codec.app_assoc_s, <- Hcont).
  pose proof (f_equal String.length Hsrc) as Hl. rewrite !Codec.length_app_s in Hl.
  constructor; cbn [policy body hashed byteCount closed resultError]; try done.
  - rewrite Codec.length_app_s, Hc, wrap64_id; [lia|]. unfold in_int64, int64_min. lia.
  - rewrite Codec.length_app_s. intros H. specialize (Hn H). lia.
  - rewrite Hr. by intros [? [=]].
Qed.
Lemma Read_ok n r : reader_ok src p r → reader_ok src p (Read n r).2.
Proof using Hlen Hsize.
  intros H. pose proof (ro_bound r H) as Hb. unfold Read. destruct (closed r); [done|].
  destruct (resultError r) eqn:Hr; [done|]. rewrite (ro_policy _ _ _ H).
  destruct (Z.leb_spec (ExpectedSize p) 0); [apply pass_ok; [done..|lia]|].
  pose proof (ro_count _ _ _ H) as Hc. pose proof (ro_cap _ _ _ H) as Hcap.
  assert (E : wrap64 (wrap64 (ExpectedSize p + 1) - byteCount r) =
              ExpectedSize p + 1 - Z.of_nat (String.length (hashed r))).
  { rewrite (wrap64_id (ExpectedSize p + 1)) by (unfold in_int64, int64_min in *; lia).
    rewrite wrap64_id by (unfold in_int64, int64_min, int64_max in *; lia). lia. }
  rewrite E. destruct (Z.leb_spec (ExpectedSize p + 1 - Z.of_nat (String.length (hashed r))) 0).
  - destruct H as [Hp Hs _ _ _]. constructor; cbn [snd policy body hashed byteCount closed resultError];
      try done; intros _; lia.
  - apply pass_ok; [done..|]. intros _.
    destruct (Z.ltb_spec (ExpectedSize p + 1 - Z.of_nat (String.length (hashed r))) (Z.of_nat n)); lia.
Qed.
Lemma use_ok u r : reader_ok src p r → reader_ok src p (use r u).
Proof using Hlen Hsize.
  destruct u as [n|]; simpl; [apply Read_ok|]. intros H. unfold Close.
  destruct (closed r); [done|]. by destruct H; constructor.
Qed.
Lemma uses_ok l : ∀ r, reader_ok src p r → reader_ok src p (uses l r).
Proof using Hlen Hsize. induction l as [|u l IH]; intros r H; simpl; [done|]. by apply IH, use_ok. Qed.
End reader.

(** ** What passes the gate *)
Lemma new_reader_ok b p : reader_ok (content (chunks b)) p (mkReader b "" p 0 false None).
Proof. constructor; simpl; try done; lia. Qed.
Lemma reader_verified src p r : reader_ok src p r → Verify r = None ↔
  (0 < ExpectedSize p → Z.of_nat (String.length (hashed r)) = ExpectedSize p) ∧
  (RequireSHA p = true → ExpectedSHA256 p = sha256_hex (hashed r)).
Proof.
  intros [Hp Hs Hc Hcap Ho]. unfold Verify. destruct (resultError r) as [er|].
  - split; [done|]. intros [H _]. specialize (Ho ltac:(by eexists)). lia.
  - rewrite Hp, Hc. unfold verifySizeExact, ActualSHA256Hex.
    pose proof (verifySHA_None (ExpectedSHA256 p) (hashed r)) as HV.
    destruct (Z.ltb_spec 0 (ExpectedSize p)) as [Hz|Hz].
    + destruct (Z.eqb_spec (Z.of_nat (String.length (hashed r))) (ExpectedSize p)) as [E|E].
      * destruct (RequireSHA p); rewrite ?HV; naive_solver.
      * split; [done|]. intros [He _]. by destruct E; apply He.
    + destruct (RequireSHA p); rewrite ?HV; naive_solver lia.
Qed.
(** However the consumer reads and closes the stream, the bytes counted and
    hashed are a prefix of the source, at most one more than the expected
    size; and the verification succeeds exactly if their number is the
    expected size, where one is given, and their SHA-256 is the expected text
    in lower case hexadecimal, where one is required. *)
Theorem artifact_verified (b : Body) (p : ArtifactVerificationPolicy) (r0 : artifactVerifyReader)
    (l : list Use) (Hnew : NewArtifactVerifyReader (Some b) p = inr r0)
    (Hsize : ExpectedSize p < int64_max)
    (Hlen : Z.of_nat (String.length (content (chunks b))) ≤ int64_max) :
  let r := uses l r0 in
  (∃ rest, content (chunks b) = hashed r +:+ rest) ∧
  (0 < ExpectedSize p → Z.of_nat (String.length (hashed r)) ≤ ExpectedSize p + 1) ∧
  (Verify r = None ↔
     (0 < ExpectedSize p → Z.of_nat (String.length (hashed r)) = ExpectedSize p) ∧
     (RequireSHA p = true → ExpectedSHA256 p = sha256_hex (hashed r))) ∧
  ActualSHA256Hex r = sha256_hex (hashed r) ∧ ActualSize r = Z.of_nat (String.length (hashed r)).
Proof.
  intros r. injection Hnew as <-. assert (H : reader_ok (content (chunks b)) p r).
  { apply uses_ok; [done..|]. by apply new_reader_ok. }
  split; [exists (content (chunks (body r))); apply (ro_split _ _ _ H)|].
  split; [apply (ro_cap _ _ _ H)|]. split; [by eapply reader_verified|].
  split; [done|]. apply (ro_count _ _ _ H).
Qed.

Lemma artifact_verified_witness :
  let p := mkArtifactVerificationPolicy 3 "ba7816bf8f01cfea414140de5dae2223b00361a396177a9cb410ff61f20015ad"
             "video/mp4" true in
  let b := mkBody [("ab", None); ("c", Some io_EOF)] None in
  let r := uses [UseRead 1; UseRead 8; UseRead 8; UseRead 8; UseClose] (mkReader b "" p 0 false None) in
  hashed r = "abc" ∧ Verify r = None ∧
  Verify (uses [UseRead 1; UseClose; UseRead 8] (mkReader b "" p 0 false None)) ≠ None.
Proof.
  cbv zeta. split; [vm_compute; reflexivity|]. split.
  - refine (proj2 (proj1 (proj2 (proj2 (artifact_verified _ _ _ _ eq_refl _ _)))) _).
    + reflexivity.
    + vm_compute. discriminate.
    + split; intros _; vm_compute; reflexivity.
  - intros H. vm_compute in H. discriminate H.
Defined.
(** The comment promises to accept an upper case digest; the gate refuses it. *)
Example upper_case_refused :
  verifySHAConstantTime "BA7816BF8F01CFEA414140DE5DAE2223B00361A396177A9CB410FF61F20015AD"
    (sha256_hex "abc") ≠ None.
Proof. intros H. vm_compute in H. discriminate H. Qed.
