(* ===== verification/UploadErrors.v ===== *)
(** * What the upload workers do with a failed job

    [src/internal/worker/upload_worker_errors.go]: a failed job is dropped,
    buried or retried according to the classification of its error and its
    attempts.  The composition of the job queue with the classifier. *)

From S2P Require Import Prelude Store Graph GoError ErrorClass Backoff UploadJobs.
From Stdlib Require Import ZArith Lia.
Local Open Scope Z_scope.

(* Source: internal/worker/upload_worker_errors.go *)
(** The scan over the windows of [s] of the length of [n]. *)
(* 146-150 containsAny *)
Definition has_window (s n : string) : bool :=
  existsb (λ i, bool_decide (String.substring i (String.length n) s = n))
    (if bool_decide (String.length n ≤ String.length s)%nat
     then seq 0 (S (String.length s - String.length n)) else []).
(* 141-153 containsAny *)
Definition containsAny (s : string) (needles : list string) : bool :=
  existsb (λ n, negb (bool_decide (n = "")) && has_window s n) needles.
(* 123-138 classifyUploadErrorLegacy *)
Definition classifyUploadErrorLegacy (s : string) : string :=
  if containsAny s ["drive"; "googleapis.com/upload/drive"] then "drive_error"
  else if containsAny s ["s3"; "minio"; "presigned"] then "s3_error"
  else if containsAny s ["youtube"; "videos.insert"] then "youtube_error"
  else if containsAny s ["oauth"; "401"; "403"; "unauthorized"] then "auth_error"
  else if containsAny s ["context deadline"; "timeout"] then "timeout"
  else "".
(* 86-121 classifyUploadError *)
Definition classifyUploadError (e : GoErr) : string :=
  let c := ClassifyError e in
  let legacy := classifyUploadErrorLegacy (Error e) in
  if bool_decide (Kind c = ErrorKindRateLimited) then "rate_limited"
  else if bool_decide (Kind c = ErrorKindAuth) then "auth_error"
  else if bool_decide (Kind c = ErrorKindPermanent) then
    if negb (bool_decide (legacy = "")) then legacy else "permanent_error"
  else if bool_decide (Kind c = ErrorKindTransient) then
    if bool_decide (Code c = "timeout") then "timeout"
    else if bool_decide (Provider c = "google_drive") then "drive_error"
    else if bool_decide (Provider c = "storage") then "s3_error"
    else if bool_decide (Provider c = "youtube") then "youtube_error"
    else legacy
  else legacy.

(** Which of the three ways a failure takes. *)
Inductive Verdict := Drop | Bury | Retry.
(* 51-57 UploadWorker.handleProcessingError *)
Definition is_final (poolName : string) (e : GoErr) : bool :=
  let c := ClassifyErrorFor "" poolName e in
  bool_decide (Kind c = ErrorKindPermanent) || bool_decide (Kind c = ErrorKindAuth) ||
  Is e ErrPermanent || Is e ErrPermanentUpload.
Definition verdict (poolName : string) (job : UploadJob) (e : GoErr) : Verdict :=
  if Is e "ErrUploadJobLeaseLost" then Drop
  else if Is e "context.Canceled" then Drop
  else if is_final poolName e then Bury
  else if MaxAttempts (Spec job) <=? AttemptCount job then Bury
  else Retry.
(* 72-75 UploadWorker.handleProcessingError *)
Definition retry_delay (int63n : Z → Z) (job : UploadJob) (e : GoErr) : Z :=
  let backoff := computeUploadBackoff int63n (AttemptCount job) in
  let retryAfter := RetryAfterFromError e in
  if 0 <? retryAfter then retryAfter else backoff.
(** The errors of the two marks are logged, not returned. *)
(* 18-80 UploadWorker.handleProcessingError *)
Definition handleProcessingError (int63n : Z → Z) (poolName workerID : string) (job : UploadJob)
    (processErr : GoErr) : M JobDB unit :=
  let errorCode := classifyUploadError processErr in
  match verdict poolName job processErr with
  | Drop => mret tt
  | Bury => ignore (try (MarkDeadLetter (ID job) workerID errorCode (Error processErr)))
  | Retry =>
      env ← ask;
      ignore (try (MarkRetry (ID job) workerID errorCode (Error processErr)
                     (app_now env + retry_delay int63n job processErr)))
  end.

(** ** One failure *)
(** What a failure leaves in the row of its job. *)
Definition failed_row (int63n : Z → Z) (poolName : string) (err : GoErr) (e : Env) (j : UploadJob) :
    UploadJob :=
  match verdict poolName j err with
  | Drop => j
  | Bury => dead_job (classifyUploadError err) (Error err) e j
  | Retry => retry_job (classifyUploadError err) (Error err)
               (app_now e + retry_delay int63n j err) e j
  end.

Lemma ignore_try_state {A} (m : M JobDB A) e w : state_of (ignore (try m) e w) = state_of (m e w).
Proof.
  rewrite ignore_state. unfold try, state_of. by destruct (m e w) as [r [s n]].
Qed.

Lemma handle_owned int63n pool w err e db n j :
  jobs db !! ID j = Some j → owned_by w j = true → reliable e →
  state_of (handleProcessingError int63n pool w j err e (db, n)) =
    mkJobDB (<[ID j := failed_row int63n pool err e j]> (jobs db)) (job_serial db).
Proof.
  intros Hj Hw Hrel. unfold handleProcessingError, failed_row.
  destruct (verdict pool j err).
  - rewrite insert_id by done. by destruct db.
  - rewrite ignore_try_state. by eapply exec_owned_hit.
  - unfold mbind, M_bind, ask. rewrite ignore_try_state. by eapply exec_owned_hit.
Qed.
Lemma handle_stale int63n pool w err e db n j :
  (∀ j', jobs db !! ID j = Some j' → owned_by w j' = false) →
  state_of (handleProcessingError int63n pool w j err e (db, n)) = db.
Proof.
  intros Hj. unfold handleProcessingError. destruct (verdict pool j err); [done| |].
  - rewrite ignore_try_state. by apply exec_owned_stale.
  - unfold mbind, M_bind, ask. rewrite ignore_try_state. by apply exec_owned_stale.
Qed.
Lemma handle_safe int63n pool w j err :
  respects safe_step (handleProcessingError int63n pool w j err).
Proof.
  unfold handleProcessingError. destruct (verdict pool j err); respects_tac;
    (apply respects_ignore; [apply _|]; apply respects_try; auto with respects).
Qed.

(** C27: where a failed job goes.  On a table that answers, when the worker still
    holds the lease: a lost lease or a shutdown changes nothing; an error that
    is final (permanent or authentication, or marked permanent whatever its
    kind), or any error of a job out of attempts, buries the job without a
    lease; every other error makes it wait for the delay the provider asked for,
    else for five seconds to an hour, again without a lease; the attempt count
    and every other row stay.  When the lease is gone nothing changes. *)
Theorem handleProcessingError_routing (int63n : Z → Z) (pool w : string) (err : GoErr) (e : Env)
    (db : JobDB) (n : nat) (j : UploadJob)
    (Hj : jobs db !! ID j = Some j) (Hrel : reliable e) (Hrand : Int63n_contract int63n) :
  let run := handleProcessingError int63n pool w j err e (db, n) in
  if owned_by w j then
    (∀ k, k ≠ ID j → jobs (state_of run) !! k = jobs db !! k) ∧
    ∃ j', jobs (state_of run) !! ID j = Some j' ∧ AttemptCount j' = AttemptCount j ∧
      if Is err "ErrUploadJobLeaseLost" || Is err "context.Canceled" then j' = j
      else job_owner j' = None ∧ ErrorMessage (State j') = Some (Error err) ∧
        if bool_decide (Kind (ClassifyError err) ∈ [ErrorKindPermanent; ErrorKindAuth]) ||
           Is err ErrPermanent || Is err ErrPermanentUpload ||
           (MaxAttempts (Spec j) <=? AttemptCount j)
        then job_status j' = UploadJobStatusDeadLetter
        else job_status j' = UploadJobStatusRetryWait ∧
          ∃ d, NextAttemptAt j' = Some (app_now e + d) ∧ 0 < d ∧
            (0 < RetryAfterFromError err → d = RetryAfterFromError err) ∧
            (RetryAfterFromError err ≤ 0 → 5 * Second ≤ d ≤ Hour)
  else state_of run = db.
Proof.
  cbv zeta. destruct (owned_by w j) eqn:Hw.
  2:{ apply handle_stale. intros j' Hj'. congruence. }
  rewrite (handle_owned int63n pool w err e db n j Hj Hw Hrel). split.
  { intros k Hk. simpl. by rewrite lookup_insert_ne by done. }
  exists (failed_row int63n pool err e j). split; [apply lookup_insert_eq|].
  assert (Hfinal : is_final pool err || (MaxAttempts (Spec j) <=? AttemptCount j) =
    bool_decide (Kind (ClassifyError err) ∈ [ErrorKindPermanent; ErrorKindAuth]) ||
    Is err ErrPermanent || Is err ErrPermanentUpload || (MaxAttempts (Spec j) <=? AttemptCount j)).
  { unfold is_final, ClassifyErrorFor. cbn [Kind]. do 3 f_equal.
    repeat case_bool_decide; try done; exfalso; set_solver. }
  rewrite <- Hfinal. unfold failed_row, verdict.
  destruct (Is err "ErrUploadJobLeaseLost"); [done|].
  destruct (Is err "context.Canceled"); [done|]. cbn [orb].
  destruct (is_final pool err); [done|].
  destruct (MaxAttempts (Spec j) <=? AttemptCount j); [done|]. cbn [orb].
  split; [done|]. split; [done|]. split; [done|]. split; [done|].
  exists (retry_delay int63n j err). split; [done|].
  pose proof (computeUploadBackoff_bounds int63n (AttemptCount j) Hrand) as Hb.
  unfold retry_delay. destruct (Z.ltb_spec 0 (RetryAfterFromError err));
    unfold Second, Hour, Minute in *; lia.
Qed.

Definition busy_error : GoErr :=
  Errorf_w "upload chunk" (NewProviderError "youtube" 503 "busy" (mkParsedResponse "" "" 0 false 90)
                             None).
Definition leased_sample : JobDB :=
  run_history [(sample_env 100, OpCreate sample_spec "pending");
               (sample_env 101, OpClaimBatch "w" 5 Minute)] no_jobs.
Lemma handleProcessingError_routing_witness :
  ∃ j j', jobs leased_sample !! 1 = Some j ∧ owned_by "w" j = true ∧
    jobs (state_of (handleProcessingError (λ _, 0) "ingest" "w" j busy_error (sample_env 200)
                      (leased_sample, O))) !! 1 = Some j' ∧
    job_status j' = "retry_wait" ∧ NextAttemptAt j' = Some 290.
Proof.
  destruct (jobs leased_sample !! 1) as [j|] eqn:Hj; [|vm_compute in Hj; discriminate Hj].
  assert (Hid : ID j = 1) by (vm_compute in Hj; injection Hj as <-; reflexivity).
  assert (Hw : owned_by "w" j = true) by (vm_compute in Hj; injection Hj as <-; reflexivity).
  assert (Hm : (MaxAttempts (Spec j) <=? AttemptCount j) = false)
    by (vm_compute in Hj; injection Hj as <-; reflexivity).
  assert (Hrand : Int63n_contract (λ _, 0)) by (intros k Hk; lia).
  rewrite <- Hid in Hj.
  pose proof (handleProcessingError_routing (λ _, 0) "ingest" "w" busy_error (sample_env 200)
    leased_sample O j Hj (λ _, eq_refl) Hrand) as H.
  cbv zeta in H. rewrite Hw in H. destruct H as (_ & j' & Hj' & _ & H).
  assert (Hc : (Is busy_error "ErrUploadJobLeaseLost" || Is busy_error "context.Canceled" = false) ∧
    bool_decide (Kind (ClassifyError busy_error) ∈ [ErrorKindPermanent; ErrorKindAuth]) ||
    Is busy_error ErrPermanent || Is busy_error ErrPermanentUpload = false ∧
    RetryAfterFromError busy_error = 90) by (vm_compute; auto).
  destruct Hc as (Hc1 & Hc2 & Hc3). rewrite Hc1, Hc2, Hm, Hc3 in H.
  destruct H as (_ & _ & Hs & d & Hn & _ & Hd & _).
  exists j, j'. rewrite <- Hid. split; [reflexivity|]. split; [exact Hw|].
  split; [exact Hj'|]. split; [exact Hs|]. rewrite Hn, (Hd eq_refl). reflexivity.
Defined.

(** ** A job that always fails is buried *)

(** One round of a worker: anything may happen before it; then a claim of one
    of the pools, and, if the claim returned the job, its failure. *)
Record Round := mkRound {
  before : history;
  publish_pool : bool;
  round_worker : string;
  round_limit : Z;
  round_lease : Z;
  claim_env : Env;
  fail_env : Env;
  failure : GoErr;
  int63n : Z → Z
}.
Definition pool_name (r : Round) : string := if publish_pool r then "publish" else "ingest".
Definition round_claim (r : Round) (db : JobDB) : (err + list UploadJob) * (JobDB * nat) :=
  (if publish_pool r then ClaimBatchForPublish (round_worker r) (round_limit r) (round_lease r)
   else ClaimBatch (round_worker r) (round_limit r) (round_lease r)) (claim_env r) (db, O).
Definition got (id : Z) (r : Round) (db : JobDB) : option UploadJob :=
  match result_of (round_claim r db) with
  | inr js => find (λ j, ID j =? id) js
  | inl _ => None
  end.
(** The number of rounds that got the job, and the table after them. *)
Fixpoint run_rounds (id : Z) (rs : list Round) (db : JobDB) : nat * JobDB :=
  match rs with
  | [] => (O, db)
  | r :: rs =>
      let db1 := run_history (before r) db in
      let db2 := state_of (round_claim r db1) in
      match got id r db1 with
      | None => run_rounds id rs db2
      | Some j =>
          let db3 := state_of (handleProcessingError (int63n r) (pool_name r) (round_worker r) j
                                 (failure r) (fail_env r) (db2, O)) in
          let '(k, db') := run_rounds id rs db3 in (S k, db')
      end
  end.
(** The failure is recorded, and is not a shutdown or a lost lease. *)
Definition round_ok (r : Round) : Prop :=
  Forall (λ eo, op_ok eo.2) (before r) ∧ reliable (fail_env r) ∧
  Is (failure r) "ErrUploadJobLeaseLost" = false ∧ Is (failure r) "context.Canceled" = false.

(** After [k] failures: buried, or still short of the budget. *)
Definition buried (id : Z) (db : JobDB) : Prop :=
  ∃ j, jobs db !! id = Some j ∧ job_status j = UploadJobStatusDeadLetter.
Definition short (id budget attempts : Z) (db : JobDB) : Prop :=
  ∀ j, jobs db !! id = Some j → MaxAttempts (Spec j) = budget ∧ attempts ≤ AttemptCount j.
Definition progress (id budget attempts : Z) (db : JobDB) : Prop :=
  db_ok db ∧ id < job_serial db ∧ (buried id db ∨ short id budget attempts db).

Lemma progress_safe id budget a db db' :
  safe_step db db' → progress id budget a db → progress id budget a db'.
Proof.
  intros Hst (Hok & Hid & Hp). destruct (Hst Hok) as [Hok' [Hg Hgone Hser]].
  split; [done|]. split; [lia|]. destruct Hp as [(j & Hj & Hs)|Hsh].
  - left. specialize (Hg id j Hj). destruct (jobs db' !! id) as [j'|] eqn:Hj'.
    + exists j'. split; [done|]. rewrite (ev_frozen _ _ Hg); [done|]. by rewrite Hs.
    + by rewrite Hs in Hg.
  - right. intros j' Hj'. destruct (jobs db !! id) as [j|] eqn:Hj.
    + specialize (Hg id j Hj). rewrite Hj' in Hg. destruct (Hsh j Hj) as [Hm Ha].
      pose proof (ev_source _ _ Hg) as Hs. injection Hs as _ _ _ _ _ _ Hmax.
      pose proof (ev_attempts _ _ Hg). split; [congruence|lia].
    + rewrite (Hgone id Hid Hj) in Hj'. discriminate Hj'.
Qed.
Lemma round_claim_safe r db : safe_step db (state_of (round_claim r db)).
Proof.
  unfold round_claim. destruct (publish_pool r);
    [apply ClaimBatchForPublish_safe|apply ClaimBatch_safe].
Qed.
Lemma claim_batch_inr name w limit lease cand e db n js s :
  claim_batch name w limit lease (claim_statement cand) e (db, n) = (inr js, s) →
  js = [] ∨ (js, s.1) = claim_statement cand w limit (app_now e + lease) e db.
Proof.
  unfold claim_batch. case_bool_decide; [done|].
  destruct (limit <=? 0); [intros [= <- <-]; by left|]. destruct (lease <=? 0); [done|].
  destruct s as [db' n']. intros (e' & [s1 n1] & [-> Hs]%ask_inr & Hrun)%bind_inr. right.
  injection Hs as -> ->. apply exec_inr in Hrun as (_ & _ & Hrun). done.
Qed.
Lemma claim_returns cand w limit u e db j :
  db_ok db → (∀ now j, cand now j = true → job_status j ∈ ["pending"; "retry_wait"; "ingest_completed"]) →
  j ∈ (claim_statement cand w limit u e db).1 →
  jobs (claim_statement cand w limit u e db).2 !! ID j = Some j ∧ owned_by w j = true ∧
  ∃ j0, jobs db !! ID j = Some j0 ∧ job_status j0 ≠ UploadJobStatusDeadLetter ∧
        AttemptCount j = AttemptCount j0 + 1 ∧ MaxAttempts (Spec j) = MaxAttempts (Spec j0).
Proof.
  intros Hok Hc Hj. destruct (claim_statement_taken cand w limit u e db Hok) as [H1 H2].
  rewrite H1 in Hj. apply list_elem_of_fmap in Hj as (j0 & -> & Hj0).
  assert (H0 : j0 ∈ offered cand e db).
  { rewrite <- (sort_by_perm claim_order), <- (take_drop (Z.to_nat limit)).
    apply elem_of_app. by left. }
  apply offered_spec in H0 as (Hl & Hcj & _); [|done]. change (ID (leased_job w u e j0)) with (ID j0).
  rewrite H2, Hl. simpl. rewrite bool_decide_eq_true_2 by (apply list_elem_of_fmap; by exists j0).
  split; [done|]. split; [by apply owned_by_spec|]. exists j0. split; [done|].
  split; [|done]. intros Hs. specialize (Hc _ _ Hcj). rewrite Hs in Hc.
  set_solver.
Qed.
Lemma got_spec id r db j :
  db_ok db → got id r db = Some j →
  ID j = id ∧ jobs (state_of (round_claim r db)) !! id = Some j ∧
  owned_by (round_worker r) j = true ∧
  ∃ j0, jobs db !! id = Some j0 ∧ job_status j0 ≠ UploadJobStatusDeadLetter ∧
        AttemptCount j = AttemptCount j0 + 1 ∧ MaxAttempts (Spec j) = MaxAttempts (Spec j0).
Proof.
  intros Hok Hg.
  set (cand := if publish_pool r then publish_candidate else ingest_candidate).
  assert (Hcand : ∀ now j, cand now j = true → job_status j ∈ ["pending"; "retry_wait"; "ingest_completed"]).
  { intros now j' H. apply (candidate_status now). subst cand. destruct (publish_pool r); auto. }
  assert (Hrun : ∃ name, round_claim r db =
    claim_batch name (round_worker r) (round_limit r) (round_lease r) (claim_statement cand)
      (claim_env r) (db, O)).
  { subst cand. unfold round_claim. destruct (publish_pool r); by eexists. }
  destruct Hrun as [name Hrun]. unfold got, result_of, state_of in *. rewrite Hrun in *.
  destruct (claim_batch _ _ _ _ _ _ _) as [[er|js] [db' n']] eqn:E; [done|]. simpl in *.
  apply find_some in Hg as [Hin Hid]. apply Z.eqb_eq in Hid. split; [done|].
  destruct (claim_batch_inr _ _ _ _ _ _ _ _ _ _ E) as [->|H]; [done|].
  apply list_elem_of_In in Hin. injection H as -> ->. rewrite <- Hid.
  by eapply claim_returns.
Qed.

(** One failure of the job: buried, or one more attempt and still in budget. *)
Lemma failure_progress id budget a r db j :
  progress id budget a db → round_ok r → got id r db = Some j →
  ¬ buried id db ∧
  let db' := state_of (handleProcessingError (int63n r) (pool_name r) (round_worker r) j (failure r)
                         (fail_env r) (state_of (round_claim r db), O)) in
  progress id budget (a + 1) db' ∧ (buried id db' ∨ a + 1 < budget).
Proof.
  intros (Hok & Hid & Hp) (_ & Hrel & Hf1 & Hf2) Hgot.
  destruct (got_spec id r db j Hok Hgot) as (Hj & Hrow & Hown & j0 & Hj0 & Hs0 & Ha & Hm).
  assert (Hnb : ¬ buried id db) by (intros (j' & Hj' & Hs'); congruence).
  split; [done|]. destruct Hp as [?|Hsh]; [done|].
  destruct (Hsh j0 Hj0) as [Hb Ha0]. cbv zeta.
  destruct (round_claim_safe r db Hok) as [Hok2 [_ _ Hser2]].
  set (db2 := state_of (round_claim r db)) in *.
  destruct (handle_safe (int63n r) (pool_name r) (round_worker r) j (failure r) (fail_env r) db2 O
    Hok2) as [Hok3 [_ _ Hser3]].
  set (db3 := state_of (handleProcessingError _ _ _ _ _ _ _)) in *.
  assert (Hrow3 : jobs db3 !! id = Some (failed_row (int63n r) (pool_name r) (failure r) (fail_env r) j)).
  { subst db3. rewrite <- Hj in Hrow. rewrite (handle_owned _ _ _ _ _ _ _ _ Hrow Hown Hrel).
    simpl. rewrite Hj. apply lookup_insert_eq. }
  unfold failed_row, verdict in Hrow3. rewrite Hf1, Hf2 in Hrow3.
  assert (Hbury : ∀ c m, jobs db3 !! id = Some (dead_job c m (fail_env r) j) → buried id db3).
  { intros c m H. by exists (dead_job c m (fail_env r) j). }
  unfold progress. destruct (is_final (pool_name r) (failure r)).
  { apply Hbury in Hrow3. split; [split; [done|]; split; [lia|by left]|by left]. }
  destruct (Z.leb_spec (MaxAttempts (Spec j)) (AttemptCount j)).
  { apply Hbury in Hrow3. split; [split; [done|]; split; [lia|by left]|by left]. }
  split; [|right; lia]. split; [done|]. split; [lia|]. right. intros j' Hj'.
  rewrite Hrow3 in Hj'. injection Hj' as <-. simpl. split; [congruence|lia].
Qed.
Lemma before_progress id budget a r db :
  Forall (λ eo, op_ok eo.2) (before r) → progress id budget a db →
  progress id budget a (run_history (before r) db).
Proof. intros Hb. apply progress_safe. by apply job_history_safe. Qed.
Lemma run_rounds_progress id budget rs : Forall round_ok rs → ∀ a db,
  progress id budget a db → (buried id db ∨ a < budget) →
  let '(k, db') := run_rounds id rs db in
  progress id budget (a + Z.of_nat k) db' ∧ (a < budget → a + Z.of_nat k ≤ budget) ∧
  (buried id db → k = O) ∧ (buried id db' ∨ a + Z.of_nat k < budget).
Proof.
  induction 1 as [|r rs Hr Hrs IH]; intros a db Hp Hb; cbn [run_rounds].
  { rewrite Z.add_0_r. split; [done|]. split; [lia|done]. }
  assert (Hsafe : safe_step db (run_history (before r) db)) by (apply job_history_safe, Hr).
  assert (Hp1 := progress_safe id budget a _ _ Hsafe Hp).
  assert (Hkeep : ∀ d d', safe_step d d' → db_ok d → buried id d → buried id d').
  { intros d d' Hst Hd (j & Hj & Hs). destruct (Hst Hd) as [_ [Hg _ _]]. specialize (Hg id j Hj).
    destruct (jobs d' !! id) as [j'|] eqn:Hj'; [|by rewrite Hs in Hg].
    exists j'. split; [done|]. rewrite (ev_frozen _ _ Hg); [done|]. by rewrite Hs. }
  assert (Hb1 : buried id db → buried id (run_history (before r) db)) by (apply Hkeep; [done|apply Hp]).
  set (db1 := run_history (before r) db) in *.
  destruct (got id r db1) as [j|] eqn:Hg.
  - destruct (failure_progress id budget a r db1 j Hp1 Hr Hg) as (Hnb & Hp3 & Hb3). cbv zeta in Hp3, Hb3.
    set (db3 := state_of (handleProcessingError _ _ _ _ _ _ _)) in *.
    specialize (IH (a + 1) db3 Hp3 Hb3). destruct (run_rounds id rs db3) as [k db'].
    destruct IH as (Hp' & Hle & Hz & Hend).
    replace (a + 1 + Z.of_nat k) with (a + Z.of_nat (S k)) in * by lia.
    split; [done|]. split; [|split; [tauto|done]].
    intros Ha. destruct Hb3 as [Hb3|Hb3]; [rewrite (Hz Hb3); lia|lia].
  - assert (Hp2 := progress_safe id budget a _ _ (round_claim_safe r db1) Hp1).
    assert (Hb2 : buried id db1 → buried id (state_of (round_claim r db1))).
    { apply Hkeep; [apply round_claim_safe|apply Hp1]. }
    assert (Hb' : buried id (state_of (round_claim r db1)) ∨ a < budget) by tauto.
    specialize (IH a _ Hp2 Hb'). destruct (run_rounds id rs _) as [k db'].
    destruct IH as (? & ? & Hz & ?). tauto.
Qed.

(** C19: a job that fails whenever it runs is buried.  Take any sequence of worker
    rounds of both pools, with anything else between them and any failure of the
    claims, in which each failure of the job is recorded: the job is handed to
    a worker at most as often as its attempt budget has left (once at
    least), and after that many failures it is in the dead letter state,
    where no claim finds it again.  No poisonous upload occupies the workers
    forever. *)
Theorem failing_job_is_buried (id : Z) (rs : list Round) (db : JobDB) (j : UploadJob)
    (Hok : db_ok db) (Hj : jobs db !! id = Some j) (Hrs : Forall round_ok rs) :
  let '(failures, db') := run_rounds id rs db in
  let budget := Z.max 1 (MaxAttempts (Spec j) - AttemptCount j) in
  Z.of_nat failures ≤ budget ∧ (Z.of_nat failures = budget → buried id db').
Proof.
  set (a := Z.min (AttemptCount j) (MaxAttempts (Spec j) - 1)).
  pose proof (run_rounds_progress id (MaxAttempts (Spec j)) rs Hrs a db) as H.
  destruct (run_rounds id rs db) as [k db'].
  destruct H as (_ & Hle & _ & Hend).
  - split; [done|]. split; [apply (ok_serial _ Hok); by exists j|]. right.
    intros j' Hj'. simplify_eq. split; [done|lia].
  - right. lia.
  - split; [lia|]. intros Hk. destruct Hend; [done|lia].
Qed.

Definition sample_round (i : Z) : Round :=
  mkRound [] false "w" 5 Minute (sample_env (1000 * i)) (sample_env (1000 * i + 1)) busy_error (λ _, 0).
Lemma failing_job_is_buried_witness :
  let db := run_history [(sample_env 100, OpCreate sample_spec "pending")] no_jobs in
  let run := run_rounds 1 (sample_round <$> [1; 2; 3; 4; 5; 6; 7; 8; 9; 10]) db in
  run.1 = 8%nat ∧ buried 1 run.2.
Proof.
  intros db run.
  assert (Hok : db_ok db).
  { refine (proj1 (job_history_safe _ _ _ no_jobs_ok)). repeat constructor. }
  destruct (jobs db !! 1) as [j|] eqn:Hj; [|vm_compute in Hj; discriminate Hj].
  assert (Hrs : Forall round_ok (sample_round <$> [1; 2; 3; 4; 5; 6; 7; 8; 9; 10])).
  { repeat constructor. }
  pose proof (failing_job_is_buried 1 _ db j Hok Hj Hrs) as H. fold run in H.
  assert (Hk : run.1 = 8%nat) by (vm_compute; reflexivity).
  destruct run as [k db'] eqn:E. simpl in Hk. subst k. split; [reflexivity|].
  apply (proj2 H). vm_compute in Hj. injection Hj as <-. reflexivity.
Defined.
