(* ===== verification/PublishWorker.v ===== *)
(** * The publish worker

    [src/internal/worker/publish_worker*.go] over the post store: one claimed
    target is taken through its credentials, its pre-flight checks and the
    provider, and its row is written back under the publish lease.

    What the worker calls through an interface (the vault, the providers, the
    media resolver, the delivery registry, the YouTube publication store) is a
    field of [Deps].  Every such call is logged in the [World] with the store
    as it was, answers what it likes given the calls before it, and lets other
    processes run operations of the post store meanwhile ([peers]).  JSON
    metadata is read through decoders, which are fields of [Deps] too.  The
    database is the production one, so the lease-aware branches are the ones
    modelled; log lines and metrics are not. *)

From S2P Require Import Prelude Codec Store PostModel Backoff PostStore PostReads GoError ErrorClass.
From Stdlib Require Import ZArith Lia.
Local Open Scope Z_scope.

(** ** Data *)
(* Source: internal/models/user.go *)
Definition PlatformGoogleDrive : string := "google-drive". (* 9 *)
Definition PlatformTikTok : string := "tiktok". (* 15 *)
Definition PlatformYouTube : string := "youtube". (* 18 *)
Definition AccountStatusReauthRequired : string := "reauth_required". (* 52 *)
Definition PublishSourcePULLFromFile : string := "PULL_FROM_FILE". (* 297 *)
(** The fields the worker reads; [acc_Language] is the string under "language"
    in the metadata, empty when there is none. *)
(* 78-99 PlatformAccount *)
Record PlatformAccount := mkPlatformAccount {
  acc_ID : Z;
  acc_Platform : string;
  acc_PlatformUserID : string;
  acc_Status : string;
  acc_ReauthRequiredAt : option Z;
  acc_Language : string;
  acc_OAuthConnectionID : option Z
}.
(* 229-283 PublishPayload *)
Record PublishPayload := mkPublishPayload {
  pl_Text : string;
  pl_VideoURL : string;
  pl_Title : string;
  pl_Tags : list string;
  pl_PrivacyLevel : string;
  pl_IdempotencyKey : string;
  pl_Source : string;
  pl_PublishAt : option Z
}.
(* 301-304 PublishResult *)
Record PublishResult := mkPublishResult { PlatformMediaID : string; PlatformURL : string }.
(* Source: internal/models/youtube_target_publication.go *)
(** The fields the worker reads. *)
(* 72-147 YouTubeTargetPublication *)
Record YouTubeTargetPublication := mkYouTubeTargetPublication {
  yp_ID : Z;
  yp_YouTubeUploadStatus : string;
  yp_YouTubeVideoID : option string;
  yp_NativePublishAt : option Z
}.
(* Source: internal/models/delivery.go *)
(* 83-108 DeliveryResult *)
Record DeliveryResult := mkDeliveryResult {
  dr_ProviderName : string;
  dr_Status : string;
  dr_RemoteID : string;
  dr_RemoteURL : string;
  dr_Metadata : gmap string string
}.
(* 21-55 DeliveryDestination *)
Record DeliveryDestination := mkDeliveryDestination {
  dd_Provider : string;
  dd_RemoteID : string;
  dd_RemoteURL : string;
  dd_Config : gmap string string
}.
(** The fields of [models.MediaAsset] that the worker sets. *)
Record Asset := mkAsset {
  as_ID : string;
  as_UploadKey : string;
  as_Bucket : string;
  as_ContentType : string;
  as_SizeBytes : Z
}.
(** A failed delivery: the error, and the [DeliveryError]s on its chain of
    single [Unwrap]s, outermost first, as status and stage. *)
Record DeliveryFailure := mkDeliveryFailure {
  df_err : err;
  df_carriers : list (Z * string)
}.
(** What the router knows of a platform. *)
Record Capabilities := mkCapabilities {
  cap_oauth : bool;
  cap_publisher : bool;
  cap_async : bool;
  cap_raw : bool;
  cap_binder : bool;
  cap_checker : bool;
  cap_updater : bool
}.
(* Source: internal/worker/publish_worker_translate.go *)
(* 30-34 translationCacheKey *)
Definition translationCacheKey : Type := Z * Z * string.
Record TranslateRequest := mkTranslateRequest {
  tr_Title : string;
  tr_Description : string;
  tr_SourceLanguage : string;
  tr_TargetLanguage : string
}.

(** Calls that leave the worker. *)
Inductive Event :=
| CallFindAccount (id : Z)
| CallRenew (account : Z) (tokenType : string)
| CallPageToken (account : Z)
| CallBinding (token user : string)
| CallCanary (token user : string)
| CallReauth (account : Z) (code message : string)
| CallConnectionReauth (connection : Z) (code message : string)
| CallLookup (target : Z)
| CallMarkPublished (publication : Z)
| CallClearUpload (publication : Z)
| CallUpdatePrivacy (token video privacy : string) (publishAt : option Z) (title caption : string)
| CallGetVideo (token video : string)
| CallTranslate (req : TranslateRequest)
| CallDescribe (req : TranslateRequest)
| CallThrottle (platform : string)
| CallResolve (post : Z)
| CallPublish (platform token user : string) (payload : PublishPayload)
| CallHead (url : string)
| CallRange (url : string)
| CallDeliver (asset : Asset) (dest : DeliveryDestination) (key : string)
| CallReconcile (platform token publishID : string)
| CallSync (package : Z).

(** The collaborators.  A call is answered from the calls before it. *)
Record Deps := mkDeps {
  sha256_hex : string → string;
  find_account : list Event → Z → err + option PlatformAccount;
  capabilities : string → Capabilities;
  vault_renew : list Event → Z → string → err + string;
  page_token : list Event → Z → option string;
  validate_binding : list Event → string → string → option err;
  canary_upload : option (list Event → string → string → option (string * string));
  yt_lookup : option (list Event → Z → err + option YouTubeTargetPublication);
  update_privacy : list Event → string → option err;
  get_video : list Event → string → err + string;
  translate : option (list Event → TranslateRequest → err + option (string * string));
  describe : option (list Event → TranslateRequest → err + string);
  throttle_wait : list Event → string → option err;
  resolve_upload : option (list Event → Post → err + string);
  publish : list Event → string → PublishPayload → GoErr + PublishResult;
  delivery_registry : option (string → bool);
  head_size : list Event → string → option (Z * string);
  range_size : list Event → string → option (option Z * string);
  url_base : string → option string;
  deliver : list Event → Asset → DeliveryDestination → DeliveryFailure + DeliveryResult;
  package_sync : bool;
  drive_folder_env : string;
  json_tags : string → option (list string);
  json_translation_enabled : string → option bool;
  json_source_language : string → string;
  json_snapshot : string → Z → option (string * string);
  json_package : string → option Z;
  json_folder_id : string → option string;
  json_canary : string → bool;
  peers : list Event → history
}.

(** ** The state of a worker on one target *)
Record World := mkWorld {
  w_store : PostDB;
  w_target : PostTarget;
  w_calls : list (Event * PostDB);
  w_cache : gmap translationCacheKey Post
}.
Definition W := M World.
Definition calls (s : World) : list Event := (w_calls s).*1.

Definition on_store {A} (m : M PostDB A) : W A := λ e w,
  match m e (w_store w.1, w.2) with
  | (r, (db, n)) => (r, (mkWorld db (w_target w.1) (w_calls w.1) (w_cache w.1), n))
  end.
Definition get_target : W PostTarget := λ _ w, (inr (w_target w.1), w).
Definition set_target (t : PostTarget) : W unit := λ _ w,
  (inr tt, (mkWorld (w_store w.1) t (w_calls w.1) (w_cache w.1), w.2)).
Definition get_cache : W (gmap translationCacheKey Post) := λ _ w, (inr (w_cache w.1), w).
Definition put_cache (k : translationCacheKey) (p : Post) : W unit := λ _ w,
  (inr tt, (mkWorld (w_store w.1) (w_target w.1) (w_calls w.1) (<[k := p]> (w_cache w.1)), w.2)).

(** Fields of the target struct that the worker assigns. *)
Definition assign (status : string) (attempts : Z) (next : option Z) (ppid message : string)
    (published : option Z) (code : string) (key : option string) (t : PostTarget) : PostTarget :=
  mkPostTarget (ID t) (PostID t) (PlatformAccountID t) status attempts next (ReconcileAttempt t)
    (NextReconcileAt t) (ReconcileOwnerID t) (ReconcileUntil t) (ReconcileHeartbeatAt t) ppid
    (RemotePostID t) (RemotePostURL t) message published (CompletedAt t) (ProviderState t)
    (ContainerID t) code key (LeaseOwner t) (LeaseUntil t) (HeartbeatAt t) (Version t)
    (CreatedAt t) (UpdatedAt t).
Definition with_Status (s : string) (t : PostTarget) : PostTarget :=
  assign s (AttemptCount t) (NextAttemptAt t) (PlatformPostID t) (ErrorMessage t) (PublishedAt t)
    (LastErrorCode t) (ProviderIdempotencyKey t) t.
Definition with_ErrorMessage (m : string) (t : PostTarget) : PostTarget :=
  assign (Status t) (AttemptCount t) (NextAttemptAt t) (PlatformPostID t) m (PublishedAt t)
    (LastErrorCode t) (ProviderIdempotencyKey t) t.
Definition with_PlatformPostID (p : string) (t : PostTarget) : PostTarget :=
  assign (Status t) (AttemptCount t) (NextAttemptAt t) p (ErrorMessage t) (PublishedAt t)
    (LastErrorCode t) (ProviderIdempotencyKey t) t.
Definition with_PublishedAt (at_ : Z) (t : PostTarget) : PostTarget :=
  assign (Status t) (AttemptCount t) (NextAttemptAt t) (PlatformPostID t) (ErrorMessage t) (Some at_)
    (LastErrorCode t) (ProviderIdempotencyKey t) t.
Definition with_LastErrorCode (c : string) (t : PostTarget) : PostTarget :=
  assign (Status t) (AttemptCount t) (NextAttemptAt t) (PlatformPostID t) (ErrorMessage t)
    (PublishedAt t) c (ProviderIdempotencyKey t) t.
Definition with_key (k : string) (t : PostTarget) : PostTarget :=
  assign (Status t) (AttemptCount t) (NextAttemptAt t) (PlatformPostID t) (ErrorMessage t)
    (PublishedAt t) (LastErrorCode t) (Some k) t.
Definition with_attempt (next : Z) (t : PostTarget) : PostTarget :=
  assign (Status t) (AttemptCount t + 1) (Some next) (PlatformPostID t) (ErrorMessage t)
    (PublishedAt t) (LastErrorCode t) (ProviderIdempotencyKey t) t.
Definition modify (f : PostTarget → PostTarget) : W unit := t ← get_target; set_target (f t).
(** The arguments of the status statements. *)
Definition update_of (t : PostTarget) : TargetUpdate :=
  mkTargetUpdate (ID t) (Status t) (PlatformPostID t) (ErrorMessage t) (PublishedAt t)
    (ProviderState t) (ContainerID t) (LastErrorCode t).
(** The struct that [ListPending] scans: neither the attempts nor the retry
    schedule are among its columns. *)
(* Source: internal/repository/post_repo_target.go *)
(* 240-246 PostRepository.ListPending *)
Definition scanned_target (kt : Z * TargetRow) : PostTarget :=
  let t := kt.2 in
  let p := t_provider t in
  mkPostTarget kt.1 (t_post t) (t_account t) (t_status t) 0 None 0 None "" None None
    (default "" (platform_post_id p)) "" "" (default "" (error_message p)) (published_at p)
    (completed_at p) (default "" (provider_state p)) (default "" (container_id p)) ""
    (provider_idempotency_key p) "" None None 0 0 0.
(** A provider error as the callers of the worker see it. *)
Definition sentinel_name (d : Dyn) : list string :=
  match d with DSentinel n _ => [n] | _ => [] end.
Definition go_err (e : GoErr) : err := mkErr (Error e) (flat_map sentinel_name (chain e)).

(** ** Helpers of other packages *)
(* Source: internal/services/youtube_publish.go *)
(* 276-278 EncodeYouTubePublishID *)
Definition EncodeYouTubePublishID (channelID videoID : string) : string :=
  channelID +:+ ":" +:+ videoID.
(** [IsZero] is 0. *)
(* 383-392 CoercePrivacyForUpdate *)
Definition CoercePrivacyForUpdate (privacyLevel : string) (publishAt : option Z) (now : Z) :
    string * option Z :=
  match publishAt with
  | Some at_ => if (at_ =? 0) || (at_ <=? now) then (privacyLevel, None) else ("private", publishAt)
  | None => (privacyLevel, None)
  end.
(* Source: internal/repository/post_repo_metadata.go *)
(** The column [canary_video_id] has no other reader and is left out. *)
(* 35-47 PostRepository.SetTargetCanaryVideoID *)
Definition SetTargetCanaryVideoID (targetID : Z) (videoID : string) : M PostDB unit :=
  if bool_decide (videoID = "") then mret tt
  else exec "failed to set target canary video id" (λ e db,
    (tt, (update_targets (row targetID (λ _, true))
            (λ t, mkTargetRow (t_post t) (t_account t) (t_status t) (t_lease t) (t_reconcile t)
                    (t_retry t) (t_provider t) (t_version t) (db_now e)) e db).2)).
Definition mediaReferenceValue (value : option string) : string := default "" value.

(** ** The worker *)
Section Worker.
Context (D : Deps) (workerID : string).

(** A call: it is logged, peers may work meanwhile, then it answers. *)
Definition outside {A} (ev : Event) (answer : list Event → A) : W A := λ _ w,
  let h := calls w.1 in
  (inr (answer h), (mkWorld (run_history (peers D h) (w_store w.1)) (w_target w.1)
                      (w_calls w.1 ++ [(ev, w_store w.1)]) (w_cache w.1), w.2)).
(** A call whose error is returned. *)
Definition outside_err {A} (ev : Event) (answer : list Event → err + A) : W A :=
  r ← outside ev answer; match r with inl er => throw er | inr a => mret a end.

(** *** Writing the target back *)
(* Source: internal/worker/publish_worker_lease.go *)
(* 28-36 PublishWorker.updateTargetStatus *)
Definition updateTargetStatus : W unit :=
  t ← get_target; on_store (UpdateStatusWithLease (Some (update_of t)) workerID).
(* 52-65 PublishWorker.retryTarget *)
Definition retryTarget (reason : string) : W unit :=
  e ← ask; t ← get_target;
  let next := app_now e + publishRetryBackoff (AttemptCount t) in
  _ ← on_store (MarkRetrying (ID t) workerID reason next);
  modify (λ t, with_ErrorMessage reason (with_attempt next (with_Status PostStatusRetrying t))).
(* 67-77 PublishWorker.deadLetterTarget *)
Definition deadLetterTarget (reason : string) : W unit :=
  t ← get_target;
  _ ← on_store (MarkDeadLetter (ID t) workerID reason);
  modify (λ t, with_ErrorMessage reason (with_Status PostStatusDLQ t)).
(* Source: internal/worker/publish_worker_retry.go *)
Definition defaultRateLimitBackoff : Z := 60 * Second. (* 27 *)
(* 46-73 PublishWorker.markRateLimited *)
Definition markRateLimited (pubErr : GoErr) : W unit :=
  e ← ask; t ← get_target;
  let classification := ClassifyErrorFor "" "publish" pubErr in
  let retryAfter := if 0 <? RetryAfter classification then RetryAfter classification
                    else RetryAfterFromError pubErr in
  let retryAfter := if retryAfter <=? 0 then defaultRateLimitBackoff else retryAfter in
  let nextAttempt := app_now e + retryAfter in
  _ ← map_err (λ er, mkErr ("reschedule rate-limited target: " +:+ err_text er +:+ bytes [10%N] +:+
                              Error pubErr) (err_chain (go_err pubErr)))
        (on_store (MarkRateLimitedRetryWithLease (ID t) workerID nextAttempt (Error pubErr)));
  modify (λ t, with_ErrorMessage (Error pubErr) (with_LastErrorCode "RATE_LIMITED"
    (with_attempt nextAttempt (with_Status PostStatusQueued t)))).
(** It always returns an error. *)
(* 85-99 PublishWorker.markFailed *)
Definition markFailed {A} (reason : string) : W A :=
  _ ← modify (λ t, with_ErrorMessage reason (with_Status PostStatusFailed t));
  _ ← try (retryTarget reason);
  throw (errors_new reason).
(* 121-135 PublishWorker.markPublishBlockedAuth *)
Definition markPublishBlockedAuth {A} (reason : string) : W A :=
  _ ← modify (λ t, with_LastErrorCode "blocked_auth" (with_ErrorMessage reason
        (with_Status PostStatusBlockedAuth t)));
  _ ← try updateTargetStatus;
  throw (errors_new reason).
(* Source: internal/worker/oauth_reauth.go *)
Definition YouTubeReauthCode : string := "SHARED_GRANT_REAUTH_REQUIRED". (* 13 *)
Definition YouTubeReauthMessage : string := "Shared OAuth grant requires reauthorization". (* 16 *)
(* 79-81 youtubeReauthReason *)
Definition youtubeReauthReason : string :=
  YouTubeReauthMessage +:+ ": autorizzazione Google revocata o scaduta".
(** Errors of the account store are logged only. *)
(* 33-69 markYouTubeGrantReauth *)
Definition markYouTubeGrantReauth (account : PlatformAccount) : W unit :=
  if negb (bool_decide (acc_Platform account = PlatformYouTube)) then mret tt
  else match acc_OAuthConnectionID account with
  | Some c =>
      if 0 <? c then outside (CallConnectionReauth c YouTubeReauthCode YouTubeReauthMessage) (λ _, tt)
      else outside (CallReauth (acc_ID account) YouTubeReauthCode YouTubeReauthMessage) (λ _, tt)
  | None => outside (CallReauth (acc_ID account) YouTubeReauthCode YouTubeReauthMessage) (λ _, tt)
  end.

(** *** Claiming and loading *)
(* Source: internal/worker/publish_worker_download.go *)
Definition publishLeaseTTL : Z := 2 * Minute. (* 47-49 *)
(* 32-45 PublishWorker.claimTarget *)
Definition claimTarget : W bool :=
  t ← get_target;
  map_err (wrap ("claim target " +:+ itoa (ID t) +:+ " with lease"))
    (on_store (ClaimQueuedTargetWithLease (ID t) workerID publishLeaseTTL)).
(** [fmt.Errorf] with [%v]: the text only. *)
Definition formatted (prefix : string) (er : err) : err :=
  errors_new (prefix +:+ ": " +:+ err_text er).
(* 55-73 PublishWorker.loadPostAndAccount *)
Definition loadPostAndAccount : W (Post * PlatformAccount) :=
  t ← get_target;
  o ← map_err (formatted ("load post " +:+ itoa (PostID t))) (on_store (FindByID (PostID t)));
  match o with
  | None => throw (errors_new ("post " +:+ itoa (PostID t) +:+ " not found"))
  | Some post =>
      let a := PlatformAccountID t in
      found ← map_err (formatted ("load account " +:+ itoa a))
                (outside_err (CallFindAccount a) (λ h, find_account D h a));
      match found with
      | None => throw (errors_new ("platform_account " +:+ itoa a +:+ " not found"))
      | Some account => mret (post, account)
      end
  end.

(** *** Credentials *)
Definition vault_Renew (account : Z) (tokenType : string) : W string :=
  outside_err (CallRenew account tokenType) (λ h, vault_renew D h account tokenType).
(* Source: internal/credentials/youtube_token.go *)
Definition ErrYouTubeTokenRenewal : err := (* 69 *)
  sentinel "ErrYouTubeTokenRenewal" "youtube token renewal failed".
Definition ErrYouTubeInvalidGrant : err := (* 74 *)
  sentinel "ErrYouTubeInvalidGrant" "youtube OAuth grant requires reauthorization".
(* 20-61 RenewYouTubeToken *)
Definition RenewYouTubeToken (accountID : Z) : W string :=
  canonical ← try (vault_Renew accountID "bearer");
  match canonical with
  | inr token => mret token
  | inl er =>
      if errors_is er "ErrInvalidGrant" then throw ErrYouTubeInvalidGrant
      else if negb (errors_is er "ErrModernGrantMissing") then throw ErrYouTubeTokenRenewal
      else
        legacy ← try (vault_Renew accountID "long_lived");
        match legacy with
        | inr token => mret token
        | inl er2 =>
            if errors_is er2 "ErrInvalidGrant" then throw ErrYouTubeInvalidGrant
            else throw (wrap "youtube token renewal failed for canonical and temporary legacy credentials"
                          ErrYouTubeTokenRenewal)
        end
  end.
Definition renew_bearer (account : PlatformAccount) : W string :=
  if bool_decide (acc_Platform account = PlatformYouTube) then RenewYouTubeToken (acc_ID account)
  else vault_Renew (acc_ID account) "bearer".
(* Source: internal/worker/publish_worker_status.go *)
(* 216-251 PublishWorker.resolvePublishToken *)
Definition resolvePublishToken (account : PlatformAccount) : W string :=
  r ← try (
    if bool_decide (acc_Platform account = PlatformYouTube) then RenewYouTubeToken (acc_ID account)
    else
      r ← try (vault_Renew (acc_ID account) "bearer");
      match r with
      | inr token => mret token
      | inl er => if errors_is er "ErrModernGrantMissing" then vault_Renew (acc_ID account) "long_lived"
                  else throw er
      end);
  match r with
  | inl er =>
      if bool_decide (acc_Platform account = PlatformYouTube) && errors_is er "ErrYouTubeInvalidGrant"
      then _ ← markYouTubeGrantReauth account; markPublishBlockedAuth youtubeReauthReason
      else markFailed "token refresh failed"
  | inr token =>
      page ← outside (CallPageToken (acc_ID account)) (λ h, page_token D h (acc_ID account));
      match page with
      | Some p => if bool_decide (p = "") then mret token else mret p
      | None => mret token
      end
  end.
(* 280-342 PublishWorker.validateYouTubeChannelBinding *)
Definition validateYouTubeChannelBinding (account : PlatformAccount) (token : string) : W unit :=
  let user := acc_PlatformUserID account in
  let caps := capabilities D (acc_Platform account) in
  if negb (bool_decide (acc_Platform account = PlatformYouTube)) || negb (cap_raw caps) ||
     negb (cap_binder caps) then mret tt
  else
    bindErr ← outside (CallBinding token user) (λ h, validate_binding D h token user);
    match bindErr with
    | None => mret tt
    | Some er =>
        if errors_is er "ErrYouTubeChannelMismatch" then
          _ ← outside (CallReauth (acc_ID account) "youtube_channel_mismatch" (err_text er)) (λ _, tt);
          markPublishBlockedAuth ("youtube channel binding check: " +:+ err_text er)
        else markFailed ("youtube channel binding check: " +:+ err_text er)
    end.
(* Source: internal/worker/publish_worker_youtube.go *)
(* 458-472 PublishWorker.isCanaryEnabled *)
Definition isCanaryEnabled (post : Post) : W bool :=
  r ← try (on_store (GetMetadata (post_ID post)));
  match r with
  | inl _ => mret false
  | inr meta => if bool_decide (meta = "") then mret false else mret (json_canary D meta)
  end.
(** [canary_upload] answers nothing for an error or a nil result, otherwise the
    channel and the video. *)
(* Source: internal/worker/publish_worker_status.go *)
(* 353-383 PublishWorker.runCanaryPreflight *)
Definition runCanaryPreflight (account : PlatformAccount) (post : Post) (token : string) : W string :=
  enabled ← isCanaryEnabled post;
  if negb enabled then mret token
  else
    renewed ← try (renew_bearer account);
    match renewed with
    | inl _ => markPublishBlockedAuth "canary pre-flight: renew failed"
    | inr token =>
        match canary_upload D with
        | None => markPublishBlockedAuth "canary pre-flight: capability absent"
        | Some upload =>
            let user := acc_PlatformUserID account in
            res ← outside (CallCanary token user) (λ h, upload h token user);
            match res with
            | None => markPublishBlockedAuth "canary pre-flight: channel mismatch"
            | Some (channel, video) =>
                if bool_decide (channel = user) then
                  t ← get_target;
                  _ ← try (on_store (SetTargetCanaryVideoID (ID t) video));
                  mret token
                else markPublishBlockedAuth "canary pre-flight: channel mismatch"
            end
        end
    end.

(** *** The provider idempotency key *)
(* Source: internal/worker/publish_worker.go *)
(* 64-70 computeProviderIdempotencyKey *)
Definition computeProviderIdempotencyKey (postID platformAccountID : Z) : string :=
  String.substring 0 16 (sha256_hex D ("v1:" +:+ itoa postID +:+ ":" +:+ itoa platformAccountID)).
(* Source: internal/worker/publish_worker_status.go *)
(* 399-443 PublishWorker.ensureProviderIdempotencyKey *)
Definition ensureProviderIdempotencyKey (account : PlatformAccount) : W string :=
  t ← get_target;
  let stamp :=
    let key := computeProviderIdempotencyKey (PostID t) (acc_ID account) in
    _ ← modify (with_key key);
    r ← try (on_store (SetProviderIdempotencyKey (ID t) key));
    match r with
    | inr _ => mret key
    | inl er =>
        if errors_is er "ErrProviderIdempotencyConflict" then
          _ ← modify (λ t, with_ErrorMessage ("provider idempotency key conflict: " +:+ err_text er)
                (with_Status PostStatusFailed t));
          u ← try updateTargetStatus;
          match u with
          | inl ue => throw (wrap ("provider idempotency key conflict (also failed to mark failed: " +:+
                                     err_text ue +:+ ")") er)
          | inr _ => throw (wrap "provider idempotency key conflict" er)
          end
        else if errors_is er "ErrPostTargetNotFound" then
          throw (wrap "provider idempotency key stamp on missing target" er)
        else throw (wrap "ensure provider idempotency key" er)
    end in
  match ProviderIdempotencyKey t with
  | Some k => if bool_decide (k = "") then stamp else mret k
  | None => stamp
  end.

(** *** Payload and translation *)
(* Source: internal/worker/publish_worker_privacy.go *)
(* 13-50 PublishWorker.buildPayload *)
Definition buildPayload (account : PlatformAccount) (post : Post) (key : string) : PublishPayload :=
  let on p := bool_decide (acc_Platform account = p) in
  let empty s := bool_decide (s = "") in
  let tags := if empty (post_Metadata post) then []
              else default [] (json_tags D (post_Metadata post)) in
  let p := post_PrivacyLevel post in
  let p := if empty p then post_DefaultPrivacyLevel post else p in
  let p := if on PlatformYouTube && empty p then "unlisted" else p in
  let p := if empty p then "PUBLIC_TO_EVERYONE" else p in
  mkPublishPayload (post_Caption post) (post_MediaURL post) (post_Title post) tags p key
    (if on PlatformTikTok then PublishSourcePULLFromFile else "") (post_PublishAt post).
(* Source: internal/worker/publish_worker_translate.go *)
(* 175-186 postTranslationEnabled *)
Definition postTranslationEnabled (post : Post) : bool :=
  if bool_decide (post_Metadata post = "") then true
  else default true (json_translation_enabled D (post_Metadata post)).
(* 203-213 postSourceLanguage *)
Definition postSourceLanguage (post : Post) : string :=
  if bool_decide (post_Metadata post = "") then "" else json_source_language D (post_Metadata post).
(* Source: internal/worker/publish_snapshot_metadata.go *)
(* 37-47 snapshotForAccount *)
Definition snapshotForAccount (metadata : string) (accountID : Z) : option (string * string) :=
  if bool_decide (metadata = "") || (accountID <=? 0) then None
  else json_snapshot D metadata accountID.
(* 26-35 contentPackageIDFromMetadata *)
Definition contentPackageIDFromMetadata (metadata : string) : option Z :=
  if bool_decide (metadata = "") then None
  else match json_package D metadata with
       | Some p => if p <=? 0 then None else Some p
       | None => None
       end.
Definition with_texts (title caption : string) (p : Post) : Post :=
  mkPost (post_ID p) (post_WorkspaceID p) title caption (post_MediaURL p)
    (post_MediaAssetID p) (post_StorageObjectKey p) (post_Bucket p) (post_PrivacyLevel p)
    (post_DefaultPrivacyLevel p) (post_UploadJobID p) (post_IngestAfter p) (post_PublishAt p)
    (post_Status p) (post_IdempotencyKey p) (post_Metadata p) (post_Version p) (post_CreatedAt p)
    (post_UpdatedAt p).
Definition lang_error (what : string) (post : Post) (lang : string) : err → err :=
  wrap ("channel language translation " +:+ what +:+ " (post=" +:+ itoa (post_ID post) +:+
          " lang=" +:+ lang +:+ ")").
(** The title, the description and whether something was translated. *)
(* Source: internal/worker/publish_worker_translate.go *)
(* 128-144 PublishWorker.localizeForChannel *)
Definition translate_title (post : Post) (lang : string) (req : TranslateRequest) :
    W (string * string * bool) :=
  let same := (post_Title post, post_Caption post, false) in
  match translate D with
  | None => mret same
  | Some tr =>
      r ← outside (CallTranslate req) (λ h, tr h req);
      match r with
      | inl er => if errors_is er "ErrNVIDIANotConfigured" then mret same
                  else throw (lang_error "title" post lang er)
      | inr None => mret same
      | inr (Some (title, description)) =>
          mret (title, if describe D then post_Caption post else description, true)
      end
  end.
(* 145-154 PublishWorker.localizeForChannel *)
Definition translate_description (post : Post) (lang : string) (req : TranslateRequest)
    (acc : string * string * bool) : W (string * string * bool) :=
  match describe D with
  | None => mret acc
  | Some f =>
      d ← map_err (lang_error "description" post lang)
            (outside_err (CallDescribe req) (λ h, f h req));
      if bool_decide (d = "") then mret acc else mret (acc.1.1, d, true)
  end.
(** The localized copy, or nothing when the post stays as it is. *)
(* 71-171 PublishWorker.localizeForChannel *)
Definition localizeForChannel (account : PlatformAccount) (post : Post) : W (option Post) :=
  if negb (postTranslationEnabled post) then mret None
  else match snapshotForAccount (post_Metadata post) (acc_ID account) with
  | Some (title, description) => mret (Some (with_texts title description post))
  | None =>
      if negb (if translate D then true else false) && negb (if describe D then true else false)
      then mret None
      else
        let channelLang := ToLower (TrimSpace (acc_Language account)) in
        if bool_decide (channelLang = "") then mret None
        else if bool_decide (is_Some (CheckBCP47Like "channel language" channelLang)) then mret None
        else if bool_decide (TrimSpace (post_Title post) = "") &&
                bool_decide (TrimSpace (post_Caption post) = "") then mret None
        else
          let sourceLang := ToLower (TrimSpace (postSourceLanguage post)) in
          if negb (bool_decide (sourceLang = "")) && bool_decide (sourceLang = channelLang)
          then mret None
          else
            let key := (post_ID post, post_Version post, channelLang) in
            cache ← get_cache;
            match cache !! key with
            | Some localized => mret (Some localized)
            | None =>
                let req := mkTranslateRequest (post_Title post) (post_Caption post) sourceLang
                             channelLang in
                titled ← translate_title post channelLang req;
                described ← translate_description post channelLang req titled;
                let '(title, description, translated) := described in
                if negb translated then mret None
                else
                  let localized := with_texts title description post in
                  _ ← put_cache key localized;
                  mret (Some localized)
            end
  end.

(** *** Completion delivery *)
(* Source: internal/worker/publish_worker_lease.go *)
(* 15-26 PublishWorker.syncContentPackageState *)
Definition syncContentPackageState (post : Post) : W unit :=
  if negb (package_sync D) then mret tt
  else match contentPackageIDFromMetadata (post_Metadata post) with
       | None => mret tt
       | Some packageID => outside (CallSync packageID) (λ _, tt)
       end.
(* Source: internal/services/delivery_error.go *)
(* 68-70 DeliveryStageCode *)
Definition ascii_upper (a : ascii) : ascii :=
  let n := N_of_ascii a in
  if ((97 <=? n) && (n <=? 122))%N then ascii_of_N (n - 32) else a.
(* 68-70 DeliveryStageCode *)
Definition DeliveryStageCode (stage : string) : string :=
  String.string_of_list_ascii (ascii_upper <$>
    String.list_ascii_of_string (ReplaceByte " " "_" stage)).
(* 75-77 DeliveryHTTPCode *)
Definition DeliveryHTTPCode (status : Z) : string := "HTTP_" +:+ itoa status.
(* Source: internal/worker/publish_worker_delivery.go *)
(* 306-344 deliveryErrorCode *)
Definition deliveryErrorCode (f : DeliveryFailure) : string :=
  let er := df_err f in
  if errors_is er "ErrDriveConfig" then "ERR_DRIVE_CONFIG"
  else if errors_is er "ErrDriveNoRefreshToken" then "ERR_DRIVE_NO_REFRESH_TOKEN"
  else if errors_is er "ErrDriveInvalidAccountID" then "ERR_DRIVE_INVALID_ACCOUNT_ID"
  else if errors_is er "ErrDriveIdempotencyConflict" then "ERR_DRIVE_IDEMPOTENCY_CONFLICT"
  else if errors_is er "ErrDriveSessionExpired" then "ERR_DRIVE_SESSION_EXPIRED"
  else match first_some (λ d, if d.1 =? 0 then None else Some (DeliveryHTTPCode d.1)) (df_carriers f) with
  | Some c => c
  | None =>
      match first_some (λ d, if bool_decide (d.2 = "") then None else Some (DeliveryStageCode d.2))
              (df_carriers f) with
      | Some c => c
      | None => "DELIVERY_ERROR"
      end
  end.
(* 364-382 PublishWorker.recordDeliveryDispatchError *)
Definition recordDeliveryDispatchError (deliveryClass : string) : W unit :=
  if bool_decide (deliveryClass = "") then mret tt
  else t ← get_target; _ ← try (on_store (MarkDeliveryDispatchFailed (ID t) deliveryClass)); mret tt.
(* 405-429 evaluateDriveRequiredGate *)
Definition evaluateDriveRequiredGate (dest : DeliveryDestination) (res : DeliveryResult) : bool :=
  if negb (bool_decide (dd_Config dest !! "drive_required" = Some "true")) then false
  else negb (bool_decide (dr_Status res ∈ ["published"; "processing"; ""; "retrying"])).
(* 437-442 targetKey *)
Definition targetKey (t : PostTarget) : string := "post_target_" +:+ itoa (ID t).
(* 466-496 PublishWorker.recordDriveRequiredViolation *)
Definition recordDriveRequiredViolation (res : DeliveryResult) : W unit :=
  t ← get_target;
  let detail := "drive_required policy violated: required Drive upload terminally failed" in
  let detail := if bool_decide (dr_ProviderName res = "") then detail
                else detail +:+ " (provider=" +:+ dr_ProviderName res +:+ ")" in
  _ ← try (on_store (MarkDriveRequiredFailed (ID t) detail)); mret tt.
(** What the HTTP requests find out about the asset. *)
(* 168-204 PublishWorker.dispatchPostCompletion *)
Definition probe_asset (asset : Asset) (sourceURL : string) : W Asset :=
  let resize n c a := mkAsset (as_ID a) (as_UploadKey a) (as_Bucket a) c n in
  sized ← (
    if (0 <? as_SizeBytes asset) || bool_decide (sourceURL = "") then mret asset
    else
      headed ← outside (CallHead sourceURL) (λ h, head_size D h sourceURL);
      let asset := match headed with
                   | None => asset
                   | Some (n, ct) =>
                       resize n (if bool_decide (ct = "") then as_ContentType asset else ct) asset
                   end in
      if 0 <? as_SizeBytes asset then mret asset
      else
        ranged ← outside (CallRange sourceURL) (λ h, range_size D h sourceURL);
        mret (match ranged with
              | None => asset
              | Some (total, ct) =>
                  resize (default (as_SizeBytes asset) total)
                    (if bool_decide (as_ContentType asset = "") then ct else as_ContentType asset) asset
              end));
  mret (if bool_decide (as_ID sized = "") && negb (bool_decide (sourceURL = "")) then
          match url_base D sourceURL with
          | Some b => mkAsset b (as_UploadKey sized) (as_Bucket sized) (as_ContentType sized)
                        (as_SizeBytes sized)
          | None => sized
          end
        else sized).
(* 132-167 PublishWorker.dispatchPostCompletion *)
Definition completion_dest (t : PostTarget) (account : PlatformAccount) (sourceURL : string)
    (extraConfig : gmap string string) : DeliveryDestination :=
  let config := extraConfig ∪ {[ "drive_account_id" := itoa (acc_ID account) ]} in
  mkDeliveryDestination (acc_Platform account) (acc_PlatformUserID account) sourceURL
    (if bool_decide (acc_Platform account = PlatformGoogleDrive) then
       <["drive_account_id" := itoa (PlatformAccountID t)]>
         (if bool_decide (default "" (config !! "folder_id") = "") then
            <["folder_id" := drive_folder_env D]> config
          else config)
     else config).
(** [None] stands for the pair of nils without a registry. *)
(* 83-290 PublishWorker.dispatchPostCompletion *)
Definition dispatchPostCompletion (account : PlatformAccount) (asset : Asset) (sourceURL : string)
    (extraConfig : gmap string string) : W (option DeliveryResult) :=
  match delivery_registry D with
  | None => mret None
  | Some registered =>
      if bool_decide (acc_Platform account = "") then
        throw (errors_new "delivery dispatch: empty account platform")
      else if negb (registered (acc_Platform account)) then
        throw (sentinel "ErrDeliveryProviderNotFound" "ERR_DELIVERY_PROVIDER_NOT_FOUND")
      else
        t ← get_target;
        let dest := completion_dest t account sourceURL extraConfig in
        asset ← probe_asset asset sourceURL;
        r ← outside (CallDeliver asset dest (targetKey t)) (λ h, deliver D h asset dest);
        match r with
        | inl f => _ ← recordDeliveryDispatchError (deliveryErrorCode f); throw (df_err f)
        | inr res =>
            _ ← (if evaluateDriveRequiredGate dest res then recordDriveRequiredViolation res
                 else mret tt);
            mret (Some res)
        end
  end.
Definition completion_asset (post : Post) : Asset :=
  mkAsset (mediaReferenceValue (post_MediaAssetID post)) (mediaReferenceValue (post_StorageObjectKey post))
    (mediaReferenceValue (post_Bucket post)) "video/mp4" 0.
Definition mark_published (now : Z) : PostTarget → PostTarget :=
  λ t, with_PublishedAt now (with_Status PostStatusPublished t).
(* Source: internal/worker/publish_worker_status.go *)
(* 169-178 PublishWorker.publishDriveExport *)
Definition drive_config (post : Post) : gmap string string :=
  match json_folder_id D (post_Metadata post) with
  | Some f => {[ "folder_id" := f ]} | None => ∅ end.
(* 157-209 PublishWorker.publishDriveExport *)
Definition publishDriveExport (account : PlatformAccount) (post : Post) : W unit :=
  match resolve_upload D with
  | None => markFailed "media download resolver is not configured"
  | Some resolve =>
      u ← outside (CallResolve (post_ID post)) (λ h, resolve h post);
      match u with
      | inl er => markFailed ("resolve fresh media URL for Drive delivery: " +:+ err_text er)
      | inr deliveryURL =>
          r ← try (dispatchPostCompletion account
                     (mkAsset (mediaReferenceValue (post_MediaAssetID post)) "" "" "video/mp4" 0)
                     deliveryURL (drive_config post));
          match r with
          | inl er => markFailed ("Drive delivery failed: " +:+ err_text er)
          | inr None => markFailed "Drive delivery did not complete"
          | inr (Some res) =>
              if bool_decide (dr_Status res = "published") then
                e ← ask;
                _ ← modify (mark_published (app_now e));
                _ ← map_err (wrap "mark Drive export target published") updateTargetStatus;
                syncContentPackageState post
              else
                let code := default "" (dr_Metadata res !! "error_code") in
                let reason := if bool_decide (code = "") then "Drive delivery did not complete"
                              else "Drive delivery " +:+ code in
                if bool_decide (code = "drive_auth_required") then
                  _ ← outside (CallReauth (acc_ID account) "drive_auth_required" reason) (λ _, tt);
                  markPublishBlockedAuth reason
                else markFailed reason
          end
      end
  end.

(** *** Publishing *)
(* Source: internal/worker/publish_worker_upload.go *)
(* 17-30 PublishWorker.resolveFreshMediaPayload *)
Definition resolveFreshMediaPayload (post : Post) (payload : PublishPayload) : W PublishPayload :=
  match resolve_upload D with
  | None => markFailed "media download resolver is not configured"
  | Some resolve =>
      u ← outside (CallResolve (post_ID post)) (λ h, resolve h post);
      match u with
      | inl er =>
          if errors_is er "ErrAssetExpired" then
            markFailed "media asset expired at time of publish; re-upload required"
          else markFailed ("resolve fresh media upload URL: " +:+ err_text er)
      | inr freshURL =>
          mret (mkPublishPayload (pl_Text payload) freshURL (pl_Title payload) (pl_Tags payload)
                  (pl_PrivacyLevel payload) (pl_IdempotencyKey payload) (pl_Source payload)
                  (pl_PublishAt payload))
      end
  end.
(* 37-112 PublishWorker.executePublish *)
Definition executePublish (account : PlatformAccount) (post : Post) (token : string)
    (payload : PublishPayload) : W unit :=
  let platform := acc_Platform account in
  waited ← outside (CallThrottle platform) (λ h, throttle_wait D h platform);
  match waited with
  | Some er => throw (wrap ("throttle wait for " +:+ platform) er)
  | None =>
      payload ← resolveFreshMediaPayload post payload;
      r ← outside (CallPublish platform token (acc_PlatformUserID account) payload)
            (λ h, publish D h token payload);
      match r with
      | inl pubErr =>
          if bool_decide (Kind (ClassifyErrorFor platform "publish" pubErr) = ErrorKindRateLimited)
          then markRateLimited pubErr
          else markFailed (Error pubErr)
      | inr result =>
          if cap_async (capabilities D platform) && negb (bool_decide (PlatformMediaID result = ""))
          then
            _ ← modify (λ t, with_Status PostStatusPublishing
                  (with_PlatformPostID (PlatformMediaID result) t));
            _ ← map_err (wrap "update status for async publish") updateTargetStatus;
            syncContentPackageState post
          else
            e ← ask;
            _ ← modify (λ t, with_PublishedAt (app_now e)
                  (with_PlatformPostID (PlatformMediaID result) (with_Status PostStatusPublished t)));
            _ ← map_err (wrap "transition to published") updateTargetStatus;
            _ ← syncContentPackageState post;
            _ ← try (dispatchPostCompletion account (completion_asset post) (pl_VideoURL payload) ∅);
            mret tt
      end
  end.

(** *** The second phase of a YouTube upload *)
(* Source: internal/worker/publish_worker_youtube.go *)
Definition nativePublishGraceWindow : Z := 10 * Minute. (* 22 *)
(* 488-500 isOrphanedYouTubeVideo *)
Definition isOrphanedYouTubeVideo (er : err) (videoID : string) : bool :=
  if errors_is er "ErrYouTubeVideoNotFound" then true
  else if bool_decide (videoID = "") then false
  else Contains (err_text er) videoID && Contains (ToLower (err_text er)) "not found".
(* 223-268 PublishWorker.markYouTubeTargetPublished *)
Definition markYouTubeTargetPublished (account : PlatformAccount) (yt : YouTubeTargetPublication)
    (videoID : string) (post : Post) : W bool :=
  _ ← outside (CallMarkPublished (yp_ID yt)) (λ _, tt);
  e ← ask;
  _ ← modify (λ t, with_PublishedAt (app_now e)
        (with_PlatformPostID (EncodeYouTubePublishID (acc_PlatformUserID account) videoID)
          (with_Status PostStatusPublished t)));
  _ ← map_err (wrap "publish worker: update target after YouTube reuse") updateTargetStatus;
  _ ← syncContentPackageState post;
  match resolve_upload D with
  | None => mret true
  | Some resolve =>
      u ← outside (CallResolve (post_ID post)) (λ h, resolve h post);
      match u with
      | inl _ => mret true
      | inr deliveryURL =>
          _ ← try (dispatchPostCompletion account (completion_asset post) deliveryURL ∅);
          mret true
      end
  end.
(** Rolling the claim back to the queue; a failure is logged. *)
(* 333-337 PublishWorker.settleNativePublish *)
Definition roll_back_to_queued : W unit :=
  _ ← modify (with_Status PostStatusQueued);
  _ ← try updateTargetStatus; mret tt.
Definition clear_upload (yt : YouTubeTargetPublication) : W unit :=
  outside (CallClearUpload (yp_ID yt)) (λ _, tt).
Definition update_video (token video privacy : string) (publishAt : option Z) (post : Post) :
    W (option err) :=
  outside (CallUpdatePrivacy token video privacy publishAt (post_Title post) (post_Caption post))
    (λ h, update_privacy D h video).
(* 294-387 PublishWorker.settleNativePublish *)
Definition settleNativePublish (account : PlatformAccount) (yt : YouTubeTargetPublication)
    (videoID : string) (native : Z) (post : Post) (token : string) : W bool :=
  let caps := capabilities D (acc_Platform account) in
  if negb (cap_raw caps) || negb (cap_checker caps) then
    markYouTubeTargetPublished account yt videoID post
  else
    r ← outside (CallGetVideo token videoID) (λ h, get_video D h videoID);
    match r with
    | inl er =>
        if errors_is er "ErrYouTubeVideoNotFound" then _ ← clear_upload yt; mret false
        else
          _ ← roll_back_to_queued;
          throw (wrap ("native publish status check video=" +:+ videoID) er)
    | inr privacy =>
        if bool_decide (privacy = "public") then markYouTubeTargetPublished account yt videoID post
        else
          e ← ask;
          if app_now e <? native + nativePublishGraceWindow then
            _ ← try (retryTarget "native publish still private; waiting for YouTube transition");
            throw (errors_new ("native publish: video " +:+ videoID +:+ " still " +:+ privacy +:+
                     " within grace window (publish_at " +:+ rfc3339 native +:+ ")"))
          else if negb (cap_updater caps) then
            markFailed ("native publish recovery: YouTube provider missing YouTubePrivacyUpdater (video " +:+
              videoID +:+ " still " +:+ privacy +:+ " past grace window)")
          else
            u ← update_video token videoID "public" None post;
            match u with
            | Some er =>
                if isOrphanedYouTubeVideo er videoID then _ ← clear_upload yt; mret false
                else markFailed ("native publish recovery videos.update: " +:+ err_text er)
            | None => markYouTubeTargetPublished account yt videoID post
            end
    end.
(** Parked until the YouTube delivery writes its publication row. *)
(* 194-203 PublishWorker.publishYouTubePhase2 *)
Definition wait_for_materialization (post : Post) : W bool :=
  match post_UploadJobID post with
  | None => mret false
  | Some _ =>
      _ ← modify (λ t, with_ErrorMessage "waiting for YouTube delivery materialization"
            (with_Status PostStatusWaitingProvider t));
      _ ← map_err (wrap "wait for YouTube delivery materialization") updateTargetStatus;
      mret true
  end.
(** A publication whose upload has landed. *)
(* 99-102 PublishWorker.publishYouTubePhase2 *)
Definition uploaded_video (yt : YouTubeTargetPublication) : option string :=
  if bool_decide (yp_YouTubeUploadStatus yt = "youtube_uploaded") then
    v ← yp_YouTubeVideoID yt; if bool_decide (v = "") then None else Some v
  else None.
(* 35-204 PublishWorker.publishYouTubePhase2 *)
Definition publishYouTubePhase2 (account : PlatformAccount) (post : Post) (token : string)
    (payload : PublishPayload) : W bool :=
  match yt_lookup D with
  | None => wait_for_materialization post
  | Some lookup =>
      if negb (bool_decide (acc_Platform account = PlatformYouTube)) then wait_for_materialization post
      else
        t ← get_target;
        found ← outside (CallLookup (ID t)) (λ h, lookup h (ID t));
        match found with
        | inl er =>
            _ ← roll_back_to_queued;
            throw (wrap "youtube target publication lookup" er)
        | inr None => wait_for_materialization post
        | inr (Some yt) =>
            match uploaded_video yt with
            | None => wait_for_materialization post
            | Some videoID =>
                match yp_NativePublishAt yt with
                | Some native => settleNativePublish account yt videoID native post token
                | None =>
                    let caps := capabilities D (acc_Platform account) in
                    if cap_raw caps && cap_updater caps then
                      e ← ask;
                      let '(privacy, publishAt) :=
                        CoercePrivacyForUpdate (pl_PrivacyLevel payload) (post_PublishAt post) (app_now e) in
                      u ← update_video token videoID privacy publishAt post;
                      match u with
                      | Some er =>
                          if isOrphanedYouTubeVideo er videoID then
                            _ ← clear_upload yt; wait_for_materialization post
                          else markFailed ("UpdateVideoPrivacy: " +:+ err_text er)
                      | None => markYouTubeTargetPublished account yt videoID post
                      end
                    else wait_for_materialization post
                end
            end
        end
  end.

(** *** One target *)
Definition bool_text (b : bool) : string := if b then "true" else "false".
(* Source: internal/worker/publish_worker_status.go *)
(* 68-71 PublishWorker.publishTarget *)
Definition needs_reauth (account : PlatformAccount) : bool :=
  bool_decide (acc_Platform account = PlatformYouTube) &&
  (bool_decide (acc_Status account = AccountStatusReauthRequired) ||
   (if acc_ReauthRequiredAt account then true else false)).
(* 113-149 PublishWorker.publishTarget *)
Definition publish_localized (account : PlatformAccount) (post : Post) : W unit :=
  token ← resolvePublishToken account;
  _ ← validateYouTubeChannelBinding account token;
  token ← runCanaryPreflight account post token;
  key ← ensureProviderIdempotencyKey account;
  let payload := buildPayload account post key in
  handled ← publishYouTubePhase2 account post token payload;
  if (handled : bool) then mret tt else executePublish account post token payload.
(* 87-149 PublishWorker.publishTarget *)
Definition publish_post (account : PlatformAccount) (post : Post) : W unit :=
  let caps := capabilities D (acc_Platform account) in
  if negb (cap_oauth caps && cap_publisher caps) then
    markFailed ("platform " +:+ quote (acc_Platform account) +:+ " missing capability (oauth=" +:+
      bool_text (cap_oauth caps) +:+ " publish=" +:+ bool_text (cap_publisher caps) +:+ ")")
  else
    localized ← try (localizeForChannel account post);
    match localized with
    | inl er => markFailed (err_text er)
    | inr o => publish_localized account (default post o)
    end.
(* 60-149 PublishWorker.publishTarget *)
Definition publish_claimed : W unit :=
  loaded ← try loadPostAndAccount;
  match loaded with
  | inl er => markFailed (err_text er)
  | inr (post, account) =>
      if needs_reauth account then markPublishBlockedAuth youtubeReauthReason
      else if bool_decide (acc_Platform account = PlatformGoogleDrive) &&
              (if delivery_registry D then true else false) then publishDriveExport account post
      else publish_post account post
  end.
(* 48-150 PublishWorker.publishTarget *)
Definition publishTarget : W unit :=
  claimed ← claimTarget;
  if (claimed : bool) then publish_claimed else mret tt.

(** With one worker routine; the pool runs [publishTarget] on the same list. *)
(* Source: internal/worker/publish_worker_lifecycle.go *)
(* 93-107 PublishWorker.tick *)
Fixpoint tick_loop (pending : list (Z * TargetRow)) (succeeded failed : nat) : W (nat * nat) :=
  match pending with
  | [] => mret (succeeded, failed)
  | kt :: rest =>
      _ ← set_target (scanned_target kt);
      r ← try publishTarget;
      match r with
      | inl _ => tick_loop rest succeeded (S failed)
      | inr _ => tick_loop rest (S succeeded) failed
      end
  end.
(* 75-149 PublishWorker.tick *)
Definition tick : W (nat * nat) :=
  e ← ask;
  pending ← map_err (wrap "list pending") (on_store (ListPending (app_now e)));
  tick_loop pending 0 0.
End Worker.
