(* ===== verification/PublishWorkerProps.v ===== *)
(** * What is proved about the publish worker

    The only call that publishes is made at most once per claim, and while the
    row is held; a post of an upload job is never published on a platform other
    than YouTube. *)

From S2P Require Import Prelude Store PostModel Backoff PostStore PostStoreProps GoError ErrorClass.
From S2P Require Import PostReads PublishWorker.
From Stdlib Require Import ZArith Lia.
Local Open Scope Z_scope.

(** ** At most one call, under the lease *)
Definition is_publish (ev : Event) : bool :=
  match ev with CallPublish _ _ _ _ => true | _ => false end.
(** Nobody else works on the post store while the worker waits for an answer. *)
Definition quiet (D : Deps) : Prop := ∀ h, peers D h = [].
(** The worker owns the row. *)
Definition held_row (w : string) (id : Z) (db : PostDB) (t : TargetRow) : Prop :=
  targets db !! id = Some t ∧ t_status t = "publishing" ∧ leased_to w t = true.
(** The calls of a run, each with the store it was made on. *)
Definition new_calls (s s' : World) (l : list (Event * PostDB)) : Prop :=
  w_calls s' = w_calls s ++ l.

Definition no_publish (s s' : World) : Prop :=
  ID (w_target s') = ID (w_target s) ∧
  ∃ l, new_calls s s' l ∧ Forall (λ c, is_publish c.1 = false) l.
#[export] Instance no_publish_preorder : PreOrder no_publish.
Proof.
  split.
  - intros s. split; [done|]. exists []. unfold new_calls. by rewrite app_nil_r.
  - intros s1 s2 s3 (H1 & l1 & E1 & F1) (H2 & l2 & E2 & F2). split; [congruence|].
    exists (l1 ++ l2). unfold new_calls in *. rewrite E2, E1, app_assoc. split; [done|].
    by apply Forall_app.
Qed.
(** Only the target struct and the store change. *)
Lemma no_publish_same s s' :
  w_calls s' = w_calls s → ID (w_target s') = ID (w_target s) → no_publish s s'.
Proof. intros H ?. split; [done|]. exists []. unfold new_calls. by rewrite H, app_nil_r. Qed.

Lemma on_store_no_publish {A} (m : M PostDB A) : respects no_publish (on_store m).
Proof.
  intros e s n. unfold on_store, state_of. destruct (m _ _) as [r [db n']]. by apply no_publish_same.
Qed.
Lemma get_target_no_publish : respects no_publish get_target.
Proof. intros e s n. by apply no_publish_same. Qed.
Lemma modify_no_publish f : (∀ t, ID (f t) = ID t) → respects no_publish (modify f).
Proof. intros H e s n. apply no_publish_same; [done|]. apply H. Qed.
Lemma get_cache_no_publish : respects no_publish get_cache.
Proof. intros e s n. by apply no_publish_same. Qed.
Lemma put_cache_no_publish k p : respects no_publish (put_cache k p).
Proof. intros e s n. by apply no_publish_same. Qed.
Lemma outside_no_publish D {A} ev (answer : list Event → A) :
  is_publish ev = false → respects no_publish (outside D ev answer).
Proof.
  intros H e s n. split; [done|]. eexists. split; [done|]. by constructor.
Qed.
#[export] Hint Resolve on_store_no_publish get_target_no_publish get_cache_no_publish
  put_cache_no_publish : respects.
#[export] Hint Extern 1 (respects no_publish (outside _ _ _)) =>
  apply outside_no_publish; reflexivity : respects.
#[export] Hint Extern 1 (respects no_publish (modify _)) =>
  apply modify_no_publish; intros ?; reflexivity : respects.

Section no_publish.
Context (D : Deps) (w : string).
Lemma outside_err_no_publish {A} ev (answer : list Event → err + A) :
  is_publish ev = false → respects no_publish (outside_err D ev answer).
Proof. intros H. unfold outside_err. apply respects_bind; [apply _|by apply outside_no_publish|].
  intros []; eauto with respects typeclass_instances. Qed.
#[local] Hint Extern 1 (respects no_publish (outside_err _ _ _)) =>
  apply outside_err_no_publish; reflexivity : respects.
Ltac solve_no_publish := intros; respects_tac.

Lemma updateTargetStatus_no_publish : respects no_publish (updateTargetStatus w).
Proof. unfold updateTargetStatus. solve_no_publish. Qed.
Lemma retryTarget_no_publish r : respects no_publish (retryTarget w r).
Proof. unfold retryTarget. solve_no_publish. Qed.
#[local] Hint Resolve updateTargetStatus_no_publish retryTarget_no_publish : respects.
Lemma markRateLimited_no_publish er : respects no_publish (markRateLimited w er).
Proof. unfold markRateLimited. solve_no_publish. Qed.
Lemma markFailed_no_publish {A} r : respects no_publish (markFailed w r : W A).
Proof. unfold markFailed. solve_no_publish. Qed.
Lemma markPublishBlockedAuth_no_publish {A} r : respects no_publish (markPublishBlockedAuth w r : W A).
Proof. unfold markPublishBlockedAuth. solve_no_publish. Qed.
Lemma roll_back_no_publish : respects no_publish (roll_back_to_queued w).
Proof. unfold roll_back_to_queued. solve_no_publish. Qed.
Lemma markYouTubeGrantReauth_no_publish a : respects no_publish (markYouTubeGrantReauth D a).
Proof. unfold markYouTubeGrantReauth. solve_no_publish. Qed.
#[local] Hint Resolve markRateLimited_no_publish markFailed_no_publish
  markPublishBlockedAuth_no_publish roll_back_no_publish markYouTubeGrantReauth_no_publish : respects.
Lemma load_no_publish : respects no_publish (loadPostAndAccount D).
Proof. unfold loadPostAndAccount. solve_no_publish. Qed.
Lemma vault_Renew_no_publish a t : respects no_publish (vault_Renew D a t).
Proof. unfold vault_Renew. solve_no_publish. Qed.
#[local] Hint Resolve vault_Renew_no_publish load_no_publish : respects.
Lemma RenewYouTubeToken_no_publish a : respects no_publish (RenewYouTubeToken D a).
Proof. unfold RenewYouTubeToken. solve_no_publish. Qed.
#[local] Hint Resolve RenewYouTubeToken_no_publish : respects.
Lemma renew_bearer_no_publish a : respects no_publish (renew_bearer D a).
Proof. unfold renew_bearer. solve_no_publish. Qed.
#[local] Hint Resolve renew_bearer_no_publish : respects.
Lemma resolvePublishToken_no_publish a : respects no_publish (resolvePublishToken D w a).
Proof. unfold resolvePublishToken. solve_no_publish. Qed.
Lemma validate_no_publish a t : respects no_publish (validateYouTubeChannelBinding D w a t).
Proof. unfold validateYouTubeChannelBinding. solve_no_publish. Qed.
Lemma isCanaryEnabled_no_publish p : respects no_publish (isCanaryEnabled D p).
Proof. unfold isCanaryEnabled. solve_no_publish. Qed.
#[local] Hint Resolve isCanaryEnabled_no_publish : respects.
Lemma canary_no_publish a p t : respects no_publish (runCanaryPreflight D w a p t).
Proof. unfold runCanaryPreflight. solve_no_publish. Qed.
Lemma ensureKey_no_publish a : respects no_publish (ensureProviderIdempotencyKey D w a).
Proof. unfold ensureProviderIdempotencyKey. solve_no_publish. Qed.
Lemma translate_title_no_publish p l r : respects no_publish (translate_title D p l r).
Proof. unfold translate_title. solve_no_publish. Qed.
Lemma translate_description_no_publish p l r acc :
  respects no_publish (translate_description D p l r acc).
Proof. unfold translate_description. solve_no_publish. Qed.
#[local] Hint Resolve translate_title_no_publish translate_description_no_publish : respects.
Lemma localize_no_publish a p : respects no_publish (localizeForChannel D a p).
Proof. unfold localizeForChannel. solve_no_publish. Qed.
Lemma sync_no_publish p : respects no_publish (syncContentPackageState D p).
Proof. unfold syncContentPackageState. solve_no_publish. Qed.
Lemma record_no_publish c : respects no_publish (recordDeliveryDispatchError c).
Proof. unfold recordDeliveryDispatchError. solve_no_publish. Qed.
Lemma violation_no_publish r : respects no_publish (recordDriveRequiredViolation r).
Proof. unfold recordDriveRequiredViolation. solve_no_publish. Qed.
Lemma probe_no_publish a u : respects no_publish (probe_asset D a u).
Proof. unfold probe_asset. solve_no_publish. Qed.
#[local] Hint Resolve sync_no_publish record_no_publish violation_no_publish probe_no_publish : respects.
Lemma dispatch_no_publish a x u c : respects no_publish (dispatchPostCompletion D a x u c).
Proof. unfold dispatchPostCompletion. solve_no_publish. Qed.
#[local] Hint Resolve dispatch_no_publish : respects.
Lemma drive_no_publish a p : respects no_publish (publishDriveExport D w a p).
Proof. unfold publishDriveExport. solve_no_publish. Qed.
Lemma resolveFresh_no_publish p pl : respects no_publish (resolveFreshMediaPayload D w p pl).
Proof. unfold resolveFreshMediaPayload. solve_no_publish. Qed.
Lemma markPublished_no_publish a yt v p : respects no_publish (markYouTubeTargetPublished D w a yt v p).
Proof. unfold markYouTubeTargetPublished. solve_no_publish. Qed.
Lemma clear_no_publish yt : respects no_publish (clear_upload D yt).
Proof. unfold clear_upload. solve_no_publish. Qed.
Lemma update_video_no_publish t v pr at_ p : respects no_publish (update_video D t v pr at_ p).
Proof. unfold update_video. solve_no_publish. Qed.
#[local] Hint Resolve markPublished_no_publish clear_no_publish update_video_no_publish : respects.
Lemma settleNative_no_publish a yt v nat p t : respects no_publish (settleNativePublish D w a yt v nat p t).
Proof. unfold settleNativePublish. solve_no_publish. Qed.
Lemma wait_no_publish p : respects no_publish (wait_for_materialization w p).
Proof. unfold wait_for_materialization. solve_no_publish. Qed.
#[local] Hint Resolve settleNative_no_publish wait_no_publish : respects.
Lemma phase2_no_publish a p t pl : respects no_publish (publishYouTubePhase2 D w a p t pl).
Proof. unfold publishYouTubePhase2. solve_no_publish. Qed.
Lemma claim_no_publish : respects no_publish (claimTarget w).
Proof. unfold claimTarget. solve_no_publish. Qed.
End no_publish.
#[export] Hint Resolve updateTargetStatus_no_publish markRateLimited_no_publish markFailed_no_publish
  markPublishBlockedAuth_no_publish load_no_publish resolvePublishToken_no_publish
  validate_no_publish canary_no_publish ensureKey_no_publish localize_no_publish sync_no_publish
  dispatch_no_publish drive_no_publish resolveFresh_no_publish phase2_no_publish
  claim_no_publish : respects.

(** *** Steps that leave the row alone *)
Definition same_rows (db db' : PostDB) : Prop :=
  ∀ id t, targets db !! id = Some t → ∃ t', targets db' !! id = Some t' ∧
    t_status t' = t_status t ∧ t_lease t' = t_lease t ∧ t_provider t' = t_provider t.
#[export] Instance same_rows_preorder : PreOrder same_rows.
Proof.
  split; [intros db id t ?; by exists t|]. intros d1 d2 d3 H1 H2 id t Ht.
  destruct (H1 id t Ht) as (t2 & Ht2 & ? & ? & ?). destruct (H2 id t2 Ht2) as (t3 & ? & ? & ? & ?).
  exists t3. repeat split; congruence.
Qed.
Definition steady (D : Deps) (s s' : World) : Prop :=
  w_target s' = w_target s ∧ (quiet D → same_rows (w_store s) (w_store s')).
#[export] Instance steady_preorder D : PreOrder (steady D).
Proof.
  split; [by intros s; split|]. intros s1 s2 s3 [H1 F1] [H2 F2]. split; [congruence|].
  intros Q. etrans; [by apply F1|by apply F2].
Qed.

Section steady.
Context (D : Deps) (w : string).
Lemma on_store_steady {A} (m : M PostDB A) : respects same_rows m → respects (steady D) (on_store m).
Proof.
  intros H e s n. specialize (H e (w_store s) n). unfold on_store, state_of in *. simpl.
  destruct (m e (w_store s, n)) as [r [db n']]. by split.
Qed.
Lemma read_steady {A} op (g : Env → PostDB → A) :
  respects (steady D) (on_store (exec op (λ e db, (g e db, db)))).
Proof. apply on_store_steady, respects_exec; [apply _|]. intros e s. reflexivity. Qed.
Lemma get_target_steady : respects (steady D) get_target.
Proof. intros e s n. reflexivity. Qed.
Lemma get_cache_steady : respects (steady D) get_cache.
Proof. intros e s n. reflexivity. Qed.
Lemma put_cache_steady k p : respects (steady D) (put_cache k p).
Proof. intros e s n. by split. Qed.
Lemma outside_steady {A} ev (answer : list Event → A) : respects (steady D) (outside D ev answer).
Proof. intros e s n. split; [done|]. intros Q. unfold outside, state_of. simpl. by rewrite Q. Qed.
#[local] Hint Resolve get_target_steady get_cache_steady put_cache_steady outside_steady read_steady : respects.
Lemma outside_err_steady {A} ev (answer : list Event → err + A) :
  respects (steady D) (outside_err D ev answer).
Proof. unfold outside_err. respects_tac. Qed.
#[local] Hint Resolve outside_err_steady : respects.
Lemma load_steady : respects (steady D) (loadPostAndAccount D).
Proof. unfold loadPostAndAccount, FindByID, FindByIDForWorkspace. respects_tac. Qed.
Lemma vault_Renew_steady a t : respects (steady D) (vault_Renew D a t).
Proof. unfold vault_Renew. respects_tac. Qed.
#[local] Hint Resolve vault_Renew_steady : respects.
Lemma RenewYouTubeToken_steady a : respects (steady D) (RenewYouTubeToken D a).
Proof. unfold RenewYouTubeToken. respects_tac. Qed.
#[local] Hint Resolve RenewYouTubeToken_steady : respects.
Lemma renew_bearer_steady a : respects (steady D) (renew_bearer D a).
Proof. unfold renew_bearer. respects_tac. Qed.
Lemma isCanaryEnabled_steady p : respects (steady D) (isCanaryEnabled D p).
Proof. unfold isCanaryEnabled, GetMetadata. respects_tac. Qed.
Lemma canary_video_steady id v : respects (steady D) (on_store (SetTargetCanaryVideoID id v)).
Proof.
  apply on_store_steady. unfold SetTargetCanaryVideoID. destruct (bool_decide _);
    [apply respects_ret; apply _|]. apply respects_exec; [apply _|]. intros e db k t Ht.
  cbn [snd]. rewrite update_targets_lookup, Ht. cbn [fmap option_fmap option_map]. eexists. split; [done|]. unfold written.
  destruct (row id _ k t); [|done]. unfold reset_reconcile_schedule_on_publish_start. simpl.
  by rewrite (bool_decide_eq_true_2 (t_status t = t_status t)), andb_false_r by done.
Qed.
Lemma translate_title_steady p l r : respects (steady D) (translate_title D p l r).
Proof. unfold translate_title. respects_tac. Qed.
Lemma translate_description_steady p l r acc : respects (steady D) (translate_description D p l r acc).
Proof. unfold translate_description. respects_tac. Qed.
#[local] Hint Resolve translate_title_steady translate_description_steady : respects.
Lemma localize_steady a p : respects (steady D) (localizeForChannel D a p).
Proof. unfold localizeForChannel. respects_tac. Qed.
Lemma clear_steady yt : respects (steady D) (clear_upload D yt).
Proof. unfold clear_upload. respects_tac. Qed.
Lemma update_video_steady t v pr at_ p : respects (steady D) (update_video D t v pr at_ p).
Proof. unfold update_video. respects_tac. Qed.
Lemma grant_reauth_steady a : respects (steady D) (markYouTubeGrantReauth D a).
Proof. unfold markYouTubeGrantReauth. respects_tac. Qed.
End steady.
#[export] Hint Resolve get_target_steady outside_steady outside_err_steady load_steady renew_bearer_steady
  vault_Renew_steady RenewYouTubeToken_steady isCanaryEnabled_steady canary_video_steady localize_steady
  clear_steady update_video_steady grant_reauth_steady : respects.

(** *** Holding the row on the way to the provider *)
Definition held (D : Deps) (w : string) (id : Z) (s : World) : Prop :=
  ID (w_target s) = id ∧ (quiet D → ∃ t, held_row w id (w_store s) t ∧
    ∀ k, ProviderIdempotencyKey (w_target s) = Some k → k ≠ "" →
      provider_idempotency_key (t_provider t) = Some k).
Definition held_key (D : Deps) (w : string) (id : Z) (key : string) (s : World) : Prop :=
  ID (w_target s) = id ∧ key ≠ "" ∧ (quiet D → ∃ t, held_row w id (w_store s) t ∧
    provider_idempotency_key (t_provider t) = Some key).

Lemma held_row_same w id db db' t :
  same_rows db db' → held_row w id db t →
  ∃ t', held_row w id db' t' ∧ t_provider t' = t_provider t.
Proof.
  intros H (Ht & Hs & Hl). destruct (H id t Ht) as (t' & Ht' & Es & El & Ep). exists t'.
  split; [|done]. split; [done|]. split; [congruence|]. unfold leased_to in *. by rewrite El.
Qed.
Lemma held_steady D w id s s' : steady D s s' → held D w id s → held D w id s'.
Proof.
  intros [Et Hr] [Hid H]. split; [by rewrite Et|]. intros Q. destruct (H Q) as (t & Ht & Hk).
  destruct (held_row_same w id _ _ t (Hr Q) Ht) as (t' & Ht' & Ep). exists t'.
  split; [done|]. by rewrite Et, Ep.
Qed.
Lemma held_key_steady D w id k s s' : steady D s s' → held_key D w id k s → held_key D w id k s'.
Proof.
  intros [Et Hr] (Hid & Hne & H). split; [by rewrite Et|]. split; [done|]. intros Q.
  destruct (H Q) as (t & Ht & Hk). destruct (held_row_same w id _ _ t (Hr Q) Ht) as (t' & Ht' & Ep).
  exists t'. by rewrite Ep.
Qed.

(** Success keeps [P]. *)
Definition keeps {S A} (P : S → Prop) (m : M S A) : Prop := triple P m (λ _, P).
Section keeps.
Context {S : Type} (P : S → Prop).
Lemma keeps_bind {A B} (m : M S A) (k : A → M S B) : keeps P m → (∀ a, keeps P (k a)) → keeps P (m ≫= k).
Proof. intros H1 H2. by eapply triple_bind. Qed.
Lemma keeps_ret {A} (a : A) : keeps P (mret a).
Proof. by apply triple_ret. Qed.
Lemma keeps_throw {A} er : keeps P (throw er : M S A).
Proof. apply triple_throw. Qed.
Lemma keeps_stable {A} (R : relation S) (m : M S A) :
  (∀ s s', R s s' → P s → P s') → respects R m → keeps P m.
Proof.
  intros HR Hm e s n a s' n' Hs H. eapply HR; [|exact Hs]. specialize (Hm e s n).
  unfold state_of in Hm. by rewrite H in Hm.
Qed.
End keeps.
Lemma markFailed_never {A} w r P (Q : A → World → Prop) : triple P (markFailed w r) Q.
Proof. eapply triple_bind with (Q := λ _ _, True); [done|]. intros _.
  eapply triple_bind with (Q := λ _ _, True); [done|]. intros _. apply triple_throw. Qed.
Lemma markBlocked_never {A} w r P (Q : A → World → Prop) : triple P (markPublishBlockedAuth w r) Q.
Proof. eapply triple_bind with (Q := λ _ _, True); [done|]. intros _.
  eapply triple_bind with (Q := λ _ _, True); [done|]. intros _. apply triple_throw. Qed.
Ltac keeps_step :=
  match goal with
  | |- keeps _ (markFailed _ _) => apply markFailed_never
  | |- keeps _ (markPublishBlockedAuth _ _) => apply markBlocked_never
  | |- keeps _ (throw _) => apply keeps_throw
  | |- keeps _ (mret _) => apply keeps_ret
  | |- keeps _ (match ?x with _ => _ end) => destruct x
  | |- keeps (held ?D _ _) _ =>
      apply (keeps_stable _ (steady D)); [intros ? ?; apply held_steady|solve [respects_tac]]
  | |- keeps _ (_ ≫= _) => apply keeps_bind; [|intros ?]
  | |- keeps _ (let _ := _ in _) => cbv zeta
  end.

Section one_call.
Context (D : Deps) (w : string) (id : Z).
Lemma resolvePublishToken_keeps a : keeps (held D w id) (resolvePublishToken D w a).
Proof. unfold resolvePublishToken. repeat keeps_step. Qed.
Lemma validate_keeps a t : keeps (held D w id) (validateYouTubeChannelBinding D w a t).
Proof. unfold validateYouTubeChannelBinding. repeat keeps_step. Qed.
Lemma canary_keeps a p t : keeps (held D w id) (runCanaryPreflight D w a p t).
Proof. unfold runCanaryPreflight. repeat keeps_step. Qed.
Lemma localize_keeps a p : keeps (held D w id) (try (localizeForChannel D a p)).
Proof. repeat keeps_step. Qed.
Lemma load_keeps : keeps (held D w id) (try (loadPostAndAccount D)).
Proof. repeat keeps_step. Qed.

(** The stamp writes the key and nothing else. *)
Lemma set_key_triple key : triple (λ db, ∃ t, held_row w id db t) (SetProviderIdempotencyKey id key)
  (λ _ db, ∃ t, held_row w id db t ∧ provider_idempotency_key (t_provider t) = Some key).
Proof.
  unfold SetProviderIdempotencyKey. destruct (bool_decide _); [apply triple_throw|].
  eapply triple_bind with (Q := λ o db, is_Some o →
    ∃ t, held_row w id db t ∧ provider_idempotency_key (t_provider t) = Some key).
  - apply triple_exec. intros e db (t & Ht & Hs & Hl). unfold qUpdateTargetProviderIdempotencyKey.
    destruct (key_taken id key db); [by intros [? [=]]|].
    destruct (update_targets _ _ _ _) as [k db'] eqn:E. intros _.
    destruct (update_row_targets id (λ _, true) (λ t, let p := t_provider t in
      with_provider (mkProviderData (platform_post_id p) (error_message p) (published_at p)
        (completed_at p) (provider_state p) (container_id p) (Some key) (upload_offset p)) t) e db t Ht
      eq_refl) as [H _]. cbv zeta in H. rewrite E in H. cbn [snd] in H |- *. unfold held_row. setoid_rewrite H.
    eexists. split; [split; [by rewrite lookup_insert_eq|]|].
    + unfold leased_to. rewrite reset_status, reset_lease. done.
    + unfold reset_reconcile_schedule_on_publish_start. by destruct (_ && _).
  - intros [k|]; [|apply triple_throw]. eapply triple_bind.
    { apply triple_map_err, triple_rows. }
    intros k'. destruct (bool_decide _); [apply triple_throw|]. apply triple_ret. intros db [_ H]. eauto.
Qed.
Lemma on_store_triple {A} (m : M PostDB A) (P : PostDB → PostTarget → Prop) Q :
  (∀ t, triple (λ db, P db t) m (λ a db, Q a db t)) →
  triple (λ s, P (w_store s) (w_target s)) (on_store m) (λ a s, Q a (w_store s) (w_target s)).
Proof.
  intros H e s n a s' n' Hs. unfold on_store. destruct (m e _) as [r [db n1]] eqn:E. intros [= -> <- <-].
  by eapply (H _ e).
Qed.
Context (Hsha : ∀ s, String.length (sha256_hex D s) = 64%nat).
Lemma key_nonempty p a : computeProviderIdempotencyKey D p a ≠ "".
Proof using Hsha.
  unfold computeProviderIdempotencyKey. set (s := "v1:" +:+ _). specialize (Hsha s).
  by destruct (sha256_hex D s).
Qed.
Lemma ensureKey_triple a :
  triple (held D w id) (ensureProviderIdempotencyKey D w a) (λ key, held_key D w id key).
Proof using Hsha.
  unfold ensureProviderIdempotencyKey. intros e s n key s' n' [Hid H] Hrun.
  apply bind_inr in Hrun as (t & [s1 n1] & Hget & Hrun). injection Hget as <- <- <-.
  set (stamp := _ ≫= _) in Hrun.
  assert (Hstamp : stamp e (s, n) = (inr key, (s', n')) → held_key D w id key s').
  { unfold stamp. clear Hrun. intros (u & [s1 n1] & Hm & Hrun)%bind_inr.
    apply bind_inr in Hrun as (r & [s2 n2] & Htry & Hrun).
    destruct r as [er|u2]; [by repeat first [progress run_inv | case_match]|]. apply ret_inr in Hrun as [-> [= -> ->]].
    unfold try in Htry. destruct (on_store _ e _) as [r w'] eqn:E in Htry. injection Htry as -> ->.
    pose proof (on_store_no_publish (SetProviderIdempotencyKey (ID (w_target s))
      (computeProviderIdempotencyKey D (PostID (w_target s)) (acc_ID a))) e s1 n1) as [Hid' _].
    unfold state_of in Hid'. rewrite E in Hid'. cbn in Hid'. injection Hm as _ <- <-. cbn in Hid'.
    split; [congruence|]. split; [apply key_nonempty|]. intros Q. destruct (H Q) as (t & Ht & _).
    rewrite Hid in E.
    refine (on_store_triple _ (λ db _, ∃ t, held_row w id db t) (λ _ db _, ∃ t, held_row w id db t ∧ _)
      (λ _, set_key_triple _) e _ _ _ _ _ _ E). by exists t. }
  destruct (ProviderIdempotencyKey (w_target s)) as [k|] eqn:Ek; [|by apply Hstamp].
  destruct (bool_decide (k = "")) eqn:Eb; [by apply Hstamp|]. clear Hstamp.
  apply ret_inr in Hrun as [-> [= -> ->]]. apply bool_decide_eq_false in Eb.
  split; [done|]. split; [done|]. intros Q. destruct (H Q) as (t & Ht & Hk). exists t.
  split; [done|]. by apply Hk.
Qed.

Lemma held_key_keeps {A} key (m : W A) : respects (steady D) m → keeps (held_key D w id key) m.
Proof. apply keeps_stable. intros s s'. apply held_key_steady. Qed.

(** When the second phase does not settle the target it has not touched it. *)
Definition untouched (key : string) (b : bool) (s : World) : Prop := b = false → held_key D w id key s.
Lemma untouched_false key : triple (held_key D w id key) (mret false) (untouched key).
Proof. apply triple_ret. intros s Hs _. exact Hs. Qed.
Lemma wait_untouched key p :
  triple (held_key D w id key) (wait_for_materialization w p) (untouched key).
Proof.
  unfold wait_for_materialization. destruct (post_UploadJobID p); [|apply untouched_false].
  do 2 (eapply triple_bind with (Q := λ _ _, True); [done|]; intros _). by apply triple_ret.
Qed.
Lemma published_untouched key a yt v p P :
  triple P (markYouTubeTargetPublished D w a yt v p) (untouched key).
Proof.
  unfold markYouTubeTargetPublished.
  do 5 (eapply triple_bind with (Q := λ _ _, True); [done|]; intros ?).
  destruct (resolve_upload D); [|by apply triple_ret].
  eapply triple_bind with (Q := λ _ _, True); [done|]. intros [?|?]; [by apply triple_ret|].
  eapply triple_bind with (Q := λ _ _, True); [done|]. intros ?. by apply triple_ret.
Qed.
Ltac untouched_step :=
  match goal with
  | |- triple _ (markYouTubeTargetPublished _ _ _ _ _ _) _ => apply published_untouched
  | |- triple _ (markFailed _ _) _ => apply markFailed_never
  | |- triple _ (wait_for_materialization _ _) _ => apply wait_untouched
  | |- triple _ (throw _) _ => apply triple_throw
  | |- triple _ (mret false) _ => apply untouched_false
  | |- triple _ (match ?x with _ => _ end) _ => destruct x
  | |- triple _ (roll_back_to_queued _ ≫= _) _ =>
      eapply triple_bind with (Q := λ _ _, True); [done|]; intros ?; apply triple_throw
  | |- triple _ (try (retryTarget _ _) ≫= _) _ =>
      eapply triple_bind with (Q := λ _ _, True); [done|]; intros ?; apply triple_throw
  | |- triple _ (_ ≫= _) _ =>
      eapply triple_bind; [apply held_key_keeps; solve [respects_tac]|intros ?]
  | |- triple _ (let _ := _ in _) _ => cbv zeta
  end.
Lemma settleNative_untouched key a yt v nat p t :
  triple (held_key D w id key) (settleNativePublish D w a yt v nat p t) (untouched key).
Proof. unfold settleNativePublish. repeat untouched_step. Qed.
Lemma phase2_untouched key a p t pl :
  triple (held_key D w id key) (publishYouTubePhase2 D w a p t pl) (untouched key).
Proof.
  unfold publishYouTubePhase2.
  repeat first [untouched_step | apply settleNative_untouched].
Qed.

(** What a run of the worker may do to the log of calls. *)
Definition under_lease (c : Event * PostDB) : Prop :=
  match c.1 with
  | CallPublish _ _ _ pl =>
      pl_IdempotencyKey pl ≠ "" ∧
      (quiet D → ∃ t, held_row w id c.2 t ∧
         provider_idempotency_key (t_provider t) = Some (pl_IdempotencyKey pl))
  | _ => True
  end.
Definition one_call (s s' : World) : Prop := ∃ l, new_calls s s' l ∧
  (length (List.filter (λ c, is_publish c.1) l) ≤ 1)%nat ∧ Forall under_lease l.
Lemma no_publish_filter (l : list (Event * PostDB)) :
  Forall (λ c, is_publish c.1 = false) l →
  List.filter (λ c, is_publish c.1) l = [] ∧ Forall under_lease l.
Proof.
  induction 1 as [|[ev db] l Hc _ [IH1 IH2]]; [done|]. simpl in *. rewrite Hc. split; [done|].
  constructor; [|done]. by destruct ev.
Qed.
Lemma no_publish_one s s' : no_publish s s' → one_call s s'.
Proof.
  intros (_ & l & H & Hl). exists l. destruct (no_publish_filter l Hl) as [-> ?]. split; [done|].
  split; [simpl; lia|done].
Qed.
Lemma no_publish_then s s1 s' : no_publish s s1 → one_call s1 s' → one_call s s'.
Proof.
  intros (_ & l & H & Hl) (l' & H' & Hlen & Hl'). exists (l ++ l').
  destruct (no_publish_filter l Hl) as [E ?]. unfold new_calls in *. rewrite H', H, app_assoc.
  split; [done|]. rewrite List.filter_app, E. split; [done|]. by apply Forall_app.
Qed.
Lemma then_no_publish s s1 s' : one_call s s1 → no_publish s1 s' → one_call s s'.
Proof.
  intros (l & H & Hlen & Hl) (_ & l' & H' & Hl'). exists (l ++ l').
  destruct (no_publish_filter l' Hl') as [E ?]. unfold new_calls in *. rewrite H', H, app_assoc.
  split; [done|]. rewrite List.filter_app, E, app_nil_r. split; [done|]. by apply Forall_app.
Qed.
(** [m] may publish once if it starts in [P]. *)
Definition once {A} (P : World → Prop) (m : W A) : Prop :=
  ∀ e s n, P s → one_call s (state_of (m e (s, n))).
Lemma once_never {A} P (m : W A) : respects no_publish m → once P m.
Proof. intros H e s n _. apply no_publish_one, H. Qed.
Lemma once_bind {A B} P Q (m : W A) (k : A → W B) :
  respects no_publish m → triple P m Q → (∀ a, once (Q a) (k a)) → once P (m ≫= k).
Proof.
  intros Hm Ht Hk e s n Hs. specialize (Hm e s n). unfold mbind, M_bind. unfold state_of in Hm |- *.
  destruct (m e (s, n)) as [[er|a] [s1 n1]] eqn:E; [by apply no_publish_one|].
  eapply no_publish_then; [exact Hm|]. apply Hk. by eapply Ht.
Qed.
Lemma once_then {A B} P (m : W A) (k : A → W B) :
  once P m → (∀ a, respects no_publish (k a)) → once P (m ≫= k).
Proof.
  intros Hm Hk e s n Hs. specialize (Hm e s n Hs). unfold mbind, M_bind. unfold state_of in Hm |- *.
  destruct (m e (s, n)) as [[er|a] [s1 n1]] eqn:E; [done|].
  eapply then_no_publish; [exact Hm|]. apply Hk.
Qed.

Lemma resolveFresh_keeps key p pl : pl_IdempotencyKey pl = key →
  triple (held_key D w id key) (resolveFreshMediaPayload D w p pl)
    (λ pl' s, pl_IdempotencyKey pl' = key ∧ held_key D w id key s).
Proof.
  intros Hk. unfold resolveFreshMediaPayload. destruct (resolve_upload D); [|apply markFailed_never].
  eapply triple_bind; [apply held_key_keeps; respects_tac|]. intros [er|u]; simpl.
  - destruct (errors_is _ _); apply markFailed_never.
  - by apply triple_ret.
Qed.
Lemma publish_call_once key p t u pl : pl_IdempotencyKey pl = key →
  once (held_key D w id key) (outside D (CallPublish p t u pl) (λ h, publish D h t pl)).
Proof.
  intros <- e s n (_ & Hne & H). exists [(CallPublish p t u pl, w_store s)]. split; [done|].
  split; [done|]. constructor; [|done]. by split.
Qed.
Lemma once_pure {A} (F : Prop) P (m : W A) : (F → once P m) → once (λ s, F ∧ P s) m.
Proof. intros H e s n [HF Hs]. by apply H. Qed.
Lemma executePublish_once key a p t pl : pl_IdempotencyKey pl = key →
  once (held_key D w id key) (executePublish D w a p t pl).
Proof.
  intros Hk. unfold executePublish.
  eapply once_bind; [respects_tac|apply held_key_keeps; respects_tac|]. intros [er|].
  { apply once_never. respects_tac. }
  eapply once_bind; [respects_tac|by apply resolveFresh_keeps|]. intros pl'.
  apply once_pure. intros Hk'. apply once_then; [by apply publish_call_once|].
  intros r. respects_tac.
Qed.
Lemma publish_localized_once a p : once (held D w id) (publish_localized D w a p).
Proof using Hsha.
  unfold publish_localized.
  eapply once_bind; [respects_tac|apply resolvePublishToken_keeps|]. intros token.
  eapply once_bind; [respects_tac|apply validate_keeps|]. intros [].
  eapply once_bind; [respects_tac|apply canary_keeps|]. intros token'.
  eapply once_bind; [respects_tac|apply ensureKey_triple|]. intros key.
  eapply once_bind; [respects_tac|apply phase2_untouched|]. intros [|] e s n Hs.
  - by apply no_publish_one.
  - by apply (executePublish_once key); [|apply Hs].
Qed.
Lemma publish_claimed_once : once (held D w id) (publish_claimed D w).
Proof using Hsha.
  unfold publish_claimed. eapply once_bind; [respects_tac|apply load_keeps|].
  intros [er|[post a]]; [apply once_never; respects_tac|].
  destruct (needs_reauth a); [apply once_never; respects_tac|].
  destruct (_ && _); [apply once_never; respects_tac|].
  unfold publish_post. destruct (negb _); [apply once_never; respects_tac|].
  eapply once_bind; [respects_tac|apply localize_keeps|].
  intros [er|o]; [apply once_never; respects_tac|]. apply publish_localized_once.
Qed.

(** A claim that succeeds leaves the row with this worker, whatever the database
    does with the statements. *)
Lemma claim_held (t : TargetRow) (ttl : Z) :
  triple (λ db, targets db !! id = Some t) (ClaimQueuedTargetWithLease id w ttl)
    (λ b db, b = true → ∃ t', held_row w id db t' ∧ t_provider t' = t_provider t).
Proof.
  unfold ClaimQueuedTargetWithLease, require_owner, require_ttl.
  destruct (bool_decide _); [apply triple_throw|]. destruct (_ <=? _); [apply triple_throw|].
  intros e db n b db' n' Ht Hrun. apply transact_inr in Hrun as [[n1 Hb]|(_ & w1 & Hb)].
  2: { apply bind_inr in Hb as (f & [s1 m1] & _ & Hb). destruct f; run_inv. done. }
  intros ->. apply bind_inr in Hb as (f & [s1 m1] & Hsel & Hb).
  destruct f; [|by run_inv]. apply exec_inr in Hsel as (_ & _ & Hsel). injection Hsel as _ <-.
  apply bind_inr in Hb as ([] & [s2 m2] & Hc%map_err_inr & Hb). run_inv. revert Hc. cbn [fst].
  set (P := λ s, targets s !! id = Some t).
  assert (H : triple P (claimTargetTx id (qClaimQueuedTargetWithLeaseUpdate id w (lease_seconds ttl)))
    (λ _ s, ∃ t', held_row w id s t' ∧ t_provider t' = t_provider t)); [|by apply H].
  set (Q := λ s, ∃ t', held_row w id s t' ∧ t_provider t' = t_provider t). unfold claimTargetTx.
  eapply triple_bind with (Q := λ _, P).
  { eapply triple_weaken; [apply triple_postID|done|]. by intros a s [? _]. }
  intros p. eapply triple_bind; [apply triple_lockPost|]. intros [].
  eapply triple_bind with (Q := λ k s, k ≠ O → Q s).
  { apply triple_exec. intros e0 s Hs Hk. unfold qClaimQueuedTargetWithLeaseUpdate in *.
    destruct (update_targets_some _ _ _ _ Hk) as (k' & t1 & Ht1 & [-> Hp]%row_spec).
    unfold P in Hs. simplify_eq. lazymatch type of Hk with (update_targets _ ?f _ _).1 ≠ _ =>
      destruct (update_row_targets id _ f e0 s t Hs Hp) as [E _] end.
    unfold Q, held_row. setoid_rewrite E. eexists. split; [split; [by rewrite lookup_insert_eq|]|].
    - unfold leased_to. rewrite reset_status, reset_lease. simpl.
      split; [reflexivity|]. apply bool_decide_eq_true_2. reflexivity.
    - unfold reset_reconcile_schedule_on_publish_start. by destruct (_ && _). }
  intros k. eapply triple_bind with (Q := λ j s, j ≠ O → Q s).
  { apply triple_map_err. eapply triple_weaken; [apply triple_rows|intros s H; exact H|].
    intros j s [-> H]. exact H. }
  intros j. case_bool_decide as Hj; [apply triple_throw|].
  unfold persistAggregatePostStatusLockedTx. eapply triple_bind; [apply triple_resolve|].
  intros st. apply triple_exec_status. intros e0 s [Hs _]. exact (Hs Hj).
Qed.

Lemma claimTarget_held t : triple
  (λ s, targets (w_store s) !! id = Some t ∧ w_target s = scanned_target (id, t)) (claimTarget w)
  (λ b s, b = true → held D w id s).
Proof.
  unfold claimTarget. eapply triple_bind with (Q := λ u s, ID u = id ∧
    targets (w_store s) !! id = Some t ∧ w_target s = scanned_target (id, t)).
  { intros e s n a s' n' [H1 H2] [= <- <- <-]. by rewrite H2. }
  intros u e s n b s' n' (Hu & Hs) Hrun%map_err_inr Hb. rewrite Hu in Hrun.
  destruct (on_store_triple (ClaimQueuedTargetWithLease id w publishLeaseTTL)
    (λ db g, targets db !! id = Some t ∧ g = scanned_target (id, t))
    (λ b db g, (b = true → ∃ t', held_row w id db t' ∧ t_provider t' = t_provider t) ∧
       g = scanned_target (id, t))) with (e := e) (s := s) (n := n) (a := b) (s' := s') (n' := n')
    as [Hh Hg]; [|done|done|].
  { intros g e0 db n0 b0 db' n1 [Ht Hg] Hr. split; [|done]. by apply (claim_held _ _ _ _ _ _ _ _ Ht Hr). }
  destruct (Hh Hb) as (t' & Ht' & Ep).
  split; [by rewrite Hg|]. intros _. exists t'. split; [done|]. intros k Hk _.
  rewrite Hg in Hk. by rewrite Ep.
Qed.
End one_call.

(** C2: a claimed target is published at most once, and under its lease.  However
    the database and the collaborators behave, and whatever other processes do
    meanwhile, one run of [publishTarget] calls the provider's [Publish] at
    most once, and the payload carries a non-empty idempotency key.  If
    nobody else touches the post store during the run, then at the moment of
    the call the row is [publishing] under this worker's lease, and the key of
    the payload is the one stored in it. *)
Theorem publish_once_under_lease (D : Deps) (w : string) (id : Z) (t : TargetRow) (e : Env)
    (s : World) (n : nat) (Hsha : ∀ s, String.length (sha256_hex D s) = 64%nat)
    (Ht : targets (w_store s) !! id = Some t) (Hs : w_target s = scanned_target (id, t)) :
  one_call D w id s (state_of (publishTarget D w e (s, n))).
Proof.
  unfold publishTarget.
  refine (once_bind D w id (λ s, targets (w_store s) !! id = Some t ∧ w_target s = scanned_target (id, t))
    (λ b s, b = true → held D w id s) _ _ _ _ _ e s n (conj Ht Hs)).
  - respects_tac.
  - apply claimTarget_held.
  - intros [|]; [|apply once_never; respects_tac]. intros e' s' n' H.
    by apply (publish_claimed_once D w id Hsha), H.
Qed.

(** A platform that accepts everything. *)
Definition sample_caps : Capabilities := mkCapabilities true true false true false false false.
Definition sample_account : PlatformAccount := mkPlatformAccount 11 "tiktok" "user" "active" None "" None.
Definition sample_deps : Deps := mkDeps
  (λ _, "0123456789abcdef0123456789abcdef0123456789abcdef0123456789abcdef")
  (λ _ _, inr (Some sample_account)) (λ _, sample_caps) (λ _ _ _, inr "token") (λ _ _, None)
  (λ _ _ _, None) None None (λ _ _, None) (λ _ _, inr "public") None None (λ _ _, None)
  (Some (λ _ _, inr "https://media")) (λ _ _ _, inr (mkPublishResult "remote" "")) None
  (λ _ _, None) (λ _ _, None) (λ _, None) (λ _ _ _, inl (mkDeliveryFailure (errors_new "no") []))
  false "" (λ _, None) (λ _, None) (λ _, "") (λ _ _, None) (λ _, None) (λ _, None) (λ _, false)
  (λ _, []).
Definition direct_post : Post :=
  mkPost 0 5 "t" "c" "" None None None "" "" None 0 None "queued" None "" 0 0 0.
Definition sample_store : PostDB :=
  run_history [(sample_env 100, OpCreate direct_post sample_targets)] empty_db.
Definition sample_row : TargetRow := new_target 1 11 "queued" (sample_env 100).
Definition sample_world : World :=
  mkWorld sample_store (scanned_target (1, sample_row)) [] ∅.
Lemma publish_once_under_lease_witness :
  let s' := state_of (publishTarget sample_deps "w" (sample_env 200) (sample_world, O)) in
  one_call sample_deps "w" 1 sample_world s' ∧ existsb is_publish (calls s') = true.
Proof.
  split; [|vm_compute; reflexivity].
  refine (publish_once_under_lease sample_deps "w" 1 sample_row (sample_env 200) sample_world O
    (λ _, eq_refl) _ eq_refl).
  vm_compute. reflexivity.
Defined.

(** ** Posts of upload jobs on other platforms *)
Definition from_job (pid : Z) (db : PostDB) : Prop :=
  ∃ p, posts db !! pid = Some p ∧ post_ID p = pid ∧ is_Some (post_UploadJobID p).
Definition keeps_job (pid : Z) (db db' : PostDB) : Prop := from_job pid db → from_job pid db'.
Lemma exec_keeps_job {A} pid op (f : Env → PostDB → A * PostDB) :
  (∀ e db, posts (f e db).2 = posts db) → respects (keeps_job pid) (exec op f).
Proof.
  intros H. apply respects_exec; [apply invariant_preorder|]. intros e db. unfold keeps_job, from_job.
  by rewrite H.
Qed.
Lemma persist_keeps_job pid p : respects (keeps_job pid) (persistAggregatePostStatusLockedTx p).
Proof.
  unfold persistAggregatePostStatusLockedTx, resolvePostStatusLockedTx, exec_status.
  pose proof (invariant_preorder (from_job pid)) as Hpre. change (PreOrder (keeps_job pid)) in Hpre.
  respects_tac; [by apply exec_keeps_job|]. apply respects_exec; [done|].
  intros e db (q & Hq & Hid & Hu). destruct (decide (p = pid)) as [->|Hne].
  - exists (set_post_status a q). cbn. by rewrite lookup_alter_eq, Hq.
  - exists q. cbn. by rewrite lookup_alter_ne.
Qed.
Lemma claim_keeps_job pid id w ttl :
  respects (keeps_job pid) (ClaimQueuedTargetWithLease id w ttl).
Proof.
  pose proof (invariant_preorder (from_job pid)) as Hpre. change (PreOrder (keeps_job pid)) in Hpre.
  unfold ClaimQueuedTargetWithLease, require_owner, require_ttl, claimTargetTx, postIDForTargetTx,
    lockPostTx, rows_affected. respects_tac; first [by apply exec_keeps_job|apply persist_keeps_job].
Qed.

Lemma respects_bind_triple {S A B} (R : relation S) `{!PreOrder R} (P : S → Prop) Q (m : M S A)
    (k : A → M S B) e s n :
  respects R m → triple P m Q → (∀ a s n, Q a s → R s (state_of (k a e (s, n)))) → P s →
  R s (state_of ((m ≫= k) e (s, n))).
Proof.
  intros Hm Ht Hk Hs. specialize (Hm e s n). unfold mbind, M_bind. unfold state_of in *.
  destruct (m e (s, n)) as [[er|a] [s1 n1]] eqn:E; [done|]. etrans; [exact Hm|].
  apply Hk. by eapply Ht.
Qed.

Section parked.
Context (D : Deps) (w : string).
Context (Hplat : ∀ h a acc, find_account D h a = inr (Some acc) → acc_Platform acc ≠ PlatformYouTube).
(** Localized copies of the job's post come from that job. *)
Definition cache_from_job (pid : Z) (s : World) : Prop :=
  ∀ k p, w_cache s !! k = Some p → k.1.1 = pid → is_Some (post_UploadJobID p).
Definition parked_post (pid : Z) (post : Post) : Prop :=
  post_ID post = pid ∧ is_Some (post_UploadJobID post).

Lemma load_parked pid : triple
  (λ s, PostID (w_target s) = pid ∧ from_job pid (w_store s) ∧ cache_from_job pid s)
  (loadPostAndAccount D)
  (λ r s, parked_post pid r.1 ∧ acc_Platform r.2 ≠ PlatformYouTube ∧ cache_from_job pid s).
Proof using Hplat.
  unfold loadPostAndAccount. intros e s n [post a] s' n' (Hp & (p & Hpost & Hid & Hu) & Hc) Hrun.
  apply bind_inr in Hrun as (t & [s1 n1] & Hget & Hrun). injection Hget as <- <- <-.
  apply bind_inr in Hrun as (o & [s2 n2] & Ho%map_err_inr & Hrun).
  unfold on_store, FindByID, FindByIDForWorkspace in Ho. cbn in Ho.
  destruct (fault e n); [|done..]. injection Ho as <- <- <-. rewrite Hp, Hpost in Hrun. cbn in Hrun.
  apply bind_inr in Hrun as (found & [s3 n3'] & Ha%map_err_inr & Hrun).
  unfold outside_err in Ha. apply bind_inr in Ha as (r & [s4 n4] & Hout & Hr).
  unfold outside in Hout. injection Hout as <- <- <-.
  destruct (find_account D _ _) as [er|acc] eqn:Ef; [done|].
  apply ret_inr in Hr as [-> [= -> ->]]. destruct acc as [acc|]; [|done].
  apply ret_inr in Hrun as [[= -> ->] [= -> ->]]. split; [done|]. split; [by eapply Hplat|done].
Qed.
Lemma localize_parked pid post a : parked_post pid post →
  triple (cache_from_job pid) (localizeForChannel D a post)
    (λ o _, is_Some (post_UploadJobID (default post o))).
Proof.
  intros [Hid Hu]. unfold localizeForChannel.
  assert (Hnone : ∀ P : World → Prop, triple P (mret None : W (option Post))
    (λ o _, is_Some (post_UploadJobID (default post o)))) by (intros P; by apply triple_ret).
  destruct (negb _); [apply Hnone|]. destruct (snapshotForAccount _ _) as [[t d]|];
    [by apply triple_ret|]. destruct (_ && _); [apply Hnone|]. cbv zeta.
  destruct (bool_decide _); [apply Hnone|]. destruct (bool_decide (is_Some _)); [apply Hnone|].
  destruct (_ && _); [apply Hnone|]. destruct (_ && _); [apply Hnone|].
  eapply triple_bind with (Q := λ c s, ∀ k p, c !! k = Some p → k.1.1 = pid →
    is_Some (post_UploadJobID p)).
  { intros e s n c s' n' Hs [= <- <- <-]. exact Hs. }
  intros c. destruct (c !! _) as [p|] eqn:Ec.
  { apply triple_ret. intros s Hs. by apply (Hs _ _ Ec). }
  eapply triple_bind with (Q := λ _ _, True); [done|]. intros x.
  eapply triple_bind with (Q := λ _ _, True); [done|]. intros [[ti de] [|]]; simpl; [|apply Hnone].
  eapply triple_bind with (Q := λ _ _, True); [done|]. intros _. by apply triple_ret.
Qed.
(** The second phase of another platform's post ends the run. *)
Lemma phase2_parks a post t pl : acc_Platform a ≠ PlatformYouTube → is_Some (post_UploadJobID post) →
  triple (λ _, True) (publishYouTubePhase2 D w a post t pl) (λ b _, b = true).
Proof.
  intros Ha [u Hu]. unfold publishYouTubePhase2.
  assert (H : triple (λ _, True) (wait_for_materialization w post) (λ b _, b = true)).
  { unfold wait_for_materialization. rewrite Hu.
    do 2 (eapply triple_bind with (Q := λ _ _, True); [done|]; intros ?). by apply triple_ret. }
  destruct (yt_lookup D); [|exact H]. by rewrite bool_decide_eq_false_2.
Qed.
Lemma publish_localized_parks a post : acc_Platform a ≠ PlatformYouTube →
  is_Some (post_UploadJobID post) → respects no_publish (publish_localized D w a post).
Proof.
  intros Ha Hu. unfold publish_localized.
  do 4 (apply respects_bind; [apply _|respects_tac|intros ?]). cbv zeta.
  intros e s n. apply (respects_bind_triple no_publish (λ _, True) (λ b _, b = true));
    [respects_tac|by apply phase2_parks| |exact I].
  by intros b s1 n1 ->.
Qed.
Lemma publish_claimed_parks pid e s n :
  PostID (w_target s) = pid → from_job pid (w_store s) → cache_from_job pid s →
  no_publish s (state_of (publish_claimed D w e (s, n))).
Proof using Hplat.
  intros Hp Hj Hc. unfold publish_claimed.
  eapply (respects_bind_triple no_publish) with (P := λ s, PostID (w_target s) = pid ∧ from_job pid (w_store s) ∧
      cache_from_job pid s) (Q := λ r s, ∀ x, r = inr x → parked_post pid x.1 ∧
        acc_Platform x.2 ≠ PlatformYouTube ∧ cache_from_job pid s); [respects_tac| | |done].
  { intros e' s' n' r s1 n1 Hs Hrun x ->. unfold try in Hrun.
    destruct (loadPostAndAccount D e' _) as [r w'] eqn:E. injection Hrun as -> ->.
    by apply (load_parked pid e' _ _ _ _ _ Hs E). }
  intros [er|[post a]] s1 n1 Hr; [apply markFailed_no_publish|].
  destruct (Hr _ eq_refl) as (Hpost & Ha & Hc1). cbn [fst snd] in *.
  destruct (needs_reauth a); [apply markPublishBlockedAuth_no_publish|].
  destruct (_ && _); [apply drive_no_publish|]. unfold publish_post.
  destruct (negb _); [apply markFailed_no_publish|].
  eapply (respects_bind_triple no_publish) with (P := cache_from_job pid)
    (Q := λ r _, ∀ o, r = inr o → is_Some (post_UploadJobID (default post o)));
    [respects_tac| | |exact Hc1].
  { intros e' s' n' r s2 n2 Hs Hrun o ->. unfold try in Hrun.
    destruct (localizeForChannel D a post e' _) as [r w'] eqn:E. injection Hrun as -> ->.
    by apply (localize_parked pid post a Hpost e' _ _ _ _ _ Hs E). }
  intros [er|o] s2 n2 Ho; [apply markFailed_no_publish|].
  apply publish_localized_parks; [done|]. by apply Ho.
Qed.
End parked.

(** A post of an upload job never leaves on a platform other than YouTube.
    The worker parks every target of such a post in [waiting_provider] until
    the YouTube delivery is materialized, and asks neither whether the target
    is on YouTube; for other platforms no delivery is ever materialized.
    Whatever the collaborators answer, as long as no account is on YouTube, no
    run of [publishTarget] on such a target calls the provider. *)
Theorem upload_posts_need_youtube (D : Deps) (w : string) (id : Z) (t : TargetRow) (e : Env)
    (s : World) (n : nat)
    (Hplat : ∀ h a acc, find_account D h a = inr (Some acc) → acc_Platform acc ≠ PlatformYouTube)
    (Hs : w_target s = scanned_target (id, t)) (Hjob : from_job (t_post t) (w_store s))
    (Hcache : cache_from_job (t_post t) s) :
  no_publish s (state_of (publishTarget D w e (s, n))).
Proof.
  unfold publishTarget.
  eapply (respects_bind_triple no_publish) with
    (P := λ s, PostID (w_target s) = t_post t ∧ from_job (t_post t) (w_store s) ∧
            cache_from_job (t_post t) s)
    (Q := λ _ s, PostID (w_target s) = t_post t ∧ from_job (t_post t) (w_store s) ∧
            cache_from_job (t_post t) s); [respects_tac| | |by rewrite Hs].
  - unfold claimTarget. eapply triple_bind with (Q := λ _ s, PostID (w_target s) = t_post t ∧
      from_job (t_post t) (w_store s) ∧ cache_from_job (t_post t) s).
    { by intros e0 s0 n0 a s1 n1 H [= <- <- <-]. }
    intros g. apply triple_map_err. intros e0 s0 n0 b s1 n1 (H1 & H2 & H3) Hrun.
    pose proof (claim_keeps_job (t_post t) (ID g) w publishLeaseTTL e0 (w_store s0) n0 H2) as H.
    unfold on_store in Hrun. cbn in Hrun. unfold state_of in H.
    destruct (ClaimQueuedTargetWithLease _ _ _ _ _) as [r [db n2]]. by injection Hrun as -> <- <-.
  - intros [|] s1 n1 (H1 & H2 & H3); [|reflexivity]. by eapply publish_claimed_parks.
Qed.
Definition job_world : World :=
  mkWorld (run_history [(sample_env 100, OpCreate sample_post sample_targets)] empty_db)
    (scanned_target (1, sample_row)) [] ∅.
Lemma upload_posts_need_youtube_witness :
  let s' := state_of (publishTarget sample_deps "w" (sample_env 200) (job_world, O)) in
  no_publish job_world s' ∧ t_status <$> targets (w_store s') !! 1 = Some "waiting_provider".
Proof.
  split; [|vm_compute; reflexivity].
  refine (upload_posts_need_youtube sample_deps "w" 1 sample_row (sample_env 200) job_world O
    _ eq_refl _ _).
  - intros h a acc H. injection H as <-. discriminate.
  - eexists. split; [vm_compute; reflexivity|]. split; [reflexivity|]. eexists. reflexivity.
  - intros k p H. discriminate H.
Defined.
