(* ===== verification/PublishSettle.v ===== *)
(** * A claimed target is given back

    On a database that answers and with nobody interfering, one run of the
    publish worker on a target it claims ends with the row released, or in
    flight at the provider with its remote id stored; the one exception is a
    cancelled wait for the throttle. *)

From S2P Require Import Prelude Store PostModel Backoff PostStore PostStoreProps GoError ErrorClass.
From S2P Require Import PostReads PublishWorker PublishWorkerProps.
From Stdlib Require Import ZArith Lia.
Local Open Scope Z_scope.

(** ** Specifications of runs, for both outcomes *)
Definition Assertion := PostDB → PostTarget → Prop.
Definition spec {A} (e : Env) (P : Assertion) (m : W A) (Q : A → Assertion) (E : Assertion) : Prop :=
  ∀ s n, P (w_store s) (w_target s) →
  match m e (s, n) with
  | (inr a, (s', _)) => Q a (w_store s') (w_target s')
  | (inl _, (s', _)) => E (w_store s') (w_target s')
  end.

Section spec.
Context (e : Env).
Implicit Types (P E : Assertion).
Lemma spec_ret {A} P (a : A) (Q : A → Assertion) E :
  (∀ db t, P db t → Q a db t) → spec e P (mret a) Q E.
Proof. intros H s n Hs. by apply H. Qed.
Lemma spec_throw {A} P er (Q : A → Assertion) E :
  (∀ db t, P db t → E db t) → spec e P (throw er) Q E.
Proof. intros H s n Hs. by apply H. Qed.
Lemma spec_ask P E : spec e P ask (λ e' db t, e' = e ∧ P db t) E.
Proof. intros s n Hs. by split. Qed.
Lemma spec_bind {A B} P (m : W A) (k : A → W B) Q R E :
  spec e P m Q E → (∀ a, spec e (Q a) (k a) R E) → spec e P (m ≫= k) R E.
Proof.
  intros Hm Hk s n Hs. specialize (Hm s n Hs). unfold mbind, M_bind.
  destruct (m e (s, n)) as [[er|a] [s1 n1]]; [done|]. by apply Hk.
Qed.
Lemma spec_try {A} P (m : W A) (Q : A → Assertion) F E :
  spec e P m Q F → spec e P (try m) (λ r, match r with inr a => Q a | inl _ => F end) E.
Proof.
  intros Hm s n Hs. specialize (Hm s n Hs). unfold try.
  by destruct (m e (s, n)) as [[er|a] [s1 n1]].
Qed.
Lemma spec_map_err {A} P f (m : W A) Q E : spec e P m Q E → spec e P (map_err f m) Q E.
Proof.
  intros Hm s n Hs. specialize (Hm s n Hs). unfold map_err.
  by destruct (m e (s, n)) as [[er|a] [s1 n1]].
Qed.
Lemma spec_weaken {A} P P' (m : W A) (Q Q' : A → Assertion) E E' :
  spec e P' m Q' E' → (∀ db t, P db t → P' db t) → (∀ a db t, Q' a db t → Q a db t) →
  (∀ db t, E' db t → E db t) → spec e P m Q E.
Proof.
  intros Hm HP HQ HE s n Hs. specialize (Hm s n (HP _ _ Hs)).
  destruct (m e (s, n)) as [[er|a] [s1 n1]]; auto.
Qed.
Lemma spec_pure {A} (F : Prop) P (m : W A) Q E :
  (F → spec e P m Q E) → spec e (λ db t, P db t ∧ F) m Q E.
Proof. intros H s n [Hs HF]. by apply H. Qed.
Lemma spec_get P E : spec e P get_target (λ u db t, u = t ∧ P db t) E.
Proof. intros s n Hs. by split. Qed.
Lemma spec_modify P f (Q : Assertion) E :
  (∀ db t, P db t → Q db (f t)) → spec e P (modify f) (λ _, Q) E.
Proof. intros H s n Hs. by apply H. Qed.
Lemma spec_get_cache P E : spec e P get_cache (λ _, P) E.
Proof. by intros s n Hs. Qed.
Lemma spec_put_cache P k p E : spec e P (put_cache k p) (λ _, P) E.
Proof. by intros s n Hs. Qed.
Lemma spec_outside D {A} P ev (answer : list Event → A) E :
  quiet D → spec e P (outside D ev answer) (λ _, P) E.
Proof. intros Q s n Hs. unfold outside. simpl. by rewrite Q. Qed.
Lemma spec_outside_err D {A} P ev (answer : list Event → err + A) E :
  quiet D → (∀ db t, P db t → E db t) → spec e P (outside_err D ev answer) (λ _, P) E.
Proof.
  intros Q HE. eapply spec_bind; [by apply spec_outside|]. intros []; [by apply spec_throw|by apply spec_ret].
Qed.
(** An operation of the store that is known to succeed. *)
Lemma spec_store {A} P (m : M PostDB A) (Q : A → Assertion) E :
  (∀ db t n, P db t → ∃ a db' n', m e (db, n) = (inr a, (db', n')) ∧ Q a db' t) →
  spec e P (on_store m) Q E.
Proof.
  intros H s n Hs. destruct (H _ _ n Hs) as (a & db' & n' & Hm & HQ). unfold on_store. simpl.
  by rewrite Hm.
Qed.
End spec.

(** ** Runs of the store on a database that answers *)
Definition good (db : PostDB) : Prop :=
  db_ok db ∧ ∀ k t, targets db !! k = Some t → known_status (t_status t) = true.

Lemma aggregate_label l : aggregate_rules l ∈ post_status_labels.
Proof.
  unfold aggregate_rules. cbv zeta. repeat case_match;
    decide_closed.
Qed.
Lemma update_post_good p s e db : good db → good (update_post_status p s e db).2.
Proof.
  intros [[Hfk Hid Hts] Hk]. split; [|done]. split; [|intros p' q|done].
  - intros k t Ht. cbn. apply lookup_alter_is_Some. by eapply Hfk.
  - cbn. intros [(-> & q' & Hq & ->)|[_ Hq]]%lookup_alter_Some; cbn; by apply Hid.
Qed.
Section reliable_runs.
Context (e : Env) (Hrel : reliable e).
Lemma persist_good p db n : good db → ∃ n' s,
  persistAggregatePostStatusLockedTx p e (db, n) = (inr tt, ((update_post_status p s e db).2, n')).
Proof.
  intros [Hok Hk]. destruct (persist_run p (aggregate_rules (post_statuses p db)) e db n Hrel) as [n' H].
  - apply resolve_known, statuses_known, Hk.
  - apply aggregate_label.
  - by exists n', (aggregate_rules (post_statuses p db)).
Qed.

(** One row updated, then the post's status. *)
Section one_row.
Context (id : Z) (p : TargetRow → bool) (f : TargetRow → TargetRow) (db : PostDB) (t : TargetRow).
Context (Hgood : good db) (Ht : targets db !! id = Some t) (Hp : p t = true).
Context (Hpost : keeps_post f) (Hknown : known_status (t_status (f t)) = true).
Let db1 := (update_targets (row id p) f e db).2.
Definition row_written (db' : PostDB) : Prop := good db' ∧
  targets db' = <[id := reset_reconcile_schedule_on_publish_start e t (f t)]> (targets db).
Lemma row_update_written : row_written db1.
Proof using Hgood Ht Hp Hpost Hknown.
  destruct Hgood as [Hok Hk]. destruct (update_row_targets id p f e db t Ht Hp) as [E _].
  split; [|done]. split; [by apply update_targets_ok|]. intros k r. unfold db1. rewrite E.
  intros [[_ <-]|[_ Hr]]%lookup_insert_Some; [by rewrite reset_status|by eapply Hk].
Qed.
Lemma row_update_nonzero : (update_targets (row id p) f e db).1 ≠ O.
Proof using Ht Hp. eapply update_targets_hit; [exact Ht|]. by apply row_spec. Qed.
Lemma row_persist n : ∃ db' n',
  persistAggregatePostStatusLockedTx (t_post t) e (db1, n) = (inr tt, (db', n')) ∧ row_written db'.
Proof using All.
  pose proof row_update_written as [Hg E]. destruct (persist_good (t_post t) db1 n Hg) as (n' & s & H).
  eexists _, n'. split; [exact H|]. split; [by apply update_post_good|done].
Qed.
Lemma parent_run n : postIDForTargetTx id e (db, n) = (inr (t_post t), (db, S n)).
Proof using Hrel Ht. unfold postIDForTargetTx. erewrite bind_run by by apply exec_fine. simpl. by rewrite Ht. Qed.
Lemma lock_target_run n : lockTargetTx id e (db, n) = (inr tt, (db, S n)).
Proof using Hrel Ht.
  unfold lockTargetTx. erewrite bind_run by by apply exec_fine. simpl. by rewrite Ht.
Qed.
Lemma lock_post_run n : lockPostTx (t_post t) e (db, n) = (inr tt, (db, S n)).
Proof using Hrel Ht Hgood.
  unfold lockPostTx. erewrite bind_run by by apply exec_fine. simpl.
  by rewrite bool_decide_eq_true_2 by (eapply ok_fk; [apply Hgood|exact Ht]).
Qed.
Lemma tx_run op (body : M PostDB unit) n db' n' :
  body e (db, S n) = (inr tt, (db', n')) → tx op body e (db, n) = (inr tt, (db', S n')).
Proof using Hrel. intros H. unfold tx. apply transact_fine; [done|]. by erewrite bind_run by exact H. Qed.

Lemma mutate_run query n : query e db = update_targets (row id p) f e db →
  ∃ db' n', mutateLeasedTarget id query e (db, n) = (inr tt, (db', n')) ∧ row_written db'.
Proof using All.
  intros Hq. destruct (row_persist (S (S (S (S (S (S n)))))) ) as (db' & n' & Hrun & Hw).
  exists db', (S n'). split; [|done]. apply tx_run. unfold mutateLeasedTargetTx.
  erewrite bind_run by apply parent_run. erewrite bind_run by apply lock_target_run.
  erewrite bind_run by apply lock_post_run.
  erewrite bind_run by (unfold raw, map_err; rewrite exec_fine by done; rewrite Hq; reflexivity).
  erewrite bind_run by (unfold map_err; by rewrite rows_fine).
  by rewrite bool_decide_eq_false_2 by apply row_update_nonzero.
Qed.
Lemma update_status_run u owner n : u_ID u = id → owner ≠ "" → u_Status u ∈ post_status_labels →
  qUpdateTargetStatusWithLease u owner e db = update_targets (row id p) f e db →
  ∃ db' n', UpdateStatusWithLease (Some u) owner e (db, n) = (inr tt, (db', n')) ∧ row_written db'.
Proof using All.
  intros Hu Ho Hl Hq. destruct (row_persist (S (S (S (S (S n)))))) as (db' & n' & Hrun & Hw).
  exists db', (S n'). split; [|done]. unfold UpdateStatusWithLease. rewrite bool_decide_eq_false_2 by done.
  apply tx_run. rewrite Hu. erewrite bind_run by apply parent_run. erewrite bind_run by apply lock_post_run.
  erewrite bind_run by (unfold exec_status; cbn [forallb]; rewrite bool_decide_eq_true_2 by done;
    cbn [andb]; rewrite exec_fine by done; rewrite Hq; reflexivity).
  erewrite bind_run by (unfold map_err; by rewrite rows_fine).
  by rewrite bool_decide_eq_false_2 by apply row_update_nonzero.
Qed.
End one_row.
End reliable_runs.

(** ** The assertions *)
Section settle.
Context (D : Deps) (w : string) (id : Z) (t0 : TargetRow) (db0 : PostDB) (e : Env).
Context (Hquiet : quiet D) (Hrel : reliable e) (Hw : w ≠ "").

(** The other targets are as they were. *)
Definition frame (db : PostDB) : Prop := ∀ k, k ≠ id → targets db !! k = targets db0 !! k.
Definition row_is (T : PostTarget → Prop) (R : TargetRow → Prop) : Assertion := λ db t,
  good db ∧ ID t = id ∧ T t ∧ frame db ∧ ∃ r, targets db !! id = Some r ∧ R r.
(** The row as the claim left it. *)
Definition mine (r : TargetRow) : Prop :=
  t_status r = "publishing" ∧ lease_owner_id (t_lease r) = Some w ∧
  attempt_count (t_retry r) = attempt_count (t_retry t0).
Definition claimed : Assertion := row_is (λ t, AttemptCount t = 0) mine.
Definition settled_statuses : list string :=
  ["published"; "failed"; "blocked_auth"; "waiting_provider"; "queued"; "retrying"].
(** Released, or in flight with the id the reconciler polls. *)
Definition outcome (r : TargetRow) : Prop :=
  (t_lease r = no_lease ∧ t_status r ∈ settled_statuses ∧
   (t_status r = "retrying" →
      let next := Some (app_now e + 5 * Second) in
      attempt_count (t_retry r) = attempt_count (t_retry t0) + 1 ∧
      next_attempt_at (t_retry r) = next ∧ next_retry_at (t_retry r) = next)) ∨
  (t_status r = "publishing" ∧ lease_owner_id (t_lease r) = Some w ∧ has_platform_post r = true).
Definition settled : Assertion := row_is (λ _, True) outcome.
(** The throttle gave up: the row stays claimed. *)
Definition stranded : Assertion := λ db t,
  claimed db t ∧ ∃ h p er, throttle_wait D h p = Some er.
Definition done_ : Assertion := λ db t, settled db t ∨ stranded db t.

Lemma row_is_mono (T T' : PostTarget → Prop) (R R' : TargetRow → Prop) db t :
  (∀ t, T t → T' t) → (∀ r, R r → R' r) → row_is T R db t → row_is T' R' db t.
Proof. intros HT HR (Hg & Hid & Ht & Hf & r & Hr & HRr).
  split; [done|]. split; [done|]. split; [by apply HT|]. split; [done|]. exists r. auto. Qed.
Definition writes (s : string) : Assertion :=
  row_is (λ t, AttemptCount t = 0 ∧ Status t = s) mine.
(** The struct changed, the store did not. *)
Lemma row_is_struct (T T' : PostTarget → Prop) R db t t' :
  row_is T R db t → ID t' = ID t → (T t → T' t') → row_is T' R db t'.
Proof.
  intros (Hg & Hid & Ht & Hf & Hr) E HT. split; [done|]. split; [congruence|]. split; [auto|]. done.
Qed.
Lemma writes_of db t t' s : claimed db t → ID t' = ID t → AttemptCount t' = AttemptCount t →
  Status t' = s → writes s db t'.
Proof. intros H E Ha Hs. eapply row_is_struct; [exact H|done|]. intros H0. by rewrite Ha. Qed.
Lemma settled_done db t : settled db t → done_ db t.
Proof. by left. Qed.

(** *** Writes *)
Lemma written_row_is (T : PostTarget → Prop) (R : TargetRow → Prop) (r r' : TargetRow) db db' t :
  good db' → ID t = id → T t → frame db → targets db' = <[id := r']> (targets db) → R r' →
  row_is T R db' t.
Proof.
  intros Hg Hid HT Hf E HR. split; [done|]. split; [done|]. split; [done|]. split.
  - intros k Hne. rewrite E, lookup_insert_ne by done. by apply Hf.
  - exists r'. by rewrite E, lookup_insert_eq.
Qed.
Lemma reset_id o n : t_status n ≠ "publishing" ∨ t_status o = t_status n →
  reset_reconcile_schedule_on_publish_start e o n = n.
Proof.
  intros H. unfold reset_reconcile_schedule_on_publish_start.
  destruct H as [H|H]; [by rewrite bool_decide_eq_false_2|].
  by rewrite (bool_decide_eq_true_2 (_ = _) H), andb_false_r.
Qed.
Lemma mine_guard r : mine r → leased_to w r = true ∧ at_status "publishing" r = true.
Proof. intros (Hs & Hl & _). split; by apply bool_decide_eq_true_2. Qed.

Lemma backoff_zero : publishRetryBackoff 0 = 5 * Second.
Proof. reflexivity. Qed.
Definition retried_row (next : Z) (reason : string) (t : TargetRow) : TargetRow :=
  with_retry (mkRetryState (attempt_count (t_retry t) + 1) (Some next) (Some next)
      (rate_limit_reset_at (t_retry t)) (last_error_code (t_retry t)))
    (with_error_message (Some reason) (with_lease no_lease (with_status "retrying" t))).
Lemma retryTarget_spec reason : spec e claimed (retryTarget w reason) (λ _, settled) settled.
Proof using Hrel Hw.
  unfold retryTarget. eapply spec_bind; [apply spec_ask|]. intros e'.
  eapply spec_bind; [apply spec_get|]. intros g. cbv zeta.
  eapply spec_bind with (Q := λ _, settled); [|intros _; by apply spec_modify].
  apply spec_store. intros db t n (-> & -> & Hg & Hid & Ha & Hf & r & Hr & Hm).
  rewrite Ha, backoff_zero. destruct (mine_guard r Hm) as [Hlease _].
  unfold MarkRetrying, require_owner. rewrite bool_decide_eq_false_2 by done. rewrite Hid.
  destruct (mutate_run e Hrel id (leased_to w)
    (retried_row (app_now e + 5 * Second) reason) db r Hg Hr Hlease (λ _, eq_refl) eq_refl
    (qMarkRetrying id w (app_now e + 5 * Second) reason) n eq_refl) as (db' & n' & Hrun & Hg' & E).
  exists tt, db', n'. split; [exact Hrun|]. eapply written_row_is; [done..|exact E|].
  destruct Hm as (Hs & Hl & Hc). left. rewrite reset_id by (left; discriminate).
  split; [reflexivity|]. split; [decide_closed|]. intros _. simpl. by rewrite Hc.
Qed.
(** The statuses the worker writes itself. *)
Lemma status_label s : s ∈ settled_statuses → s ∈ post_status_labels ∧ known_status s = true ∧
  s ≠ "publishing".
Proof. intros H. unfold settled_statuses in H. enum_cases H; (split; [decide_closed|]); by split. Qed.
Definition status_row (t : PostTarget) (r : TargetRow) : TargetRow :=
  write_provider (update_of t) (completed_at (t_provider r))
    (with_lease (if bool_decide (Status t = "publishing") then t_lease r else no_lease)
      (with_status (Status t) r)).
Lemma status_write (T : PostTarget → Prop) (R : TargetRow → Prop) db t n :
  row_is T mine db t → Status t ∈ post_status_labels → known_status (Status t) = true →
  (∀ r, mine r → R (reset_reconcile_schedule_on_publish_start e r (status_row t r))) →
  ∃ a db' n', UpdateStatusWithLease (Some (update_of t)) w e (db, n) = (inr a, (db', n')) ∧
    row_is T R db' t.
Proof using Hrel Hw.
  intros (Hg & Hid & HT & Hf & r & Hr & Hm) Hlab Hknown HR. destruct (mine_guard r Hm) as [Hl Hp].
  destruct (update_status_run e Hrel id (λ t, leased_to w t && at_status "publishing" t)
    (status_row t) db r Hg Hr) with (u := update_of t) (owner := w) (n := n)
    as (db' & n' & Hrun & Hg' & E'); try done.
  { by rewrite Hl, Hp. }
  { unfold qUpdateTargetStatusWithLease. by rewrite <- Hid. }
  exists tt, db', n'. split; [exact Hrun|]. eapply written_row_is; [done..|exact E'|]. by apply HR.
Qed.
Lemma updateTargetStatus_spec s E :
  s ∈ settled_statuses → s ≠ "retrying" → spec e (writes s) (updateTargetStatus w) (λ _, settled) E.
Proof using Hrel Hw.
  intros Hs Hne. destruct (status_label s Hs) as (Hlab & Hknown & Hpub). unfold updateTargetStatus.
  eapply spec_bind; [apply spec_get|]. intros g. apply spec_store.
  intros db t n [-> Hrow]. pose proof Hrow as (_ & _ & [_ Hst] & _).
  destruct (status_write _ outcome db t n Hrow) as (a & db' & n' & Hrun & Hrow'); [by rewrite Hst..| |].
  { intros r Hm. left. rewrite reset_id by (left; simpl; congruence). simpl. rewrite Hst.
    rewrite bool_decide_eq_false_2 by done. split; [done|]. split; [done|]. by intros ->. }
  exists a, db', n'. split; [done|]. by eapply row_is_mono; [..|exact Hrow'].
Qed.
(** An accepted asynchronous publication keeps the lease. *)
Definition accepted (t : PostTarget) : Prop := Status t = "publishing" ∧ PlatformPostID t ≠ "".
Lemma updateTargetStatus_async E :
  spec e (row_is accepted mine) (updateTargetStatus w) (λ _, settled) E.
Proof using Hrel Hw.
  unfold updateTargetStatus. eapply spec_bind; [apply spec_get|]. intros g. apply spec_store.
  intros db t n [-> Hrow]. pose proof Hrow as (_ & _ & [Hst Hpp] & _).
  destruct (status_write _ outcome db t n Hrow) as (a & db' & n' & Hrun & Hrow');
    [rewrite Hst; decide_closed|by rewrite Hst| |].
  { intros r (Hs & Hlo & _). right. rewrite reset_id by (right; simpl; congruence). simpl.
    split; [done|]. rewrite Hst. split; [done|]. unfold has_platform_post. simpl.
    by rewrite bool_decide_eq_false_2. }
  exists a, db', n'. split; [done|]. by eapply row_is_mono; [..|exact Hrow'].
Qed.

Lemma markFailed_spec {A} reason (Q : A → Assertion) : spec e claimed (markFailed w reason) Q done_.
Proof using Hrel Hw.
  unfold markFailed. eapply spec_bind with (Q := λ _, claimed); [by apply spec_modify|]. intros _.
  eapply spec_bind; [apply spec_try, retryTarget_spec|].
  intros [?|?]; apply spec_throw; intros db t; apply settled_done.
Qed.
Lemma markPublishBlockedAuth_spec {A} reason (Q : A → Assertion) :
  spec e claimed (markPublishBlockedAuth w reason) Q done_.
Proof using Hrel Hw.
  unfold markPublishBlockedAuth. eapply spec_bind with (Q := λ _, writes "blocked_auth").
  { apply spec_modify. intros db t H. by apply (writes_of db t). }
  intros _. eapply spec_bind; [apply spec_try, (updateTargetStatus_spec _ settled)|];
    [decide_closed|done|]. intros [?|?]; apply spec_throw; intros db t; apply settled_done.
Qed.
Definition limited_row (next : Z) (msg : string) (t : TargetRow) : TargetRow :=
  with_retry (mkRetryState (attempt_count (t_retry t) + 1) (Some next)
      (next_retry_at (t_retry t)) (Some next) (Some "RATE_LIMITED"))
    (with_error_message (Some msg) (with_lease no_lease (with_status "queued" t))).
Lemma markRateLimited_spec er : spec e claimed (markRateLimited w er) (λ _, settled) done_.
Proof using Hrel Hw.
  unfold markRateLimited. eapply spec_bind; [apply spec_ask|]. intros e'.
  eapply spec_bind; [apply spec_get|]. intros g. cbv zeta.
  eapply spec_bind with (Q := λ _, settled); [|intros _; by apply spec_modify].
  apply spec_map_err, spec_store. intros db t n (-> & -> & Hg & Hid & Ha & Hf & r & Hr & Hm).
  destruct (mine_guard r Hm) as [Hl Hp]. unfold MarkRateLimitedRetryWithLease, require_owner.
  rewrite bool_decide_eq_false_2 by done. rewrite Hid. set (next := app_now e + _).
  destruct (mutate_run e Hrel id (λ t, leased_to w t && at_status "publishing" t)
    (limited_row next (Error er)) db r Hg Hr) with
      (query := qMarkRateLimitedRetryWithLease id w next (Error er)) (n := n)
    as (db' & n' & Hrun & Hg' & E'); [by rewrite Hl, Hp|done..|].
  exists tt, db', n'. split; [exact Hrun|]. eapply written_row_is; [done..|exact E'|].
  left. rewrite reset_id by (left; discriminate). split; [done|]. split; [decide_closed|]. done.
Qed.

(** *** Stamping the key *)
Definition key_row (key : string) (t : TargetRow) : TargetRow :=
  let p := t_provider t in
  with_provider (mkProviderData (platform_post_id p) (error_message p) (published_at p)
    (completed_at p) (provider_state p) (container_id p) (Some key) (upload_offset p)) t.
Lemma set_key_spec key (Q : (err + unit) → Assertion) (E : Assertion) : key ≠ "" →
  (∀ db t, claimed db t → Q (inr tt) db t) →
  (∀ er db t, errors_is er "ErrProviderIdempotencyConflict" = true → claimed db t → Q (inl er) db t) →
  spec e claimed (try (on_store (SetProviderIdempotencyKey id key))) Q E.
Proof using Hrel.
  intros Hkey Hok Hconf s n Hcl. pose proof Hcl as (Hg & Hid & Ha & Hf & r & Hr & Hm).
  unfold try, on_store. cbn [fst snd]. unfold SetProviderIdempotencyKey.
  rewrite bool_decide_eq_false_2 by done. erewrite bind_run by by apply exec_fine.
  unfold qUpdateTargetProviderIdempotencyKey. destruct (key_taken _ _ _).
  { simpl. apply Hconf; [reflexivity|]. done. }
  pose proof (row_update_nonzero e id (λ _, true) (key_row key) (w_store s) r Hr eq_refl) as Hnz.
  pose proof (row_update_written e id (λ _, true) (key_row key) (w_store s) r Hg Hr eq_refl
    (λ _, eq_refl)) as Hwr.
  unfold key_row in Hnz, Hwr. destruct (update_targets _ _ _ _) as [k db'] eqn:Eu. cbn [fst snd] in *.
  unfold mbind at 1, M_bind at 1, map_err. rewrite rows_fine by done.
  rewrite bool_decide_eq_false_2 by done. apply Hok. cbn.
  destruct Hm as (Hs & Hl & Hc). destruct Hwr as [Hg' E']; [simpl; by rewrite Hs|].
  eapply written_row_is; [done..|exact E'|]. rewrite reset_id by by right. done.
Qed.
Context (Hsha : ∀ s, String.length (sha256_hex D s) = 64%nat).
Lemma ensureKey_spec a : spec e claimed (ensureProviderIdempotencyKey D w a) (λ _, claimed) done_.
Proof using Hrel Hw Hsha.
  unfold ensureProviderIdempotencyKey. eapply spec_bind; [apply spec_get|]. intros g.
  intros s n [-> Hcl]. pose proof Hcl as (_ & Hid & _).
  set (stamp := _ ≫= _).
  assert (Hstamp : spec e claimed stamp (λ _, claimed) done_).
  { unfold stamp. rewrite Hid. eapply spec_bind with (Q := λ _, claimed); [by apply spec_modify|].
    intros _. eapply spec_bind with (Q := λ r db t, claimed db t ∧ match r with inr _ => True
      | inl er => errors_is er "ErrProviderIdempotencyConflict" = true end).
    { apply set_key_spec; [by apply key_nonempty|by intros|by intros]. }
    intros [er|[]]; [|apply spec_ret; by intros db t [? _]]. apply spec_pure. intros ->. eapply spec_bind with (Q := λ _, writes "failed").
    { apply spec_modify. intros db t H. by apply (writes_of db t). }
    intros _. eapply spec_bind; [apply spec_try, (updateTargetStatus_spec _ settled)|];
      [decide_closed|done|]. intros [?|?]; apply spec_throw; intros db t; apply settled_done. }
  destruct (ProviderIdempotencyKey (w_target s)) as [k|]; [|by apply Hstamp].
  destruct (bool_decide _); [by apply Hstamp|]. exact Hcl.
Qed.

(** *** Completion delivery *)
(** A predicate on rows that does not read the last error code. *)
Definition code_free (R : TargetRow → Prop) : Prop :=
  ∀ r c, R r → R (with_retry (with_last_error c (t_retry r)) r).
Lemma mine_code_free : code_free mine.
Proof. by intros r c. Qed.
Lemma outcome_code_free : code_free outcome.
Proof. by intros r c. Qed.
Lemma record_error_spec T R c E : code_free R →
  spec e (row_is T R) (recordDeliveryDispatchError c) (λ _, row_is T R) E.
Proof using Hrel.
  intros HR. unfold recordDeliveryDispatchError. case_bool_decide as Hc; [by apply spec_ret|].
  eapply spec_bind; [apply spec_get|]. intros g. intros s n [-> Hrow].
  pose proof Hrow as (Hg & Hid & HT & Hf & r & Hr & HRr). unfold mbind, M_bind, try, on_store.
  cbn [fst snd]. unfold MarkDeliveryDispatchFailed. rewrite Hid. destruct (id <=? 0); [done|].
  rewrite bool_decide_eq_false_2 by done. erewrite bind_run by by apply exec_fine.
  set (f := λ t, with_retry (with_last_error c (t_retry t)) t).
  pose proof (row_update_nonzero e id (λ _, true) f (w_store s) r Hr eq_refl) as Hnz.
  assert (Hk : known_status (t_status (f r)) = true) by (by apply (proj2 Hg id r)).
  pose proof (row_update_written e id (λ _, true) f (w_store s) r Hg Hr eq_refl
    (λ _, eq_refl) Hk) as [Hg' E']. unfold qMarkDeliveryDispatchFailed.
  fold f. destruct (update_targets _ _ _ _) as [k db'] eqn:Eu. cbn [fst snd] in *.
  unfold mbind at 1, M_bind at 1, map_err. rewrite rows_fine by done.
  rewrite bool_decide_eq_false_2 by done. cbn.
  eapply written_row_is; [done..|exact E'|]. rewrite reset_id by by right. by apply HR.
Qed.
Lemma no_drive_gate t a u c res : c !! "drive_required" = None →
  evaluateDriveRequiredGate (completion_dest D t a u c) res = false.
Proof.
  intros Hc. unfold evaluateDriveRequiredGate. rewrite bool_decide_eq_false_2; [done|].
  unfold completion_dest. simpl.
  assert (H : (c ∪ {[ "drive_account_id" := itoa (acc_ID a) ]} : gmap string string)
    !! "drive_required" = None) by (by rewrite lookup_union_r, lookup_singleton_ne).
  destruct (bool_decide _); [|by rewrite H]. rewrite lookup_insert_ne by done.
  destruct (bool_decide _); [rewrite lookup_insert_ne by done|]; by rewrite H.
Qed.
Ltac spec_walk :=
  match goal with
  | |- spec _ _ (outside _ _ _ ≫= _) _ _ => eapply spec_bind; [by apply spec_outside|intros ?]
  | |- spec _ _ (outside _ _ _) _ _ => by apply spec_outside
  | |- spec _ _ (mret _) _ _ => apply spec_ret; by intros
  | |- spec _ _ (match ?x with _ => _ end) _ _ => destruct x
  | |- spec _ _ (let _ := _ in _) _ _ => cbv zeta
  end.
Lemma probe_spec P a u E : spec e P (probe_asset D a u) (λ _, P) E.
Proof using Hquiet.
  unfold probe_asset. eapply spec_bind with (Q := λ _, P); [|intros ?; apply spec_ret; by intros].
  repeat spec_walk.
Qed.
Lemma sync_spec P p E : spec e P (syncContentPackageState D p) (λ _, P) E.
Proof using Hquiet. unfold syncContentPackageState. repeat spec_walk. Qed.
Lemma dispatch_spec T R a x u c : code_free R → c !! "drive_required" = None →
  spec e (row_is T R) (dispatchPostCompletion D a x u c) (λ _, row_is T R) (row_is T R).
Proof using Hquiet Hrel.
  intros HR Hc. unfold dispatchPostCompletion. destruct (delivery_registry D); [|by apply spec_ret].
  destruct (bool_decide _); [by apply spec_throw|]. destruct (negb _); [by apply spec_throw|].
  eapply spec_bind; [apply spec_get|]. intros g. cbv zeta.
  eapply spec_bind with (Q := λ _, row_is T R).
  { eapply spec_weaken; [apply probe_spec|by intros db t [_ ?]|done|done]. }
  intros asset. eapply spec_bind; [by apply spec_outside|]. intros [f|res].
  - eapply spec_bind; [by apply record_error_spec|]. intros []. by apply spec_throw.
  - rewrite no_drive_gate by done. eapply spec_bind with (Q := λ _, row_is T R); by intros; apply spec_ret.
Qed.

Lemma spec_get_bind {A} P (k : PostTarget → W A) Q E :
  (∀ g, spec e P (k g) Q E) → spec e P (get_target ≫= k) Q E.
Proof.
  intros H. eapply spec_bind; [apply spec_get|]. intros g.
  eapply spec_weaken; [apply H|by intros db t [_ ?]|done|done].
Qed.
Lemma spec_claimed_get {A} (k : PostTarget → W A) Q E :
  (∀ g, ID g = id → spec e claimed (k g) Q E) → spec e claimed (get_target ≫= k) Q E.
Proof. intros H s n Hcl. by apply (H (w_target s) (proj1 (proj2 Hcl)) s n). Qed.
(** *** Steps that only read *)
Lemma read_spec {A} P op (g : Env → PostDB → A) E :
  spec e P (on_store (exec op (λ e db, (g e db, db)))) (λ _, P) E.
Proof using Hrel. apply spec_store. intros db t n HP. rewrite exec_fine by done. eauto 6. Qed.
Lemma outside_err_spec {A} P ev (answer : list Event → err + A) :
  spec e P (outside_err D ev answer) (λ _, P) P.
Proof using Hquiet. by apply spec_outside_err. Qed.
Lemma load_spec P : spec e P (loadPostAndAccount D) (λ _, P) P.
Proof using Hquiet Hrel.
  unfold loadPostAndAccount. apply spec_get_bind. intros g. eapply spec_bind; [apply spec_map_err, read_spec|].
  intros [post|]; [|by apply spec_throw]. cbv zeta.
  eapply spec_bind; [apply spec_map_err, outside_err_spec|].
  intros [a|]; [by apply spec_ret|by apply spec_throw].
Qed.
Lemma RenewYouTubeToken_spec P a : spec e P (RenewYouTubeToken D a) (λ _, P) P.
Proof using Hquiet.
  unfold RenewYouTubeToken. eapply spec_bind; [apply spec_try, outside_err_spec|].
  intros [er|tok]; [|by apply spec_ret]. destruct (errors_is _ _); [by apply spec_throw|].
  destruct (negb _); [by apply spec_throw|]. eapply spec_bind; [apply spec_try, outside_err_spec|].
  intros [er2|tok]; [|by apply spec_ret]. destruct (errors_is _ _); by apply spec_throw.
Qed.
Lemma renew_bearer_spec P a : spec e P (renew_bearer D a) (λ _, P) P.
Proof using Hquiet.
  unfold renew_bearer. destruct (bool_decide _); [apply RenewYouTubeToken_spec|apply outside_err_spec].
Qed.
Lemma grant_reauth_spec P a E : spec e P (markYouTubeGrantReauth D a) (λ _, P) E.
Proof using Hquiet. unfold markYouTubeGrantReauth. repeat spec_walk. Qed.
Lemma localize_spec P a p : spec e P (localizeForChannel D a p) (λ _, P) P.
Proof using Hquiet.
  unfold localizeForChannel. repeat spec_walk.
  eapply spec_bind; [apply spec_get_cache|]. intros c. repeat spec_walk.
  eapply spec_bind with (Q := λ _, P).
  { unfold translate_title. repeat spec_walk. by apply spec_throw. }
  intros x. eapply spec_bind with (Q := λ _, P).
  { unfold translate_description. destruct (describe D) as [f|]; [|by apply spec_ret].
    eapply spec_bind; [apply spec_map_err, outside_err_spec|]. intros d.
    by destruct (bool_decide _); apply spec_ret. }
  intros [[ti de] [|]]; cbn; [|by apply spec_ret].
  eapply spec_bind; [apply spec_put_cache|]. intros ?. by apply spec_ret.
Qed.

(** *** Credentials and checks *)
Lemma resolvePublishToken_spec a : spec e claimed (resolvePublishToken D w a) (λ _, claimed) done_.
Proof using Hquiet Hrel Hw.
  unfold resolvePublishToken. eapply spec_bind with (Q := λ _, claimed).
  { eapply spec_weaken; [apply spec_try with (Q := λ _, claimed) (F := claimed)| |
      |intros db t H; exact H]; [|by intros|by intros [?|?]].
    destruct (bool_decide _); [apply RenewYouTubeToken_spec|].
    eapply spec_bind; [apply spec_try, outside_err_spec|]. intros [er|tok]; [|by apply spec_ret].
    destruct (errors_is _ _); [apply outside_err_spec|by apply spec_throw]. }
  intros [er|tok].
  - destruct (_ && _); [|apply markFailed_spec].
    eapply spec_bind; [apply grant_reauth_spec|]. intros []. apply markPublishBlockedAuth_spec.
  - repeat spec_walk.
Qed.
Lemma validate_spec a t : spec e claimed (validateYouTubeChannelBinding D w a t) (λ _, claimed) done_.
Proof using Hquiet Hrel Hw.
  unfold validateYouTubeChannelBinding. cbv zeta. destruct (_ || _); [by apply spec_ret|].
  spec_walk. spec_walk; [|by apply spec_ret]. spec_walk; [|apply markFailed_spec].
  spec_walk. apply markPublishBlockedAuth_spec.
Qed.
Lemma canary_video_spec E v : spec e claimed (try (on_store (SetTargetCanaryVideoID id v))) (λ _, claimed) E.
Proof using Hrel.
  eapply spec_weaken with (Q' := λ r, claimed); [|by intros|by intros|by intros db t H; exact H].
  intros s n Hcl. pose proof Hcl as (Hg & Hid & Ha & Hf & r & Hr & Hm).
  unfold try, on_store. cbn [fst snd]. unfold SetTargetCanaryVideoID.
  destruct (bool_decide _); [exact Hcl|]. rewrite exec_fine by done. cbn [fst snd].
  set (f := λ t, mkTargetRow _ _ _ _ _ _ _ _ _).
  assert (Hk : known_status (t_status (f r)) = true) by (by apply (proj2 Hg id r)).
  pose proof (row_update_written e id (λ _, true) f (w_store s) r Hg Hr eq_refl
    (λ _, eq_refl) Hk) as [Hg' E'].
  eapply written_row_is; [done..|exact E'|]. by rewrite reset_id by by right.
Qed.
Lemma isCanaryEnabled_spec P p E : spec e P (isCanaryEnabled D p) (λ _, P) E.
Proof using Hrel.
  unfold isCanaryEnabled. eapply spec_bind with (Q := λ _, P).
  - eapply spec_weaken; [apply spec_try, (read_spec P _ _ P)|by intros|by intros [?|?]|].
    by intros db t H; exact H.
  - intros [?|m]; [by apply spec_ret|]. destruct (bool_decide _); by apply spec_ret.
Qed.
Lemma canary_spec a p t : spec e claimed (runCanaryPreflight D w a p t) (λ _, claimed) done_.
Proof using Hquiet Hrel Hw.
  unfold runCanaryPreflight. eapply spec_bind; [apply isCanaryEnabled_spec|]. intros b.
  destruct (negb b); [by apply spec_ret|]. eapply spec_bind; [apply spec_try, renew_bearer_spec|].
  intros [er|tok]; [apply markPublishBlockedAuth_spec|]. destruct (canary_upload D);
    [|apply markPublishBlockedAuth_spec]. cbv zeta. spec_walk. destruct a0 as [[ch v]|];
    [|apply markPublishBlockedAuth_spec]. destruct (bool_decide _); [|apply markPublishBlockedAuth_spec].
  apply spec_claimed_get. intros g ->. eapply spec_bind; [apply canary_video_spec|]. intros ?. by apply spec_ret.
Qed.


(** *** Publishing *)
(** A status the worker has put in the struct reaches the row. *)
Lemma write_status_spec s f (P : Assertion) : s ∈ settled_statuses → s ≠ "retrying" →
  (∀ t, ID (f t) = ID t ∧ AttemptCount (f t) = AttemptCount t ∧ Status (f t) = s) → ∀ prefix,
  spec e claimed (_ ← modify f; map_err (wrap prefix) (updateTargetStatus w)) (λ _, settled) done_.
Proof using Hrel Hw.
  intros Hs Hne Hf prefix. eapply spec_bind with (Q := λ _, writes s).
  { apply spec_modify. intros db t H. destruct (Hf t) as (? & ? & ?). by apply (writes_of db t). }
  intros _. by apply spec_map_err, (updateTargetStatus_spec s).
Qed.
Lemma bind_assoc_spec {A B C} P (m : W A) (k : A → W B) (h : B → W C) Q E :
  spec e P ((m ≫= k) ≫= h) Q E → spec e P (m ≫= λ a, k a ≫= h) Q E.
Proof.
  intros H s n Hs. specialize (H s n Hs). unfold mbind, M_bind in *.
  destruct (m e (s, n)) as [[er|a] w1]; done.
Qed.
(** ... and what follows keeps it settled. *)
Lemma write_status_then {A} s f prefix (h : unit → W A) Q :
  s ∈ settled_statuses → s ≠ "retrying" →
  (∀ t, ID (f t) = ID t ∧ AttemptCount (f t) = AttemptCount t ∧ Status (f t) = s) →
  spec e settled (h tt) Q done_ →
  spec e claimed (_ ← modify f; u ← map_err (wrap prefix) (updateTargetStatus w); h u) Q done_.
Proof using Hrel Hw.
  intros Hs Hne Hf Hh. apply bind_assoc_spec.
  eapply spec_bind; [by apply (write_status_spec s f settled)|]. by intros [].
Qed.
Lemma settled_dispatch_spec a x u c E : c !! "drive_required" = None →
  spec e settled (try (dispatchPostCompletion D a x u c)) (λ _, settled) E.
Proof using Hquiet Hrel.
  intros Hc. eapply spec_weaken; [apply spec_try, (dispatch_spec (λ _, True) outcome); [apply outcome_code_free|done]|by intros| |
    intros db t H; exact H]. by intros [?|?].
Qed.
Lemma roll_back_spec (Q : unit → Assertion) E : (∀ db t, settled db t → Q tt db t) →
  spec e claimed (roll_back_to_queued w) Q E.
Proof using Hrel Hw.
  intros HQ. unfold roll_back_to_queued. eapply spec_bind with (Q := λ _, writes "queued").
  { apply spec_modify. intros db t H. by apply (writes_of db t). }
  intros _. eapply spec_bind; [apply spec_try, (updateTargetStatus_spec "queued" settled)|];
    [decide_closed|done|]. intros [?|?]; by apply spec_ret.
Qed.
Lemma resolveFresh_spec p pl : spec e claimed (resolveFreshMediaPayload D w p pl) (λ _, claimed) done_.
Proof using Hquiet Hrel Hw.
  unfold resolveFreshMediaPayload. destruct (resolve_upload D); [|apply markFailed_spec].
  spec_walk. destruct a as [er|u]; [|by apply spec_ret]. destruct (errors_is _ _); apply markFailed_spec.
Qed.
Lemma throttle_spec platform : spec e claimed
  (outside D (CallThrottle platform) (λ h, throttle_wait D h platform))
  (λ r db t, claimed db t ∧ match r with Some er => ∃ h p, throttle_wait D h p = Some er
                             | None => True end) done_.
Proof using Hquiet.
  intros s n Hcl. unfold outside. simpl. rewrite Hquiet. split; [exact Hcl|].
  destruct (throttle_wait D _ _) eqn:E; eauto.
Qed.
Lemma executePublish_spec a p t pl : spec e claimed (executePublish D w a p t pl) (λ _, settled) done_.
Proof using Hquiet Hrel Hw.
  unfold executePublish. cbv zeta. eapply spec_bind; [apply throttle_spec|]. intros [er|].
  { apply spec_throw. intros db g [Hcl (h & q & Hth)]. right. split; [done|]. eauto. }
  apply spec_pure. intros _. eapply spec_bind; [apply resolveFresh_spec|]. intros pl'.
  eapply spec_bind; [by apply spec_outside|]. intros [er|res].
  - destruct (bool_decide _); [apply markRateLimited_spec|apply markFailed_spec].
  - destruct (cap_async _) eqn:Ea; cbn [andb]; [case_bool_decide as Hpp; cbn [negb]|].
    2: { eapply spec_bind with (Q := λ _, row_is accepted mine).
      { apply spec_modify. intros db g H. eapply row_is_struct; [exact H|done|]. by intros _. }
      intros _. eapply spec_bind; [apply spec_map_err, updateTargetStatus_async|].
      intros []. apply sync_spec. }
    all: eapply spec_bind; [apply spec_ask|]; intros e'; apply (spec_weaken e _ claimed _ _ (λ _, settled) _ done_);
      [|by intros db g [_ ?]|done|done].
    all: apply (write_status_then "published"); [decide_closed|done|done|].
    all: eapply spec_bind; [apply sync_spec|]; intros [].
    all: eapply spec_bind; [by apply settled_dispatch_spec|]; intros ?; by apply spec_ret.
Qed.
Lemma publishDriveExport_spec a p : (drive_config D p) !! "drive_required" = None →
  spec e claimed (publishDriveExport D w a p) (λ _, settled) done_.
Proof using Hquiet Hrel Hw.
  intros Hc. unfold publishDriveExport. destruct (resolve_upload D); [|apply markFailed_spec].
  spec_walk. destruct a0 as [er|u]; [apply markFailed_spec|].
  eapply spec_bind with (Q := λ _, claimed).
  { eapply spec_weaken; [apply spec_try, (dispatch_spec (λ t, AttemptCount t = 0) mine); [apply mine_code_free|done]|by intros| |
      intros db t H; exact H]. by intros [?|?]. }
  intros [er|[res|]]; [apply markFailed_spec| |apply markFailed_spec].
  destruct (bool_decide _).
  - eapply spec_bind; [apply spec_ask|]. intros e'.
    apply (spec_weaken e _ claimed _ _ (λ _, settled) _ done_); [|by intros db g [_ ?]|done|done].
    apply (write_status_then "published"); [decide_closed|done|done|]. apply sync_spec.
  - cbv zeta. destruct (bool_decide (default "" _ = _)); [|apply markFailed_spec].
    spec_walk. apply markPublishBlockedAuth_spec.
Qed.

(** *** The second phase of YouTube *)
Definition handled (b : bool) : Assertion := if b then settled else claimed.
Lemma wait_spec p : spec e claimed (wait_for_materialization w p) handled done_.
Proof using Hrel Hw.
  unfold wait_for_materialization. destruct (post_UploadJobID p); [|by apply spec_ret].
  apply (write_status_then "waiting_provider"); [decide_closed|done|done|]. by apply spec_ret.
Qed.
Lemma markPublished_spec a yt v p : spec e claimed (markYouTubeTargetPublished D w a yt v p) handled done_.
Proof using Hquiet Hrel Hw.
  unfold markYouTubeTargetPublished. spec_walk. eapply spec_bind; [apply spec_ask|]. intros e'.
  apply (spec_weaken e _ claimed _ _ handled _ done_); [|by intros db g [_ ?]|done|done].
  apply (write_status_then "published"); [decide_closed|done|done|].
  eapply spec_bind; [apply sync_spec|]. intros []. destruct (resolve_upload D); [|by apply spec_ret].
  spec_walk. destruct a1; [by apply spec_ret|].
  eapply spec_bind; [by apply settled_dispatch_spec|]. intros ?. by apply spec_ret.
Qed.
Lemma clear_spec yt : spec e claimed (_ ← clear_upload D yt; mret false) handled done_.
Proof using Hquiet. unfold clear_upload. spec_walk. by apply spec_ret. Qed.
Lemma settleNative_spec a yt v nat p t :
  spec e claimed (settleNativePublish D w a yt v nat p t) handled done_.
Proof using Hquiet Hrel Hw.
  unfold settleNativePublish. cbv zeta. destruct (_ || _); [apply markPublished_spec|].
  spec_walk. destruct a0 as [er|privacy].
  - destruct (errors_is _ _); [apply clear_spec|].
    eapply spec_bind; [by apply (roll_back_spec (λ _, settled))|]. intros [].
    apply spec_throw. intros db g. apply settled_done.
  - destruct (bool_decide _); [apply markPublished_spec|]. eapply spec_bind; [apply spec_ask|]. intros e'.
    apply (spec_weaken e _ claimed _ _ handled _ done_); [|by intros db g [_ ?]|done|done].
    destruct (_ <? _).
    + eapply spec_bind; [apply spec_try, retryTarget_spec|].
      intros [?|?]; apply spec_throw; intros db g; apply settled_done.
    + destruct (negb _); [apply markFailed_spec|]. unfold update_video. spec_walk.
      destruct a0 as [er|]; [|apply markPublished_spec].
      destruct (isOrphanedYouTubeVideo _ _); [apply clear_spec|apply markFailed_spec].
Qed.
Lemma phase2_spec a p t pl : spec e claimed (publishYouTubePhase2 D w a p t pl) handled done_.
Proof using Hquiet Hrel Hw.
  unfold publishYouTubePhase2. destruct (yt_lookup D); [|apply wait_spec].
  destruct (negb _); [apply wait_spec|]. apply spec_get_bind. intros g. spec_walk.
  destruct a0 as [er|[yt|]]; [|destruct (uploaded_video yt) as [v|]; [|apply wait_spec]|apply wait_spec].
  - eapply spec_bind; [by apply (roll_back_spec (λ _, settled))|]. intros [].
    apply spec_throw. intros db g'. apply settled_done.
  - destruct (yp_NativePublishAt yt); [apply settleNative_spec|]. cbv zeta.
    destruct (_ && _); [|apply wait_spec]. eapply spec_bind; [apply spec_ask|]. intros e'.
    apply (spec_weaken e _ claimed _ _ handled _ done_); [|by intros db g' [_ ?]|done|done].
    destruct (CoercePrivacyForUpdate _ _ _). unfold update_video. spec_walk.
    destruct a0 as [er|]; [|apply markPublished_spec].
    destruct (isOrphanedYouTubeVideo _ _); [|apply markFailed_spec].
    unfold clear_upload. spec_walk. apply wait_spec.
Qed.

(** *** The whole run *)
Lemma publish_localized_spec a p : spec e claimed (publish_localized D w a p) (λ _, settled) done_.
Proof using Hquiet Hrel Hw Hsha.
  unfold publish_localized. eapply spec_bind; [apply resolvePublishToken_spec|]. intros tok.
  eapply spec_bind; [apply validate_spec|]. intros [].
  eapply spec_bind; [apply canary_spec|]. intros tok'.
  eapply spec_bind; [apply ensureKey_spec|]. intros key. cbv zeta.
  eapply spec_bind; [apply phase2_spec|]. intros [|]; [by apply spec_ret|apply executePublish_spec].
Qed.
Lemma drive_config_gate p : drive_config D p !! "drive_required" = None.
Proof. unfold drive_config. by destruct (json_folder_id D _); [rewrite lookup_singleton_ne|]. Qed.
Lemma publish_claimed_spec : spec e claimed (publish_claimed D w) (λ _, settled) done_.
Proof using Hquiet Hrel Hw Hsha.
  unfold publish_claimed. eapply spec_bind; [apply spec_try, load_spec|].
  intros [er|[p a]]; [apply markFailed_spec|]. destruct (needs_reauth a); [apply markPublishBlockedAuth_spec|].
  destruct (_ && _); [apply publishDriveExport_spec, drive_config_gate|]. unfold publish_post. cbv zeta.
  destruct (negb _); [apply markFailed_spec|]. eapply spec_bind; [apply spec_try, localize_spec|].
  intros [er|o]; [apply markFailed_spec|apply publish_localized_spec].
Qed.
End settle.

(** *** The claim *)
Lemma claim_run (w : string) (id ttl : Z) (e : Env) (db : PostDB) (t : TargetRow) (n : nat) :
  reliable e → w ≠ "" → 0 < ttl → good db → targets db !! id = Some t → claimable id e db = true →
  ∃ db' n', ClaimQueuedTargetWithLease id w ttl e (db, n) = (inr true, (db', n')) ∧
    good db' ∧ targets db' = <[id := claimed_row w ttl e t]> (targets db).
Proof.
  intros Hrel Hw Httl Hg Ht Hc.
  assert (Hin : status_in ["queued"; "waiting_provider"; "retrying"] t = true).
  { unfold claimable, select_target in Hc. simpl in Hc. rewrite Ht in Hc.
    unfold qClaimQueuedTargetWithLeaseSelect in Hc.
    by apply andb_true_iff in Hc as [[[? _]%andb_true_iff _]%andb_true_iff _]. }
  set (f := λ t, with_lease (mkPublishLease (Some w) (Some (db_now e + lease_seconds ttl * Second))
      (Some (db_now e))) (with_status "publishing" t)).
  destruct (row_persist e Hrel id (status_in ["queued"; "waiting_provider"; "retrying"]) f db t Hg Ht
    Hin (λ _, eq_refl) eq_refl (S (S (S (S (S (S n))))))) as (db' & n' & Hrun & Hg' & E).
  exists db', (S n'). split; [|split; [done|]].
  - unfold ClaimQueuedTargetWithLease, require_owner, require_ttl.
    rewrite bool_decide_eq_false_2, (proj2 (Z.leb_gt _ _)) by (done || lia).
    apply transact_fine; [done|]. erewrite bind_run by by apply exec_fine.
    unfold claimable in Hc. rewrite Hc. erewrite bind_run; [reflexivity|]. unfold map_err, claimTargetTx.
    erewrite bind_run by by apply (parent_run e Hrel id db t Ht).
    erewrite bind_run by by apply (lock_post_run e Hrel id db t Hg Ht).
    erewrite bind_run by by apply exec_fine.
    unfold qClaimQueuedTargetWithLeaseUpdate. fold f.
    erewrite bind_run by (unfold map_err; by rewrite rows_fine).
    rewrite bool_decide_eq_false_2 by (by apply (row_update_nonzero e id _ f db t Ht Hin)).
    cbn [snd select_target] in *. by rewrite Hrun.
  - rewrite E. f_equal. unfold reset_reconcile_schedule_on_publish_start. simpl.
    rewrite bool_decide_eq_false_2; [done|]. intros Es. unfold status_in in Hin. by rewrite Es in Hin.
Qed.

(** C3: a claimed target is given back.  On a database that answers, with nobody
    interfering, one run of [publishTarget] on a target that can be claimed
    leaves every other target alone and this one in one of these ways:
    released, in [published], [failed], [blocked_auth], [waiting_provider],
    [queued] or [retrying]; or still leased in [publishing] with the remote id
    that the reconciler polls; or, when waiting for the throttle failed, and
    only then, still leased in [publishing] with nobody to go on with it.  A
    run that reports success is one of the first two.  A target sent to
    [retrying] is due again five seconds later however often it has failed,
    because the struct the worker reads never carries the attempts. *)
Theorem publishTarget_settles (D : Deps) (w : string) (id : Z) (t : TargetRow) (e : Env) (s : World)
    (n : nat) (Hquiet : quiet D) (Hrel : reliable e) (Hw : w ≠ "")
    (Hsha : ∀ s, String.length (sha256_hex D s) = 64%nat) (Hgood : good (w_store s))
    (Ht : targets (w_store s) !! id = Some t) (Hs : w_target s = scanned_target (id, t))
    (Hclaim : claimable id e (w_store s) = true) :
  let run := publishTarget D w e (s, n) in
  (∀ k, k ≠ id → targets (w_store (state_of run)) !! k = targets (w_store s) !! k) ∧
  ∃ r, targets (w_store (state_of run)) !! id = Some r ∧
    (outcome w t e r ∨
     (∃ er, result_of run = inl er) ∧ mine w t r ∧ ∃ h p er, throttle_wait D h p = Some er).
Proof.
  destruct (claim_run w id publishLeaseTTL e (w_store s) t n Hrel Hw eq_refl Hgood Ht Hclaim)
    as (db' & n' & Hrun & Hg & E).
  assert (Hc : claimTarget w e (s, n) =
    (inr true, (mkWorld db' (w_target s) (w_calls s) (w_cache s), n'))).
  { unfold claimTarget. erewrite bind_run by reflexivity. unfold map_err, on_store.
    cbn [fst snd]. rewrite Hs at 1. change (ID (scanned_target (id, t))) with id. by rewrite Hrun. }
  set (s1 := mkWorld db' (w_target s) (w_calls s) (w_cache s)) in Hc.
  assert (Hb : publishTarget D w e (s, n) = publish_claimed D w e (s1, n')).
  { unfold publishTarget, mbind, M_bind. by rewrite Hc. }
  intros run. unfold run. rewrite Hb.
  assert (Hcl : claimed w id t (w_store s) (w_store s1) (w_target s1)).
  { apply (written_row_is id (w_store s) _ _ t (claimed_row w publishLeaseTTL e t) (w_store s));
      unfold s1; cbn [w_store w_target]; [done|by rewrite Hs|by rewrite Hs|by intros k|done|by split]. }
  pose proof (publish_claimed_spec D w id t (w_store s) e Hquiet Hrel Hw Hsha s1 n' Hcl) as H.
  unfold result_of, state_of. destruct (publish_claimed D w e (s1, n')) as [[er|[]] [s2 n2]]; cbn in *.
  - destruct H as [(_ & _ & _ & Hf & r & Hr & Ho)|[(_ & _ & _ & Hf & r & Hr & Hm) Hth]];
      (split; [exact Hf|]); exists r; eauto 6.
  - destruct H as (_ & _ & _ & Hf & r & Hr & Ho). split; [exact Hf|]. eauto.
Qed.
Lemma publishTarget_settles_witness :
  let run := publishTarget sample_deps "w" (sample_env 200) (sample_world, O) in
  (t_status <$> targets (w_store (state_of run)) !! 1 = Some "published") ∧
  ∃ r, targets (w_store (state_of run)) !! 1 = Some r ∧
    (outcome "w" sample_row (sample_env 200) r ∨
     (∃ er, result_of run = inl er) ∧ mine "w" sample_row r ∧
       ∃ h p er, throttle_wait sample_deps h p = Some er).
Proof.
  intros run. split; [vm_compute; reflexivity|].
  assert (Hdom : targets sample_store = <[1 := sample_row]>
    (<[2 := new_target 1 12 "queued" (sample_env 100)]> ∅)) by (vm_compute; reflexivity).
  refine (proj2 (publishTarget_settles sample_deps "w" 1 sample_row (sample_env 200) sample_world O
    (λ _, eq_refl) (λ _, eq_refl) _ (λ _, eq_refl) _ _ eq_refl _)).
  - discriminate.
  - split; [apply sample_ok; split; [left; vm_compute; reflexivity|exact I]|].
    cbn [w_store sample_world]. rewrite Hdom.
    intros k t [[_ <-]|[_ [[_ <-]|[_ H]]%lookup_insert_Some]]%lookup_insert_Some; [reflexivity..|].
    rewrite lookup_empty in H. discriminate H.
  - vm_compute. reflexivity.
  - vm_compute. reflexivity.
Defined.

(** ** Two things that can go wrong *)
(** A throttle wait that is cancelled strands the target. *)
Definition cancelled_deps : Deps :=
  let D := sample_deps in mkDeps
  (sha256_hex D) (find_account D) (capabilities D) (vault_renew D) (page_token D) (validate_binding D)
  (canary_upload D) (yt_lookup D) (update_privacy D) (get_video D) (translate D) (describe D)
  (λ _ _, Some (errors_new "context canceled")) (resolve_upload D) (publish D) (delivery_registry D)
  (head_size D) (range_size D) (url_base D) (deliver D) (package_sync D) (drive_folder_env D)
  (json_tags D) (json_translation_enabled D) (json_source_language D) (json_snapshot D)
  (json_package D) (json_folder_id D) (json_canary D) (peers D).
Example throttle_strands :
  let run := publishTarget cancelled_deps "w" (sample_env 200) (sample_world, O) in
  (λ r, (t_status r, lease_owner_id (t_lease r))) <$> targets (w_store (state_of run)) !! 1 =
    Some ("publishing", Some "w").
Proof. vm_compute. reflexivity. Qed.
(** A post cancelled while the provider refuses it comes back to be retried. *)
Definition cancelling_deps : Deps :=
  let D := sample_deps in mkDeps
  (sha256_hex D) (find_account D) (capabilities D) (vault_renew D) (page_token D) (validate_binding D)
  (canary_upload D) (yt_lookup D) (update_privacy D) (get_video D) (translate D) (describe D)
  (throttle_wait D) (resolve_upload D) (λ _ _ _, inl (leaf (DNew "refused"))) (delivery_registry D)
  (head_size D) (range_size D) (url_base D) (deliver D) (package_sync D) (drive_folder_env D)
  (json_tags D) (json_translation_enabled D) (json_source_language D) (json_snapshot D)
  (json_package D) (json_folder_id D) (json_canary D)
  (λ h, match last h with Some (CallResolve _) => [(sample_env 250, OpCancelPost 1)] | _ => [] end).
Example cancelled_target_retried :
  let run := publishTarget cancelling_deps "w" (sample_env 200) (sample_world, O) in
  t_status <$> targets (w_store (state_of run)) !! 1 = Some "retrying" ∧
  t_status <$> targets (w_store (state_of run)) !! 2 = Some "draft".
Proof. vm_compute. split; reflexivity. Qed.
