(* ===== verification/ReconcileWorker.v ===== *)
(** * The reconcile worker

    [src/internal/worker/reconcile_worker.go] over the post store: targets that
    an asynchronous provider accepted are polled under a reconcile lease and
    taken to published, failed, blocked or dead, or scheduled for another poll.

    The calls that leave the worker are those of [PublishWorker.Deps] with one
    more, [reconcile], which is [AsyncPublisher.Reconcile].  The goroutine of
    reconcile_lease_heartbeat.go works on the store beside the worker: its
    heartbeats are among the [peers], and the context it cancels shows as an
    error of [reconcile]. *)

From S2P Require Import Prelude Store PostModel Backoff PostStore PostReads GoError ErrorClass PublishWorker.
From Stdlib Require Import ZArith Lia.
Local Open Scope Z_scope.

(** ** Pure parts *)
(* Source: internal/worker/reconcile_worker.go *)
Definition dirtyAggregateRepairBatchSize : Z := 100. (* 238 *)
Definition reconcilePollingBatchSize : Z := 100. (* 239 *)
Definition reconcileBackoffCap : Z := 120 * Second. (* 240 *)
Definition reconcileLeaseTTL : Z := 60 * Second. (* 601-603 ReconcileWorker.reconcileLeaseTTL *)
(* 521-534 ReconcileWorker.isPermanentReconcileError *)
Definition isPermanentReconcileError (e : GoErr) : bool :=
  if Is e "context.Canceled" then false
  else if Is e ErrPublishTerminal || Is e ErrPublishPermanent || Is e ErrPermanentUpload then true
  else
    let c := ClassifyErrorFor "" "reconcile" e in
    bool_decide (Kind c = ErrorKindPermanent) || bool_decide (Kind c = ErrorKindAuth) ||
    negb (Retryable c).
(* 562-570 reconcileErrorCode *)
Definition reconcileErrorCode (e : GoErr) : string :=
  if bool_decide (Kind (ClassifyErrorFor "" "reconcile" e) = ErrorKindRateLimited)
  then "RATE_LIMITED" else "RECONCILE_TRANSIENT".

(** ** The targets to poll *)
(* Source: internal/repository/post_repo_target.go *)
(* 199-204 PostRepository.ListPublishing *)
Definition scanned_publishing (kt : Z * TargetRow) : PostTarget :=
  let t := kt.2 in
  let p := t_provider t in
  let r := t_reconcile t in
  mkPostTarget kt.1 (t_post t) (t_account t) (t_status t) 0 None (reconcile_attempt r)
    (Some (next_reconcile_at r)) "" None None
    (default "" (platform_post_id p)) "" "" (default "" (error_message p)) (published_at p)
    (completed_at p) (default "" (provider_state p)) (default "" (container_id p)) ""
    (provider_idempotency_key p) "" None None 0 0 0.
Definition due_order (x y : Z * TargetRow) : bool :=
  let at_ kt := next_reconcile_at (t_reconcile (kt : Z * TargetRow).2) in
  (at_ x <? at_ y) || ((at_ x =? at_ y) && (x.1 <=? y.1)).
(* Source: internal/repository/queries.go *)
(* 108-119 qSelectPublishingTargets *)
Definition qSelectPublishingTargets (limit : Z) (e : Env) (db : PostDB) : list (Z * TargetRow) :=
  take (Z.to_nat limit) (sort_by due_order
    (List.filter (λ kt, reconcile_due (db_now e) kt.2) (map_to_list (targets db)))).
(* Source: internal/repository/post_repo_target.go *)
(* 188-217 PostRepository.ListPublishing *)
Definition ListPublishing (limit : Z) : M PostDB (list PostTarget) :=
  if limit <=? 0 then
    throw (errors_new ("failed to list publishing post_targets: limit must be positive (got " +:+
                         itoa limit +:+ ")"))
  else exec "failed to list publishing post_targets" (λ e db,
    (scanned_publishing <$> qSelectPublishingTargets limit e db, db)).

(** Fields of the struct that only the reconciler assigns. *)
Definition with_schedule (attempt next : Z) (t : PostTarget) : PostTarget :=
  mkPostTarget (ID t) (PostID t) (PlatformAccountID t) (Status t) (AttemptCount t) (NextAttemptAt t)
    attempt (Some next) (ReconcileOwnerID t) (ReconcileUntil t) (ReconcileHeartbeatAt t)
    (PlatformPostID t) (RemotePostID t) (RemotePostURL t) (ErrorMessage t) (PublishedAt t)
    (CompletedAt t) (ProviderState t) (ContainerID t) (LastErrorCode t) (ProviderIdempotencyKey t)
    (LeaseOwner t) (LeaseUntil t) (HeartbeatAt t) (Version t) (CreatedAt t) (UpdatedAt t).
Definition with_ProviderState (s : string) (t : PostTarget) : PostTarget :=
  mkPostTarget (ID t) (PostID t) (PlatformAccountID t) (Status t) (AttemptCount t) (NextAttemptAt t)
    (ReconcileAttempt t) (NextReconcileAt t) (ReconcileOwnerID t) (ReconcileUntil t)
    (ReconcileHeartbeatAt t) (PlatformPostID t) (RemotePostID t) (RemotePostURL t) (ErrorMessage t)
    (PublishedAt t) (CompletedAt t) s (ContainerID t) (LastErrorCode t) (ProviderIdempotencyKey t)
    (LeaseOwner t) (LeaseUntil t) (HeartbeatAt t) (Version t) (CreatedAt t) (UpdatedAt t).
(** [defer]: the clean-up runs after the body, its error is dropped. *)
Definition deferred {A B} (body : W A) (cleanup : W B) : W A :=
  r ← try body;
  _ ← try cleanup;
  match r with inl er => throw er | inr a => mret a end.

(** ** The worker *)
Section Worker.
Context (D : Deps) (workerID : string).
Context (reconcile : list Event → string → string → GoErr + option PublishResult).

(* Source: internal/worker/reconcile_worker.go *)
(* 189-213 ReconcileWorker.syncContentPackageState *)
Definition syncContentPackageState : W unit :=
  t ← get_target;
  if negb (package_sync D) || (PostID t <=? 0) then mret tt
  else
    found ← try (on_store (FindByID (PostID t)));
    match found with
    | inr (Some post) =>
        match contentPackageIDFromMetadata D (post_Metadata post) with
        | None => mret tt
        | Some packageID => outside D (CallSync packageID) (λ _, tt)
        end
    | _ => mret tt
    end.

(** A terminal write of a copy of the struct: the struct is replaced only when
    the database took it. *)
Definition write_copy (what : string) (f : PostTarget → PostTarget) : W (bool * bool) :=
  t ← get_target;
  _ ← map_err (wrap ("transition to " +:+ what))
        (on_store (UpdateReconcileStatusWithLease (Some (update_of (f t))) workerID));
  _ ← set_target (f t);
  _ ← syncContentPackageState;
  mret (true, true).
Definition failed_copy (reason : string) (t : PostTarget) : PostTarget :=
  let t' := with_ErrorMessage reason (with_ProviderState "FAILED" (with_Status PostStatusFailed t)) in
  if bool_decide (LastErrorCode t = "") then with_LastErrorCode "RECONCILE_FAILED" t' else t'.
(* 636-657 ReconcileWorker.markFailedAndReturn *)
Definition markFailedAndReturn (reason : string) : W (bool * bool) :=
  write_copy "failed" (failed_copy reason).
Definition dead_copy (reason : string) (t : PostTarget) : PostTarget :=
  with_ErrorMessage reason (with_LastErrorCode "RECONCILE_RETRY_EXHAUSTED"
    (with_ProviderState "FAILED" (with_Status PostStatusDLQ t))).
(* 582-595 ReconcileWorker.markDeadLetterAndReturn *)
Definition markDeadLetterAndReturn (reason : string) : W (bool * bool) :=
  write_copy "dlq" (dead_copy reason).
Definition blocked_copy (reason : string) (t : PostTarget) : PostTarget :=
  with_ErrorMessage reason (with_LastErrorCode "blocked_auth"
    (with_ProviderState "REAUTH_REQUIRED" (with_Status PostStatusBlockedAuth t))).
(* 622-634 ReconcileWorker.markBlockedAuthAndReturn *)
Definition markBlockedAuthAndReturn (reason : string) : W (bool * bool) :=
  write_copy "blocked_auth" (blocked_copy reason).

Definition clamp_attempt (t : PostTarget) : Z :=
  if ReconcileAttempt t <? 0 then 0 else ReconcileAttempt t.
(* 541-560 ReconcileWorker.scheduleRetry *)
Definition scheduleRetry (retryAfter : Z) (cause : GoErr) : W (bool * bool) :=
  e ← ask; t ← get_target;
  let attempt := clamp_attempt t in
  let retryAfter := if retryAfter <=? 0 then reconcileBackoffForAttempt attempt else retryAfter in
  let next := app_now e + retryAfter in
  let incrementAttempt :=
    negb (bool_decide (Kind (ClassifyErrorFor "" "reconcile" cause) = ErrorKindRateLimited)) in
  _ ← map_err (wrap ("schedule retry for target " +:+ itoa (ID t)))
        (on_store (ScheduleNextReconcileWithLease (ID t) workerID attempt next incrementAttempt
                     (reconcileErrorCode cause) (Error cause)));
  _ ← set_target (with_schedule (if incrementAttempt then attempt + 1 else ReconcileAttempt t) next t);
  mret (false, false).
(* 605-620 ReconcileWorker.scheduleInFlight *)
Definition scheduleInFlight : W (bool * bool) :=
  e ← ask; t ← get_target;
  let attempt := clamp_attempt t in
  let backoff := reconcileBackoffForAttempt attempt in
  let backoff := if reconcileBackoffCap <? backoff then reconcileBackoffCap else backoff in
  let next := app_now e + backoff in
  _ ← map_err (wrap ("schedule next reconcile for target " +:+ itoa (ID t)))
        (on_store (ScheduleNextReconcileWithLease (ID t) workerID attempt next false "" ""));
  _ ← set_target (with_schedule (ReconcileAttempt t) next t);
  mret (false, false).

(* 420-440 ReconcileWorker.reconcileTarget *)
Definition renew_token (account : PlatformAccount) : W string :=
  if bool_decide (acc_Platform account = PlatformYouTube) then RenewYouTubeToken D (acc_ID account)
  else
    r ← try (vault_Renew D (acc_ID account) "bearer");
    match r with
    | inr token => mret token
    | inl er => if errors_is er "ErrModernGrantMissing" then vault_Renew D (acc_ID account) "long_lived"
                else throw er
    end.
(** The struct is assigned before the database is asked. *)
(* 497-514 ReconcileWorker.reconcileTarget *)
Definition complete (mediaID : string) : W (bool * bool) :=
  e ← ask;
  _ ← modify (λ t, with_PublishedAt (app_now e) (with_PlatformPostID mediaID
        (with_ProviderState "PUBLISH_COMPLETE" (with_Status PostStatusPublished t))));
  t ← get_target;
  _ ← map_err (wrap "transition to published")
        (on_store (UpdateReconcileStatusWithLease (Some (update_of t)) workerID));
  _ ← syncContentPackageState;
  mret (true, false).
(* 443-495 ReconcileWorker.reconcileTarget *)
Definition poll (account : PlatformAccount) (token : string) : W (bool * bool) :=
  t ← get_target;
  r ← outside D (CallReconcile (acc_Platform account) token (PlatformPostID t))
        (λ h, reconcile h token (PlatformPostID t));
  match r with
  | inl er =>
      let isRateLimit :=
        bool_decide (Kind (ClassifyErrorFor (acc_Platform account) "reconcile" er) = ErrorKindRateLimited) in
      if negb isRateLimit && isPermanentReconcileError er then
        markFailedAndReturn ("publish failed: " +:+ Error er)
      else if negb isRateLimit && (reconcileMaxAttempts - 1 <=? ReconcileAttempt t) then
        markDeadLetterAndReturn ("publish retry budget exhausted after " +:+ itoa reconcileMaxAttempts +:+
                                   " transient failures: " +:+ Error er)
      else scheduleRetry (RetryAfterFromError er) er
  | inr None => scheduleInFlight
  | inr (Some res) =>
      if bool_decide (PlatformMediaID res = "") then scheduleInFlight
      else complete (PlatformMediaID res)
  end.
(* 388-495 ReconcileWorker.reconcileTarget *)
Definition reconcile_claimed : W (bool * bool) :=
  t ← get_target;
  let a := PlatformAccountID t in
  found ← map_err (wrap ("load account " +:+ itoa a))
            (outside_err D (CallFindAccount a) (λ h, find_account D h a));
  match found with
  | None => markFailedAndReturn ("platform_account " +:+ itoa a +:+ " not found")
  | Some account =>
      let youtube := bool_decide (acc_Platform account = PlatformYouTube) in
      if youtube && (bool_decide (acc_Status account = AccountStatusReauthRequired) ||
                     bool_decide (is_Some (acc_ReauthRequiredAt account)))
      then markBlockedAuthAndReturn youtubeReauthReason
      else if negb (cap_async (capabilities D (acc_Platform account))) then mret (false, false)
      else if negb (cap_oauth (capabilities D (acc_Platform account))) then
        markFailedAndReturn ("platform " +:+ quote (acc_Platform account) +:+ " missing OAuth capability")
      else
        renewed ← try (renew_token account);
        match renewed with
        | inl er =>
            if youtube && errors_is er "ErrYouTubeInvalidGrant" then
              _ ← markYouTubeGrantReauth D account;
              markBlockedAuthAndReturn youtubeReauthReason
            else markFailedAndReturn "token refresh failed"
        | inr token => poll account token
        end
  end.
(* 366-387 ReconcileWorker.reconcileTarget *)
Definition reconcileTarget : W (bool * bool) :=
  t ← get_target;
  claimed ← map_err (wrap ("claim publishing target " +:+ itoa (ID t)))
              (on_store (ClaimPublishingTarget (ID t) workerID reconcileLeaseTTL));
  if negb claimed then mret (false, false)
  else deferred reconcile_claimed (on_store (ReleaseReconcileTarget (ID t) workerID)).

(** ** One tick *)
(* 314-334 ReconcileWorker.tickReconcile *)
Fixpoint reconcile_loop (publishing : list PostTarget) (reconciled failed : nat) : W (nat * nat) :=
  match publishing with
  | [] => mret (reconciled, failed)
  | t :: rest =>
      _ ← set_target t;
      r ← try reconcileTarget;
      match r with
      | inl _ => reconcile_loop rest reconciled (S failed)
      | inr (ok, wasFailed) =>
          reconcile_loop rest (if (ok : bool) then S reconciled else reconciled)
            (if (wasFailed : bool) then S failed else failed)
      end
  end.
(* 305-336 ReconcileWorker.tickReconcile *)
Definition tickReconcile : W (nat * nat) :=
  publishing ← map_err (wrap "list publishing") (on_store (ListPublishing reconcilePollingBatchSize));
  reconcile_loop publishing 0 0.
(* 280-286 ReconcileWorker.repairDirtyAggregates *)
Fixpoint repair_loop (postIDs : list Z) (repaired : nat) : M PostDB nat :=
  match postIDs with
  | [] => mret repaired
  | postID :: rest =>
      _ ← map_err (wrap ("repair dirty aggregate post " +:+ itoa postID))
            (RepairDirtyAggregatePost postID);
      repair_loop rest (S repaired)
  end.
(* 274-288 ReconcileWorker.repairDirtyAggregates *)
Definition repairDirtyAggregates : M PostDB nat :=
  postIDs ← map_err (wrap "list dirty aggregate posts")
              (ListDirtyAggregatePostIDs dirtyAggregateRepairBatchSize);
  repair_loop postIDs 0.
(* 260-272 ReconcileWorker.runOnce *)
Definition runOnce : W unit :=
  _ ← try (on_store repairDirtyAggregates);
  _ ← try tickReconcile;
  mret tt.
End Worker.
