(* ===== verification/ReconcileProps.v ===== *)
(** * What is proved about the reconcile worker

    A replica without the reconcile lease does nothing to a target; a poll that
    owns it gives the lease back and leaves the target finished or scheduled;
    transient failures end in the dead letter queue. *)

From S2P Require Import Prelude Store PostModel Backoff PostStore PostStoreProps GoError ErrorClass.
From S2P Require Import PostReads PublishWorker PublishWorkerProps PublishSettle ReconcileWorker.
From Stdlib Require Import ZArith Lia.
Local Open Scope Z_scope.

(** ** Statements that match no row *)
Lemma update_targets_none sel f e db :
  (∀ k t, targets db !! k = Some t → sel k t = false) → update_targets sel f e db = (O, db).
Proof.
  intros H. unfold update_targets.
  assert (E : List.filter (λ kt, sel kt.1 kt.2) (map_to_list (targets db)) = []).
  { destruct (List.filter _ _) as [|[k t] l] eqn:E; [done|].
    assert (Hin : In (k, t) ((k, t) :: l)) by (by left). rewrite <- E in Hin.
    apply filter_In in Hin as [Hk%list_elem_of_In%elem_of_map_to_list Hs]. simpl in Hs.
    by rewrite (H k t Hk) in Hs. }
  rewrite E. simpl. f_equal. unfold enqueue_post_aggregate_repair. simpl.
  destruct db as [ps ts ds ob a b]. simpl in *. unfold with_dirty, with_targets. simpl. f_equal.
  - apply map_eq. intros k. rewrite map_lookup_imap. destruct (ts !! k) as [t|] eqn:Et; [|done].
    simpl. by rewrite (H k t Et).
  - apply map_union_empty.
Qed.

Lemma update_targets_ext sel sel' f e db :
  (∀ k t, sel k t = sel' k t) → update_targets sel f e db = update_targets sel' f e db.
Proof.
  intros H. unfold update_targets.
  rewrite (filter_ext _ (λ kt, sel' kt.1 kt.2)) by (intros kt; apply H).
  do 2 f_equal. unfold with_targets. f_equal. apply map_eq. intros k. rewrite !map_lookup_imap.
  destruct (targets db !! k); simpl; by rewrite ?H.
Qed.

(** A computation that, from this store, fails and leaves it alone, whatever
    the database answers. *)
Definition refused {A} (e : Env) (db : PostDB) (m : M PostDB A) : Prop :=
  ∀ n, (∃ er, result_of (m e (db, n)) = inl er) ∧ state_of (m e (db, n)) = db.
Definition reads {A} (e : Env) (db : PostDB) (m : M PostDB A) : Prop :=
  ∀ n, state_of (m e (db, n)) = db.

Section refused.
Context (e : Env) (db : PostDB).
Lemma refused_throw {A} er : refused e db (throw er : M PostDB A).
Proof. intros n. split; [by exists er|done]. Qed.
Lemma refused_bind {A B} (m : M PostDB A) (k : A → M PostDB B) :
  reads e db m → (∀ a, refused e db (k a)) → refused e db (m ≫= k).
Proof.
  intros Hm Hk n. specialize (Hm n). unfold mbind, M_bind, result_of, state_of in *.
  destruct (m e (db, n)) as [[er|a] [s1 n1]]; simpl in *; subst; [split; [by exists er|done]|].
  apply Hk.
Qed.
Lemma refused_left {A B} (m : M PostDB A) (k : A → M PostDB B) :
  refused e db m → refused e db (m ≫= k).
Proof.
  intros H n. destruct (H n) as [[er Her] Hs]. unfold mbind, M_bind, result_of, state_of in *.
  destruct (m e (db, n)) as [r w]. simpl in *. subst r. split; [by exists er|done].
Qed.
Lemma refused_exec {A B} op (f : Env → PostDB → A * PostDB) a (k : A → M PostDB B) :
  f e db = (a, db) → refused e db (k a) → refused e db (exec op f ≫= k).
Proof.
  intros Hf Hk n. unfold mbind, M_bind, exec, result_of, state_of. rewrite Hf.
  destruct (fault e n); simpl; [apply Hk|split; [by eexists|done]..].
Qed.
Lemma refused_transact {A} op (body : M PostDB (TxOut A)) :
  refused e db body → refused e db (transact op body).
Proof.
  intros H n. unfold transact, result_of, state_of.
  destruct (fault e n); [|split; [by eexists|done]..].
  destruct (H (S n)) as [[er Her] _]. unfold result_of in Her.
  destruct (body e (db, S n)) as [r [s' n']]. simpl in Her. subst r. split; [by exists er|done].
Qed.
Lemma reads_exec {A} op (f : Env → PostDB → A * PostDB) : (f e db).2 = db → reads e db (exec op f).
Proof.
  intros H n. unfold exec, state_of. destruct (fault e n); [|done|done].
  by destruct (f e db).
Qed.
Lemma reads_respects {A} (m : M PostDB A) : respects eq m → reads e db m.
Proof. intros H n. symmetry. apply H. Qed.
End refused.

(** ** The reconcile lease *)
Lemma exec_reconcile_refused op what id w f e db :
  f e db = (O, db) → refused e db (exec_reconcile op what id w f).
Proof.
  intros H. unfold exec_reconcile. eapply refused_exec; [done|].
  unfold rows_affected. eapply refused_exec; [done|]. apply refused_throw.
Qed.

(** [w] may not write row [id]: somebody else holds it, or nobody. *)
Definition not_mine (e : Env) (w : string) (id : Z) (db : PostDB) : Prop :=
  ∀ t, targets db !! id = Some t → reconcile_live w (db_now e) t = false.
(** Row [id] cannot be claimed: it is not due, or a lease on it is live, or it
    is locked. *)
Definition not_claimable (e : Env) (id : Z) (db : PostDB) : Prop :=
  ∀ t, targets db !! id = Some t → reconcile_due (db_now e) t = false ∨ Store.held e id = true.
Lemma row_false id p db : (∀ t, targets db !! id = Some t → p t = false) →
  ∀ k t, targets db !! k = Some t → row id p k t = false.
Proof.
  intros H k t Ht. unfold row. destruct (Z.eqb_spec k id) as [->|]; [|done]. by apply H.
Qed.

Section fencing.
Context (e : Env) (w : string) (id : Z) (db : PostDB).
Lemma heartbeat_refused ttl :
  not_mine e w id db → refused e db (HeartbeatReconcileTarget id w ttl).
Proof.
  intros H. unfold HeartbeatReconcileTarget. destruct (validateReconcileLease w ttl);
    [apply refused_throw|].
  apply exec_reconcile_refused, update_targets_none. by apply row_false.
Qed.
Lemma release_refused : not_mine e w id db → refused e db (ReleaseReconcileTarget id w).
Proof.
  intros H. unfold ReleaseReconcileTarget. case_bool_decide; [apply refused_throw|].
  apply exec_reconcile_refused, update_targets_none. by apply row_false.
Qed.
Lemma schedule_refused attempt next inc code msg : not_mine e w id db →
  refused e db (ScheduleNextReconcileWithLease id w attempt next inc code msg).
Proof.
  intros H. unfold ScheduleNextReconcileWithLease. repeat case_match; try apply refused_throw.
  apply exec_reconcile_refused, update_targets_none, row_false. intros t Ht.
  by rewrite (H t Ht), andb_false_r.
Qed.
#[local] Hint Extern 1 (respects eq (exec _ _)) => (apply respects_exec; [apply _|by intros]) : respects.
Lemma update_refused u : u_ID u = id → not_mine e w id db →
  refused e db (UpdateReconcileStatusWithLease (Some u) w).
Proof.
  intros Hu H. unfold UpdateReconcileStatusWithLease. case_bool_decide; [apply refused_throw|].
  apply refused_transact, refused_left.
  apply refused_bind; [apply reads_respects; unfold postIDForTargetTx; respects_tac|]. intros p.
  apply refused_bind; [apply reads_respects; unfold lockTargetTx; respects_tac|]. intros _.
  apply refused_bind; [apply reads_respects; unfold lockPostTx; respects_tac|]. intros _.
  unfold exec_status. case_match; [|apply refused_left, refused_throw].
  eapply refused_exec; [apply update_targets_none, row_false; by rewrite Hu|].
  unfold rows_affected. eapply refused_exec; [done|]. apply refused_throw.
Qed.
Lemma claim_refused ttl n : not_claimable e id db →
  state_of (ClaimPublishingTarget id w ttl e (db, n)) = db ∧
  ∀ b, result_of (ClaimPublishingTarget id w ttl e (db, n)) = inr b → b = false.
Proof.
  intros H. unfold ClaimPublishingTarget. destruct (validateReconcileLease w ttl) as [er|sec]; [done|].
  assert (Hf : qClaimPublishingTargetSelect id w sec e db = (O, db)).
  { apply update_targets_none. intros k t Ht. destruct (Z.eqb_spec k id) as [->|Hne].
    - unfold row. destruct (H t Ht) as [Hd|Hh]; [by rewrite Hd, andb_false_r|].
      by rewrite Hh, andb_false_r.
    - unfold row. by rewrite (proj2 (Z.eqb_neq k id) Hne). }
  unfold mbind, M_bind, exec, state_of, result_of. rewrite Hf.
  destruct (fault e n); simpl; [|done..]. split; [done|]. intros b [= <-]. done.
Qed.
End fencing.

(** ** One poll on a database that answers *)
Lemma spec_outside_answer e D {A} P ev (answer : list Event → A) E :
  quiet D → spec e P (outside D ev answer) (λ a db t, P db t ∧ ∃ h, a = answer h) E.
Proof. intros Q s n Hs. unfold outside. simpl. rewrite Q. split; [done|by eexists]. Qed.

(** The rows the three statements leave. *)
Definition finish_row (u : TargetUpdate) (now : Z) (t : TargetRow) : TargetRow :=
  with_retry (with_last_error (u_LastErrorCode u) (t_retry t))
    (write_provider u
       (if bool_decide (u_Status u ∈ ["failed"; "dlq"; "blocked_auth"]) then
          match completed_at (t_provider t) with Some c => Some c | None => Some now end
        else completed_at (t_provider t))
       (with_reconcile_lease None None None (with_status (u_Status u) t))).
Definition wait_row (next : Z) (increment : bool) (errorCode errorMessage : string) (t : TargetRow) :
    TargetRow :=
  let q := t_retry t in
  with_retry (mkRetryState (attempt_count q) (next_attempt_at q) (next_retry_at q)
      (if bool_decide (errorCode = "RATE_LIMITED") then Some next else rate_limit_reset_at q)
      (if bool_decide (errorCode = "") then last_error_code q else Some errorCode))
    (with_error_message
       (if bool_decide (errorMessage = "") then error_message (t_provider t) else Some errorMessage)
       (with_reconcile (mkReconcileState None None None
          (reconcile_attempt (t_reconcile t) + (if increment then 1 else 0)) next) t)).
Definition free_row (t : TargetRow) : TargetRow := with_reconcile_lease None None None t.
Definition published_copy (mediaID : string) (now : Z) (t : PostTarget) : PostTarget :=
  with_PublishedAt now (with_PlatformPostID mediaID
    (with_ProviderState "PUBLISH_COMPLETE" (with_Status PostStatusPublished t))).

(** What a poll of an answer does to the row: the counters it reports and the
    row it leaves, from the row [t] that was listed. *)
Section answer.
Context (app db : Z) (platform : string) (id : Z) (t : TargetRow).
Let tgt := scanned_publishing (id, t).
Definition delay_of (er : GoErr) : Z :=
  if RetryAfterFromError er <=? 0 then reconcileBackoffForAttempt (reconcile_attempt (t_reconcile t))
  else RetryAfterFromError er.
Definition rate_limited (er : GoErr) : bool := bool_decide (Kind (ClassifyError er) = ErrorKindRateLimited).
Definition answered (ans : GoErr + option PublishResult) : (bool * bool) * TargetRow :=
  let in_flight := ((false, false), wait_row
    (app + reconcileBackoffForAttempt (reconcile_attempt (t_reconcile t))) false "" "" t) in
  match ans with
  | inr None => in_flight
  | inr (Some res) =>
      if bool_decide (PlatformMediaID res = "") then in_flight
      else ((true, false), finish_row (update_of (published_copy (PlatformMediaID res) app tgt)) db t)
  | inl er =>
      if rate_limited er then
        ((false, false), wait_row (app + delay_of er) false "RATE_LIMITED" (Error er) t)
      else if isPermanentReconcileError er then
        ((true, true), finish_row (update_of (failed_copy ("publish failed: " +:+ Error er) tgt)) db t)
      else if 4 <=? reconcile_attempt (t_reconcile t) then
        ((true, true), finish_row (update_of (dead_copy ("publish retry budget exhausted after 5" +:+
           " transient failures: " +:+ Error er) tgt)) db t)
      else ((false, false), wait_row (app + delay_of er) true "RECONCILE_TRANSIENT" (Error er) t)
  end.
End answer.

Lemma backoff_bounds a : 5 * Second ≤ reconcileBackoffForAttempt a ≤ 120 * Second.
Proof.
  unfold reconcileBackoffForAttempt. change (length reconcileBackoffSchedule) with 5%nat.
  assert (H : ∀ k, (k < 5)%nat → 5 * Second ≤ nth k reconcileBackoffSchedule 0 ≤ 120 * Second).
  { intros k Hk. do 5 (destruct k as [|k]; [vm_compute; split; discriminate|]). lia. }
  destruct (Z.ltb_spec a 0); cbv zeta; [by apply (H 0%nat); lia|].
  destruct (Z.leb_spec (Z.of_nat 5) a); apply H; lia.
Qed.
Lemma delay_positive t er : 0 < delay_of t er.
Proof.
  unfold delay_of. destruct (Z.leb_spec (RetryAfterFromError er) 0); [|lia].
  pose proof (backoff_bounds (reconcile_attempt (t_reconcile t))). unfold Second in *. lia.
Qed.

Section poll.
Context (D : Deps) (w : string) (id : Z) (t0 : TargetRow) (db0 : PostDB) (e : Env).
Context (reconcile : list Event → string → string → GoErr + option PublishResult).
Context (Hquiet : quiet D) (Hrel : reliable e) (Hw : w ≠ "") (Hnow : 0 < app_now e).
Context (Hattempt : 0 ≤ reconcile_attempt (t_reconcile t0)).
Context (Hstatus : t_status t0 = "publishing") (Hpost : has_platform_post t0 = true).
#[local] Notation tgt := (scanned_publishing (id, t0)).
#[local] Notation r1 :=
  (with_reconcile_lease (Some w) (Some (db_now e + 60 * Second)) (Some (db_now e)) t0).

(** Row [id] is [r], the others are as they were. *)
Definition at_row (r : TargetRow) : PostDB → Prop := λ db,
  good db ∧ frame id db0 db ∧ targets db !! id = Some r.
Definition holding : Assertion := λ db t, at_row r1 db ∧ t = tgt.
Definition left_as (P : TargetRow → Prop) : Assertion := λ db t,
  ID t = id ∧ ∃ r, at_row r db ∧ P r.

Lemma r1_live : reconcile_live w (db_now e) r1 = true.
Proof using Hstatus.
  unfold reconcile_live. simpl. rewrite bool_decide_eq_true_2 by done. simpl.
  rewrite andb_true_iff. split; [unfold Second; lia|]. by apply bool_decide_eq_true_2.
Qed.
Lemma finish_live u : reconcile_live w (db_now e) (finish_row u (db_now e) t0) = false.
Proof. done. Qed.
Lemma at_row_written r r' db db' : at_row r db → good db' →
  targets db' = <[id := r']> (targets db) → at_row r' db'.
Proof.
  intros (_ & Hf & _) Hg E. split; [done|]. split.
  - intros k Hk. rewrite E, lookup_insert_ne by done. by apply Hf.
  - by rewrite E, lookup_insert_eq.
Qed.

(** *** The statements *)
Lemma terminal_run u db n : at_row r1 db → u_ID u = id → u_Status u ∈ post_status_labels →
  known_status (u_Status u) = true → u_Status u ≠ "publishing" →
  ∃ db' n', UpdateReconcileStatusWithLease (Some u) w e (db, n) = (inr tt, (db', n')) ∧
    at_row (finish_row u (db_now e) t0) db'.
Proof using Hrel Hw Hstatus.
  intros Hat Hid Hlab Hknown Hpub. pose proof Hat as (Hg & Hf & Hr).
  set (f := λ t, finish_row u (db_now e) t).
  destruct (row_persist e Hrel id (reconcile_live w (db_now e)) f db r1 Hg Hr r1_live
    (λ _, eq_refl) Hknown (S (S (S (S (S (S n))))))) as (db' & n' & Hrun & Hwr).
  exists db', (S n'). split.
  - unfold UpdateReconcileStatusWithLease. rewrite bool_decide_eq_false_2 by done.
    apply tx_run; [done|]. rewrite Hid. erewrite bind_run by (by eapply parent_run).
    erewrite bind_run by (by eapply lock_target_run). erewrite bind_run by (by eapply lock_post_run).
    erewrite bind_run by (unfold exec_status; cbn [forallb]; rewrite bool_decide_eq_true_2 by done;
      cbn [andb]; rewrite exec_fine by done; reflexivity).
    erewrite bind_run by (by rewrite rows_fine).
    unfold qUpdateTargetStatusWithReconcileLease. rewrite Hid.
    rewrite bool_decide_eq_false_2; [exact Hrun|]. eapply row_update_nonzero; [exact Hr|apply r1_live].
  - destruct Hwr as [Hg' E]. eapply at_row_written; [exact Hat|done|]. rewrite E. f_equal.
    rewrite reset_id by (left; done). done.
Qed.
Lemma wait_run next inc code msg db n : at_row r1 db → 0 < next →
  ∃ db' n', ScheduleNextReconcileWithLease id w (reconcile_attempt (t_reconcile t0)) next inc code msg
      e (db, n) = (inr tt, (db', n')) ∧ at_row (wait_row next inc code msg t0) db'.
Proof using Hrel Hw Hstatus Hpost Hattempt.
  intros Hat Hnext. pose proof Hat as (Hg & Hf & Hr).
  unfold ScheduleNextReconcileWithLease. rewrite bool_decide_eq_false_2 by done.
  rewrite (proj2 (Z.ltb_ge _ _) Hattempt). rewrite (proj2 (Z.eqb_neq next 0)) by lia.
  set (p := λ t, (reconcile_attempt (t_reconcile t) =? reconcile_attempt (t_reconcile t0)) &&
    has_platform_post t && reconcile_live w (db_now e) t).
  assert (Hp : p r1 = true).
  { unfold p. rewrite r1_live, andb_true_r. simpl. rewrite Z.eqb_refl. exact Hpost. }
  eexists _, _. split.
  - unfold exec_reconcile. erewrite bind_run by (by apply exec_fine).
    erewrite bind_run by (by apply rows_fine). rewrite bool_decide_eq_false_2; [reflexivity|].
    eapply update_targets_hit; [exact Hr|]. apply row_spec. by split.
  - destruct (row_update_written e id p (wait_row next inc code msg) db r1 Hg Hr Hp (λ _, eq_refl))
      as [Hg' E]; [simpl; by rewrite Hstatus|].
    eapply at_row_written; [exact Hat|exact Hg'|]. etrans; [exact E|]. f_equal.
    by rewrite reset_id by (right; done).
Qed.
(** *** The steps *)
Lemma spec_pre {A} P P' (m : W A) Q E :
  spec e P' m Q E → (∀ db t, P db t → P' db t) → spec e P m Q E.
Proof using Type. intros H HP. by eapply spec_weaken; [exact H|..]. Qed.
Lemma spec_reads {A} P (m : M PostDB A) : respects eq m →
  spec e P (on_store m) (λ _, P) P.
Proof using Type.
  intros Hm s n Hs. specialize (Hm e (w_store s) n). unfold on_store. simpl. unfold state_of in Hm.
  destruct (m e (w_store s, n)) as [[er|a] [db n']]; simpl in *; by subst.
Qed.
Lemma FindByID_reads i : respects eq (FindByID i).
Proof using Type. unfold FindByID. respects_tac; apply respects_exec; [apply _|by intros]. Qed.
Lemma sync_error_spec P E : spec e P (syncContentPackageState D) (λ _, P) E.
Proof using Hquiet.
  unfold syncContentPackageState. eapply spec_bind; [apply spec_get|]. intros t.
  eapply spec_pre with (P' := P); [|by intros ?? [_ ?]].
  case_match; [by apply spec_ret|].
  eapply spec_bind; [apply spec_try, spec_reads, FindByID_reads|]. intros [er|[p|]]; simpl;
    [by apply spec_ret| |by apply spec_ret].
  case_match; [by apply spec_outside|by apply spec_ret].
Qed.
Definition written_as (r : TargetRow) : Assertion := λ db t, ID t = id ∧ at_row r db.
Lemma terminal_spec u E : u_ID u = id → u_Status u ∈ post_status_labels →
  known_status (u_Status u) = true → u_Status u ≠ "publishing" →
  spec e (λ db t, at_row r1 db ∧ ID t = id) (on_store (UpdateReconcileStatusWithLease (Some u) w))
    (λ _, written_as (finish_row u (db_now e) t0)) E.
Proof using Hrel Hw Hstatus.
  intros Hid Hlab Hk Hp. apply spec_store. intros db t n [Hat Ht].
  destruct (terminal_run u db n Hat Hid Hlab Hk Hp) as (db' & n' & Hrun & Hat').
  exists tt, db', n'. split; [exact Hrun|]. by split.
Qed.
Lemma spec_get_holding E : spec e holding get_target (λ t db t', holding db t' ∧ t = tgt) E.
Proof using Type. intros s n [Hat Ht]. split; [by split|done]. Qed.
Lemma spec_ask_pure P E : spec e P ask (λ e' db t, P db t ∧ e' = e) E.
Proof using Type. intros s n Hs. by split. Qed.
Lemma write_copy_spec what f E : (∀ t, ID (f t) = ID t) → Status (f tgt) ∈ post_status_labels →
  known_status (Status (f tgt)) = true → Status (f tgt) ≠ "publishing" →
  spec e holding (write_copy D w what f)
    (λ res db t, written_as (finish_row (update_of (f tgt)) (db_now e) t0) db t ∧ res = (true, true)) E.
Proof using Hquiet Hrel Hw Hstatus.
  intros Hf Hlab Hk Hp. unfold write_copy. eapply spec_bind; [apply spec_get_holding|]. intros t.
  apply spec_pure. intros ->. eapply spec_bind.
  { apply spec_map_err. eapply spec_pre; [apply (terminal_spec (update_of (f tgt))); simpl; [by rewrite Hf|done..]|].
    by intros db t [Hat ->]. }
  intros []. eapply spec_bind with (Q := λ _, written_as (finish_row (update_of (f tgt)) (db_now e) t0)).
  { intros s n [_ Hat]. split; [cbn; by rewrite Hf|exact Hat]. }
  intros []. eapply spec_bind; [apply sync_error_spec|]. intros []. by apply spec_ret.
Qed.
Lemma complete_spec mediaID E :
  spec e holding (complete D w mediaID)
    (λ res db t, written_as (finish_row (update_of (published_copy mediaID (app_now e) tgt))
                   (db_now e) t0) db t ∧ res = (true, false)) E.
Proof using Hquiet Hrel Hw Hstatus.
  unfold complete. eapply spec_bind; [apply spec_ask_pure|]. intros e'. apply spec_pure. intros ->.
  eapply spec_bind with (Q := λ _ db t, at_row r1 db ∧ t = published_copy mediaID (app_now e) tgt).
  { apply spec_modify. by intros db t [Hat ->]. }
  intros []. eapply spec_bind with (Q := λ u db t, (at_row r1 db ∧ ID t = id) ∧
    u = published_copy mediaID (app_now e) tgt).
  { intros s n [Hat Ht]. simpl. by rewrite Ht. }
  intros u. apply spec_pure. intros ->. eapply spec_bind.
  { apply spec_map_err, terminal_spec; [done|decide_closed|done|done]. }
  intros []. eapply spec_bind; [apply sync_error_spec|]. intros []. by apply spec_ret.
Qed.
Lemma schedule_spec next inc code msg E : 0 < next →
  spec e holding (on_store (ScheduleNextReconcileWithLease id w (reconcile_attempt (t_reconcile t0))
                    next inc code msg)) (λ _, written_as (wait_row next inc code msg t0)) E.
Proof using Hrel Hw Hstatus Hpost Hattempt.
  intros Hn. apply spec_store. intros db t n [Hat ->].
  destruct (wait_run next inc code msg db n Hat Hn) as (db' & n' & Hrun & Hat').
  exists tt, db', n'. split; [exact Hrun|]. by split.
Qed.
Lemma set_target_spec R u E : ID u = id → spec e (written_as R) (set_target u) (λ _, written_as R) E.
Proof using Type. intros Hu s n [_ Hat]. by split. Qed.
Lemma clamp_tgt : clamp_attempt tgt = reconcile_attempt (t_reconcile t0).
Proof using Hattempt. unfold clamp_attempt. simpl. by rewrite (proj2 (Z.ltb_ge _ _) Hattempt). Qed.
Lemma scheduleRetry_spec er E :
  spec e holding (scheduleRetry w (RetryAfterFromError er) er)
    (λ res db t, written_as (wait_row (app_now e + delay_of t0 er) (negb (rate_limited er))
       (reconcileErrorCode er) (Error er) t0) db t ∧ res = (false, false)) E.
Proof using All.
  unfold scheduleRetry. eapply spec_bind; [apply spec_ask_pure|]. intros e'. apply spec_pure. intros ->.
  eapply spec_bind; [apply spec_get_holding|]. intros t. apply spec_pure. intros ->.
  cbv zeta. rewrite clamp_tgt. eapply spec_bind.
  { apply spec_map_err, schedule_spec. pose proof (delay_positive t0 er). unfold delay_of in *. lia. }
  intros []. eapply spec_bind; [by apply set_target_spec|]. intros []. by apply spec_ret.
Qed.
Lemma scheduleInFlight_spec E :
  spec e holding (scheduleInFlight w)
    (λ res db t, written_as (wait_row (app_now e + reconcileBackoffForAttempt
       (reconcile_attempt (t_reconcile t0))) false "" "" t0) db t ∧ res = (false, false)) E.
Proof using All.
  unfold scheduleInFlight. eapply spec_bind; [apply spec_ask_pure|]. intros e'. apply spec_pure. intros ->.
  eapply spec_bind; [apply spec_get_holding|]. intros t. apply spec_pure. intros ->.
  cbv zeta. rewrite clamp_tgt. pose proof (backoff_bounds (reconcile_attempt (t_reconcile t0))) as Hb.
  destruct (Z.ltb_spec reconcileBackoffCap (reconcileBackoffForAttempt
    (reconcile_attempt (t_reconcile t0)))) as [H|_]; [unfold reconcileBackoffCap, Second in *; lia|].
  eapply spec_bind; [apply spec_map_err, schedule_spec; unfold Second in *; lia|].
  intros []. eapply spec_bind; [by apply set_target_spec|]. intros []. by apply spec_ret.
Qed.
(** *** The poll *)
#[local] Notation answer_of ans := (answered (app_now e) (db_now e) id t0 ans).
Definition answered_as (res : bool * bool) (x : (bool * bool) * TargetRow) : Assertion := λ db t,
  written_as x.2 db t ∧ res = x.1.
Lemma answered_error er :
  answer_of (inl er) =
    if negb (rate_limited er) && isPermanentReconcileError er then
      ((true, true), finish_row (update_of (failed_copy ("publish failed: " +:+ Error er) tgt)) (db_now e) t0)
    else if negb (rate_limited er) && (4 <=? reconcile_attempt (t_reconcile t0)) then
      ((true, true), finish_row (update_of (dead_copy ("publish retry budget exhausted after 5" +:+
           " transient failures: " +:+ Error er) tgt)) (db_now e) t0)
    else ((false, false), wait_row (app_now e + delay_of t0 er) (negb (rate_limited er))
           (reconcileErrorCode er) (Error er) t0).
Proof using Type.
  unfold answered, reconcileErrorCode, rate_limited. simpl Kind. by case_bool_decide.
Qed.
Lemma poll_spec account token E :
  spec e holding (poll D w reconcile account token)
    (λ res db t, ∃ h, answered_as res
       (answer_of (reconcile h token (PlatformPostID tgt))) db t) E.
Proof using All.
  unfold poll. eapply spec_bind; [apply spec_get_holding|]. intros t. apply spec_pure. intros ->.
  eapply spec_bind; [by apply spec_outside_answer|]. intros ans. apply spec_pure. intros [h ->].
  assert (Hweak : ∀ x m, answer_of (reconcile h token (PlatformPostID tgt)) = x →
    spec e holding m (λ res, answered_as res x) E →
    spec e holding m (λ res db t, ∃ h, answered_as res
       (answer_of (reconcile h token (PlatformPostID tgt))) db t) E).
  { intros x m Hx Hm. eapply spec_weaken; [exact Hm|done| |done]. intros res db t Hr. exists h.
    by rewrite Hx. }
  destruct (reconcile h token (PlatformPostID tgt)) as [er|[res|]].
  - pose proof (answered_error er) as Hans.
    change (bool_decide (Kind (ClassifyErrorFor (acc_Platform account) "reconcile" er) = ErrorKindRateLimited))
      with (rate_limited er).
    change (reconcileMaxAttempts - 1 <=? ReconcileAttempt tgt)
      with (4 <=? reconcile_attempt (t_reconcile t0)).
    destruct (negb (rate_limited er) && isPermanentReconcileError er);
      [|destruct (negb (rate_limited er) && (4 <=? reconcile_attempt (t_reconcile t0)))];
      (eapply Hweak; [exact Hans|]).
    + apply write_copy_spec; [|decide_closed|done|done]. intros t. unfold failed_copy. by case_match.
    + apply (write_copy_spec "dlq"); [done|decide_closed|done|done].
    + apply scheduleRetry_spec.
  - simpl. case_bool_decide as Hid.
    + eapply Hweak; [simpl; by rewrite bool_decide_eq_true_2|apply scheduleInFlight_spec].
    + eapply Hweak; [simpl; by rewrite bool_decide_eq_false_2|apply complete_spec].
  - eapply Hweak; [done|apply scheduleInFlight_spec].
Qed.

Inductive ended : bool * bool → TargetRow → Prop :=
| ended_failed reason :
    ended (true, true) (finish_row (update_of (failed_copy reason tgt)) (db_now e) t0)
| ended_blocked :
    ended (true, true) (finish_row (update_of (blocked_copy youtubeReauthReason tgt)) (db_now e) t0)
| ended_answer h token ans : ans = reconcile h token (PlatformPostID tgt) →
    ended (answer_of ans).1 (answer_of ans).2
| ended_idle platform : cap_async (capabilities D platform) = false →
    ended (false, false) r1.
Definition ended_with (res : bool * bool) : Assertion := λ db t, ∃ r, ended res r ∧ written_as r db t.
Definition unknown_account : Assertion := λ db t,
  holding db t ∧ ∃ h er, find_account D h (t_account t0) = inl er.

Lemma renew_spec P account : spec e P (renew_token D account) (λ _, P) P.
Proof using Hquiet.
  unfold renew_token. case_bool_decide; [by apply RenewYouTubeToken_spec|].
  eapply spec_bind; [apply spec_try; by apply spec_outside_err|].
  intros [er|token]; [|by apply spec_ret]. destruct (errors_is _ _); [by apply spec_outside_err|].
  by apply spec_throw.
Qed.
Lemma terminal_ended what f E : (∀ t, ID (f t) = ID t) → Status (f tgt) ∈ post_status_labels →
  known_status (Status (f tgt)) = true → Status (f tgt) ≠ "publishing" →
  ended (true, true) (finish_row (update_of (f tgt)) (db_now e) t0) →
  spec e holding (write_copy D w what f) ended_with E.
Proof using Hquiet Hrel Hw Hstatus.
  intros Hf Hlab Hk Hp Hend. eapply spec_weaken; [by apply (write_copy_spec what f E)|done| |done].
  intros res db t [Hr ->]. by eexists.
Qed.
Lemma failed_ended reason E : spec e holding (markFailedAndReturn D w reason) ended_with E.
Proof using Hquiet Hrel Hw Hstatus.
  apply terminal_ended; [|decide_closed|done|done|apply ended_failed].
  intros t. unfold failed_copy. by case_match.
Qed.
Lemma blocked_ended E : spec e holding (markBlockedAuthAndReturn D w youtubeReauthReason) ended_with E.
Proof using Hquiet Hrel Hw Hstatus.
  apply terminal_ended; [done|decide_closed|done|done|apply ended_blocked].
Qed.
Lemma poll_ended account token E : spec e holding (poll D w reconcile account token) ended_with E.
Proof using All.
  eapply spec_weaken; [apply poll_spec|done| |done]. intros res db t (h & Hr & ->).
  eexists. split; [by eapply ended_answer|exact Hr].
Qed.
Lemma find_account_spec a : a = t_account t0 →
  spec e holding (outside_err D (CallFindAccount a) (λ h, find_account D h a)) (λ _, holding)
    unknown_account.
Proof using Hquiet.
  intros ->. unfold outside_err. eapply spec_bind; [by apply spec_outside_answer|].
  intros [er|o].
  - apply spec_throw. intros db t [Hh [h Ha]]. split; [exact Hh|]. by exists h, er.
  - apply spec_ret. by intros db t [Hh _].
Qed.
Lemma reconcile_claimed_spec :
  spec e holding (reconcile_claimed D w reconcile) ended_with unknown_account.
Proof using All.
  unfold reconcile_claimed. eapply spec_bind; [apply spec_get_holding|]. intros t.
  apply spec_pure. intros ->. cbv zeta. eapply spec_bind; [by apply spec_map_err, find_account_spec|].
  intros [account|]; [|apply failed_ended].
  destruct (_ && (_ || _)); [apply blocked_ended|].
  destruct (cap_async (capabilities D (acc_Platform account))) eqn:Ha; simpl negb; cbv iota.
  2:{ apply spec_ret. intros db t [Hat ->]. exists r1. split; [by eapply ended_idle|by split]. }
  destruct (negb (cap_oauth _)); [apply failed_ended|].
  eapply spec_bind; [apply spec_try, renew_spec|]. intros [er|token]; [|apply poll_ended].
  destruct (_ && _); [|apply failed_ended].
  eapply spec_bind; [by apply (grant_reauth_spec D e Hquiet holding)|]. intros []. apply blocked_ended.
Qed.
(** On a platform where everything up to the poll works. *)
Definition pollable (account : PlatformAccount) : Prop :=
  (∀ h, find_account D h (t_account t0) = inr (Some account)) ∧
  acc_Platform account ≠ PlatformYouTube ∧
  cap_async (capabilities D (acc_Platform account)) = true ∧
  cap_oauth (capabilities D (acc_Platform account)) = true ∧
  (∀ h, ∃ token, vault_renew D h (acc_ID account) "bearer" = inr token).
Lemma reconcile_pollable_spec account : pollable account →
  spec e holding (reconcile_claimed D w reconcile)
    (λ res db t, ∃ h token, answered_as res
       (answer_of (reconcile h token (PlatformPostID tgt))) db t) (λ _ _, False).
Proof using All.
  intros (Hfind & Hyt & Hasync & Hoauth & Hrenew).
  unfold reconcile_claimed. eapply spec_bind; [apply spec_get_holding|]. intros t.
  apply spec_pure. intros ->. cbv zeta.
  eapply spec_bind with (Q := λ o db t, holding db t ∧ o = Some account).
  { apply spec_map_err. eapply spec_bind; [by apply spec_outside_answer|]. intros r.
    apply spec_pure. intros [h ->]. change (PlatformAccountID tgt) with (t_account t0).
    rewrite Hfind. by apply spec_ret. }
  intros o. apply spec_pure. intros ->. rewrite (bool_decide_eq_false_2 (_ = PlatformYouTube)) by done.
  simpl andb. cbv iota. rewrite Hasync, Hoauth. simpl negb. cbv iota.
  eapply spec_bind with (Q := λ r db t, holding db t ∧ ∃ token, r = inr token).
  { unfold renew_token. rewrite (bool_decide_eq_false_2 (_ = PlatformYouTube)) by done.
    intros s n Hs. unfold vault_Renew, outside_err, outside, try, mbind, M_bind.
    destruct (Hrenew (calls s)) as [token Ht]. cbn. rewrite Ht. cbn. rewrite Hquiet. split; [done|].
    by exists token. }
  intros r. apply spec_pure. intros [token ->].
  eapply spec_weaken; [apply (poll_spec account token (λ _ _, False))|done| |done].
  intros res db t' (h & Hr). by exists h, token.
Qed.

(** *** The claim and the release *)
Lemma claim_spec db n : good db → targets db !! id = Some t0 → frame id db0 db →
  reconcile_due (db_now e) t0 = true → Store.held e id = false →
  ∃ db' n', ClaimPublishingTarget id w reconcileLeaseTTL e (db, n) = (inr true, (db', n')) ∧
    at_row r1 db'.
Proof using Hrel Hw Hstatus.
  intros Hg Ht Hf Hdue Hheld. unfold ClaimPublishingTarget, validateReconcileLease.
  rewrite bool_decide_eq_false_2 by done. simpl.
  set (f := with_reconcile_lease (Some w) (Some (db_now e + 60 * Second)) (Some (db_now e))).
  set (p := λ t, reconcile_due (db_now e) t && negb (Store.held e id)).
  assert (Hp : p t0 = true) by (unfold p; by rewrite Hdue, Hheld).
  assert (Hupd : qClaimPublishingTargetSelect id w 60 e db = update_targets (row id p) f e db).
  { apply update_targets_ext. intros k t. unfold row, p. by destruct (Z.eqb_spec k id) as [->|]. }
  destruct (row_update_written e id p f db t0 Hg Ht Hp) as [Hg' E]; [done|simpl; by rewrite Hstatus|].
  eexists _, _. split.
  - erewrite bind_run by (apply exec_fine; exact Hrel).
    rewrite bool_decide_eq_false_2; [reflexivity|]. change (lease_seconds reconcileLeaseTTL) with 60. rewrite Hupd.
    eapply update_targets_hit; [exact Ht|]. apply row_spec. by split.
  - change (lease_seconds reconcileLeaseTTL) with 60. rewrite Hupd. cbn [fst snd].
    rewrite reset_id in E by (by right). split; [exact Hg'|]. split; [|by rewrite E, lookup_insert_eq].
    intros k Hk. rewrite E, lookup_insert_ne by done. by apply Hf.
Qed.
Definition released (r : TargetRow) : TargetRow := free_row r.
Lemma ended_released res r : ended res r → r = r1 ∨
  reconcile_live w (db_now e) r = false ∧ released r = r.
Proof using Type.
  intros [reason| |h token ans Ha|platform Hp]; [by right..| |by left]. right.
  unfold answered. destruct ans as [er|[res'|]]; simpl; repeat case_match; by split.
Qed.
Lemma free_spec r : spec e (written_as r) (on_store (ReleaseReconcileTarget id w))
  (λ _, written_as (released r)) (λ db t, written_as r db t ∧ reconcile_live w (db_now e) r = false).
Proof using Hrel Hw.
  intros s n [Hid Hat]. pose proof Hat as (Hg & Hf & Hr).
  destruct (reconcile_live w (db_now e) r) eqn:Hlive.
  - set (run := update_targets (row id (reconcile_live w (db_now e))) released e (w_store s)).
    assert (Hrun : ∃ n', ReleaseReconcileTarget id w e (w_store s, n) = (inr tt, (run.2, n'))).
    { unfold ReleaseReconcileTarget, exec_reconcile. rewrite bool_decide_eq_false_2 by done.
      eexists. erewrite bind_run by (apply exec_fine; exact Hrel).
      erewrite bind_run by (by apply rows_fine). rewrite bool_decide_eq_false_2; [reflexivity|].
      eapply update_targets_hit; [exact Hr|]. apply row_spec. by split. }
    destruct Hrun as [n' Hrun]. unfold on_store. cbn [fst snd]. rewrite Hrun. split; [done|].
    destruct (row_update_written e id (reconcile_live w (db_now e)) released (w_store s) r Hg Hr Hlive)
      as [Hg' E']; [done|simpl; by eapply Hg|].
    eapply at_row_written; [exact Hat|exact Hg'|]. etrans; [exact E'|]. by rewrite reset_id by (by right).
  - destruct (release_refused e w id (w_store s)) with (n := n) as [[er Her] Hst].
    { intros t Ht. by simplify_eq. }
    unfold on_store, result_of, state_of in *. cbn [fst snd].
    destruct (ReleaseReconcileTarget id w e (w_store s, n)) as [r' [db' n']]. simpl in *. subst.
    by split.
Qed.
Lemma deferred_spec {A B} P (body : W A) (cleanup : W B) Q E Q' E' :
  spec e P body Q E → (∀ a, spec e (Q a) cleanup (λ _, Q' a) (Q' a)) →
  spec e E cleanup (λ _, E') E' → spec e P (deferred body cleanup) Q' E'.
Proof using Type.
  intros Hb Hq He. unfold deferred. eapply spec_bind; [by apply spec_try|]. intros [er|a].
  - eapply spec_bind with (Q := λ _, E').
    + eapply spec_weaken; [apply spec_try, He|done| |done]. by intros [].
    + intros _. by apply spec_throw.
  - eapply spec_bind with (Q := λ _, Q' a).
    + eapply spec_weaken; [apply spec_try, Hq|done| |done]. by intros [].
    + intros _. by apply spec_ret.
Qed.

(** *** The whole run *)
Lemma claimed_run s n : good (w_store s) → targets (w_store s) !! id = Some t0 → w_target s = tgt →
  frame id db0 (w_store s) → reconcile_due (db_now e) t0 = true → Store.held e id = false →
  ∃ s' n', holding (w_store s') (w_target s') ∧
    reconcileTarget D w reconcile e (s, n) =
    deferred (reconcile_claimed D w reconcile) (on_store (ReleaseReconcileTarget id w)) e (s', n').
Proof using Hrel Hw Hstatus.
  intros Hg Ht Hs Hf Hdue Hheld.
  destruct (claim_spec (w_store s) n Hg Ht Hf Hdue Hheld) as (db' & n' & Hrun & Hat).
  exists (mkWorld db' (w_target s) (w_calls s) (w_cache s)), n'. split; [by split|].
  unfold reconcileTarget, mbind, M_bind, get_target, map_err, on_store. cbn [fst snd]. rewrite Hs.
  change (ID tgt) with id. by rewrite Hrun.
Qed.
Definition given_back : Assertion := written_as (free_row t0).
Lemma deferred_run :
  spec e holding (deferred (reconcile_claimed D w reconcile) (on_store (ReleaseReconcileTarget id w)))
    (λ res db t, ∃ r, ended res r ∧ written_as (released r) db t)
    (λ db t, given_back db t ∧ ∃ h er, find_account D h (t_account t0) = inl er).
Proof using All.
  eapply deferred_spec; [apply reconcile_claimed_spec| |].
  - intros res s n (r & Hend & Hr). pose proof (free_spec r s n Hr) as H.
    destruct (on_store _ e (s, n)) as [[er|[]] [s' n']]; [|by exists r].
    destruct H as [H Hlive]. exists r. split; [done|].
    destruct (ended_released res r Hend) as [->|[_ ->]]; [by rewrite r1_live in Hlive|done].
  - intros s n [[Hat Ht] Hex]. pose proof (free_spec r1 s n) as H.
    destruct (on_store _ e (s, n)) as [[er|[]] [s' n']].
    + destruct H as [_ H]; [split; [by rewrite Ht|exact Hat]|]. by rewrite r1_live in H.
    + split; [|exact Hex]. apply H. split; [by rewrite Ht|exact Hat].
Qed.
Lemma pollable_run account : pollable account →
  spec e holding (deferred (reconcile_claimed D w reconcile) (on_store (ReleaseReconcileTarget id w)))
    (λ res db t, ∃ h token, written_as
       (released (answer_of (reconcile h token (PlatformPostID tgt))).2) db t)
    (λ _ _, False).
Proof using All.
  intros Hp. eapply deferred_spec; [by apply (reconcile_pollable_spec account)| |by intros s n []].
  intros res s n (h & token & Hr & ->). pose proof (free_spec _ s n Hr) as H.
  assert (Hend := ended_answer h token _ eq_refl).
  destruct (on_store _ e (s, n)) as [[er|[]] [s' n']]; exists h, token; [|exact H].
  destruct H as [H Hlive].
  destruct (ended_released _ _ Hend) as [Hr1|[_ ->]]; [|exact H].
  rewrite Hr1 in Hlive. by rewrite r1_live in Hlive.
Qed.

(** What the rows say. *)
Definition finished_fact (failed : bool) (r : TargetRow) : Prop :=
  t_status r ∈ (if failed then ["failed"; "dlq"; "blocked_auth"] else ["published"]) ∧
  (t_status r = "dlq" → 4 ≤ reconcile_attempt (t_reconcile t0)) ∧
  (failed = false → published_at (t_provider r) = Some (app_now e) ∧
     ∃ h token res, reconcile h token (PlatformPostID tgt) = inr (Some res) ∧
       PlatformMediaID res ≠ "" ∧ platform_post_id (t_provider r) = Some (PlatformMediaID res)).
Definition scheduled_fact (r : TargetRow) : Prop :=
  t_status r = "publishing" ∧ app_now e < next_reconcile_at (t_reconcile r) ∧
  platform_post_id (t_provider r) = platform_post_id (t_provider t0) ∧
  (reconcile_attempt (t_reconcile r) = reconcile_attempt (t_reconcile t0) ∨
   reconcile_attempt (t_reconcile r) = reconcile_attempt (t_reconcile t0) + 1 ∧
     reconcile_attempt (t_reconcile r) ≤ 4).
Definition outcome_fact (res : err + (bool * bool)) (r : TargetRow) : Prop :=
  reconcile_owner_id (t_reconcile r) = None ∧
  match res with
  | inr (true, failed) => finished_fact failed r
  | inr (false, failed) => failed = false ∧
      (scheduled_fact r ∨ r = free_row t0 ∧ ∃ p, cap_async (capabilities D p) = false)
  | inl _ => r = free_row t0 ∧ ∃ h er, find_account D h (t_account t0) = inl er
  end.
Lemma wait_fact next inc code msg : app_now e < next →
  (inc = true → reconcile_attempt (t_reconcile t0) < 4) →
  scheduled_fact (released (wait_row next inc code msg t0)).
Proof using Hstatus.
  intros Hn Hi. split; [done|]. split; [done|]. split; [done|]. simpl.
  destruct inc; [right; specialize (Hi eq_refl)|left]; lia.
Qed.
Lemma ended_fact res r : ended res r → outcome_fact (inr res) (released r).
Proof using Hstatus Hattempt.
  intros [reason| |h token ans Ha|platform Hp].
  - split; [done|]. split; [decide_closed|]. by split.
  - split; [done|]. split; [decide_closed|]. by split.
  - destruct ans as [er|[res'|]]; [rewrite answered_error| |].
    + pose proof (delay_positive t0 er) as Hd.
      destruct (negb (rate_limited er) && isPermanentReconcileError er);
        [split; [done|]; split; [decide_closed|]; by split|].
      destruct (negb (rate_limited er)) eqn:Hl; simpl andb; cbv iota;
        [destruct (Z.leb_spec 4 (reconcile_attempt (t_reconcile t0))) as [H4|H4]|].
      * split; [done|]. split; [decide_closed|]. by split.
      * split; [done|]. split; [done|]. left. apply wait_fact; [lia|done].
      * split; [done|]. split; [done|]. left. apply wait_fact; [lia|done].
    + simpl. case_bool_decide as Hid.
      * split; [done|]. split; [done|]. left. apply wait_fact; [|done].
        pose proof (backoff_bounds (reconcile_attempt (t_reconcile t0))). unfold Second in *. lia.
      * split; [done|]. split; [decide_closed|]. split; [done|]. intros _. split; [done|].
        by exists h, token, res'.
    + split; [done|]. split; [done|]. left. apply wait_fact; [|done].
      pose proof (backoff_bounds (reconcile_attempt (t_reconcile t0))). unfold Second in *. lia.
  - split; [done|]. split; [done|]. right. split; [done|]. by exists platform.
Qed.
End poll.

(** The reconcile lease.  While one replica's lease on a target is live, a
    run of [reconcileTarget] by another replica asks nobody anything and
    changes nothing, and its heartbeat, its release, its schedule and its
    terminal write are refused and change nothing, whatever the database
    answers. *)
Theorem reconcile_lease_protects (D : Deps) (owner w : string)
    (reconcile : list Event → string → string → GoErr + option PublishResult) (id : Z)
    (t : TargetRow) (e : Env) (s : World) (n : nat)
    (Ht : targets (w_store s) !! id = Some t) (Hs : ID (w_target s) = id)
    (Hlive : reconcile_live owner (db_now e) t = true) (Hother : w ≠ owner) :
  state_of (reconcileTarget D w reconcile e (s, n)) = s ∧
  (∀ ttl, refused e (w_store s) (HeartbeatReconcileTarget id w ttl)) ∧
  refused e (w_store s) (ReleaseReconcileTarget id w) ∧
  (∀ attempt next inc code msg, refused e (w_store s)
     (ScheduleNextReconcileWithLease id w attempt next inc code msg)) ∧
  (∀ u, u_ID u = id → refused e (w_store s) (UpdateReconcileStatusWithLease (Some u) w)).
Proof.
  unfold reconcile_live in Hlive. apply andb_true_iff in Hlive as [Hlive _].
  apply andb_true_iff in Hlive as [Ho%bool_decide_eq_true Hu].
  destruct (reconcile_until (t_reconcile t)) as [u|] eqn:Eu; [|done]. apply Z.ltb_lt in Hu.
  assert (Hnot : not_mine e w id (w_store s)).
  { intros t' Ht'. simplify_eq. unfold reconcile_live. rewrite Ho.
    rewrite bool_decide_eq_false_2; [done|]. congruence. }
  assert (Hclaim : not_claimable e id (w_store s)).
  { intros t' Ht'. simplify_eq. left. unfold reconcile_due. rewrite Ho, Eu.
    by rewrite (proj2 (Z.leb_gt u (db_now e)) Hu), andb_false_r. }
  split; [|split; [|split; [|split]]]; intros;
    [|by apply heartbeat_refused|by apply release_refused|by apply schedule_refused|by eapply update_refused].
  destruct (claim_refused e w id (w_store s) reconcileLeaseTTL n Hclaim) as [Hst Hres].
  unfold reconcileTarget, mbind, M_bind, get_target, map_err, on_store, state_of, result_of in *.
  cbn [fst snd]. rewrite Hs.
  destruct (ClaimPublishingTarget id w reconcileLeaseTTL e (w_store s, n)) as [[er|b] [db n']];
    cbn in *; subst; [by destruct s|]. rewrite (Hres b eq_refl). cbn. by destruct s.
Qed.

(** A target that can be polled. *)
Definition pollable_row (e : Env) (id : Z) (t : TargetRow) (s : World) : Prop :=
  good (w_store s) ∧ targets (w_store s) !! id = Some t ∧
  w_target s = scanned_publishing (id, t) ∧ reconcile_due (db_now e) t = true ∧
  Store.held e id = false ∧ 0 ≤ reconcile_attempt (t_reconcile t).
Lemma due_facts now t : reconcile_due now t = true →
  t_status t = "publishing" ∧ has_platform_post t = true ∧ next_reconcile_at (t_reconcile t) ≤ now.
Proof.
  unfold reconcile_due. rewrite !andb_true_iff. intros [[[Hs Hp] Hn] _].
  apply bool_decide_eq_true in Hs. by apply Z.leb_le in Hn.
Qed.


(** ** Transient failures end *)
(** One round: the row is listed and polled. *)
Definition poll_round (D : Deps) (w : string)
    (reconcile : list Event → string → string → GoErr + option PublishResult) (id : Z) (e : Env)
    (s : World) : World :=
  match targets (w_store s) !! id with
  | None => s
  | Some t => state_of (reconcileTarget D w reconcile e
      (mkWorld (w_store s) (scanned_publishing (id, t)) (w_calls s) (w_cache s), O))
  end.
Definition poll_rounds (D : Deps) (w : string)
    (reconcile : list Event → string → string → GoErr + option PublishResult) (id : Z)
    (es : list Env) (s : World) : World := foldl (λ s e, poll_round D w reconcile id e s) s es.
(** A failure that says nothing about the remote publication. *)
Definition transient (er : GoErr) : Prop :=
  rate_limited er = false ∧ isPermanentReconcileError er = false.
(** Moments at which the database answers and the target is due again, when no
    delay is longer than [gap]. *)
Fixpoint spaced (id gap from : Z) (es : list Env) : Prop :=
  match es with
  | [] => True
  | e :: es => from ≤ db_now e ∧ 0 < app_now e ∧ reliable e ∧ Store.held e id = false ∧
               spaced id gap (app_now e + gap) es
  end.
Lemma spaced_from id gap from from' es : from' ≤ from → spaced id gap from es → spaced id gap from' es.
Proof. destruct es as [|e es]; [done|]. intros H (H1 & H2). split; [lia|done]. Qed.

(** A target between two polls: publishing, with a remote id, not leased. *)
Definition in_flight (id a next : Z) (account_id : Z) (s : World) : Prop := good (w_store s) ∧
  ∃ t, targets (w_store s) !! id = Some t ∧ t_status t = "publishing" ∧ has_platform_post t = true ∧
    reconcile_owner_id (t_reconcile t) = None ∧ reconcile_attempt (t_reconcile t) = a ∧
    next_reconcile_at (t_reconcile t) ≤ next ∧ t_account t = account_id.
Definition dead (id : Z) (s : World) : Prop :=
  ∃ t, targets (w_store s) !! id = Some t ∧ t_status t = "dlq" ∧
       last_error_code (t_retry t) = Some "RECONCILE_RETRY_EXHAUSTED".

Section rounds.
Context (D : Deps) (w : string) (id gap : Z) (account : PlatformAccount) (account_id : Z).
Context (reconcile : list Event → string → string → GoErr + option PublishResult).
Context (Hquiet : quiet D) (Hw : w ≠ "").
Context (Hfind : ∀ h, find_account D h account_id = inr (Some account)).
Context (Hyt : acc_Platform account ≠ PlatformYouTube).
Context (Hasync : cap_async (capabilities D (acc_Platform account)) = true).
Context (Hoauth : cap_oauth (capabilities D (acc_Platform account)) = true).
Context (Hrenew : ∀ h, ∃ token, vault_renew D h (acc_ID account) "bearer" = inr token).
Context (Hfails : ∀ h token p, ∃ er, reconcile h token p = inl er ∧ transient er ∧
                    RetryAfterFromError er ≤ gap).
Context (Hgap : 120 * Second ≤ gap).

Lemma round_step a next e s : 0 ≤ a → next ≤ db_now e → 0 < app_now e → reliable e →
  Store.held e id = false → in_flight id a next account_id s →
  let s' := poll_round D w reconcile id e s in
  if 4 <=? a then dead id s' else in_flight id (a + 1) (app_now e + gap) account_id s'.
Proof using All.
  intros Ha Hnext Hnow Hrel Hheld (Hg & t & Ht & Hst & Hpp & Hown & Hatt & Hn & Hacc). cbv zeta.
  unfold poll_round. rewrite Ht.
  set (s1 := mkWorld _ _ _ _).
  assert (Hdue : reconcile_due (db_now e) t = true).
  { unfold reconcile_due, at_status. rewrite Hst, Hpp, Hown. simpl.
    rewrite !andb_true_r. apply Z.leb_le. lia. }
  assert (Ha' : 0 ≤ reconcile_attempt (t_reconcile t)) by lia.
  destruct (claimed_run D w id t (w_store s1) e reconcile Hrel Hw Hst s1 O Hg Ht eq_refl (λ _ _, eq_refl)
    Hdue Hheld) as (s2 & n2 & Hh & Hrun). rewrite Hrun.
  assert (Hp : pollable D t account) by (split; [by rewrite Hacc|by repeat split]).
  pose proof (pollable_run D w id t (w_store s1) e reconcile Hquiet Hrel Hw Hnow Ha' Hst Hpp account Hp
    s2 n2 Hh) as H. unfold state_of.
  destruct (deferred _ _ e (s2, n2)) as [[er|res] [s3 n3]]; [done|]. cbn.
  destruct H as (h & token & _ & Hgood & Hf & Hr).
  destruct (Hfails h token (PlatformPostID (scanned_publishing (id, t)))) as (er & Her & [Hl Hperm] & Hra).
  rewrite Her, answered_error, Hl, Hperm in Hr. simpl negb in Hr. simpl andb in Hr. cbv iota in Hr.
  rewrite Hatt in Hr. destruct (4 <=? a).
  - eexists. split; [exact Hr|]. by split.
  - split; [exact Hgood|]. eexists. split; [exact Hr|]. simpl. repeat split; try done.
    + by rewrite Hatt.
    + unfold delay_of. pose proof (backoff_bounds (reconcile_attempt (t_reconcile t))).
      destruct (_ <=? 0); lia.
Qed.
Lemma rounds_dead a next es s : 0 ≤ a ≤ 4 → Z.of_nat (length es) = 5 - a → spaced id gap next es →
  in_flight id a next account_id s → dead id (poll_rounds D w reconcile id es s).
Proof using All.
  revert a next s. induction es as [|e es IH]; intros a next s Ha Hlen; [simpl in Hlen; lia|].
  intros (Hn & Hnow & Hrel & Hheld & Hsp) Hfl. simpl.
  pose proof (round_step a next e s (proj1 Ha) Hn Hnow Hrel Hheld Hfl) as H. cbv zeta in H.
  destruct (Z.leb_spec 4 a).
  - destruct es; [exact H|simpl in Hlen; lia].
  - eapply (IH (a + 1)); [lia|simpl in Hlen; lia|exact Hsp|exact H].
Qed.
End rounds.


(** ** A target in flight *)
Definition async_caps : Capabilities := mkCapabilities true true true true false false false.
Definition async_deps : Deps :=
  let D := sample_deps in mkDeps
  (sha256_hex D) (find_account D) (λ _, async_caps) (vault_renew D) (page_token D) (validate_binding D)
  (canary_upload D) (yt_lookup D) (update_privacy D) (get_video D) (translate D) (describe D)
  (throttle_wait D) (resolve_upload D) (publish D) (delivery_registry D)
  (head_size D) (range_size D) (url_base D) (deliver D) (package_sync D) (drive_folder_env D)
  (json_tags D) (json_translation_enabled D) (json_source_language D) (json_snapshot D)
  (json_package D) (json_folder_id D) (json_canary D) (peers D).
Definition accepted_history : history :=
  [(sample_env 100, OpCreate direct_post sample_targets);
   (sample_env 200, OpClaimQueuedTargetWithLease 1 "p" Minute);
   (sample_env 300, OpUpdateStatusWithLease
      (Some (mkTargetUpdate 1 "publishing" "remote" "" None "" "" "")) "p")].
Definition accepted_store : PostDB := run_history accepted_history empty_db.
Definition accepted_row : TargetRow := default sample_row (targets accepted_store !! 1).
Definition accepted_world : World :=
  mkWorld accepted_store (scanned_publishing (1, accepted_row)) [] ∅.
Lemma accepted_good : good accepted_store.
Proof.
  split.
  - apply sample_ok. repeat split; try (left; vm_compute; reflexivity); vm_compute; reflexivity.
  - assert (H : map_Forall (λ _ t, known_status (t_status t) = true) (targets accepted_store)).
    { apply (bool_decide_unpack _). vm_compute. exact I. }
    exact H.
Qed.
Definition leased_store : PostDB :=
  run_history (accepted_history ++ [(sample_env 400, OpClaimPublishingTarget 1 "a" Minute)]) empty_db.
Lemma reconcile_lease_protects_witness :
  let s := mkWorld leased_store (scanned_publishing (1, accepted_row)) [] ∅ in
  state_of (reconcileTarget async_deps "b" (λ _ _ _, inr None) (sample_env 500) (s, O)) = s.
Proof.
  intros s.
  destruct (targets leased_store !! 1) as [t|] eqn:Ht; [|vm_compute in Ht; discriminate].
  assert (Hlive : option_map (reconcile_live "a" 500) (targets leased_store !! 1) = Some true)
    by (vm_compute; reflexivity).
  rewrite Ht in Hlive. injection Hlive as Hlive.
  exact (proj1 (reconcile_lease_protects async_deps "a" "b" (λ _ _ _, inr None) 1 t (sample_env 500) s O
    Ht eq_refl Hlive ltac:(discriminate))).
Defined.

Lemma accepted_pollable : pollable_row (sample_env 400) 1 accepted_row accepted_world.
Proof.
  split; [exact accepted_good|]. split; [vm_compute; reflexivity|]. split; [reflexivity|].
  split; [vm_compute; reflexivity|]. split; [reflexivity|]. vm_compute. discriminate.
Qed.

(** A provider that is down. *)
Definition outage (_ : list Event) (_ _ : string) : GoErr + option PublishResult :=
  inl (leaf (DNew "connection reset by peer")).
Definition outage_moments : list Env :=
  (λ k, sample_env (400 + k * (200 * Second))) <$> [0; 1; 2; 3; 4].

(** Stopping the worker while it waits for the provider spends an attempt: a
    cancelled context is neither permanent nor free. *)
Example cancelled_poll_counts :
  let cancelled := λ (_ : list Event) (_ _ : string),
    (inl (leaf DCanceled) : GoErr + option PublishResult) in
  let run := reconcileTarget async_deps "w" cancelled (sample_env 400) (accepted_world, O) in
  (λ t, (reconcile_attempt (t_reconcile t), last_error_code (t_retry t))) <$>
    targets (w_store (state_of run)) !! 1 = Some (1, Some "RECONCILE_TRANSIENT").
Proof. vm_compute. reflexivity. Qed.
