(* ===== verification/MediaAssets.v ===== *)
(** * Media assets: the repository and the resolver

    [src/internal/repository/asset_repo.go] keeps one row per stored object;
    [src/internal/services/media_resolver.go] turns the media reference of a post
    into a fresh signed URL.  The resolver sees the repository through the class
    [MediaAssetStore], the interface of the same name.

    PostgreSQL's reading of a UUID is an argument.  The foreign key of a row to
    its user is not modelled.  NULL in [error_message] reads as the empty
    string, here as in the queries. *)

From S2P Require Import Prelude Store PostModel PostReads GoError.
From S2P Require Codec Storage.
From Stdlib Require Import ZArith Lia SpecFloat.
Local Open Scope Z_scope.

(** ** The row *)
(* Source: internal/models/asset.go *)
Definition MediaAssetStatusPending : string := "pending". (* 24 *)
Definition MediaAssetStatusReady : string := "ready". (* 25 *)
Definition MediaAssetStatusFailed : string := "failed". (* 26 *)
Definition MediaAssetStatusExpired : string := "expired". (* 27 *)
(* 31-41 MediaAssetStatus.IsValid *)
Definition IsValid (s : string) : bool :=
  bool_decide (s ∈ [MediaAssetStatusPending; MediaAssetStatusReady; MediaAssetStatusFailed;
                    MediaAssetStatusExpired]).
(** The columns that ffprobe fills. *)
(* 100-107 MediaAsset *)
Record ProbeColumns := mkProbeColumns {
  DurationSeconds : option spec_float;
  Width : option Z;
  Height : option Z;
  FPS : option spec_float;
  HasAudio : option bool;
  VideoCodec : string;
  AudioCodec : string;
  ProbedAt : option Z
}.
(** [bucket] is nullable in the table and a string in the struct. *)
(* 78-108 MediaAsset *)
Record MediaAssetOf (B : Type) := mkMediaAsset {
  ID : string;
  UserID : Z;
  UploadKey : string;
  Bucket : B;
  ContentType : string;
  SizeBytes : Z;
  Status : string;
  SHA256 : string;
  ErrorMessage : string;
  ExpiresAt : Z;
  CreatedAt : Z;
  UpdatedAt : Z;
  probe : ProbeColumns
}.
Arguments mkMediaAsset {B}.
Arguments ID {B}.
Arguments UserID {B}.
Arguments UploadKey {B}.
Arguments Bucket {B}.
Arguments ContentType {B}.
Arguments SizeBytes {B}.
Arguments Status {B}.
Arguments SHA256 {B}.
Arguments ErrorMessage {B}.
Arguments ExpiresAt {B}.
Arguments CreatedAt {B}.
Arguments UpdatedAt {B}.
Arguments probe {B}.
Definition MediaAsset := MediaAssetOf string.
Definition AssetRow := MediaAssetOf (option string).
(* Source: internal/models/media_probe.go *)
(* 11-20 MediaProbe *)
Record MediaProbe := mkMediaProbe {
  mp_DurationSeconds : spec_float;
  mp_Width : Z;
  mp_Height : Z;
  mp_FPS : spec_float;
  mp_HasAudio : bool;
  mp_VideoCodec : string;
  mp_AudioCodec : string;
  mp_ProbedAt : Z
}.

Record AssetDB := mkAssetDB {
  assets : gmap string AssetRow;
  asset_workspaces : WorkspaceDB;
  members : gset (Z * Z)   (* workspace_members: workspace, user *)
}.
Definition put_assets (t : gmap string AssetRow) (db : AssetDB) : AssetDB :=
  mkAssetDB t (asset_workspaces db) (members db).

(** ** Reading rows *)
(* Source: internal/repository/asset_repo.go *)
Definition ErrMediaAssetSHARequired : err := (* 27 *)
  sentinel "ErrMediaAssetSHARequired"
    ("media asset sha256 is required (Task 6/10 enforcement; empty SHA was the legacy 'no SHA recorded' " +:+
     "sentinel and is no longer accepted on fresh MarkReady calls)").
(* Source: internal/repository/errors.go *)
Definition ErrMediaAssetNotFound : err := (* 88 *)
  sentinel "ErrMediaAssetNotFound" "media asset not found".
(* Source: internal/repository/asset_repo.go *)
(** [Scan] refuses NULL for a string. *)
(* 81-97 scanMediaAsset *)
Definition scanMediaAsset (r : AssetRow) : err + MediaAsset :=
  match Bucket r with
  | None => inl (errors_new ("sql: Scan error on column index 3, name " +:+ quote "bucket" +:+
                             ": converting NULL to string is unsupported"))
  | Some b => inr (mkMediaAsset (ID r) (UserID r) (UploadKey r) b (ContentType r) (SizeBytes r) (Status r)
                     (SHA256 r) (ErrorMessage r) (ExpiresAt r) (CreatedAt r) (UpdatedAt r) (probe r))
  end.
Fixpoint scan_rows (rows : list AssetRow) : err + list MediaAsset :=
  match rows with
  | [] => inr []
  | r :: rows' => match scanMediaAsset r with
                  | inl er => inl er
                  | inr a => match scan_rows rows' with inl er => inl er | inr l => inr (a :: l) end
                  end
  end.
Definition of_sum {S A} (f : err → err) (r : err + A) : M S A :=
  match r with inl er => throw (f er) | inr a => mret a end.
(** One row or none; the scan is part of the statement. *)
Definition query_row (op : string) (f : Env → AssetDB → option AssetRow) : M AssetDB (option MediaAsset) :=
  o ← exec op (λ e db, (f e db, db));
  match o with
  | None => mret None
  | Some r => a ← of_sum (wrap op) (scanMediaAsset r); mret (Some a)
  end.
Definition all_rows (db : AssetDB) : list AssetRow := (map_to_list (assets db)).*2.
Definition find_row (p : AssetRow → bool) (db : AssetDB) : option AssetRow :=
  head (List.filter p (all_rows db)).
(** The owner of the workspace or one of its members. *)
(* 289-297 FindForPost *)
Definition visible (workspaceID : Z) (db : AssetDB) (userID : Z) : bool :=
  match asset_workspaces db !! workspaceID with
  | None => false
  | Some w => (ws_OwnerID w =? userID) || bool_decide ((workspaceID, userID) ∈ members db)
  end.
(* 123-125 ListReadyByUser *)
Definition ready_live (e : Env) (a : AssetRow) : bool :=
  bool_decide (Status a = MediaAssetStatusReady) && (db_now e <? ExpiresAt a).

Section UUID.
(** PostgreSQL's [uuid] input: the canonical text, or none. *)
Context (uuid_in : string → option string).
(* 99-108 MediaAssetRepository.FindByID *)
Definition FindByID (id : string) : M AssetDB (option MediaAsset) :=
  match uuid_in id with
  | None => throw (db_err "failed to find media asset by id")
  | Some u => query_row "failed to find media asset by id" (λ _ db, assets db !! u)
  end.
(* 283-288 FindForPost *)
Definition for_post (assetID bucket key : string) (a : AssetRow) : bool :=
  (if bool_decide (assetID = "") then negb (bool_decide (key = "")) && bool_decide (UploadKey a = key)
   else bool_decide (uuid_in assetID = Some (ID a))) &&
  (bool_decide (bucket = "") || bool_decide (Bucket a = Some bucket)) &&
  (bool_decide (key = "") || bool_decide (UploadKey a = key)).
(** The cast of the id is evaluated before any row is looked at. *)
(* 273-304 MediaAssetRepository.FindForPost *)
Definition FindForPost (workspaceID : Z) (assetID bucket key : string) : M AssetDB (option MediaAsset) :=
  if workspaceID <=? 0 then
    throw (errors_new ("find media asset for post: invalid workspace id " +:+ itoa workspaceID))
  else if negb (bool_decide (assetID = "")) && bool_decide (uuid_in assetID = None) then
    throw (db_err "failed to find owned media asset for post")
  else query_row "failed to find owned media asset for post" (λ _ db,
         find_row (λ a, for_post assetID bucket key a && visible workspaceID db (UserID a)) db).
(* 308-334 MediaAssetRepository.FindByUploadKey *)
Definition FindByUploadKey (workspaceID : Z) (key : string) : M AssetDB (option MediaAsset) :=
  if (workspaceID <=? 0) || bool_decide (key = "") then mret None
  else query_row "failed to find owned media asset by upload_key" (λ _ db,
         find_row (λ a, bool_decide (UploadKey a = key) && visible workspaceID db (UserID a)) db).

(** ** Lists *)
Definition newest (x y : AssetRow) : bool :=
  (CreatedAt y <? CreatedAt x) || ((CreatedAt x =? CreatedAt y) && String.leb (ID x) (ID y)).
Definition newest_desc (x y : AssetRow) : bool :=
  (CreatedAt y <? CreatedAt x) || ((CreatedAt x =? CreatedAt y) && String.leb (ID y) (ID x)).
(* 114-145 MediaAssetRepository.ListReadyByUser *)
Definition ListReadyByUser (userID limit : Z) : M AssetDB (list MediaAsset) :=
  if userID <=? 0 then throw (errors_new ("list media assets: invalid user id " +:+ itoa userID))
  else
    let limit := if (limit <=? 0) || (500 <? limit) then 100 else limit in
    rows ← exec "list media assets" (λ e db,
      (take (Z.to_nat limit) (sort_by newest
         (List.filter (λ a, (UserID a =? userID) && ready_live e a) (all_rows db))), db));
    of_sum (wrap "scan media asset") (scan_rows rows).
(** [(created_at, id) < ($3, $4)]. *)
(* 167 ListReadyByUserPage *)
Definition after_position (after : option Z) (afterID : string) (a : AssetRow) : bool :=
  match after with
  | None => true
  | Some t => (CreatedAt a <? t) ||
              ((CreatedAt a =? t) && String.leb (ID a) afterID && negb (bool_decide (ID a = afterID)))
  end.
(* 149-192 MediaAssetRepository.ListReadyByUserPage *)
Definition ListReadyByUserPage (userID : Z) (after : option Z) (afterID : string) (limit : Z) :
    M AssetDB (list MediaAsset * bool) :=
  if userID <=? 0 then throw (errors_new ("list media assets: invalid user id " +:+ itoa userID))
  else
    let limit := clamp_limit limit in
    rows ← exec "list paginated media assets" (λ e db,
      (take (Z.to_nat (limit + 1)) (sort_by newest_desc
         (List.filter (λ a, (UserID a =? userID) && ready_live e a && after_position after afterID a)
            (all_rows db))), db));
    result ← of_sum (wrap "scan paginated media asset") (scan_rows rows);
    let hasMore := limit <? Z.of_nat (length result) in
    mret (if hasMore then take (Z.to_nat limit) result else result, hasMore).
(* 201-241 MediaAssetRepository.ListVisibleInWorkspace *)
Definition ListVisibleInWorkspace (workspaceID : Z) (mediaIDs : list string) : M AssetDB (list MediaAsset) :=
  if workspaceID <=? 0 then
    throw (errors_new ("list visible media assets: invalid workspace id " +:+ itoa workspaceID))
  else match mediaIDs with
  | [] => mret []
  | _ =>
      if existsb (λ id, bool_decide (uuid_in id = None)) mediaIDs then
        throw (db_err "list visible media assets")
      else
        rows ← exec "list visible media assets" (λ e db,
          (sort_by newest (List.filter (λ a, bool_decide (Some (ID a) ∈ uuid_in <$> mediaIDs) &&
              ready_live e a && visible workspaceID db (UserID a)) (all_rows db)), db));
        of_sum (wrap "scan visible media asset") (scan_rows rows)
  end.

(** ** Writes *)
(** [id] is what [gen_random_uuid()] returns.  Both keys are unique. *)
(* 50-69 MediaAssetRepository.Create *)
Definition Create (id : string) (asset : MediaAsset) : M AssetDB MediaAsset :=
  let status := if bool_decide (Status asset = "") then MediaAssetStatusPending else Status asset in
  if negb (IsValid status) then
    throw (errors_new ("invalid media asset status: " +:+ quote status))
  else
    let row (e : Env) := mkMediaAsset id (UserID asset) (UploadKey asset) (Some (Bucket asset))
      (ContentType asset) (SizeBytes asset) status (SHA256 asset) "" (ExpiresAt asset) (db_now e)
      (db_now e) (mkProbeColumns None None None None None "" "" None) in
    r ← exec "failed to create media asset" (λ e db,
      if bool_decide (is_Some (assets db !! id)) ||
         bool_decide (is_Some (find_row (λ a, bool_decide (UploadKey a = UploadKey asset)) db))
      then (None, db) else (Some (db_now e), put_assets (<[id := row e]> (assets db)) db));
    match r with
    | None => throw (db_err "failed to create media asset")
    | Some t => mret (mkMediaAsset id (UserID asset) (UploadKey asset) (Bucket asset) (ContentType asset)
        (SizeBytes asset) status (SHA256 asset) (ErrorMessage asset) (ExpiresAt asset) t t (probe asset))
    end.
Definition set_asset (content : string) (size : Z) (status sha message : string) (updated : Z)
    (pc : ProbeColumns) (a : AssetRow) : AssetRow :=
  mkMediaAsset (ID a) (UserID a) (UploadKey a) (Bucket a) content size status sha message (ExpiresAt a)
    (CreatedAt a) updated pc.
(** [UPDATE media_assets SET f WHERE id = $n]. *)
Definition update_asset (op id : string) (f : Env → AssetRow → AssetRow) : M AssetDB nat :=
  match uuid_in id with
  | None => throw (db_err op)
  | Some u => exec op (λ e db, let '(k, t) := update_row u (λ _, true) (f e) (assets db) in
                               (k, put_assets t db))
  end.
(** [n, _ := res.RowsAffected()]: an error leaves 0. *)
Definition needs_row (op id : string) (k : nat) : M AssetDB unit :=
  r ← try (rows_affected op k);
  match r with
  | inr (S _) => mret tt
  | _ => throw (wrap_suffix ErrMediaAssetNotFound ("media asset id=" +:+ id))
  end.
(* 356-395 MediaAssetRepository.MarkReady *)
Definition MarkReady (id sha256 : string) (sizeBytes : Z) (contentType : string) : M AssetDB unit :=
  if bool_decide (sha256 = "") then
    throw (wrap_suffix ErrMediaAssetSHARequired ("media asset id=" +:+ id))
  else
    k ← update_asset "failed to mark media asset ready" id (λ e a,
          set_asset contentType sizeBytes MediaAssetStatusReady sha256 "" (app_now e) (probe a) a);
    needs_row "failed to mark media asset ready" id k.
(* 400-416 MediaAssetRepository.MarkFailed *)
Definition MarkFailed (id reason : string) : M AssetDB unit :=
  k ← update_asset "failed to mark media asset failed" id (λ e a,
        set_asset (ContentType a) (SizeBytes a) MediaAssetStatusFailed (SHA256 a) reason (app_now e) (probe a) a);
  needs_row "failed to mark media asset failed" id k.
(** The cause is for the log line. *)
(* 431-442 MediaAssetRepository.MarkFailedWithReason *)
Definition MarkFailedWithReason (id reason : string) : M AssetDB unit := MarkFailed id reason.
(* 247-264 MediaAssetRepository.SaveProbe *)
Definition SaveProbe (id : string) (p : option MediaProbe) : M AssetDB unit :=
  match p with
  | None => mret tt
  | Some p =>
      _ ← update_asset "save media probe" id (λ e a,
            set_asset (ContentType a) (SizeBytes a) (Status a) (SHA256 a) (ErrorMessage a) (mp_ProbedAt p)
              (mkProbeColumns (Some (mp_DurationSeconds p)) (Some (mp_Width p)) (Some (mp_Height p))
                 (Some (mp_FPS p)) (Some (mp_HasAudio p)) (mp_VideoCodec p) (mp_AudioCodec p)
                 (Some (mp_ProbedAt p))) a);
      mret tt
  end.
(* 447-460 MediaAssetRepository.MarkExpired *)
Definition expire (now : Z) (a : AssetRow) : AssetRow :=
  if bool_decide (Status a = MediaAssetStatusPending) && (ExpiresAt a <? now) then
    set_asset (ContentType a) (SizeBytes a) MediaAssetStatusExpired (SHA256 a) (ErrorMessage a) now (probe a) a
  else a.
(* 447-460 MediaAssetRepository.MarkExpired *)
Definition MarkExpired (now : Z) : M AssetDB Z :=
  exec "failed to mark media assets expired" (λ _ db,
    (Z.of_nat (length (List.filter (λ a, bool_decide (Status a = MediaAssetStatusPending) && (ExpiresAt a <? now))
                         (all_rows db))),
     put_assets (expire now <$> assets db) db)).
End UUID.

(** * The resolver *)
(* Source: internal/services/media_resolver.go *)
(* 60-70 MediaAssetStore *)
Class MediaAssetStore (S : Type) := {
  store_FindForPost : Z → string → string → string → M S (option MediaAsset);
  store_FindByUploadKey : Z → string → M S (option MediaAsset)
}.
(** The storage provider, at a moment; [None] when it is not bucket aware. *)
(* 46-55 ObjectGetter *)
Record ObjectGetter := mkObjectGetter {
  og_GetObject : Env → string → Z → GoErr + string;
  og_GetObjectWithBucket : option (Env → string → string → Z → GoErr + string)
}.
Definition ErrPostMissingMediaReference : GoErr := (* 78 *)
  leaf (DSentinel "ErrPostMissingMediaReference" ("media resolver: post has no resolvable media reference " +:+
    "(media_asset_id and storage_object_key are both empty)")).
Definition ErrAssetExpired : GoErr := (* 91 *)
  leaf (DSentinel "ErrAssetExpired" "media resolver: media asset expired at time of publish (re-upload required)").
Definition ErrMediaURLNoMatchingAsset : GoErr := (* 106 *)
  leaf (DSentinel "ErrMediaURLNoMatchingAsset" ("media resolver: post media_url does not map to any " +:+
    "media_assets row (legacy row; re-upload required)")).
Definition ErrBucketAwareStorageRequired : GoErr := (* 110 *)
  leaf (DSentinel "ErrBucketAwareStorageRequired"
    "media resolver: storage provider does not support explicit bucket resolution").
Definition defaultResolverTTL : Z := Hour. (* 209 *)
(** [fmt.Errorf("%w suffix", er)] and [errors.New]. *)
Definition Errorf_suffix (er : GoErr) (suffix : string) : GoErr :=
  mkGoErr (DWrap (Error er +:+ suffix)) [er].
Definition go_new (m : string) : GoErr := leaf (DNew m).
(** [strings.Cut]. *)
Fixpoint cut (sep s : string) : option (string * string) :=
  match string_prefix_drop sep s with
  | Some rest => Some ("", rest)
  | None => match s with
            | "" => None
            | String a s' => match cut sep s' with
                             | Some (x, y) => Some (String a x, y)
                             | None => None
                             end
            end
  end.
(* 175-180 stripQuery *)
Definition stripQuery (path : string) : string :=
  match cut "?" path with Some (before, _) => before | None => path end.
(* 133-170 extractUploadKeyFromMediaURL *)
Definition extractUploadKeyFromMediaURL (mediaURL : string) : string :=
  let mediaURL := TrimSpace mediaURL in
  if bool_decide (mediaURL = "") then ""
  else match cut "://" mediaURL with
  | None => trim_left ["/"] (stripQuery mediaURL)
  | Some (_, rest) =>
      match cut "/" rest with
      | None => ""
      | Some (_, pathPart) =>
          let pathPart := trim_left ["/"] (stripQuery pathPart) in
          match cut "/" pathPart with None => pathPart | Some (_, key) => key end
      end
  end.
(** The zero [time.Time]. *)
Definition zero_time : Z := -62135596800 * Second.

Section Resolver.
Context {S : Type} `{MediaAssetStore S} (storage : ObjectGetter) (wired : bool).
Notation R := (GoErr + string)%type.
(* 254-263 mediaDownloadResolver.getObjectURL *)
Definition getObjectURL (e : Env) (bucket key : string) (ttl : Z) : R :=
  if bool_decide (bucket = "") then og_GetObject storage e key ttl
  else match og_GetObjectWithBucket storage with
  | None => inl (Errorf_suffix ErrBucketAwareStorageRequired
                   (" (bucket=" +:+ quote bucket +:+ " key=" +:+ quote key +:+ ")"))
  | Some get => get e bucket key ttl
  end.
(* 214-237 mediaDownloadResolver.resolveAsset *)
Definition resolveAsset (e : Env) (asset : option MediaAsset) (ttl : Z) : R :=
  match asset with
  | None => inl (go_new "media resolver: media asset not found or not owned by post workspace")
  | Some a =>
      if negb (bool_decide (Status a = MediaAssetStatusReady)) then
        inl (go_new ("media resolver: media asset not ready (status=" +:+ Status a +:+ ")"))
      else if negb (ExpiresAt a =? zero_time) && (ExpiresAt a <? app_now e) then
        inl (Errorf_suffix ErrAssetExpired (" (asset_id=" +:+ quote (ID a) +:+ " expires_at=" +:+
               Codec.rfc3339 (ExpiresAt a) +:+ ")"))
      else if bool_decide (UploadKey a = "") then
        inl (go_new "media resolver: media asset has empty upload_key (corrupted row)")
      else
        match getObjectURL e (Bucket a) (UploadKey a) (if ttl <=? 0 then defaultResolverTTL else ttl) with
        | inl er => inl (Errorf_w ("media resolver: sign GET URL for key " +:+ quote (UploadKey a)) er)
        | inr url => inr url
        end
  end.
(* 239-252 mediaDownloadResolver.resolveAssetForPost *)
Definition resolveAssetForPost (post : Post) (assetID bucket key : string) (ttl : Z) : M S R :=
  if negb wired then mret (inl (go_new "media resolver: MediaAssetStore not wired"))
  else if post_WorkspaceID post <=? 0 then
    mret (inl (go_new "media resolver: post has no workspace ownership context"))
  else
    r ← try (store_FindForPost (post_WorkspaceID post) assetID bucket key);
    match r with
    | inl er => mret (inl (Errorf_w "media resolver: load owned asset" (of_err er)))
    | inr asset => e ← ask; mret (resolveAsset e asset ttl)
    end.
(* 283-338 mediaDownloadResolver.ResolveForUpload *)
Definition ResolveForUpload (post : option Post) (ttl : Z) : M S R :=
  match post with
  | None => mret (inl (go_new "media resolver: post is nil"))
  | Some post =>
      let str (o : option string) := default "" o in
      if negb (bool_decide (str (post_MediaAssetID post) = "")) then
        resolveAssetForPost post (str (post_MediaAssetID post)) (str (post_Bucket post))
          (str (post_StorageObjectKey post)) ttl
      else if negb (bool_decide (str (post_StorageObjectKey post) = "")) then
        resolveAssetForPost post "" (str (post_Bucket post)) (str (post_StorageObjectKey post)) ttl
      else if bool_decide (post_MediaURL post = "") then mret (inl ErrPostMissingMediaReference)
      else
        let uploadKey := extractUploadKeyFromMediaURL (post_MediaURL post) in
        if bool_decide (uploadKey = "") then mret (inl ErrPostMissingMediaReference)
        else if negb wired then mret (inl (go_new "media resolver: MediaAssetStore not wired"))
        else
          r ← try (store_FindByUploadKey (post_WorkspaceID post) uploadKey);
          match r with
          | inl er => mret (inl (Errorf_w ("media resolver: legacy fallback lookup by upload_key " +:+
                                   quote uploadKey) (of_err er)))
          | inr (Some asset) => e ← ask; mret (resolveAsset e (Some asset) ttl)
          | inr None => mret (inl (Errorf_suffix ErrMediaURLNoMatchingAsset
                                     (" (parsed_key=" +:+ quote uploadKey +:+ ")")))
          end
  end.
End Resolver.

(** ** The wiring *)
(** The repository as the resolver's store and the S3 provider as its storage. *)
(* 197-206 NewMediaDownloadResolver *)
Definition repository_store (uuid_in : string → option string) : MediaAssetStore AssetDB :=
  {| store_FindForPost := FindForPost uuid_in; store_FindByUploadKey := FindByUploadKey |}.
(* 254-263 mediaDownloadResolver.getObjectURL *)
Definition s3_getter (order : list string) (p : Storage.S3Provider) : ObjectGetter :=
  mkObjectGetter (λ e key ttl, Storage.GetObject order (app_now e) p key ttl)
    (Some (λ e bucket key ttl, Storage.GetObjectWithBucket order (app_now e) p bucket key ttl)).
(* 283-338 mediaDownloadResolver.ResolveForUpload *)
Definition ResolvePostMedia (uuid_in : string → option string) (order : list string) (p : Storage.S3Provider)
    (post : option Post) (ttl : Z) : M AssetDB (GoErr + string) :=
  @ResolveForUpload AssetDB (repository_store uuid_in) (s3_getter order p) true post ttl.
