(* ===== verification/MediaProps.v ===== *)
(** * Media references: what the resolver and the repository guarantee

    The resolver is proved against the laws of its interface, the class
    [MediaAssetStoreLaws]; the repository discharges them. *)

From S2P Require Import Prelude Store PostModel PostReads GoError MediaAssets.
From S2P Require Codec Storage.
From Stdlib Require Import ZArith Lia SpecFloat.
Local Open Scope Z_scope.

(** ** The contract of the store *)
(** [owned s ws a]: the state [s] has the asset [a] and the workspace may use it. *)
Class MediaAssetStoreLaws (S : Type) `{MediaAssetStore S} (same_id : string → MediaAsset → Prop)
    (owned : S → Z → MediaAsset → Prop) : Prop := {
  for_post_pure ws i b k : respects eq (store_FindForPost ws i b k);
  by_key_pure ws k : respects eq (store_FindByUploadKey ws k);
  for_post_found ws i b k e w a w' : store_FindForPost ws i b k e w = (inr (Some a), w') →
    owned w.1 ws a ∧ (i ≠ "" → same_id i a) ∧ (b ≠ "" → Bucket a = b) ∧ (k ≠ "" → UploadKey a = k);
  by_key_found ws k e w a w' : store_FindByUploadKey ws k e w = (inr (Some a), w') →
    owned w.1 ws a ∧ UploadKey a = k
}.

(** What the post says of its media, by the first reference it has. *)
Definition refers (same_id : string → MediaAsset → Prop) (post : Post) (a : MediaAsset) : Prop :=
  let i := default "" (post_MediaAssetID post) in
  let k := default "" (post_StorageObjectKey post) in
  let b := default "" (post_Bucket post) in
  if bool_decide (i = "" ∧ k = "") then UploadKey a = extractUploadKeyFromMediaURL (post_MediaURL post)
  else (i ≠ "" → same_id i a) ∧ (k ≠ "" → UploadKey a = k) ∧ (b ≠ "" → Bucket a = b).
(** Ready, not expired, with an object behind it. *)
Definition publishable (e : Env) (a : MediaAsset) : Prop :=
  Status a = MediaAssetStatusReady ∧ (ExpiresAt a = zero_time ∨ app_now e ≤ ExpiresAt a) ∧ UploadKey a ≠ "".

Section Contract.
Context {S : Type} `{MediaAssetStoreLaws S same_id owned} (storage : ObjectGetter) (wired : bool).
Lemma resolveAsset_inr e o ttl url : resolveAsset storage e o ttl = inr url →
  ∃ a, o = Some a ∧ publishable e a ∧
       getObjectURL storage e (Bucket a) (UploadKey a) (if ttl <=? 0 then defaultResolverTTL else ttl) = inr url.
Proof.
  unfold resolveAsset, publishable. destruct o as [a|]; [|done]. case_bool_decide; [|done]. cbn [negb].
  destruct (Z.eqb_spec (ExpiresAt a) zero_time), (Z.ltb_spec (ExpiresAt a) (app_now e)); cbn [negb andb];
    try done; (case_bool_decide; [done|]); destruct (getObjectURL _ _ _ _ _) eqn:E; try done;
    intros [= ->]; exists a; (split; [done|]); (split; [|done]); (split; [done|]); (split; [|done]);
    first [by left|right; lia].
Qed.
Lemma try_inr {A} (m : M S A) e w r w' : try m e w = (inr r, w') → m e w = (r, w').
Proof. unfold try. destruct (m e w). by intros [= -> ->]. Qed.
Lemma pure_state {A} (m : M S A) e w r w' : respects eq m → m e w = (r, w') → w'.1 = w.1.
Proof. intros Hm E. pose proof (respects_run eq m e w Hm) as P. unfold state_of in P. by rewrite E in P. Qed.
Lemma resolveAssetForPost_inr post i b k ttl e w url w' :
  resolveAssetForPost storage wired post i b k ttl e w = (inr (inr url), w') →
  ∃ a, owned w.1 (post_WorkspaceID post) a ∧ publishable e a ∧
    getObjectURL storage e (Bucket a) (UploadKey a) (if ttl <=? 0 then defaultResolverTTL else ttl) = inr url ∧
    (i ≠ "" → same_id i a) ∧ (b ≠ "" → Bucket a = b) ∧ (k ≠ "" → UploadKey a = k).
Proof using Type*.
  unfold resolveAssetForPost. destruct wired; [|done]. cbn [negb]. destruct (_ <=? 0); [done|].
  intros (r & w1 & Hr%try_inr & Hk)%bind_inr. destruct r as [er|o]; [done|].
  apply bind_inr in Hk as (e' & w2 & [-> ->]%ask_inr & Hk). apply ret_inr in Hk as [Hk ->].
  symmetry in Hk. apply resolveAsset_inr in Hk as (a & -> & Hp & Hu).
  destruct (for_post_found _ _ _ _ _ _ _ _ Hr) as (Ho & Hi & Hb & Hky). eauto 10.
Qed.
(** The guarantee of the resolver, for any store that keeps the contract. *)
Lemma resolve_owned post ttl e w url w' :
  ResolveForUpload storage wired (Some post) ttl e w = (inr (inr url), w') →
  ∃ a, owned w.1 (post_WorkspaceID post) a ∧ publishable e a ∧ refers same_id post a ∧
    getObjectURL storage e (Bucket a) (UploadKey a) (if ttl <=? 0 then defaultResolverTTL else ttl) = inr url.
Proof using Type*.
  unfold ResolveForUpload, refers.
  destruct (decide (default "" (post_MediaAssetID post) = "")) as [Hi|Hi].
  - rewrite (bool_decide_true (_ = "")) by done. cbn [negb].
    destruct (decide (default "" (post_StorageObjectKey post) = "")) as [Hk|Hk].
    + rewrite (bool_decide_true (default "" (post_StorageObjectKey post) = "")) by done. cbn [negb].
      rewrite (bool_decide_true (_ ∧ _)) by done. case_bool_decide; [done|]. case_bool_decide; [done|].
      destruct wired; [|done]. cbn [negb].
      intros (r & w1 & Hr%try_inr & Hk')%bind_inr. destruct r as [er|[a|]]; [done| |done].
      apply bind_inr in Hk' as (e' & w2 & [-> ->]%ask_inr & Hk'). apply ret_inr in Hk' as [Hk' ->].
      symmetry in Hk'. apply resolveAsset_inr in Hk' as (a' & [= <-] & Hp & Hu).
      destruct (by_key_found _ _ _ _ _ _ Hr) as (Ho & Hky). eauto 10.
    + rewrite (bool_decide_false (default "" (post_StorageObjectKey post) = "")) by done. cbn [negb].
      rewrite (bool_decide_false (_ ∧ _)) by (by intros [_ ?]).
      intros (a & ? & ? & ? & ? & ? & ?)%resolveAssetForPost_inr. exists a. by rewrite Hi.
  - rewrite (bool_decide_false (default "" (post_MediaAssetID post) = "")) by done. cbn [negb].
    rewrite (bool_decide_false (_ ∧ _)) by (by intros [? _]).
    intros (a & ? & ? & ? & ? & ? & ?)%resolveAssetForPost_inr. by exists a.
Qed.
Lemma resolve_pure post ttl : respects eq (ResolveForUpload storage wired post ttl).
Proof using Type*.
  pose proof for_post_pure. pose proof by_key_pure.
  unfold ResolveForUpload, resolveAssetForPost. destruct post as [post|]; [|apply respects_ret, _].
  repeat case_match; try apply respects_ret, _;
    (apply respects_bind; [apply _|by apply respects_try|]); intros [?|?]; try (apply respects_ret, _);
    repeat case_match; try (apply respects_ret, _);
    (apply respects_bind; [apply _|apply respects_ask, _|]); intros ?; apply respects_ret, _.
Qed.
End Contract.

(** ** The repository keeps it *)
Definition owned_row (db : AssetDB) (ws : Z) (a : MediaAsset) : Prop :=
  ∃ id r, assets db !! id = Some r ∧ scanMediaAsset r = inr a ∧ visible ws db (UserID a) = true.
Lemma scan_inr r a : scanMediaAsset r = inr a →
  Bucket r = Some (Bucket a) ∧ ID a = ID r ∧ UserID a = UserID r ∧ UploadKey a = UploadKey r ∧
  Status a = Status r ∧ ExpiresAt a = ExpiresAt r.
Proof. unfold scanMediaAsset. destruct (Bucket r) eqn:E; [|done]. intros [= <-]. done. Qed.
Lemma find_row_Some p db r : find_row p db = Some r → p r = true ∧ ∃ id, assets db !! id = Some r.
Proof.
  unfold find_row, all_rows. intros H.
  assert (Hin : r ∈ List.filter p (map_to_list (assets db)).*2).
  { destruct (List.filter _ _); [done|]. injection H as <-. left. }
  rewrite list_elem_of_In, filter_In, <- list_elem_of_In in Hin. destruct Hin as [Hin Hp].
  split; [done|]. apply list_elem_of_fmap in Hin as ([id r'] & -> & Hin).
  exists id. by apply elem_of_map_to_list in Hin.
Qed.
Lemma all_rows_elem db id r : assets db !! id = Some r → r ∈ all_rows db.
Proof.
  intros H. apply list_elem_of_fmap. exists (id, r). split; [done|]. by apply elem_of_map_to_list.
Qed.
Lemma find_row_None p db : find_row p db = None → ∀ id r, assets db !! id = Some r → p r = false.
Proof.
  unfold find_row. intros H id r Hr%all_rows_elem. destruct (p r) eqn:E; [|done]. exfalso.
  assert (Hin : In r (List.filter p (all_rows db))) by (apply filter_In; by rewrite <- list_elem_of_In).
  by destruct (List.filter p (all_rows db)).
Qed.
Lemma query_row_inr op f e w a w' : query_row op f e w = (inr (Some a), w') →
  ∃ r, f e w.1 = Some r ∧ scanMediaAsset r = inr a.
Proof.
  destruct w as [db n]. intros (o & w1 & (_ & _ & Hf)%exec_inr & Hk)%bind_inr.
  injection Hf as <- _. cbn [fst]. destruct (f e db) as [r|] eqn:E; [|done].
  apply bind_inr in Hk as (a' & w2 & Hs & [[= ->] _]%ret_inr).
  exists r. split; [done|]. destruct (scanMediaAsset r); [done|]. by apply ret_inr in Hs as [-> _].
Qed.
Lemma query_row_pure op f : respects eq (query_row op f).
Proof.
  unfold query_row. apply respects_bind; [apply _|apply respects_exec; [apply _|done]|].
  intros [r|]; [|apply respects_ret, _]. apply respects_bind; [apply _| |intros; apply respects_ret, _].
  destruct (scanMediaAsset r); [apply respects_throw, _|apply respects_ret, _].
Qed.
Section Repository.
Context (uuid_in : string → option string).
Lemma for_post_inv i b k r : for_post uuid_in i b k r = true →
  (i ≠ "" → uuid_in i = Some (ID r)) ∧ (b ≠ "" → Bucket r = Some b) ∧ (k ≠ "" → UploadKey r = k).
Proof.
  unfold for_post. rewrite !andb_true_iff, !orb_true_iff, !bool_decide_eq_true.
  intros [[H1 H2] H3]. split; [|naive_solver]. intros Hi. rewrite bool_decide_false in H1 by done.
  by apply bool_decide_eq_true in H1.
Qed.
Lemma repository_laws : @MediaAssetStoreLaws AssetDB (repository_store uuid_in) (λ i a, uuid_in i = Some (ID a)) owned_row.
Proof.
  constructor; cbn [store_FindForPost store_FindByUploadKey repository_store].
  - intros. unfold FindForPost. repeat case_match; try (apply respects_throw, _). apply query_row_pure.
  - intros. unfold FindByUploadKey. case_match; [apply respects_ret, _|]. apply query_row_pure.
  - intros ws i b k e w a w'. unfold FindForPost. destruct (ws <=? 0); [done|].
    destruct (negb _ && _); [done|].
    intros (r & Hf & Hs)%query_row_inr. apply find_row_Some in Hf as [Hf [id Hid]].
    apply andb_true_iff in Hf as [Hf Hv]. pose proof (scan_inr _ _ Hs) as (Hb & HI & HU & HK & _).
    destruct (for_post_inv _ _ _ _ Hf) as (F1 & F2 & F3). rewrite HI, HK.
    split; [exists id, r; by rewrite HU|]. split; [done|]. split; [|done].
    intros Hn. specialize (F2 Hn). congruence.
  - intros ws k e w a w'. unfold FindByUploadKey. case_match; [done|].
    intros (r & Hf & Hs)%query_row_inr. apply find_row_Some in Hf as [Hf [id Hid]].
    apply andb_true_iff in Hf as [Hf Hv]. pose proof (scan_inr _ _ Hs) as (Hb & HI & HU & HK & _).
    apply bool_decide_eq_true in Hf. split; [exists id, r; by rewrite HU|]. by rewrite HK.
Qed.
End Repository.

(** C30: when the resolver mints a URL for the media of a post, the database has
    a row for it that the workspace of the post owns through its owner or a
    member; the row is ready and not expired, is the one the post refers to
    (by id, by key or by its old URL, with the bucket and key mirrors
    agreeing), and the path of the signed URL is the bucket and key of that
    row.  Resolving writes nothing. *)
Theorem resolved_url_owned (uuid_in : string → option string) (order : list string)
    (p : Storage.S3Provider) (post : Post) (ttl : Z) (e : Env) (db : AssetDB) (n : nat) (url : string)
    (w' : AssetDB * nat)
    (Hrun : ResolvePostMedia uuid_in order p (Some post) ttl e (db, n) = (inr (inr url), w')) :
  ∃ id r a, assets db !! id = Some r ∧ scanMediaAsset r = inr a ∧
    visible (post_WorkspaceID post) db (UserID a) = true ∧ publishable e a ∧
    refers (λ i a, uuid_in i = Some (ID a)) post a ∧ w'.1 = db ∧
    (let b := if bool_decide (Bucket a = "") then Storage.bucket p else Bucket a in
     Storage.valid_key (Storage.objectKeyForBucket p b (UploadKey a)) →
     Storage.object_path (Storage.scheme p +:+ "://" +:+ Storage.hostForBucket p b) url =
       Some (Storage.objectKeyForBucket p b (UploadKey a))).
Proof.
  pose proof (repository_laws uuid_in) as L. unfold ResolvePostMedia in Hrun.
  pose proof (pure_state _ _ _ _ _ (resolve_pure _ _ _ _) Hrun) as Hw.
  apply resolve_owned in Hrun as (a & (id & r & Hr & Hs & Hv) & Hp & Href & Hu).
  exists id, r, a. split; [done|]. split; [done|]. split; [done|]. split; [done|]. split; [done|].
  split; [done|]. intros b Hvalid. unfold getObjectURL, s3_getter, b in *. clear b.
  cbn [og_GetObject og_GetObjectWithBucket] in Hu.
  assert (G : ∀ b t, Storage.GetObjectWithBucket order (app_now e) p b (UploadKey a) t = inr url →
    Storage.valid_key (Storage.objectKeyForBucket p b (UploadKey a)) →
    Storage.object_path (Storage.scheme p +:+ "://" +:+ Storage.hostForBucket p b) url =
       Some (Storage.objectKeyForBucket p b (UploadKey a))).
  { clear Hu Hvalid. intros b t. unfold Storage.GetObjectWithBucket. case_bool_decide as Hb; [done|].
    case_bool_decide as Hk; [done|]. intros [= <-] Hvk. apply Storage.sign_path; [|done].
    unfold Storage.objectKeyForBucket. destruct (Storage.pathStyle p); [|done]. by destruct b. }
  unfold Storage.GetObject in Hu. destruct (bool_decide (Bucket a = "")); exact (G _ _ Hu Hvalid).
Qed.

(** ** The rows *)
Record assets_ok (db : AssetDB) : Prop := {
  ao_ids : ∀ id r, assets db !! id = Some r → ID r = id;
  ao_keys : ∀ i j r s, assets db !! i = Some r → assets db !! j = Some s → UploadKey r = UploadKey s → i = j;
  ao_sha : ∀ id r, assets db !! id = Some r → Status r = MediaAssetStatusReady → SHA256 r ≠ "";
  ao_bucket : ∀ id r, assets db !! id = Some r → Bucket r ≠ None
}.
(** What no statement changes. *)
Definition same_object (r r' : AssetRow) : Prop :=
  ID r' = ID r ∧ UserID r' = UserID r ∧ UploadKey r' = UploadKey r ∧ Bucket r' = Bucket r ∧
  ExpiresAt r' = ExpiresAt r ∧ CreatedAt r' = CreatedAt r.
Definition asset_step (db db' : AssetDB) : Prop :=
  (assets_ok db → assets_ok db') ∧
  (∀ id r, assets db !! id = Some r → ∃ r', assets db' !! id = Some r' ∧ same_object r r') ∧
  asset_workspaces db' = asset_workspaces db ∧ members db' = members db.
#[export] Instance asset_step_preorder : PreOrder asset_step.
Proof.
  split.
  - intros db. split; [done|]. split; [|done]. intros id r H. exists r. by split.
  - intros a b c (H1 & H2 & H3 & H4) (K1 & K2 & K3 & K4). split; [auto|]. split; [|by rewrite K3, K4].
    intros id r Hr. destruct (H2 _ _ Hr) as (r1 & Hr1 & S1). destruct (K2 _ _ Hr1) as (r2 & Hr2 & S2).
    exists r2. split; [done|]. unfold same_object in *. naive_solver congruence.
Qed.
Lemma asset_map_step (f : string → AssetRow → AssetRow) db t :
  (∀ id r, assets db !! id = Some r → same_object r (f id r) ∧
     (Status (f id r) = MediaAssetStatusReady → SHA256 (f id r) ≠ "" ∨
        Status r = MediaAssetStatusReady ∧ SHA256 (f id r) = SHA256 r)) →
  (∀ id, t !! id = f id <$> assets db !! id) → asset_step db (put_assets t db).
Proof.
  intros Hf Ht. split.
  - intros [Hi Hk Hsha Hb]. assert (G : ∀ id r', t !! id = Some r' → ∃ r, assets db !! id = Some r ∧ r' = f id r).
    { intros id r'. rewrite Ht. destruct (assets db !! id) as [r|]; [|done]. intros [= <-]. eauto. }
    constructor; cbn [assets put_assets].
    + intros id r' (r & Hr & ->)%G. destruct (Hf _ _ Hr) as [(-> & _) _]. by apply Hi.
    + intros i j r' s' (r & Hr & ->)%G (s & Hs & ->)%G.
      destruct (Hf _ _ Hr) as [(_ & _ & -> & _) _]. destruct (Hf _ _ Hs) as [(_ & _ & -> & _) _]. by apply Hk.
    + intros id r' (r & Hr & ->)%G Hst. destruct (Hf _ _ Hr) as [_ Hs].
      destruct (Hs Hst) as [?|[Hr' ->]]; [done|]. by eapply Hsha.
    + intros id r' (r & Hr & ->)%G. destruct (Hf _ _ Hr) as [(_ & _ & _ & -> & _) _]. by eapply Hb.
  - split; [|done]. intros id r Hr. cbn [assets put_assets]. rewrite Ht, Hr. exists (f id r).
    split; [done|]. by apply Hf.
Qed.
Section Writes.
Context (uuid_in : string → option string).
Lemma update_asset_step op id f :
  (∀ e r, same_object r (f e r) ∧ (Status (f e r) = MediaAssetStatusReady → SHA256 (f e r) ≠ "" ∨
     Status r = MediaAssetStatusReady ∧ SHA256 (f e r) = SHA256 r)) →
  respects asset_step (update_asset uuid_in op id f).
Proof.
  intros Hf. unfold update_asset. destruct (uuid_in id) as [u|]; [|apply respects_throw, _].
  apply respects_exec; [apply _|]. intros e db.
  destruct (update_row u (λ _, true) (f e) (assets db)) as [k t] eqn:E. cbn [snd].
  apply (asset_map_step (λ i r, if decide (i = u) then f e r else r)).
  - intros i r _. destruct (decide (i = u)); [apply Hf|]. split; [done|]. by right.
  - intros i. assert (t = (update_row u (λ _, true) (f e) (assets db)).2) as -> by by rewrite E.
    destruct (decide (i = u)) as [->|Hne].
    + destruct (assets db !! u) as [r|] eqn:Hr; [by rewrite (update_row_row _ _ _ _ _ Hr)|].
      unfold update_row. by rewrite Hr.
    + rewrite update_row_other by done. by destruct (assets db !! i).
Qed.
Lemma needs_row_step op id k : respects asset_step (needs_row op id k).
Proof.
  unfold needs_row. apply respects_bind; [apply _|apply respects_try, respects_rows, _|].
  intros [er|[|j]]; (apply respects_throw, _) || (apply respects_ret, _).
Qed.
Lemma MarkReady_step id sha size ct : respects asset_step (MarkReady uuid_in id sha size ct).
Proof.
  unfold MarkReady. case_bool_decide; [apply respects_throw, _|].
  apply respects_bind; [apply _| |intros; apply needs_row_step]. apply update_asset_step. intros e r.
  split; [done|]. by left.
Qed.
Lemma MarkFailed_step id reason : respects asset_step (MarkFailed uuid_in id reason).
Proof.
  unfold MarkFailed. apply respects_bind; [apply _| |intros; apply needs_row_step].
  apply update_asset_step. intros e r. by split.
Qed.
Lemma SaveProbe_step id p : respects asset_step (SaveProbe uuid_in id p).
Proof.
  unfold SaveProbe. destruct p as [p|]; [|apply respects_ret, _].
  apply respects_bind; [apply _| |intros; apply respects_ret, _].
  apply update_asset_step. intros e r. split; [done|]. by right.
Qed.
Lemma MarkExpired_step now : respects asset_step (MarkExpired now).
Proof.
  unfold MarkExpired. apply respects_exec; [apply _|]. intros e db. cbn [snd].
  apply (asset_map_step (λ _, expire now)); [|intros i; by rewrite lookup_fmap].
  intros i r _. unfold expire. destruct (_ && _); [by split|]. split; [done|]. by right.
Qed.
(** Every caller creates pending rows. *)
Lemma Create_step id a : Status a ≠ MediaAssetStatusReady → respects asset_step (Create id a).
Proof.
  intros Hp. unfold Create. destruct (negb _); [apply respects_throw, _|].
  apply respects_bind; [apply _| |intros [?|]; (apply respects_throw, _) || (apply respects_ret, _)].
  apply respects_exec; [apply _|]. intros e db. cbn [snd].
  destruct (bool_decide _) eqn:E1; [reflexivity|]. destruct (bool_decide (is_Some (find_row _ _))) eqn:E2; [reflexivity|].
  cbn [orb snd]. apply bool_decide_eq_false in E1, E2. apply eq_None_not_Some in E1.
  assert (Hnew : ∀ i r, assets db !! i = Some r → UploadKey r ≠ UploadKey a).
  { intros i r Hr Hk. destruct (find_row _ db) as [x|] eqn:Ef; [by destruct E2|].
    pose proof (find_row_None _ _ Ef _ _ Hr) as F. by apply bool_decide_eq_false in F. }
  split; [|split; [|done]].
  - intros [Hi Hk Hs Hb]. constructor; cbn [assets put_assets].
    + intros i r [[<- <-]|[? Hr]]%lookup_insert_Some; [done|by apply Hi].
    + intros i j r s [[<- <-]|[? Hr]]%lookup_insert_Some [[<- <-]|[? Hr']]%lookup_insert_Some; cbn [UploadKey].
      * done.
      * intros E. destruct (Hnew _ _ Hr'). done.
      * intros E. destruct (Hnew _ _ Hr). done.
      * by apply Hk.
    + intros i r [[<- <-]|[? Hr]]%lookup_insert_Some; [|by eapply Hs]. cbn [Status SHA256].
      case_bool_decide; done.
    + intros i r [[<- <-]|[? Hr]]%lookup_insert_Some; [done|by eapply Hb].
  - intros i r Hr. exists r. cbn [assets put_assets]. split; [|done]. rewrite lookup_insert_ne; [done|congruence].
Qed.
End Writes.

(** ** One row *)
(** [db'] is [db], or [db] with its row [u] rewritten. *)
Definition row_write (u : string) (f : AssetRow → AssetRow) (db db' : AssetDB) : Prop :=
  db' = db ∨ db' = put_assets (alter f u (assets db)) db.
Lemma put_assets_id db : put_assets (assets db) db = db.
Proof. by destruct db. Qed.
Section Row.
Context (uuid_in : string → option string) (id u : string) (Hu : uuid_in id = Some u).
Lemma update_asset_row op f e w r w' : update_asset uuid_in op id f e w = (r, w') →
  row_write u (f e) w.1 w'.1.
Proof using Hu.
  unfold update_asset. rewrite Hu. intros [->| ->]%exec_state; [by left|]. right.
  unfold update_row. destruct (assets w.1 !! u) as [a|] eqn:E; cbn [snd]; f_equal;
    apply map_eq; intros i; destruct (decide (i = u)) as [->|];
    rewrite ?lookup_alter_eq, ?lookup_alter_ne, ?lookup_insert_eq, ?lookup_insert_ne, ?E by done; done.
Qed.
Lemma needs_row_pure op i k : respects eq (needs_row op i k).
Proof using.
  unfold needs_row. apply respects_bind; [apply _|apply respects_try, respects_rows, _|].
  intros [er|[|j]]; (apply respects_throw, _) || (apply respects_ret, _).
Qed.
Lemma update_then_needs op f e w r w' :
  (k ← update_asset uuid_in op id f; needs_row op id k) e w = (r, w') → row_write u (f e) w.1 w'.1.
Proof using Hu.
  unfold mbind, M_bind. destruct (update_asset uuid_in op id f e w) as [[er|k] w1] eqn:E.
  - intros [= <- <-]. by eapply update_asset_row.
  - intros Hr. pose proof (pure_state _ _ _ _ _ (needs_row_pure op id k) Hr) as ->. by eapply update_asset_row.
Qed.
Lemma MarkReady_row sha size ct e w r w' : MarkReady uuid_in id sha size ct e w = (r, w') →
  row_write u (λ a, set_asset ct size MediaAssetStatusReady sha "" (app_now e) (probe a) a) w.1 w'.1.
Proof using Hu.
  unfold MarkReady. case_bool_decide; [intros [= <- <-]; by left|]. apply update_then_needs.
Qed.
Lemma MarkFailed_row reason e w r w' : MarkFailed uuid_in id reason e w = (r, w') →
  row_write u (λ a, set_asset (ContentType a) (SizeBytes a) MediaAssetStatusFailed (SHA256 a) reason
                      (app_now e) (probe a) a) w.1 w'.1.
Proof using Hu. apply update_then_needs. Qed.
Lemma SaveProbe_row p e w r w' : SaveProbe uuid_in id p e w = (r, w') →
  ∃ t pc, row_write u (λ a, set_asset (ContentType a) (SizeBytes a) (Status a) (SHA256 a) (ErrorMessage a) t pc a)
            w.1 w'.1.
Proof using Hu.
  unfold SaveProbe. destruct p as [p|]; [|intros [= <- <-]; exists 0, (mkProbeColumns None None None None None "" "" None); by left].
  unfold mbind, M_bind. destruct (update_asset _ _ _ _ e w) as [[er|k] w1] eqn:E; intros [= <- <-];
    apply update_asset_row in E; eauto.
Qed.
(** Against a database that answers, the update hits the row. *)
Lemma update_then_needs_hit op f e db n a : reliable e → assets db !! u = Some a →
  (k ← update_asset uuid_in op id f; needs_row op id k) e (db, n) =
    (inr tt, (put_assets (<[u := f e a]> (assets db)) db, S (S n))).
Proof using Hu.
  intros Hrel Ha. unfold update_asset. rewrite Hu.
  erewrite bind_run; [|apply exec_fine, Hrel]. cbv beta.
  rewrite (update_row_hit _ _ _ _ a Ha eq_refl). cbn [fst snd].
  unfold needs_row, try, mbind, M_bind. by rewrite (rows_fine e Hrel).
Qed.
End Row.

(** ** Histories *)
Inductive AssetOp :=
| OpCreate (id : string) (a : MediaAsset)
| OpReady (id sha : string) (size : Z) (contentType : string)
| OpFailed (id reason : string)
| OpProbe (id : string) (p : option MediaProbe)
| OpExpire (now : Z).
Definition pending_create (o : AssetOp) : Prop :=
  match o with OpCreate _ a => Status a ≠ MediaAssetStatusReady | _ => True end.
Definition run_asset_op (uuid_in : string → option string) (o : AssetOp) (e : Env) (db : AssetDB) : AssetDB :=
  match o with
  | OpCreate id a => state_of (Create id a e (db, O))
  | OpReady id sha size ct => state_of (MarkReady uuid_in id sha size ct e (db, O))
  | OpFailed id reason => state_of (MarkFailed uuid_in id reason e (db, O))
  | OpProbe id p => state_of (SaveProbe uuid_in id p e (db, O))
  | OpExpire now => state_of (MarkExpired now e (db, O))
  end.
Definition asset_history (uuid_in : string → option string) : list (AssetOp * Env) → AssetDB → AssetDB :=
  fun l db => foldl (λ db oe, run_asset_op uuid_in oe.1 oe.2 db) db l.

Lemma asset_history_step uuid_in l : ∀ db, Forall (λ oe, pending_create oe.1) l →
  asset_step db (asset_history uuid_in l db).
Proof.
  intros db Hl. revert db. induction Hl as [|[o e] l Ho Hl IH]; intros db; [reflexivity|].
  cbn [asset_history foldl]. etrans; [|apply IH]. cbn [fst snd] in *. destruct o; cbn [run_asset_op pending_create] in *.
  - by apply Create_step.
  - apply MarkReady_step.
  - apply MarkFailed_step.
  - apply SaveProbe_step.
  - apply MarkExpired_step.
Qed.

(** Whatever the repository is asked to do, in any order, with lost and
    unacknowledged statements: a row never disappears and never changes its
    owner, key, bucket or expiry; ids and keys stay unique; and a row that is
    ready carries a digest. *)
Theorem asset_rows_keep_identity (uuid_in : string → option string) (l : list (AssetOp * Env)) (db : AssetDB)
    (Hok : assets_ok db) (Hl : Forall (λ oe, pending_create oe.1) l) :
  assets_ok (asset_history uuid_in l db) ∧
  (∀ id r, assets db !! id = Some r →
     ∃ r', assets (asset_history uuid_in l db) !! id = Some r' ∧ same_object r r').
Proof.
  pose proof (asset_history_step uuid_in l db Hl) as H.
  destruct H as (H1 & H2 & _). split; [by apply H1|done].
Qed.

Definition sample_asset (status : string) : MediaAsset :=
  mkMediaAsset "" 7 "uploads/7/u_clip.mp4" "media" "video/mp4" 3 status "" "" (100 * Hour) 0 0
    (mkProbeColumns None None None None None "" "" None).
Definition calm (t : Z) : Env := mkEnv t t (λ _, Fine) (λ _, false) (λ _, false) "".
Definition no_assets : AssetDB :=
  mkAssetDB ∅ {[1 := mkWorkspace 1 "w" 9 0]} {[(1, 7)]}.
Definition sample_history : list (AssetOp * Env) :=
  [(OpCreate "a1" (sample_asset ""), calm Hour); (OpReady "a1" "" 3 "video/mp4", calm (2 * Hour));
   (OpReady "a1" "abc" 3 "video/mp4", calm (2 * Hour)); (OpCreate "a2" (sample_asset ""), calm Hour)].
Definition sample_db : AssetDB := asset_history Some sample_history no_assets.
Lemma no_assets_ok : assets_ok no_assets.
Proof. constructor; intros ?; set_solver. Qed.
Lemma sample_assets_ok : assets_ok sample_db.
Proof. apply (asset_history_step Some sample_history no_assets); [repeat constructor; done|apply no_assets_ok]. Qed.
Lemma asset_rows_keep_identity_witness :
  assets_ok sample_db ∧ Status <$> assets sample_db !! "a1" = Some "ready" ∧ assets sample_db !! "a2" = None.
Proof.
  split; [|split; vm_compute; reflexivity].
  refine (proj1 (asset_rows_keep_identity Some sample_history no_assets _ _)).
  - apply no_assets_ok.
  - repeat constructor; done.
Defined.

Definition sample_post (id key : string) : Post :=
  mkPost 5 1 "t" "" "" (Some id) (Some key) (Some "media") "" "" None 0 None "queued" None "" 0 0 0.
Definition sample_query : list string :=
  ["X-Amz-Date"; "X-Amz-Algorithm"; "X-Amz-Credential"; "X-Amz-Expires"; "X-Amz-SignedHeaders"].
Lemma resolved_url_owned_witness : ∃ url w',
  ResolvePostMedia Some sample_query Storage.local_minio (Some (sample_post "a1" "uploads/7/u_clip.mp4")) Hour
    (calm (3 * Hour)) (sample_db, O) = (inr (inr url), w') ∧ w'.1 = sample_db.
Proof.
  destruct (ResolvePostMedia Some sample_query Storage.local_minio
    (Some (sample_post "a1" "uploads/7/u_clip.mp4")) Hour (calm (3 * Hour)) (sample_db, O))
    as [[er|[er|url]] w'] eqn:E; [exfalso; revert E; vm_compute; done..|].
  exists url, w'. split; [done|].
  destruct (resolved_url_owned _ _ _ _ _ _ _ _ _ _ E) as (id & r & a & _ & _ & _ & _ & _ & Hw & _). exact Hw.
Defined.
(** A post whose key mirror is not the key of its asset. *)
Example other_key_refused :
  match (ResolvePostMedia Some sample_query Storage.local_minio (Some (sample_post "a1" "uploads/7/v_clip.mp4")) Hour
           (calm (3 * Hour)) (sample_db, O)).1 with inr (inl er) => Error er | _ => "" end =
  "media resolver: media asset not found or not owned by post workspace".
Proof. vm_compute. reflexivity. Qed.
(** The legacy URL: its first segment is taken for the bucket, which it is not
    when the bucket is in the host. *)
Definition virtual_host : Storage.S3Provider :=
  Storage.mkS3Provider "https://s3.example.com" "https" "media" "us-east-1" "id" "secret" "media.s3.example.com"
    false "https://s3.example.com/media".
Example legacy_url_key :
  extractUploadKeyFromMediaURL (Storage.AssetURL Storage.local_minio "uploads/7/u_clip.mp4") = "uploads/7/u_clip.mp4" ∧
  extractUploadKeyFromMediaURL (Storage.AssetURL virtual_host "uploads/7/u_clip.mp4") = "7/u_clip.mp4".
Proof. split; vm_compute; reflexivity. Qed.

(** ** A publishable asset resolves *)
Lemma find_row_unique p db id r : assets db !! id = Some r → p r = true →
  (∀ i s, assets db !! i = Some s → p s = true → s = r) → find_row p db = Some r.
Proof.
  intros Hr Hp Hu. destruct (find_row p db) as [s|] eqn:E.
  - apply find_row_Some in E as [Hs [i Hi]]. by rewrite (Hu _ _ Hi Hs).
  - by rewrite (find_row_None _ _ E _ _ Hr) in Hp.
Qed.
(** A post that names a ready, unexpired asset of its workspace, with mirrors
    that agree or are empty, gets a URL whenever the one query is answered: the
    signed GET of the bucket and key of that asset. *)
Theorem ready_asset_resolves (uuid_in : string → option string) (order : list string)
    (p : Storage.S3Provider) (post : Post) (ttl : Z) (e : Env) (db : AssetDB) (n : nat)
    (i id : string) (r : AssetRow) (a : MediaAsset)
    (Hok : assets_ok db) (Hi : post_MediaAssetID post = Some i) (Hne : i ≠ "") (Hid : uuid_in i = Some id)
    (Hr : assets db !! id = Some r) (Hs : scanMediaAsset r = inr a) (Hb : Bucket a ≠ "")
    (Hws : 0 < post_WorkspaceID post) (Hv : visible (post_WorkspaceID post) db (UserID a) = true)
    (Hp : publishable e a)
    (Hk : default "" (post_StorageObjectKey post) ∈ [""; UploadKey a])
    (Hbk : default "" (post_Bucket post) ∈ [""; Bucket a]) (Hf : fault e n = Fine) :
  ∃ url, Storage.GetObjectWithBucket order (app_now e) p (Bucket a) (UploadKey a)
           (if ttl <=? 0 then defaultResolverTTL else ttl) = inr url ∧
  ResolvePostMedia uuid_in order p (Some post) ttl e (db, n) = (inr (inr url), (db, S n)).
Proof.
  destruct (scan_inr _ _ Hs) as (Sb & SI & SU & SK & SS & SE). destruct Hp as (P1 & P2 & P3).
  pose proof (ao_ids _ Hok _ _ Hr) as HID.
  assert (Hsel : for_post uuid_in i (default "" (post_Bucket post)) (default "" (post_StorageObjectKey post)) r = true).
  { unfold for_post. rewrite (bool_decide_false (i = "")) by done. rewrite Hid, HID.
    rewrite bool_decide_true by done. cbn [andb]. rewrite Sb, <- SK. set_unfold in Hk. set_unfold in Hbk.
    apply andb_true_iff; split; apply orb_true_iff; rewrite !bool_decide_eq_true; naive_solver congruence. }
  assert (Hfind : find_row (λ s, for_post uuid_in i (default "" (post_Bucket post))
      (default "" (post_StorageObjectKey post)) s && visible (post_WorkspaceID post) db (UserID s)) db = Some r).
  { apply (find_row_unique _ _ id); [done|by rewrite Hsel, <- SU|].
    intros j s Hj [Hsj _]%andb_true_iff. destruct (for_post_inv _ _ _ _ _ Hsj) as (F & _).
    specialize (F Hne). rewrite Hid, (ao_ids _ Hok _ _ Hj) in F. congruence. }
  eexists. split.
  { unfold Storage.GetObjectWithBucket. by rewrite !bool_decide_false by done. }
  unfold ResolvePostMedia, ResolveForUpload. rewrite Hi.
  change (default "" (Some i)) with i.
  rewrite (bool_decide_false (i = "")) by done. cbn [negb].
  unfold resolveAssetForPost. cbn [negb store_FindForPost repository_store].
  destruct (Z.leb_spec (post_WorkspaceID post) 0); [lia|].
  unfold FindForPost. destruct (Z.leb_spec (post_WorkspaceID post) 0); [lia|].
  rewrite Hid. rewrite (bool_decide_false (i = "")), (bool_decide_false (Some id = None)) by done. cbn [negb andb].
  unfold query_row, mbind, M_bind, try. unfold exec. rewrite Hf. cbv beta iota. rewrite Hfind.
  rewrite Hs. cbn [of_sum]. unfold mret, M_ret, ask. unfold resolveAsset. rewrite P1, bool_decide_true by done.
  cbn [negb]. replace (negb (ExpiresAt a =? zero_time) && (ExpiresAt a <? app_now e)) with false
    by (destruct (Z.eqb_spec (ExpiresAt a) zero_time), (Z.ltb_spec (ExpiresAt a) (app_now e)); done || lia).
  rewrite bool_decide_false by done. unfold getObjectURL. rewrite bool_decide_false by done.
  cbn [og_GetObjectWithBucket s3_getter]. unfold Storage.GetObjectWithBucket.
  by rewrite !bool_decide_false by done.
Qed.
Lemma ready_asset_resolves_witness : ∃ url,
  ResolvePostMedia Some sample_query Storage.local_minio (Some (sample_post "a1" "")) 0 (calm (3 * Hour)) (sample_db, O) =
    (inr (inr url), (sample_db, 1%nat)).
Proof.
  destruct (assets sample_db !! "a1") as [r|] eqn:Hr; [|exfalso; revert Hr; vm_compute; done].
  destruct (scanMediaAsset r) as [er|a] eqn:Hs;
    [exfalso; revert Hs; revert Hr; vm_compute; intros [= <-]; done|].
  assert (Ha : a = mkMediaAsset "a1" 7 "uploads/7/u_clip.mp4" "media" "video/mp4" 3 "ready" "abc" "" (100 * Hour)
                 Hour (2 * Hour) (mkProbeColumns None None None None None "" "" None)).
  { revert Hs. revert Hr. vm_compute. intros [= <-]. by intros [= <-]. }
  subst a. match type of Hs with _ = inr ?a =>
    destruct (ready_asset_resolves Some sample_query Storage.local_minio (sample_post "a1" "") 0
      (calm (3 * Hour)) sample_db O "a1" "a1" r a) as (url & _ & H) end.
  - apply sample_assets_ok.
  - exact eq_refl.
  - discriminate.
  - exact eq_refl.
  - exact Hr.
  - exact Hs.
  - discriminate.
  - exact eq_refl.
  - vm_compute. reflexivity.
  - split; [exact eq_refl|]. split; [right; vm_compute; discriminate|discriminate].
  - left.
  - right. left.
  - exact eq_refl.
  - exists url. exact H.
Defined.
