(* ===== verification/YouTubeQueue.v ===== *)
(** * The queue of YouTube deliveries

    [src/internal/repository/youtube_target_publication_*.go] and
    [youtube_delivery_queue.go]: one row of [youtube_target_publications] per
    post target, which is at once the record of the video and an item of the
    upload queue, claimed under a lease.

    The columns of the drift reconciler (migration 069) are left out.  Rows
    that a query leaves unordered come by id.  [target_exists] is the foreign
    key to [post_targets]; the one to the accounts is not modelled. *)

From S2P Require Import Prelude Store.
From Stdlib Require Import ZArith Lia.
Local Open Scope Z_scope.

(** ** The row *)
(* Source: internal/models/youtube_target_publication.go *)
(** The video on YouTube. *)
(* 77-104 YouTubeTargetPublication *)
Record Video := mkVideo {
  YouTubeVideoID : option string;
  YouTubeUploadStatus : string;
  YouTubeProcessingStatus : option string;
  YouTubeUploadedAt : option Z;
  YouTubeProcessedAt : option Z;
  PublishedAt : option Z
}.
(** The editor session and the thumbnail. *)
(* 90-93 YouTubeTargetPublication *)
Record Editing := mkEditing {
  EditorSessionID : option string;
  VeloxProjectID : option string;
  ThumbnailMediaID : option string;
  ThumbnailStatus : option string
}.
(** The queue. *)
(* 105-144 YouTubeTargetPublication *)
Record Queue := mkQueue {
  State : string;
  AttemptCount : Z;
  MaxAttempts : Z;
  NextAttemptAt : option Z;
  LeaseOwner : option string;
  LeaseExpiresAt : option Z;
  HeartbeatAt : option Z;
  ResumeState : option string;
  LastError : string;
  LastErrorCode : option string;
  LastTransitionAt : Z
}.
(* 72-147 YouTubeTargetPublication *)
Record YouTubeTargetPublication := mkPub {
  ID : Z;
  UploadJobID : Z;
  PostTargetID : Z;
  PlatformAccountID : Z;
  DesiredPrivacy : string;
  PublishAt : option Z;
  NativePublishAt : option Z;
  Priority : Z;
  PrepareAt : option Z;
  VerifiedAt : option Z;
  OriginalPublishAt : option Z;
  SpilloverCount : Z;
  video : Video;
  editing : Editing;
  queue : Queue;
  CreatedAt : Z;
  UpdatedAt : Z
}.
Notation Pub := YouTubeTargetPublication.
Record PubDB := mkPubDB { pubs : gmap Z Pub; next_pub : Z }.
Definition put_pubs (t : gmap Z Pub) (db : PubDB) : PubDB := mkPubDB t (next_pub db).

Definition set_video (v : Video) (updated : Z) (p : Pub) : Pub :=
  mkPub (ID p) (UploadJobID p) (PostTargetID p) (PlatformAccountID p) (DesiredPrivacy p) (PublishAt p)
    (NativePublishAt p) (Priority p) (PrepareAt p) (VerifiedAt p) (OriginalPublishAt p) (SpilloverCount p)
    v (editing p) (queue p) (CreatedAt p) updated.
Definition set_editing (x : Editing) (updated : Z) (p : Pub) : Pub :=
  mkPub (ID p) (UploadJobID p) (PostTargetID p) (PlatformAccountID p) (DesiredPrivacy p) (PublishAt p)
    (NativePublishAt p) (Priority p) (PrepareAt p) (VerifiedAt p) (OriginalPublishAt p) (SpilloverCount p)
    (video p) x (queue p) (CreatedAt p) updated.
Definition set_queue (q : Queue) (p : Pub) : Pub :=
  mkPub (ID p) (UploadJobID p) (PostTargetID p) (PlatformAccountID p) (DesiredPrivacy p) (PublishAt p)
    (NativePublishAt p) (Priority p) (PrepareAt p) (VerifiedAt p) (OriginalPublishAt p) (SpilloverCount p)
    (video p) (editing p) q (CreatedAt p) (UpdatedAt p).
(** [attempt_count = n, last_error = m]. *)
Definition set_attempt (n : Z) (m : string) (q : Queue) : Queue :=
  mkQueue (State q) n (MaxAttempts q) (NextAttemptAt q) (LeaseOwner q) (LeaseExpiresAt q) (HeartbeatAt q)
    (ResumeState q) m (LastErrorCode q) (LastTransitionAt q).
Definition touch (t : Z) (p : Pub) : Pub := set_video (video p) t p.

(* Source: internal/repository/youtube_target_publication_repo.go *)
Definition ErrYouTubeTargetPublicationNotFound : err := (* 16 *)
  sentinel "ErrYouTubeTargetPublicationNotFound" "youtube target publication not found".
Definition ErrYouTubeUploadedEmptyVideoID : err := (* 27 *)
  sentinel "ErrYouTubeUploadedEmptyVideoID" ("youtube target publication MarkYouTubeUploadedAtomic: " +:+
    "empty videoID (rejected pre-flight; row not mutated)").

(** ** Inserting and finding *)
Definition pub_rows (db : PubDB) : list Pub :=
  sort_by (λ x y, ID x <=? ID y) (map_to_list (pubs db)).*2.
Definition find_pub (p : Pub → bool) (db : PubDB) : option Pub := head (List.filter p (pub_rows db)).
(** The row of an insert, with the column defaults. *)
(* 256-270 Create *)
Definition inserted_pub (id : Z) (e : Env) (pub : Pub) : Pub :=
  mkPub id (UploadJobID pub) (PostTargetID pub) (PlatformAccountID pub) (DesiredPrivacy pub) (PublishAt pub)
    (NativePublishAt pub) (Priority pub) (PrepareAt pub) None None 0
    (mkVideo (YouTubeVideoID (video pub)) (YouTubeUploadStatus (video pub))
       (YouTubeProcessingStatus (video pub)) None None None)
    (editing pub)
    (mkQueue (State (queue pub)) (AttemptCount (queue pub)) (MaxAttempts (queue pub)) None None None None None
       (LastError (queue pub)) None (db_now e)) (db_now e) (db_now e).
Definition same_session (pub p : Pub) : bool :=
  match EditorSessionID (editing pub) with
  | None => false
  | Some s => bool_decide (EditorSessionID (editing p) = Some s)
  end.
(** The sequence moves even when the insert fails.  The struct with the id. *)
(* 254-272 YouTubeTargetPublicationRepository.Create *)
Definition Create (target_exists : Z → bool) (pub : Pub) : M PubDB Pub :=
  r ← exec "insert youtube_target_publications" (λ e db,
    let id := next_pub db in
    let bumped := mkPubDB (pubs db) (id + 1) in
    if negb (target_exists (PostTargetID pub)) ||
       bool_decide (is_Some (find_pub (λ p, (PostTargetID p =? PostTargetID pub) || same_session pub p) db))
    then (None, bumped)
    else (Some (id, db_now e), put_pubs (<[id := inserted_pub id e pub]> (pubs db)) bumped));
  match r with
  | None => throw (db_err "insert youtube_target_publications")
  | Some (id, t) => mret (mkPub id (UploadJobID pub) (PostTargetID pub) (PlatformAccountID pub) (DesiredPrivacy pub)
      (PublishAt pub) (NativePublishAt pub) (Priority pub) (PrepareAt pub) (VerifiedAt pub)
      (OriginalPublishAt pub) (SpilloverCount pub) (video pub) (editing pub) (queue pub) t t)
  end.
(* 276-287 YouTubeTargetPublicationRepository.FindByID *)
Definition FindByID (id : Z) : M PubDB (option Pub) :=
  exec "youtube target publication FindByID" (λ _ db, (pubs db !! id, db)).
(* 292-303 YouTubeTargetPublicationRepository.FindByPostTargetID *)
Definition FindByPostTargetID (postTargetID : Z) : M PubDB (option Pub) :=
  exec "youtube target publication FindByPostTargetID" (λ _ db,
    (find_pub (λ p, PostTargetID p =? postTargetID) db, db)).
(* 308-319 YouTubeTargetPublicationRepository.FindByYouTubeVideoID *)
Definition FindByYouTubeVideoID (videoID : string) : M PubDB (option Pub) :=
  exec "youtube target publication FindByYouTubeVideoID" (λ _ db,
    (find_pub (λ p, bool_decide (YouTubeVideoID (video p) = Some videoID)) db, db)).
(* Source: internal/repository/youtube_target_publication_list.go *)
(* 21-47 YouTubeTargetPublicationRepository.ListByPostTargetIDs *)
Definition ListByPostTargetIDs (ids : list Z) : M PubDB (list Pub) :=
  match ids with
  | [] => mret []
  | _ => exec "youtube target publication ListByPostTargetIDs" (λ _ db,
           (List.filter (λ p, bool_decide (PostTargetID p ∈ ids)) (pub_rows db), db))
  end.
(* 52-75 YouTubeTargetPublicationRepository.ListByUploadJobID *)
Definition ListByUploadJobID (uploadJobID : Z) : M PubDB (list Pub) :=
  exec "youtube target publication ListByUploadJobID" (λ _ db,
    (List.filter (λ p, UploadJobID p =? uploadJobID) (pub_rows db), db)).

(** ** Writes by id *)
(* Source: internal/repository/youtube_target_publication_state.go *)
(* 313-322 YouTubeTargetPublicationRepository.checkRowsAffected *)
Definition checkRowsAffected (id : Z) (k : nat) : M PubDB unit :=
  n ← rows_affected "youtube target publication" k;
  if bool_decide (n = O) then throw (wrap_suffix ErrYouTubeTargetPublicationNotFound ("id=" +:+ itoa id))
  else mret tt.
(** [UPDATE youtube_target_publications SET f WHERE id = $1 AND p]. *)
Definition update_pub (op : string) (id : Z) (p : Pub → bool) (f : Env → Pub → Pub) : M PubDB nat :=
  exec op (λ e db, let '(k, t) := update_row id p (f e) (pubs db) in (k, put_pubs t db)).
Definition exec_pub (op : string) (id : Z) (p : Pub → bool) (f : Env → Pub → Pub) : M PubDB unit :=
  k ← update_pub op id p f; checkRowsAffected id k.
Definition any (p : Pub) : bool := true.
Definition coalesce (a : option Z) (t : Z) : option Z := match a with Some _ => a | None => Some t end.
(** The unique indexes on the target and on the session. *)
(* 19-46 YouTubeTargetPublicationRepository.Update *)
Definition Update (target_exists : Z → bool) (pub : Pub) : M PubDB unit :=
  r ← exec "youtube target publication Update" (λ e db,
    let others := find_pub (λ p, negb (ID p =? ID pub) &&
                     ((PostTargetID p =? PostTargetID pub) || same_session pub p)) db in
    let '(k, t) := update_row (ID pub) any (λ p,
      mkPub (ID p) (UploadJobID pub) (PostTargetID pub) (PlatformAccountID pub) (DesiredPrivacy pub)
        (PublishAt pub) (NativePublishAt pub) (Priority p) (PrepareAt p) (VerifiedAt p) (OriginalPublishAt p)
        (SpilloverCount p)
        (mkVideo (YouTubeVideoID (video pub)) (YouTubeUploadStatus (video pub))
           (YouTubeProcessingStatus (video pub)) (YouTubeUploadedAt (video p)) (YouTubeProcessedAt (video p))
           (PublishedAt (video pub)))
        (editing pub) (set_attempt (AttemptCount (queue pub)) (LastError (queue pub)) (queue p))
        (CreatedAt p) (db_now e)) (pubs db) in
    if negb (bool_decide (k = O)) && (bool_decide (is_Some others) || negb (target_exists (PostTargetID pub)))
    then (None, db) else (Some k, put_pubs t db));
  match r with
  | None => throw (db_err "youtube target publication Update")
  | Some k => checkRowsAffected (ID pub) k
  end.
Definition uploaded_video (videoID : string) (e : Env) (v : Video) : Video :=
  mkVideo (Some videoID) "youtube_uploaded" (YouTubeProcessingStatus v) (coalesce (YouTubeUploadedAt v) (db_now e))
    (YouTubeProcessedAt v) (PublishedAt v).
(* 61-75 YouTubeTargetPublicationRepository.MarkYouTubeUploaded *)
Definition MarkYouTubeUploaded (id : Z) (videoID : string) : M PubDB unit :=
  exec_pub "youtube target publication MarkYouTubeUploaded" id any (λ e p,
    set_video (uploaded_video videoID e (video p)) (db_now e) p).
(* 82-93 YouTubeTargetPublicationRepository.MarkThumbnailReady *)
Definition MarkThumbnailReady (id : Z) (mediaID : string) : M PubDB unit :=
  exec_pub "youtube target publication MarkThumbnailReady" id any (λ e p,
    set_editing (mkEditing (EditorSessionID (editing p)) (VeloxProjectID (editing p)) (Some mediaID)
                   (Some "thumbnail_ready")) (db_now e) p).
(* 111-122 YouTubeTargetPublicationRepository.IncrementAttempt *)
Definition IncrementAttempt (id : Z) (lastError : string) : M PubDB unit :=
  exec_pub "youtube target publication IncrementAttempt" id any (λ e p,
    touch (db_now e) (set_queue (set_attempt (AttemptCount (queue p) + 1) lastError (queue p)) p)).
(* 140-163 YouTubeTargetPublicationRepository.MarkYouTubeUploadedAtomic *)
Definition MarkYouTubeUploadedAtomic (id : Z) (videoID : string) : M PubDB unit :=
  if bool_decide (videoID = "") then
    throw (wrap_suffix ErrYouTubeUploadedEmptyVideoID ("pub=" +:+ itoa id))
  else exec_pub "youtube target publication MarkYouTubeUploadedAtomic" id any (λ e p,
    set_video (uploaded_video videoID e (video p)) (db_now e)
      (set_queue (set_attempt (AttemptCount (queue p) + 1) (LastError (queue p)) (queue p)) p)).
(* 184-198 YouTubeTargetPublicationRepository.ClearYouTubeUpload *)
Definition ClearYouTubeUpload (id : Z) : M PubDB unit :=
  exec_pub "youtube target publication ClearYouTubeUpload" id any (λ e p,
    let v := video p in
    set_video (mkVideo None "upload_session_initiated" (YouTubeProcessingStatus v) (YouTubeUploadedAt v)
                 (YouTubeProcessedAt v) (PublishedAt v)) (db_now e)
      (set_queue (set_attempt 0 (LastError (queue p)) (queue p)) p)).
(* 205-216 YouTubeTargetPublicationRepository.MarkPublished *)
Definition MarkPublished (id : Z) : M PubDB unit :=
  exec_pub "youtube target publication MarkPublished" id any (λ e p,
    let v := video p in
    set_video (mkVideo (YouTubeVideoID v) (YouTubeUploadStatus v) (YouTubeProcessingStatus v)
                 (YouTubeUploadedAt v) (YouTubeProcessedAt v) (Some (db_now e))) (db_now e) p).
(* 223-251 YouTubeTargetPublicationRepository.ListPendingEditorSessionTargets *)
Definition ListPendingEditorSessionTargets (limit : Z) : M PubDB (list Pub) :=
  let limit := if limit <=? 0 then 100 else limit in
  exec "youtube target publication ListPendingEditorSessionTargets" (λ _ db,
    (take (Z.to_nat limit) (List.filter (λ p,
       bool_decide (YouTubeProcessingStatus (video p) = Some "processed") &&
       bool_decide (EditorSessionID (editing p) = None)) (pub_rows db)), db)).
(** The unique index on the session. *)
(* 266-280 YouTubeTargetPublicationRepository.MarkEditorSessionCreated *)
Definition MarkEditorSessionCreated (id : Z) (editorSessionID veloxProjectID : string) : M PubDB unit :=
  r ← exec "youtube target publication MarkEditorSessionCreated" (λ e db,
    let '(k, t) := update_row id (λ p, bool_decide (EditorSessionID (editing p) = None)) (λ p,
      set_editing (mkEditing (Some editorSessionID) (Some veloxProjectID) (ThumbnailMediaID (editing p))
                     (ThumbnailStatus (editing p))) (db_now e) p) (pubs db) in
    if negb (bool_decide (k = O)) &&
       bool_decide (is_Some (find_pub (λ p, bool_decide (EditorSessionID (editing p) = Some editorSessionID)) db))
    then (None, db) else (Some k, put_pubs t db));
  match r with
  | None => throw (db_err "youtube target publication MarkEditorSessionCreated")
  | Some k => checkRowsAffected id k
  end.
(* 298-311 YouTubeTargetPublicationRepository.MarkYouTubeProcessed *)
Definition MarkYouTubeProcessed (id : Z) : M PubDB unit :=
  exec_pub "youtube target publication MarkYouTubeProcessed" id any (λ e p,
    let v := video p in
    set_video (mkVideo (YouTubeVideoID v) (YouTubeUploadStatus v) (Some "processed") (YouTubeUploadedAt v)
                 (coalesce (YouTubeProcessedAt v) (db_now e)) (PublishedAt v)) (db_now e) p).

(** ** The queue *)
(* Source: internal/repository/youtube_delivery_queue.go *)
Definition youtubeDeliveryClaimStates : list string := (* 22 *)
  ["preflight"; "ready_to_upload"; "retry_wait"; "quota_wait"].
(* 78-81 lease seconds *)
Definition lease_of (lease : Z) : Z := Z.max 1 (Z.quot lease Second) * Second.
(* 87-90 eligible *)
Definition eligible (now : Z) (p : Pub) : bool :=
  bool_decide (State (queue p) ∈ youtubeDeliveryClaimStates) &&
  match PrepareAt p with None => true | Some t => t <=? now end &&
  match NextAttemptAt (queue p) with None => true | Some t => t <=? now end &&
  match LeaseExpiresAt (queue p) with None => true | Some t => t <? now end.
(* 91 ORDER BY *)
Definition claim_before (x y : Pub) : bool :=
  (Priority x <? Priority y) || ((Priority x =? Priority y) &&
   match PublishAt x, PublishAt y with
   | Some s, Some t => (s <? t) || ((s =? t) && (ID x <=? ID y))
   | Some _, None => true
   | None, Some _ => false
   | None, None => ID x <=? ID y
   end).
(* 96-100 ClaimReadyDeliveries *)
Definition claimed (workerID : string) (lease : Z) (e : Env) (p : Pub) : Pub :=
  let q := queue p in
  set_queue (mkQueue "uploading" (AttemptCount q) (MaxAttempts q) (NextAttemptAt q) (Some workerID)
    (Some (db_now e + lease_of lease)) (Some (db_now e)) (ResumeState q) (LastError q) (LastErrorCode q)
    (db_now e)) p.
Definition picked (limit : Z) (e : Env) (db : PubDB) : list Pub :=
  take (Z.to_nat limit) (sort_by claim_before
    (List.filter (λ p, eligible (db_now e) p && negb (held e (ID p))) (map_to_list (pubs db)).*2)).
(* 63-123 YouTubeTargetPublicationRepository.ClaimReadyDeliveries *)
Definition ClaimReadyDeliveries (workerID : string) (limit lease : Z) : M PubDB (list Pub) :=
  if bool_decide (workerID = "") then throw (errors_new "claim ready deliveries: empty workerID")
  else if limit <=? 0 then
    throw (errors_new ("claim ready deliveries: non-positive limit " +:+ itoa limit))
  else if lease <=? 0 then
    throw (errors_new ("claim ready deliveries: non-positive lease " +:+ Duration_String lease))
  else exec "claim ready deliveries" (λ e db,
    let l := claimed workerID lease e <$> picked limit e db in
    (l, put_pubs (foldr (λ p t, <[ID p := p]> t) (pubs db) l) db)).
Definition owned_by (workerID : string) (p : Pub) : bool :=
  bool_decide (LeaseOwner (queue p) = Some workerID).
(* 129-160 YouTubeTargetPublicationRepository.HeartbeatDelivery *)
Definition HeartbeatDelivery (id : Z) (workerID : string) (lease : Z) : M PubDB bool :=
  if bool_decide (workerID = "") then throw (errors_new "heartbeat delivery: empty workerID")
  else if lease <=? 0 then
    throw (errors_new ("heartbeat delivery: non-positive lease " +:+ Duration_String lease))
  else
    k ← update_pub ("heartbeat delivery id=" +:+ itoa id) id (owned_by workerID) (λ e p,
      let q := queue p in
      set_queue (mkQueue (State q) (AttemptCount q) (MaxAttempts q) (NextAttemptAt q) (LeaseOwner q)
        (Some (db_now e + lease_of lease)) (Some (db_now e)) (ResumeState q) (LastError q) (LastErrorCode q)
        (LastTransitionAt q)) p);
    n ← exec ("heartbeat delivery rows affected id=" +:+ itoa id) (λ _ db, (k, db));
    mret (negb (bool_decide (n = O))).
(** The lease columns are cleared. *)
Definition unleased (state : string) (attempts : Z) (next : option Z) (resume : option string)
    (msg : string) (code : option string) (at_ : Z) (p : Pub) : Pub :=
  set_queue (mkQueue state attempts (MaxAttempts (queue p)) next None None None resume msg code at_) p.
(* 166-181 YouTubeTargetPublicationRepository.ReleaseDeliveryLease *)
Definition ReleaseDeliveryLease (id : Z) (workerID : string) : M PubDB unit :=
  exec_pub ("release delivery lease id=" +:+ itoa id) id (owned_by workerID) (λ _ p,
    let q := queue p in
    unleased (State q) (AttemptCount q) (NextAttemptAt q) (ResumeState q) (LastError q) (LastErrorCode q)
      (LastTransitionAt q) p).
(* 189-216 YouTubeTargetPublicationRepository.MarkDeliveryUploaded *)
Definition MarkDeliveryUploaded (id : Z) (workerID videoID : string) : M PubDB unit :=
  if bool_decide (videoID = "") then
    throw (wrap_suffix ErrYouTubeUploadedEmptyVideoID ("pub=" +:+ itoa id))
  else exec_pub "youtube target publication MarkDeliveryUploaded" id (owned_by workerID) (λ e p,
    let q := queue p in
    set_video (uploaded_video videoID e (video p)) (UpdatedAt p)
      (unleased "youtube_uploaded" (AttemptCount q + 1) (NextAttemptAt q) (ResumeState q) (LastError q)
         (LastErrorCode q) (db_now e) p)).
(* 224-252 YouTubeTargetPublicationRepository.MarkDeliveryFailed *)
Definition MarkDeliveryFailed (id : Z) (workerID errorCode errMessage : string) (nextAttemptAt : Z) :
    M PubDB unit :=
  exec_pub "youtube target publication MarkDeliveryFailed" id (owned_by workerID) (λ e p,
    let q := queue p in
    unleased (if MaxAttempts q <=? AttemptCount q + 1 then "dead_letter" else "retry_wait")
      (AttemptCount q + 1) (Some nextAttemptAt) (ResumeState q) errMessage (Some errorCode) (db_now e) p).
(* 263-287 YouTubeTargetPublicationRepository.MarkDeliveryQuotaWait *)
Definition MarkDeliveryQuotaWait (id : Z) (workerID : string) (nextAttemptAt : Z) : M PubDB unit :=
  exec_pub "youtube target publication MarkDeliveryQuotaWait" id (owned_by workerID) (λ e p,
    unleased "quota_wait" (AttemptCount (queue p)) (Some nextAttemptAt) (Some "ready_to_upload")
      "youtube quota bucket video_uploads exhausted; delivery parked until daily reset"
      (Some "quota_exceeded") (db_now e) p).
(* 307-309 expired *)
Definition lease_expired (now : Z) (p : Pub) : bool :=
  bool_decide (State (queue p) = "uploading") &&
  match LeaseExpiresAt (queue p) with None => false | Some t => t <? now end.
(* 313-318 ReclaimExpiredDeliveryLeases *)
Definition reclaimed (e : Env) (p : Pub) : Pub :=
  let q := queue p in
  unleased "ready_to_upload" (AttemptCount q) (NextAttemptAt q) (ResumeState q) (LastError q) (LastErrorCode q)
    (db_now e) p.
(* 296-331 YouTubeTargetPublicationRepository.ReclaimExpiredDeliveryLeases *)
Definition ReclaimExpiredDeliveryLeases (maxRows : Z) : M PubDB Z :=
  let maxRows := if maxRows <=? 0 then 1 else maxRows in
  k ← exec "reclaim expired delivery leases" (λ e db,
    let l := take (Z.to_nat maxRows)
               (List.filter (λ p, lease_expired (db_now e) p && negb (held e (ID p))) (pub_rows db)) in
    (length l, put_pubs (foldr (λ p t, <[ID p := reclaimed e p]> t) (pubs db) l) db));
  n ← rows_affected "reclaim expired delivery leases" k;
  mret (Z.of_nat n).
(* 341-364 YouTubeTargetPublicationRepository.MarkDeliveryBlockedAuth *)
Definition MarkDeliveryBlockedAuth (id : Z) (workerID reason : string) : M PubDB unit :=
  exec_pub "youtube target publication MarkDeliveryBlockedAuth" id (owned_by workerID) (λ e p,
    let q := queue p in
    unleased "failed" (AttemptCount q + 1) (NextAttemptAt q) (ResumeState q) reason (Some "blocked_auth")
      (db_now e) p).
