(* ===== verification/YouTubeQueueProps.v ===== *)
(** * The delivery queue: leases and dead ends

    Every statement of the queue changes a row only for a reason that shows in
    the row; from that follow the fencing of a lease and the fate of a row that
    keeps the state [uploading] without a lease. *)

From S2P Require Import Prelude Store YouTubeQueue.
From Stdlib Require Import ZArith Lia.
Local Open Scope Z_scope.

(** ** Operations of the queue *)
Inductive QueueOp :=
| QClaim (workerID : string) (limit lease : Z)
| QHeartbeat (id : Z) (workerID : string) (lease : Z)
| QRelease (id : Z) (workerID : string)
| QUploaded (id : Z) (workerID videoID : string)
| QFailed (id : Z) (workerID code msg : string) (next : Z)
| QQuotaWait (id : Z) (workerID : string) (next : Z)
| QBlockedAuth (id : Z) (workerID reason : string)
| QReclaim (maxRows : Z).
Definition run_queue_op (o : QueueOp) (e : Env) (db : PubDB) : PubDB :=
  match o with
  | QClaim w limit lease => state_of (ClaimReadyDeliveries w limit lease e (db, O))
  | QHeartbeat id w lease => state_of (HeartbeatDelivery id w lease e (db, O))
  | QRelease id w => state_of (ReleaseDeliveryLease id w e (db, O))
  | QUploaded id w v => state_of (MarkDeliveryUploaded id w v e (db, O))
  | QFailed id w c m next => state_of (MarkDeliveryFailed id w c m next e (db, O))
  | QQuotaWait id w next => state_of (MarkDeliveryQuotaWait id w next e (db, O))
  | QBlockedAuth id w r => state_of (MarkDeliveryBlockedAuth id w r e (db, O))
  | QReclaim n => state_of (ReclaimExpiredDeliveryLeases n e (db, O))
  end.
Definition queue_history (l : list (QueueOp * Env)) (db : PubDB) : PubDB :=
  foldl (λ db oe, run_queue_op oe.1 oe.2 db) db l.
Definition pubs_ok (db : PubDB) : Prop := ∀ id p, pubs db !! id = Some p → ID p = id.
(** Without it the statement leaves the row alone. *)
Definition may_change (o : QueueOp) (e : Env) (p : Pub) : bool :=
  match o with
  | QClaim _ _ _ => eligible (db_now e) p
  | QReclaim _ => lease_expired (db_now e) p
  | QHeartbeat _ w _ | QRelease _ w | QUploaded _ w _ | QFailed _ w _ _ _ | QQuotaWait _ w _
  | QBlockedAuth _ w _ => owned_by w p
  end.

(** [keeps id p db db']: a well-formed [db] that has [p] gives a well-formed [db']
    that has it. *)
Definition keeps (id : Z) (p : Pub) (db db' : PubDB) : Prop :=
  pubs_ok db → pubs db !! id = Some p → pubs_ok db' ∧ pubs db' !! id = Some p.
#[export] Instance keeps_preorder id p : PreOrder (keeps id p).
Proof. split; [by intros ?|]. intros a b c H1 H2 Ha Hp. destruct (H1 Ha Hp). by apply H2. Qed.

Lemma update_keeps id p i q f db k t : (∀ r, ID (f r) = ID r) → (i = id → q p = false) →
  update_row i q f (pubs db) = (k, t) → keeps id p db (put_pubs t db).
Proof.
  intros Hf Hq E Hok Hp. assert (t = (update_row i q f (pubs db)).2) as -> by by rewrite E. clear E.
  split.
  - intros j r [Hr|(-> & r0 & Hr & _ & ->)]%update_row_lookup; [by apply Hok|]. rewrite Hf. by apply Hok.
  - cbn [pubs put_pubs]. destruct (decide (id = i)) as [<-|Hne]; [|by rewrite update_row_other].
    rewrite (update_row_row _ _ _ _ _ Hp). by rewrite Hq.
Qed.
Lemma update_pub_keeps id p op i q f : (∀ e r, ID (f e r) = ID r) → q p = false →
  respects (keeps id p) (update_pub op i q f).
Proof.
  intros Hf Hq. apply respects_exec; [apply _|]. intros e db.
  destruct (update_row i q (f e) (pubs db)) as [k t] eqn:E. cbn [snd].
  apply (update_keeps id p i q (f e) db k t); [apply Hf|done|done].
Qed.
Lemma checkRows_keeps id p i k : respects (keeps id p) (checkRowsAffected i k).
Proof.
  unfold checkRowsAffected. apply respects_bind; [apply _|apply respects_rows, _|].
  intros n. case_bool_decide; (apply respects_throw, _) || (apply respects_ret, _).
Qed.
Lemma exec_pub_keeps id p op i q f : (∀ e r, ID (f e r) = ID r) → q p = false →
  respects (keeps id p) (exec_pub op i q f).
Proof.
  intros Hf Hq. unfold exec_pub. apply respects_bind; [apply _|by apply update_pub_keeps|].
  intros k. apply checkRows_keeps.
Qed.
(** Writing back a list of rows that does not have [p]. *)
Lemma write_keeps id p db (f : Pub → Pub) l : (∀ r, ID (f r) = ID r) →
  (∀ r, r ∈ l → ∃ i, pubs db !! i = Some r) → p ∉ l →
  keeps id p db (put_pubs (foldr (λ r t, <[ID r := f r]> t) (pubs db) l) db).
Proof.
  intros Hf Hl Hp Hok Hr. induction l as [|r l IH]; [by split|]. cbn [foldr].
  destruct IH as [IH1 IH2]; [set_solver..|]. unfold pubs_ok in *. cbn [pubs put_pubs] in *. split.
  - intros i x [[<- <-]|[_ Hx]]%lookup_insert_Some; [by rewrite Hf|by apply IH1].
  - rewrite lookup_insert_ne; [done|]. intros Hi. destruct (Hl r) as [i Hir]; [left|].
    rewrite (Hok _ _ Hir) in Hi. subst i. rewrite Hr in Hir. simplify_eq. destruct Hp. left.
Qed.
Lemma rows_in db r : r ∈ (map_to_list (pubs db)).*2 → ∃ i, pubs db !! i = Some r.
Proof. intros ([i r'] & -> & H)%list_elem_of_fmap. exists i. by apply elem_of_map_to_list in H. Qed.
Lemma filter_elem {A} (f : A → bool) l x : x ∈ List.filter f l ↔ x ∈ l ∧ f x = true.
Proof. by rewrite !list_elem_of_In, filter_In. Qed.
Lemma take_elem {A} n (l : list A) x : x ∈ take n l → x ∈ l.
Proof. intros (i & H & _)%elem_of_take. by eapply list_elem_of_lookup_2. Qed.
Lemma picked_elem limit e db r : r ∈ picked limit e db →
  (∃ i, pubs db !! i = Some r) ∧ eligible (db_now e) r = true.
Proof.
  intros H%take_elem. rewrite sort_by_perm in H. apply filter_elem in H as [H [Hr _]%andb_true_iff].
  split; [by apply rows_in|done].
Qed.
Lemma pub_rows_elem db r : r ∈ pub_rows db → ∃ i, pubs db !! i = Some r.
Proof. unfold pub_rows. rewrite sort_by_perm. apply rows_in. Qed.
Lemma claim_keeps_ineligible id p w limit lease e db : eligible (db_now e) p = false →
  keeps id p db (put_pubs (foldr (λ p t, <[ID p := p]> t) (pubs db) (claimed w lease e <$> picked limit e db)) db).
Proof.
  intros H. rewrite foldr_fmap. apply (write_keeps id p db (claimed w lease e)); [done| |].
  - intros r Hr. by apply picked_elem in Hr as [? _].
  - intros Hin. apply picked_elem in Hin as [_ Hin]. by rewrite H in Hin.
Qed.
Lemma run_exec_keeps {A} id p op (f : Env → PubDB → A * PubDB) e db n :
  keeps id p db (f e db).2 → keeps id p db (state_of (exec op f e (db, n))).
Proof.
  intros H. unfold exec, state_of. destruct (fault e n); [|reflexivity|done]. by destruct (f e db).
Qed.
Lemma bind_rows_state {S} (m : M S nat) op e w :
  state_of ((k ← m; n ← rows_affected op k; mret (Z.of_nat n)) e w) = state_of (m e w).
Proof.
  unfold mbind, M_bind, state_of, rows_affected, exec. destruct (m e w) as [[er|k] [s n]]; [done|].
  by destruct (fault e n).
Qed.
Lemma queue_op_keeps o e db id p : may_change o e p = false → keeps id p db (run_queue_op o e db).
Proof.
  assert (R : ∀ A (m : M PubDB A), respects (keeps id p) m → keeps id p db (state_of (m e (db, O)))).
  { intros A m H. apply (H e db O). }
  destruct o as [w limit lease|i w lease|i w|i w v|i w c m next|i w next|i w r|n]; cbn [may_change run_queue_op]; intros H.
  - unfold ClaimReadyDeliveries. repeat (case_match; [reflexivity|]). apply run_exec_keeps.
    by apply claim_keeps_ineligible.
  - apply R. unfold HeartbeatDelivery. repeat (case_match; [apply respects_throw, _|]).
    apply respects_bind; [apply _|by apply update_pub_keeps|]. intros k.
    apply respects_bind; [apply _|apply respects_exec; [apply _|reflexivity]|]. intros; apply respects_ret, _.
  - by apply R, exec_pub_keeps.
  - apply R. unfold MarkDeliveryUploaded. case_match; [apply respects_throw, _|]. by apply exec_pub_keeps.
  - by apply R, exec_pub_keeps.
  - by apply R, exec_pub_keeps.
  - by apply R, exec_pub_keeps.
  - unfold ReclaimExpiredDeliveryLeases.
    match goal with |- context [exec ?o ?f] => set (F := f); set (op := o) end.
    assert (K : keeps id p db (F e db).2).
    { apply (write_keeps id p db (reclaimed e)); [done| |].
      - intros r Hr%take_elem. apply filter_elem in Hr as [Hr _]. by apply pub_rows_elem.
      - intros Hin%take_elem. apply filter_elem in Hin as [_ [Hin _]%andb_true_iff]. by rewrite H in Hin. }
    etrans; [apply (run_exec_keeps _ _ op F e db 0 K)|].
    rewrite bind_rows_state. unfold op. reflexivity.
Qed.
Lemma queue_history_keeps l : ∀ db id p, Forall (λ oe, may_change oe.1 oe.2 p = false) l →
  keeps id p db (queue_history l db).
Proof.
  intros db id p Hl. revert db. induction Hl as [|[o e] l H Hl IH]; intros db; [reflexivity|].
  cbn [queue_history foldl]. etrans; [by apply queue_op_keeps|apply IH].
Qed.

(** ** Claiming *)
Lemma written_lookup (t : gmap Z Pub) l x : NoDup (ID <$> l) → x ∈ l →
  (foldr (λ r t, <[ID r := r]> t) t l : gmap Z Pub) !! ID x = Some x.
Proof.
  induction l as [|r l IH]; [by intros _ []%not_elem_of_nil|]. cbn [fmap list_fmap foldr].
  intros [Hr Hl]%NoDup_cons [->|Hx]%elem_of_cons; [by rewrite lookup_insert_eq|].
  rewrite lookup_insert_ne; [by apply IH|]. intros E. apply Hr. rewrite E. by apply list_elem_of_fmap_2.
Qed.
Lemma table_ids_nodup db : pubs_ok db → NoDup (ID <$> (map_to_list (pubs db)).*2).
Proof.
  intros Hok. assert (ID <$> (map_to_list (pubs db)).*2 = (map_to_list (pubs db)).*1) as ->.
  { rewrite <- list_fmap_compose. apply list_fmap_ext. intros i [k p] H. cbn.
    apply Hok, elem_of_map_to_list. by eapply list_elem_of_lookup_2. }
  apply NoDup_fst_map_to_list.
Qed.
Lemma filter_nodup (f : Pub → bool) l : NoDup (ID <$> l) → NoDup (ID <$> List.filter f l).
Proof.
  induction l as [|r l IH]; [done|]. cbn [fmap list_fmap]. intros [Hr Hl]%NoDup_cons.
  simpl. destruct (f r); [|by apply IH]. cbn [fmap list_fmap]. constructor; [|by apply IH].
  intros (x & E & Hx)%list_elem_of_fmap. apply Hr. rewrite E. apply filter_elem in Hx as [Hx _].
  by apply list_elem_of_fmap_2.
Qed.
Lemma picked_nodup limit e db : pubs_ok db → NoDup (ID <$> picked limit e db).
Proof.
  intros Hok. unfold picked. rewrite fmap_take. eapply sublist_NoDup; [|apply sublist_take].
  rewrite sort_by_perm. by apply filter_nodup, table_ids_nodup.
Qed.
(** What [w] does itself is not by another. *)
Definition by_other (w : string) (o : QueueOp) : Prop :=
  match o with
  | QClaim _ _ _ | QReclaim _ => True
  | QHeartbeat _ v _ | QRelease _ v | QUploaded _ v _ | QFailed _ v _ _ _ | QQuotaWait _ v _
  | QBlockedAuth _ v _ => v ≠ w
  end.
Lemma leased_unchanged w t o e p : LeaseOwner (queue p) = Some w → LeaseExpiresAt (queue p) = Some t →
  by_other w o → db_now e ≤ t → may_change o e p = false.
Proof.
  intros Ho Hl Hb Ht.
  destruct o; cbn [may_change by_other] in *; unfold eligible, lease_expired, owned_by; rewrite ?Ho, ?Hl;
    try (rewrite bool_decide_false by congruence; done).
  - apply andb_false_iff. right. by apply Z.ltb_ge.
  - apply andb_false_iff. right. by apply Z.ltb_ge.
Qed.
Lemma claim_inr w limit lease e db n ps w1 : pubs_ok db →
  ClaimReadyDeliveries w limit lease e (db, n) = (inr ps, w1) →
  pubs_ok w1.1 ∧ (length ps ≤ Z.to_nat limit)%nat ∧
  ∀ p', p' ∈ ps → pubs w1.1 !! ID p' = Some p' ∧
    ∃ p, pubs db !! ID p' = Some p ∧ eligible (db_now e) p = true ∧ p' = claimed w lease e p.
Proof.
  intros Hok. unfold ClaimReadyDeliveries. repeat (case_match; [done|]). intros (_ & _ & Hf)%exec_inr.
  injection Hf as <- Hdb. rewrite <- Hdb. cbn [pubs put_pubs].
  assert (Hn : NoDup (ID <$> (claimed w lease e <$> picked limit e db))).
  { rewrite <- list_fmap_compose. by apply picked_nodup. }
  split.
  - intros i x. cbn [pubs put_pubs]. clear Hn Hdb.
    induction (claimed w lease e <$> picked limit e db) as [|r l IH]; cbn [foldr]; [by apply Hok|].
    intros [[<- <-]|[_ Hx]]%lookup_insert_Some; [done|]. by apply IH.
  - split; [rewrite length_fmap; unfold picked; rewrite length_take; lia|]. intros p' Hp'. split; [by apply written_lookup|].
    apply list_elem_of_fmap in Hp' as (p & -> & Hp). exists p.
    apply picked_elem in Hp as [[i Hi] He]. change (ID (claimed w lease e p)) with (ID p).
    by rewrite (Hok _ _ Hi).
Qed.

(** C28: a claim returns at most [limit] due deliveries, each stored as uploading
    under the worker's lease; and while the lease lasts, nothing that other
    workers do to the queue, and no claim or reclaim by anybody, with whatever
    faults, changes such a row or hands it out again. *)
Theorem claimed_delivery_exclusive (w : string) (limit lease : Z) (e : Env) (db : PubDB) (n : nat)
    (ps : list Pub) (w1 : PubDB * nat) (p' : Pub) (l : list (QueueOp * Env))
    (Hok : pubs_ok db) (Hclaim : ClaimReadyDeliveries w limit lease e (db, n) = (inr ps, w1)) (Hp : p' ∈ ps)
    (Hl : Forall (λ oe, by_other w oe.1 ∧ db_now oe.2 ≤ db_now e + lease_of lease) l) :
  (length ps ≤ Z.to_nat limit)%nat ∧
  (∃ p, pubs db !! ID p' = Some p ∧ eligible (db_now e) p = true ∧ p' = claimed w lease e p) ∧
  pubs (queue_history l w1.1) !! ID p' = Some p' ∧
  (∀ v limit' lease' e' m ps' w2, db_now e' ≤ db_now e + lease_of lease →
     ClaimReadyDeliveries v limit' lease' e' (queue_history l w1.1, m) = (inr ps', w2) →
     ∀ q, q ∈ ps' → ID q ≠ ID p').
Proof.
  destruct (claim_inr _ _ _ _ _ _ _ _ Hok Hclaim) as (Hok1 & Hlen & H). destruct (H _ Hp) as (Hrow & p & Hold & He & E).
  assert (L : LeaseOwner (queue p') = Some w ∧ LeaseExpiresAt (queue p') = Some (db_now e + lease_of lease)).
  { by rewrite E. }
  destruct L as [Ho Ht]. split; [done|]. split; [by exists p|].
  destruct (queue_history_keeps l w1.1 (ID p') p') as [Hok2 K]; [|done..|].
  { eapply Forall_impl; [exact Hl|]. intros [o e'] [Hb Hd]. by eapply leased_unchanged. }
  split; [done|]. intros v limit' lease' e' m ps' w2 Hd Hclaim' q Hq Eq.
  destruct (claim_inr _ _ _ _ _ _ _ _ Hok2 Hclaim') as (_ & _ & H2).
  destruct (H2 _ Hq) as (_ & p2 & Hp2 & He2 & _). rewrite Eq, K in Hp2. injection Hp2 as <-.
  pose proof (leased_unchanged w _ (QClaim v limit' lease') e' p' Ho Ht I Hd) as F. cbn [may_change] in F. congruence.
Qed.

(** Releasing the lease of a delivery that is uploading, which the worker does
    when it is told to stop and when there is nothing to do, leaves a row that
    keeps the state uploading without a lease, and no claim, reclaim or write
    of any worker, at any later time, ever changes it again: the delivery is
    lost to the queue. *)
Theorem released_delivery_stuck (w : string) (id : Z) (e : Env) (db : PubDB) (n : nat) (w1 : PubDB * nat)
    (p : Pub) (Hok : pubs_ok db) (Hp : pubs db !! id = Some p) (Hstate : State (queue p) = "uploading")
    (Hrelease : ReleaseDeliveryLease id w e (db, n) = (inr tt, w1)) :
  ∃ p', pubs w1.1 !! id = Some p' ∧ State (queue p') = "uploading" ∧ LeaseOwner (queue p') = None ∧
    LeaseExpiresAt (queue p') = None ∧
    (∀ l, pubs (queue_history l w1.1) !! id = Some p') ∧
    (∀ l v limit lease e' m ps w2,
       ClaimReadyDeliveries v limit lease e' (queue_history l w1.1, m) = (inr ps, w2) → ∀ q, q ∈ ps → ID q ≠ id).
Proof.
  unfold ReleaseDeliveryLease, exec_pub, update_pub in Hrelease.
  apply bind_inr in Hrelease as (k & wa & (_ & _ & Hf)%exec_inr & Hk).
  apply bind_inr in Hk as (j & wb & [-> Hst]%rows_inr & Hk). case_bool_decide as Hj; [done|].
  apply ret_inr in Hk as [_ ->]. rewrite Hst.
  destruct (update_row _ _ _ (pubs db)) as [k' t] eqn:Eu. injection Hf as -> Hwa. rewrite <- Hwa.
  destruct k as [|k]; [done|]. apply update_row_1 in Eu as (r & Hr & Hown & -> & _).
  rewrite Hp in Hr. injection Hr as <-. cbn [pubs put_pubs]. rewrite lookup_insert_eq.
  eexists. split; [reflexivity|]. split; [done|]. split; [done|]. split; [done|].
  match goal with |- context [Some ?q] => set (p' := q) end.
  set (db' := put_pubs _ db).
  assert (Hok' : pubs_ok db').
  { intros i x. unfold db'. cbn [pubs put_pubs].
    intros [[<- <-]|[_ Hx]]%lookup_insert_Some; [by apply (Hok id p Hp)|by apply Hok]. }
  assert (Hp' : pubs db' !! id = Some p') by apply lookup_insert_eq.
  assert (N : ∀ o e, may_change o e p' = false).
  { intros o e'. destruct o; cbn [may_change]; unfold eligible, lease_expired, owned_by, p', unleased, set_queue;
      cbn [queue State LeaseOwner LeaseExpiresAt]; try (by rewrite bool_decide_false); rewrite Hstate; [done|].
    by rewrite andb_false_r. }
  assert (K : ∀ l, pubs_ok (queue_history l db') ∧ pubs (queue_history l db') !! id = Some p').
  { intros l. apply queue_history_keeps; [|done..]. apply Forall_forall. intros [o e'] _. apply N. }
  split; [apply K|]. intros l v limit lease e' m ps w2 Hclaim q Hq Eq.
  destruct (claim_inr _ _ _ _ _ _ _ _ (proj1 (K l)) Hclaim) as (_ & _ & H2).
  destruct (H2 _ Hq) as (_ & p2 & Hp2 & He2 & _). rewrite Eq, (proj2 (K l)) in Hp2. injection Hp2 as <-.
  pose proof (N (QClaim v limit lease) e') as F. cbn [may_change] in F. congruence.
Qed.

(** ** Runs *)
Definition calm (t : Z) : Env := mkEnv t t (λ _, Fine) (λ _, false) (λ _, false) "".
Definition new_pub (target : Z) : Pub :=
  mkPub 0 4 target 30 "public" None None 100 None None None 0 (mkVideo None "youtube_uploading" None None None None)
    (mkEditing None None None None) (mkQueue "ready_to_upload" 0 8 None None None None None "" None 0) 0 0.
Definition created : PubDB :=
  state_of ((_ ← Create (λ _, true) (new_pub 20); Create (λ _, true) (new_pub 21)) (calm 0) (mkPubDB ∅ 1, O)).
Definition uploading : PubDB := state_of (ClaimReadyDeliveries "w1" 1 Minute (calm Second) (created, O)).
Lemma created_ok : pubs_ok created.
Proof.
  intros id p H. assert (Hin : (id, p) ∈ map_to_list (pubs created)) by by apply elem_of_map_to_list.
  revert Hin. revert id p H. assert (Forall (λ ip, ID ip.2 = ip.1) (map_to_list (pubs created))) as F.
  { vm_compute. repeat constructor. }
  rewrite Forall_forall in F. intros id p _ Hin. by apply F in Hin.
Qed.
Lemma uploading_ok : pubs_ok uploading.
Proof.
  unfold uploading. destruct (ClaimReadyDeliveries _ _ _ _ _) as [[er|ps] w1] eqn:E.
  - exfalso. revert E. vm_compute. done.
  - by apply claim_inr in E as [H _]; [|apply created_ok].
Qed.
Lemma claimed_delivery_exclusive_witness :
  ∃ ps w1 p', ClaimReadyDeliveries "w1" 1 Minute (calm Second) (created, O) = (inr ps, w1) ∧ p' ∈ ps ∧
    pubs (queue_history [(QReclaim 10, calm Minute); (QFailed 1 "w2" "x" "y" 0, calm Minute)] w1.1) !! ID p' = Some p'.
Proof.
  destruct (ClaimReadyDeliveries "w1" 1 Minute (calm Second) (created, O)) as [[er|ps] w1] eqn:E;
    [exfalso; revert E; vm_compute; done|].
  destruct ps as [|p' ps]; [exfalso; revert E; vm_compute; done|].
  exists (p' :: ps), w1, p'. split; [done|]. split; [left|].
  refine (proj1 (proj2 (proj2 (claimed_delivery_exclusive "w1" 1 Minute (calm Second) created O (p' :: ps) w1 p'
    _ created_ok E _ _)))).
  - left.
  - repeat constructor; vm_compute; discriminate.
Defined.
Lemma released_delivery_stuck_witness :
  ∃ p w1 p', pubs uploading !! 1 = Some p ∧ State (queue p) = "uploading" ∧
    ReleaseDeliveryLease 1 "w1" (calm (2 * Second)) (uploading, O) = (inr tt, w1) ∧
    pubs (queue_history [(QReclaim 10, calm Hour); (QClaim "w2" 5 Minute, calm (2 * Hour))] w1.1) !! 1 = Some p'
    ∧ State (queue p') = "uploading".
Proof.
  destruct (pubs uploading !! 1) as [p|] eqn:Hp; [|exfalso; revert Hp; vm_compute; done].
  assert (Hs : State (queue p) = "uploading") by (revert Hp; vm_compute; by intros [= <-]).
  destruct (ReleaseDeliveryLease 1 "w1" (calm (2 * Second)) (uploading, O)) as [[er|[]] w1] eqn:E;
    [exfalso; revert E; vm_compute; done|].
  destruct (released_delivery_stuck "w1" 1 (calm (2 * Second)) uploading O w1 p uploading_ok Hp Hs E)
    as (p' & _ & Hs' & _ & _ & H & _).
  exists p, w1, p'. split; [done|]. split; [done|]. split; [done|]. split; [apply H|done].
Defined.
(** A worker that dies never spends an attempt: the row is reclaimed with the
    count it had. *)
Example crash_is_free :
  (λ p, (State (queue p), AttemptCount (queue p))) <$>
    pubs (queue_history [(QReclaim 10, calm Hour); (QClaim "w2" 1 Minute, calm Hour); (QReclaim 10, calm (2 * Hour));
                         (QClaim "w3" 1 Minute, calm (2 * Hour)); (QReclaim 10, calm (3 * Hour))] uploading) !! 1 =
  Some ("ready_to_upload", 0).
Proof. vm_compute. reflexivity. Qed.
(** A cleared upload keeps its state, which nothing claims. *)
Example cleared_upload_not_claimed :
  let db := state_of (MarkDeliveryUploaded 1 "w1" "vid" (calm Minute) (uploading, O)) in
  let db' := state_of (ClearYouTubeUpload 1 (calm Hour) (db, O)) in
  (λ p, (State (queue p), YouTubeVideoID (video p), eligible (2 * Hour) p)) <$> pubs db' !! 1 =
  Some ("youtube_uploaded", None, false).
Proof. vm_compute. reflexivity. Qed.
