(* ===== verification/YouTubeQuota.v ===== *)
(** * The YouTube quota gate

    [src/internal/repository/youtube_quota_repo.go] counts the calls of a day in
    one row per quota day and bucket; [src/internal/services/youtube_quota_manager.go]
    is asked before every call.  The quota day is the date in Los Angeles; the
    time zone database is an argument: the day's date and the next midnight. *)

From S2P Require Import Prelude Store.
From Stdlib Require Import ZArith Lia.
Local Open Scope Z_scope.

(* Source: internal/repository/youtube_quota_repo.go *)
Definition YouTubeQuotaBucketVideoUploads : string := "video_uploads". (* 45 *)
Definition YouTubeQuotaBucketSearches : string := "searches". (* 46 *)
Definition YouTubeQuotaBucketGeneral : string := "general". (* 47 *)
(** The row of migration 124, by date and bucket. *)
Record QuotaRow := mkQuotaRow { calls : Z; errors : Z; limit : Z; last_reset_at : Z }.
Notation QuotaDB := (@gmap (string * string) (@prod_eq_dec string String.eq_dec string String.eq_dec)
  (@prod_countable string String.eq_dec String.countable string String.eq_dec String.countable) QuotaRow).
(** [INT] columns and the CHECK on the bucket. *)
Definition in_int4 (z : Z) : bool := (-2147483648 <=? z) && (z <=? 2147483647).
Definition known_bucket (bucket : string) : bool :=
  bool_decide (bucket ∈ [YouTubeQuotaBucketVideoUploads; YouTubeQuotaBucketSearches; YouTubeQuotaBucketGeneral]).
(** A statement that PostgreSQL may reject. *)
Definition exec_checked {A} (op : string) (f : Env → QuotaDB → option (A * QuotaDB)) : M QuotaDB A :=
  r ← exec op (λ e db, match f e db with None => (None, db) | Some (a, db') => (Some a, db') end);
  match r with None => throw (db_err op) | Some a => mret a end.

Section Quota.
Context (quotaDayKey : Z → string) (next_midnight : Z → Z).
(* 142-206 YouTubeDailyQuotaRepository.ReserveQuota *)
Definition reserve_tx (bucket : string) (cost defaultLimit : Z) : M QuotaDB (TxOut (bool * Z)) :=
  env ← ask;
  let now := app_now env in
  let k := (quotaDayKey now, bucket) in
  _ ← exec_checked "youtube quota: upsert daily row" (λ e db,
        if negb (known_bucket bucket) || negb (in_int4 defaultLimit) then None
        else Some (tt, match db !! k with
                       | Some _ => db
                       | None => <[k := mkQuotaRow 0 0 defaultLimit (db_now e)]> db
                       end));
  row ← exec_checked "youtube quota: lock + read" (λ _ db, (λ r, (r, db)) <$> db !! k);
  _ ← (if limit row <? defaultLimit then
         exec_checked "youtube quota: update limit" (λ _ db,
           Some (tt, alter (λ r, mkQuotaRow (calls r) (errors r) defaultLimit (last_reset_at r)) k db))
       else mret tt);
  let effectiveLimit := if limit row <? defaultLimit then defaultLimit else limit row in
  if effectiveLimit <? wrap64 (calls row + cost) then
    let gap := Z.max 0 (next_midnight now - now) in
    mret (Rollback (false, Z.quot gap Second))
  else
    _ ← exec_checked "youtube quota: increment calls" (λ _ db,
          if negb (in_int4 cost) || negb (in_int4 (calls row + cost)) then None
          else Some (tt, alter (λ r, mkQuotaRow (calls r + cost) (errors r) (limit r) (last_reset_at r)) k db));
    mret (Commit (true, 0)).
(* 117-207 YouTubeDailyQuotaRepository.ReserveQuota *)
Definition ReserveQuota (bucket : string) (cost defaultLimit : Z) : M QuotaDB (bool * Z) :=
  if bool_decide (bucket = "") then throw (errors_new "youtube quota: bucket must not be empty")
  else if cost <? 1 then
    throw (errors_new ("youtube quota: cost=" +:+ itoa cost +:+ " must be >= 1"))
  else if defaultLimit <? 1 then
    throw (errors_new ("youtube quota: defaultLimit=" +:+ itoa defaultLimit +:+ " must be >= 1"))
  else transact "youtube quota" (reserve_tx bucket cost defaultLimit).
(* 221-237 YouTubeDailyQuotaRepository.RecordError *)
Definition repo_RecordError (bucket : string) (defaultLimit : Z) : M QuotaDB unit :=
  if bool_decide (bucket = "") then throw (errors_new "youtube quota: bucket must not be empty")
  else exec_checked "youtube quota: record error" (λ e db,
    let k := (quotaDayKey (app_now e), bucket) in
    if negb (known_bucket bucket) || negb (in_int4 defaultLimit) then None
    else match db !! k with
         | None => Some (tt, <[k := mkQuotaRow 0 1 defaultLimit (db_now e)]> db)
         | Some r => if in_int4 (errors r + 1) then
                       Some (tt, <[k := mkQuotaRow (calls r) (errors r + 1) (limit r) (last_reset_at r)]> db)
                     else None
         end).
(** No row is the zero snapshot. *)
(* 252-276 YouTubeDailyQuotaRepository.GetSnapshot *)
Definition GetSnapshot (bucket : string) : M QuotaDB (option QuotaRow) :=
  if bool_decide (bucket = "") then throw (errors_new "youtube quota: bucket must not be empty")
  else exec "youtube quota: get snapshot" (λ e db, (db !! (quotaDayKey (app_now e), bucket), db)).

(** ** The manager *)
(* Source: internal/services/youtube_quota_manager.go *)
(* 68-75 youtubeOperationSpecs *)
Definition youtubeOperationSpecs (operation : string) : option (string * Z) :=
  List.find (λ '(op, _), bool_decide (op = operation))
    [("videos.insert", (YouTubeQuotaBucketVideoUploads, 1)); ("search.list", (YouTubeQuotaBucketSearches, 1));
     ("videos.update", (YouTubeQuotaBucketGeneral, 50)); ("videos.list", (YouTubeQuotaBucketGeneral, 1));
     ("thumbnails.set", (YouTubeQuotaBucketGeneral, 50)); ("channels.list", (YouTubeQuotaBucketGeneral, 1))]
  ≫= λ '(_, spec), Some spec.
(* 79-83 YouTubeQuotaLimits *)
Record YouTubeQuotaLimits := mkLimits { VideoUploads : Z; Searches : Z; General : Z }.
(* 87-89 DefaultYouTubeQuotaLimits *)
Definition DefaultYouTubeQuotaLimits : YouTubeQuotaLimits := mkLimits 100 100 10000.
(* 92-104 YouTubeQuotaLimits.forBucket *)
Definition forBucket (l : YouTubeQuotaLimits) (bucket : string) : err + Z :=
  if bool_decide (bucket = YouTubeQuotaBucketVideoUploads) then inr (VideoUploads l)
  else if bool_decide (bucket = YouTubeQuotaBucketSearches) then inr (Searches l)
  else if bool_decide (bucket = YouTubeQuotaBucketGeneral) then inr (General l)
  else inl (errors_new ("youtube quota: unknown bucket " +:+ quote bucket +:+
    " (known: video_uploads, searches, general)")).
(* 132-143 NewYouTubeQuotaManager *)
Definition NewYouTubeQuotaManager (l : YouTubeQuotaLimits) : YouTubeQuotaLimits :=
  let or (v d : Z) := if v =? 0 then d else v in
  mkLimits (or (VideoUploads l) 100) (or (Searches l) 100) (or (General l) 10000).
Context (limits : YouTubeQuotaLimits).
(* 159-165 YouTubeQuotaManager.Reserve *)
Definition Reserve (bucket : string) (cost : Z) : M QuotaDB (bool * Z) :=
  match forBucket limits bucket with
  | inl er => throw er
  | inr limit => ReserveQuota bucket cost limit
  end.
(* 172-178 YouTubeQuotaManager.ReserveOperation *)
Definition ReserveOperation (operation : string) : M QuotaDB (bool * Z) :=
  match youtubeOperationSpecs operation with
  | None => throw (errors_new ("youtube quota: unknown operation " +:+ quote operation))
  | Some (bucket, cost) => Reserve bucket cost
  end.
(* 183-189 YouTubeQuotaManager.OperationSpec *)
Definition OperationSpec (operation : string) : err + (string * Z) :=
  match youtubeOperationSpecs operation with
  | None => inl (errors_new ("youtube quota: unknown operation " +:+ quote operation))
  | Some spec => inr spec
  end.
(* 195-201 YouTubeQuotaManager.RecordError *)
Definition RecordError (bucket : string) : M QuotaDB unit :=
  match forBucket limits bucket with
  | inl er => throw er
  | inr limit => repo_RecordError bucket limit
  end.
(** [MediaTime{}] of a missing row is 0. *)
(* 206-225 YouTubeQuotaManager.Snapshot *)
Definition Snapshot (bucket : string) : M QuotaDB QuotaRow :=
  match forBucket limits bucket with
  | inl er => throw er
  | inr dflt =>
      r ← GetSnapshot bucket;
      let s := default (mkQuotaRow 0 0 0 0) r in
      mret (mkQuotaRow (calls s) (errors s) (if limit s =? 0 then dflt else limit s) (last_reset_at s))
  end.
End Quota.

(** ** Histories *)
Inductive QuotaOp := OpReserve (operation : string) | OpRecordError (bucket : string).
Section Histories.
Context (quotaDayKey : Z → string) (next_midnight : Z → Z).
(** One request against managers whose limits may differ, and what it was
    granted: the day, the bucket and the cost. *)
Definition grant (op : string) (e : Env) (r : err + bool * Z) : list (string * string * Z) :=
  match r, youtubeOperationSpecs op with
  | inr (true, _), Some (bucket, cost) => [(quotaDayKey (app_now e), bucket, cost)]
  | _, _ => []
  end.
Definition quota_step (s : QuotaDB * list (string * string * Z)) (x : YouTubeQuotaLimits * QuotaOp * Env) :
    QuotaDB * list (string * string * Z) :=
  let '(limits, o, e) := x in
  match o with
  | OpReserve op =>
      let r := ReserveOperation quotaDayKey next_midnight limits op e (s.1, O) in
      (state_of r, grant op e (result_of r) ++ s.2)
  | OpRecordError b => (state_of (RecordError quotaDayKey limits b e (s.1, O)), s.2)
  end.
Definition quota_history (l : list (YouTubeQuotaLimits * QuotaOp * Env)) : QuotaDB * list (string * string * Z) :=
  foldl quota_step (∅, []) l.
(** The units granted on a day in a bucket. *)
Definition granted (day bucket : string) (g : list (string * string * Z)) : Z :=
  foldr (λ '(d, b, c) acc, if bool_decide (d = day ∧ b = bucket) then c + acc else acc) 0 g.
End Histories.

(** ** The rows *)
Definition units (db : QuotaDB) (day bucket : string) : Z := default 0 (calls <$> db !! (day, bucket)).
Definition quota_ok (L : string → Z) (db : QuotaDB) : Prop := ∀ d b r, db !! (d, b) = Some r →
  0 ≤ calls r ≤ limit r ∧ limit r ≤ L b ∧ limit r ≤ 2147483647.
Lemma exec_checked_inr {A} (op : string) (f : Env → QuotaDB → option (A * QuotaDB)) e (db : QuotaDB) n a w' :
  exec_checked op f e (db, n) = (inr a, w') → f e db = Some (a, w'.1).
Proof.
  intros (r & [s m] & (_ & _ & Hf)%exec_inr & Hk)%bind_inr. cbn [fst] in Hf.
  destruct (f e db) as [[a' db']|]; injection Hf as <- <-; [|done]. by apply ret_inr in Hk as [-> ->].
Qed.
Section Reserving.
Context (quotaDayKey : Z → string) (next_midnight : Z → Z) (L : string → Z).
(** What a committed reservation does: one row, by the cost, within the limit. *)
Lemma reserve_tx_commit bucket cost dflt e db n a db' n' :
  1 ≤ cost → 1 ≤ dflt ≤ L bucket → quota_ok L db →
  reserve_tx quotaDayKey next_midnight bucket cost dflt e (db, n) = (inr (Commit a), (db', n')) →
  a = (true, 0) ∧ quota_ok L db' ∧ units db' (quotaDayKey (app_now e)) bucket =
                                  units db (quotaDayKey (app_now e)) bucket + cost ∧
  ∀ d b, (d, b) ≠ (quotaDayKey (app_now e), bucket) → units db' d b = units db d b.
Proof.
  intros Hc Hd Hok H. unfold reserve_tx in H. apply bind_inr in H as (e' & w0 & [-> ->]%ask_inr & H).
  set (k := (quotaDayKey (app_now e), bucket)) in *.
  apply bind_inr in H as ([] & [db1 n1] & H1%exec_checked_inr & H). cbn [fst] in H1.
  destruct (negb _ || negb (in_int4 dflt)) eqn:Hin; [done|].
  apply orb_false_iff in Hin as [_ Hin%negb_false_iff]. unfold in_int4 in Hin.
  apply andb_true_iff in Hin as [Hin1%Z.leb_le Hin2%Z.leb_le]. injection H1 as H1.
  apply bind_inr in H as (row & [db2 n2] & H2%exec_checked_inr & H). cbn [fst] in H2.
  destruct (db1 !! k) as [r|] eqn:Hr; [|done]. injection H2 as <- <-.
  assert (Hr0 : calls r = units db (quotaDayKey (app_now e)) bucket ∧ 0 ≤ calls r ≤ limit r ∧
                limit r ≤ L bucket ∧ limit r ≤ 2147483647).
  { unfold units. fold k. destruct (db !! k) as [r0|] eqn:E; cbv beta iota in H1; rewrite <- H1 in Hr.
    - rewrite E in Hr. injection Hr as <-. split; [done|]. by apply (Hok _ _ _ E).
    - rewrite lookup_insert_eq in Hr. injection Hr as <-. cbn. lia. }
  destruct Hr0 as (Hu & Hcl & HL & Hi).
  set (lim := if limit r <? dflt then dflt else limit r) in *.
  apply bind_inr in H as ([] & [db3 n3] & H3 & H).
  assert (E3 : ∃ r3, db3 !! k = Some r3 ∧ calls r3 = calls r ∧ limit r3 = lim ∧
               ∀ j, j ≠ k → db3 !! j = db !! j).
  { assert (Hoth : ∀ j, j ≠ k → db1 !! j = db !! j).
    { intros j Hj. rewrite <- H1. destruct (db !! k); [done|]. by rewrite lookup_insert_ne. }
    unfold lim. destruct (limit r <? dflt).
    - apply exec_checked_inr in H3. injection H3 as <-. cbn [fst].
      eexists. rewrite lookup_alter_eq, Hr. split; [reflexivity|]. split; [done|]. split; [done|].
      intros j Hj. rewrite lookup_alter_ne by done. by apply Hoth.
    - apply ret_inr in H3 as [_ [= -> ->]]. by exists r. }
  destruct E3 as (r3 & Hr3 & Hc3 & Hl3 & Hoth).
  assert (Hlim : lim ≤ L bucket ∧ limit r ≤ lim ∧ lim ≤ 2147483647).
  { unfold lim. destruct (Z.ltb_spec (limit r) dflt); lia. }
  destruct (lim <? wrap64 (calls r + cost)) eqn:Hw; [by apply ret_inr in H as [[=] _]|].
  apply Z.ltb_ge in Hw. apply bind_inr in H as ([] & [db4 n4] & H4%exec_checked_inr & H). cbn [fst] in H4.
  destruct (negb _ || _) eqn:H5; [done|]. injection H4 as <-.
  apply orb_false_iff in H5 as [H5%negb_false_iff H6%negb_false_iff]. unfold in_int4 in H5, H6.
  apply andb_true_iff in H5 as [_ H5%Z.leb_le]. apply andb_true_iff in H6 as [_ H6%Z.leb_le].
  apply ret_inr in H as [[= <-] [= -> ->]].
  rewrite wrap64_id in Hw by (unfold in_int64, int64_min, int64_max; lia).
  assert (Hk4 : (alter (λ r, mkQuotaRow (calls r + cost) (errors r) (limit r) (last_reset_at r)) k db3) !! k =
    Some (mkQuotaRow (calls r + cost) (errors r3) lim (last_reset_at r3))).
  { rewrite lookup_alter_eq, Hr3. cbn. by rewrite Hc3, Hl3. }
  split; [done|]. split; [|split].
  - intros d b x Hx. destruct (decide ((d, b) = k)) as [E|E].
    + rewrite E, Hk4 in Hx. injection Hx as <-. injection E as -> ->. cbn. lia.
    + rewrite lookup_alter_ne, Hoth in Hx by done. by apply (Hok d b).
  - unfold units. fold k. rewrite Hk4. cbn. rewrite Hu. unfold units. by fold k.
  - intros d b E. unfold units. by rewrite lookup_alter_ne, Hoth.
Qed.

Lemma ReserveQuota_step bucket cost dflt e db n : dflt ≤ L bucket → quota_ok L db →
  let r := ReserveQuota quotaDayKey next_midnight bucket cost dflt e (db, n) in
  quota_ok L (state_of r) ∧ (∀ d b, units db d b ≤ units (state_of r) d b) ∧
  (∀ retry, result_of r = inr (true, retry) → 1 ≤ cost ∧
     units (state_of r) (quotaDayKey (app_now e)) bucket = units db (quotaDayKey (app_now e)) bucket + cost).
Proof.
  intros Hd Hok. unfold ReserveQuota. case_bool_decide; [done|].
  destruct (Z.ltb_spec cost 1); [done|]. destruct (Z.ltb_spec dflt 1); [done|]. cbv zeta.
  set (tx := reserve_tx quotaDayKey next_midnight bucket cost dflt).
  assert (P : ∀ a n' s', tx e (db, S n) = (inr (Commit a), (s', n')) → a = (true, 0) ∧ quota_ok L s' ∧
    (∀ d b, units db d b ≤ units s' d b) ∧
    units s' (quotaDayKey (app_now e)) bucket = units db (quotaDayKey (app_now e)) bucket + cost).
  { intros a n' s' Htx. destruct (reserve_tx_commit bucket cost dflt e db (S n) a s' n') as (-> & K1 & K2 & K3);
      [lia|lia|done|done|].
    split; [done|]. split; [done|]. split; [|done]. intros d b.
    destruct (decide ((d, b) = (quotaDayKey (app_now e), bucket))) as [[= -> ->]|E]; [lia|]. rewrite K3 by done. lia. }
  split; [|split].
  - destruct (transact_atomic "youtube quota" tx e db n) as [->|(a & n' & Htx)]; [done|]. by eapply P.
  - destruct (transact_atomic "youtube quota" tx e db n) as [->|(a & n' & Htx)]; [done|]. by eapply P.
  - intros retry Hr. split; [lia|].
    destruct (transact "youtube quota" tx e (db, n)) as [r w'] eqn:E. cbn in Hr. subst r.
    apply transact_inr in E as [(n' & Htx)|(_ & w1 & Htx)]; [by eapply P|]. exfalso.
    unfold tx, reserve_tx in Htx. apply bind_inr in Htx as (e' & w0 & [-> ->]%ask_inr & Hx).
    do 3 (apply bind_inr in Hx as (? & ? & _ & Hx)).
    destruct (_ <? wrap64 _); [by apply ret_inr in Hx as [[=] _]|].
    apply bind_inr in Hx as (? & ? & _ & Hx). by apply ret_inr in Hx as [[=] _].
Qed.
End Reserving.

Section Budget.
Context (quotaDayKey : Z → string) (next_midnight : Z → Z) (L : string → Z).
(** The limits of a manager are not negative and at most [L]. *)
Definition within (limits : YouTubeQuotaLimits) : Prop := ∀ b v, forBucket limits b = inr v → 0 ≤ v ≤ L b.
Lemma ReserveOperation_step limits op e db n : within limits → quota_ok L db →
  let r := ReserveOperation quotaDayKey next_midnight limits op e (db, n) in
  quota_ok L (state_of r) ∧ (∀ d b, units db d b ≤ units (state_of r) d b) ∧
  (∀ retry bucket cost, result_of r = inr (true, retry) → youtubeOperationSpecs op = Some (bucket, cost) →
     units (state_of r) (quotaDayKey (app_now e)) bucket = units db (quotaDayKey (app_now e)) bucket + cost).
Proof.
  intros Hl Hok. unfold ReserveOperation, Reserve. destruct (youtubeOperationSpecs op) as [[bucket cost]|]; [|done].
  destruct (forBucket limits bucket) as [er|dflt] eqn:E; [done|].
  destruct (ReserveQuota_step quotaDayKey next_midnight L bucket cost dflt e db n (proj2 (Hl _ _ E)) Hok) as (K1 & K2 & K3).
  split; [done|]. split; [done|]. intros retry b c Hr [= <- <-]. by apply (K3 retry).
Qed.
Lemma RecordError_step limits b e db n : within limits → quota_ok L db →
  let s := state_of (RecordError quotaDayKey limits b e (db, n)) in
  quota_ok L s ∧ ∀ d b', units db d b' ≤ units s d b'.
Proof.
  intros Hl Hok. unfold RecordError. destruct (forBucket limits b) as [er|dflt] eqn:E; [done|].
  specialize (Hl _ _ E). unfold repo_RecordError. case_bool_decide; [done|]. cbv zeta.
  set (R := λ db db' : QuotaDB, quota_ok L db → quota_ok L db' ∧ ∀ d b', units db d b' ≤ units db' d b').
  assert (PreOrder R) as HR.
  { split; [by intros ?|]. intros x y z H1 H2 Hx. destruct (H1 Hx) as [Hy K1]. destruct (H2 Hy) as [Hz K2].
    split; [done|]. intros d b'. specialize (K1 d b'). specialize (K2 d b'). lia. }
  match goal with |- context [exec_checked ?o ?g] => set (op := o); set (f := g) end.
  assert (K : respects R (exec_checked op f)); [|exact (K e db n Hok)].
  unfold exec_checked. apply respects_bind; [apply _| |intros [a|]; (apply respects_ret, _) || (apply respects_throw, _)].
  apply respects_exec; [apply _|]. clear e db Hok. intros e db Hok. unfold f. clear f.
  destruct (negb _ || negb (in_int4 dflt)) eqn:Hin; [by split|].
  set (k := (quotaDayKey (app_now e), b)). destruct (db !! k) as [r|] eqn:Hr.
  - destruct (in_int4 (errors r + 1)); [|by split]. cbn [snd]. split.
    + intros d b' x. destruct (decide ((d, b') = k)) as [Hk|Hne].
      * rewrite Hk, lookup_insert_eq. intros [= <-]. injection Hk as -> ->. cbn. apply (Hok _ _ _ Hr).
      * rewrite lookup_insert_ne by done. apply Hok.
    + intros d b'. unfold units. destruct (decide ((d, b') = k)) as [->|Hne].
      * rewrite lookup_insert_eq. fold k. rewrite Hr. cbn. lia.
      * rewrite lookup_insert_ne by done. lia.
  - apply orb_false_iff in Hin as [_ Hin%negb_false_iff]. unfold in_int4 in Hin.
    apply andb_true_iff in Hin as [_ Hin%Z.leb_le]. cbn [snd]. split.
    + intros d b' x. destruct (decide ((d, b') = k)) as [Hk|Hne].
      * rewrite Hk, lookup_insert_eq. intros [= <-]. injection Hk as -> ->. cbn. lia.
      * rewrite lookup_insert_ne by done. apply Hok.
    + intros d b'. unfold units. destruct (decide ((d, b') = k)) as [->|Hne].
      * rewrite lookup_insert_eq. fold k. rewrite Hr. cbn. lia.
      * rewrite lookup_insert_ne by done. lia.
Qed.
(** What has been granted is covered by the counted units. *)
Definition covered (s : QuotaDB * list (string * string * Z)) : Prop :=
  quota_ok L s.1 ∧ ∀ d b, granted d b s.2 ≤ units s.1 d b.
Lemma quota_step_covered s x : within x.1.1 → covered s → covered (quota_step quotaDayKey next_midnight s x).
Proof.
  destruct s as [db g], x as [[limits o] e]. intros Hl [Hok Hg]. cbn [fst snd] in *. destruct o as [op|b]; cbn [quota_step].
  - destruct (ReserveOperation_step limits op e db O Hl Hok) as (K1 & K2 & K3). split; [done|]. cbn [fst snd].
    intros d b. specialize (Hg d b). specialize (K2 d b). unfold grant.
    destruct (result_of _) as [er|[[] retry]] eqn:Hr; cbn [app]; try lia.
    destruct (youtubeOperationSpecs op) as [[bucket cost]|] eqn:Hs; cbn [app]; [|lia].
    unfold granted in *. cbn [foldr]. case_bool_decide as Hd; [|lia]. destruct Hd as [<- <-].
    rewrite (K3 retry bucket cost eq_refl eq_refl). lia.
  - destruct (RecordError_step limits b e db O Hl Hok) as (K1 & K2). split; [done|]. cbn [fst snd].
    intros d b'. specialize (Hg d b'). specialize (K2 d b'). lia.
Qed.
Lemma quota_history_covered l : Forall (λ x, within x.1.1) l →
  covered (quota_history quotaDayKey next_midnight l).
Proof.
  unfold quota_history. assert (H0 : covered (∅, [])) by (split; [by intros ???|intros d b; cbn; unfold units; done]).
  revert H0. generalize ((∅, []) : QuotaDB * list (string * string * Z)). intros s Hs Hl. revert s Hs.
  induction Hl as [|x l Hx Hl IH]; intros s Hs; [done|]. cbn [foldl]. by apply IH, quota_step_covered.
Qed.
End Budget.

(** C29: whatever the workers ask of the gate, on any days, with managers of different
    limits, with lost and unacknowledged statements: the units granted in a
    bucket on a quota day never exceed the largest limit given to it, and never
    exceed the units counted in the table. *)
Theorem quota_never_exceeded (quotaDayKey : Z → string) (next_midnight : Z → Z) (L : string → Z)
    (l : list (YouTubeQuotaLimits * QuotaOp * Env)) (d b : string)
    (Hl : Forall (λ x, within L x.1.1) l) :
  let '(db, g) := quota_history quotaDayKey next_midnight l in
  granted d b g ≤ units db d b ∧ (0 ≤ L b → units db d b ≤ L b).
Proof.
  pose proof (quota_history_covered quotaDayKey next_midnight L l Hl) as [Hok Hg].
  destruct (quota_history _ _ l) as [db g]. split; [apply Hg|]. intros Hb. unfold units.
  destruct (db !! (d, b)) as [r|] eqn:E; [|done]. specialize (Hok _ _ _ E). cbn. lia.
Qed.
(** One upload a day: the second is refused, an unacknowledged one counts. *)
Definition one_upload : YouTubeQuotaLimits := NewYouTubeQuotaManager (mkLimits 1 0 0).
Definition at_hour (h : Z) (f : nat → Fault) : Env :=
  mkEnv (h * Hour) (h * Hour) f (λ _, false) (λ _, false) "".
Definition day_of (t : Z) : string := itoa (t / (24 * Hour)).
Definition midnight_after (t : Z) : Z := (t / (24 * Hour) + 1) * (24 * Hour).
Definition two_days : list (YouTubeQuotaLimits * QuotaOp * Env) :=
  [(one_upload, OpReserve "videos.insert", at_hour 1 (λ _, Fine));
   (one_upload, OpReserve "videos.insert", at_hour 2 (λ _, Fine));
   (one_upload, OpReserve "videos.insert", at_hour 26 (λ n, if Nat.eqb n 4 then Unacked else Fine));
   (one_upload, OpReserve "videos.insert", at_hour 27 (λ _, Fine))].
Lemma quota_never_exceeded_witness :
  let '(db, g) := quota_history day_of midnight_after two_days in
  g = [("0", "video_uploads", 1)] ∧ units db "1" "video_uploads" = 1 ∧ granted "1" "video_uploads" g ≤ 1.
Proof.
  pose proof (quota_never_exceeded day_of midnight_after
    (λ b, match forBucket one_upload b with inr v => v | inl _ => 0 end) two_days "1" "video_uploads") as H.
  destruct (quota_history day_of midnight_after two_days) as [db g] eqn:E.
  assert (Hg : g = [("0", "video_uploads", 1)] ∧ units db "1" "video_uploads" = 1).
  { assert (Q : (let '(db, g) := quota_history day_of midnight_after two_days in (g, units db "1" "video_uploads")) =
      ([("0", "video_uploads", 1)], 1)) by (vm_compute; reflexivity).
    rewrite E in Q. injection Q as -> ->. split; reflexivity. }
  destruct Hg as [Hg Hu]. split; [exact Hg|]. split; [exact Hu|].
  destruct H as [H1 H2].
  - assert (W : within (λ b, match forBucket one_upload b with inr v => v | inl _ => 0 end) one_upload).
    { intros b v Hv. rewrite Hv. revert Hv. unfold forBucket. repeat case_bool_decide; intros [= <-]; cbn; lia. }
    do 4 (apply Forall_cons; split; [exact W|]). apply Forall_nil. exact I.
  - rewrite Hu in H1. exact H1.
Defined.
