(* ===== verification/DeliveryIntake.v ===== *)
(** * The intake of external deliveries

    The repository of the delivery journal
    ([src/internal/repository/external_delivery_*.go]), the transition guard of
    [src/internal/worker/ingest_fsm.go] and the worker that turns a journal row
    into an upload job, [src/internal/worker/velox_artifact_downloader.go].

    One database holds the journal, the upload jobs, the destinations, the
    workspaces and their channels.  The unique constraints of migration 055 and
    of 056 are inside the statements.  JSON, SHA-256 and the time zone
    database are arguments. *)

From S2P Require Import Prelude Store Graph Backoff UploadJobs PostReads GoError ErrorClass ExternalDeliveryModel.
From Stdlib Require Import ZArith Lia.
Local Open Scope Z_scope.

(** ** The database *)
(* Source: internal/models/external_destination.go *)
(* 25-34 ExternalDestination *)
Record ExternalDestination := mkExternalDestination {
  dest_ID : string;
  dest_SourceSystem : string;
  dest_WorkspaceID : Z;
  dest_PlatformAccountID : Z;
  dest_Enabled : bool;
  dest_DefaultMetadata : string;
  dest_CreatedAt : Z;
  dest_UpdatedAt : Z
}.
Record IntakeDB := mkIntakeDB {
  deliveries : gmap string ExternalDelivery;
  jobsdb : JobDB;
  destinations : gmap string ExternalDestination;
  workspaces : WorkspaceDB;
  channels : gmap (Z * Z) bool   (* enabled, by workspace and account *)
}.
Definition put_deliveries (t : gmap string ExternalDelivery) (db : IntakeDB) : IntakeDB :=
  mkIntakeDB t (jobsdb db) (destinations db) (workspaces db) (channels db).
Definition put_jobs (j : JobDB) (db : IntakeDB) : IntakeDB :=
  mkIntakeDB (deliveries db) j (destinations db) (workspaces db) (channels db).
Definition on_jobsdb {A} (m : M JobDB A) : M IntakeDB A := zoom jobsdb put_jobs m.
(** [UPDATE external_deliveries SET f WHERE id = $1 AND p]. *)
Definition update_delivery (id : string) (p : ExternalDelivery → bool)
    (f : ExternalDelivery → ExternalDelivery) (db : IntakeDB) : nat * IntakeDB :=
  let '(k, t) := update_row id p f (deliveries db) in (k, put_deliveries t db).

(** The columns the statements write. *)
Definition set_delivery (status : string) (job : option Z) (media url code msg : option string)
    (updated : Z) (completed lease : option Z) (attempts : Z) (next : option Z)
    (owner : option string) (max : Z) (d : ExternalDelivery) : ExternalDelivery :=
  mkExternalDelivery (ID d) (SourceSystem d) (ExternalDeliveryID d) (IdempotencyKey d)
    (ExternalDestinationID d) (SourceArtifactID d) (ExpectedSHA256 d) (ExpectedSizeBytes d)
    (ExpectedMimeType d) (DownloadURL d) (Metadata d) (PublishAt d) (CallbackURL d) status
    (RequestSHA256 d) job (PostID d) media url code msg (CreatedAt d) updated completed lease attempts
    next owner max.
Definition coalesce {A} (a b : option A) : option A := match a with Some _ => a | None => b end.

(* Source: internal/repository/external_delivery_repo.go *)
Definition ErrExternalDeliveryNotFound : err := (* 92 *)
  sentinel "ErrExternalDeliveryNotFound" "external delivery not found".
(* Source: internal/repository/external_delivery_claim.go *)
Definition ErrExternalDeliveryNotLinked : err := (* 16 *)
  sentinel "ErrExternalDeliveryNotLinked" "external delivery not linked to upload job".
Definition ErrExternalDeliveryAlreadyClaimed : err := (* 21 *)
  sentinel "ErrExternalDeliveryAlreadyClaimed" "external delivery already claimed".
Definition ErrExternalDeliveryNoExpectedTriple : err := (* 26 *)
  sentinel "ErrExternalDeliveryNoExpectedTriple" "external delivery has no expected triple".
(* Source: internal/repository/errors.go *)
Definition ErrIdempotencyConflict : err := (* 84 *)
  sentinel "ErrIdempotencyConflict" "idempotency key conflict: same key, different body".

(** ** Accepting a delivery *)
Section Accept.
Context (sha256_hex : string → string) (json_valid : string → bool).

Definition same_key (source key : string) (d : ExternalDelivery) : bool :=
  bool_decide (SourceSystem d = source) && bool_decide (IdempotencyKey d = key).
Definition find_delivery (p : ExternalDelivery → bool) (db : IntakeDB) : option ExternalDelivery :=
  head (List.filter p (map_to_list (deliveries db)).*2).
(* Source: internal/repository/external_delivery_scan.go *)
(* 21-52 scanExternalDeliveryByKey *)
Definition scanExternalDeliveryByKey (source key : string) : M IntakeDB ExternalDelivery :=
  if bool_decide (source = "") || bool_decide (key = "") then
    throw (errors_new "scanExternalDeliveryByKey: empty key")
  else
    o ← exec "scanExternalDeliveryByKey" (λ _ db, (find_delivery (same_key source key) db, db));
    match o with Some d => mret d | None => throw ErrExternalDeliveryNotFound end.
(* Source: internal/repository/external_delivery_repo.go *)
(* 116-149 ExternalDeliveryRepository.Insert *)
Definition insert_check (e : ExternalDelivery) (rawBody : string) : err + ExternalDelivery :=
  let fail m := inl (errors_new ("external delivery Insert: " +:+ m)) in
  if bool_decide (ID e = "") then
    fail "id is required (application-side ULID with sdel_ prefix)"
  else if bool_decide (SourceSystem e = "") || bool_decide (IdempotencyKey e = "") then
    fail "source_system and idempotency_key are required"
  else if bool_decide (ExternalDeliveryID e = "") then
    fail "external_delivery_id is required (upstream's own id)"
  else if bool_decide (ExternalDestinationID e = "") then fail "external_destination_id is required"
  else if bool_decide (SourceArtifactID e = "") || bool_decide (ExpectedSHA256 e = "") ||
          bool_decide (ExpectedMimeType e = "") then
    fail "source_artifact_id, expected_sha256, expected_mime_type are required"
  else if ExpectedSizeBytes e <=? 0 then fail "expected_size_bytes must be positive"
  else if bool_decide (RequestSHA256 e = "") && bool_decide (rawBody = "") then
    fail "either RequestSHA256 or rawBody must be supplied"
  else
    let hash := if bool_decide (RequestSHA256 e = "") then sha256_hex rawBody else RequestSHA256 e in
    let metadata := if bool_decide (Metadata e = "") then "{}" else Metadata e in
    if negb (json_valid metadata) then fail ("metadata is not valid JSON: " +:+ metadata)
    else inr (mkExternalDelivery (ID e) (SourceSystem e) (ExternalDeliveryID e) (IdempotencyKey e)
      (ExternalDestinationID e) (SourceArtifactID e) (ExpectedSHA256 e) (ExpectedSizeBytes e)
      (ExpectedMimeType e) (DownloadURL e) metadata (PublishAt e) (CallbackURL e) (Status e) hash
      (UploadJobID e) (PostID e) (PlatformMediaID e) (PlatformURL e) (LastErrorCode e)
      (LastErrorMessage e) (CreatedAt e) (UpdatedAt e) (CompletedAt e) (LeaseExpiresAt e)
      (AttemptCount e) (NextAttemptAt e) (LeasedByWorkerID e) (MaxAttempts e)).
(** The row of the insert, with the column defaults of migrations 055 and 057. *)
(* 223-251 ExternalDeliveryRepository.Insert *)
Definition inserted_delivery (e : ExternalDelivery) (env : Env) : ExternalDelivery :=
  mkExternalDelivery (ID e) (SourceSystem e) (ExternalDeliveryID e) (IdempotencyKey e)
    (ExternalDestinationID e) (SourceArtifactID e) (ExpectedSHA256 e) (ExpectedSizeBytes e)
    (ExpectedMimeType e) (DownloadURL e) (Metadata e) (PublishAt e) (CallbackURL e)
    ExternalDeliveryStatusAccepted (RequestSHA256 e) None None None None None None (db_now env)
    (db_now env) None None 0 None None 5.
Inductive InsertResult := Inserted (d : ExternalDelivery) | Duplicate | BadReference.
Definition collides (e d : ExternalDelivery) : bool :=
  bool_decide (ID d = ID e) || same_key (SourceSystem e) (IdempotencyKey e) d ||
  (bool_decide (SourceSystem d = SourceSystem e) &&
   bool_decide (ExternalDeliveryID d = ExternalDeliveryID e)).
(** The constraints: the primary key, two unique pairs, one foreign key. *)
Definition insert_delivery (e : ExternalDelivery) (env : Env) (db : IntakeDB) : InsertResult * IntakeDB :=
  match destinations db !! ExternalDestinationID e with
  | None => (BadReference, db)
  | Some _ =>
      match find_delivery (collides e) db with
      | Some _ => (Duplicate, db)
      | None =>
          let d := inserted_delivery e env in
          (Inserted d, put_deliveries (<[ID e := d]> (deliveries db)) db)
      end
  end.
(** The row and, next to it, the error that comes with an existing row.  The
    advisory lock is the atomicity of [transact]. *)
(* 116-266 ExternalDeliveryRepository.Insert *)
Definition Insert (e : option ExternalDelivery) (rawBody : string) :
    M IntakeDB (ExternalDelivery * option err) :=
  match e with
  | None => throw (errors_new "external delivery Insert: nil record")
  | Some e =>
      match insert_check e rawBody with
      | inl er => throw er
      | inr e =>
          transact "external delivery Insert" (
            _ ← exec "external delivery Insert advisory lock" (λ _ db, (tt, db));
            found ← try (scanExternalDeliveryByKey (SourceSystem e) (IdempotencyKey e));
            match found with
            | inr existing =>
                if negb (EqualFold (RequestSHA256 existing) (RequestSHA256 e)) then
                  mret (Rollback (existing, Some ErrIdempotencyConflict))
                else mret (Commit (existing, None))
            | inl er =>
                if negb (errors_is er "ErrExternalDeliveryNotFound") then
                  throw (wrap "external delivery Insert lookup" er)
                else
                  r ← exec "external delivery Insert" (insert_delivery e);
                  match r with
                  | Inserted d => mret (Commit (d, None))
                  | Duplicate => throw (wrap_suffix ErrIdempotencyConflict
                      ("source_system=" +:+ SourceSystem e +:+ " idempotency_key=" +:+ IdempotencyKey e))
                  | BadReference => throw (db_err "external delivery Insert")
                  end
            end)
      end
  end.
End Accept.

(* 278-304 ExternalDeliveryRepository.GetByID *)
Definition GetByID (id : string) : M IntakeDB (option ExternalDelivery) :=
  if bool_decide (id = "") then throw (errors_new "external delivery GetByID: empty id")
  else exec "external delivery GetByID" (λ _ db, (deliveries db !! id, db)).
(* 315-327 ExternalDeliveryRepository.GetByIdempotencyKey *)
Definition GetByIdempotencyKey (source key : string) : M IntakeDB (option ExternalDelivery) :=
  if bool_decide (source = "") || bool_decide (key = "") then
    throw (errors_new "external delivery GetByIdempotencyKey: empty key")
  else
    r ← try (scanExternalDeliveryByKey source key);
    match r with
    | inr d => mret (Some d)
    | inl er => if errors_is er "ErrExternalDeliveryNotFound" then mret None
                else throw (wrap "external delivery GetByIdempotencyKey" er)
    end.
(* 337-363 ExternalDeliveryRepository.GetByExternalDeliveryID *)
Definition GetByExternalDeliveryID (source ext : string) : M IntakeDB (option ExternalDelivery) :=
  if bool_decide (source = "") || bool_decide (ext = "") then
    throw (errors_new "external delivery GetByExternalDeliveryID: empty key")
  else exec "external delivery GetByExternalDeliveryID" (λ _ db,
    (find_delivery (λ d, bool_decide (SourceSystem d = source) &&
                         bool_decide (ExternalDeliveryID d = ext)) db, db)).
(** Rows of one instant come in the order of their ids. *)
Definition oldest_first (x y : ExternalDelivery) : bool :=
  (CreatedAt x <? CreatedAt y) || ((CreatedAt x =? CreatedAt y) && String.leb (ID x) (ID y)).
(* 374-415 ExternalDeliveryRepository.ListByStatus *)
Definition ListByStatus (status : string) (limit : Z) : M IntakeDB (list ExternalDelivery) :=
  let limit := if limit <=? 0 then 100 else limit in
  exec "external delivery ListByStatus" (λ _ db,
    (take (Z.to_nat limit) (sort_by oldest_first
       (List.filter (λ d, bool_decide (Status d = status)) (map_to_list (deliveries db)).*2)), db)).

(** ** Claiming and linking *)
(* Source: internal/repository/external_delivery_claim.go *)
(** [expected_sha256] and [expected_size_bytes] are NOT NULL columns. *)
(* 31-53 ExternalDeliveryRepository.GetExpectedTripleByUploadJobID *)
Definition GetExpectedTripleByUploadJobID (uploadJobID : Z) : M IntakeDB (Z * string) :=
  if uploadJobID <=? 0 then
    throw (errors_new ("external delivery GetExpectedTripleByUploadJobID: non-positive uploadJobID " +:+
                         itoa uploadJobID))
  else
    o ← exec "external delivery GetExpectedTripleByUploadJobID scan" (λ _ db,
          (find_delivery (λ d, bool_decide (UploadJobID d = Some uploadJobID)) db, db));
    match o with
    | None => throw ErrExternalDeliveryNotLinked
    | Some d =>
        if (ExpectedSizeBytes d <=? 0) || bool_decide (ExpectedSHA256 d = "") then
          throw ErrExternalDeliveryNoExpectedTriple
        else mret (ExpectedSizeBytes d, ExpectedSHA256 d)
    end.
(* 85-89 WHERE *)
Definition linkable (workerID : string) (d : ExternalDelivery) : bool :=
  bool_decide (Status d ∈ ["accepted"; "retry_wait"]) && bool_decide (UploadJobID d = None) &&
  (bool_decide (LeasedByWorkerID d = Some workerID) || bool_decide (LeasedByWorkerID d = None)).
(* 80-85 ExternalDeliveryRepository.CreateUploadJobAndLink *)
Definition linked_delivery (jobID : Z) (e : Env) (d : ExternalDelivery) : ExternalDelivery :=
  set_delivery "downloading" (Some jobID) (PlatformMediaID d) (PlatformURL d) (LastErrorCode d)
    (LastErrorMessage d) (db_now e) (CompletedAt d) None (AttemptCount d) (NextAttemptAt d) None
    (MaxAttempts d) d.
(** A new job has a new id, so the unique index on [upload_job_id] holds. *)
(* 63-107 ExternalDeliveryRepository.CreateUploadJobAndLink *)
Definition CreateUploadJobAndLink (spec : JobSpec) (status deliveryID workerID : string) :
    M IntakeDB Z :=
  if bool_decide (deliveryID = "") then
    throw (errors_new "external delivery CreateUploadJobAndLink: empty deliveryID")
  else transact "external delivery CreateUploadJobAndLink" (
    job ← map_err (wrap "external delivery CreateUploadJobAndLink: create upload_job")
            (on_jobsdb (createUploadJob spec status));
    let jobID := UploadJobs.ID job in
    k ← exec "external delivery CreateUploadJobAndLink: claim delivery"
          (λ e, update_delivery deliveryID (linkable workerID) (linked_delivery jobID e));
    n ← rows_affected "external delivery CreateUploadJobAndLink:" k;
    if bool_decide (n = O) then throw ErrExternalDeliveryAlreadyClaimed else mret (Commit jobID)).
(* 131-138 candidate *)
Definition claimable (now : Z) (d : ExternalDelivery) : bool :=
  bool_decide (Status d ∈ ["accepted"; "retry_wait"]) &&
  match LeaseExpiresAt d with None => true | Some u => u <? now end &&
  match NextAttemptAt d with None => true | Some t => t <=? now end.
(* 140-148 ExternalDeliveryRepository.ClaimDelivery *)
Definition claimed_delivery (workerID : string) (lease maxAttempts : Z) (e : Env) (d : ExternalDelivery) :
    ExternalDelivery :=
  set_delivery (Status d) (UploadJobID d) (PlatformMediaID d) (PlatformURL d) (LastErrorCode d)
    (LastErrorMessage d) (db_now e) (CompletedAt d) (Some (db_now e + lease)) (AttemptCount d + 1) None
    (Some workerID) (Z.max (MaxAttempts d) maxAttempts) d.
(** [ORDER BY created_at ASC LIMIT 1 FOR UPDATE SKIP LOCKED]. *)
Definition next_delivery (e : Env) (db : IntakeDB) : option ExternalDelivery :=
  head (sort_by oldest_first
    (List.filter (λ d, claimable (db_now e) d && negb (held_key e (ID d)))
       (map_to_list (deliveries db)).*2)).
(* 129-160 ExternalDeliveryRepository.ClaimDelivery *)
Definition claim_next (workerID : string) (lease maxAttempts : Z) (e : Env) (db : IntakeDB) :
    option ExternalDelivery * IntakeDB :=
  match next_delivery e db with
  | None => (None, db)
  | Some d =>
      let d' := claimed_delivery workerID lease maxAttempts e d in
      (Some d', put_deliveries (<[ID d := d']> (deliveries db)) db)
  end.
(* 118-168 ExternalDeliveryRepository.ClaimDelivery *)
Definition ClaimDelivery (workerID : string) (lease maxAttempts : Z) : M IntakeDB ExternalDelivery :=
  if bool_decide (workerID = "") then
    throw (errors_new "external delivery ClaimDelivery: empty workerID")
  else if lease <=? 0 then
    throw (errors_new ("external delivery ClaimDelivery: non-positive lease " +:+ Duration_String lease))
  else
    let maxAttempts := if maxAttempts <=? 0 then 5 else maxAttempts in
    o ← exec "external delivery ClaimDelivery" (claim_next workerID lease maxAttempts);
    match o with None => throw ErrExternalDeliveryNotFound | Some d => mret d end.

(** A statement on one row that has to match it. *)
Definition exec_delivery (op : string) (id : string) (p : ExternalDelivery → bool)
    (f : Env → ExternalDelivery → ExternalDelivery) : M IntakeDB unit :=
  k ← exec op (λ e, update_delivery id p (f e));
  n ← rows_affected op k;
  if bool_decide (n = O) then throw (wrap_suffix ErrExternalDeliveryNotFound ("id=" +:+ id))
  else mret tt.
Definition job_taken (jobID : Z) (db : IntakeDB) : bool :=
  bool_decide (is_Some (find_delivery (λ d, bool_decide (UploadJobID d = Some jobID)) db)).
(** The foreign key to the jobs and the unique index of migration 056 make the
    statement fail. *)
(* 197-223 ExternalDeliveryRepository.LinkUploadJob *)
Definition LinkUploadJob (deliveryID : string) (uploadJobID : Z) : M IntakeDB unit :=
  if bool_decide (deliveryID = "") then
    throw (errors_new "external delivery LinkUploadJob: empty deliveryID")
  else if uploadJobID <=? 0 then
    throw (errors_new "external delivery LinkUploadJob: uploadJobID must be positive")
  else
    r ← exec "external delivery LinkUploadJob" (λ e db,
      let '(k, db') := update_delivery deliveryID (λ d, bool_decide (UploadJobID d = None))
        (λ d, set_delivery (Status d) (Some uploadJobID) (PlatformMediaID d) (PlatformURL d)
                (LastErrorCode d) (LastErrorMessage d) (db_now e) (CompletedAt d) (LeaseExpiresAt d)
                (AttemptCount d) (NextAttemptAt d) (LeasedByWorkerID d) (MaxAttempts d) d) db in
      if negb (bool_decide (k = O)) &&
         (job_taken uploadJobID db || negb (bool_decide (is_Some (jobs (jobsdb db) !! uploadJobID))))
      then (None, db) else (Some k, db'));
    match r with
    | None => throw (db_err "external delivery LinkUploadJob")
    | Some k =>
        n ← rows_affected "external delivery LinkUploadJob" k;
        if bool_decide (n = O) then throw (wrap_suffix ErrExternalDeliveryNotFound ("id=" +:+ deliveryID))
        else mret tt
    end.
(* Source: internal/repository/upload_job_repo.go *)
(* 111-133 UploadJobRepository.LinkToExternalDelivery *)
Definition LinkToExternalDelivery (uploadJobID : Z) (externalDeliveryID : string) : M IntakeDB unit :=
  let fail m := throw (errors_new ("upload job LinkToExternalDelivery: " +:+ m)) in
  if uploadJobID <=? 0 then fail ("uploadJobID must be positive (got " +:+ itoa uploadJobID +:+ ")")
  else if bool_decide (externalDeliveryID = "") then fail "empty externalDeliveryID"
  else map_err (wrap ("upload job LinkToExternalDelivery: " +:+
                        "forward to external_delivery_repo.LinkUploadJob"))
         (LinkUploadJob externalDeliveryID uploadJobID).

(** ** Status writes *)
(* Source: internal/repository/external_delivery_status.go *)
(* 56-73 ExternalDeliveryRepository.UpdateStatus *)
Definition status_delivery (status : string) (code msg media url : option string) (e : Env)
    (d : ExternalDelivery) : ExternalDelivery :=
  set_delivery status (UploadJobID d) (coalesce media (PlatformMediaID d)) (coalesce url (PlatformURL d))
    (coalesce code (LastErrorCode d)) (coalesce msg (LastErrorMessage d)) (db_now e)
    (if bool_decide (status ∈ ["published"; "failed"; "dead_letter"; "blocked_auth"])
     then coalesce (CompletedAt d) (Some (db_now e)) else CompletedAt d)
    (LeaseExpiresAt d) (AttemptCount d) (NextAttemptAt d) (LeasedByWorkerID d) (MaxAttempts d) d.
(** The named CHECK of migration 055 refuses a row with a status it does not know. *)
(* 33-85 ExternalDeliveryRepository.UpdateStatus *)
Definition UpdateStatus (id newStatus : string) (code msg media url : option string) : M IntakeDB unit :=
  if bool_decide (id = "") then throw (errors_new "external delivery UpdateStatus: empty id")
  else if bool_decide (newStatus = "") then
    throw (errors_new "external delivery UpdateStatus: empty newStatus")
  else if negb (bool_decide (newStatus ∈ ExternalDeliveryStatuses)) then
    found ← exec "external delivery UpdateStatus" (λ _ db, (bool_decide (is_Some (deliveries db !! id)), db));
    if (found : bool) then throw (db_err "external delivery UpdateStatus")
    else throw (wrap_suffix ErrExternalDeliveryNotFound ("id=" +:+ id))
  else exec_delivery "external delivery UpdateStatus" id (λ _, true)
         (status_delivery newStatus code msg media url).
(* 95-106 ExternalDeliveryRepository.MarkRetry *)
Definition retry_delivery (next : Z) (code msg : string) (e : Env) (d : ExternalDelivery) : ExternalDelivery :=
  set_delivery "retry_wait" (UploadJobID d) (PlatformMediaID d) (PlatformURL d) (Some code) (Some msg)
    (db_now e) (CompletedAt d) None (AttemptCount d) (Some next) None (MaxAttempts d) d.
(* 91-118 ExternalDeliveryRepository.MarkRetry *)
Definition MarkRetry (id : string) (next : Z) (code msg : string) : M IntakeDB unit :=
  if bool_decide (id = "") then throw (errors_new "external delivery MarkRetry: empty id")
  else exec_delivery "external delivery MarkRetry" id (λ _, true) (retry_delivery next code msg).
(** The three terminal marks differ in the status. *)
(* 127-138 ExternalDeliveryRepository.MarkFailed *)
Definition closed_delivery (status code msg : string) (e : Env) (d : ExternalDelivery) : ExternalDelivery :=
  set_delivery status (UploadJobID d) (PlatformMediaID d) (PlatformURL d) (Some code) (Some msg)
    (db_now e) (coalesce (CompletedAt d) (Some (db_now e))) None (AttemptCount d) None None
    (MaxAttempts d) d.
Definition close (op status id code msg : string) : M IntakeDB unit :=
  if bool_decide (id = "") then throw (errors_new ("external delivery " +:+ op +:+ ": empty id"))
  else exec_delivery ("external delivery " +:+ op) id (λ _, true) (closed_delivery status code msg).
(* 123-151 ExternalDeliveryRepository.MarkFailed *)
Definition MarkFailed (id code msg : string) : M IntakeDB unit := close "MarkFailed" "failed" id code msg.
(* 156-184 ExternalDeliveryRepository.MarkBlockedAuth *)
Definition MarkBlockedAuth (id code msg : string) : M IntakeDB unit :=
  close "MarkBlockedAuth" "blocked_auth" id code msg.
(* 189-217 ExternalDeliveryRepository.MarkDeadLetter *)
Definition MarkDeadLetter (id code msg : string) : M IntakeDB unit :=
  close "MarkDeadLetter" "dead_letter" id code msg.

(** ** The transition guard *)
(* Source: internal/worker/ingest_fsm.go *)
Definition ErrIllegalTransition : err := (* 79 *)
  sentinel "ErrIllegalTransition" "ingest FSM: illegal transition for this state".
Definition ErrTerminal : err := (* 92 *)
  sentinel "ErrTerminal" "ingest FSM: source state is terminal".
Definition arrow (from to : string) : string :=
  from +:+ " " +:+ bytes [226; 134; 146]%N +:+ " " +:+ to.
(* 134-177 IngestFSM.Transition *)
Definition Transition (deliveryID from to : string) (code msg media url : option string) :
    M IntakeDB unit :=
  if bool_decide (deliveryID = "") then throw (errors_new "ingest FSM: empty deliveryID")
  else if bool_decide (from = "") || bool_decide (to = "") then
    throw (errors_new ("ingest FSM: empty from/to (from=" +:+ quote from +:+ " to=" +:+ quote to +:+ ")"))
  else if ExternalDeliveryModel.IsTerminal from && negb (bool_decide (from = ExternalDeliveryStatusBlockedAuth)) then
    throw (wrap_suffix ErrTerminal (arrow from to))
  else if negb (CanTransitionTo from to) then throw (wrap_suffix ErrIllegalTransition (arrow from to))
  else map_err (wrap ("ingest FSM: persist transition " +:+ arrow from to))
         (UpdateStatus deliveryID to code msg media url).
Definition move_to (to deliveryID from : string) : M IntakeDB unit :=
  Transition deliveryID from to None None None None.
Definition fail_to (to deliveryID from code msg : string) : M IntakeDB unit :=
  Transition deliveryID from to (Some code) (Some msg) None None.
Definition ToDownloading := move_to ExternalDeliveryStatusDownloading. (* 193-195 IngestFSM.ToDownloading *)
Definition ToArtifactVerified := move_to ExternalDeliveryStatusArtifactVerified. (* 199-201 IngestFSM.ToArtifactVerified *)
Definition ToIngestCompleted := move_to ExternalDeliveryStatusIngestCompleted. (* 205-207 IngestFSM.ToIngestCompleted *)
Definition ToQueued := move_to ExternalDeliveryStatusQueued. (* 211-213 IngestFSM.ToQueued *)
Definition ToPublishing := move_to ExternalDeliveryStatusPublishing. (* 217-219 IngestFSM.ToPublishing *)
(* 228-230 IngestFSM.ToPublished *)
Definition ToPublished (deliveryID from : string) (media url : option string) : M IntakeDB unit :=
  Transition deliveryID from ExternalDeliveryStatusPublished None None media url.
Definition ToRetryWait := fail_to ExternalDeliveryStatusRetryWait. (* 244-247 IngestFSM.ToRetryWait *)
Definition ToFailed := fail_to ExternalDeliveryStatusFailed. (* 253-256 IngestFSM.ToFailed *)
Definition ToBlockedAuth := fail_to ExternalDeliveryStatusBlockedAuth. (* 262-265 IngestFSM.ToBlockedAuth *)
Definition ToDeadLetter := fail_to ExternalDeliveryStatusDeadLetter. (* 273-276 IngestFSM.ToDeadLetter *)
(* 294-300 IngestFSM.Resume *)
Definition Resume (deliveryID from : string) (downloadURLValid : bool) : M IntakeDB unit :=
  let target := CanonicalResume from downloadURLValid in
  if bool_decide (target = "") then
    throw (errors_new ("ingest FSM: Resume called on non-retry_wait state " +:+ quote from))
  else Transition deliveryID from target None None None None.
(* 312-314 IngestFSM.ToQueuedFromBlockedAuth *)
Definition ToQueuedFromBlockedAuth (deliveryID : string) : M IntakeDB unit :=
  Transition deliveryID ExternalDeliveryStatusBlockedAuth ExternalDeliveryStatusQueued None None None None.

(** ** The downloader *)
(* Source: internal/repository/external_destination_repo.go *)
(* 120-142 ExternalDestinationRepository.GetByID *)
Definition GetDestinationByID (id : string) : M IntakeDB (option ExternalDestination) :=
  if bool_decide (id = "") then throw (errors_new "external destination GetByID: empty id")
  else exec "external destination GetByID" (λ _ db, (destinations db !! id, db)).
(* Source: internal/repository/workspace_repo.go *)
(** The only column the callers here read is [enabled]. *)
(* 307-330 WorkspaceRepository.FindChannel *)
Definition FindChannel (workspaceID platformAccountID : Z) : M IntakeDB (option bool) :=
  if workspaceID <=? 0 then throw (errors_new ("find channel: invalid workspace id " +:+ itoa workspaceID))
  else if platformAccountID <=? 0 then
    throw (errors_new ("find channel: invalid platform_account id " +:+ itoa platformAccountID))
  else exec ("find channel: workspace_id=" +:+ itoa workspaceID +:+ " account_id=" +:+ itoa platformAccountID)
         (λ _ db, (channels db !! (workspaceID, platformAccountID), db)).

(* Source: internal/worker/velox_artifact_downloader.go *)
(* 360-364 transientError *)
Definition transientError (er : err) : GoErr := mkGoErr DTransient [of_err er].
(* 366-370 terminalError *)
Definition terminalError (er : err) : GoErr := mkGoErr DTerminal [of_err er].

Section Downloader.
(** [provider_of] is the string under "provider" of the destination's metadata,
    empty when there is none or the JSON cannot be read. *)
Context (LoadLocation : string → bool) (unmarshal_metadata : string → err + VeloxDeliveryMetadata).
Context (provider_of : string → string).
Context (workerID : string) (lease maxAttempts : Z).

(* Source: internal/models/external_delivery.go *)
(* 438-447 ParseVeloxDeliveryMetadata *)
Definition ParseVeloxDeliveryMetadata (raw : string) : err + VeloxDeliveryMetadata :=
  if bool_decide (raw = "") then inl (errors_new "metadata is empty")
  else match unmarshal_metadata raw with
       | inl er => inl (wrap "metadata is not valid JSON" er)
       | inr m => inr m
       end.

(** How processing can fail: [errMetadataOnly], or an error to classify. *)
Inductive failure := MetadataOnly | Failure (e : GoErr).
#[local] Notation P A := (M IntakeDB (failure + A)).
Definition stop {A} (f : failure) : P A := mret (inl f).
(** [if err != nil { return transientError{err: err} }]. *)
Definition or_transient {A B} (m : M IntakeDB A) (k : A → P B) : P B :=
  r ← try m;
  match r with inl er => stop (Failure (transientError er)) | inr a => k a end.
Definition terminal {A} (msg : string) : P A := stop (Failure (terminalError (errors_new msg))).

(* Source: internal/worker/velox_artifact_downloader.go *)
(** The zero [IngestAfter] is stored; the columns with defaults are not written. *)
(* 260-274 VeloxArtifactDownloader.processOne *)
Definition upload_spec (ws : Workspace) (url : string) (d : ExternalDelivery)
    (m : VeloxDeliveryMetadata) : JobSpec :=
  mkJobSpec (ws_OwnerID ws) (ws_ID ws) "velox_artifact" url
    (ExternalDeliveryModel.DriveAccountID m) (ExternalDeliveryModel.FolderID m)
    (ExternalDeliveryModel.Title m) (Description m) (Metadata d)
    (if bool_decide (PrivacyStatus m = "") then "private" else PrivacyStatus m)
    (TargetAccountIDs m) (Some 0) (PublishAt d) None 0 0 0.
(* 185-284 VeloxArtifactDownloader.processOne *)
Definition processOne (d : ExternalDelivery) : P unit :=
  match DownloadURL d with
  | None => stop MetadataOnly
  | Some url =>
      if bool_decide (url = "") then stop MetadataOnly
      else
        or_transient (GetDestinationByID (ExternalDestinationID d)) $ λ dest,
        match dest with
        | None => terminal ("external destination " +:+ ExternalDestinationID d +:+ " not found")
        | Some dest =>
            if negb (dest_Enabled dest) then
              terminal ("external destination " +:+ ExternalDestinationID d +:+ " is disabled")
            else
              or_transient (zoom workspaces (λ _ db, db) (FindWorkspaceByID (dest_WorkspaceID dest))) $ λ ws,
              match ws with
              | None => terminal ("workspace " +:+ itoa (dest_WorkspaceID dest) +:+ " not found")
              | Some ws =>
                  let register :=
                    match ParseVeloxDeliveryMetadata (Metadata d) with
                    | inl er => stop (Failure (terminalError er))
                    | inr m =>
                        match Validate LoadLocation (Some m) with
                        | Some er => stop (Failure (terminalError er))
                        | None =>
                            or_transient (CreateUploadJobAndLink (upload_spec ws url d m)
                              UploadJobStatusPending (ID d) workerID) $ λ newJobID,
                            if newJobID <=? 0 then
                              terminal "CreateUploadJobAndLink returned non-positive id"
                            else mret (inr tt)
                        end
                    end in
                  if bool_decide (provider_of (dest_DefaultMetadata dest) = "google_drive") then register
                  else
                    or_transient (FindChannel (dest_WorkspaceID dest) (dest_PlatformAccountID dest)) $
                      λ binding,
                    if default false binding then register
                    else terminal ("platform account " +:+ itoa (dest_PlatformAccountID dest) +:+
                           " is not enabled in workspace " +:+ itoa (dest_WorkspaceID dest))
              end
        end
  end.

(** Errors of the marks are logged only. *)
(* 290-329 VeloxArtifactDownloader.handleFailure *)
Definition handleFailure (d : ExternalDelivery) (f : failure) : M IntakeDB unit :=
  let quietly m := (_ ← try m; mret tt) in
  match f with
  | MetadataOnly => quietly (MarkBlockedAuth (ID d) "VELOX_METADATA_ONLY"
                               "delivery has no download_url; metadata-only")
  | Failure e =>
      let c := ClassifyErrorFor "velox" "artifact_registration" e in
      if negb (bool_decide (Kind c = ErrorKindTransient)) &&
         negb (bool_decide (Kind c = ErrorKindRateLimited)) then
        quietly (MarkFailed (ID d) (if bool_decide (Kind c = ErrorKindAuth) then "VELOX_AUTH_ERROR"
                                    else "VELOX_PROCESSING_ERROR") (Error e))
      else if maxAttempts <=? AttemptCount d then
        quietly (MarkDeadLetter (ID d) "MAX_ATTEMPTS_EXCEEDED" "retry budget exhausted")
      else
        env ← ask;
        let backoff := if 0 <? RetryAfter c then RetryAfter c else retryBackoff (AttemptCount d) in
        quietly (MarkRetry (ID d) (app_now env + backoff)
          (if bool_decide (Kind c = ErrorKindRateLimited) then "RATE_LIMITED" else "TRANSIENT_ERROR")
          (Error e))
  end.
(* 156-179 VeloxArtifactDownloader.claimAndProcess *)
Definition claimAndProcess : M IntakeDB unit :=
  r ← try (ClaimDelivery workerID lease maxAttempts);
  match r with
  | inl _ => mret tt
  | inr d =>
      o ← processOne d;
      match o with
      | inl f => handleFailure d f
      | inr _ => mret tt
      end
  end.
End Downloader.
