(* ===== verification/DeliveryIntakeProps.v ===== *)
(** * What is proved about the intake of external deliveries

    A delivery is accepted once and registered once; every claimed delivery
    gets an outcome; the transition guard looks at the caller's word only. *)

From S2P Require Import Prelude Store Graph Backoff UploadJobs PostReads GoError ErrorClass ExternalDeliveryModel DeliveryIntake.
From Stdlib Require Import ZArith Lia.
Local Open Scope Z_scope.

(** ** Operations on the database *)
Inductive IntakeOp :=
| OpInsert (e : option ExternalDelivery) (rawBody : string)
| OpClaimDelivery (workerID : string) (lease maxAttempts : Z)
| OpRegister (spec : JobSpec) (deliveryID workerID : string)
| OpLink (jobID : Z) (deliveryID : string)
| OpUpdateStatus (id status : string) (code msg media url : option string)
| OpMarkRetry (id : string) (next : Z) (code msg : string)
| OpClose (status id code msg : string)
| OpTransition (id from to : string) (code msg media url : option string)
| OpJob (op : JobOp).

Section ops.
Context (sha256_hex : string → string) (json_valid : string → bool).
Definition ignore {A} (m : M IntakeDB A) : M IntakeDB unit := _ ← m; mret tt.
(** [ON DELETE SET NULL] of the journal's reference to the jobs. *)
Definition drop_links (db : IntakeDB) : IntakeDB :=
  put_deliveries ((λ d,
    if bool_decide (is_Some (j ← UploadJobID d; jobs (jobsdb db) !! j)) then d
    else set_delivery (Status d) None (PlatformMediaID d) (PlatformURL d) (LastErrorCode d)
           (LastErrorMessage d) (UpdatedAt d) (CompletedAt d) (LeaseExpiresAt d) (AttemptCount d)
           (NextAttemptAt d) (LeasedByWorkerID d) (MaxAttempts d) d) <$> deliveries db) db.
Definition run_job (op : JobOp) : M IntakeDB unit := λ e w,
  let '(r, (db, n)) := on_jobsdb (run_op op) e w in (r, (drop_links db, n)).
Definition run_intake (op : IntakeOp) : M IntakeDB unit :=
  match op with
  | OpInsert e b => ignore (Insert sha256_hex json_valid e b)
  | OpClaimDelivery w l m => ignore (ClaimDelivery w l m)
  | OpRegister s id w => ignore (CreateUploadJobAndLink s UploadJobStatusPending id w)
  | OpLink j id => LinkToExternalDelivery j id
  | OpUpdateStatus id s c m a b => UpdateStatus id s c m a b
  | OpMarkRetry id t c m => MarkRetry id t c m
  | OpClose s id c m => close "mark" s id c m
  | OpTransition id f t c m a b => Transition id f t c m a b
  | OpJob op => run_job op
  end.
Definition intake_history := list (Env * IntakeOp).
Definition run_intake_history (h : intake_history) (db : IntakeDB) : IntakeDB :=
  foldl (λ db eo, state_of (run_intake eo.2 eo.1 (db, O))) db h.
End ops.

(** ** The invariant *)
Definition request_of (d : ExternalDelivery) :=
  (ID d, SourceSystem d, ExternalDeliveryID d, IdempotencyKey d, ExternalDestinationID d,
   (SourceArtifactID d, ExpectedSHA256 d, ExpectedSizeBytes d, ExpectedMimeType d),
   (DownloadURL d, Metadata d, PublishAt d, CallbackURL d, RequestSHA256 d, CreatedAt d)).
(** Rows sit under their ids, the unique pairs are unique, a linked job exists
    and belongs to one delivery. *)
Record intake_ok (db : IntakeDB) : Prop := {
  in_jobs : db_ok (jobsdb db);
  in_key : ∀ id d, deliveries db !! id = Some d → ID d = id;
  in_unique : ∀ i1 i2 d1 d2, deliveries db !! i1 = Some d1 → deliveries db !! i2 = Some d2 →
    SourceSystem d1 = SourceSystem d2 →
    IdempotencyKey d1 = IdempotencyKey d2 ∨ ExternalDeliveryID d1 = ExternalDeliveryID d2 → i1 = i2;
  in_link : ∀ id d j, deliveries db !! id = Some d → UploadJobID d = Some j →
    is_Some (jobs (jobsdb db) !! j);
  in_single : ∀ i1 i2 d1 d2 j, deliveries db !! i1 = Some d1 → deliveries db !! i2 = Some d2 →
    UploadJobID d1 = Some j → UploadJobID d2 = Some j → i1 = i2
}.
(** A delivery stays, its request too, and a link lasts as long as its job. *)
Record intake_grows (db db' : IntakeDB) : Prop := {
  ig_jobs : db_grows (jobsdb db) (jobsdb db');
  ig_rows : ∀ id d, deliveries db !! id = Some d →
    ∃ d', deliveries db' !! id = Some d' ∧ request_of d' = request_of d ∧
      ∀ j, UploadJobID d = Some j → is_Some (jobs (jobsdb db') !! j) → UploadJobID d' = Some j
}.
Definition intake_step (db db' : IntakeDB) : Prop :=
  intake_ok db → intake_ok db' ∧ intake_grows db db'.
Lemma jobs_grow_refl db : db_ok db → db_grows db db.
Proof. intros H. assert (safe_step db db) as [_ G]; [reflexivity|done|done]. Qed.
Lemma jobs_grow_trans a b c : db_ok a → db_ok b → db_ok c → db_grows a b → db_grows b c → db_grows a c.
Proof.
  intros Ha Hb Hc Gab Gbc. assert (safe_step a c) as [_ G]; [|done|done].
  trans b; intros _; by split.
Qed.
#[export] Instance intake_step_preorder : PreOrder intake_step.
Proof.
  split.
  - intros db Hok. split; [done|]. split; [by apply jobs_grow_refl, in_jobs|by eauto].
  - intros d1 d2 d3 H12 H23 H1. destruct (H12 H1) as [H2 G1]. destruct (H23 H2) as [H3 G2].
    split; [done|]. split; [by apply (jobs_grow_trans _ (jobsdb d2)); auto using in_jobs, ig_jobs|].
    intros id d Hd. destruct (ig_rows _ _ G1 id d Hd) as (e & He & Hre & Hje).
    destruct (ig_rows _ _ G2 id e He) as (f & Hf & Hrf & Hjf). exists f. split; [done|].
    split; [congruence|]. intros j Hj Hex. apply Hjf; [|done]. apply Hje; [done|].
    destruct (jobs (jobsdb d2) !! j) as [x|] eqn:E; [by exists x|].
    assert (Hlt : j < job_serial (jobsdb d2)).
    { pose proof (ok_serial _ (in_jobs _ H1) j (in_link _ H1 _ _ _ Hd Hj)).
      pose proof (gr_serial _ _ (ig_jobs _ _ G1)). lia. }
    rewrite (gr_gone _ _ (ig_jobs _ _ G2) j Hlt E) in Hex. by destruct Hex.
Qed.

(** *** Rows rewritten in place *)
(** Columns outside the request, and the link kept. *)
Definition keeps_request (f : ExternalDelivery → ExternalDelivery) : Prop :=
  ∀ d, request_of (f d) = request_of d.
Definition keeps_link (f : ExternalDelivery → ExternalDelivery) : Prop :=
  ∀ d, UploadJobID (f d) = UploadJobID d.
Lemma request_fields d d' : request_of d' = request_of d → ID d' = ID d ∧
  SourceSystem d' = SourceSystem d ∧ IdempotencyKey d' = IdempotencyKey d ∧
  ExternalDeliveryID d' = ExternalDeliveryID d.
Proof. by intros [=]. Qed.
(** Every row becomes a row with the same request. *)
Lemma rewrite_step db db' : intake_ok db →
  db_ok (jobsdb db') → db_grows (jobsdb db) (jobsdb db') →
  (∀ id d', deliveries db' !! id = Some d' → ∃ d, deliveries db !! id = Some d ∧
     request_of d' = request_of d) →
  (∀ id d, deliveries db !! id = Some d → ∃ d', deliveries db' !! id = Some d' ∧
     ∀ j, UploadJobID d = Some j → is_Some (jobs (jobsdb db') !! j) → UploadJobID d' = Some j) →
  (∀ id d' j, deliveries db' !! id = Some d' → UploadJobID d' = Some j →
     is_Some (jobs (jobsdb db') !! j) ∧
     ∀ i2 d2, deliveries db' !! i2 = Some d2 → UploadJobID d2 = Some j → i2 = id) →
  intake_ok db' ∧ intake_grows db db'.
Proof.
  intros Hok Hj' Hg Hback Hfor Hlink. split; [split|split]; try done.
  - intros id d' (d & Hd & E)%Hback. apply request_fields in E as [-> _]. by apply (in_key _ Hok).
  - intros i1 i2 e1 e2 (d1 & Hd1 & E1)%Hback (d2 & Hd2 & E2)%Hback.
    apply request_fields in E1 as (_ & -> & -> & ->). apply request_fields in E2 as (_ & -> & -> & ->).
    by apply (in_unique _ Hok).
  - intros id d j Hd Hdj. by eapply Hlink.
  - intros i1 i2 d1 d2 j H1 H2 L1 L2. symmetry. by eapply (Hlink i1 d1 j).
  - intros id d Hd. destruct (Hfor id d Hd) as (d' & Hd' & Hl). exists d'. split; [done|].
    split; [|done]. destruct (Hback id d' Hd') as (d0 & Hd0 & E). rewrite Hd in Hd0.
    by injection Hd0 as <-.
Qed.
Definition linked_to (j : Z) (db : IntakeDB) (id : string) : Prop :=
  ∃ d, deliveries db !! id = Some d ∧ UploadJobID d = Some j.
(** One row gets another content. *)
Lemma set_row_step id d d' db : deliveries db !! id = Some d → request_of d' = request_of d →
  UploadJobID d' = UploadJobID d ∨
  (UploadJobID d = None ∧ ∃ j, UploadJobID d' = Some j ∧ is_Some (jobs (jobsdb db) !! j) ∧
     ∀ k, ¬ linked_to j db k) →
  intake_step db (put_deliveries (<[id := d']> (deliveries db)) db).
Proof.
  intros Hd Hreq Hl Hok. apply rewrite_step; simpl; [done|by apply in_jobs| | | |].
  - by apply jobs_grow_refl, in_jobs.
  - intros k e [[-> <-]|[_ He]]%lookup_insert_Some; [by exists d|by exists e].
  - intros k e He. destruct (decide (k = id)) as [->|Hne].
    + exists d'. rewrite lookup_insert_eq. split; [done|]. simplify_eq. intros j Hj _.
      destruct Hl as [->|[Hn _]]; congruence.
    + exists e. by rewrite lookup_insert_ne.
  - assert (Hown : ∀ k e j, <[id:=d']> (deliveries db) !! k = Some e → UploadJobID e = Some j →
      linked_to j db k ∨ (k = id ∧ is_Some (jobs (jobsdb db) !! j) ∧ ∀ k, ¬ linked_to j db k)).
    { intros k e j [[-> <-]|[_ He]]%lookup_insert_Some Hj; [|left; by exists e].
      destruct Hl as [El|(_ & j' & Hj' & Hex & Hn)]; [left; exists d; by rewrite <- El|].
      right. by simplify_eq. }
    intros k e j He Hj. destruct (Hown k e j He Hj) as [(d0 & Hd0 & Hj0)|(-> & Hex & Hn)].
    + split; [by eapply in_link|]. intros i2 d2 H2 L2.
      destruct (Hown i2 d2 j H2 L2) as [(d3 & Hd3 & Hj3)|(_ & _ & Hn)].
      * by eapply (in_single _ Hok i2 k d3 d0 j).
      * exfalso. apply (Hn k). by exists d0.
    + split; [done|]. intros i2 d2 H2 L2. destruct (Hown i2 d2 j H2 L2) as [Hc|(-> & _)]; [|done].
      by destruct (Hn i2).
Qed.
Lemma put_same db : put_deliveries (deliveries db) db = db.
Proof. by destruct db. Qed.
Lemma update_step id p f db : keeps_request f →
  (∀ d, deliveries db !! id = Some d → p d = true → UploadJobID (f d) = UploadJobID d ∨
     (UploadJobID d = None ∧ ∃ j, UploadJobID (f d) = Some j ∧ is_Some (jobs (jobsdb db) !! j) ∧
        ∀ k, ¬ linked_to j db k)) →
  intake_step db (update_delivery id p f db).2.
Proof.
  intros Hf Hl. unfold update_delivery, update_row.
  destruct (deliveries db !! id) as [d|] eqn:Hd; [|simpl; by rewrite put_same].
  destruct (p d) eqn:Hp; simpl; [|by rewrite put_same].
  eapply set_row_step; [exact Hd|apply Hf|by apply Hl].
Qed.
Lemma exec_delivery_step op id p f : (∀ e, keeps_request (f e)) → (∀ e, keeps_link (f e)) →
  respects intake_step (exec_delivery op id p f).
Proof.
  intros Hr Hl. unfold exec_delivery. respects_tac. apply respects_exec; [apply _|].
  intros e db. apply update_step; [apply Hr|]. intros d _ _. left. apply Hl.
Qed.
Lemma reads_step {A} op (g : Env → IntakeDB → A) : respects intake_step (exec op (λ e db, (g e db, db))).
Proof. apply respects_exec; [apply _|]. intros e db. reflexivity. Qed.
#[export] Hint Extern 2 (respects intake_step (exec _ _)) => apply reads_step : respects.
#[export] Hint Extern 2 (respects intake_step (exec_delivery _ _ _ _)) =>
  (apply exec_delivery_step; by intros) : respects.
Lemma UpdateStatus_step id st c m a b : respects intake_step (UpdateStatus id st c m a b).
Proof. unfold UpdateStatus. respects_tac. Qed.
Lemma MarkRetry_step id t c m : respects intake_step (MarkRetry id t c m).
Proof. unfold MarkRetry. respects_tac. Qed.
Lemma close_step op s id c m : respects intake_step (close op s id c m).
Proof. unfold close. respects_tac. Qed.
#[export] Hint Resolve UpdateStatus_step MarkRetry_step close_step : respects.
Lemma Transition_step id f t c m a b : respects intake_step (Transition id f t c m a b).
Proof. unfold Transition. respects_tac. Qed.
#[export] Hint Resolve Transition_step : respects.

(** *** The other operations *)
Lemma find_delivery_None p db :
  find_delivery p db = None ↔ ∀ id d, deliveries db !! id = Some d → p d = false.
Proof.
  unfold find_delivery. split.
  - intros H id d Hd. destruct (p d) eqn:Hp; [|done]. exfalso.
    assert (Hin : In d (List.filter p (map_to_list (deliveries db)).*2)).
    { apply filter_In. split; [|done]. apply list_elem_of_In, list_elem_of_fmap.
      exists (id, d). split; [done|]. by apply elem_of_map_to_list. }
    by destruct (List.filter _ _).
  - intros H. destruct (List.filter p _) as [|d l] eqn:E; [done|]. exfalso.
    assert (Hin : In d (d :: l)) by (by left). rewrite <- E in Hin.
    apply filter_In in Hin as [Hin Hp]. apply list_elem_of_In, list_elem_of_fmap in Hin as ([id d'] & -> & Hd).
    apply elem_of_map_to_list in Hd. simpl in Hp. by rewrite (H id d' Hd) in Hp.
Qed.
Lemma find_delivery_Some p db d :
  find_delivery p db = Some d → ∃ id, deliveries db !! id = Some d ∧ p d = true.
Proof.
  unfold find_delivery. intros H. assert (Hin : In d (List.filter p (map_to_list (deliveries db)).*2)).
  { destruct (List.filter _ _); [done|]. injection H as ->. by left. }
  apply filter_In in Hin as [Hin Hp].
  apply list_elem_of_In, list_elem_of_fmap in Hin as ([id d'] & -> & Hd).
  apply elem_of_map_to_list in Hd. by exists id.
Qed.

Lemma insert_delivery_step e env db : intake_step db (insert_delivery e env db).2.
Proof.
  unfold insert_delivery. destruct (destinations db !! _); [|done].
  destruct (find_delivery (collides e) db) eqn:Hf; [done|].
  pose proof (proj1 (find_delivery_None _ _) Hf) as Hfree. simpl. intros Hok.
  assert (Hnew : ∀ id d, deliveries db !! id = Some d → id ≠ ID e ∧
    ¬ (SourceSystem d = SourceSystem e ∧ (IdempotencyKey d = IdempotencyKey e ∨
        ExternalDeliveryID d = ExternalDeliveryID e))).
  { intros id d Hd. pose proof (Hfree id d Hd) as H. unfold collides, same_key in H.
    rewrite !orb_false_iff, !andb_false_iff, !bool_decide_eq_false in H.
    pose proof (in_key _ Hok _ _ Hd). intuition congruence. }
  split; [split|split]; simpl.
  - by apply in_jobs.
  - intros id d [[<- <-]|[_ Hd]]%lookup_insert_Some; [done|by apply (in_key _ Hok)].
  - intros i1 i2 d1 d2 [[<- <-]|[_ H1]]%lookup_insert_Some [[<- <-]|[_ H2]]%lookup_insert_Some Hs Hx; [done| | |].
    + destruct (Hnew _ _ H2) as [_ []]. split; [done|]. simpl in Hx. intuition congruence.
    + destruct (Hnew _ _ H1) as [_ []]. split; [done|]. simpl in Hx. intuition congruence.
    + by apply (in_unique _ Hok i1 i2 d1 d2).
  - intros id d j [[<- <-]|[_ Hd]]%lookup_insert_Some Hj; [done|by eapply in_link].
  - intros i1 i2 d1 d2 j [[<- <-]|[_ H1]]%lookup_insert_Some [[<- <-]|[_ H2]]%lookup_insert_Some L1 L2;
      [done|done|done|]. by apply (in_single _ Hok i1 i2 d1 d2 j).
  - by apply jobs_grow_refl, in_jobs.
  - intros id d Hd. exists d. destruct (Hnew id d Hd) as [Hne _].
    by rewrite lookup_insert_ne.
Qed.
Lemma Insert_step sha valid e b : respects intake_step (Insert sha valid e b).
Proof.
  unfold Insert. destruct e as [e|]; [|respects_tac]. destruct (insert_check sha valid e b); [respects_tac|].
  unfold scanExternalDeliveryByKey. respects_tac. apply respects_exec; [apply _|].
  intros env db. apply insert_delivery_step.
Qed.
Lemma next_delivery_Some e db d : next_delivery e db = Some d →
  (∃ id, deliveries db !! id = Some d) ∧ claimable (db_now e) d = true ∧ held_key e (ID d) = false.
Proof.
  unfold next_delivery. intros H.
  assert (Hin : d ∈ sort_by oldest_first (List.filter
    (λ d, DeliveryIntake.claimable (db_now e) d && negb (held_key e (ID d))) (map_to_list (deliveries db)).*2)).
  { destruct (sort_by _ _); [done|]. injection H as ->. by left. }
  rewrite sort_by_perm, list_elem_of_In, filter_In, <- list_elem_of_In in Hin.
  destruct Hin as [Hin [Hc Hh]%andb_true_iff]. apply negb_true_iff in Hh.
  apply list_elem_of_fmap in Hin as ([id d'] & -> & Hd%elem_of_map_to_list). split; [by exists id|done].
Qed.
Lemma claim_next_step w l m e db : intake_step db (claim_next w l m e db).2.
Proof.
  unfold claim_next. destruct (next_delivery e db) as [d|] eqn:Hn; [|done]. simpl. intros Hok.
  destruct (next_delivery_Some e db d Hn) as [[id Hd] _]. pose proof (in_key _ Hok _ _ Hd) as <-.
  revert Hok. apply (set_row_step (ID d) d); [done|done|by left].
Qed.
Lemma ClaimDelivery_step w l m : respects intake_step (ClaimDelivery w l m).
Proof.
  unfold ClaimDelivery. respects_tac. apply respects_exec; [apply _|]. intros e db. apply claim_next_step.
Qed.

(** The jobs change, the deliveries do not. *)
Lemma jobs_step db jdb : (db_ok (jobsdb db) → db_ok jdb ∧ db_grows (jobsdb db) jdb) →
  (∀ j, is_Some (jobs (jobsdb db) !! j) → is_Some (jobs jdb !! j)) →
  intake_step db (put_jobs jdb db).
Proof.
  intros Hj Hkeep Hok. destruct (Hj (in_jobs _ Hok)) as [Hj' Hg]. apply rewrite_step; simpl; try done.
  - intros id d Hd. by exists d.
  - intros id d Hd. by exists d.
  - intros id d j Hd Hdj. split; [apply Hkeep; by eapply in_link|]. intros i2 d2 H2 L2.
    by apply (in_single _ Hok i2 id d2 d j).
Qed.
Lemma create_job_inr spec st e s n j w : on_jobsdb (createUploadJob spec st) e (s, n) = (inr j, w) →
  j = new_job (job_serial (jobsdb s)) (create_columns spec) st e ∧
  w.1 = put_jobs (insert_job (create_columns spec) st e (jobsdb s)).2 s.
Proof.
  unfold on_jobsdb, zoom, createUploadJob, raw, map_err, exec. simpl.
  destruct (fault e n); [|done|done]. by intros [= <- <-].
Qed.
Lemma insert_job_keeps spec st e db j : db_ok db → is_Some (jobs db !! j) →
  is_Some (jobs (insert_job spec st e db).2 !! j).
Proof.
  intros Hok Hj. pose proof (ok_serial _ Hok j Hj). simpl. by rewrite lookup_insert_ne by lia.
Qed.
Lemma new_job_step spec e db : intake_step db
  (put_jobs (insert_job spec UploadJobStatusPending e (jobsdb db)).2 db).
Proof.
  intros Hok. revert Hok. intros Hok. apply jobs_step; [|intros j; apply insert_job_keeps, in_jobs, Hok|done].
  intros H. by apply insert_job_safe.
Qed.
(** A job id above every linked one belongs to no delivery. *)
Lemma fresh_unlinked db id : intake_ok db → ¬ linked_to (job_serial (jobsdb db)) db id.
Proof.
  intros Hok (d & Hd & Hj). pose proof (ok_serial _ (in_jobs _ Hok) _ (in_link _ Hok _ _ _ Hd Hj)). lia.
Qed.
Lemma linkable_unlinked w d : linkable w d = true →
  Status d ∈ ["accepted"; "retry_wait"] ∧ UploadJobID d = None ∧
  (LeasedByWorkerID d = Some w ∨ LeasedByWorkerID d = None).
Proof.
  unfold linkable. rewrite !andb_true_iff, orb_true_iff, !bool_decide_eq_true. intuition.
Qed.
Lemma register_step spec id w : respects intake_step (CreateUploadJobAndLink spec UploadJobStatusPending id w).
Proof.
  unfold CreateUploadJobAndLink. case_bool_decide; [apply respects_throw; apply _|].
  apply respects_transact; [apply _|]. intros e s n a s' n' Hb.
  apply bind_inr in Hb as (job & [s1 n1] & Hj%map_err_inr & Hb).
  apply create_job_inr in Hj as [-> Hs1]. cbn [fst] in Hs1.
  apply bind_inr in Hb as (k & [s2 n2] & (_ & _ & Hu)%exec_inr & Hb). cbn [fst] in Hu.
  apply bind_inr in Hb as (k' & [s3 n3] & [-> E]%rows_inr & Hb). cbn [fst] in E. subst s3.
  case_bool_decide; [done|]. apply ret_inr in Hb as [_ [= -> _]]. intros Hok.
  destruct (new_job_step (create_columns spec) e s Hok) as [Hok1 Hg1]. rewrite <- Hs1 in Hok1, Hg1.
  assert (Hstep : intake_step s1 s2).
  { replace s2 with (update_delivery id (linkable w) (linked_delivery (job_serial (jobsdb s)) e) s1).2
      by exact (f_equal snd Hu).
    apply update_step; [done|]. intros d Hd Hl%linkable_unlinked. right. split; [by apply Hl|].
    exists (job_serial (jobsdb s)). split; [done|]. subst s1. split.
    - simpl. rewrite lookup_insert_eq. by eexists.
    - intros i. apply (fresh_unlinked s i Hok). }
  refine ((_ : intake_step s s2) Hok). trans s1; [intros _; by split|exact Hstep].
Qed.
Lemma LinkUploadJob_step id j : respects intake_step (LinkUploadJob id j).
Proof.
  unfold LinkUploadJob. respects_tac. apply respects_exec; [apply _|]. intros e db.
  destruct (update_delivery _ _ _ db) as [k db'] eqn:Hu.
  destruct (bool_decide (k = O)) eqn:Hk; simpl.
  - replace db' with db; [done|]. apply bool_decide_eq_true in Hk as ->. clear -Hu.
    unfold update_delivery, update_row in Hu. destruct (deliveries db !! id) as [d|]; [|].
    + case_bool_decide; simpl in Hu; [discriminate Hu|]. injection Hu as <-. by rewrite put_same.
    + injection Hu as <-. by rewrite put_same.
  - clear Hk. destruct (job_taken j db) eqn:Ht; [done|].
    case_bool_decide as Hex; [|done]. simpl.
    match type of Hu with ?u = _ => replace db' with u.2 by (by rewrite Hu) end.
    apply update_step; [done|]. intros d Hd Hn%bool_decide_eq_true. right. split; [done|].
    exists j. split; [done|]. split; [done|]. intros i (d' & Hd' & Hl).
    apply bool_decide_eq_false, eq_None_not_Some, find_delivery_None with (id := i) (d := d') in Ht; [|done].
    by apply bool_decide_eq_false in Ht.
Qed.
Lemma LinkToExternalDelivery_step j id : respects intake_step (LinkToExternalDelivery j id).
Proof. unfold LinkToExternalDelivery. pose proof LinkUploadJob_step. respects_tac. Qed.

(** The jobs run, then the links of the deleted ones are cleared. *)
Lemma drop_links_row db id : deliveries (drop_links db) !! id = (λ d,
  if bool_decide (is_Some (j ← UploadJobID d; jobs (jobsdb db) !! j)) then d
  else set_delivery (Status d) None (PlatformMediaID d) (PlatformURL d) (LastErrorCode d)
         (LastErrorMessage d) (UpdatedAt d) (CompletedAt d) (LeaseExpiresAt d) (AttemptCount d)
         (NextAttemptAt d) (LeasedByWorkerID d) (MaxAttempts d) d) <$> deliveries db !! id.
Proof. apply lookup_fmap. Qed.
Lemma drop_links_back db id d' : deliveries (drop_links db) !! id = Some d' →
  ∃ d, deliveries db !! id = Some d ∧ request_of d' = request_of d ∧
    ∀ j, UploadJobID d' = Some j → UploadJobID d = Some j ∧ is_Some (jobs (jobsdb db) !! j).
Proof.
  rewrite drop_links_row. intros (d & Ed & Hd)%fmap_Some. exists d. split; [done|].
  case_bool_decide as Hb; subst d'; [|done]. split; [done|]. intros j Hj. by rewrite Hj in Hb.
Qed.
Lemma cascade_step db jdb : (db_ok (jobsdb db) → db_ok jdb ∧ db_grows (jobsdb db) jdb) →
  intake_step db (drop_links (put_jobs jdb db)).
Proof.
  intros Hj Hok. destruct (Hj (in_jobs _ Hok)) as [Hj' Hg]. apply rewrite_step; try done.
  - intros id d' (d & Hd & Hr & _)%drop_links_back. by exists d.
  - intros id d Hd. rewrite drop_links_row. simpl. rewrite Hd. simpl. eexists; split; [done|].
    intros j Hl Hex. rewrite Hl. simpl. by rewrite bool_decide_true.
  - intros id d' j (d & Hd & _ & Hl)%drop_links_back Hj1. destruct (Hl j Hj1) as [Hdj Hex].
    split; [done|]. intros i2 d2 (e & He & _ & Hl2)%drop_links_back Hj2.
    destruct (Hl2 j Hj2) as [Hej _]. by apply (in_single _ Hok i2 id e d j).
Qed.
Lemma run_job_step op : UploadJobs.op_ok op → respects intake_step (run_job op).
Proof.
  intros Hop e db n. pose proof (job_op_safe op Hop e (jobsdb db) n) as Hs.
  unfold run_job, on_jobsdb, zoom, state_of in *. simpl.
  destruct (run_op op e (jobsdb db, n)) as [r [t n']] eqn:E. simpl in *.
  apply cascade_step. exact Hs.
Qed.

(** ** A delivery is registered once *)
Definition intake_op_ok (op : IntakeOp) : Prop :=
  match op with OpJob op => UploadJobs.op_ok op | _ => True end.
Lemma run_intake_step sha valid op : intake_op_ok op → respects intake_step (run_intake sha valid op).
Proof.
  pose proof Insert_step. pose proof ClaimDelivery_step. pose proof register_step.
  pose proof LinkToExternalDelivery_step.
  destruct op; simpl; intros Hop; unfold ignore; [..|by apply run_job_step]; respects_tac.
Qed.
Lemma intake_history_step sha valid h db : Forall (λ eo, intake_op_ok eo.2) h →
  intake_step db (run_intake_history sha valid h db).
Proof.
  intros Hh. revert db. induction Hh as [|[e op] h Hop _ IH]; intros db; simpl; [done|].
  etrans; [by apply (run_intake_step sha valid op Hop e db O)|apply IH].
Qed.
(** A linked row does not satisfy the guard of the claiming update. *)
Lemma register_refused spec st id w db d j : deliveries db !! id = Some d → UploadJobID d = Some j →
  ∀ e n, (∃ er, result_of (CreateUploadJobAndLink spec st id w e (db, n)) = inl er) ∧
         state_of (CreateUploadJobAndLink spec st id w e (db, n)) = db.
Proof.
  intros Hd Hj e n. unfold CreateUploadJobAndLink. case_bool_decide; [split; [by eexists|done]|].
  apply transact_never with (P := λ s, deliveries s = deliveries db); [|done].
  intros e' s m r s' m' Hs Hb.
  apply bind_inr in Hb as (job & [s1 n1] & Hc%map_err_inr & Hb).
  apply create_job_inr in Hc as [-> Hs1]. cbn [fst] in Hs1.
  apply bind_inr in Hb as (k & [s2 n2] & (_ & _ & Hu)%exec_inr & Hb). cbn [fst] in Hu.
  apply bind_inr in Hb as (k' & w3 & [-> _]%rows_inr & Hb).
  unfold update_delivery in Hu. rewrite Hs1 in Hu. simpl in Hu. rewrite Hs in Hu.
  rewrite update_row_miss in Hu; [by injection Hu as <- _|].
  rewrite Hd. intros ? [= <-]. destruct (linkable w d) eqn:E; [|done].
  apply linkable_unlinked in E as (_ & E & _). congruence.
Qed.

Section theorems.
Context (sha256_hex : string → string) (json_valid : string → bool).

(** C32: whatever sequence of deliveries accepted, claimed, registered, linked
    by hand, moved between statuses, retried and closed, and of upload jobs
    created, run, suppressed and deleted a history holds, and whatever calls
    of it fail or go unacknowledged: ids, [(source_system, idempotency_key)]
    and [(source_system, external_delivery_id)] stay unique and an upload job
    belongs to at most one delivery and exists; every delivery
    keeps its request; a delivery linked to a job stays linked to that job
    while the job exists, and registering it again is refused, so that no
    second job is created for it, with the error rolling everything back. *)
Theorem deliveries_register_once (h : intake_history) (db : IntakeDB)
    (Hh : Forall (λ eo, intake_op_ok eo.2) h) (Hok : intake_ok db) :
  let db' := run_intake_history sha256_hex json_valid h db in
  intake_ok db' ∧
  ∀ id d, deliveries db !! id = Some d →
    ∃ d', deliveries db' !! id = Some d' ∧ request_of d' = request_of d ∧
      ∀ j, UploadJobID d = Some j → is_Some (jobs (jobsdb db') !! j) →
        UploadJobID d' = Some j ∧
        ∀ spec status w e n,
          (∃ er, result_of (CreateUploadJobAndLink spec status id w e (db', n)) = inl er) ∧
          state_of (CreateUploadJobAndLink spec status id w e (db', n)) = db'.
Proof.
  intros db'. destruct (intake_history_step sha256_hex json_valid h db Hh Hok) as [Hok' Hg].
  split; [done|]. intros id d Hd. destruct (ig_rows _ _ Hg id d Hd) as (d' & Hd' & Hr & Hl).
  exists d'. split; [done|]. split; [done|]. intros j Hj Hex. specialize (Hl j Hj Hex).
  split; [done|]. intros spec status w. by apply (register_refused spec status id w db' d' j).
Qed.
End theorems.

(** ** Every claimed delivery gets an outcome *)
Section outcome.
Context (LoadLocation : string → bool) (unmarshal_metadata : string → err + VeloxDeliveryMetadata).
Context (provider_of : string → string).
Context (workerID : string) (lease maxAttempts : Z).

(** What the database holds about a delivery decides what becomes of it. *)
Inductive Verdict :=
| NoURL
| Refused (e : err)
| Later (e : err)
| Register (spec : JobSpec).
Definition job_verdict (ws : Workspace) (url : string) (d : ExternalDelivery) : Verdict :=
  match ParseVeloxDeliveryMetadata unmarshal_metadata (Metadata d) with
  | inl er => Refused er
  | inr m =>
      match Validate LoadLocation (Some m), UploadJobID d with
      | Some er, _ => Refused er
      | None, Some _ => Later ErrExternalDeliveryAlreadyClaimed
      | None, None => Register (upload_spec ws url d m)
      end
  end.
Definition channel_verdict (db : IntakeDB) (dest : ExternalDestination) (v : Verdict) : Verdict :=
  let w := dest_WorkspaceID dest in
  let a := dest_PlatformAccountID dest in
  if bool_decide (provider_of (dest_DefaultMetadata dest) = "google_drive") then v
  else if w <=? 0 then Later (errors_new ("find channel: invalid workspace id " +:+ itoa w))
  else if a <=? 0 then Later (errors_new ("find channel: invalid platform_account id " +:+ itoa a))
  else if default false (channels db !! (w, a)) then v
  else Refused (errors_new ("platform account " +:+ itoa a +:+ " is not enabled in workspace " +:+ itoa w)).
Definition verdict (db : IntakeDB) (d : ExternalDelivery) : Verdict :=
  let dest_id := ExternalDestinationID d in
  match DownloadURL d with
  | None | Some "" => NoURL
  | Some url =>
      if bool_decide (dest_id = "") then Later (errors_new "external destination GetByID: empty id")
      else match destinations db !! dest_id with
      | None => Refused (errors_new ("external destination " +:+ dest_id +:+ " not found"))
      | Some dest =>
          if negb (dest_Enabled dest) then
            Refused (errors_new ("external destination " +:+ dest_id +:+ " is disabled"))
          else match workspaces db !! dest_WorkspaceID dest with
          | None => Refused (errors_new ("workspace " +:+ itoa (dest_WorkspaceID dest) +:+ " not found"))
          | Some ws => channel_verdict db dest (job_verdict ws url d)
          end
      end
  end.
(** The row the verdict leaves of the claimed row [c]. *)
Definition settle (v : Verdict) (e : Env) (jobID : Z) (c : ExternalDelivery) : ExternalDelivery :=
  match v with
  | NoURL => closed_delivery "blocked_auth" "VELOX_METADATA_ONLY"
               "delivery has no download_url; metadata-only" e c
  | Refused er => closed_delivery "failed" "VELOX_PROCESSING_ERROR" (err_text er) e c
  | Later er =>
      if maxAttempts <=? AttemptCount c then
        closed_delivery "dead_letter" "MAX_ATTEMPTS_EXCEEDED" "retry budget exhausted" e c
      else retry_delivery (app_now e + retryBackoff (AttemptCount c)) "TRANSIENT_ERROR" (err_text er) e c
  | Register _ => linked_delivery jobID e c
  end.
Definition settled_jobs (v : Verdict) (e : Env) (j : JobDB) : JobDB :=
  match v with
  | Register spec => (insert_job (create_columns spec) UploadJobStatusPending e j).2
  | _ => j
  end.

(** *** Classification of the two wrappers *)
(** No store error and no validation error wraps an error of [context]. *)
Definition no_context (er : err) : Prop :=
  "context.Canceled" ∉ err_chain er ∧ "context.DeadlineExceeded" ∉ err_chain er.
Lemma chain_of_err d er : chain (mkGoErr d [of_err er]) =
  d :: own_unwrap d ++ DNew (err_text er) :: ((λ n, DSentinel n n) <$> err_chain er).
Proof using.
  unfold of_err. cbn [chain own_unwrap]. rewrite app_nil_r. simpl. do 3 f_equal.
  generalize (err_chain er). induction l as [|n l IH]; simpl; [done|]. f_equal. exact IH.
Qed.
Lemma Is_of_err d er name : own_unwrap d = [] → is_target name d = false →
  Is (mkGoErr d [of_err er]) name = bool_decide (name ∈ err_chain er).
Proof using.
  clear. intros Ho Hd. unfold Is. rewrite chain_of_err, Ho. simpl. rewrite Hd. simpl.
  induction (err_chain er) as [|n l IH]; [done|].
  cbn [fmap list_fmap existsb is_target]. rewrite IH. repeat case_bool_decide; set_solver.
Qed.
Lemma As_of_err {A} (f : Dyn → option A) d er : own_unwrap d = [] →
  (∀ n t, f (DSentinel n t) = None) → (∀ t, f (DNew t) = None) →
  As f (mkGoErr d [of_err er]) = f d.
Proof using.
  intros Ho Hs Hn. unfold As. rewrite chain_of_err, Ho. simpl. destruct (f d); [done|]. rewrite Hn.
  induction (err_chain er) as [|n l IH]; simpl; [done|]. by rewrite Hs.
Qed.
Lemma class_transient er : no_context er →
  ClassifyErrorFor "velox" "artifact_registration" (transientError er) =
  mkNormalizedError "velox" "artifact_registration" ErrorKindTransient "transient" 0 true 0 (transientError er).
Proof using.
  intros [H1 H2]. unfold ClassifyErrorFor, ClassifyError, classify_context, classify_typed, classify_marked,
    retryAfterFromCarrier, transientError. rewrite (Is_of_err _ _ "context.Canceled"),
    (Is_of_err _ _ "context.DeadlineExceeded"), (bool_decide_false _ H1), (bool_decide_false _ H2) by done.
  rewrite !As_of_err by done. reflexivity.
Qed.
Lemma class_terminal er : no_context er →
  Kind (ClassifyErrorFor "velox" "artifact_registration" (terminalError er)) = ErrorKindPermanent.
Proof using.
  intros [H1 H2]. unfold ClassifyErrorFor, ClassifyError, classify_context, classify_typed, classify_marked,
    terminalError. rewrite (Is_of_err _ _ "context.Canceled"),
    (Is_of_err _ _ "context.DeadlineExceeded"), (bool_decide_false _ H1), (bool_decide_false _ H2) by done.
  rewrite !As_of_err by done. reflexivity.
Qed.

(** *** Runs on a database that answers *)
Lemma or_transient_run {A B} (m : M IntakeDB A) (k : A → M IntakeDB (failure + B)) e w a w1 :
  m e w = (inr a, w1) → or_transient m k e w = k a e w1.
Proof. intros H. unfold or_transient, try, mbind, M_bind. by rewrite H. Qed.
Lemma or_transient_stop {A B} (m : M IntakeDB A) (k : A → M IntakeDB (failure + B)) e w er w1 :
  m e w = (inl er, w1) → or_transient m k e w = (inr (inl (Failure (transientError er))), w1).
Proof. intros H. unfold or_transient, try, mbind, M_bind. by rewrite H. Qed.

Definition answer (v : Verdict) : failure + unit :=
  match v with
  | NoURL => inl MetadataOnly
  | Refused er => inl (Failure (terminalError er))
  | Later er => inl (Failure (transientError er))
  | Register _ => inr tt
  end.
Definition after_register (v : Verdict) (e : Env) (d : ExternalDelivery) (db : IntakeDB) : IntakeDB :=
  match v with
  | Register _ => put_deliveries (<[ID d := linked_delivery (job_serial (jobsdb db)) e d]> (deliveries db))
                    (put_jobs (settled_jobs v e (jobsdb db)) db)
  | _ => db
  end.
(** The row is as the claim left it. *)
Definition claimed_row (d : ExternalDelivery) (db : IntakeDB) : Prop :=
  deliveries db !! ID d = Some d ∧ ID d ≠ "" ∧ Status d ∈ ["accepted"; "retry_wait"] ∧
  LeasedByWorkerID d = Some workerID.
Context (e : Env) (Hrel : reliable e).

Lemma create_job_runs spec st db n : on_jobsdb (createUploadJob spec st) e (db, n) =
  (inr (new_job (job_serial (jobsdb db)) (create_columns spec) st e),
   (put_jobs (insert_job (create_columns spec) st e (jobsdb db)).2 db, Datatypes.S n)).
Proof using Hrel.
  unfold on_jobsdb, zoom, createUploadJob, raw, map_err, exec. simpl. by rewrite Hrel.
Qed.
Lemma CreateUploadJobAndLink_runs spec d db n : claimed_row d db →
  let v := match UploadJobID d with
           | Some _ => Later ErrExternalDeliveryAlreadyClaimed
           | None => Register spec
           end in
  ∃ n', CreateUploadJobAndLink spec UploadJobStatusPending (ID d) workerID e (db, n) =
    (match v with Register _ => inr (job_serial (jobsdb db)) | _ => inl ErrExternalDeliveryAlreadyClaimed end,
     (after_register v e d db, n')).
Proof using Hrel.
  intros (Hd & Hid & Hst & Hown) v. unfold CreateUploadJobAndLink. rewrite bool_decide_false by done.
  assert (Hl : linkable workerID d = bool_decide (UploadJobID d = None)).
  { unfold linkable. rewrite (bool_decide_true _ Hst), (bool_decide_true _ Hown). by rewrite andb_true_r. }
  unfold transact. rewrite Hrel. unfold mbind, M_bind, map_err. rewrite create_job_runs, exec_fine by done.
  unfold update_delivery, update_row. cbn [deliveries put_jobs]. rewrite Hd, Hl. unfold v.
  destruct (UploadJobID d) eqn:Hj.
  - rewrite bool_decide_false by done. cbn [fst snd]. rewrite rows_fine by done.
    cbn [bool_decide decide_rel Nat.eq_dec]. by eexists.
  - rewrite bool_decide_true by done. cbn [fst snd]. rewrite rows_fine by done. simpl. rewrite Hrel. by eexists.
Qed.
Lemma GetDestinationByID_runs id db n : id ≠ "" →
  GetDestinationByID id e (db, n) = (inr (destinations db !! id), (db, Datatypes.S n)).
Proof using Hrel. intros H. unfold GetDestinationByID. rewrite bool_decide_false by done. by rewrite exec_fine. Qed.
Lemma FindWorkspace_runs id db n : zoom workspaces (λ _ db, db) (FindWorkspaceByID id) e (db, n) =
  (inr (workspaces db !! id), (db, Datatypes.S n)).
Proof using Hrel. unfold zoom, FindWorkspaceByID, exec. simpl. by rewrite Hrel. Qed.

Lemma register_runs ws url d db n : claimed_row d db → 0 < job_serial (jobsdb db) →
  let v := job_verdict ws url d in
  ∃ n', (match ParseVeloxDeliveryMetadata unmarshal_metadata (Metadata d) with
         | inl er => stop (Failure (terminalError er))
         | inr m =>
             match Validate LoadLocation (Some m) with
             | Some er => stop (Failure (terminalError er))
             | None =>
                 or_transient (CreateUploadJobAndLink (upload_spec ws url d m)
                   UploadJobStatusPending (ID d) workerID) $ λ newJobID,
                 if newJobID <=? 0 then terminal "CreateUploadJobAndLink returned non-positive id"
                 else mret (inr tt)
             end
         end : M IntakeDB (failure + unit)) e (db, n) = (inr (answer v), (after_register v e d db, n')).
Proof using Hrel.
  intros Hd Hser v. unfold v, job_verdict.
  destruct (ParseVeloxDeliveryMetadata _ _) as [er|m]; [by eexists|].
  destruct (Validate LoadLocation (Some m)) as [er|]; [by eexists|].
  destruct (CreateUploadJobAndLink_runs (upload_spec ws url d m) d db n Hd) as [n' Hrun]. simpl in Hrun.
  destruct (UploadJobID d); simpl in *.
  - rewrite (or_transient_stop _ _ _ _ _ _ Hrun). by eexists.
  - rewrite (or_transient_run _ _ _ _ _ _ Hrun). destruct (Z.leb_spec (job_serial (jobsdb db)) 0); [lia|].
    by eexists.
Qed.
Lemma processOne_runs d db n : claimed_row d db → 0 < job_serial (jobsdb db) →
  ∃ n', processOne LoadLocation unmarshal_metadata provider_of workerID d e (db, n) =
        (inr (answer (verdict db d)), (after_register (verdict db d) e d db, n')).
Proof using Hrel.
  intros Hd Hser. unfold processOne, verdict. destruct (DownloadURL d) as [[|a s]|]; [by eexists| |by eexists].
  set (url := String a s). rewrite bool_decide_false by done.
  case_bool_decide as Hdest.
  { erewrite or_transient_stop; [by eexists|]. unfold GetDestinationByID. by rewrite bool_decide_true. }
  rewrite (or_transient_run _ _ _ _ _ _ (GetDestinationByID_runs _ db n Hdest)).
  destruct (destinations db !! _) as [dest|]; [|by eexists].
  destruct (dest_Enabled dest); simpl; [|by eexists].
  rewrite (or_transient_run _ _ _ _ _ _ (FindWorkspace_runs _ db _)).
  destruct (workspaces db !! _) as [ws|]; [|by eexists].
  unfold channel_verdict. case_bool_decide; [by apply register_runs|].
  destruct (Z.leb_spec (dest_WorkspaceID dest) 0) as [H0|H0].
  { erewrite or_transient_stop; [by eexists|]. unfold FindChannel.
    by destruct (Z.leb_spec (dest_WorkspaceID dest) 0); [|lia]. }
  destruct (Z.leb_spec (dest_PlatformAccountID dest) 0) as [H1|H1].
  { erewrite or_transient_stop; [by eexists|]. unfold FindChannel.
    destruct (Z.leb_spec (dest_WorkspaceID dest) 0); [lia|].
    by destruct (Z.leb_spec (dest_PlatformAccountID dest) 0); [|lia]. }
  erewrite or_transient_run; [|unfold FindChannel;
    destruct (Z.leb_spec (dest_WorkspaceID dest) 0); [lia|];
    destruct (Z.leb_spec (dest_PlatformAccountID dest) 0); [lia|]; by rewrite exec_fine].
  simpl. destruct (default false _); [by apply register_runs|by eexists].
Qed.

(** *** The errors of a verdict *)
Lemma plain_no_context er : err_chain er = [] → no_context er.
Proof using. unfold no_context. intros ->. split; apply not_elem_of_nil. Qed.
Lemma then_check_plain c1 c2 : (∀ er, c1 = Some er → err_chain er = []) →
  (∀ er, c2 = Some er → err_chain er = []) → ∀ er, then_check c1 c2 = Some er → err_chain er = [].
Proof using. intros H1 H2 er. destruct c1; simpl; [apply H1|apply H2]. Qed.
Lemma wrap_plain t o : (∀ er, o = Some er → err_chain er = []) →
  ∀ er, wrap t <$> o = Some er → err_chain er = [].
Proof using. intros H er. destruct o as [x|]; simpl; [|done]. intros [= <-]. exact (H x eq_refl). Qed.
Lemma tags_loop_plain tags : ∀ seen er, validateVeloxTags_loop seen tags = Some er → err_chain er = [].
Proof using.
  induction tags as [|t tags IH]; intros seen er; cbn [validateVeloxTags_loop]; [done|].
  repeat case_bool_decide; try (by intros [= <-]). apply IH.
Qed.
Lemma Validate_plain o er : Validate LoadLocation o = Some er → err_chain er = [].
Proof using.
  destruct o as [m|]; cbn [Validate]; [|by intros [= <-]].
  revert er. repeat apply then_check_plain; try apply wrap_plain; intros er.
  - unfold fail_if. case_match; [by intros [= <-]|done].
  - unfold fail_if. case_match; [by intros [= <-]|done].
  - case_match; [done|by intros [= <-]].
  - unfold on_some, fail_if. repeat case_match; try done. by intros [= <-].
  - unfold on_some, fail_if. repeat case_match; try done. by intros [= <-].
  - unfold on_some, validateVeloxLanguage. repeat case_match; try done; by intros [= <-].
  - unfold on_some, validateVeloxTimezone. repeat case_match; try done; by intros [= <-].
  - unfold validateVeloxTags. repeat case_match; try done; [by intros [= <-]|]. apply tags_loop_plain.
Qed.
Context (Hjson : ∀ raw er, unmarshal_metadata raw = inl er → no_context er).
Lemma verdict_plain db d er : verdict db d = Refused er ∨ verdict db d = Later er → no_context er.
Proof using Hjson.
  clear workerID lease maxAttempts e Hrel. assert (Hj : ∀ ws url, job_verdict ws url d = Refused er ∨ job_verdict ws url d = Later er → no_context er).
  { intros ws url. unfold job_verdict, ParseVeloxDeliveryMetadata. case_bool_decide.
    { intros [[= <-]|[=]]. by apply plain_no_context. }
    destruct (unmarshal_metadata (Metadata d)) as [x|m] eqn:Hm.
    { intros [[= <-]|[=]]. by apply (Hjson _ _ Hm). }
    destruct (Validate LoadLocation (Some m)) as [x|] eqn:Hv.
    { intros [[= <-]|[=]]. by apply plain_no_context, (Validate_plain _ _ Hv). }
    destruct (UploadJobID d); intros [[=]|[=]]. subst er. by split; simpl; rewrite list_elem_of_singleton. }
  assert (Hn : ∀ t, no_context (errors_new t)) by (intros t; by apply plain_no_context).
  unfold verdict, channel_verdict. repeat case_match; try (by apply Hj);
    intros [[=]|[=]]; subst er; apply Hn.
Qed.

(** *** The claim and the marks *)
Lemma exec_delivery_runs op id p f db n d : deliveries db !! id = Some d → p d = true →
  exec_delivery op id p f e (db, n) =
  (inr tt, (put_deliveries (<[id := f e d]> (deliveries db)) db, Datatypes.S (Datatypes.S n))).
Proof using Hrel.
  intros Hd Hp. unfold exec_delivery, mbind, M_bind. rewrite exec_fine by done.
  unfold update_delivery. rewrite (update_row_hit _ _ _ _ _ Hd Hp). cbn [fst snd].
  rewrite rows_fine by done. by rewrite bool_decide_false by done.
Qed.
Lemma close_runs op st id c m db n d : deliveries db !! id = Some d → id ≠ "" →
  close op st id c m e (db, n) =
  (inr tt, (put_deliveries (<[id := closed_delivery st c m e d]> (deliveries db)) db,
            Datatypes.S (Datatypes.S n))).
Proof using Hrel.
  intros Hd Hid. unfold close. rewrite bool_decide_false by done. by rewrite (exec_delivery_runs _ _ _ _ _ _ d).
Qed.
Lemma MarkRetry_runs id t c m db n d : deliveries db !! id = Some d → id ≠ "" →
  MarkRetry id t c m e (db, n) =
  (inr tt, (put_deliveries (<[id := retry_delivery t c m e d]> (deliveries db)) db,
            Datatypes.S (Datatypes.S n))).
Proof using Hrel.
  intros Hd Hid. unfold MarkRetry. rewrite bool_decide_false by done.
  by rewrite (exec_delivery_runs _ _ _ _ _ _ d).
Qed.
Lemma quietly_run (m : M IntakeDB unit) w w1 : m e w = (inr tt, w1) →
  (_ ← try m; mret tt : M IntakeDB unit) e w = (inr tt, w1).
Proof. intros H. unfold mbind, M_bind, try. by rewrite H. Qed.
Lemma handleFailure_runs v f d db n : answer v = inl f → (∀ er, v = Refused er ∨ v = Later er → no_context er) →
  deliveries db !! ID d = Some d → ID d ≠ "" →
  ∃ n', handleFailure maxAttempts d f e (db, n) =
        (inr tt, (put_deliveries (<[ID d := settle v e (job_serial (jobsdb db)) d]> (deliveries db)) db, n')).
Proof using Hrel.
  intros Ha Hv Hd Hid. destruct v as [|er|er|]; [..|discriminate Ha]; injection Ha as <-;
    unfold handleFailure; cbv zeta.
  - eexists. apply quietly_run. by apply close_runs.
  - rewrite class_terminal by (apply Hv; by left). eexists. apply quietly_run. by apply close_runs.
  - rewrite class_transient by (apply Hv; by right). cbn [Kind RetryAfter].
    rewrite (bool_decide_true (ErrorKindTransient = ErrorKindTransient)) by done. cbn [negb andb].
    cbn [settle]. destruct (maxAttempts <=? AttemptCount d); [eexists; apply quietly_run; by apply close_runs|].
    eexists. erewrite bind_run by done. apply quietly_run. by apply MarkRetry_runs.
Qed.
End outcome.

Section theorems.
Context (LoadLocation : string → bool) (unmarshal_metadata : string → err + VeloxDeliveryMetadata).
Context (provider_of : string → string).

End theorems.

(** ** The transition guard *)
(** [IngestFSM.Transition] sends a statement exactly when the two statuses
    the caller names form an edge of the table that does not leave a closed
    status other than [blocked_auth]: otherwise it fails without touching the
    database, with [ErrTerminal] for a closed source and
    [ErrIllegalTransition] for a missing edge.  What it sends looks at the id
    alone: on a database that answers, the row gets the new status, and keeps
    the job, the request and the attempts, whatever status it had. *)
Theorem ingest_transition_checked (id from to : string) (code msg media url : option string)
    (e : Env) (db : IntakeDB) (n : nat) (Hid : id ≠ "") (Hfrom : from ≠ "") (Hto : to ≠ "") :
  let run := Transition id from to code msg media url e (db, n) in
  let closed := ExternalDeliveryModel.IsTerminal from = true ∧ from ≠ ExternalDeliveryStatusBlockedAuth in
  (closed → ∃ er, run = (inl er, (db, n)) ∧ errors_is er "ErrTerminal" = true) ∧
  (¬ closed → to ∉ LegalTransitions from →
     ∃ er, run = (inl er, (db, n)) ∧ errors_is er "ErrIllegalTransition" = true) ∧
  (¬ closed → to ∈ LegalTransitions from → reliable e →
     match deliveries db !! id with
     | None => ∃ er, result_of run = inl er ∧ errors_is er "ErrExternalDeliveryNotFound" = true ∧
                     state_of run = db
     | Some d => result_of run = inr tt ∧
         ∃ d', state_of run = put_deliveries (<[id := d']> (deliveries db)) db ∧ Status d' = to ∧
               request_of d' = request_of d ∧ UploadJobID d' = UploadJobID d ∧
               AttemptCount d' = AttemptCount d
     end).
Proof.
  cbv zeta. unfold Transition. rewrite !bool_decide_false by done. cbn [orb].
  assert (Hedge : CanTransitionTo from to = bool_decide (to ∈ LegalTransitions from)).
  { rewrite external_CanTransitionTo_step, external_LegalTransitions_legal.
    apply eq_true_iff_eq. rewrite bool_decide_eq_true. symmetry.
    apply (legal_spec transitionMap ExternalDeliveryStatuses from). }
  assert (Hg : ¬ (ExternalDeliveryModel.IsTerminal from = true ∧ from ≠ ExternalDeliveryStatusBlockedAuth) →
    ExternalDeliveryModel.IsTerminal from &&
      negb (bool_decide (from = ExternalDeliveryStatusBlockedAuth)) = false).
  { intros Hc. destruct (ExternalDeliveryModel.IsTerminal from); [|done].
    destruct (bool_decide_reflect (from = ExternalDeliveryStatusBlockedAuth)); [done|by destruct Hc]. }
  split; [|split].
  - intros [-> Hne]. rewrite bool_decide_false by done. simpl. eexists. split; [done|]. reflexivity.
  - intros Hc Hl. rewrite (Hg Hc), Hedge, (bool_decide_false _ Hl). eexists. by split.
  - intros Hc Hl Hrel. rewrite (Hg Hc), Hedge, (bool_decide_true _ Hl). cbn [negb]. unfold UpdateStatus. rewrite !bool_decide_false by done.
    assert (Hk : to ∈ ExternalDeliveryStatuses).
    { eapply wf_targets. rewrite external_LegalTransitions_legal in Hl.
      by apply (legal_spec transitionMap ExternalDeliveryStatuses from). }
    rewrite (bool_decide_true _ Hk). cbn [negb].
    destruct (deliveries db !! id) as [d|] eqn:Hd.
    + unfold map_err. rewrite (exec_delivery_runs e Hrel _ _ _ _ _ _ d) by done.
      split; [done|]. eexists. by repeat split.
    + unfold exec_delivery, map_err, mbind, M_bind. rewrite exec_fine by done.
      unfold update_delivery, update_row. rewrite Hd. cbn [fst snd]. rewrite rows_fine by done.
      rewrite put_same. eexists. split; [done|]. by split.
Qed.

(** ** A concrete history *)
Definition sample_destination : ExternalDestination :=
  mkExternalDestination "dst_1" "velox" 3 7 true "{}" 0 0.
Definition sample_intake : IntakeDB :=
  mkIntakeDB ∅ (mkJobDB ∅ 1) {["dst_1" := sample_destination]} {[3 := mkWorkspace 3 "main" 10 0]} {[(3, 7) := true]}.
Definition sample_delivery : ExternalDelivery :=
  mkExternalDelivery "sdel_1" "velox" "ext-1" "key-1" "dst_1" "art-1" "abc" 100 "video/mp4"
    (Some "https://cdn/x.mp4") "{}" None None "" "hash" None None None None None None 0 0 None None 0 None None 0.
Definition sample_metadata (raw : string) : err + VeloxDeliveryMetadata :=
  if bool_decide (raw = "{}") then
    inr (mkVeloxDeliveryMetadata "Title" "" "" "" false None None [] [7] None None)
  else inl (errors_new "unexpected end of JSON input").
Lemma sample_metadata_plain raw er : sample_metadata raw = inl er → no_context er.
Proof. unfold sample_metadata. case_bool_decide; [done|]. intros [= <-]. by apply plain_no_context. Qed.
Definition sample_claim (lease max : Z) : M IntakeDB unit :=
  claimAndProcess (λ _, true) sample_metadata (λ _, "") "w1" lease max.
Definition sample_intake_history : intake_history :=
  [(sample_env 100, OpInsert (Some sample_delivery) "");
   (sample_env 110, OpClaimDelivery "w1" Minute 5);
   (sample_env 111, OpRegister (sample_spec) "sdel_1" "w1")].
Definition sample_accepted : IntakeDB :=
  run_intake_history (λ s, s) (λ _, true) (take 1 sample_intake_history) sample_intake.
Definition sample_registered : IntakeDB :=
  run_intake_history (λ s, s) (λ _, true) sample_intake_history sample_intake.
Lemma sample_intake_ok : intake_ok sample_intake.
Proof.
  split; simpl; [apply no_jobs_ok|..]; intros;
    match goal with H : ∅ !! _ = Some _ |- _ => by rewrite lookup_empty in H end.
Qed.
Lemma sample_history_ok h : Forall (λ eo, intake_op_ok eo.2) h →
  intake_ok (run_intake_history (λ s, s) (λ _, true) h sample_intake).
Proof. intros Hh. by apply intake_history_step; [|apply sample_intake_ok]. Qed.
Definition row (id : string) (db : IntakeDB) :=
  (λ d, (Status d, UploadJobID d, AttemptCount d)) <$> deliveries db !! id.

(** The same request again returns the row, another body is a conflict. *)
Example accepted_once :
  let again body := result_of (Insert (λ s, s) (λ _, true) (Some sample_delivery) body (sample_env 101)
                                 (sample_accepted, O)) in
  row "sdel_1" sample_accepted = Some ("accepted", None, 0) ∧
  (∃ d, again "" = inr (d, None) ∧ CreatedAt d = 100).
Proof. split; [by vm_compute|]. eexists. split; [vm_compute; reflexivity|done]. Qed.
(** A commit that is not acknowledged: the job exists, but the tick takes it for
    an error and puts the linked delivery back, where every later tick finds it
    already linked. *)
Definition unacked_env (now : Z) (k : nat) : Env :=
  mkEnv now now (λ n, if bool_decide (n = k) then Unacked else Fine) (λ _, false) (λ _, false) "".
Definition tick (now : Z) (db : IntakeDB) : IntakeDB :=
  state_of (sample_claim Minute 3 (sample_env now) (db, O)).
Example unacked_registration :
  let db1 := state_of (sample_claim Minute 3 (unacked_env 200 8) (sample_accepted, O)) in
  let db2 := tick (1000 * Minute) db1 in
  let db3 := tick (2000 * Minute) db2 in
  row "sdel_1" db1 = Some ("retry_wait", Some 1, 1) ∧ row "sdel_1" db2 = Some ("retry_wait", Some 1, 2) ∧
  row "sdel_1" db3 = Some ("dead_letter", Some 1, 3) ∧
  job_status <$> jobs (jobsdb db3) !! 1 = Some "pending".
Proof. by vm_compute. Qed.

Lemma deliveries_register_once_witness :
  intake_ok sample_registered ∧ row "sdel_1" sample_registered = Some ("downloading", Some 1, 1).
Proof.
  split; [|vm_compute; reflexivity].
  refine (proj1 (deliveries_register_once (λ s, s) (λ _, true) sample_intake_history sample_intake _
    sample_intake_ok)).
  repeat constructor.
Defined.
Lemma ingest_transition_checked_witness :
  result_of (Transition "sdel_1" "accepted" "downloading" None None None None (sample_env 200)
               (sample_registered, O)) = inr tt ∧
  ∃ er, Transition "sdel_1" "failed" "downloading" None None None None (sample_env 200)
          (sample_registered, O) = (inl er, (sample_registered, O)) ∧ errors_is er "ErrTerminal" = true.
Proof.
  split; [vm_compute; reflexivity|].
  refine (proj1 (ingest_transition_checked "sdel_1" "failed" "downloading" None None None None
    (sample_env 200) sample_registered O _ _ _) _); [discriminate..|].
  split; [vm_compute; reflexivity|discriminate].
Defined.
