(* ===== verification/UploadWorld.v ===== *)
(** * The world of the upload workers

    The workers of [src/internal/worker/upload_worker*.go] move a job through
    three queues; on the way they write the tables of five repositories and
    call sources, storage, the vault and YouTube.  This file has what they
    share: the databases, the log of the calls, functions that return a Go
    error beside a value, the collaborators ([Deps]) and the registry of the
    sources.

    A collaborator answers from the calls before it; while it works, other
    processes may change the databases ([meanwhile]).  Every repository call is
    tried: its error becomes a Go error value.  The clock of [Env] stands still
    during one job. *)

From S2P Require Import Prelude Store GoError.
From S2P Require UploadJobs PostModel PostStore PublishWorker MediaAssets YouTubeQueue YouTubeQuota.
From S2P Require DeliveryIntake ArtifactVerify Storage.
From Stdlib Require Import ZArith Lia.
Local Open Scope Z_scope.

(** ** Sources of bytes *)
(* Source: internal/worker/artifact_source_registry.go *)
Definition ErrInspectNotImplemented : GoErr := (* 75 *)
  leaf (DSentinel "ErrInspectNotImplemented" "artifact source: inspect not implemented").
(* 102-107 SourceMetadata *)
Record SourceMetadata := mkSourceMetadata {
  md_SizeBytes : Z;
  md_MimeType : string;
  md_ETag : string;
  md_SHA256Hex : string
}.
(** An implementation: its name is its key in the registry. *)
(* 36-69 ArtifactSource *)
Record ArtifactSource (L : Type) := mkArtifactSource {
  src_Name : string;
  src_Inspect : L → UploadJobs.UploadJob → GoErr + option SourceMetadata;
  src_Open : L → UploadJobs.UploadJob → GoErr + ArtifactVerify.Body
}.
Arguments mkArtifactSource {L}.
Arguments src_Name {L}.
Arguments src_Inspect {L}.
Arguments src_Open {L}.
(* 119-122 ArtifactSourceRegistry *)
Definition ArtifactSourceRegistry (L : Type) := gmap string (ArtifactSource L).
Section Registry.
Context {L : Type}.
(* 126-130 NewArtifactSourceRegistry *)
Definition NewArtifactSourceRegistry : ArtifactSourceRegistry L := ∅.
(* 158-173 ArtifactSourceRegistry.Register *)
Definition Register (source : option (ArtifactSource L)) (r : ArtifactSourceRegistry L) :
    GoErr + ArtifactSourceRegistry L :=
  match source with
  | None => inl (leaf (DNew "artifact source Register: nil source"))
  | Some source =>
      let name := src_Name source in
      if bool_decide (name = "") then
        inl (leaf (DNew "artifact source Register: source.Name() returned empty string"))
      else if bool_decide (is_Some (r !! name)) then
        inl (leaf (DNew ("artifact source Register: already registered for " +:+ name)))
      else inr (<[name := source]> r)
  end.
(* 184-189 ArtifactSourceRegistry.Resolve *)
Definition Resolve (t : string) (r : ArtifactSourceRegistry L) : option (ArtifactSource L) := r !! t.
(** The insertion sort; the walk of the map is in any order. *)
(* 204-206 ArtifactSourceRegistry.Names *)
Fixpoint sink (x : string) (prefix : list string) : list string :=
  match prefix with
  | [] => [x]
  | y :: prefix' => if String.leb y x then x :: prefix else y :: sink x prefix'
  end.
(* 195-210 ArtifactSourceRegistry.Names *)
Definition Names (r : ArtifactSourceRegistry L) : list string :=
  rev (foldl (λ prefix x, sink x prefix) [] (map_to_list r).*1).
End Registry.

(** ** Calls that leave the worker *)
Inductive Call :=
| CallInspect (source : string) (job : Z)
| CallOpen (source : string) (job : Z)
| CallRandom
| CallPut (url contentType : string) (length : Z)
| CallHead (key : string)
| CallProbe (url : string)
| CallAccount (id : Z)
| CallAccounts (ids : list Z)
| CallRenew (account : Z) (tokenType : string)
| CallBinding (token user : string)
| CallReauth (account : Z) (code message : string)
| CallUpload (delivery : Z) (token media : string) (publishAt : option Z).
#[export] Instance Call_eq : EqDecision Call. Proof. solve_decision. Defined.

Record Databases := mkDatabases {
  intake : DeliveryIntake.IntakeDB;   (* deliveries and upload jobs *)
  assetdb : MediaAssets.AssetDB;
  postdb : PostStore.PostDB;
  pubdb : YouTubeQueue.PubDB;
  quotadb : YouTubeQuota.QuotaDB
}.
Definition jobdb (d : Databases) : UploadJobs.JobDB := DeliveryIntake.jobsdb (intake d).
Record World := mkWorld { dbs : Databases; log : list Call }.
Definition W := M World.

(** What the worker is wired to.  [None] is a nil interface. *)
Record Deps := mkDeps {
  sources : ArtifactSourceRegistry (list Call);
  delivery_verifier : bool;
  storage : Storage.S3Provider;
  query_order : list string;
  uuid_in : string → option string;
  random : list Call → list Z;
  new_request : string → option GoErr;
  put_object : list Call → string → ArtifactVerify.artifactVerifyReader →
    list ArtifactVerify.Use * (GoErr + Z);
  head_object : list Call → string → string → GoErr + (Z * string * Z);
  prober : option (list Call → string → GoErr + MediaAssets.MediaProbe);
  retention_days : Z;
  yt_store : bool;
  delivery_posts : bool;
  find_account : list Call → Z → err + option PublishWorker.PlatformAccount;
  find_accounts : list Call → list Z → err + gmap Z PublishWorker.PlatformAccount;
  json_publish_snapshots : string → option (gmap string (string * string));
  capability : string → option (bool * bool * bool);
  vault_renew : list Call → Z → string → GoErr + string;
  validate_binding : list Call → string → string → option GoErr;
  mark_reauth : list Call → Z → option err;
  resolver : bool;
  quota : option YouTubeQuota.YouTubeQuotaLimits;
  quotaDayKey : Z → string;
  next_midnight : Z → Z;
  insert_video : list Call → PostModel.Post → string → option Z → GoErr + string;
  cancelled : list Call → option Dyn;
  meanwhile : list Call → Databases → Databases
}.

(** ** Computations *)
Definition put_intake (x : DeliveryIntake.IntakeDB) (w : World) : World :=
  mkWorld (mkDatabases x (assetdb (dbs w)) (postdb (dbs w)) (pubdb (dbs w)) (quotadb (dbs w))) (log w).
Definition put_assetdb (x : MediaAssets.AssetDB) (w : World) : World :=
  mkWorld (mkDatabases (intake (dbs w)) x (postdb (dbs w)) (pubdb (dbs w)) (quotadb (dbs w))) (log w).
Definition put_postdb (x : PostStore.PostDB) (w : World) : World :=
  mkWorld (mkDatabases (intake (dbs w)) (assetdb (dbs w)) x (pubdb (dbs w)) (quotadb (dbs w))) (log w).
Definition put_pubdb (x : YouTubeQueue.PubDB) (w : World) : World :=
  mkWorld (mkDatabases (intake (dbs w)) (assetdb (dbs w)) (postdb (dbs w)) x (quotadb (dbs w))) (log w).
Definition put_quotadb (x : YouTubeQuota.QuotaDB) (w : World) : World :=
  mkWorld (mkDatabases (intake (dbs w)) (assetdb (dbs w)) (postdb (dbs w)) (pubdb (dbs w)) x) (log w).
Definition on_intake {A} (m : M DeliveryIntake.IntakeDB A) : W A := zoom (intake ∘ dbs) put_intake m.
Definition put_jobdb (x : UploadJobs.JobDB) (w : World) : World :=
  put_intake (DeliveryIntake.put_jobs x (intake (dbs w))) w.
Definition on_jobs {A} (m : M UploadJobs.JobDB A) : W A := zoom (jobdb ∘ dbs) put_jobdb m.
Definition on_assets {A} (m : M MediaAssets.AssetDB A) : W A := zoom (assetdb ∘ dbs) put_assetdb m.
Definition on_posts {A} (m : M PostStore.PostDB A) : W A := zoom (postdb ∘ dbs) put_postdb m.
Definition on_pubs {A} (m : M YouTubeQueue.PubDB A) : W A := zoom (pubdb ∘ dbs) put_pubdb m.
Definition on_quota {A} (m : M YouTubeQuota.QuotaDB A) : W A := zoom (quotadb ∘ dbs) put_quotadb m.

(** [(T, error)]. *)
Notation G A := (W (GoErr + A)).
Definition give {A} (a : A) : G A := mret (inr a).
Definition fail {A} (er : GoErr) : G A := mret (inl er).
Definition and_then {A B} (m : G A) (k : A → G B) : G B :=
  m ≫= λ r, match r with inl er => fail er | inr a => k a end.
Notation "'do' x <- m ; k" := (and_then m (λ x, k)) (at level 100, x binder, m at next level, right associativity).
(** [fmt.Errorf("prefix: %w", err)] of a repository call, of a call, and of neither. *)
Definition store {A} (prefix : string) (m : W A) : G A :=
  r ← try m; mret (match r with inl er => inl (Errorf_w prefix (of_err er)) | inr a => inr a end).
Definition wrapped {A} (prefix : string) (m : G A) : G A :=
  r ← m; mret (match r with inl er => inl (Errorf_w prefix er) | inr a => inr a end).
Definition errorf {A} (text : string) : G A := fail (leaf (DNew text)).
Definition of_option (o : option GoErr) : GoErr + unit := match o with Some er => inl er | None => inr tt end.

Section Outside.
Context (D : Deps).
(** A call: it is logged, others may work meanwhile, then it answers. *)
Definition outside {A} (c : Call) (answer : list Call → A) : W A := λ _ w,
  (inr (answer (log w.1)), (mkWorld (meanwhile D (log w.1) (dbs w.1)) (log w.1 ++ [c]), w.2)).
(** [ctx.Err()]: the context is stopped from outside. *)
Definition ctx_Err : W (option Dyn) := λ _ w, (inr (cancelled D (log w.1)), w).
End Outside.

(** ** Reasoning

    [runs e m w Q]: the run of [m] from [w] throws nothing and ends in [Q]. *)
Definition runs {A} (e : Env) (m : W A) (w : World) (Q : A → World → Prop) : Prop :=
  ∀ n, match m e (w, n) with (inr a, (w', _)) => Q a w' | (inl _, _) => False end.

Section runs.
Context (e : Env).
Implicit Types (w : World).
Lemma runs_ret {A} (a : A) w Q : Q a w → runs e (mret a) w Q.
Proof. intros H n. exact H. Qed.
Lemma runs_ask w Q : Q e w → runs e ask w Q.
Proof. intros H n. exact H. Qed.
Lemma runs_weaken {A} (m : W A) w (Q R : A → World → Prop) :
  runs e m w Q → (∀ a w', Q a w' → R a w') → runs e m w R.
Proof. intros H HQ n. specialize (H n). destruct (m e (w, n)) as [[?|a] [w' n']]; auto. Qed.
Lemma runs_bind {A B} (m : W A) (k : A → W B) w Q :
  runs e m w (λ a w', runs e (k a) w' Q) → runs e (m ≫= k) w Q.
Proof.
  intros H n. specialize (H n). unfold mbind, M_bind.
  destruct (m e (w, n)) as [[?|a] [w' n']]; [done|]. apply H.
Qed.
Lemma runs_and_then {A B} (m : G A) (k : A → G B) w Q :
  runs e m w (λ r w', match r with inl er => Q (inl er) w' | inr a => runs e (k a) w' Q end) →
  runs e (and_then m k) w Q.
Proof.
  intros H. unfold and_then. apply runs_bind. eapply runs_weaken; [exact H|].
  intros [er|a] w' Hr; [by apply runs_ret|done].
Qed.
Lemma runs_outside {A} D c (answer : list Call → A) w (Q : A → World → Prop) :
  Q (answer (log w)) (mkWorld (meanwhile D (log w) (dbs w)) (log w ++ [c])) →
  runs e (outside D c answer) w Q.
Proof. intros H n. exact H. Qed.
Lemma runs_ctx_Err D w (Q : option Dyn → World → Prop) : Q (cancelled D (log w)) w → runs e (ctx_Err D) w Q.
Proof. intros H n. exact H. Qed.
Lemma runs_try {T A} get (put : T → World → World) (m : M T A) w (Q : err + A → World → Prop) :
  (∀ n r t n', m e (get w, n) = (r, (t, n')) → Q r (put t w)) → runs e (try (zoom get put m)) w Q.
Proof.
  intros H n. specialize (H n). unfold try, zoom. cbn [fst snd].
  destruct (m e (get w, n)) as [r [t n']] eqn:E. by eapply H.
Qed.
Lemma runs_store {T A} prefix get (put : T → World → World) (m : M T A) w (Q : GoErr + A → World → Prop) :
  (∀ n r t n', m e (get w, n) = (r, (t, n')) →
     match r with inl er => Q (inl (Errorf_w prefix (of_err er))) (put t w) | inr a => Q (inr a) (put t w) end) →
  runs e (store prefix (zoom get put m)) w Q.
Proof.
  intros H. unfold store. apply runs_bind, runs_try. intros n r t n' E. apply runs_ret.
  specialize (H _ _ _ _ E). by destruct r.
Qed.
Lemma runs_wrapped {A} prefix (m : G A) w (Q : GoErr + A → World → Prop) :
  runs e m w (λ r w', match r with inl er => Q (inl (Errorf_w prefix er)) w' | inr a => Q (inr a) w' end) →
  runs e (wrapped prefix m) w Q.
Proof.
  intros H. unfold wrapped. apply runs_bind. eapply runs_weaken; [exact H|].
  intros r w' Hr. apply runs_ret. by destruct r.
Qed.
End runs.
(** One step of a computation of the workers. *)
Ltac runs_step :=
  lazymatch goal with
  | |- runs _ (mret _) _ _ => apply runs_ret
  | |- runs _ (give _) _ _ => apply runs_ret
  | |- runs _ (fail _) _ _ => apply runs_ret
  | |- runs _ (errorf _) _ _ => apply runs_ret
  | |- runs _ ask _ _ => apply runs_ask
  | |- runs _ (outside _ _ _) _ _ => apply runs_outside
  | |- runs _ (ctx_Err _) _ _ => apply runs_ctx_Err
  | |- runs _ (wrapped _ _) _ _ => apply runs_wrapped
  | |- runs _ (and_then _ _) _ _ => apply runs_and_then
  | |- runs _ (_ ≫= _) _ _ => apply runs_bind
  | |- runs _ (let _ := _ in _) _ _ => cbv zeta
  end.

(** [always R e m]: wherever it starts, [m] ends [R]-above. *)
Definition always {A} (R : relation World) (e : Env) (m : W A) : Prop := ∀ w, runs e m w (λ _ w', R w w').
Section always.
Context (R : relation World) `{!PreOrder R} (e : Env).
Lemma always_ret {A} (a : A) : always R e (mret a).
Proof. intros w. apply runs_ret. reflexivity. Qed.
Lemma always_give {A} (a : A) : always R e (give a).
Proof. apply always_ret. Qed.
Lemma always_fail {A} er : always R e (fail er : G A).
Proof. apply always_ret. Qed.
Lemma always_errorf {A} s : always R e (errorf s : G A).
Proof. apply always_ret. Qed.
Lemma always_ask : always R e ask.
Proof. intros w. apply runs_ask. reflexivity. Qed.
Lemma always_ctx_Err D : always R e (ctx_Err D).
Proof. intros w. by apply runs_ctx_Err. Qed.
Lemma always_bind {A B} (m : W A) (k : A → W B) : always R e m → (∀ a, always R e (k a)) → always R e (m ≫= k).
Proof.
  intros Hm Hk w. apply runs_bind. eapply runs_weaken; [apply Hm|]. intros a w1 H1.
  eapply runs_weaken; [apply Hk|]. intros b w2 H2. transitivity w1; [exact H1|exact H2].
Qed.
Lemma always_and_then {A B} (m : G A) (k : A → G B) :
  always R e m → (∀ a, always R e (k a)) → always R e (and_then m k).
Proof. intros Hm Hk. apply always_bind; [done|]. intros [er|a]; [apply always_fail|apply Hk]. Qed.
Lemma always_store {A} s (m : W A) : always R e (try m) → always R e (store s m).
Proof. intros H. apply always_bind; [done|]. intros r. apply always_ret. Qed.
Lemma always_wrapped {A} s (m : G A) : always R e m → always R e (wrapped s m).
Proof. intros H. apply always_bind; [done|]. intros r. apply always_ret. Qed.
End always.
Create HintDb always.
#[export] Hint Resolve always_ret always_give always_fail always_errorf always_ask always_ctx_Err always_store
  always_wrapped : always.
Ltac solve_always :=
  repeat first
    [ progress cbv zeta
    | solve [eauto with always typeclass_instances]
    | lazymatch goal with
      | |- always _ _ (_ ≫= _) => apply always_bind; [apply _| |intros ?]
      | |- always _ _ (and_then _ _) => apply always_and_then; [apply _| |intros ?]
      end
    | case_match ].
