(* ===== verification/UploadDemo.v ===== *)
(** * A small concrete system for the witnesses of the upload workers

    One Velox delivery of the three bytes [abc], its upload job, leased by a
    worker; an account on YouTube and one on TikTok; collaborators that answer
    and nobody else at work. *)

From S2P Require Import Prelude Store GoError UploadWorld.
From S2P Require ExternalDeliveryModel Outbox PostReads UploadJobs PostStore PublishWorker MediaAssets YouTubeQueue YouTubeQuota.
From S2P Require DeliveryIntake ArtifactVerify Storage Sha256.
From Stdlib Require Import ZArith Lia.
Local Open Scope Z_scope.

Definition demo_env (t : Z) : Env := mkEnv t t (λ _, Fine) (λ _, false) (λ _, false) "asset-1".
Lemma demo_env_reliable t : reliable (demo_env t).
Proof. done. Qed.

Definition demo_spec (source : string) (targets : list Z) : UploadJobs.JobSpec :=
  UploadJobs.mkJobSpec 7 1 source "clip.mp4" None None "Title" "Caption" "" "" targets None None None 5 100 0.
(** The job as the pools see it: leased by [ingest-1], and with its asset by [publish-1]. *)
Definition demo_job (source : string) (targets : list Z) (owner : string) (asset : option string) :
    UploadJobs.UploadJob :=
  UploadJobs.mkUploadJob 1 (demo_spec source targets) UploadJobs.no_session
    (UploadJobs.mkJobLease (Some owner) (Some 900) (Some 100))
    (UploadJobs.mkJobStatus UploadJobs.UploadJobStatusLeased None None None)
    None asset 100 1 None 0 (Some 3) (Some 100).
Definition demo_delivery : ExternalDeliveryModel.ExternalDelivery :=
  ExternalDeliveryModel.mkExternalDelivery "sdel_1" "velox" "ext-1" "key-1" "dst_1" "art-1"
    (Sha256.sha256_hex "abc") 3 "video/mp4" None "" None None "downloading" "" (Some 1) None None None None None
    0 0 None None 0 None None 5.
Definition demo_dbs (job : UploadJobs.UploadJob) : Databases :=
  mkDatabases
    (DeliveryIntake.mkIntakeDB {["sdel_1" := demo_delivery]} (UploadJobs.mkJobDB {[1 := job]} 2) ∅ ∅ ∅)
    (MediaAssets.mkAssetDB ∅ {[1 := PostReads.mkWorkspace 1 "w" 7 0]} ∅) (PostStore.mkPostDB ∅ ∅ ∅ (Outbox.mkOutboxDB ∅ 1) 1 1) (YouTubeQueue.mkPubDB ∅ 1) ∅.
Definition demo_world (job : UploadJobs.UploadJob) : World := mkWorld (demo_dbs job) [].

Definition demo_source (name : string) : ArtifactSource (list Call) :=
  mkArtifactSource name (λ _ _, inr (Some (mkSourceMetadata 3 "video/mp4" "" "")))
    (λ _ _, inr (ArtifactVerify.mkBody [("abc", Some ArtifactVerify.io_EOF)] None)).
Definition demo_account (id : Z) (platform : string) : PublishWorker.PlatformAccount :=
  PublishWorker.mkPlatformAccount id platform "UC1" "active" None "" None.
Definition demo_accounts : gmap Z PublishWorker.PlatformAccount :=
  {[4 := demo_account 4 "youtube"; 2 := demo_account 2 "tiktok"]}.
(** [status] answers the PUT, [video] the upload to YouTube. *)
Definition demo_deps (status : Z) (video : GoErr + string) : Deps := {|
  sources := {["velox_artifact" := demo_source "velox_artifact";
               "authenticated_drive" := demo_source "authenticated_drive"]};
  delivery_verifier := true;
  storage := Storage.local_minio;
  query_order := ["X-Amz-Algorithm"; "X-Amz-Credential"; "X-Amz-Date"; "X-Amz-Expires"; "X-Amz-SignedHeaders"];
  uuid_in := λ s, if bool_decide (s = "") then None else Some s;
  random := λ h, repeat (Z.of_nat (length h)) 16;
  new_request := λ _, None;
  put_object := λ _ _ _, ([ArtifactVerify.UseRead 8; ArtifactVerify.UseRead 8], inr status);
  head_object := λ _ _ _, inr (200, "video/mp4", 3);
  prober := None;
  retention_days := 0;
  yt_store := true;
  delivery_posts := true;
  find_account := λ _ id, inr (demo_accounts !! id);
  find_accounts := λ _ _, inr demo_accounts;
  json_publish_snapshots := λ _, None;
  capability := λ p, if bool_decide (p = "youtube") then Some (true, true, true) else None;
  vault_renew := λ _ _ _, inr "token";
  validate_binding := λ _ _ _, None;
  mark_reauth := λ _ _, None;
  resolver := true;
  quota := None;
  quotaDayKey := YouTubeQuota.day_of;
  next_midnight := YouTubeQuota.midnight_after;
  insert_video := λ _ _ _ _, video;
  cancelled := λ _, None;
  meanwhile := λ _ d, d
|}.
