(* ===== verification/UploadIngest.v ===== *)
(** * The ingest pool: from a source to a verified asset

    [src/internal/worker/upload_worker_ingest.go]: one claimed job is streamed
    from its source through the verifying reader into the storage; the asset
    becomes ready only after the checks, and the job is handed to the publish
    pool.  [src/internal/worker/artifact_verify.go] gives the test of the
    errors that switch the check against the delivery off. *)

From S2P Require Import Prelude Store GoError UploadWorld.
From S2P Require UploadJobs MediaAssets ArtifactVerify DeliveryIntake Storage.
From Stdlib Require Import ZArith Lia.
Local Open Scope Z_scope.

(* Source: internal/models/upload_job.go *)
Definition UploadJobSourcePublicDrive : string := "public_drive". (* 32 *)
Definition UploadJobSourceAuthenticatedDrive : string := "authenticated_drive". (* 35 *)
Definition UploadJobSourceVeloxArtifact : string := "velox_artifact". (* 46 *)
(* Source: internal/worker/artifact_verify.go *)
(* 211-217 IsDeliveryVerificationSkipErr *)
Definition IsDeliveryVerificationSkipErr (er : option GoErr) : bool :=
  match er with
  | None => false
  | Some er => Is er "ErrExternalDeliveryNotLinked" || Is er "ErrExternalDeliveryNoExpectedTriple"
  end.

Section Ingest.
Context (D : Deps).
(* Source: internal/worker/upload_worker_ingest.go *)
(** The error of the mark is only logged. *)
(* 299-309 UploadWorker.markAssetFailed *)
Definition markAssetFailed (assetID reason : string) : W unit :=
  _ ← try (on_assets (MediaAssets.MarkFailedWithReason (uuid_in D) assetID reason)); mret tt.
(** A failure after the asset was created: the asset fails with the error's
    text, the job with the error behind a prefix. *)
Definition fail_asset {A} (assetID prefix : string) (er : GoErr) : G A :=
  _ ← markAssetFailed assetID (Error er); fail (Errorf_w prefix er).
Definition fail_asset_reason {A} (assetID reason : string) : G A :=
  _ ← markAssetFailed assetID reason; errorf reason.
(** [ProbedAt] is the worker's. *)
(* 285 UploadWorker.probeReadyAsset *)
Definition probed_at (now : Z) (p : MediaAssets.MediaProbe) : MediaAssets.MediaProbe :=
  MediaAssets.mkMediaProbe (MediaAssets.mp_DurationSeconds p) (MediaAssets.mp_Width p)
    (MediaAssets.mp_Height p) (MediaAssets.mp_FPS p) (MediaAssets.mp_HasAudio p)
    (MediaAssets.mp_VideoCodec p) (MediaAssets.mp_AudioCodec p) now.
(** Best effort: nothing of it is returned. *)
(* 267-289 UploadWorker.probeReadyAsset *)
Definition probeReadyAsset (assetID key : string) : W unit :=
  match prober D with
  | None => mret tt
  | Some probe =>
      e ← ask;
      match Storage.GetObject (query_order D) (app_now e) (storage D) key (15 * Minute) with
      | inl _ => mret tt
      | inr url =>
          r ← outside D (CallProbe url) (λ h, probe h url);
          match r with
          | inl _ => mret tt
          | inr p =>
              _ ← try (on_assets (MediaAssets.SaveProbe (uuid_in D) assetID (Some (probed_at (app_now e) p))));
              mret tt
          end
      end
  end.

(** What the source says of the job's bytes, when it says anything. *)
(* 52-65 UploadWorker.processIngestJob *)
Definition inspect_source (src : ArtifactSource (list Call)) (job : UploadJobs.UploadJob) :
    G (option SourceMetadata) :=
  r ← outside D (CallInspect (src_Name src) (UploadJobs.ID job)) (λ h, src_Inspect src h job);
  match r with
  | inr md => give md
  | inl er => if Is er "ErrInspectNotImplemented" then give None else fail (Errorf_w "inspect source" er)
  end.
(** What the stream must be.  An error leaves the source open. *)
(* 93-122 UploadWorker.processIngestJob *)
Definition verification_policy (job : UploadJobs.UploadJob) (md : option SourceMetadata)
    (sizeBytes : Z) (contentType : string) : G ArtifactVerify.ArtifactVerificationPolicy :=
  let policy size sha require := ArtifactVerify.mkArtifactVerificationPolicy size sha contentType require in
  let source := UploadJobs.SourceType (UploadJobs.Spec job) in
  if bool_decide (source = UploadJobSourceVeloxArtifact) then
    if delivery_verifier D then
      r ← try (on_intake (DeliveryIntake.GetExpectedTripleByUploadJobID (UploadJobs.ID job)));
      match r with
      | inr (expSize, expSHA) =>
          if 0 <? expSize then give (policy expSize expSHA true)
          else if IsDeliveryVerificationSkipErr None then give (policy sizeBytes "" false)
          else errorf "velox: load expected triple: %!w(<nil>)"
      | inl er =>
          if IsDeliveryVerificationSkipErr (Some (of_err er)) then give (policy sizeBytes "" false)
          else fail (Errorf_w "velox: load expected triple" (of_err er))
      end
    else give (policy sizeBytes "" false)
  else if bool_decide (source = UploadJobSourceAuthenticatedDrive) then
    match md with
    | Some md => give (policy sizeBytes (md_SHA256Hex md) (negb (bool_decide (md_SHA256Hex md = ""))))
    | None => give (policy sizeBytes "" false)
    end
  else give (policy sizeBytes "" false).
(** The row of the asset: pending, kept for the retention days. *)
(* 140-152 UploadWorker.processIngestJob *)
Definition pending_asset (job : UploadJobs.UploadJob) (key contentType : string) (sizeBytes now : Z) :
    MediaAssets.MediaAsset :=
  let buffer := if retention_days D <=? 0 then 7 else retention_days D in
  MediaAssets.mkMediaAsset "" (UploadJobs.UserID (UploadJobs.Spec job)) key (Storage.bucket (storage D))
    contentType sizeBytes MediaAssets.MediaAssetStatusPending "" ""
    (now + wrap64 (wrap64 (buffer * 24) * Hour)) 0 0
    (MediaAssets.mkProbeColumns None None None None None "" "" None).

(** The client sends what it reads; the reader is used up.  Then the answer of
    the storage, the end of the stream and the object are checked. *)
(* 164-221 UploadWorker.processIngestJob *)
Definition stream_asset (assetID key contentType : string) (sizeBytes : Z)
    (reader : ArtifactVerify.artifactVerifyReader) :
    G (ArtifactVerify.artifactVerifyReader * string * Z) :=
  e ← ask;
  let grant := Storage.SignUpload (query_order D) (app_now e) (storage D) key (15 * Minute) in
  let url := Storage.UploadURL grant in
  match new_request D url with
  | Some er => fail_asset assetID "build s3 upload request" er
  | None =>
      r ← outside D (CallPut url contentType sizeBytes) (λ h, put_object D h url reader);
      let reader := ArtifactVerify.uses r.1 reader in
      match r.2 with
      | inl er => fail_asset assetID "upload to s3" er
      | inr status =>
          let '(closeErr, reader) := ArtifactVerify.Close reader in
          match closeErr with
          | Some er => fail_asset assetID "close source stream" er
          | None =>
              match ArtifactVerify.Verify reader with
              | Some er => fail_asset assetID "artifact verification" er
              | None =>
                  if 300 <=? status then
                    fail_asset_reason assetID ("s3 upload returned " +:+ itoa status)
                  else
                    head ← outside D (CallHead key) (head_object D);
                    match Storage.VerifyUpload (query_order D) (app_now e) (storage D) head key with
                    | inl er => fail_asset assetID "verify s3 upload" er
                    | inr (verifiedContentType, verifiedSize) =>
                        let mime := ArtifactVerify.ExpectedMIME (ArtifactVerify.policy reader) in
                        if negb (bool_decide (mime = "")) && negb (bool_decide (verifiedContentType = mime)) then
                          fail_asset_reason assetID ("mime mismatch (expected " +:+ quote mime +:+
                            ", S3 returned " +:+ quote verifiedContentType +:+ ")")
                        else give (reader, verifiedContentType, verifiedSize)
                    end
              end
          end
      end
  end.

(** From the open source to the job handed over. *)
(* 70-258 UploadWorker.processIngestJob *)
Definition import_source (src : ArtifactSource (list Call)) (md : option SourceMetadata)
    (job : UploadJobs.UploadJob) (workerID : string) : G unit :=
  let spec := UploadJobs.Spec job in
  let sizeBytes := default 0 (md_SizeBytes <$> md) in
  let contentType := default "" (md_MimeType <$> md) in
  do body <- wrapped "open source"
    (outside D (CallOpen (src_Name src) (UploadJobs.ID job)) (λ h, src_Open src h job));
  if sizeBytes <=? 0 then
    errorf ("source returned unknown or zero size for job " +:+ itoa (UploadJobs.ID job) +:+
            "; cannot import")
  else
    do policy <- verification_policy job md sizeBytes contentType;
    do reader <- wrapped "wrap body for verification"
      (mret (ArtifactVerify.NewArtifactVerifyReader (Some body) policy));
    bytes ← outside D CallRandom (random D);
    let key := Storage.BuildUploadKey bytes (UploadJobs.UserID spec) (UploadJobs.SourceID spec) in
    e ← ask;
    do asset <- store "create media asset" (on_assets
      (MediaAssets.Create (fresh_uuid e) (pending_asset job key contentType sizeBytes (app_now e))));
    let assetID := MediaAssets.ID asset in
    do verified <- stream_asset assetID key contentType sizeBytes reader;
    let '(reader, verifiedContentType, verifiedSize) := verified in
    do _ <- store "mark media asset ready" (on_assets
      (MediaAssets.MarkReady (uuid_in D) assetID (ArtifactVerify.ActualSHA256Hex reader) verifiedSize
         verifiedContentType));
    do _ <- store "mark ingested"
      (on_jobs (UploadJobs.MarkIngested (UploadJobs.ID job) workerID assetID verifiedSize));
    _ ← probeReadyAsset assetID key;
    give tt.
(* 32-65 UploadWorker.processIngestJob *)
Definition processIngestJob (job : UploadJobs.UploadJob) (workerID : string) : G unit :=
  match Resolve (UploadJobs.SourceType (UploadJobs.Spec job)) (sources D) with
  | None => errorf ("unsupported source type: " +:+ UploadJobs.SourceType (UploadJobs.Spec job))
  | Some src => do md <- inspect_source src job; import_source src md job workerID
  end.
End Ingest.
