(* ===== verification/UploadIngestProps.v ===== *)
(** * What the ingest pool guarantees

    An asset that becomes ready has the bytes that were asked for; and a job
    that leaves the ingest pool either hands over a ready asset or leaves a
    failed one. *)

From S2P Require Import Prelude Store GoError UploadWorld UploadIngest UploadDemo.
From S2P Require ExternalDeliveryModel UploadJobs MediaAssets MediaProps ArtifactVerify DeliveryIntake Storage Sha256.
From Stdlib Require Import ZArith Lia.
Local Open Scope Z_scope.

(** The delivery a job was made for. *)
Definition linked (job : UploadJobs.UploadJob) (d : Databases) : option ExternalDeliveryModel.ExternalDelivery :=
  DeliveryIntake.find_delivery
    (λ x, bool_decide (ExternalDeliveryModel.UploadJobID x = Some (UploadJobs.ID job))) (intake d).
Definition asset_row (id : string) (w : World) : option MediaAssets.AssetRow :=
  MediaAssets.assets (assetdb (dbs w)) !! id.
(** What the stream is held to. *)
Record gate (D : Deps) (job : UploadJobs.UploadJob) (md : option SourceMetadata)
    (o : option ExternalDeliveryModel.ExternalDelivery) (p : ArtifactVerify.ArtifactVerificationPolicy) : Prop := {
  g_size : 0 < ArtifactVerify.ExpectedSize p < int64_max;
  g_mime : ArtifactVerify.ExpectedMIME p = default "" (md_MimeType <$> md);
  g_velox : UploadJobs.SourceType (UploadJobs.Spec job) = UploadJobSourceVeloxArtifact →
    delivery_verifier D = true → ∀ d, o = Some d →
    0 < ExternalDeliveryModel.ExpectedSizeBytes d → ExternalDeliveryModel.ExpectedSHA256 d ≠ "" →
    ArtifactVerify.ExpectedSize p = ExternalDeliveryModel.ExpectedSizeBytes d ∧
    ArtifactVerify.RequireSHA p = true ∧ ArtifactVerify.ExpectedSHA256 p = ExternalDeliveryModel.ExpectedSHA256 d;
  g_drive : UploadJobs.SourceType (UploadJobs.Spec job) = UploadJobSourceAuthenticatedDrive →
    ∀ m, md = Some m → ArtifactVerify.ExpectedSize p = md_SizeBytes m ∧ (md_SHA256Hex m ≠ "" →
    ArtifactVerify.RequireSHA p = true ∧ ArtifactVerify.ExpectedSHA256 p = md_SHA256Hex m)
}.

(** The row after a write of it. *)
Lemma altered_row id f (w : World) a : asset_row id w = Some a →
  asset_row id (put_assetdb (MediaAssets.put_assets (alter f id (MediaAssets.assets (assetdb (dbs w)))) (assetdb (dbs w))) w) =
  Some (f a).
Proof. unfold asset_row. intros H. cbn. by rewrite lookup_alter_eq, H. Qed.
Lemma put_intake_id w : put_intake (intake (dbs w)) w = w.
Proof. by destruct w as [[] ?]. Qed.
(** The lookup of the triple, whatever the database does. *)
Lemma triple_cases job e db n r db' n' :
  DeliveryIntake.GetExpectedTripleByUploadJobID (UploadJobs.ID job) e (db, n) = (r, (db', n')) →
  let o := DeliveryIntake.find_delivery
    (λ x, bool_decide (ExternalDeliveryModel.UploadJobID x = Some (UploadJobs.ID job))) db in
  db' = db ∧ match r with
  | inr (size, sha) => ∃ d, o = Some d ∧ size = ExternalDeliveryModel.ExpectedSizeBytes d ∧
      sha = ExternalDeliveryModel.ExpectedSHA256 d ∧ 0 < size
  | inl er => IsDeliveryVerificationSkipErr (Some (of_err er)) = true → ∀ d, o = Some d →
      ¬ (0 < ExternalDeliveryModel.ExpectedSizeBytes d ∧ ExternalDeliveryModel.ExpectedSHA256 d ≠ "")
  end.
Proof.
  intros H. cbv zeta. unfold DeliveryIntake.GetExpectedTripleByUploadJobID in H.
  destruct (UploadJobs.ID job <=? 0); [injection H as <- <- <-; by split|].
  unfold mbind, M_bind, exec, throw, mret, M_ret in H. destruct (fault e n); [|injection H as <- <- <-; by split..].
  destruct (DeliveryIntake.find_delivery _ db) as [d|]; [|injection H as <- <- <-; by split].
  destruct (Z.leb_spec (ExternalDeliveryModel.ExpectedSizeBytes d) 0) as [Hz|Hz]; cbn [orb] in H.
  - injection H as <- <- <-. split; [done|]. intros _ d' [= <-]. lia.
  - case_bool_decide as Hs; injection H as <- <- <-; (split; [done|]).
    + intros _ d' [= <-]. naive_solver.
    + by exists d.
Qed.

Section Ingest.
Context (D : Deps) (job : UploadJobs.UploadJob) (e : Env).
Let id := fresh_uuid e.
Context (Hid : uuid_in D id = Some id).
Notation row := (asset_row id).
(** Sizes are those of files. *)
Definition sizes_fit (o : option ExternalDeliveryModel.ExternalDelivery) : Prop :=
  (∀ d, o = Some d → ExternalDeliveryModel.ExpectedSizeBytes d < int64_max) ∧
  (∀ src, Resolve (UploadJobs.SourceType (UploadJobs.Spec job)) (sources D) = Some src →
     (∀ h md, src_Inspect src h job = inr (Some md) → md_SizeBytes md < int64_max) ∧
     (∀ h b, src_Open src h job = inr b →
        Z.of_nat (String.length (ArtifactVerify.content (ArtifactVerify.chunks b))) ≤ int64_max)).

Lemma verification_policy_spec md size ct w : 0 < size < int64_max →
  (∀ d, linked job (dbs w) = Some d → ExternalDeliveryModel.ExpectedSizeBytes d < int64_max) →
  ct = default "" (md_MimeType <$> md) → size = default 0 (md_SizeBytes <$> md) →
  runs e (verification_policy D job md size ct) w (λ r w', w' = w ∧
    match r with inr p => gate D job md (linked job (dbs w)) p | inl _ => True end).
Proof using Type.
  intros Hs Hd -> Hmd. unfold verification_policy. case_bool_decide as Hv.
  - assert (Hdrive : UploadJobs.SourceType (UploadJobs.Spec job) ≠ UploadJobSourceAuthenticatedDrive) by by rewrite Hv.
    destruct (delivery_verifier D) eqn:Hver; [|apply runs_ret; split; [done|]; by constructor; simpl; rewrite ?Hver].
    apply runs_bind, runs_try. intros n r t n' Hr.
    apply (triple_cases job) in Hr as [-> Hr]. unfold compose. rewrite put_intake_id.
    destruct r as [er|[size' sha]].
    + destruct (IsDeliveryVerificationSkipErr (Some (of_err er))) eqn:Hskip; apply runs_ret; [|done].
      split; [done|]. constructor; simpl; [done..| |done]. intros _ _ d Ho H1 H2.
      by destruct (Hr eq_refl d Ho).
    + destruct Hr as (d & Ho & -> & -> & Hpos). destruct (Z.ltb_spec 0 (ExternalDeliveryModel.ExpectedSizeBytes d)); [|lia].
      apply runs_ret. split; [done|]. change (linked job (dbs w) = Some d) in Ho.
      constructor; simpl; [split; [done|by apply Hd]|done| |done]. intros _ _ d' Hd' _ _. rewrite Ho in Hd'. by injection Hd' as <-.
  - assert (Hno : ∀ p, ArtifactVerify.ExpectedSize p = size → ArtifactVerify.ExpectedMIME p = default "" (md_MimeType <$> md) →
      (∀ m, md = Some m → md_SHA256Hex m ≠ "" → UploadJobs.SourceType (UploadJobs.Spec job) = UploadJobSourceAuthenticatedDrive →
         ArtifactVerify.RequireSHA p = true ∧ ArtifactVerify.ExpectedSHA256 p = md_SHA256Hex m) →
      gate D job md (linked job (dbs w)) p).
    { intros p Hp Hm Hsha. constructor; [by rewrite Hp|done|done|]. intros Hsrc m ->. rewrite Hp, Hmd. split; [done|]. eauto. }
    case_bool_decide as Ha; [destruct md as [m|]|]; apply runs_ret; (split; [done|]); apply Hno; simpl; try done.
    intros m' [= <-] Hne _. by rewrite bool_decide_eq_false_2.
Qed.

(** *** Failing *)
Definition unready (w : World) : Prop :=
  ∃ a, row w = Some a ∧ MediaAssets.Status a ≠ MediaAssets.MediaAssetStatusReady.
Definition failed (reason : string) (w : World) : Prop :=
  ∃ a, row w = Some a ∧ MediaAssets.Status a = MediaAssets.MediaAssetStatusFailed ∧
       MediaAssets.ErrorMessage a = reason.
Lemma markAssetFailed_spec reason w : unready w →
  runs e (markAssetFailed D id reason) w (λ _ w', unready w' ∧ (reliable e → failed reason w') ∧
    intake (dbs w') = intake (dbs w)).
Proof using Hid.
  intros (a & Ha & Hst). unfold markAssetFailed. apply runs_bind, runs_try. intros n r t n' Hr.
  apply runs_ret. unfold MediaAssets.MarkFailedWithReason in Hr. unfold compose in *. split; [|split; [|done]].
  - apply (MediaProps.MarkFailed_row _ _ _ Hid) in Hr. unfold MediaProps.row_write in Hr. cbn [fst] in Hr.
    destruct Hr as [->| ->]; unfold unready, asset_row; simpl.
    + eauto.
    + rewrite lookup_alter_eq. unfold asset_row in Ha. rewrite Ha. eexists. by split.
  - intros Hrel. unfold MediaAssets.MarkFailed in Hr. unfold asset_row in Ha.
    rewrite (MediaProps.update_then_needs_hit _ _ _ Hid _ _ _ _ _ _ Hrel Ha) in Hr.
    injection Hr as _ <- _. unfold failed, asset_row. simpl. rewrite lookup_insert_eq. eexists. by split.
Qed.
Lemma fail_asset_spec {A} prefix er w (Q : GoErr + A → World → Prop) : unready w →
  (∀ w', unready w' → (reliable e → failed (Error er) w') → intake (dbs w') = intake (dbs w) →
     Q (inl (Errorf_w prefix er)) w') →
  runs e (fail_asset D id prefix er) w Q.
Proof using Hid.
  intros Hw HQ. apply runs_bind. eapply runs_weaken; [by apply markAssetFailed_spec|].
  intros _ w' (H1 & H2 & H3). apply runs_ret. auto.
Qed.
Lemma fail_asset_reason_spec {A} reason w (Q : GoErr + A → World → Prop) : unready w →
  (∀ w', unready w' → (reliable e → failed reason w') → intake (dbs w') = intake (dbs w) →
     Q (inl (leaf (DNew reason))) w') →
  runs e (fail_asset_reason D id reason) w Q.
Proof using Hid.
  intros Hw HQ. apply runs_bind. eapply runs_weaken; [by apply markAssetFailed_spec|].
  intros _ w' (H1 & H2 & H3). apply runs_ret. auto.
Qed.

(** *** What the others respect *)
Context (workerID : string) (o : option ExternalDeliveryModel.ExternalDelivery) (lease : Prop).
Definition job_held (x : DeliveryIntake.IntakeDB) : Prop :=
  ∃ j, UploadJobs.jobs (DeliveryIntake.jobsdb x) !! UploadJobs.ID job = Some j ∧
       UploadJobs.owned_by workerID j = true.
Definition handed_over (x : DeliveryIntake.IntakeDB) : Prop :=
  ∃ j, UploadJobs.jobs (DeliveryIntake.jobsdb x) !! UploadJobs.ID job = Some j ∧
       UploadJobs.AssetID j = Some id.
(** The link of the delivery and, where the lease counts, the lease of the job. *)
Definition stays (x : DeliveryIntake.IntakeDB) : Prop :=
  DeliveryIntake.find_delivery
    (λ x, bool_decide (ExternalDeliveryModel.UploadJobID x = Some (UploadJobs.ID job))) x = o ∧
  (lease → job_held x).

(** *** Streaming *)
(** Nobody else writes the row of the asset. *)
Context (Hpeer : ∀ h d, MediaAssets.assets (assetdb (meanwhile D h d)) !! id = MediaAssets.assets (assetdb d) !! id).
Context (HJ : ∀ h d, stays (intake d) → stays (intake (meanwhile D h d))).
Definition streamed src p a (r : GoErr + ArtifactVerify.artifactVerifyReader * string * Z) (w : World) : Prop :=
  stays (intake (dbs w)) ∧
  match r with
  | inl _ => unready w ∧ (reliable e → ∃ reason, failed reason w)
  | inr (reader, ct, _) => row w = Some a ∧ ArtifactVerify.reader_ok src p reader ∧
      ArtifactVerify.Verify reader = None ∧
      (ArtifactVerify.ExpectedMIME p = "" ∨ ct = ArtifactVerify.ExpectedMIME p)
  end.
Lemma unready_row w a : row w = Some a → MediaAssets.Status a ≠ MediaAssets.MediaAssetStatusReady → unready w.
Proof using Type. unfold unready. eauto. Qed.
Lemma fail_streamed src p a prefix er w : unready w → stays (intake (dbs w)) →
  runs e (fail_asset D id prefix er) w (streamed src p a).
Proof using Hid.
  intros Hw Hj. apply fail_asset_spec; [done|]. intros w' Hu Hf Hi. split; [by rewrite Hi|]. eauto.
Qed.
Lemma fail_reason_streamed src p a reason w : unready w → stays (intake (dbs w)) →
  runs e (fail_asset_reason D id reason) w (streamed src p a).
Proof using Hid.
  intros Hw Hj. apply fail_asset_reason_spec; [done|]. intros w' Hu Hf Hi. split; [by rewrite Hi|]. eauto.
Qed.
Lemma outside_row h c w : row (mkWorld (meanwhile D h (dbs w)) c) = row w.
Proof using Hpeer. apply Hpeer. Qed.
Lemma stream_asset_spec key ct size reader src p w a :
  ArtifactVerify.reader_ok src p reader → ArtifactVerify.ExpectedSize p < int64_max →
  Z.of_nat (String.length src) ≤ int64_max →
  row w = Some a → MediaAssets.Status a ≠ MediaAssets.MediaAssetStatusReady → stays (intake (dbs w)) →
  runs e (stream_asset D id key ct size reader) w (streamed src p a).
Proof using Hid Hpeer HJ.
  intros Hr Hsz Hsrc Ha Hst Hj. unfold stream_asset. do 2 runs_step.
  destruct (new_request D _) as [er|]; [apply fail_streamed; [by eapply unready_row|done]|].
  do 2 runs_step. set (w1 := mkWorld _ _). set (answer := put_object D _ _ _).
  assert (Ha1 : row w1 = Some a) by (unfold w1; by rewrite outside_row).
  assert (Hj1 : stays (intake (dbs w1))) by by apply HJ.
  assert (Hu1 : unready w1) by by eapply unready_row.
  destruct (answer.2) as [er|status]; [by apply fail_streamed|].
  assert (Hr1 : ArtifactVerify.reader_ok src p (ArtifactVerify.uses answer.1 reader)).
  { by apply ArtifactVerify.uses_ok. }
  apply (ArtifactVerify.use_ok src p Hsz Hsrc ArtifactVerify.UseClose) in Hr1. cbn [ArtifactVerify.use] in Hr1.
  destruct (ArtifactVerify.Close _) as [[er|] reader2]; [by apply fail_streamed|]. cbn [snd] in Hr1.
  destruct (ArtifactVerify.Verify reader2) as [er|] eqn:Hv; [by apply fail_streamed|].
  destruct (300 <=? status); [by apply fail_reason_streamed|].
  do 2 runs_step. set (w2 := mkWorld _ _).
  assert (Ha2 : row w2 = Some a) by (unfold w2; by rewrite outside_row).
  assert (Hj2 : stays (intake (dbs w2))) by by apply HJ.
  assert (Hu2 : unready w2) by by eapply unready_row.
  destruct (Storage.VerifyUpload _ _ _ _ _) as [er|[vct vsize]]; [by apply fail_streamed|].
  rewrite (ArtifactVerify.ro_policy _ _ _ Hr1).
  case_bool_decide as E1; [|case_bool_decide as E2]; cbn [negb andb];
    [| |by apply fail_reason_streamed]; apply runs_ret; do 4 (split; [done|]); auto.
Qed.

(** *** Endings *)
(** The bytes of an asset that is ready; [h0] is the log at the start. *)
Definition good_asset (h0 : list Call) (a : MediaAssets.AssetRow) : Prop :=
  ∃ src md h body p bytes rest,
    Resolve (UploadJobs.SourceType (UploadJobs.Spec job)) (sources D) = Some src ∧
    src_Inspect src h0 job = inr (Some md) ∧ src_Open src h job = inr body ∧ gate D job (Some md) o p ∧
    ArtifactVerify.content (ArtifactVerify.chunks body) = bytes +:+ rest ∧
    Z.of_nat (String.length bytes) = ArtifactVerify.ExpectedSize p ∧
    (ArtifactVerify.RequireSHA p = true → ArtifactVerify.ExpectedSHA256 p = Sha256.sha256_hex bytes) ∧
    MediaAssets.SHA256 a = Sha256.sha256_hex bytes ∧
    (ArtifactVerify.ExpectedMIME p = "" ∨ MediaAssets.ContentType a = ArtifactVerify.ExpectedMIME p) ∧
    MediaAssets.UserID a = UploadJobs.UserID (UploadJobs.Spec job).
Definition ready_good (h0 : list Call) (w : World) : Prop := ∀ a, row w = Some a →
  MediaAssets.Status a = MediaAssets.MediaAssetStatusReady → good_asset h0 a.
Definition settled (r : GoErr + unit) (w : World) : Prop :=
  match r with
  | inr _ => (∃ a, row w = Some a ∧ MediaAssets.Status a = MediaAssets.MediaAssetStatusReady) ∧
      handed_over (intake (dbs w))
  | inl _ => job_held (intake (dbs w)) ∧ (row w = None ∨ ∃ reason, failed reason w)
  end.
Definition ending (h0 : list Call) (r : GoErr + unit) (w : World) : Prop :=
  ready_good h0 w ∧ (lease → reliable e → settled r w).
Lemma no_asset_ending h0 er w : row w = None → stays (intake (dbs w)) → ending h0 (inl er) w.
Proof using Type.
  intros Hr [_ Hl]. split; [intros a Ha; by rewrite Hr in Ha|]. intros Hlease _. split; [auto|by left].
Qed.
Lemma unready_ending h0 er w : unready w → stays (intake (dbs w)) → (reliable e → ∃ reason, failed reason w) →
  ending h0 (inl er) w.
Proof using Type.
  intros (a & Ha & Hst) [_ Hl] Hf. split.
  - intros a' Ha' Hs. congruence.
  - intros Hlease Hrel. split; [auto|right; auto].
Qed.

(** *** Creating the row *)
Lemma create_spec key ct size now w (Q : GoErr + MediaAssets.MediaAsset → World → Prop) : row w = None →
  (∀ er w', (row w' = None ∨ unready w' ∧ ¬ reliable e) → intake (dbs w') = intake (dbs w) → Q (inl er) w') →
  (∀ m a w', MediaAssets.ID m = id → row w' = Some a → MediaAssets.Status a ≠ MediaAssets.MediaAssetStatusReady →
     MediaAssets.UserID a = UploadJobs.UserID (UploadJobs.Spec job) → log w' = log w →
     intake (dbs w') = intake (dbs w) → Q (inr m) w') →
  runs e (store "create media asset" (on_assets
    (MediaAssets.Create id (pending_asset D job key ct size now)))) w Q.
Proof using Type.
  intros Hrow Herr Hok. apply runs_store. intros n r t n' Hr. unfold compose in Hr.
  unfold MediaAssets.Create in Hr. cbn [MediaAssets.Status pending_asset] in Hr.
  change (MediaAssets.IsValid _) with true in Hr. cbn [negb] in Hr.
  unfold mbind, M_bind, exec in Hr. unfold asset_row in Hrow.
  set (taken := bool_decide (is_Some (MediaAssets.assets (assetdb (dbs w)) !! id)) || _) in Hr.
  destruct (fault e n) eqn:Hf; [destruct taken| |destruct taken]; injection Hr as <- <- <-.
  - apply Herr; [by left|done].
  - eapply Hok; unfold asset_row; simpl; [done|apply lookup_insert_eq|done..].
  - apply Herr; [by left|done].
  - apply Herr; [by left|done].
  - apply Herr; [|done]. right. split.
    + unfold unready, asset_row. simpl. rewrite lookup_insert_eq. eexists. by split.
    + intros Hrel. by rewrite Hrel in Hf.
Qed.
(** *** Handing over *)
Lemma good_asset_same h0 a a' : MediaAssets.SHA256 a' = MediaAssets.SHA256 a →
  MediaAssets.ContentType a' = MediaAssets.ContentType a → MediaAssets.UserID a' = MediaAssets.UserID a →
  good_asset h0 a → good_asset h0 a'.
Proof using Type.
  intros H1 H2 H3 (src & md & h & body & p & bytes & rest & G). exists src, md, h, body, p, bytes, rest.
  by rewrite H1, H2, H3.
Qed.
Definition is_ready (h0 : list Call) (w : World) : Prop :=
  ∃ a, row w = Some a ∧ MediaAssets.Status a = MediaAssets.MediaAssetStatusReady ∧ good_asset h0 a.
Lemma is_ready_good h0 w : is_ready h0 w → ready_good h0 w.
Proof using Type. intros (a & Ha & _ & Hg) a' Ha' _. congruence. Qed.
Lemma is_ready_outside h0 h c w : is_ready h0 w → is_ready h0 (mkWorld (meanwhile D h (dbs w)) c).
Proof using Hpeer. intros (a & Ha & G). exists a. by rewrite outside_row. Qed.
Context (Hlease : lease → ∀ h d, handed_over (intake d) → handed_over (intake (meanwhile D h d))).
Lemma ready_good_outside h0 h c w : ready_good h0 w → ready_good h0 (mkWorld (meanwhile D h (dbs w)) c).
Proof using Hpeer. intros G a. rewrite outside_row. apply G. Qed.
Definition handing (h0 : list Call) (w : World) : Prop :=
  ready_good h0 w ∧ (lease → reliable e → is_ready h0 w ∧ handed_over (intake (dbs w))).
Lemma probe_ready_spec h0 key w : handing h0 w → runs e (probeReadyAsset D id key) w (λ _, handing h0).
Proof using Hid Hpeer Hlease.
  intros [Hg Hr]. unfold probeReadyAsset. destruct (prober D) as [probe|]; [|by apply runs_ret].
  do 2 runs_step. destruct (Storage.GetObject _ _ _ _ _) as [er|url]; [by apply runs_ret|].
  do 2 runs_step. set (w1 := mkWorld _ _).
  assert (H1 : handing h0 w1).
  { split; [by apply ready_good_outside|]. intros Hl Hrel. destruct (Hr Hl Hrel) as [H1 H2].
    split; [by apply is_ready_outside|by apply Hlease]. }
  destruct (probe (log w) url) as [er|p]; [by apply runs_ret|]. apply runs_bind, runs_try.
  intros n r t n' Hs. apply runs_ret. unfold compose in *. clearbody w1. destruct H1 as [Hg1 Hr1].
  apply (MediaProps.SaveProbe_row _ _ _ Hid) in Hs as (t' & pc & Hs). unfold MediaProps.row_write in Hs. cbn [fst] in Hs.
  assert (Hrow : ∀ a, row w1 = Some a → ∃ a', row (put_assetdb t w1) = Some a' ∧
    MediaAssets.Status a' = MediaAssets.Status a ∧ (good_asset h0 a → good_asset h0 a')).
  { intros a Ha. destruct Hs as [->| ->]; [by exists a|]. eexists. split; [by apply altered_row|].
    split; [done|]. by apply good_asset_same. }
  split.
  - intros a' Ha' Hst. destruct (row w1) as [a|] eqn:Ha.
    + destruct (Hrow a eq_refl) as (a2 & Ha2 & Hs2 & Hg2). rewrite Ha' in Ha2. injection Ha2 as <-.
      apply Hg2, (Hg1 a Ha). by rewrite <- Hs2.
    + exfalso. unfold asset_row in Ha', Ha. destruct Hs as [->| ->]; cbn in Ha'; [by rewrite Ha in Ha'|].
      by rewrite lookup_alter_eq, Ha in Ha'.
  - intros Hl Hrel. destruct (Hr1 Hl Hrel) as [(a & Ha & Hst & G) Hh]. split; [|done].
    destruct (Hrow a Ha) as (a2 & Ha2 & Hs2 & Hg2). exists a2. rewrite Hs2. auto.
Qed.
Lemma finish_spec h0 key sha size ct w a (Hsha : sha ≠ "") (Hw : workerID ≠ "") (Hne : id ≠ "") :
  row w = Some a → MediaAssets.Status a ≠ MediaAssets.MediaAssetStatusReady → stays (intake (dbs w)) →
  (∀ a', MediaAssets.SHA256 a' = sha → MediaAssets.ContentType a' = ct →
     MediaAssets.UserID a' = MediaAssets.UserID a → good_asset h0 a') →
  runs e (do _ <- store "mark media asset ready" (on_assets (MediaAssets.MarkReady (uuid_in D) id sha size ct));
          do _ <- store "mark ingested" (on_jobs (UploadJobs.MarkIngested (UploadJobs.ID job) workerID id size));
          _ ← probeReadyAsset D id key;
          give tt) w (ending h0).
Proof using Hid Hpeer Hlease.
  intros Ha Hst [_ Hheld] Hgood. runs_step. apply runs_store. intros n r t n' Hr. unfold compose in *.
  assert (Hfine : reliable e → r = inr tt ∧ is_ready h0 (put_assetdb t w)).
  { intros Hrel. unfold MediaAssets.MarkReady in Hr. rewrite bool_decide_eq_false_2 in Hr by done.
    rewrite (MediaProps.update_then_needs_hit _ _ _ Hid _ _ _ _ _ _ Hrel Ha) in Hr. injection Hr as <- <- _.
    split; [done|]. eexists. split; [apply lookup_insert_eq|]. split; [done|]. by apply Hgood. }
  assert (Hany : is_ready h0 (put_assetdb t w) ∨ unready (put_assetdb t w)).
  { apply (MediaProps.MarkReady_row _ _ _ Hid) in Hr. unfold MediaProps.row_write in Hr. cbn [fst] in Hr.
    destruct Hr as [->| ->]; [right; by exists a|left].
    eexists. split; [by apply altered_row|]. split; [done|]. by apply Hgood. }
  assert (Hend : ready_good h0 (put_assetdb t w)).
  { destruct Hany as [H|(a' & Ha' & Hs')]; [by apply is_ready_good|]. intros a2 Ha2 Hs2. congruence. }
  destruct r as [er|[]].
  { split; [done|]. intros _ Hrel. by destruct (Hfine Hrel). }
  runs_step. apply runs_store. intros n2 r2 t2 n2' Hr2.
  assert (Hfine2 : lease → reliable e → r2 = inr tt ∧ handed_over (DeliveryIntake.put_jobs t2 (intake (dbs w)))).
  { intros Hl Hrel. destruct (Hheld Hl) as (j & Hj & Ho). unfold UploadJobs.MarkIngested in Hr2.
    rewrite bool_decide_eq_false_2 in Hr2 by done. rewrite bool_decide_eq_false_2 in Hr2 by done.
    pose proof (UploadJobs.exec_owned_hit "failed to mark upload job ingested" "failed to read rows affected"
      _ _ (UploadJobs.ingested_job id size) e _ n2 j Hj Ho Hrel) as [E1 E2].
    unfold compose in Hr2.
    change (jobdb (dbs (put_assetdb t w))) with (DeliveryIntake.jobsdb (intake (dbs w))) in Hr2.
    rewrite Hr2 in E1, E2. split; [exact E1|]. cbn in E2. rewrite E2.
    eexists. split; [apply lookup_insert_eq|done]. }
  destruct r2 as [er|[]].
  { split; [exact Hend|]. intros Hl Hrel. by destruct (Hfine2 Hl Hrel). }
  apply runs_bind. eapply runs_weaken; [apply (probe_ready_spec h0)|].
  { split; [exact Hend|]. intros Hl Hrel. split; [apply (Hfine Hrel)|apply (Hfine2 Hl Hrel)]. }
  intros _ w' [Hg Hr']. apply runs_ret. split; [done|]. intros Hl Hrel.
  destruct (Hr' Hl Hrel) as [(a2 & Ha2 & Hs2 & _) Hh]. split; [eauto|done].
Qed.

(** *** The whole job *)
Lemma import_spec src md w0 w : workerID ≠ "" → id ≠ "" → sizes_fit o →
  Resolve (UploadJobs.SourceType (UploadJobs.Spec job)) (sources D) = Some src →
  (md = None ∨ src_Inspect src (log w0) job = inr md) → row w = None → stays (intake (dbs w)) →
  runs e (import_source D src md job workerID) w (ending (log w0)).
Proof using Hid Hpeer Hlease HJ.
  intros Hw Hne (Hod & Hfit) Hsrc Hins Hrow Hst. destruct (Hfit src Hsrc) as [Hmd Hbody]. unfold import_source.
  do 3 runs_step. set (w1 := mkWorld _ _).
  assert (Hrow1 : row w1 = None) by (unfold w1; by rewrite outside_row).
  assert (Hst1 : stays (intake (dbs w1))) by by apply HJ.
  destruct (src_Open src (log w) job) as [er|body] eqn:Hopen; [by apply no_asset_ending|].
  destruct md as [md|]; [|by apply runs_ret, no_asset_ending]. change (default 0 (md_SizeBytes <$> Some md)) with (md_SizeBytes md).
  destruct Hins as [|Hins]; [done|].
  destruct (Z.leb_spec (md_SizeBytes md) 0) as [|Hpos]; [by apply runs_ret, no_asset_ending|].
  runs_step. eapply runs_weaken; [apply (verification_policy_spec (Some md)); try done|].
  { split; [done|]. by eapply Hmd. }
  { intros d Hd. apply Hod. by rewrite <- (proj1 Hst1). }
  intros r w2 [-> Hp]. destruct r as [er|p]; [by apply no_asset_ending|].
  assert (Hg : gate D job (Some md) o p) by by rewrite <- (proj1 Hst1).
  do 3 runs_step. cbn [ArtifactVerify.NewArtifactVerifyReader]. do 2 runs_step. set (w3 := mkWorld _ _).
  assert (Hrow3 : row w3 = None) by (unfold w3; by rewrite outside_row).
  assert (Hst3 : stays (intake (dbs w3))) by by apply HJ.
  do 3 runs_step. set (key := Storage.BuildUploadKey _ _ _). apply create_spec; [done|..].
  { intros er w' Hw' Hi. destruct Hw' as [Hn|[Hu Hn]].
    - apply no_asset_ending; [done|by rewrite Hi].
    - apply unready_ending; [done|by rewrite Hi|done]. }
  intros m a w4 Hm Ha Hs Hu Hlog Hi. rewrite Hm. runs_step.
  pose proof (Hbody _ _ Hopen) as Hlen.
  eapply runs_weaken; [apply (stream_asset_spec _ _ _ _ _ p _ a (ArtifactVerify.new_reader_ok body p))|].
  1,2,3,4,5: (apply Hg || done || by rewrite Hi).
  intros r w5 [Hj5 Hr]. destruct r as [er|[[reader ct] size]].
  { destruct Hr as [Hu5 Hf]. by apply unready_ending. }
  destruct Hr as (Ha5 & Hrd & Hv & Hct). apply (finish_spec _ _ _ _ _ _ a); try done.
  intros a' H1 H2 H3. destruct (proj1 (ArtifactVerify.reader_verified _ _ _ Hrd) Hv) as [V1 V2].
  exists src, md, (log w), body, p, (ArtifactVerify.hashed reader),
      (ArtifactVerify.content (ArtifactVerify.chunks (ArtifactVerify.body reader))).
    rewrite H1, H2, H3. repeat (split; [done|]). split; [apply (ArtifactVerify.ro_split _ _ _ Hrd)|].
    split; [apply V1, (g_size _ _ _ _ _ Hg)|]. by repeat (split; [done|]).
Qed.
Lemma process_spec w : workerID ≠ "" → id ≠ "" → sizes_fit o → row w = None → stays (intake (dbs w)) →
  runs e (processIngestJob D job workerID) w (ending (log w)).
Proof using Hid Hpeer Hlease HJ.
  intros Hw Hne Hfit Hrow Hst. unfold processIngestJob.
  destruct (Resolve _ _) as [src|] eqn:Hsrc; [|by apply runs_ret, no_asset_ending].
  runs_step. unfold inspect_source. do 2 runs_step. set (w1 := mkWorld _ _).
  assert (Hrow1 : row w1 = None) by (unfold w1; by rewrite outside_row).
  assert (Hst1 : stays (intake (dbs w1))) by by apply HJ.
  destruct (src_Inspect src (log w) job) as [er|md] eqn:Hins.
  - destruct (Is er "ErrInspectNotImplemented"); apply runs_ret; [|by apply no_asset_ending].
    apply import_spec; auto.
  - apply runs_ret. apply import_spec; auto.
Qed.
End Ingest.

(** What the gate means for the asset. *)
Lemma good_asset_says D job o h0 a : good_asset D job o h0 a →
  ∃ src md h body bytes rest,
    Resolve (UploadJobs.SourceType (UploadJobs.Spec job)) (sources D) = Some src ∧
    src_Inspect src h0 job = inr (Some md) ∧ src_Open src h job = inr body ∧
    ArtifactVerify.content (ArtifactVerify.chunks body) = bytes +:+ rest ∧ bytes ≠ "" ∧
    MediaAssets.SHA256 a = Sha256.sha256_hex bytes ∧
    MediaAssets.UserID a = UploadJobs.UserID (UploadJobs.Spec job) ∧
    (md_MimeType md ≠ "" → MediaAssets.ContentType a = md_MimeType md) ∧
    (UploadJobs.SourceType (UploadJobs.Spec job) = UploadJobSourceVeloxArtifact →
     delivery_verifier D = true → ∀ d, o = Some d →
     0 < ExternalDeliveryModel.ExpectedSizeBytes d → ExternalDeliveryModel.ExpectedSHA256 d ≠ "" →
     Z.of_nat (String.length bytes) = ExternalDeliveryModel.ExpectedSizeBytes d ∧
     MediaAssets.SHA256 a = ExternalDeliveryModel.ExpectedSHA256 d) ∧
    (UploadJobs.SourceType (UploadJobs.Spec job) = UploadJobSourceAuthenticatedDrive →
     Z.of_nat (String.length bytes) = md_SizeBytes md ∧
     (md_SHA256Hex md ≠ "" → MediaAssets.SHA256 a = md_SHA256Hex md)).
Proof.
  intros (src & md & h & body & p & bytes & rest & H1 & H2 & H3 & [G1 G2 G3 G4] & H4 & H5 & H6 & H7 & H8 & H9).
  exists src, md, h, body, bytes, rest.
  do 4 (split; [done|]). split; [intros ->; simpl in H5; lia|]. do 2 (split; [done|]).
  split; [intros Hm; rewrite G2 in H8; by destruct H8|]. rewrite H7. split.
  - intros S1 S2 d S3 S4 S5. destruct (G3 S1 S2 d S3 S4 S5) as (E1 & E2 & <-). by rewrite H5, H6.
  - intros S1. destruct (G4 S1 md eq_refl) as [E1 E2]. rewrite H5. split; [done|].
    intros Hs. destruct (E2 Hs) as [E3 <-]. by rewrite H6.
Qed.

(** ** What becomes ready *)
(** C7: only what was asked for becomes ready.  Whatever the database does and
    whatever the source, the HTTP client and the storage answer, if the asset of an
    ingest run is ready then its SHA-256 is the digest of a non-empty prefix of the bytes
    of the source that the job names, it belongs to the user of the job and has
    the content type that the source announced, where it did; for a delivery of
    Velox with an expected size and digest, the number and the digest of the bytes
    are the expected ones; for a file of Drive the number is the announced one, and
    so is the digest, where one was announced.  The assumptions: nobody else writes
    the row of the new asset or relinks the delivery, and sizes are below [2 ^ 63]. *)
Theorem ready_asset_verified (D : Deps) (job : UploadJobs.UploadJob) (workerID : string) (e : Env)
    (w : World) (n : nat) (a : MediaAssets.AssetRow)
    (Hid : uuid_in D (fresh_uuid e) = Some (fresh_uuid e)) (Hne : fresh_uuid e ≠ "") (Hw : workerID ≠ "")
    (Hpeer : ∀ h d, MediaAssets.assets (assetdb (meanwhile D h d)) !! fresh_uuid e =
                    MediaAssets.assets (assetdb d) !! fresh_uuid e)
    (Hlink : ∀ h d, linked job (meanwhile D h d) = linked job d)
    (Hfit : sizes_fit D job (linked job (dbs w))) (Hnew : asset_row (fresh_uuid e) w = None)
    (Ha : asset_row (fresh_uuid e) (state_of (processIngestJob D job workerID e (w, n))) = Some a)
    (Hready : MediaAssets.Status a = MediaAssets.MediaAssetStatusReady) :
  ∃ src md h body bytes rest,
    Resolve (UploadJobs.SourceType (UploadJobs.Spec job)) (sources D) = Some src ∧
    src_Inspect src (log w) job = inr (Some md) ∧ src_Open src h job = inr body ∧
    ArtifactVerify.content (ArtifactVerify.chunks body) = bytes +:+ rest ∧ bytes ≠ "" ∧
    MediaAssets.SHA256 a = Sha256.sha256_hex bytes ∧
    MediaAssets.UserID a = UploadJobs.UserID (UploadJobs.Spec job) ∧
    (md_MimeType md ≠ "" → MediaAssets.ContentType a = md_MimeType md) ∧
    (UploadJobs.SourceType (UploadJobs.Spec job) = UploadJobSourceVeloxArtifact →
     delivery_verifier D = true → ∀ d, linked job (dbs w) = Some d →
     0 < ExternalDeliveryModel.ExpectedSizeBytes d → ExternalDeliveryModel.ExpectedSHA256 d ≠ "" →
     Z.of_nat (String.length bytes) = ExternalDeliveryModel.ExpectedSizeBytes d ∧
     MediaAssets.SHA256 a = ExternalDeliveryModel.ExpectedSHA256 d) ∧
    (UploadJobs.SourceType (UploadJobs.Spec job) = UploadJobSourceAuthenticatedDrive →
     Z.of_nat (String.length bytes) = md_SizeBytes md ∧
     (md_SHA256Hex md ≠ "" → MediaAssets.SHA256 a = md_SHA256Hex md)).
Proof.
  assert (HF : ∀ P : Prop, False → P) by done.
  pose proof (process_spec D job e Hid workerID (linked job (dbs w)) False Hpeer
    (λ h d Hd, conj (eq_trans (Hlink h d) (proj1 Hd)) (HF _)) (HF _) w Hw Hne Hfit Hnew
    (conj eq_refl (HF _)) n) as H.
  unfold state_of in Ha. destruct (processIngestJob D job workerID e (w, n)) as [[er|r] [w' n']]; [done|].
  destruct H as [H _]. by apply good_asset_says, (H a Ha Hready).
Qed.

(** One delivery of Velox, streamed. *)
Definition ingest_job : UploadJobs.UploadJob := demo_job "velox_artifact" [4; 2] "ingest-1" None.
Definition ingest_run (status : Z) : (err + (GoErr + unit)) * (World * nat) :=
  processIngestJob (demo_deps status (inr "")) ingest_job "ingest-1" (demo_env 200) (demo_world ingest_job, O).
Lemma demo_sizes_fit status : sizes_fit (demo_deps status (inr "")) ingest_job (Some demo_delivery).
Proof.
  split; [by intros d [= <-]|]. intros src [= <-]. split.
  - by intros h md [= <-].
  - by intros h b [= <-].
Qed.
Lemma ready_asset_verified_witness : ∃ a,
  asset_row "asset-1" (state_of (ingest_run 200)) = Some a ∧ MediaAssets.Status a = "ready" ∧
  MediaAssets.SHA256 a = "ba7816bf8f01cfea414140de5dae2223b00361a396177a9cb410ff61f20015ad".
Proof.
  assert (H : MediaAssets.Status <$> asset_row "asset-1" (state_of (ingest_run 200)) = Some "ready")
    by (vm_compute; reflexivity).
  destruct (asset_row "asset-1" (state_of (ingest_run 200))) as [a|] eqn:Ha; [|discriminate H].
  injection H as Hs. exists a. split; [reflexivity|]. split; [exact Hs|].
  destruct (ready_asset_verified (demo_deps 200 (inr "")) ingest_job "ingest-1" (demo_env 200)
    (demo_world ingest_job) O a eq_refl ltac:(done) ltac:(done) (λ _ _, eq_refl) (λ _ _, eq_refl)
    (demo_sizes_fit 200) eq_refl Ha Hs) as (src & md & h & body & bytes & rest & _ & _ & _ & _ & _ & _ & _ & _ & V & _).
  refine (eq_trans (proj2 (V eq_refl eq_refl demo_delivery eq_refl _ _)) _); vm_compute; first [reflexivity|discriminate].
Defined.

