(* ===== verification/UploadPublish.v ===== *)
(** * The publish pool: from an asset to a post and its deliveries

    [src/internal/worker/upload_worker_publish.go], first part: a job with its
    asset becomes one post with one target per account and, for the accounts on
    YouTube, one row of the delivery queue per target; then the targets are
    queued, unless the post is for later. *)

From S2P Require Import Prelude Store GoError UploadWorld UploadIngest.
From S2P Require PostModel PostStore PublishWorker MediaAssets Storage UploadJobs YouTubeQueue.
From Stdlib Require Import ZArith Lia.
Local Open Scope Z_scope.

(* Source: internal/worker/upload_worker_publish.go *)
(** [PublishAt != nil && PublishAt.After(time.Now())]. *)
(* 130 UploadWorker.processPublishJob *)
Definition later (publishAt : option Z) (now : Z) : bool :=
  match publishAt with Some t => now <? t | None => false end.
(* 675-683 resolveDesiredPrivacy *)
Definition resolveDesiredPrivacy (post : PostModel.Post) : string :=
  if negb (bool_decide (PostModel.post_PrivacyLevel post = "")) then PostModel.post_PrivacyLevel post
  else if negb (bool_decide (PostModel.post_DefaultPrivacyLevel post = "")) then
    PostModel.post_DefaultPrivacyLevel post
  else "unlisted".

Section Publish.
Context (D : Deps).
(** Privacy and thumbnail of the snapshot of an account. *)
(* Source: internal/worker/publish_snapshot_metadata.go *)
(* 37-47 snapshotForAccount *)
Definition snapshotForAccount (metadata : string) (accountID : Z) : option (string * string) :=
  if bool_decide (metadata = "") || (accountID <=? 0) then None
  else snapshots ← json_publish_snapshots D metadata; snapshots !! itoa accountID.
(* Source: internal/worker/upload_worker_publish.go *)
(* 685-692 resolveDesiredPrivacyForTarget *)
Definition resolveDesiredPrivacyForTarget (post : PostModel.Post) (account : Z) : string :=
  match snapshotForAccount (PostModel.post_Metadata post) account with
  | Some (privacy, _) => if negb (bool_decide (privacy = "")) then privacy else resolveDesiredPrivacy post
  | None => resolveDesiredPrivacy post
  end.

(** ** The rows of the delivery queue *)
(** [int16(n)]. *)
Definition int16 (z : Z) : Z := (z + 2^15) mod 2^16 - 2^15.
(** The distinct accounts, in the order of the targets. *)
(* 193-200 UploadWorker.materializeYouTubeDeliveries *)
Fixpoint account_ids (seen : list Z) (l : list PostStore.NewTarget) : list Z :=
  match l with
  | [] => []
  | t :: l' =>
      let a := PostStore.n_PlatformAccountID t in
      if (0 <? a) && negb (bool_decide (a ∈ seen)) then a :: account_ids (a :: seen) l'
      else account_ids seen l'
  end.
(* 276-302 UploadWorker.materializeYouTubeDelivery *)
Definition new_publication (job : UploadJobs.UploadJob) (post : PostModel.Post) (target : PostStore.NewTarget)
    (now : Z) : YouTubeQueue.YouTubeTargetPublication :=
  let account := PostStore.n_PlatformAccountID target in
  let desiredPrivacy := resolveDesiredPrivacyForTarget post account in
  let nativePublishAt := if later (PostModel.post_PublishAt post) now && bool_decide (desiredPrivacy = "public")
                         then PostModel.post_PublishAt post else None in
  let thumbnail := match snapshotForAccount (PostModel.post_Metadata post) account with
                   | Some (_, media) => if bool_decide (media = "") then None else Some media
                   | None => None
                   end in
  YouTubeQueue.mkPub 0 (UploadJobs.ID job) (PostStore.n_ID target) account desiredPrivacy
    (PostModel.post_PublishAt post) nativePublishAt (int16 (UploadJobs.Priority (UploadJobs.Spec job)))
    None None None 0
    (YouTubeQueue.mkVideo None "youtube_uploading" None None None None)
    (YouTubeQueue.mkEditing None None thumbnail ((λ _, "pending") <$> thumbnail))
    (YouTubeQueue.mkQueue "ready_to_upload" 0 8 None None None None None "" None 0) 0 0.
Definition on_pubs_fk {A} (m : (Z → bool) → M YouTubeQueue.PubDB A) : W A := λ e w,
  on_pubs (m (λ id, bool_decide (is_Some (PostStore.targets (postdb (dbs w.1)) !! id)))) e w.
(** The row found after a failed insert is not used. *)
(* 249-315 UploadWorker.materializeYouTubeDelivery *)
Definition materializeYouTubeDelivery (job : UploadJobs.UploadJob) (post : PostModel.Post)
    (target : PostStore.NewTarget) : G unit :=
  let id := PostStore.n_ID target in
  do pub <- store ("FindByPostTargetID(target=" +:+ itoa id +:+ ")") (on_pubs (YouTubeQueue.FindByPostTargetID id));
  match pub with
  | Some _ => give tt
  | None =>
      e ← ask;
      r ← try (on_pubs_fk (λ fk, YouTubeQueue.Create fk (new_publication job post target (app_now e))));
      match r with
      | inr _ => give tt
      | inl er =>
          existing ← try (on_pubs (YouTubeQueue.FindByPostTargetID id));
          match existing with
          | inr (Some _) => give tt
          | _ => fail (Errorf_w "Create youtube_target_publication" (of_err er))
          end
      end
  end.
(* 220-239 UploadWorker.materializeYouTubeDeliveries *)
Fixpoint materialize_targets (accountsByID : gmap Z PublishWorker.PlatformAccount) (job : UploadJobs.UploadJob)
    (post : PostModel.Post) (targets : list PostStore.NewTarget) : G unit :=
  match targets with
  | [] => give tt
  | target :: targets' =>
      match accountsByID !! PostStore.n_PlatformAccountID target with
      | None => errorf ("nil platform account for id=" +:+ itoa (PostStore.n_PlatformAccountID target) +:+
                        " during delivery materialization")
      | Some account =>
          if bool_decide (PublishWorker.acc_Platform account = PublishWorker.PlatformYouTube) then
            do _ <- materializeYouTubeDelivery job post target; materialize_targets accountsByID job post targets'
          else materialize_targets accountsByID job post targets'
      end
  end.
(** The account store of the program answers for many accounts at once. *)
(* 180-240 UploadWorker.materializeYouTubeDeliveries *)
Definition materializeYouTubeDeliveries (job : UploadJobs.UploadJob) (targets : list PostStore.NewTarget)
    (post : PostModel.Post) : G unit :=
  if negb (yt_store D) then give tt
  else
    let ids := account_ids [] targets in
    r ← outside D (CallAccounts ids) (λ h, find_accounts D h ids);
    match r with
    | inl er => fail (Errorf_w "batch resolve platform accounts during delivery materialization" (of_err er))
    | inr accountsByID => materialize_targets accountsByID job post targets
    end.

(** ** The job *)
(** The key of the post is drawn anew; it is not the key of the asset. *)
(* 23-77 UploadWorker.processPublishJob *)
Definition post_of (job : UploadJobs.UploadJob) (assetID key : string) : PostModel.Post :=
  let s := UploadJobs.Spec job in
  let velox := bool_decide (UploadJobs.SourceType s = UploadJobSourceVeloxArtifact) in
  PostModel.mkPost 0 (UploadJobs.WorkspaceID s) (UploadJobs.Title s) (UploadJobs.Caption s)
    (if velox then "" else Storage.AssetURL (storage D) key) (Some assetID)
    (if velox then None else Some key) (if velox then None else Some (Storage.bucket (storage D)))
    "" (UploadJobs.DefaultPrivacyLevel s) (Some (UploadJobs.ID job)) (default 0 (UploadJobs.IngestAfter s))
    (UploadJobs.PublishAt s) PostModel.PostStatusQueued None (UploadJobs.Metadata s) 0 0 0.
(* 78-84 UploadWorker.processPublishJob *)
Definition targets_of (job : UploadJobs.UploadJob) : list PostStore.NewTarget :=
  (λ a, PostStore.mkNewTarget 0 0 a PostModel.PostStatusQueued) <$> UploadJobs.Targets (UploadJobs.Spec job).
(* 17-173 UploadWorker.processPublishJob *)
Definition processPublishJob (job : UploadJobs.UploadJob) (workerID : string) : G unit :=
  let s := UploadJobs.Spec job in
  let assetID := default "" (UploadJobs.AssetID job) in
  if bool_decide (assetID = "") then
    errorf ("publish job " +:+ itoa (UploadJobs.ID job) +:+ " missing asset_id; ingest did not complete")
  else
    bytes ← outside D CallRandom (random D);
    let key := Storage.BuildUploadKey bytes (UploadJobs.UserID s) (UploadJobs.SourceID s) in
    do created <- store "create post" (on_posts (PostStore.Create (post_of job assetID key) (targets_of job)));
    let '(post, targets) := created in
    let postID := PostModel.post_ID post in
    do _ <- wrapped "materialize youtube deliveries" (materializeYouTubeDeliveries job targets post);
    e ← ask;
    do _ <- (if later (UploadJobs.PublishAt s) (app_now e) then give tt
             else store "trigger publish" (on_posts (PostStore.PublishPost postID)));
    if later (UploadJobs.PublishAt s) (app_now e) then
      store "mark job prepared" (on_jobs (UploadJobs.MarkPrepared (UploadJobs.ID job) workerID postID assetID))
    else
      store "mark job completed" (on_jobs (UploadJobs.MarkCompleted (UploadJobs.ID job) workerID postID assetID)).
End Publish.
