(* ===== verification/UploadPublishProps.v ===== *)
(** * What the publish pool does

    A successful run has one post for the job, one delivery per target on
    YouTube and every target queued, those included that were published
    before; and the posts of the jobs from Drive name an object that is not the
    asset's. *)

From S2P Require Import Prelude Store GoError UploadWorld UploadIngest UploadPublish UploadDemo.
From S2P Require PostModel PostStore PostStoreProps PublishWorker MediaAssets MediaProps Storage UploadJobs.
From S2P Require YouTubeQueue YouTubeQueueProps DeliveryIntake.
From Stdlib Require Import ZArith Lia.
Local Open Scope Z_scope.

(** ** One delivery per target *)
Definition has_target (id : Z) (db : YouTubeQueue.PubDB) : Prop :=
  ∃ k p, YouTubeQueue.pubs db !! k = Some p ∧ YouTubeQueue.PostTargetID p = id.
(** Serial numbers are fresh, and targets have one row at most. *)
Record queue_ok (db : YouTubeQueue.PubDB) : Prop := {
  qo_serial : ∀ k, is_Some (YouTubeQueue.pubs db !! k) → k < YouTubeQueue.next_pub db;
  qo_unique : ∀ i j p q, YouTubeQueue.pubs db !! i = Some p → YouTubeQueue.pubs db !! j = Some q →
    YouTubeQueue.PostTargetID p = YouTubeQueue.PostTargetID q → i = j
}.
Definition grows (db db' : YouTubeQueue.PubDB) : Prop :=
  queue_ok db → queue_ok db' ∧ ∀ id, has_target id db → has_target id db'.
#[export] Instance grows_preorder : PreOrder grows.
Proof. split; [by intros db H|]. intros a b c H1 H2 Ha. destruct (H1 Ha) as [Hb ?], (H2 Hb). auto. Qed.

Lemma find_pub_Some f db p : YouTubeQueue.find_pub f db = Some p →
  f p = true ∧ ∃ k, YouTubeQueue.pubs db !! k = Some p.
Proof.
  unfold YouTubeQueue.find_pub. intros H.
  assert (Hin : p ∈ List.filter f (YouTubeQueue.pub_rows db)).
  { destruct (List.filter _ _) as [|x l]; [done|]. injection H as ->. by left. }
  apply YouTubeQueueProps.filter_elem in Hin as [Hin Hf]. split; [done|]. by apply YouTubeQueueProps.pub_rows_elem.
Qed.
Lemma pub_rows_in db k p : YouTubeQueue.pubs db !! k = Some p → p ∈ YouTubeQueue.pub_rows db.
Proof.
  intros H. unfold YouTubeQueue.pub_rows. rewrite sort_by_perm.
  apply list_elem_of_fmap. exists (k, p). split; [done|]. by apply elem_of_map_to_list.
Qed.
Lemma find_pub_None f db k p : YouTubeQueue.find_pub f db = None → YouTubeQueue.pubs db !! k = Some p → f p = false.
Proof.
  unfold YouTubeQueue.find_pub. intros H Hp%pub_rows_in. destruct (f p) eqn:E; [|done]. exfalso.
  assert (Hin : p ∈ List.filter f (YouTubeQueue.pub_rows db)) by by apply YouTubeQueueProps.filter_elem.
  destruct (List.filter _ _); [by apply elem_of_nil in Hin|done].
Qed.
Definition bumped (db : YouTubeQueue.PubDB) : YouTubeQueue.PubDB :=
  YouTubeQueue.mkPubDB (YouTubeQueue.pubs db) (YouTubeQueue.next_pub db + 1).
Definition inserted (pub : YouTubeQueue.Pub) (e : Env) (db : YouTubeQueue.PubDB) : YouTubeQueue.PubDB :=
  YouTubeQueue.put_pubs (<[YouTubeQueue.next_pub db := YouTubeQueue.inserted_pub (YouTubeQueue.next_pub db) e pub]>
    (YouTubeQueue.pubs db)) (bumped db).
Lemma bumped_grows db : grows db (bumped db).
Proof. intros [H1 H2]. split; [|done]. split; [|done]. intros k Hk%H1. simpl. lia. Qed.
Lemma inserted_grows pub e db :
  (∀ k p, YouTubeQueue.pubs db !! k = Some p → YouTubeQueue.PostTargetID p ≠ YouTubeQueue.PostTargetID pub) →
  grows db (inserted pub e db).
Proof.
  intros Hnew [H1 H2]. split; [split|]; unfold inserted, has_target; simpl.
  - intros k [x [[<- _]|[_ Hk]]%lookup_insert_Some]; [lia|]. assert (k < YouTubeQueue.next_pub db) by (apply H1; eauto). lia.
  - intros i j p q [[<- <-]|[? Hp]]%lookup_insert_Some [[<- <-]|[? Hq]]%lookup_insert_Some; simpl; [done|..].
    + intros E. by destruct (Hnew _ _ Hq).
    + intros E. by destruct (Hnew _ _ Hp).
    + by apply H2.
  - intros id (k & p & Hk & Hp). exists k, p. split; [|done]. rewrite lookup_insert_ne; [done|].
    intros <-. assert (YouTubeQueue.next_pub db < YouTubeQueue.next_pub db) by (apply H1; eauto). lia.
Qed.
Lemma inserted_has pub e db : has_target (YouTubeQueue.PostTargetID pub) (inserted pub e db).
Proof. eexists _, _. split; [apply lookup_insert_eq|done]. Qed.
Lemma create_pub_grows fk pub e w r w' : YouTubeQueue.Create fk pub e w = (r, w') →
  grows w.1 w'.1 ∧ match r with inr _ => has_target (YouTubeQueue.PostTargetID pub) w'.1 | inl _ => True end.
Proof.
  destruct w as [db n]. unfold YouTubeQueue.Create, mbind, M_bind, exec, throw, mret, M_ret. cbn [fst].
  set (taken := negb _ || _).
  assert (Hins : taken = false → grows db (inserted pub e db)).
  { intros [_ H]%orb_false_iff. apply inserted_grows. intros k p Hp Heq.
    apply bool_decide_eq_false, eq_None_not_Some in H. pose proof (find_pub_None _ _ _ _ H Hp) as F.
    cbv beta in F. rewrite Heq, Z.eqb_refl in F. done. }
  destruct (fault e n), taken; intros [= <- <-]; cbn [fst snd]; (split; [|try exact I]);
    (exact (Hins eq_refl) || exact (bumped_grows db) || reflexivity || exact (inserted_has pub e db)).
Qed.
Lemma find_target_pure id e w r w' : YouTubeQueue.FindByPostTargetID id e w = (r, w') →
  w'.1 = w.1 ∧ match r with inr (Some _) => has_target id w.1 | _ => True end.
Proof.
  destruct w as [db n]. unfold YouTubeQueue.FindByPostTargetID, exec.
  destruct (fault e n); intros [= <- <-]; [|done..]. split; [done|].
  destruct (YouTubeQueue.find_pub _ db) as [p|] eqn:E; [|done].
  apply find_pub_Some in E as [Hp%Z.eqb_eq [k Hk]]. by exists k, p.
Qed.

(** ** Materializing *)
(** Only the delivery queue changed, and it grew. *)
Definition queue_grew (w w' : World) : Prop :=
  grows (pubdb (dbs w)) (pubdb (dbs w')) ∧ w' = put_pubdb (pubdb (dbs w')) w.
Lemma put_pubdb_id w : put_pubdb (pubdb (dbs w)) w = w.
Proof. by destruct w as [[] ?]. Qed.
Lemma queue_grew_refl w : queue_grew w w.
Proof. split; [reflexivity|by rewrite put_pubdb_id]. Qed.
Lemma queue_grew_trans w1 w2 w3 : queue_grew w1 w2 → queue_grew w2 w3 → queue_grew w1 w3.
Proof. intros [H1 E1] [H2 E2]. split; [by etrans|]. rewrite E2, E1. done. Qed.
Lemma queue_grew_put w db : grows (pubdb (dbs w)) db → queue_grew w (put_pubdb db w).
Proof. by split. Qed.

Lemma runs_try_fk {A} e (m : (Z → bool) → M YouTubeQueue.PubDB A) w (Q : err + A → World → Prop) :
  (∀ fk n r t n', m fk e (pubdb (dbs w), n) = (r, (t, n')) → Q r (put_pubdb t w)) →
  runs e (try (on_pubs_fk m)) w Q.
Proof.
  intros H n. unfold try, on_pubs_fk, on_pubs, zoom. cbn [fst snd]. unfold compose.
  destruct (m _ e (pubdb (dbs w), n)) as [r [t n']] eqn:E. by eapply H.
Qed.

Section Materialize.
Context (D : Deps) (e : Env) (job : UploadJobs.UploadJob) (post : PostModel.Post).
Lemma materialize_one_spec target w : runs e (materializeYouTubeDelivery D job post target) w
  (λ r w', queue_grew w w' ∧ (queue_ok (pubdb (dbs w)) → r = inr tt → has_target (PostStore.n_ID target) (pubdb (dbs w')))).
Proof.
  unfold materializeYouTubeDelivery. runs_step. apply runs_store. intros n r t n' Hr.
  apply find_target_pure in Hr as [Ht Hr]. cbn [fst] in Ht, Hr. unfold compose in *. subst t. rewrite put_pubdb_id.
  destruct r as [er|[p|]]; [by split; [apply queue_grew_refl|]|by apply runs_ret; split; [apply queue_grew_refl|]|].
  do 3 runs_step. apply runs_try_fk. intros fk m r2 t2 n2 Hc. apply create_pub_grows in Hc as [Hg Hh]. cbn [fst] in Hg, Hh.
  pose proof (queue_grew_put w t2 Hg) as Hw. destruct r2 as [er|pub].
  2:{ apply runs_ret. split; [done|]. by intros _ _. }
  runs_step. apply runs_try. intros n3 r3 t3 n3' Hr3. apply find_target_pure in Hr3 as [Ht Hr3].
  cbn [fst] in Ht, Hr3. unfold compose in *. subst t3. rewrite put_pubdb_id.
  destruct r3 as [er3|[p|]]; apply runs_ret; split; try done.
Qed.
Lemma materialize_targets_spec accounts l : ∀ w, runs e (materialize_targets D accounts job post l) w
  (λ r w', queue_grew w w' ∧ (queue_ok (pubdb (dbs w)) → r = inr tt →
     ∀ t a, t ∈ l → accounts !! PostStore.n_PlatformAccountID t = Some a →
     PublishWorker.acc_Platform a = "youtube" → has_target (PostStore.n_ID t) (pubdb (dbs w')))).
Proof.
  induction l as [|t l IH]; intros w; cbn [materialize_targets].
  { apply runs_ret. split; [apply queue_grew_refl|]. intros _ _ t a Ht. by apply elem_of_nil in Ht. }
  destruct (accounts !! _) as [a|] eqn:Ha; [|apply runs_ret; by split; [apply queue_grew_refl|]].
  case_bool_decide as Hy.
  - runs_step. eapply runs_weaken; [apply materialize_one_spec|]. intros r w1 [Hg Hh].
    destruct r as [er|[]]; [by split|]. eapply runs_weaken; [apply IH|]. intros r w2 [Hg2 Hh2].
    split; [by eapply queue_grew_trans|]. intros Hok -> t' a' [->|Ht]%elem_of_cons Ha' Hp.
    + apply Hg2; [by apply Hg|auto].
    + eapply Hh2; eauto. by apply Hg.
  - eapply runs_weaken; [apply IH|]. intros r w' [Hg Hh]. split; [done|].
    intros Hok -> t' a' [->|Ht]%elem_of_cons Ha' Hp; [|by eapply Hh]. rewrite Ha in Ha'. by injection Ha' as ->.
Qed.
End Materialize.

(** ** Queueing the targets *)
Definition reset_of (p : Z) (db s : PostStore.PostDB) : Prop :=
  ∃ e, PostStore.targets s = PostStore.targets (PostStore.qPublishPostTargetsReset p e db).2 ∧
    ∀ i, PostModel.post_UploadJobID <$> PostStore.posts s !! i = PostModel.post_UploadJobID <$> PostStore.posts db !! i.
Lemma reset_triple p db : triple (λ s, s = db)
  (PostStore.resetPostTargetsAndAggregateTx p (PostStore.qPublishPostTargetsReset p)) (λ _, reset_of p db).
Proof.
  unfold PostStore.resetPostTargetsAndAggregateTx.
  apply triple_bind with (Q := λ _ s, s = db); [by apply triple_exec|]. intros _.
  apply triple_bind with (Q := λ _ s, s = db).
  { apply triple_bind with (Q := λ _ s, s = db); [by apply triple_exec|].
    intros [|]; [by apply triple_ret|apply triple_throw]. }
  intros _. apply triple_bind with (Q := λ _, reset_of p db).
  { apply triple_exec. intros e s ->. by exists e. }
  intros _. unfold PostStore.persistAggregatePostStatusLockedTx.
  apply triple_bind with (Q := λ _, reset_of p db).
  { apply triple_bind with (Q := λ _, reset_of p db); [by apply triple_exec|].
    intros l. destruct (PostModel.resolve_statuses l); [apply triple_throw|by apply triple_ret]. }
  intros st. apply PostStoreProps.triple_exec_status. intros e s (e0 & H1 & H2). exists e0. split; [done|].
  intros i. rewrite <- H2. simpl. destruct (decide (i = p)) as [->|Hne]; [|by rewrite lookup_alter_ne].
  rewrite lookup_alter_eq. by destruct (PostStore.posts s !! p).
Qed.
Lemma PublishPost_effect p e db n u db' n' : PostStore.PublishPost p e (db, n) = (inr u, (db', n')) →
  (∀ k t, PostStore.targets db' !! k = Some t → PostStore.t_post t = p → PostStore.t_status t = "queued") ∧
  (∀ k, PostStore.t_post <$> PostStore.targets db' !! k = PostStore.t_post <$> PostStore.targets db !! k) ∧
  (∀ i, PostModel.post_UploadJobID <$> PostStore.posts db' !! i = PostModel.post_UploadJobID <$> PostStore.posts db !! i).
Proof.
  intros [[n1 H]|[_ [w1 H]]]%transact_inr; [|run_inv; discriminate].
  apply bind_inr in H as ([] & [s n2] & H & Hret). destruct u. injection Hret as -> _.
  apply (reset_triple p db) in H as (e0 & H1 & H2); [|done].
  assert (G : ∀ k, PostStore.targets db' !! k = PostStoreProps.written (λ _ t, PostStore.t_post t =? p)
    (PostStore.reset_to "queued") e0 k <$> PostStore.targets db !! k).
  { intros k. rewrite H1. apply PostStoreProps.update_targets_lookup. }
  assert (Hp : ∀ k t, PostStore.t_post (PostStoreProps.written (λ _ t, PostStore.t_post t =? p)
    (PostStore.reset_to "queued") e0 k t) = PostStore.t_post t) by (intros; by apply PostStoreProps.written_post).
  split; [|split; [|done]].
  - intros k t. rewrite G. intros (t0 & Ht0 & ->)%fmap_Some. rewrite Hp. intros Hpost.
    unfold PostStoreProps.written. rewrite Hpost, Z.eqb_refl. by rewrite PostStoreProps.reset_status.
  - intros k. rewrite G. destruct (PostStore.targets db !! k); [|done]. simpl. by rewrite Hp.
Qed.

(** ** The post of a job *)
Lemma insert_targets_accounts pid l : triple (λ _, True) (PostStore.insert_targets pid l)
  (λ r _, PostStore.n_PlatformAccountID <$> r = PostStore.n_PlatformAccountID <$> l).
Proof.
  induction l as [|t l IH]; [by apply triple_ret|]. cbn [PostStore.insert_targets].
  eapply triple_bind with (Q := λ _ _, True); [by intros e s n a s' n'|]. intros id.
  eapply triple_bind; [apply IH|]. intros rest. apply triple_ret. intros _ H. rewrite !fmap_cons, H. done.
Qed.
Lemma stamp_accounts l rows : length rows = length l →
  PostStore.n_PlatformAccountID <$> zip_with PostStore.stamp l rows = PostStore.n_PlatformAccountID <$> l.
Proof.
  revert rows. induction l as [|t l IH]; intros [|r rows]; simpl; try done. intros [= H]. by rewrite IH.
Qed.
Definition same_accounts (l : list PostStore.NewTarget) (out : TxOut (PostModel.Post * list PostStore.NewTarget)) : Prop :=
  match out with Commit r | Rollback r =>
    PostStore.n_PlatformAccountID <$> r.2 = PostStore.n_PlatformAccountID <$> l end.
Lemma triple_any {S A} (P : S → Prop) (m : M S A) : triple P m (λ _ _, True).
Proof. by intros e s n a s' n'. Qed.
Lemma Create_accounts p l e db n r w' : PostStore.Create p l e (db, n) = (inr r, w') →
  PostStore.n_PlatformAccountID <$> r.2 = PostStore.n_PlatformAccountID <$> l.
Proof.
  unfold PostStore.Create. match goal with |- transact _ ?b _ _ = _ → _ =>
    assert (Hb : triple (λ _, True) b (λ out _, same_accounts l out)) end.
  { eapply triple_bind; [apply triple_any|]. intros env. cbv zeta. eapply triple_bind; [apply triple_any|]. intros [q|].
    - eapply triple_bind; [apply triple_any|]. intros u.
      eapply triple_bind; [eapply triple_weaken; [apply insert_targets_accounts|done|done]|]. intros l'.
      eapply triple_bind with (Q := λ _ _, PostStore.n_PlatformAccountID <$> l' = PostStore.n_PlatformAccountID <$> l);
        [by intros e1 s1 n1 a1 s2 n2 H _|]. intros u'. by apply triple_ret.
    - destruct (PostModel.post_UploadJobID _) as [u|]; [|apply triple_throw]. eapply triple_bind with
        (Q := λ r _, PostStore.n_PlatformAccountID <$> r.2 = PostStore.n_PlatformAccountID <$> l);
        [|intros r1; by apply triple_ret].
      unfold PostStore.fetchExistingByUploadJobID. eapply triple_bind; [apply triple_any|]. intros [q|]; [|apply triple_throw].
      eapply triple_bind; [apply triple_any|]. intros rows. case_bool_decide; [|apply triple_throw].
      apply triple_ret. intros _ _. by apply stamp_accounts. }
  intros [[n1 H]|[_ [[s2 n2] H]]]%transact_inr; by apply Hb in H.
Qed.
Lemma post_of_job_Some u db q : PostStore.post_of_job (Some u) db = Some q →
  PostModel.post_UploadJobID q = Some u ∧ ∃ k, PostStore.posts db !! k = Some q.
Proof.
  unfold PostStore.post_of_job. intros H.
  assert (Hin : q ∈ List.filter (λ p, bool_decide (PostModel.post_UploadJobID p = Some u)) (map_to_list (PostStore.posts db)).*2).
  { destruct (List.filter _ _) as [|x l]; [done|]. injection H as ->. by left. }
  apply YouTubeQueueProps.filter_elem in Hin as [Hin Hu%bool_decide_eq_true]. split; [done|].
  apply list_elem_of_fmap in Hin as ([k q'] & -> & Hin). exists k. by apply elem_of_map_to_list in Hin.
Qed.
(** What a successful creation returned is stored. *)
Lemma Create_gives p l u e db n r db' n' : PostStoreProps.db_ok db → PostStoreProps.outbox_fresh db →
  PostModel.post_UploadJobID p = Some u → PostStore.Create p l e (db, n) = (inr r, (db', n')) →
  (∃ q, PostStore.posts db' !! PostModel.post_ID r.1 = Some q ∧ PostModel.post_UploadJobID q = Some u) ∧
  Forall (λ t, ∃ row, PostStore.targets db' !! PostStore.n_ID t = Some row ∧
                      PostStore.t_post row = PostModel.post_ID r.1) r.2.
Proof.
  intros Hok Hob Hu Hrun. destruct (PostStoreProps.Create_body_triple db p l Hok Hob _ _ _ _ _ Hrun) as [Hc|He].
  - destruct Hc as (_ & Hid & Hnum & (q & Hq & _ & Hqu & _) & _ & _ & Hrows & _). split.
    + exists q. rewrite Hid, Hq, lookup_insert_eq. split; [done|congruence].
    + apply Forall_forall. intros t Ht. rewrite Forall_forall in Hrows. destruct (Hrows t Ht) as (row & H1 & H2 & _).
      exists row. split; [done|]. rewrite H2, Hid. rewrite Hnum in Ht.
      by apply elem_of_lookup_imap in Ht as (j & t' & -> & _).
  - destruct He as (-> & q & Hq & Hid & _ & Hids). rewrite Hu in Hq. apply post_of_job_Some in Hq as [Hqu [k Hk]].
    destruct (PostStoreProps.ok_id _ Hok _ _ Hk) as [Hkid _]. split.
    + exists q. by rewrite Hid, Hkid.
    + apply Forall_forall. intros t Ht.
      assert (Hin : (PostStore.n_ID t, PostStore.n_Status t) ∈ (λ kt, (kt.1, PostStore.t_status kt.2)) <$> PostStore.post_rows (PostModel.post_ID q) db).
      { rewrite <- Hids. apply list_elem_of_fmap. by exists t. }
      apply list_elem_of_fmap in Hin as ([k' row] & [= -> _] & Hin). exists row. rewrite Hid.
      by apply PostStoreProps.post_rows_elem in Hin.
Qed.

(** ** A successful run *)
Lemma exec_owned_inr op rop id w f e db n u db' n' :
  UploadJobs.exec_owned op rop id w f e (db, n) = (inr u, (db', n')) →
  ∃ j, UploadJobs.jobs db !! id = Some j ∧ UploadJobs.owned_by w j = true ∧
       UploadJobs.jobs db' !! id = Some (f e j).
Proof.
  unfold UploadJobs.exec_owned. intros (k & [s1 n1] & (_ & _ & H1)%exec_inr & H)%bind_inr. cbn [fst] in H1.
  apply bind_inr in H as (m & [s2 n2] & H2%map_err_inr & H). apply rows_inr in H2 as [-> H2]. cbn [fst] in H2. subst s2.
  unfold UploadJobs.owned_update, UploadJobs.on_jobs in H1.
  destruct (update_row id _ _ (UploadJobs.jobs db)) as [k' t] eqn:E. injection H1 as <- <-.
  case_bool_decide as Hk; [discriminate H|]. injection H as _ <- _.
  destruct k' as [|k']; [done|]. apply update_row_1 in E as (j & Hj & Ho & -> & _).
  exists j. split; [done|]. split; [done|]. apply lookup_insert_eq.
Qed.
Definition linked_to (db : PostStore.PostDB) (pid u : Z) : Prop :=
  ∃ q, PostStore.posts db !! pid = Some q ∧ PostModel.post_UploadJobID q = Some u.
Definition on_post (db : PostStore.PostDB) (pid k : Z) : Prop :=
  ∃ row, PostStore.targets db !! k = Some row ∧ PostStore.t_post row = pid.
Definition healthy (d : Databases) : Prop :=
  PostStoreProps.db_ok (postdb d) ∧ PostStoreProps.outbox_fresh (postdb d).

Section Run.
Context (D : Deps) (e : Env) (job : UploadJobs.UploadJob) (workerID : string).
Context (accounts : gmap Z PublishWorker.PlatformAccount).
Context (Hacc : ∀ h l m, find_accounts D h l = inr m → m = accounts).
Context (Hhealthy : ∀ h d, healthy d → healthy (meanwhile D h d)).
Context (Hqueue : ∀ h d, queue_ok (pubdb d) → queue_ok (pubdb (meanwhile D h d))).
Context (Hpost : ∀ h d pid u, linked_to (postdb d) pid u → linked_to (postdb (meanwhile D h d)) pid u).
Context (Htarget : ∀ h d pid k, on_post (postdb d) pid k → on_post (postdb (meanwhile D h d)) pid k).

Lemma materialize_spec post l w (Q : GoErr + unit → World → Prop) :
  (∀ r w', (∀ pid u, linked_to (postdb (dbs w)) pid u → linked_to (postdb (dbs w')) pid u) →
     (∀ pid k, on_post (postdb (dbs w)) pid k → on_post (postdb (dbs w')) pid k) →
     (queue_ok (pubdb (dbs w)) → queue_ok (pubdb (dbs w'))) →
     (queue_ok (pubdb (dbs w)) → r = inr tt → yt_store D = true → ∀ t a, t ∈ l →
        accounts !! PostStore.n_PlatformAccountID t = Some a → PublishWorker.acc_Platform a = "youtube" →
        has_target (PostStore.n_ID t) (pubdb (dbs w'))) → Q r w') →
  runs e (materializeYouTubeDeliveries D job l post) w Q.
Proof using Hacc Hqueue Hpost Htarget.
  intros HQ. unfold materializeYouTubeDeliveries.
  destruct (yt_store D); [|by apply runs_ret, HQ].
  cbn [negb]. cbv zeta. do 2 runs_step. set (w1 := mkWorld _ _).
  assert (Hh : queue_ok (pubdb (dbs w)) → queue_ok (pubdb (dbs w1))) by apply Hqueue.
  destruct (find_accounts D _ _) as [er|m] eqn:Em.
  { apply runs_ret, HQ; [intros; by apply Hpost|intros; by apply Htarget| |done]. intros H. by apply Hh. }
  apply Hacc in Em as ->. eapply runs_weaken; [apply materialize_targets_spec|].
  intros r w' [[Hg ->] Ht]. apply HQ; simpl; [intros; by apply Hpost|intros; by apply Htarget| |].
  - intros H. apply Hg. by apply Hh.
  - intros H -> _ t a. apply Ht; [by apply Hh|done].
Qed.
Definition youtube (a : Z) : Prop :=
  ∃ acc, accounts !! a = Some acc ∧ PublishWorker.acc_Platform acc = "youtube".
Definition job_done (pid : Z) (status : string) (db : UploadJobs.JobDB) : Prop :=
  ∃ j, UploadJobs.jobs db !! UploadJobs.ID job = Some j ∧ UploadJobs.PostID j = Some pid ∧
       UploadJobs.AssetID j = Some (default "" (UploadJobs.AssetID job)) ∧
       UploadJobs.job_owner j = None ∧ UploadJobs.job_status j = status.
Let wait := later (UploadJobs.PublishAt (UploadJobs.Spec job)) (app_now e).
(** What a successful run leaves: [ids] are the targets of the job's accounts. *)
Definition effects (pid : Z) (ids : list Z) (w : World) : Prop :=
  linked_to (postdb (dbs w)) pid (UploadJobs.ID job) ∧
  length ids = length (UploadJobs.Targets (UploadJobs.Spec job)) ∧
  Forall (on_post (postdb (dbs w)) pid) ids ∧
  queue_ok (pubdb (dbs w)) ∧
  (yt_store D = true → ∀ i k a, ids !! i = Some k → UploadJobs.Targets (UploadJobs.Spec job) !! i = Some a →
     youtube a → has_target k (pubdb (dbs w))).
Lemma mark_spec pid w (Q : GoErr + unit → World → Prop) asset : asset = default "" (UploadJobs.AssetID job) →
  (∀ er w', Q (inl er) w') →
  (∀ w', postdb (dbs w') = postdb (dbs w) → pubdb (dbs w') = pubdb (dbs w) →
     job_done pid (if wait then UploadJobs.UploadJobStatusPublishScheduled else UploadJobs.UploadJobStatusPublishCompleted)
       (jobdb (dbs w')) → Q (inr tt) w') →
  runs e (if wait then
      store "mark job prepared" (on_jobs (UploadJobs.MarkPrepared (UploadJobs.ID job) workerID pid asset))
    else store "mark job completed" (on_jobs (UploadJobs.MarkCompleted (UploadJobs.ID job) workerID pid asset))) w Q.
Proof using Type.
  intros -> Herr Hok. destruct wait; apply runs_store; intros n r t n' Hr; (destruct r as [er|[]]; [apply Herr|]);
    apply exec_owned_inr in Hr as (j & Hj & Ho & Hj'); (apply Hok; [done|done|]);
    (eexists; split; [exact Hj'|]; done).
Qed.
Lemma publish_run w (Hstore : healthy (dbs w)) (Hq : queue_ok (pubdb (dbs w))) : runs e (processPublishJob D job workerID) w (λ r w', r = inr tt →
  ∃ pid ids, effects pid ids w' ∧ job_done pid (if wait then "publish_scheduled" else "publish_completed") (jobdb (dbs w')) ∧
    (wait = false → ∀ k row, PostStore.targets (postdb (dbs w')) !! k = Some row →
       PostStore.t_post row = pid → PostStore.t_status row = "queued")).
Proof using Hacc Hhealthy Hqueue Hpost Htarget.
  unfold processPublishJob. case_bool_decide as Hasset; [by apply runs_ret|]. do 2 runs_step. set (w1 := mkWorld _ _).
  assert (H1 : healthy (dbs w1)) by by apply Hhealthy.
  assert (Hq1 : queue_ok (pubdb (dbs w1))) by by apply Hqueue.
  clearbody w1. cbv zeta. set (key := Storage.BuildUploadKey _ _ _).
  runs_step. apply runs_store. intros n r t n' Hr. unfold compose in *. destruct r as [er|[post targets]]; [done|].
  pose proof (Create_accounts _ _ _ _ _ _ _ Hr) as Haccs.
  apply (Create_gives _ _ (UploadJobs.ID job)) in Hr as [Hlink Hrows]; [|apply H1|apply H1|done]. cbn [fst snd] in *.
  runs_step. apply runs_wrapped, materialize_spec. intros r w2 L1 L2 L3 L4. destruct r as [er|[]]; [done|].
  assert (Heff : effects (PostModel.post_ID post) (PostStore.n_ID <$> targets) w2).
  { split; [by apply L1|]. split; [|split; [|split; [by apply L3|]]].
    - rewrite length_fmap. apply (f_equal length) in Haccs. unfold targets_of in Haccs. by rewrite !length_fmap in Haccs.
    - apply Forall_fmap. eapply Forall_impl; [exact Hrows|]. intros x Hx. by apply L2.
    - intros Hyt i k a Hi Ha (acc & Hacc1 & Hacc2). rewrite list_lookup_fmap in Hi.
      destruct (targets !! i) as [x|] eqn:Hx; [|done]. injection Hi as <-.
      apply (f_equal (λ l, l !! i)) in Haccs. unfold targets_of in Haccs.
      rewrite !list_lookup_fmap, Hx, Ha in Haccs. injection Haccs as Haccs.
      apply (L4 Hq1 eq_refl Hyt x acc); [by eapply list_elem_of_lookup_2|by rewrite Haccs|done]. }
  do 3 runs_step. fold wait. apply runs_weaken with (Q := λ r w', r = inr tt → effects (PostModel.post_ID post) (PostStore.n_ID <$> targets) w' ∧
    (wait = false → ∀ k row, PostStore.targets (postdb (dbs w')) !! k = Some row →
       PostStore.t_post row = PostModel.post_ID post → PostStore.t_status row = "queued")).
  { destruct wait; [by apply runs_ret|]. apply runs_store. intros n2 r2 t2 n2' Hr2.
    destruct r2 as [er|[]]; [done|]. intros _. apply PublishPost_effect in Hr2 as (P1 & P2 & P3).
    split; [|done]. destruct Heff as ((q & E1 & E1') & E2 & E3 & E4 & E5). split; [|split; [done|split; [|done]]].
    - specialize (P3 (PostModel.post_ID post)). unfold compose in P3. rewrite E1 in P3. simpl in P3.
      destruct (PostStore.posts t2 !! PostModel.post_ID post) as [q'|] eqn:Hq'; [|done]. injection P3 as P3.
      exists q'. split; [done|congruence].
    - eapply Forall_impl; [exact E3|]. intros k (row & R1 & R2). specialize (P2 k). unfold compose in P2.
      rewrite R1 in P2. simpl in P2. destruct (PostStore.targets t2 !! k) as [row'|] eqn:Hrow; [|done].
      injection P2 as P2. exists row'. split; [done|congruence]. }
  intros [er|[]] w3 H3; [done|]. destruct (H3 eq_refl) as [E3 Q3]. apply mark_spec; [done|done|].
  intros w4 P4 P5 Hdone _. exists (PostModel.post_ID post), (PostStore.n_ID <$> targets).
  unfold effects in *. rewrite P4, P5. split; [done|]. split; [by destruct wait|done].
Qed.
End Run.


(** The job of the delivery with its asset, leased by the publish pool. *)
Definition publish_job : UploadJobs.UploadJob := demo_job "velox_artifact" [4; 2] "publish-1" (Some "asset-1").
Definition publish_run_at (t : Z) (w : World) : (err + (GoErr + unit)) * (World * nat) :=
  processPublishJob (demo_deps 200 (inr "")) publish_job "publish-1" (demo_env t) (w, O).
Definition after_publish : World := state_of (publish_run_at 300 (demo_world publish_job)).
Lemma demo_healthy : healthy (demo_dbs publish_job) ∧ queue_ok (pubdb (demo_dbs publish_job)).
Proof.
  split; [split|split].
  - split; simpl; [by intros ? ?|by intros ? ?|by intros k [? [=]]].
  - by intros k [? [=]].
  - by intros k [? [=]].
  - by intros i j p q [=].
Qed.

(** The completion of the first run is lost; a publish worker publishes the second
    target; the job is run again: the target is back in the queue. *)
Definition lost_completion : World :=
  state_of (processPublishJob (demo_deps 200 (inr "")) publish_job "publish-1"
    (mkEnv 300 300 (λ n, if bool_decide (n = (publish_run_at 300 (demo_world publish_job)).2.2 - 2)%nat then Lost else Fine)
       (λ _, false) (λ _, false) "") (demo_world publish_job, O)).
Definition target_status (w : World) (k : Z) : option string := PostStore.t_status <$> PostStore.targets (postdb (dbs w)) !! k.
Definition then_published : World :=
  put_postdb (state_of (PostStore.UpdateStatus
    (Some (PostStore.mkTargetUpdate 2 "published" "v1" "" (Some 310) "" "" "")) (demo_env 310)
    (postdb (dbs lost_completion), O))) lost_completion.
Example lost_completion_publishes_again :
  UploadJobs.job_status <$> UploadJobs.jobs (jobdb (dbs lost_completion)) !! 1 = Some "leased" ∧
  target_status then_published 2 = Some "published" ∧
  target_status (state_of (publish_run_at 400 then_published)) 2 = Some "queued" ∧
  result_of (publish_run_at 400 then_published) = inr (inr tt).
Proof. repeat split; vm_compute; reflexivity. Qed.
