(* ===== verification/YouTubeUpload.v ===== *)
(** * The delivery pool: one private upload to YouTube

    [src/internal/worker/upload_worker_publish.go], second part: a claimed row
    of the delivery queue is uploaded as a private video, after the credentials,
    the channel, the media and the quota have been checked, and the row is
    settled.  [src/internal/credentials/youtube_token.go] renews the token. *)

From S2P Require Import Prelude Store GoError UploadWorld.
From S2P Require PostModel PostStore PostReads PublishWorker MediaAssets YouTubeQueue YouTubeQuota.
From Stdlib Require Import ZArith Lia.
Local Open Scope Z_scope.

(* Source: internal/worker/upload_worker_publish.go *)
(* 401-417 deliveryRetryBackoff *)
Definition deliveryRetryBackoff (attempt : Z) : Z :=
  let base := Minute in
  let max := 30 * Minute in
  let attempt := if attempt <? 0 then 0 else attempt in
  let attempt := if 30 <? attempt then 30 else attempt in
  let d := wrap64 (base * Z.shiftl 1 attempt) in
  if max <? d then max else d.
(* Source: internal/credentials/youtube_token.go *)
Definition ErrYouTubeTokenRenewal : GoErr := (* 69 *)
  leaf (DSentinel "ErrYouTubeTokenRenewal" "youtube token renewal failed").
Definition ErrYouTubeInvalidGrant : GoErr := (* 74 *)
  leaf (DSentinel "ErrYouTubeInvalidGrant" "youtube OAuth grant requires reauthorization").
(* Source: internal/worker/upload_worker_publish.go *)
(* 340-341 UploadWorker.processYouTubeDelivery *)
Definition is_uploaded (d : YouTubeQueue.Pub) : bool :=
  bool_decide (YouTubeQueue.YouTubeUploadStatus (YouTubeQueue.video d) = "youtube_uploaded").
Definition canceled (er : GoErr) : bool := Is er "context.Canceled" || Is er "context.DeadlineExceeded".

Section Delivery.
Context (D : Deps).
(* Source: internal/credentials/youtube_token.go *)
(* 20-61 RenewYouTubeToken *)
Definition RenewYouTubeToken (accountID : Z) : G string :=
  canonical ← outside D (CallRenew accountID "bearer") (λ h, vault_renew D h accountID "bearer");
  match canonical with
  | inr token => give token
  | inl er =>
      if Is er "ErrInvalidGrant" then fail ErrYouTubeInvalidGrant
      else if negb (Is er "ErrModernGrantMissing") then fail ErrYouTubeTokenRenewal
      else
        legacy ← outside D (CallRenew accountID "long_lived") (λ h, vault_renew D h accountID "long_lived");
        match legacy with
        | inr token => give token
        | inl er2 =>
            if Is er2 "ErrInvalidGrant" then fail ErrYouTubeInvalidGrant
            else fail (Errorf_w "youtube token renewal failed for canonical and temporary legacy credentials"
                         ErrYouTubeTokenRenewal)
        end
  end.

(** ** Outcomes of a delivery *)
(* Source: internal/worker/upload_worker_publish.go *)
(** The error of the mark is logged.  The result is always an error. *)
(* 387-397 UploadWorker.failYouTubeDelivery *)
Definition failYouTubeDelivery {A} (d : YouTubeQueue.Pub) (workerID code message : string) : G A :=
  e ← ask;
  let backoff := deliveryRetryBackoff (YouTubeQueue.AttemptCount (YouTubeQueue.queue d)) in
  _ ← try (on_pubs (YouTubeQueue.MarkDeliveryFailed (YouTubeQueue.ID d) workerID code message (app_now e + backoff)));
  errorf (code +:+ ": " +:+ message +:+ " (delivery=" +:+ itoa (YouTubeQueue.ID d) +:+ ")").
(** Three writes, each of them best effort. *)
(* 630-665 UploadWorker.handleTargetBlockedAuth *)
Definition handleTargetBlockedAuth (d : YouTubeQueue.Pub) (account : PublishWorker.PlatformAccount)
    (reason workerID : string) : W unit :=
  _ ← try (on_pubs (YouTubeQueue.MarkDeliveryBlockedAuth (YouTubeQueue.ID d) workerID
             ("youtube_channel_mismatch: " +:+ reason)));
  _ ← try (on_posts (PostStore.SetTargetStatus (YouTubeQueue.PostTargetID d) PostModel.PostStatusBlockedAuth
             ("youtube channel mismatch: " +:+ reason)));
  let id := PublishWorker.acc_ID account in
  _ ← outside D (CallReauth id "youtube_channel_mismatch" reason) (λ h, mark_reauth D h id);
  mret tt.

(** ** The gates before the upload *)
(** [None]: the channel does not match, the delivery is settled. *)
(* 511-525 UploadWorker.uploadVideoAsPrivateForDelivery *)
Definition check_binding (d : YouTubeQueue.Pub) (account : PublishWorker.PlatformAccount) (hasBinder : bool)
    (token workerID : string) : G (option string) :=
  if negb hasBinder then give (Some token)
  else
    let user := PublishWorker.acc_PlatformUserID account in
    bindErr ← outside D (CallBinding token user) (λ h, validate_binding D h token user);
    match bindErr with
    | None => give (Some token)
    | Some er =>
        if Is er "ErrYouTubeChannelMismatch" then
          _ ← handleTargetBlockedAuth d account (Error er) workerID; give None
        else fail (Errorf_w ("channel binding check platform_account=" +:+ itoa (PublishWorker.acc_ID account) +:+
                             " (transient)") er)
    end.
(* 487-506 UploadWorker.uploadVideoAsPrivateForDelivery *)
Definition delivery_token (d : YouTubeQueue.Pub) (account : PublishWorker.PlatformAccount) (workerID : string) :
    G string :=
  let id := PublishWorker.acc_ID account in
  r ← RenewYouTubeToken id;
  match r with
  | inr token => give token
  | inl er =>
      if Is er "ErrYouTubeInvalidGrant" || Is er "ErrModernGrantMissing" then
        failYouTubeDelivery d workerID "blocked_auth"
          ("token refresh requires reauthorization for platform_account=" +:+ itoa id)
      else fail (Errorf_w ("token refresh for platform_account=" +:+ itoa id) er)
  end.
(* 544-553 UploadWorker.uploadVideoAsPrivateForDelivery *)
Definition delivery_media (post : PostModel.Post) : G string :=
  if negb (resolver D) then
    errorf "resolve media asset for private YouTube upload: media download resolver is not configured"
  else
    r ← try (on_assets (MediaAssets.ResolvePostMedia (uuid_in D) (query_order D) (storage D) (Some post) Hour));
    match r with
    | inl er => fail (Errorf_w "resolve media asset for private YouTube upload" (of_err er))
    | inr (inl er) =>
        if Is er "ErrAssetExpired" then
          errorf "resolve media asset for private YouTube upload: media asset expired; re-upload required"
        else fail (Errorf_w "resolve media asset for private YouTube upload" er)
    | inr (inr url) => give url
    end.
(** Whether the call may be made; when not, the row waits for the reset. *)
(* 561-579 UploadWorker.uploadVideoAsPrivateForDelivery *)
Definition delivery_quota (d : YouTubeQueue.Pub) (workerID : string) : G bool :=
  match quota D with
  | None => give true
  | Some limits =>
      do answer <- store ("youtube quota reserve videos.insert delivery=" +:+ itoa (YouTubeQueue.ID d))
        (on_quota (YouTubeQuota.ReserveOperation (quotaDayKey D) (next_midnight D) limits "videos.insert"));
      let '(allowed, retryAfter) := answer : bool * Z in
      if allowed then give true
      else
        e ← ask;
        let retryAfter := if retryAfter <=? 0 then 3600 else retryAfter in
        _ ← try (on_pubs (YouTubeQueue.MarkDeliveryQuotaWait (YouTubeQueue.ID d) workerID
               (app_now e + wrap64 (retryAfter * Second))));
        give false
  end.
(* 581-608 UploadWorker.uploadVideoAsPrivateForDelivery *)
Definition insert_private (d : YouTubeQueue.Pub) (targetID : Z) (post : PostModel.Post) (token mediaURL workerID : string) : G unit :=
  let id := itoa (YouTubeQueue.ID d) in
  let at_ := YouTubeQueue.NativePublishAt d in
  r ← outside D (CallUpload (YouTubeQueue.ID d) token mediaURL at_) (λ h, insert_video D h post mediaURL at_);
  let text := "UploadVideoAsPrivate delivery=" +:+ id +:+ " target=" +:+ itoa targetID in
  match r with
  | inl er =>
      _ ← match quota D with
          | None => mret tt
          | Some limits =>
              _ ← try (on_quota (YouTubeQuota.RecordError (quotaDayKey D) limits
                        YouTubeQuota.YouTubeQuotaBucketVideoUploads));
              mret tt
          end;
      fail (Errorf_w text er)
  | inr videoID =>
      if bool_decide (videoID = "") then errorf (text +:+ " returned empty videoID")
      else store ("MarkDeliveryUploaded(delivery=" +:+ id +:+ ", videoID=" +:+ videoID +:+ ")")
             (on_pubs (YouTubeQueue.MarkDeliveryUploaded (YouTubeQueue.ID d) workerID videoID))
  end.

(** ** The delivery *)
(* 426-613 UploadWorker.uploadVideoAsPrivateForDelivery *)
Definition uploadVideoAsPrivateForDelivery (d : YouTubeQueue.Pub) (target : PostModel.PostTarget)
    (post : PostModel.Post) (workerID : string) : G unit :=
  let id := itoa (YouTubeQueue.ID d) in
  let accountID := YouTubeQueue.PlatformAccountID d in
  if negb (yt_store D) then give tt
  else if PostModel.ID target =? 0 then
    errorf ("per-delivery private upload on nil/zero-id target (delivery_id=" +:+ id +:+ ")")
  else if accountID =? 0 then
    errorf ("per-delivery private upload on delivery with platform_account_id=0 (delivery_id=" +:+ id +:+ ")")
  else if is_uploaded d then give tt
  else
    found ← outside D (CallAccount accountID) (λ h, find_account D h accountID);
    match found with
    | inl er => fail (Errorf_w ("FindPlatformAccountByID(" +:+ itoa accountID +:+ ")") (of_err er))
    | inr None => errorf ("nil platform account for id=" +:+ itoa accountID)
    | inr (Some account) =>
        let platform := PublishWorker.acc_Platform account in
        if negb (bool_decide (platform = PublishWorker.PlatformYouTube)) then give tt
        else match capability D platform with
        | None => errorf ("provider not found for platform=" +:+ platform)
        | Some (oauth, binder, uploader) =>
            if negb oauth then errorf ("provider for " +:+ platform +:+ " does not implement OAuthProvider")
            else
              do token <- delivery_token d account workerID;
              do bound <- check_binding d account binder token workerID;
              match bound with
              | None => give tt
              | Some token =>
                  if negb uploader then
                    errorf ("provider for " +:+ platform +:+ " does not implement UploadChannelUploader " +:+
                      "(YouTubeOAuthService implements it; bootstrap must register the capability)")
                  else
                    do mediaURL <- delivery_media post;
                    do allowed <- delivery_quota d workerID;
                    if negb (allowed : bool) then give tt else insert_private d (PostModel.ID target) post token mediaURL workerID
              end
        end
    end.
(** After a failed upload: a stopped worker gives the row back, any other
    error counts as an attempt. *)
(* 361-380 UploadWorker.processYouTubeDelivery *)
Definition upload_failed (d : YouTubeQueue.Pub) (workerID : string) (er : GoErr) : G unit :=
  ctx ← ctx_Err D;
  if canceled er || match ctx with Some c => canceled (leaf c) | None => false end then
    _ ← try (on_pubs (YouTubeQueue.ReleaseDeliveryLease (YouTubeQueue.ID d) workerID)); fail er
  else
    e ← ask;
    let backoff := deliveryRetryBackoff (YouTubeQueue.AttemptCount (YouTubeQueue.queue d)) in
    _ ← try (on_pubs (YouTubeQueue.MarkDeliveryFailed (YouTubeQueue.ID d) workerID "upload_failed" (Error er)
               (app_now e + backoff)));
    fail er.
(* 323-382 UploadWorker.processYouTubeDelivery *)
Definition processYouTubeDelivery (delivery : option YouTubeQueue.Pub) (workerID : string) : G unit :=
  match delivery with
  | None => errorf "process youtube delivery: nil delivery"
  | Some d =>
      let id := itoa (YouTubeQueue.ID d) in
      let targetID := YouTubeQueue.PostTargetID d in
      if negb (yt_store D) then give tt
      else if is_uploaded d then
        store ("release lease on already-uploaded delivery " +:+ id)
          (on_pubs (YouTubeQueue.ReleaseDeliveryLease (YouTubeQueue.ID d) workerID))
      else if negb (delivery_posts D) then
        errorf ("process youtube delivery " +:+ id +:+ ": delivery post store not wired")
      else
        do target <- store ("find post target " +:+ itoa targetID +:+ " for delivery " +:+ id)
          (on_posts (PostReads.FindTargetByID targetID));
        match target with
        | None => failYouTubeDelivery d workerID "target_missing" ("post_target " +:+ itoa targetID +:+ " not found")
        | Some target =>
            let postID := PostModel.PostID target in
            do post <- store ("find post " +:+ itoa postID +:+ " for delivery " +:+ id)
              (on_posts (PostReads.FindByID postID));
            match post with
            | None => failYouTubeDelivery d workerID "post_missing" ("post " +:+ itoa postID +:+ " not found")
            | Some post =>
                r ← uploadVideoAsPrivateForDelivery d target post workerID;
                match r with inr tt => give tt | inl er => upload_failed d workerID er end
            end
        end
  end.
End Delivery.
