(* ===== verification/YouTubeUploadProps.v ===== *)
(** * What the delivery pool does

    No private upload is made that the quota gate has not counted; a delivery
    whose row nobody else touches is settled; and a write that is lost after an
    upload makes the next worker upload the video again. *)

From S2P Require Import Prelude Store GoError UploadWorld UploadDemo UploadIngest UploadPublish YouTubeUpload.
From S2P Require PostModel PostStore PostReads PublishWorker MediaAssets YouTubeQueue YouTubeQueueProps YouTubeQuota UploadJobs.
From Stdlib Require Import ZArith Lia.
Local Open Scope Z_scope.

(** ** The backoff *)
(** One minute doubled up to half an hour; from attempt 28 on the product
    overflows and the delay is negative. *)
Lemma deliveryRetryBackoff_bounds a : a ≤ 27 → Minute ≤ deliveryRetryBackoff a ≤ 30 * Minute.
Proof.
  intros Ha. assert (H : Forall (λ n, Minute <=? deliveryRetryBackoff (Z.of_nat n) = true ∧
    deliveryRetryBackoff (Z.of_nat n) <=? 30 * Minute = true) (seq 0 28)) by (repeat constructor).
  rewrite Forall_forall in H. destruct (Z.ltb_spec a 0).
  - replace (deliveryRetryBackoff a) with (deliveryRetryBackoff 0); [split; by vm_compute|].
    unfold deliveryRetryBackoff. assert (a <? 0 = true) as -> by by apply Z.ltb_lt. done.
  - destruct (H (Z.to_nat a)) as [H1 H2]; [apply elem_of_seq; lia|]. rewrite Z2Nat.id in H1, H2 by done. lia.
Qed.
Example backoff_overflows : deliveryRetryBackoff 28 = -2340616713709551616.
Proof. reflexivity. Qed.

(** ** Uploads and the quota *)
Definition is_upload (c : Call) : bool := match c with CallUpload _ _ _ _ => true | _ => false end.
Definition uploads (l : list Call) : Z := Z.of_nat (length (List.filter is_upload l)).
Lemma uploads_app l c : uploads (l ++ [c]) = uploads l + if is_upload c then 1 else 0.
Proof. unfold uploads. rewrite List.filter_app, length_app. cbn. destruct (is_upload c); cbn; lia. Qed.
(** The others keep the table within the limits and never take a unit back. *)
Definition counts_on (L : string → Z) (f : Databases → Databases) : Prop := ∀ d,
  YouTubeQuota.quota_ok L (quotadb d) → YouTubeQuota.quota_ok L (quotadb (f d)) ∧
  ∀ day b, YouTubeQuota.units (quotadb d) day b ≤ YouTubeQuota.units (quotadb (f d)) day b.

Section Spending.
Context (D : Deps) (e : Env) (L : string → Z) (limits : YouTubeQuota.YouTubeQuotaLimits).
Context (Hquota : quota D = Some limits) (Hl : YouTubeQuota.within L limits).
Context (Hmeanwhile : ∀ h, counts_on L (meanwhile D h)).
Let today := quotaDayKey D (app_now e).
Definition counted (w : World) : Z := YouTubeQuota.units (quotadb (dbs w)) today "video_uploads".
(** [k] units more were counted than uploads were made. *)
Definition spends (k : Z) (w w' : World) : Prop := YouTubeQuota.quota_ok L (quotadb (dbs w)) →
  YouTubeQuota.quota_ok L (quotadb (dbs w')) ∧
  (∀ day b, YouTubeQuota.units (quotadb (dbs w)) day b ≤ YouTubeQuota.units (quotadb (dbs w')) day b) ∧
  uploads (log w') - uploads (log w) + k ≤ counted w' - counted w.
Lemma spends_refl w : spends 0 w w.
Proof. intros H. split; [done|]. split; [done|lia]. Qed.
Lemma spends_trans j k a b c : spends j a b → spends k b c → spends (j + k) a c.
Proof.
  intros H1 H2 Ha. destruct (H1 Ha) as (Hb & M1 & S1). destruct (H2 Hb) as (Hc & M2 & S2).
  split; [done|]. split; [intros day b'; specialize (M1 day b'); specialize (M2 day b'); lia|lia].
Qed.
Lemma spends_same k w w' : k ≤ 0 → quotadb (dbs w') = quotadb (dbs w) → log w' = log w → spends k w w'.
Proof. unfold spends, counted. intros Hk -> -> H. split; [done|]. split; [done|lia]. Qed.
Lemma spends_outside h c w : spends (if is_upload c then -1 else 0) w (mkWorld (meanwhile D h (dbs w)) (log w ++ [c])).
Proof using Hmeanwhile.
  intros H. destruct (Hmeanwhile h _ H) as [H1 H2]. split; [done|]. split; [done|].
  unfold counted. cbn [log dbs]. rewrite uploads_app. specialize (H2 today "video_uploads"). destruct (is_upload c); lia.
Qed.

Definition spending {A} (k : A → Z) (m : W A) : Prop := ∀ w, runs e m w (λ a w', spends (k a) w w').
#[local] Instance spends_preorder : PreOrder (spends 0).
Proof. split; [exact spends_refl|]. intros a b c. exact (spends_trans 0 0 a b c). Qed.
Notation quiet m := (always (spends 0) e m).
Lemma spending_quiet {A} (m : W A) : quiet m → spending (λ _, 0) m.
Proof. done. Qed.
Lemma spending_weaken {A} (j k : A → Z) m : (∀ a, k a ≤ j a) → spending j m → spending k m.
Proof.
  intros H Hm w. eapply runs_weaken; [apply Hm|]. intros a w' Hs Hw. destruct (Hs Hw) as (H1 & H2 & H3).
  split; [done|]. split; [done|]. specialize (H a). lia.
Qed.
Lemma spending_bind {A B} (j : A → Z) (k : B → Z) (m : W A) (f : A → W B) :
  spending j m → (∀ a, spending (λ b, k b - j a) (f a)) → spending k (m ≫= f).
Proof.
  intros Hm Hf w. apply runs_bind. eapply runs_weaken; [apply Hm|]. intros a w1 H1.
  eapply runs_weaken; [apply Hf|]. intros b w2 H2. replace (k b) with (j a + (k b - j a)) by lia. eapply spends_trans; [exact H1|exact H2].
Qed.
Lemma quiet_outside {A} c (f : list Call → A) : is_upload c = false → quiet (outside D c f).
Proof using Hmeanwhile. intros Hc w. apply runs_outside. pose proof (spends_outside (log w) c w) as H. by rewrite Hc in H. Qed.
Lemma quiet_pubs {A} (m : M YouTubeQueue.PubDB A) : quiet (try (on_pubs m)).
Proof. intros w. apply runs_try. intros. by apply spends_same. Qed.
Lemma quiet_posts {A} (m : M PostStore.PostDB A) : quiet (try (on_posts m)).
Proof. intros w. apply runs_try. intros. by apply spends_same. Qed.
Lemma quiet_assets {A} (m : M MediaAssets.AssetDB A) : quiet (try (on_assets m)).
Proof. intros w. apply runs_try. intros. by apply spends_same. Qed.
Lemma quiet_record b : quiet (try (on_quota (YouTubeQuota.RecordError (quotaDayKey D) limits b))).
Proof using Hl.
  intros w. apply runs_try. intros n r t n' Hr Hw. unfold compose in Hr.
  destruct (YouTubeQuota.RecordError_step (quotaDayKey D) L limits b e _ n Hl Hw) as [K1 K2].
  rewrite Hr in K1, K2. split; [done|]. split; [done|]. unfold counted.
  specialize (K2 today "video_uploads"). cbn in *. lia.
Qed.
Lemma quiet_quota_answer w : runs e (try (on_quota (YouTubeQuota.ReserveOperation (quotaDayKey D) (next_midnight D)
    limits "videos.insert"))) w (λ r w', spends (match r with inr (true, _) => 1 | _ => 0 end) w w').
Proof using Hl.
  apply runs_try. intros n r t n' Hr Hw. unfold compose in Hr.
  destruct (YouTubeQuota.ReserveOperation_step (quotaDayKey D) (next_midnight D) L limits "videos.insert" e _ n Hl Hw)
    as (K1 & K2 & K3). rewrite Hr in K1, K2, K3. split; [done|]. split; [done|]. unfold counted.
  specialize (K2 today "video_uploads"). destruct r as [er|[[] retry]]; [cbn in *; lia| |cbn in *; lia].
  specialize (K3 retry "video_uploads" 1 eq_refl eq_refl). fold today in K3. cbn in *. lia.
Qed.
#[local] Hint Resolve quiet_outside quiet_pubs quiet_posts quiet_assets quiet_record : always.
Lemma quiet_fail_delivery {A} d worker code msg : quiet (failYouTubeDelivery d worker code msg : G A).
Proof using Hmeanwhile. unfold failYouTubeDelivery. solve_always. Qed.
Lemma quiet_renew id : quiet (RenewYouTubeToken D id).
Proof using Hmeanwhile. unfold RenewYouTubeToken. solve_always. Qed.
#[local] Hint Resolve quiet_fail_delivery quiet_renew : always.
Lemma quiet_token d account worker : quiet (delivery_token D d account worker).
Proof using Hmeanwhile. unfold delivery_token. solve_always. Qed.
Lemma quiet_binding d account b token worker : quiet (check_binding D d account b token worker).
Proof using Hmeanwhile. unfold check_binding, handleTargetBlockedAuth. solve_always. Qed.
Lemma quiet_media post : quiet (delivery_media D post).
Proof. unfold delivery_media. solve_always. Qed.
Lemma quiet_failed d worker er : quiet (upload_failed D d worker er).
Proof. unfold upload_failed. solve_always. Qed.
#[local] Hint Resolve quiet_token quiet_binding quiet_media quiet_failed : always.
(** The gate pays for the upload behind it. *)
Lemma gate_spends d worker target post token url :
  quiet (do allowed <- delivery_quota D d worker;
         if negb (allowed : bool) then give tt else insert_private D d target post token url worker).
Proof using Hquota Hl Hmeanwhile.
  change (spending (λ _, 0) (do allowed <- delivery_quota D d worker;
    if negb (allowed : bool) then give tt else insert_private D d target post token url worker)).
  unfold and_then.
  apply spending_bind with (j := λ r : GoErr + bool, match r with inr true => 1 | _ => 0 end).
  - unfold delivery_quota. rewrite Hquota. unfold and_then.
    apply spending_bind with (j := λ r : GoErr + bool * Z, match r with inr (true, _) => 1 | _ => 0 end).
    + intros w. unfold store. apply runs_bind. eapply runs_weaken; [apply quiet_quota_answer|].
      intros [er|[[] retry]] w' H; by apply runs_ret.
    + intros [er|[[] retry]]; [intros w; apply runs_ret, spends_refl..|].
      eapply spending_bind; [apply spending_quiet, always_ask, _|]. intros now. cbv zeta.
      eapply spending_bind; [apply spending_quiet, quiet_pubs|]. intros r w. apply runs_ret, spends_refl.
  - intros [er|[]]; cbn [negb]; [intros w; apply runs_ret, spends_refl| |intros w; apply runs_ret, spends_refl].
    unfold insert_private. rewrite Hquota. apply spending_weaken with (j := λ _, -1); [done|].
    apply spending_bind with (j := λ _, -1); [intros w; apply runs_outside; apply (spends_outside (log w) (CallUpload _ _ _ _))|].
    intros r. apply spending_weaken with (j := λ _, 0); [done|].
    apply spending_quiet. solve_always.
Qed.
#[local] Hint Resolve gate_spends : always.
Lemma quiet_upload d target post worker : quiet (uploadVideoAsPrivateForDelivery D d target post worker).
Proof using Hquota Hl Hmeanwhile. unfold uploadVideoAsPrivateForDelivery. solve_always. Qed.
#[local] Hint Resolve quiet_upload : always.
Lemma quiet_delivery d worker : quiet (processYouTubeDelivery D d worker).
Proof using Hquota Hl Hmeanwhile. unfold processYouTubeDelivery. solve_always. Qed.
End Spending.

(** ** Many deliveries *)
(** One turn of the pool: the others change the databases, then a worker runs a
    claimed row in its environment. *)
Record Turn := mkTurn { others : Databases → Databases; turn_env : Env; row : YouTubeQueue.Pub; turn_worker : string }.
(** The world, and the quota day of every upload that was made. *)
Definition deliver (D : Deps) (s : World * list string) (t : Turn) : World * list string :=
  let w := mkWorld (others t (dbs s.1)) (log s.1) in
  let w' := state_of (processYouTubeDelivery D (Some (row t)) (turn_worker t) (turn_env t) (w, O)) in
  (w', repeat (quotaDayKey D (app_now (turn_env t))) (Z.to_nat (uploads (log w') - uploads (log w))) ++ s.2).
Definition on_day (day : string) (l : list string) : Z :=
  Z.of_nat (length (List.filter (λ d, bool_decide (d = day)) l)).
Lemma on_day_repeat day d n l : on_day day (repeat d n ++ l) = (if bool_decide (d = day) then Z.of_nat n else 0) + on_day day l.
Proof.
  induction n as [|n IH]; cbn [repeat app]; [by case_bool_decide|].
  revert IH. unfold on_day. cbn [List.filter]. case_bool_decide as E; cbn [length]; intros IH; lia.
Qed.
Section Turns.
Context (D : Deps) (L : string → Z) (limits : YouTubeQuota.YouTubeQuotaLimits).
Context (Hquota : quota D = Some limits) (Hl : YouTubeQuota.within L limits).
Context (Hmeanwhile : ∀ h, counts_on L (meanwhile D h)).
Definition within_quota (s : World * list string) : Prop := YouTubeQuota.quota_ok L (quotadb (dbs s.1)) ∧
  ∀ day, on_day day s.2 ≤ YouTubeQuota.units (quotadb (dbs s.1)) day "video_uploads".
Lemma deliver_within s t : counts_on L (others t) → within_quota s → within_quota (deliver D s t).
Proof using Hquota Hl Hmeanwhile.
  intros Ho [Hok Hs]. destruct (Ho _ Hok) as [Hok1 Hm1]. unfold deliver. cbv zeta. set (w := mkWorld _ _).
  pose proof (quiet_delivery D (turn_env t) L limits Hquota Hl Hmeanwhile (Some (row t)) (turn_worker t) w O) as H.
  destruct (processYouTubeDelivery _ _ _ _ _) as [[?|r] [w' n']]; [done|]. destruct (H Hok1) as (H1 & H2 & H3).
  cbn [state_of fst snd]. split; [done|]. intros day. cbn [fst snd]. rewrite on_day_repeat.
  specialize (Hs day). specialize (Hm1 day "video_uploads"). specialize (H2 day "video_uploads"). unfold counted in H3.
  subst w. cbn [dbs log fst snd] in *. case_bool_decide as E; [subst day|]; lia.
Qed.
End Turns.

(** C12: no upload without quota.  Whatever rows the pool is given, in whatever
    environments and with whatever lost statements, and whatever the others do short
    of taking back counted units: on every quota day the uploads that were sent to
    YouTube are covered by units of the bucket [video_uploads], so there are
    at most as many as the largest limit a manager was given. *)
Theorem uploads_within_quota (D : Deps) (L : string → Z) (limits : YouTubeQuota.YouTubeQuotaLimits)
    (turns : list Turn) (w : World) (day : string)
    (Hquota : quota D = Some limits) (Hl : YouTubeQuota.within L limits)
    (Hmeanwhile : ∀ h, counts_on L (meanwhile D h)) (Hothers : Forall (λ t, counts_on L (others t)) turns)
    (Hstart : YouTubeQuota.quota_ok L (quotadb (dbs w))) :
  let '(w', made) := foldl (deliver D) (w, []) turns in
  on_day day made ≤ YouTubeQuota.units (quotadb (dbs w')) day "video_uploads" ≤ L "video_uploads".
Proof.
  assert (0 ≤ L "video_uploads") as H0.
  { destruct (Hl "video_uploads" _ eq_refl). by etrans. }
  assert (within_quota L (w, [])) as Hw.
  { split; [done|]. intros d. cbn. unfold YouTubeQuota.units.
    destruct (quotadb (dbs w) !! (d, "video_uploads")) as [r|] eqn:E; [|done]. apply (Hstart _ _ _ E). }
  revert Hw. generalize ((w, []) : World * list string). intros s Hw. revert s Hw.
  induction Hothers as [|t turns Ht Hts IH]; intros s Hw; cbn [foldl].
  - destruct s as [w' made]. destruct Hw as [Hok Hs]. split; [apply Hs|]. unfold YouTubeQuota.units.
    destruct (quotadb (dbs _) !! _) as [r|] eqn:E; [|done]. specialize (Hok _ _ _ E). cbn. lia.
  - apply IH. by eapply deliver_within.
Qed.

(** ** How a delivery ends *)
Inductive Outcome :=
| Skipped                                (* the row was uploaded before *)
| Uploaded (videoID : string)
| Parked (until : Z)                     (* no quota today *)
| Blocked                                (* the channel is not the account's *)
| Retried (er : GoErr) (code : string)   (* counted as an attempt *)
| GivenBack (er : GoErr).                (* the worker is stopped *)
Definition outcome_result (o : Outcome) : GoErr + unit :=
  match o with Retried er _ | GivenBack er => inl er | _ => inr tt end.
(** How many uploads were sent. *)
Definition outcome_uploads (o : Outcome) : list Z :=
  match o with Skipped | Parked _ | Blocked => [0] | Uploaded _ => [1] | Retried _ _ | GivenBack _ => [0; 1] end.
Definition fields (o : Outcome) (e : Env) (d q : YouTubeQueue.Pub) : Prop :=
  let x := YouTubeQueue.queue d in
  let y := YouTubeQueue.queue q in
  let attempts := YouTubeQueue.AttemptCount in
  match o with
  | Skipped | GivenBack _ => YouTubeQueue.State y = YouTubeQueue.State x ∧ attempts y = attempts x
  | Uploaded v => YouTubeQueue.State y = "youtube_uploaded" ∧ attempts y = attempts x + 1 ∧
      YouTubeQueue.YouTubeVideoID (YouTubeQueue.video q) = Some v ∧ is_uploaded q = true
  | Parked t => YouTubeQueue.State y = "quota_wait" ∧ attempts y = attempts x ∧ YouTubeQueue.NextAttemptAt y = Some t
  | Blocked => YouTubeQueue.State y = "failed" ∧ attempts y = attempts x + 1 ∧
      YouTubeQueue.LastErrorCode y = Some "blocked_auth"
  | Retried _ code =>
      YouTubeQueue.State y = (if YouTubeQueue.MaxAttempts x <=? attempts x + 1 then "dead_letter" else "retry_wait") ∧
      attempts y = attempts x + 1 ∧ YouTubeQueue.LastErrorCode y = Some code ∧
      YouTubeQueue.NextAttemptAt y = Some (app_now e + deliveryRetryBackoff (attempts x))
  end.
(** The row after a delivery: nobody holds it. *)
Record settled_row (o : Outcome) (e : Env) (d q : YouTubeQueue.Pub) : Prop := {
  sr_owner : YouTubeQueue.LeaseOwner (YouTubeQueue.queue q) = None;
  sr_lease : YouTubeQueue.LeaseExpiresAt (YouTubeQueue.queue q) = None;
  sr_video : match o with Uploaded _ => True | _ => YouTubeQueue.video q = YouTubeQueue.video d end;
  sr_fields : fields o e d q
}.

Section Settling.
Context (D : Deps) (e : Env) (d : YouTubeQueue.Pub) (worker : string).
Context (Hrel : reliable e) (Howner : YouTubeQueue.LeaseOwner (YouTubeQueue.queue d) = Some worker).
Notation row_of w := (YouTubeQueue.pubs (pubdb (dbs w)) !! YouTubeQueue.ID d).
Context (Hpeer : ∀ h x, YouTubeQueue.pubs (pubdb (meanwhile D h x)) !! YouTubeQueue.ID d =
                        YouTubeQueue.pubs (pubdb x) !! YouTubeQueue.ID d).
(** The row and the number of uploads stay. *)
Definition still (w w' : World) : Prop := row_of w' = row_of w ∧ uploads (log w') = uploads (log w).
#[local] Instance still_preorder : PreOrder still.
Proof. split; [done|]. intros a b c [H1 H2] [H3 H4]. split; congruence. Qed.
Lemma still_outside {A} c (f : list Call → A) : is_upload c = false → always still e (outside D c f).
Proof using Hpeer.
  intros Hc w. apply runs_outside. split; cbn [dbs log]; [apply Hpeer|]. rewrite uploads_app, Hc. lia.
Qed.
Lemma still_posts {A} (m : M PostStore.PostDB A) : always still e (try (on_posts m)).
Proof. intros w. by apply runs_try. Qed.
Lemma still_assets {A} (m : M MediaAssets.AssetDB A) : always still e (try (on_assets m)).
Proof. intros w. by apply runs_try. Qed.
Lemma still_quota {A} (m : M YouTubeQuota.QuotaDB A) : always still e (try (on_quota m)).
Proof. intros w. by apply runs_try. Qed.
#[local] Hint Resolve still_outside still_posts still_assets still_quota : always.

(** A write of the worker to the row. *)
Lemma write_held op f w (Q : err + unit → World → Prop) : row_of w = Some d →
  (∀ w', row_of w' = Some (f e d) → uploads (log w') = uploads (log w) → Q (inr tt) w') →
  runs e (try (on_pubs (YouTubeQueue.exec_pub op (YouTubeQueue.ID d) (YouTubeQueue.owned_by worker) f))) w Q.
Proof using Hrel Howner.
  intros Hrow HQ. apply runs_try. intros n r t n' H. unfold compose in *.
  assert (Ho : YouTubeQueue.owned_by worker d = true) by by apply bool_decide_eq_true.
  unfold YouTubeQueue.exec_pub, YouTubeQueue.update_pub, YouTubeQueue.checkRowsAffected, mbind, M_bind in H.
  rewrite exec_fine in H by done. cbn [fst snd] in H. rewrite (update_row_hit _ _ _ _ _ Hrow Ho) in H.
  cbn [fst snd] in H. rewrite rows_fine in H by done. cbn in H. injection H as <- <- _.
  apply HQ; [|done]. apply lookup_insert_eq.
Qed.
Lemma write_lost op f w q (Q : err + unit → World → Prop) : row_of w = Some q →
  YouTubeQueue.LeaseOwner (YouTubeQueue.queue q) = None → (∀ er w', still w w' → Q (inl er) w') →
  runs e (try (on_pubs (YouTubeQueue.exec_pub op (YouTubeQueue.ID d) (YouTubeQueue.owned_by worker) f))) w Q.
Proof using Hrel.
  intros Hrow Hq HQ. apply runs_try. intros n r t n' H. unfold compose in *.
  assert (Ho : ∀ p, YouTubeQueue.pubs (pubdb (dbs w)) !! YouTubeQueue.ID d = Some p → YouTubeQueue.owned_by worker p = false).
  { rewrite Hrow. intros p [= <-]. apply bool_decide_eq_false. by rewrite Hq. }
  unfold YouTubeQueue.exec_pub, YouTubeQueue.update_pub, YouTubeQueue.checkRowsAffected, mbind, M_bind in H.
  rewrite exec_fine in H by done. cbn [fst snd] in H.
  rewrite update_row_miss in H by done.
  cbn [fst snd] in H. rewrite rows_fine in H by done. cbn in H. injection H as <- <- _. apply HQ. by split.
Qed.

Definition finished (o : Outcome) (w w' : World) : Prop :=
  ∃ q, row_of w' = Some q ∧ settled_row o e d q ∧ uploads (log w') - uploads (log w) ∈ outcome_uploads o.
(** An error leaves the row to [upload_failed], or was counted before. *)
Definition open_or_retried (w : World) : Prop :=
  row_of w = Some d ∨ ∃ q code, row_of w = Some q ∧ ∀ er, settled_row (Retried er code) e d q.
Lemma still_finished o w w1 w2 : still w w1 → finished o w1 w2 → finished o w w2.
Proof. intros [_ H] (q & Hq & Hs & Hu). exists q. split; [done|]. split; [done|]. by rewrite <- H. Qed.
Lemma settled_finished o w w' q : row_of w' = Some q → settled_row o e d q →
  uploads (log w') = uploads (log w) → 0 ∈ outcome_uploads o → finished o w w'.
Proof. intros Hq Hs Hu Ho. exists q. split; [done|]. split; [done|]. rewrite Hu, Z.sub_diag. done. Qed.

Lemma mark_failed_spec code msg w (Q : err + unit → World → Prop) : row_of w = Some d →
  (∀ w', uploads (log w') = uploads (log w) →
     (∃ q, row_of w' = Some q ∧ ∀ er, settled_row (Retried er code) e d q) → Q (inr tt) w') →
  runs e (try (on_pubs (YouTubeQueue.MarkDeliveryFailed (YouTubeQueue.ID d) worker code msg
    (app_now e + deliveryRetryBackoff (YouTubeQueue.AttemptCount (YouTubeQueue.queue d)))))) w Q.
Proof using Hrel Howner.
  intros Hrow HQ. apply write_held; [done|]. intros w' Hr Hu. apply HQ; [done|]. eexists. by split.
Qed.
Lemma fail_delivery_spec {A} code msg w : row_of w = Some d →
  runs e (failYouTubeDelivery d worker code msg : G A) w (λ r w',
    (∃ er, r = inl er) ∧ uploads (log w') = uploads (log w) ∧
    ∃ q, row_of w' = Some q ∧ ∀ er, settled_row (Retried er code) e d q).
Proof using Hrel Howner.
  intros Hrow. unfold failYouTubeDelivery. repeat runs_step.
  apply mark_failed_spec; [done|]. intros w' Hu Hq. runs_step. split; [by eexists|done].
Qed.
Lemma renew_still id : always still e (RenewYouTubeToken D id).
Proof using Hpeer. unfold RenewYouTubeToken. solve_always. Qed.
Lemma media_still post : always still e (delivery_media D post).
Proof. unfold delivery_media. solve_always. Qed.
Lemma token_spec account w : row_of w = Some d → runs e (delivery_token D d account worker) w (λ r w',
  match r with
  | inr _ => still w w'
  | inl _ => uploads (log w') = uploads (log w) ∧ open_or_retried w'
  end).
Proof using Hrel Howner Hpeer.
  intros Hrow. unfold delivery_token. runs_step. eapply runs_weaken; [apply renew_still|].
  intros [er|token] w1 H; [|by apply runs_ret]. pose proof H as [H1 H2]. destruct (_ || _).
  - eapply runs_weaken; [apply fail_delivery_spec; by rewrite H1|]. intros r w' ([er' ->] & Hu & q & Hq & Hs).
    split; [by rewrite Hu|]. right. by exists q, "blocked_auth".
  - runs_step. split; [done|]. left. by rewrite H1.
Qed.
(** Why a delivery is blocked. *)
Definition mismatch : Prop := ∃ h token user er,
  validate_binding D h token user = Some er ∧ Is er "ErrYouTubeChannelMismatch" = true.
Lemma binding_spec account b token w : row_of w = Some d →
  runs e (check_binding D d account b token worker) w (λ r w',
    match r with inr None => mismatch ∧ finished Blocked w w' | _ => still w w' end).
Proof using Hrel Howner Hpeer.
  intros Hrow. unfold check_binding. destruct (negb b); [by apply runs_ret|]. cbv zeta. runs_step.
  apply runs_outside. set (w1 := mkWorld _ _).
  assert (H1 : still w w1).
  { split; [apply Hpeer|]. unfold w1. cbn [log]. rewrite uploads_app. cbn. lia. }
  destruct (validate_binding D _ _ _) as [er|] eqn:Hb; [|by apply runs_ret].
  destruct (Is er _) eqn:Hm; [|by apply runs_ret]. unfold handleTargetBlockedAuth. do 2 runs_step.
  pose proof H1 as [Hr1 Hu1]. apply write_held; [by rewrite Hr1|]. intros w2 Hr2 Hu2. runs_step.
  eapply runs_weaken; [apply still_posts|]. intros r w3 [Hr3 Hu3]. repeat runs_step.
  split; [by exists (log w), token, (PublishWorker.acc_PlatformUserID account), er|].
  eexists. split; [cbn [dbs]; rewrite Hpeer, Hr3; exact Hr2|]. split; [by split|].
  cbn [log]. rewrite uploads_app, Hu3, Hu2, Hu1. cbn. replace (_ - _) with 0 by lia. left.
Qed.
Lemma quota_spec w : row_of w = Some d → runs e (delivery_quota D d worker) w (λ r w',
  match r with inr false => quota D ≠ None ∧ ∃ t, finished (Parked t) w w' | _ => still w w' end).
Proof using Hrel Howner Hpeer.
  intros Hrow. unfold delivery_quota. destruct (quota D) as [limits|]; [|by apply runs_ret].
  runs_step. eapply runs_weaken; [apply (always_store still); apply still_quota|].
  intros [er|[[] retry]] w1 H; [done|by apply runs_ret|]. pose proof H as [H1 H2]. repeat runs_step.
  apply write_held; [by rewrite H1|]. intros w2 Hr2 Hu2. runs_step. split; [done|]. eexists.
  eapply settled_finished; [exact Hr2|by split|by rewrite Hu2|left].
Qed.
(** The video that was inserted. *)
Definition inserted post (v : string) : Prop := v ≠ "" ∧ ∃ h url, insert_video D h post url (YouTubeQueue.NativePublishAt d) = inr v.
Lemma insert_spec target post token url w : row_of w = Some d →
  runs e (insert_private D d target post token url worker) w (λ r w',
    match r with
    | inr _ => ∃ v, inserted post v ∧ finished (Uploaded v) w w'
    | inl _ => row_of w' = Some d ∧ uploads (log w') = uploads (log w) + 1
    end).
Proof using Hrel Howner Hpeer.
  intros Hrow. unfold insert_private. do 2 runs_step. set (w1 := mkWorld _ _).
  assert (Hr1 : row_of w1 = Some d) by (unfold w1; cbn [dbs]; by rewrite Hpeer).
  assert (Hu1 : uploads (log w1) = uploads (log w) + 1) by (unfold w1; cbn [log]; by rewrite uploads_app).
  destruct (insert_video D _ _ _ _) as [er|v] eqn:Hv.
  - runs_step. apply runs_weaken with (Q := λ _ w2, still w1 w2).
    + destruct (quota D); [|by apply runs_ret]. apply (always_bind still); [apply still_quota|]. intros r. apply always_ret, _.
    + intros _ w2 [H1 H2]. runs_step. split; congruence.
  - case_bool_decide as Hne; [by runs_step|]. unfold store. runs_step.
    unfold YouTubeQueue.MarkDeliveryUploaded. rewrite bool_decide_false by done.
    apply write_held; [done|]. intros w2 Hr2 Hu2. runs_step. exists v. split; [split; [done|by eexists _, _]|].
    eexists. split; [exact Hr2|]. split; [by split|]. rewrite Hu2, Hu1. replace (_ - _) with 1 by lia. left.
Qed.

Definition reason post (o : Outcome) : Prop :=
  match o with
  | Skipped => is_uploaded d = true
  | Uploaded v => inserted post v
  | Parked _ => quota D ≠ None
  | Blocked => mismatch
  | Retried _ _ | GivenBack _ => True
  end.
Context (Hyt : yt_store D = true) (Hnot : is_uploaded d = false).
Context (Haccount : ∀ h a, find_account D h (YouTubeQueue.PlatformAccountID d) = inr (Some a) →
  PublishWorker.acc_Platform a = PublishWorker.PlatformYouTube).
Lemma upload_spec target post w : row_of w = Some d →
  runs e (uploadVideoAsPrivateForDelivery D d target post worker) w (λ r w',
    match r with
    | inr _ => ∃ o, outcome_result o = inr tt ∧ reason post o ∧ finished o w w'
    | inl _ => uploads (log w') - uploads (log w) ∈ [0; 1] ∧ open_or_retried w'
    end).
Proof using Hrel Howner Hpeer Hyt Hnot Haccount.
  intros Hrow. unfold uploadVideoAsPrivateForDelivery. rewrite Hyt, Hnot. cbn [negb].
  assert (Herr : ∀ w', still w w' → uploads (log w') - uploads (log w) ∈ [0; 1] ∧ open_or_retried w').
  { intros w' [H1 H2]. split; [rewrite H2, Z.sub_diag; left|left; by rewrite H1]. }
  case_match; [by apply runs_ret, Herr|]. case_match; [by apply runs_ret, Herr|].
  do 2 runs_step. set (w1 := mkWorld _ _).
  assert (H1 : still w w1).
  { split; [apply Hpeer|]. unfold w1. cbn [log]. rewrite uploads_app. cbn. lia. }
  destruct (find_account D _ _) as [er|[account|]] eqn:Ha; [by apply runs_ret, Herr| |by apply runs_ret, Herr].
  cbv zeta. rewrite (bool_decide_true _ (Haccount _ _ Ha)). cbn [negb].
  destruct (capability D _) as [[[oauth binder] uploader]|]; [|by apply runs_ret, Herr].
  destruct (negb oauth); [by apply runs_ret, Herr|]. runs_step.
  eapply runs_weaken; [apply token_spec; destruct H1 as [H1 _]; by rewrite H1|].
  intros [er|token] w2 H2.
  { destruct H2 as [H2 Ho]. split; [|done]. rewrite H2. destruct H1 as [_ H1]. rewrite H1, Z.sub_diag. left. }
  assert (H02 : still w w2) by by etrans. runs_step.
  eapply runs_weaken; [apply binding_spec; destruct H02 as [H02 _]; by rewrite H02|].
  intros [er|[token'|]] w3 H3; [apply Herr; by etrans| |].
  2:{ runs_step. destruct H3 as [Hm H3]. exists Blocked. split; [done|]. split; [done|]. by eapply still_finished. }
  assert (H03 : still w w3) by by etrans. destruct (negb uploader); [by runs_step; apply Herr|]. runs_step.
  eapply runs_weaken; [apply media_still|]. intros [er|url] w4 H4; [apply Herr; by etrans|].
  assert (H04 : still w w4) by by etrans. runs_step.
  eapply runs_weaken; [apply quota_spec; destruct H04 as [H04 _]; by rewrite H04|].
  intros [er|[]] w5 H5; cbn [negb]; [apply Herr; by etrans| |].
  2:{ runs_step. destruct H5 as [Hq [t H5]]. exists (Parked t). split; [done|]. split; [done|]. by eapply still_finished. }
  assert (H05 : still w w5) by by etrans.
  eapply runs_weaken; [apply insert_spec; destruct H05 as [H05 _]; by rewrite H05|].
  intros [er|[]] w6 H6.
  - destruct H6 as [H6 H7]. split; [|by left]. rewrite H7. destruct H05 as [_ ->].
    replace (_ - _) with 1 by lia. right. left.
  - destruct H6 as (v & Hv & H6). exists (Uploaded v). split; [done|]. split; [done|]. by eapply still_finished.
Qed.
Lemma failed_spec er w0 w : uploads (log w) - uploads (log w0) ∈ [0; 1] → open_or_retried w →
  runs e (upload_failed D d worker er) w (λ r w', ∃ o, r = outcome_result o ∧
    (o = GivenBack er ∨ ∃ code, o = Retried er code) ∧ finished o w0 w').
Proof using Hrel Howner.
  intros Hu Ho. unfold upload_failed. do 2 runs_step.
  assert (Hend : ∀ w' o, (o = GivenBack er ∨ ∃ code, o = Retried er code) → uploads (log w') = uploads (log w) →
    (∃ q, row_of w' = Some q ∧ settled_row o e d q) → ∃ o, inl er = outcome_result o ∧
      (o = GivenBack er ∨ ∃ code, o = Retried er code) ∧ finished o w0 w').
  { intros w' o Hc Hw (q & Hq & Hs). exists o. split; [by destruct Hc as [->|[? ->]]|]. split; [done|]. exists q.
    split; [done|]. split; [done|]. rewrite Hw. by destruct Hc as [->|[? ->]]. }
  destruct Ho as [Hrow|(q & code & Hq & Hs)].
  - destruct (_ || _); repeat runs_step.
    + apply write_held; [done|]. intros w' Hr Hw. runs_step. apply (Hend _ (GivenBack er)); [by left|done|].
      eexists. split; [exact Hr|by split].
    + apply mark_failed_spec; [done|]. intros w' Hw (q & Hq & Hs). runs_step.
      apply (Hend _ (Retried er "upload_failed")); [right; by eexists|done|by exists q].
  - destruct (_ || _); repeat runs_step; (eapply write_lost; [exact Hq|apply (Hs er)|]); intros er' w' [Hr Hw];
      runs_step; (apply (Hend _ (Retried er code)); [right; by eexists|done|]); exists q; by rewrite Hr.
Qed.
End Settling.

Section Delivery.
Context (D : Deps) (e : Env) (d : YouTubeQueue.Pub) (worker : string).
Context (Hrel : reliable e) (Howner : YouTubeQueue.LeaseOwner (YouTubeQueue.queue d) = Some worker).
Context (Hpeer : ∀ h x, YouTubeQueue.pubs (pubdb (meanwhile D h x)) !! YouTubeQueue.ID d =
                        YouTubeQueue.pubs (pubdb x) !! YouTubeQueue.ID d).
Context (Hyt : yt_store D = true) (Hposts : delivery_posts D = true).
Context (Haccount : ∀ h a, find_account D h (YouTubeQueue.PlatformAccountID d) = inr (Some a) →
  PublishWorker.acc_Platform a = PublishWorker.PlatformYouTube).
Lemma read_posts {A} s op (f : PostStore.PostDB → A) w (Q : GoErr + A → World → Prop) :
  (∀ a w', still d w w' → Q (inr a) w') → runs e (store s (on_posts (exec op (λ _ db, (f db, db))))) w Q.
Proof using Hrel.
  intros HQ. apply runs_store. intros n r t n'. rewrite exec_fine by done. intros [= <- <- _]. by apply HQ.
Qed.
Lemma delivery_spec w : YouTubeQueue.pubs (pubdb (dbs w)) !! YouTubeQueue.ID d = Some d →
  runs e (processYouTubeDelivery D (Some d) worker) w (λ r w', ∃ o post,
    r = outcome_result o ∧ reason D d post o ∧ finished e d o w w').
Proof using Hrel Howner Hpeer Hyt Hposts Haccount.
  intros Hrow. unfold processYouTubeDelivery. rewrite Hyt. cbn [negb]. cbv zeta.
  set (nobody := PostModel.mkPost 0 0 "" "" "" None None None "" "" None 0 None "" None "" 0 0 0).
  destruct (is_uploaded d) eqn:Hup.
  { unfold store. runs_step. apply (write_held e d worker Hrel Howner); [done|]. intros w' Hr Hu. runs_step.
    exists Skipped, nobody. split; [done|]. split; [done|].
    eapply settled_finished; [exact Hr|by split|done|left]. }
  rewrite Hposts. cbn [negb]. runs_step. apply read_posts. intros [target|] w1 [Hr1 Hu1].
  2:{ eapply runs_weaken; [apply (fail_delivery_spec e d worker Hrel Howner); by rewrite Hr1|].
      intros r w' ([er ->] & Hu & q & Hq & Hs). exists (Retried er "target_missing"), nobody. split; [done|]. split; [done|].
      eapply settled_finished; [exact Hq|apply Hs|congruence|left]. }
  cbv zeta. runs_step. apply read_posts. intros [post|] w2 [Hr2 Hu2].
  2:{ eapply runs_weaken; [apply (fail_delivery_spec e d worker Hrel Howner); by rewrite Hr2, Hr1|].
      intros r w' ([er ->] & Hu & q & Hq & Hs). exists (Retried er "post_missing"), nobody. split; [done|]. split; [done|].
      eapply settled_finished; [exact Hq|apply Hs|congruence|left]. }
  assert (H2 : still d w w2) by (split; congruence).
  runs_step. eapply runs_weaken; [apply (upload_spec D e d worker Hrel Howner Hpeer Hyt Hup Haccount target post); by rewrite Hr2, Hr1|].
  intros [er|[]] w3 H3.
  - destruct H3 as [H3 H4]. eapply runs_weaken; [apply (failed_spec D e d worker Hrel Howner er w); [|exact H4]|].
    + destruct H2 as [_ H2]. by rewrite <- H2.
    + intros r w4 (o & -> & Ho & Hf). exists o, post. split; [done|]. split; [|done]. by destruct Ho as [->|[? ->]].
  - runs_step. destruct H3 as (o & Ho & Hwhy & Hf). exists o, post. split; [done|]. split; [done|]. by eapply still_finished.
Qed.
End Delivery.


(** ** A delivery from the source to YouTube *)
Definition or_keep {A B} (r : (err + A) * (World * nat)) (k : A → World → B) (none : B) : B :=
  match r with (inr a, (w, _)) => k a w | _ => none end.
Definition demo_custom (renewed video : GoErr + string) (limit : option Z) : Deps :=
  let D := demo_deps 200 video in
  mkDeps (sources D) (delivery_verifier D) (storage D) (query_order D) (uuid_in D) (random D) (new_request D)
    (put_object D) (head_object D) (prober D) (retention_days D) (yt_store D) (delivery_posts D) (find_account D)
    (find_accounts D) (json_publish_snapshots D) (capability D) (λ _ _ _, renewed) (validate_binding D) (mark_reauth D)
    (resolver D) ((λ l, YouTubeQuota.mkLimits l 100 10000) <$> limit) (quotaDayKey D) (next_midnight D)
    (insert_video D) (cancelled D) (meanwhile D).
Definition demo_with : GoErr + string → option Z → Deps := demo_custom (inr "token").
Definition demo_ingested : World := state_of (processIngestJob (demo_with (inr "") None)
  (demo_job "velox_artifact" [4; 2] "ingest-1" None) "ingest-1" (demo_env 200)
  (demo_world (demo_job "velox_artifact" [4; 2] "ingest-1" None), O)).
Definition demo_published : World :=
  or_keep (on_jobs (UploadJobs.ClaimBatchForPublish "publish-1" 3 Minute) (demo_env 300) (demo_ingested, O))
    (λ l w, match l with
            | [j] => state_of (processPublishJob (demo_with (inr "") None) j "publish-1" (demo_env 300) (w, O))
            | _ => w
            end) demo_ingested.
(** The rows that the pool claims, and the world with the claim. *)
Definition demo_claim (t : Z) (w : World) : list YouTubeQueue.Pub * World :=
  or_keep (on_pubs (YouTubeQueue.ClaimReadyDeliveries "delivery-1" 3 Minute) (demo_env t) (w, O)) pair ([], w).
Definition demo_claimed : World := (demo_claim 400 demo_published).2.
Definition demo_row : YouTubeQueue.Pub :=
  YouTubeQueue.set_queue (YouTubeQueue.mkQueue "uploading" 0 8 None (Some "delivery-1") (Some (400 + Minute)) (Some 400)
    None "" None 400)
  (YouTubeQueue.mkPub 1 1 1 4 "unlisted" None None 100 None None None 0
    (YouTubeQueue.mkVideo None "youtube_uploading" None None None None) (YouTubeQueue.mkEditing None None None None)
    (YouTubeQueue.mkQueue "uploading" 0 8 None None None None None "" None 0) 300 300).
Lemma demo_row_claimed : demo_claim 400 demo_published = ([demo_row], demo_claimed) ∧
  YouTubeQueue.pubs (pubdb (dbs demo_claimed)) !! 1 = Some demo_row.
Proof. vm_compute. split; reflexivity. Qed.
Definition demo_delivery_run (video : GoErr + string) (limit : option Z) (e : Env) : (err + (GoErr + unit)) * (World * nat) :=
  processYouTubeDelivery (demo_with video limit) (Some demo_row) "delivery-1" e (demo_claimed, O).
Lemma demo_youtube video limit h a :
  find_account (demo_with video limit) h (YouTubeQueue.PlatformAccountID demo_row) = inr (Some a) →
  PublishWorker.acc_Platform a = PublishWorker.PlatformYouTube.
Proof. intros [= <-]. reflexivity. Qed.

(** Two channels on a day with room for one upload: the second is not sent. *)
Definition demo_turn (t : Z) : Turn :=
  mkTurn (λ d, mkDatabases (intake d) (assetdb d) (postdb d) (pubdb (dbs demo_claimed)) (quotadb d)) (demo_env t)
    demo_row "delivery-1".
Definition demo_turns : list Turn := [demo_turn 500; demo_turn 600].
Lemma uploads_within_quota_witness :
  let '(w', made) := foldl (deliver (demo_with (inr "v1") (Some 1))) (demo_claimed, []) demo_turns in
  made = ["0"] ∧ YouTubeQueue.State <$> (YouTubeQueue.queue <$> YouTubeQueue.pubs (pubdb (dbs w')) !! 1) = Some "quota_wait" ∧
  on_day "0" made ≤ 1.
Proof.
  pose proof (uploads_within_quota (demo_with (inr "v1") (Some 1))
    (λ b, if bool_decide (b = "video_uploads") then 1 else 10000) (YouTubeQuota.mkLimits 1 100 10000) demo_turns
    demo_claimed "0" eq_refl) as H.
  destruct (foldl (deliver (demo_with (inr "v1") (Some 1))) (demo_claimed, []) demo_turns) as [w' made] eqn:E.
  assert (Hm : (let '(w', made) := foldl (deliver (demo_with (inr "v1") (Some 1))) (demo_claimed, []) demo_turns in
    (made, YouTubeQueue.State <$> (YouTubeQueue.queue <$> YouTubeQueue.pubs (pubdb (dbs w')) !! 1))) =
    (["0"], Some "quota_wait")) by (vm_compute; reflexivity).
  rewrite E in Hm. injection Hm as Hm Hq. split; [exact Hm|]. split; [exact Hq|].
  destruct H as [H1 H2].
  - intros b v. unfold YouTubeQuota.forBucket. repeat case_bool_decide; intros [= <-]; subst; split; by vm_compute.
  - intros h d Hd. split; [exact Hd|intros day b; reflexivity].
  - do 2 (apply Forall_cons; split; [intros d Hd; split; [exact Hd|intros day b; reflexivity]|]). apply Forall_nil. exact I.
  - intros day b r Hr. vm_compute in Hr. discriminate Hr.
  - etrans; [exact H1|exact H2].
Defined.

(** The write after the upload is lost: the next claim of the row uploads the video
    again. *)
Definition lost_mark : World :=
  let run := demo_delivery_run (inr "v1") None (demo_env 500) in
  state_of (demo_delivery_run (inr "v1") None
    (mkEnv 500 500 (λ n, if bool_decide (n = run.2.2 - 2)%nat then Lost else Fine) (λ _, false) (λ _, false) "")).
Example lost_mark_uploads_twice :
  let '(rows, w) := demo_claim Hour lost_mark in
  YouTubeQueue.LastErrorCode ∘ YouTubeQueue.queue <$> rows = [Some "upload_failed"] ∧
  uploads (log w) = 1 ∧
  (∀ d, rows = [d] →
    let again := processYouTubeDelivery (demo_with (inr "v2") None) (Some d) "delivery-1" (demo_env Hour) (w, O) in
    result_of again = inr (inr tt) ∧ uploads (log (state_of again)) = 2).
Proof.
  destruct (demo_claim Hour lost_mark) as [rows w] eqn:E.
  assert (H : (let '(rows, w) := demo_claim Hour lost_mark in
    (YouTubeQueue.LastErrorCode ∘ YouTubeQueue.queue <$> rows, uploads (log w),
     (λ d, let again := processYouTubeDelivery (demo_with (inr "v2") None) (Some d) "delivery-1" (demo_env Hour) (w, O) in
       (result_of again, uploads (log (state_of again)))) <$> rows)) =
    ([Some "upload_failed"], 1, [(inr (inr tt), 2)])) by (vm_compute; reflexivity).
  rewrite E in H. injection H as H1 H2 H3. split; [exact H1|]. split; [exact H2|].
  intros d ->. injection H3 as H3 H4. by split.
Qed.

(** A request that runs into its deadline is taken for a stopped worker: the row is
    given back as [uploading] without a lease, and no later claim finds it. *)
Definition timed_out : World :=
  state_of (demo_delivery_run (inl (Errorf_w "Put chunk" (leaf DDeadline))) None (demo_env 500)).
Example timeout_strands_delivery :
  (λ p, (YouTubeQueue.State (YouTubeQueue.queue p), YouTubeQueue.LeaseOwner (YouTubeQueue.queue p))) <$>
    YouTubeQueue.pub_rows (pubdb (dbs timed_out)) = [("uploading", None)] ∧
  (demo_claim (1000 * Hour) timed_out).1 = [] ∧
  result_of (on_pubs (YouTubeQueue.ReclaimExpiredDeliveryLeases 100) (demo_env (1000 * Hour)) (timed_out, O)) = inr 0.
Proof. vm_compute. repeat split. Qed.
(** A revoked grant is retried like any other failure. *)
Example revoked_grant_is_retried :
  let D := demo_custom (inl (leaf (DSentinel "ErrInvalidGrant" "oauth: invalid_grant"))) (inr "v1") None in
  let w := state_of (processYouTubeDelivery D (Some demo_row) "delivery-1" (demo_env 500) (demo_claimed, O)) in
  (λ p, (YouTubeQueue.State (YouTubeQueue.queue p), YouTubeQueue.LastErrorCode (YouTubeQueue.queue p),
         YouTubeQueue.NextAttemptAt (YouTubeQueue.queue p))) <$> YouTubeQueue.pub_rows (pubdb (dbs w)) =
  [("retry_wait", Some "blocked_auth", Some (500 + Minute))].
Proof. vm_compute. reflexivity. Qed.
