(* ===== verification/UploadDrive.v ===== *)
(** * Uploads from Drive never reach their media

    The ingest pool stores the asset under a key with a fresh UUID
    ([pending_asset]); for every source but Velox the publish pool names another
    fresh key in the post ([post_of]).  The resolver wants the asset with the id
    and the key of the post: there is none. *)

From S2P Require Import Prelude Store GoError UploadWorld UploadDemo UploadIngest UploadPublish YouTubeUpload.
From S2P Require PostModel PostStore PostStoreProps PostReads UploadPublishProps MediaAssets MediaProps Storage UploadJobs YouTubeQueue YouTubeUploadProps.
From Stdlib Require Import ZArith Lia.
Local Open Scope Z_scope.

(** A resolved asset is one of the asset of the post, under the key of the post. *)
Lemma resolved_row uuid_in order p q ttl e adb n url w id : PostModel.post_MediaAssetID q = Some id → id ≠ "" →
  MediaAssets.ResolvePostMedia uuid_in order p (Some q) ttl e (adb, n) = (inr (inr url), w) →
  ∃ i (r : MediaAssets.AssetRow), MediaAssets.assets adb !! i = Some r ∧ uuid_in id = Some (MediaAssets.ID r) ∧
    (default "" (PostModel.post_StorageObjectKey q) ≠ "" →
     MediaAssets.UploadKey r = default "" (PostModel.post_StorageObjectKey q)).
Proof.
  intros Hid Hne Hrun. pose proof (MediaProps.repository_laws uuid_in) as L. unfold MediaAssets.ResolvePostMedia in Hrun.
  apply MediaProps.resolve_owned in Hrun as (a & (i & r & Hr & Hs & _) & _ & Href & _).
  pose proof (MediaProps.scan_inr _ _ Hs) as (_ & HI & _ & HK & _). exists i, r. split; [done|].
  unfold MediaProps.refers in Href. rewrite Hid in Href. cbn [default] in Href.
  rewrite bool_decide_false in Href by (by intros [? _]). destruct Href as (H1 & H2 & _).
  rewrite <- HI, <- HK. split; [by apply H1|done].
Qed.
(** The media columns that a new post gets are read back. *)
Lemma created_media p l db n e r db1 n1 q e2 m w : PostStoreProps.db_ok db → PostStoreProps.outbox_fresh db →
  PostStore.post_of_job (PostModel.post_UploadJobID p) db = None →
  PostStore.Create p l e (db, n) = (inr r, (db1, n1)) →
  PostReads.FindByID (PostModel.post_ID r.1) e2 (db1, m) = (inr (Some q), w) → PostStoreProps.same_media q p.
Proof.
  intros Hok Hob Hnew Hrun Hread.
  destruct (PostStoreProps.Create_body_triple db p l Hok Hob _ _ _ _ _ Hrun) as [Hc|He].
  - destruct Hc as (_ & Hid & _ & (q0 & Hq & _ & _ & _ & Hs) & _).
    apply exec_inr in Hread as (_ & _ & Hread). cbn [fst] in Hread. injection Hread as Hread _.
    rewrite Hid, Hq, lookup_insert_eq in Hread. injection Hread as <-. exact Hs.
  - destruct He as (_ & q0 & Hq & _). by rewrite Hnew in Hq.
Qed.

(** A job that is not from Velox makes a post whose media cannot be found.  The
    publish pool draws a new UUID for the key it writes into the post, so that key is
    not the key the ingest pool stored the asset under, and whenever the resolver is
    asked for the media of the post, whatever is lost and however often it is
    asked, it never answers with a URL: no delivery of the job reaches YouTube. *)
Theorem drive_media_unresolvable (D : Deps) (job : UploadJobs.UploadJob) (assetID : string) (b1 b2 : list Z)
    (db : PostStore.PostDB) (n : nat) (e : Env) (r : PostModel.Post * list PostStore.NewTarget)
    (db1 : PostStore.PostDB) (n1 : nat) (e2 : Env) (m : nat) (q : PostModel.Post) (w2 : PostStore.PostDB * nat)
    (adb : MediaAssets.AssetDB) (id : string) (row : MediaAssets.AssetRow)
    (Hsource : UploadJobs.SourceType (UploadJobs.Spec job) ≠ UploadJobSourceVeloxArtifact)
    (Hrandom : length b1 = 16%nat ∧ length b2 = 16%nat ∧ Forall Storage.is_byte b1 ∧ Forall Storage.is_byte b2 ∧
               Storage.newUUID4 b1 ≠ Storage.newUUID4 b2)
    (Hok : PostStoreProps.db_ok db) (Hob : PostStoreProps.outbox_fresh db)
    (Hnew : PostStore.post_of_job (Some (UploadJobs.ID job)) db = None)
    (Hcreate : PostStore.Create (post_of D job assetID (Storage.BuildUploadKey b2
       (UploadJobs.UserID (UploadJobs.Spec job)) (UploadJobs.SourceID (UploadJobs.Spec job))))
       (targets_of job) e (db, n) = (inr r, (db1, n1)))
    (Hread : PostReads.FindByID (PostModel.post_ID r.1) e2 (db1, m) = (inr (Some q), w2))
    (Hassets : MediaProps.assets_ok adb) (Hid : uuid_in D assetID = Some id) (Hne : assetID ≠ "")
    (Hrow : MediaAssets.assets adb !! id = Some row)
    (Hkey : MediaAssets.UploadKey row = MediaAssets.UploadKey (pending_asset D job (Storage.BuildUploadKey b1
       (UploadJobs.UserID (UploadJobs.Spec job)) (UploadJobs.SourceID (UploadJobs.Spec job))) "" 0 0)) :
  ∀ e3 k ttl url w, MediaAssets.ResolvePostMedia (uuid_in D) (query_order D) (storage D) (Some q) ttl e3 (adb, k) ≠
    (inr (inr url), w).
Proof.
  intros e3 k ttl url w Hrun. destruct Hrandom as (L1 & L2 & B1 & B2 & Hdiff).
  pose proof (created_media (post_of D job assetID _) _ _ _ _ _ _ _ _ _ _ _ Hok Hob Hnew Hcreate Hread) as (_ & Hi & Hk & _).
  cbn in Hi, Hk. rewrite bool_decide_false in Hk by done.
  apply (resolved_row _ _ _ _ _ _ _ _ _ _ assetID) in Hrun as (i & a & Ha & Hu & Hak); [|done|done].
  rewrite Hk in Hak. cbn [default] in Hak. rewrite Hid in Hu. injection Hu as ->.
  rewrite (MediaProps.ao_ids _ Hassets _ _ Ha) in Hrow. rewrite Ha in Hrow. injection Hrow as <-.
  apply Hdiff. eapply Storage.BuildUploadKey_inj; [done..|]. cbn in Hkey. rewrite <- Hkey. apply Hak. done.
Qed.

(** A job from Drive, from the source to the failed delivery. *)
Definition drive_job : UploadJobs.UploadJob := demo_job "authenticated_drive" [4; 2] "ingest-1" None.
Definition drive_ingested : World := state_of (processIngestJob (demo_deps 200 (inr "v1")) drive_job "ingest-1"
  (demo_env 200) (demo_world drive_job, O)).
Definition drive_create : (err + (PostModel.Post * list PostStore.NewTarget)) * (PostStore.PostDB * nat) :=
  PostStore.Create (post_of (demo_deps 200 (inr "v1")) drive_job "asset-1" (Storage.BuildUploadKey (repeat 5 16) 7 "clip.mp4"))
    (targets_of drive_job) (demo_env 300) (postdb (dbs drive_ingested), O).
Lemma drive_media_unresolvable_witness : ∃ r db1 n1 q w2 row,
  drive_create = (inr r, (db1, n1)) ∧
  PostReads.FindByID (PostModel.post_ID r.1) (demo_env 400) (db1, O) = (inr (Some q), w2) ∧
  MediaAssets.assets (assetdb (dbs drive_ingested)) !! "asset-1" = Some row ∧
  MediaAssets.Status row = "ready" ∧
  ∀ url w, MediaAssets.ResolvePostMedia (uuid_in (demo_deps 200 (inr "v1"))) (query_order (demo_deps 200 (inr "v1")))
    (storage (demo_deps 200 (inr "v1"))) (Some q) Hour (demo_env 400) (assetdb (dbs drive_ingested), O) ≠ (inr (inr url), w).
Proof.
  destruct drive_create as [[er|r] [db1 n1]] eqn:Hc; [vm_compute in Hc; discriminate Hc|].
  assert (Hq : ∃ q w2, PostReads.FindByID (PostModel.post_ID r.1) (demo_env 400) (db1, O) = (inr (Some q), w2)).
  { vm_compute in Hc. injection Hc as <- <- <-. eexists _, _. vm_compute. reflexivity. }
  destruct Hq as (q & w2 & Hq).
  destruct (MediaAssets.assets (assetdb (dbs drive_ingested)) !! "asset-1") as [row|] eqn:Hrow;
    [|vm_compute in Hrow; discriminate Hrow].
  exists r, db1, n1, q, w2, row. split; [reflexivity|]. split; [exact Hq|]. split; [reflexivity|].
  assert (Hrow' := Hrow). vm_compute in Hrow'. injection Hrow' as Hrow'. split; [rewrite <- Hrow'; reflexivity|].
  assert (Hp : postdb (dbs drive_ingested) = postdb (demo_dbs UploadPublishProps.publish_job)) by (vm_compute; reflexivity).
  assert (Hdb : MediaAssets.assets (assetdb (dbs drive_ingested)) = {["asset-1" := row]})
    by (rewrite <- Hrow'; vm_compute; reflexivity).
  intros url w. apply (drive_media_unresolvable (demo_deps 200 (inr "v1")) drive_job "asset-1" (repeat 2 16) (repeat 5 16)
    (postdb (dbs drive_ingested)) O (demo_env 300) r db1 n1 (demo_env 400) O q w2 (assetdb (dbs drive_ingested)) "asset-1" row).
  - discriminate.
  - do 2 (split; [reflexivity|]). do 2 (split; [repeat (apply Forall_cons; split; [split; vm_compute; congruence|]); apply Forall_nil; exact I|]).
    vm_compute. discriminate.
  - rewrite Hp. exact (proj1 (proj1 UploadPublishProps.demo_healthy)).
  - rewrite Hp. exact (proj2 (proj1 UploadPublishProps.demo_healthy)).
  - rewrite Hp. reflexivity.
  - exact Hc.
  - exact Hq.
  - assert (Ha : ∀ id a, MediaAssets.assets (assetdb (dbs drive_ingested)) !! id = Some a → id = "asset-1" ∧ a = row).
    { intros id a. rewrite Hdb. intros [<- <-]%lookup_singleton_Some. split; reflexivity. }
    split.
    + intros id a Hx. apply Ha in Hx as [-> ->]. rewrite <- Hrow'. reflexivity.
    + intros i j a b Hx Hy _. apply Ha in Hx as [-> _]. apply Ha in Hy as [-> _]. reflexivity.
    + intros id a Hx _. apply Ha in Hx as [_ ->]. rewrite <- Hrow'. discriminate.
    + intros id a Hx. apply Ha in Hx as [_ ->]. rewrite <- Hrow'. discriminate.
  - reflexivity.
  - discriminate.
  - exact Hrow.
  - rewrite <- Hrow'. vm_compute. reflexivity.
Defined.
