(* ===== verification/UploadPool.v ===== *)
(** * The pools of the upload worker

    [src/internal/worker/upload_worker_lifecycle.go]: what one turn of each loop
    does.  A tick claims a batch and starts a goroutine per row; here the rows are
    run one after the other, each in the environment of its goroutine ([clock_of]),
    and whatever the other goroutines do at the same time is part of [meanwhile],
    as are the heartbeats.  A [select] between a stopped context and a free slot may
    take either ([pick]).  The loops call their ticks forever and only add the
    backoff between empty ones ([next_backoff]). *)

From S2P Require Import Prelude Store GoError UploadErrors UploadWorld UploadIngest UploadPublish YouTubeUpload.
From S2P Require UploadJobs YouTubeQueue.
From Stdlib Require Import ZArith Lia.
Local Open Scope Z_scope.

(* Source: internal/worker/upload_worker.go *)
(* 195-239 UploadWorkerOptions *)
Record UploadWorkerOptions := mkOptions {
  IngestConcurrency : Z;
  UploadConcurrency : Z;
  LeaseTTL : Z;
  HeartbeatInterval : Z;
  ReclaimInterval : Z;
  ReclaimOnStart : bool;
  EmptyQueueBackoffMin : Z;
  EmptyQueueBackoffMax : Z;
  VideoRetentionBufferDays : Z
}.
(* Source: internal/worker/upload_worker_lifecycle.go *)
(** [os.Hostname] and the process id are arguments. *)
(* 24-31 uniqueWorkerID *)
Definition uniqueWorkerID (hostname : err + string) (pid : Z) (uuid prefix : string) : string :=
  let host := match hostname with
              | inr h => if bool_decide (h = "") then "upload-worker" else h
              | inl _ => "upload-worker"
              end in
  prefix +:+ "-" +:+ host +:+ "-" +:+ itoa pid +:+ "-" +:+ String.substring 0 8 uuid.
(* 35-66 UploadWorker.applyDefaults *)
Definition applyDefaults (o : UploadWorkerOptions) : UploadWorkerOptions :=
  let or (v d : Z) := if v <=? 0 then d else v in
  let lease := or (LeaseTTL o) (60 * Second) in
  let lo := or (EmptyQueueBackoffMin o) Second in
  let hi := or (EmptyQueueBackoffMax o) (30 * Second) in
  mkOptions (or (IngestConcurrency o) 3) (or (UploadConcurrency o) 4) lease
    (or (HeartbeatInterval o) (Z.quot lease 3)) (or (ReclaimInterval o) (30 * Second)) (ReclaimOnStart o)
    lo (if hi <? lo then lo else hi) (or (VideoRetentionBufferDays o) 7).
(** The backoff after a tick, and the wait before the next, if any. *)
(* 282-294 UploadWorker.runPoolLoop *)
Definition next_backoff (o : UploadWorkerOptions) (claimed : bool) (backoff : Z) : Z * option Z :=
  if claimed then (EmptyQueueBackoffMin o, None)
  else
    let doubled := wrap64 (backoff * 2) in
    (if EmptyQueueBackoffMax o <? doubled then EmptyQueueBackoffMax o else doubled, Some backoff).

(** How the function of a goroutine ends. *)
Inductive Ended := Returned (r : GoErr + unit) | Panicked (value : string).
(** A computation in the environment of its own. *)
Lemma runs_at_env {A} e e' (m : W A) w Q : runs e' m w Q → runs e (at_env e' m) w Q.
Proof. intros H n. exact (H n). Qed.

Section Pools.
Context (D : Deps) (o : UploadWorkerOptions) (int63n : Z → Z) (clock_of : Z → Env) (pick : list Call → bool).
Definition select_stops : W bool := λ _ w,
  (inr (bool_decide (is_Some (cancelled D (log w.1))) && negb (pick (log w.1))), w).

(** ** Jobs *)
(* 254 processFn *)
Definition processFn : Type := UploadJobs.UploadJob → string → W Ended.
(* 250 claimFn *)
Definition claimFn : Type := Z → Z → M UploadJobs.JobDB (list UploadJobs.UploadJob).
(** A panic buries the job. *)
(* 366-426 UploadWorker.runWithHeartbeat *)
Definition runWithHeartbeat (processor : processFn) (job : UploadJobs.UploadJob) (workerID : string) : G unit :=
  ended ← processor job workerID;
  match ended with
  | Returned r => mret r
  | Panicked r =>
      let id := UploadJobs.ID job in
      let text := "processFn panicked for job " +:+ itoa id +:+ ": " +:+ r in
      _ ← try (on_jobs (UploadJobs.MarkDeadLetter id workerID "panic" text));
      errorf text
  end.
(** The goroutine of a job; the error is what it logs. *)
(* 322-333 UploadWorker.runPoolTick *)
Definition run_job (poolName workerID : string) (processor : processFn) (job : UploadJobs.UploadJob) : G unit :=
  at_env (clock_of (UploadJobs.ID job)) (
    r ← runWithHeartbeat processor job workerID;
    match r with
    | inr tt => give tt
    | inl er => _ ← on_jobs (handleProcessingError int63n poolName workerID job er); fail er
    end).
(** [None]: not started. *)
(* 316-335 UploadWorker.runPoolTick *)
Fixpoint start_jobs {A} (run : A → G unit) (jobs : list A) : W (bool * list (option (GoErr + unit))) :=
  match jobs with
  | [] => mret (true, [])
  | job :: jobs =>
      stop ← select_stops;
      if stop : bool then mret (false, replicate (S (length jobs)) None)
      else r ← run job; rest ← start_jobs run jobs; mret (rest.1, Some r :: rest.2)
  end.
(** Whether rows were claimed; the rows with the outcomes that are logged. *)
(* 298-336 UploadWorker.runPoolTick *)
Definition runPoolTick (poolName workerID : string) (concurrency : Z) (claimer : claimFn) (processor : processFn) :
    W (bool * list (UploadJobs.UploadJob * option (GoErr + unit))) :=
  r ← try (on_jobs (claimer (if concurrency <=? 0 then 1 else concurrency) (LeaseTTL o)));
  match r with
  | inl _ | inr [] => mret (false, [])
  | inr jobs => t ← start_jobs (run_job poolName workerID processor) jobs; mret (t.1, zip jobs t.2)
  end.
(* 222-231 UploadWorker.runIngestPool *)
Definition ingestTick (workerID : string) : W (bool * list (UploadJobs.UploadJob * option (GoErr + unit))) :=
  runPoolTick "ingest" workerID (IngestConcurrency o) (UploadJobs.ClaimBatch workerID)
    (λ job w, r ← processIngestJob D job w; mret (Returned r)).
(* 235-244 UploadWorker.runUploadPool *)
Definition uploadTick (workerID : string) : W (bool * list (UploadJobs.UploadJob * option (GoErr + unit))) :=
  runPoolTick "upload" workerID (UploadConcurrency o) (UploadJobs.ClaimBatchForPublish workerID)
    (λ job w, r ← processPublishJob D job w; mret (Returned r)).
(** The number is only logged and counted. *)
(* 206-216 UploadWorker.runReclaimerTick *)
Definition runReclaimerTick : W unit := _ ← try (on_jobs (UploadJobs.ReclaimExpiredLeases 100)); mret tt.
(* 99-106 UploadWorker.Run *)
Definition startup_reclaim : W unit :=
  if ReclaimOnStart o then _ ← try (on_jobs (UploadJobs.ReclaimExpiredLeases 10000)); mret tt else mret tt.

(** ** Deliveries *)
(** A panic only becomes an error: the row stays claimed. *)
(* 531-571 UploadWorker.runDeliveryWithHeartbeat *)
Definition runDeliveryWithHeartbeat (processor : YouTubeQueue.Pub → string → W Ended) (workerID : string)
    (d : YouTubeQueue.Pub) : G unit :=
  at_env (clock_of (YouTubeQueue.ID d)) (
    ended ← processor d workerID;
    match ended with
    | Returned r => mret r
    | Panicked r => errorf ("delivery processing panic for delivery " +:+ itoa (YouTubeQueue.ID d) +:+ ": " +:+ r)
    end).
(* 489-521 UploadWorker.runYouTubeDeliveryTick *)
Definition runYouTubeDeliveryTick (workerID : string) : W (bool * list (YouTubeQueue.Pub * option (GoErr + unit))) :=
  let concurrency := if UploadConcurrency o <=? 0 then 1 else UploadConcurrency o in
  r ← try (on_pubs (YouTubeQueue.ClaimReadyDeliveries workerID concurrency (LeaseTTL o)));
  match r with
  | inl _ | inr [] => mret (false, [])
  | inr rows =>
      t ← start_jobs (runDeliveryWithHeartbeat
            (λ d w, r ← processYouTubeDelivery D (Some d) w; mret (Returned r)) workerID) rows;
      mret (t.1, zip rows t.2)
  end.
(** [None]: the pool is not started. *)
(* 441-454 UploadWorker.runYouTubeDeliveryPool *)
Definition deliveryPoolTick (workerID : string) : option (W (bool * list (YouTubeQueue.Pub * option (GoErr + unit)))) :=
  if negb (yt_store D) then None
  else if negb (delivery_posts D) then None
  else Some (runYouTubeDeliveryTick workerID).
(* 577-598 UploadWorker.runDeliveryReclaimerLoop *)
Definition deliveryReclaimerTick : W unit :=
  if negb (yt_store D) then mret tt
  else _ ← try (on_pubs (YouTubeQueue.ReclaimExpiredDeliveryLeases 100)); mret tt.
End Pools.
