(* ===== verification/UploadPoolProps.v ===== *)
(** * What a tick of a pool leaves behind

    Against a database that answers, a goroutine never ends with its job under
    its lease, unless the context was stopped: it has handed the job over, or its
    error was recorded with a retry or a burial. *)

From S2P Require Import Prelude Store GoError UploadErrors UploadWorld UploadDemo UploadIngest UploadPublish UploadPool.
From S2P Require Backoff ErrorClass UploadJobs PostStore MediaAssets YouTubeQueue YouTubeQuota DeliveryIntake ArtifactVerify.
From S2P Require UploadIngestProps UploadPublishProps YouTubeUploadProps.
From Stdlib Require Import ZArith Lia.
Local Open Scope Z_scope.

(** ** Who writes the jobs *)
(** [pres B]: [B] of the job table is not lost. *)
Definition pres (B : UploadJobs.JobDB → Prop) (w w' : World) : Prop := B (jobdb (dbs w)) → B (jobdb (dbs w')).
#[export] Instance pres_preorder B : PreOrder (pres B).
Proof. split; [intros w H; exact H|]. intros a b c H1 H2 H. exact (H2 (H1 H)). Qed.
Section Jobs.
Context (D : Deps) (e : Env) (B : UploadJobs.JobDB → Prop).
Context (HB : ∀ h d, B (jobdb d) → B (jobdb (meanwhile D h d))).
Notation quiet m := (always (pres B) e m).
Lemma jobs_outside {A} c (f : list Call → A) : quiet (outside D c f).
Proof using HB. intros w. apply runs_outside. intros H. by apply HB. Qed.
Lemma pres_same w w' : jobdb (dbs w') = jobdb (dbs w) → pres B w w'.
Proof. unfold pres. by intros ->. Qed.
Lemma jobs_assets {A} (m : M MediaAssets.AssetDB A) : quiet (try (on_assets m)).
Proof. intros w. apply runs_try. intros. by apply pres_same. Qed.
Lemma jobs_posts {A} (m : M PostStore.PostDB A) : quiet (try (on_posts m)).
Proof. intros w. apply runs_try. intros. by apply pres_same. Qed.
Lemma jobs_pubs {A} (m : M YouTubeQueue.PubDB A) : quiet (try (on_pubs m)).
Proof. intros w. apply runs_try. intros. by apply pres_same. Qed.
Lemma jobs_pubs_fk {A} (m : (Z → bool) → M YouTubeQueue.PubDB A) : quiet (try (on_pubs_fk m)).
Proof. intros w. apply UploadPublishProps.runs_try_fk. intros. by apply pres_same. Qed.
Lemma jobs_triple id : quiet (try (on_intake (DeliveryIntake.GetExpectedTripleByUploadJobID id))).
Proof.
  intros w. apply runs_try. intros n r t n' H. unfold pres. enough (t = intake (dbs w)) as -> by done.
  unfold DeliveryIntake.GetExpectedTripleByUploadJobID, compose in H. destruct (id <=? 0); [by injection H as _ <- _|].
  unfold mbind, M_bind, exec, throw, mret, M_ret in H. cbn [fst snd] in H. repeat case_match; by simplify_eq.
Qed.
Lemma jobs_write {A} (m : M UploadJobs.JobDB A) : respects (λ db db', B db → B db') m → quiet (try (on_jobs m)).
Proof. intros Hm w. apply runs_try. intros n r t n' H HBw. specialize (Hm e (jobdb (dbs w)) n HBw). unfold compose in H. by rewrite H in Hm. Qed.
Lemma jobs_exec_owned op rop id w f : (∀ e db j, B db → UploadJobs.jobs db !! id = Some j →
    B (UploadJobs.mkJobDB (<[id := f e j]> (UploadJobs.jobs db)) (UploadJobs.job_serial db))) →
  respects (λ db db', B db → B db') (UploadJobs.exec_owned op rop id w f).
Proof.
  assert (PreOrder (λ db db', B db → B db')) by (split; [intros x Ha; exact Ha|intros a b c H1 H2 Ha; exact (H2 (H1 Ha))]).
  intros Hf. unfold UploadJobs.exec_owned. apply respects_bind; [done| |].
  - apply respects_exec; [done|]. intros e0 db Hb. unfold UploadJobs.owned_update, UploadJobs.on_jobs.
    destruct (update_row id _ _ _) as [[|k] t] eqn:E; cbn [snd].
    + apply update_row_0 in E as [-> _]. by destruct db.
    + apply update_row_1 in E as (j & Hj & _ & -> & _). by apply Hf.
  - intros k. apply respects_bind; [done|apply respects_map_err, respects_rows, _|].
    intros n. case_bool_decide; [apply respects_throw, _|apply respects_ret, _].
Qed.
#[local] Hint Resolve jobs_outside jobs_assets jobs_posts jobs_pubs jobs_pubs_fk jobs_triple : always.

(** *** Every part of a job but its last write *)
Lemma jobs_fail_asset {A} id prefix er : quiet (fail_asset D id prefix er : G A).
Proof. unfold fail_asset, markAssetFailed. solve_always. Qed.
Lemma jobs_fail_reason {A} id reason : quiet (fail_asset_reason D id reason : G A).
Proof. unfold fail_asset_reason, markAssetFailed. solve_always. Qed.
#[local] Hint Resolve jobs_fail_asset jobs_fail_reason : always.
Lemma jobs_probe id key : quiet (probeReadyAsset D id key).
Proof using HB. unfold probeReadyAsset. solve_always. Qed.
Lemma jobs_inspect src job : quiet (inspect_source D src job).
Proof using HB. unfold inspect_source. solve_always. Qed.
Lemma jobs_policy job md size ct : quiet (verification_policy D job md size ct).
Proof. unfold verification_policy. solve_always. Qed.
Lemma jobs_stream id key ct size reader : quiet (stream_asset D id key ct size reader).
Proof using HB. unfold stream_asset. solve_always. Qed.
Lemma jobs_materialize_one job post t : quiet (materializeYouTubeDelivery D job post t).
Proof. unfold materializeYouTubeDelivery. solve_always. Qed.
#[local] Hint Resolve jobs_materialize_one : always.
Lemma jobs_materialize_targets accounts job post l : quiet (materialize_targets D accounts job post l).
Proof. induction l as [|t l IH]; cbn [materialize_targets]; solve_always. Qed.
#[local] Hint Resolve jobs_materialize_targets : always.
Lemma jobs_materialize job l post : quiet (materializeYouTubeDeliveries D job l post).
Proof using HB. unfold materializeYouTubeDeliveries. solve_always. Qed.
End Jobs.

(** ** One job *)
Section Job.
Context (D : Deps) (e : Env) (Hrel : reliable e) (job : UploadJobs.UploadJob) (worker : string).
(** The row is leased by the worker; the heartbeat may have renewed it. *)
Definition held (db : UploadJobs.JobDB) : Prop :=
  ∃ j, UploadJobs.jobs db !! UploadJobs.ID job = Some j ∧ UploadJobs.owned_by worker j = true.
Definition with_row (j : UploadJobs.UploadJob) (db : UploadJobs.JobDB) : UploadJobs.JobDB :=
  UploadJobs.mkJobDB (<[UploadJobs.ID job := j]> (UploadJobs.jobs db)) (UploadJobs.job_serial db).
(** [A]: what the last write achieves and nobody undoes. *)
Context (A : UploadJobs.JobDB → Prop).
Context (Hheld : ∀ h d, held (jobdb d) → held (jobdb (meanwhile D h d))).
Context (HA : ∀ h d, A (jobdb d) → A (jobdb (meanwhile D h d))).
Definition job_end (r : GoErr + unit) (w : World) : Prop :=
  match r with inr _ => A (jobdb (dbs w)) | inl _ => held (jobdb (dbs w)) end.
Lemma write_owned s op rop f w (Q : GoErr + unit → World → Prop) : held (jobdb (dbs w)) →
  (∀ w' j, jobdb (dbs w') = with_row (f e j) (jobdb (dbs w)) → Q (inr tt) w') →
  runs e (store s (on_jobs (UploadJobs.exec_owned op rop (UploadJobs.ID job) worker f))) w Q.
Proof using Hrel.
  intros (j & Hj & Ho) HQ. apply runs_store. intros n r t n' H. unfold compose in H.
  pose proof (UploadJobs.exec_owned_hit op rop (UploadJobs.ID job) worker f e (jobdb (dbs w)) n j Hj Ho Hrel) as [H1 H2].
  rewrite H in H1, H2. cbn in H1, H2. subst r t. by eapply HQ.
Qed.
(** A step before the last write. *)
Lemma before_write {T R} (m : G T) (k : T → G R) w (Q : GoErr + R → World → Prop) :
  always (pres held) e m → held (jobdb (dbs w)) → (∀ er w', held (jobdb (dbs w')) → Q (inl er) w') →
  (∀ a w', held (jobdb (dbs w')) → runs e (k a) w' Q) → runs e (and_then m k) w Q.
Proof using Type.
  intros Hm Hw Herr Hk. apply runs_and_then. eapply runs_weaken; [apply Hm|]. intros [er|a] w' H; auto.
Qed.
#[local] Hint Resolve jobs_outside jobs_assets jobs_posts jobs_pubs jobs_triple jobs_inspect jobs_policy jobs_stream
  jobs_probe jobs_materialize : always.
Section Ingest.
Context (Hmark : ∀ asset size db j, A (with_row (UploadJobs.ingested_job asset size e j) db)).
Lemma ingest_row w : held (jobdb (dbs w)) → runs e (processIngestJob D job worker) w job_end.
Proof using Hrel Hheld HA Hmark.
  intros Hw. unfold processIngestJob. destruct (Resolve _ _) as [src|]; [|by apply runs_ret].
  apply before_write; [eauto with always|done|done|]. intros md w1 H1. unfold import_source. cbv zeta.
  apply before_write; [eauto with always typeclass_instances|done|done|]. intros body w2 H2.
  case_match; [by apply runs_ret|].
  apply before_write; [eauto with always|done|done|]. intros policy w3 H3.
  apply before_write; [eauto with always typeclass_instances|done|done|]. intros reader w4 H4.
  do 2 runs_step. runs_step. runs_step.
  apply before_write; [eauto with always typeclass_instances|by apply Hheld|done|]. intros asset w5 H5. cbv zeta.
  apply before_write; [eauto with always|done|done|]. intros [[reader' ct] size] w6 H6. cbv beta iota.
  apply before_write; [eauto with always typeclass_instances|done|done|]. intros u w7 H7. apply runs_and_then.
  unfold UploadJobs.MarkIngested. case_bool_decide; [by apply runs_store; intros n r t n' [= <- <- <-]|].
  case_bool_decide; [by apply runs_store; intros n r t n' [= <- <- <-]|].
  apply write_owned; [done|]. intros w8 j Hw8. runs_step. eapply runs_weaken; [apply (jobs_probe D e A HA)|].
  intros [] w9 Hw9. apply runs_ret. cbn. apply Hw9. rewrite Hw8. apply Hmark.
Qed.
End Ingest.
Section Publish.
Context (Hprepared : ∀ pid asset db j, A (with_row (UploadJobs.prepared_job pid asset e j) db)).
Context (Hcompleted : ∀ pid asset db j, A (with_row (UploadJobs.completed_job pid asset e j) db)).
Lemma publish_row w : held (jobdb (dbs w)) → runs e (processPublishJob D job worker) w job_end.
Proof using Hrel Hheld Hprepared Hcompleted.
  intros Hw. unfold processPublishJob. cbv zeta. case_bool_decide; [by apply runs_ret|].
  do 2 runs_step. cbv zeta.
  apply before_write; [eauto with always typeclass_instances|by apply Hheld|done|]. intros [post targets] w1 H1. cbv zeta beta iota.
  apply before_write; [eauto with always typeclass_instances|done|done|]. intros u w2 H2. do 2 runs_step.
  apply before_write; [solve_always|done|done|]. intros u' w3 H3.
  destruct (later _ _); (apply write_owned; [done|]); intros w4 j H4; unfold job_end; rewrite H4; auto.
Qed.
End Publish.
End Job.

(** ** The goroutine of a job *)
Lemma handle_returns int63n pool w job er e s : result_of (handleProcessingError int63n pool w job er e s) = inr tt.
Proof.
  unfold handleProcessingError, result_of. destruct (verdict _ _ _); [done|..];
    unfold UploadJobs.ignore, try, mbind, M_bind, ask, mret, M_ret; by repeat case_match; simplify_eq.
Qed.
(** What the failure makes of the row [j] of the claimed [job]. *)
Definition failed_as (int63n : Z → Z) (pool : string) (er : GoErr) (e : Env) (job j : UploadJobs.UploadJob) : UploadJobs.UploadJob :=
  match verdict pool job er with
  | Drop => j
  | Bury => UploadJobs.dead_job (classifyUploadError er) (Error er) e j
  | Retry => UploadJobs.retry_job (classifyUploadError er) (Error er) (app_now e + retry_delay int63n job er) e j
  end.
Lemma handle_held int63n pool w job er e db n j :
  UploadJobs.jobs db !! UploadJobs.ID job = Some j → UploadJobs.owned_by w j = true → reliable e →
  state_of (handleProcessingError int63n pool w job er e (db, n)) = with_row job (failed_as int63n pool er e job j) db.
Proof.
  intros Hj Hw Hrel. unfold handleProcessingError, failed_as, with_row. destruct (verdict pool job er).
  - rewrite insert_id by done. by destruct db.
  - rewrite ignore_try_state. by eapply UploadJobs.exec_owned_hit.
  - unfold mbind, M_bind, ask. rewrite ignore_try_state. by eapply UploadJobs.exec_owned_hit.
Qed.
(** The worker has stopped, or had lost the job before. *)
Definition dropped (er : GoErr) : bool := Is er "ErrUploadJobLeaseLost" || Is er "context.Canceled".
Lemma failed_as_cases int63n pool er e job j : Backoff.Int63n_contract int63n →
  if dropped er then failed_as int63n pool er e job j = j
  else let j' := failed_as int63n pool er e job j in
    UploadJobs.job_owner j' = None ∧ UploadJobs.ErrorMessage (UploadJobs.State j') = Some (Error er) ∧
    (UploadJobs.job_status j' = "dead_letter" ∨ UploadJobs.job_status j' = "retry_wait" ∧
     ∃ d, UploadJobs.NextAttemptAt j' = Some (app_now e + d) ∧ 0 < d).
Proof.
  intros Hr. unfold failed_as, verdict, dropped. destruct (Is er "ErrUploadJobLeaseLost"); [done|].
  destruct (Is er "context.Canceled"); [done|]. cbn [orb]. cbv zeta.
  destruct (is_final pool er); [repeat split; by left|]. destruct (_ <=? _); [repeat split; by left|].
  do 2 (split; [done|]). right. split; [done|]. exists (retry_delay int63n job er). split; [done|].
  pose proof (Backoff.computeUploadBackoff_bounds int63n (UploadJobs.AttemptCount job) Hr) as Hb.
  unfold retry_delay. destruct (Z.ltb_spec 0 (ErrorClass.RetryAfterFromError er)); unfold Second, Hour, Minute in *; lia.
Qed.
Section Goroutine.
Context (int63n : Z → Z) (clock_of : Z → Env) (pool worker : string).
Context (process : UploadJobs.UploadJob → string → G unit) (job : UploadJobs.UploadJob).
Notation e := (clock_of (UploadJobs.ID job)).
Context (Hrel : reliable e) (A : UploadJobs.JobDB → Prop).
Context (Hprocess : ∀ w, held job worker (jobdb (dbs w)) → runs e (process job worker) w (job_end job worker A)).
Definition goroutine_end (r : GoErr + unit) (w : World) : Prop :=
  match r with
  | inr _ => A (jobdb (dbs w))
  | inl er => ∃ j, UploadJobs.owned_by worker j = true ∧
      UploadJobs.jobs (jobdb (dbs w)) !! UploadJobs.ID job = Some (failed_as int63n pool er e job j)
  end.
Lemma run_job_spec e0 w : held job worker (jobdb (dbs w)) →
  runs e0 (run_job int63n clock_of pool worker (λ job w, r ← process job w; mret (Returned r)) job) w goroutine_end.
Proof using Hrel Hprocess.
  intros Hw. unfold run_job. apply runs_at_env. runs_step. unfold runWithHeartbeat. do 2 runs_step.
  eapply runs_weaken; [by apply Hprocess|]. intros r w1 H1. do 2 runs_step. destruct r as [er|[]]; [|by apply runs_ret].
  destruct H1 as (j & Hj & Ho). runs_step. intros n. unfold on_jobs, zoom. cbn [fst snd]. unfold compose.
  pose proof (handle_returns int63n pool worker job er e (jobdb (dbs w1), n)) as Hr.
  pose proof (handle_held int63n pool worker job er e (jobdb (dbs w1)) n j Hj Ho Hrel) as Hs.
  destruct (handleProcessingError _ _ _ _ _ _ _) as [r [t n']]. cbn in Hr, Hs. subst r t. cbn.
  apply runs_ret. exists j. split; [done|]. apply lookup_insert_eq.
Qed.
End Goroutine.

(** ** Other jobs *)
Section Frame.
Context (D : Deps) (job : UploadJobs.UploadJob) (B : UploadJobs.JobDB → Prop).
Context (HB : ∀ h d, B (jobdb d) → B (jobdb (meanwhile D h d))).
Context (Hrow : ∀ db j, B db → B (with_row job j db)).
#[local] Hint Resolve jobs_outside jobs_assets jobs_posts jobs_pubs jobs_triple jobs_inspect jobs_policy jobs_stream
  jobs_probe jobs_materialize : always.
Lemma frame_exec op rop w f : respects (λ db db', B db → B db') (UploadJobs.exec_owned op rop (UploadJobs.ID job) w f).
Proof using Hrow. apply jobs_exec_owned. intros. by apply Hrow. Qed.
Lemma frame_write e s op rop w f :
  always (pres B) e (store s (on_jobs (UploadJobs.exec_owned op rop (UploadJobs.ID job) w f))).
Proof using Hrow. apply (always_store (pres B)), jobs_write, frame_exec. Qed.
Lemma ingest_frame e worker : always (pres B) e (processIngestJob D job worker).
Proof using HB Hrow.
  assert (H : ∀ asset size, always (pres B) e (store "mark ingested"
    (on_jobs (UploadJobs.MarkIngested (UploadJobs.ID job) worker asset size)))).
  { intros asset size. unfold UploadJobs.MarkIngested.
    repeat (case_match; [apply (always_store (pres B)), jobs_write; intros e0 s n Hs; exact Hs|]). apply frame_write. }
  unfold processIngestJob, import_source. solve_always.
Qed.
Lemma publish_frame e worker : always (pres B) e (processPublishJob D job worker).
Proof using HB Hrow.
  pose proof frame_write as H. unfold processPublishJob, UploadJobs.MarkPrepared, UploadJobs.MarkCompleted. solve_always.
Qed.
Lemma handle_frame int63n pool worker er :
  respects (λ db db', B db → B db') (handleProcessingError int63n pool worker job er).
Proof using Hrow.
  assert (PreOrder (λ db db', B db → B db')) by (split; [intros x Hx; exact Hx|intros a b c H1 H2 Ha; exact (H2 (H1 Ha))]).
  unfold handleProcessingError, UploadJobs.ignore. destruct (verdict pool job er); [apply respects_ret, _| |];
    repeat (apply respects_bind; [done|first [apply respects_ask, _|apply respects_try, frame_exec]|intros ?]);
    try (apply respects_ret, _).
Qed.
Lemma run_job_frame int63n clock_of pool worker (process : UploadJobs.UploadJob → string → G unit) e :
  (∀ e, always (pres B) e (process job worker)) →
  always (pres B) e (run_job int63n clock_of pool worker (λ job w, r ← process job w; mret (Returned r)) job).
Proof using Hrow.
  intros Hp w. unfold run_job. apply runs_at_env. revert w. change (always (pres B) (clock_of (UploadJobs.ID job))
    (r ← runWithHeartbeat (λ job w, r ← process job w; mret (Returned r)) job worker;
     match r with
     | inr tt => give tt
     | inl er => _ ← on_jobs (handleProcessingError int63n pool worker job er); fail er
     end)).
  apply always_bind; [apply _| |].
  - unfold runWithHeartbeat. apply always_bind; [apply _| |].
    + apply always_bind; [apply _|apply Hp|]. intros r. apply always_ret, _.
    + intros [r|r]; [apply always_ret, _|]. cbv zeta. apply always_bind; [apply _|apply jobs_write, frame_exec|].
      intros u. apply always_errorf, _.
  - intros [er|[]]; [|apply always_give, _]. apply always_bind; [apply _| |intros u; apply always_fail, _].
    intros w n. unfold on_jobs, zoom, compose. cbn [fst snd].
    pose proof (handle_returns int63n pool worker job er (clock_of (UploadJobs.ID job)) (jobdb (dbs w), n)) as Hr.
    pose proof (handle_frame int63n pool worker er (clock_of (UploadJobs.ID job)) (jobdb (dbs w)) n) as Hf.
    destruct (handleProcessingError _ _ _ _ _ _ _) as [r [t n']]. cbn in Hr, Hf. by subst r.
Qed.
End Frame.

(** ** A tick *)
Lemma runs_both {A} e (m : W A) w (P Q : A → World → Prop) : runs e m w P → runs e m w Q → runs e m w (λ a w', P a w' ∧ Q a w').
Proof. intros HP HQ n. specialize (HP n). specialize (HQ n). destruct (m e (w, n)) as [[?|a] [w' n']]; auto. Qed.
Definition mine (worker : string) (id : Z) (db : UploadJobs.JobDB) : Prop :=
  ∃ j, UploadJobs.jobs db !! id = Some j ∧ UploadJobs.owned_by worker j = true.
#[export] Instance mine_dec worker id db : Decision (mine worker id db).
Proof.
  unfold mine. destruct (UploadJobs.jobs db !! id) as [j|]; [|right; by intros (j & [=] & _)].
  destruct (UploadJobs.owned_by worker j) eqn:E; [left; eauto|right; by intros (j' & [= ->] & ?); congruence].
Defined.
Lemma owned_no_owner worker j : UploadJobs.job_owner j = None → UploadJobs.owned_by worker j = false.
Proof. unfold UploadJobs.owned_by. by intros ->. Qed.
Lemma set_not_mine worker job j db : UploadJobs.owned_by worker j = false → ¬ mine worker (UploadJobs.ID job) (with_row job j db).
Proof. intros Hj (j' & Hj' & Ho). cbn in Hj'. rewrite lookup_insert_eq in Hj'. congruence. Qed.
Lemma mine_other worker id job j db : id ≠ UploadJobs.ID job → mine worker id (with_row job j db) ↔ mine worker id db.
Proof. intros Hne. unfold mine, with_row. cbn. by rewrite lookup_insert_ne. Qed.
(** What the claim took. *)
Lemma claim_mine cand name w limit lease e db n r db' n' : reliable e → UploadJobs.db_ok db →
  (∀ now j, cand now j = true → UploadJobs.job_status j ∈ ["pending"; "retry_wait"; "ingest_completed"]) →
  UploadJobs.claim_batch name w limit lease (UploadJobs.claim_statement cand) e (db, n) = (r, (db', n')) →
  match r with
  | inr js => NoDup (UploadJobs.ID <$> js) ∧ (∀ j, j ∈ js → mine w (UploadJobs.ID j) db') ∧
              ∀ id, mine w id db' → mine w id db ∨ id ∈ UploadJobs.ID <$> js
  | inl _ => db' = db
  end.
Proof.
  intros Hrel Hok Hc Hrun. unfold UploadJobs.claim_batch in Hrun. case_bool_decide; [by injection Hrun as <- <- _|].
  destruct (limit <=? 0).
  { injection Hrun as <- <- _. split; [constructor|]. split; [intros j Hj; by apply elem_of_nil in Hj|by left]. }
  destruct (lease <=? 0); [by injection Hrun as <- <- _|]. unfold mbind, M_bind, ask in Hrun.
  rewrite exec_fine in Hrun by done. pose proof (f_equal fst Hrun) as Hr. pose proof (f_equal (λ x, x.2.1) Hrun) as Hs.
  cbn [fst snd] in Hr, Hs. subst r db'.
  destruct (UploadJobs.claim_statement_taken cand w limit (app_now e + lease) e db Hok) as [H1 H2].
  split; [|split].
  - rewrite H1, <- list_fmap_compose. pose proof (UploadJobs.offered_NoDup cand e db Hok) as Hnd.
    rewrite <- (sort_by_perm UploadJobs.claim_order (UploadJobs.offered cand e db)) in Hnd.
    rewrite <- (take_drop (Z.to_nat limit) (sort_by _ _)), fmap_app in Hnd. by apply NoDup_app in Hnd as (Hnd & _ & _).
  - intros j Hj. destruct (claim_returns cand w limit (app_now e + lease) e db j Hok Hc Hj) as (K1 & K2 & _). by exists j.
  - intros id (j & Hj & Ho). rewrite H2 in Hj. destruct (UploadJobs.jobs db !! id) as [j0|] eqn:E; [|done].
    injection Hj as Hj. case_bool_decide as Hin.
    + right. rewrite H1, <- list_fmap_compose. exact Hin.
    + left. exists j0. by subst j0.
Qed.

Section Tick.
Context (D : Deps) (int63n : Z → Z) (clock_of : Z → Env) (pick : list Call → bool) (pool worker : string).
Context (process : UploadJobs.UploadJob → string → G unit).
Context (Hclocks : ∀ id, reliable (clock_of id)) (Hrandom : Backoff.Int63n_contract int63n).
(** The others neither take the worker's leases nor lease in its name. *)
Context (Hpeer : ∀ h d id, mine worker id (jobdb (meanwhile D h d)) ↔ mine worker id (jobdb d)).
Context (Hframe : ∀ e job B, (∀ h d, B (jobdb d) → B (jobdb (meanwhile D h d))) →
  (∀ db j, B db → B (with_row job j db)) → always (pres B) e (process job worker)).
Context (Hown : ∀ job w, mine worker (UploadJobs.ID job) (jobdb (dbs w)) →
  runs (clock_of (UploadJobs.ID job)) (process job worker) w
    (job_end job worker (λ db, ¬ mine worker (UploadJobs.ID job) db))).
Notation run job := (run_job int63n clock_of pool worker (λ job w, r ← process job w; mret (Returned r)) job).
(** Whether the worker still holds the job. *)
Definition lease_left (id : Z) (outcome : option (GoErr + unit)) (db : UploadJobs.JobDB) : Prop :=
  match outcome with
  | None => (∃ h, is_Some (cancelled D h)) ∧ mine worker id db
  | Some (inl er) => if dropped er then mine worker id db else ¬ mine worker id db
  | Some (inr _) => ¬ mine worker id db
  end.
Lemma run_own e0 job w : mine worker (UploadJobs.ID job) (jobdb (dbs w)) →
  runs e0 (run job) w (λ r w', lease_left (UploadJobs.ID job) (Some r) (jobdb (dbs w'))).
Proof using Hclocks Hrandom Hown.
  intros Hw. eapply runs_weaken.
  { apply (run_job_spec int63n clock_of pool worker process job (Hclocks _) (λ db, ¬ mine worker (UploadJobs.ID job) db)); [|done].
    intros w' Hw'. by apply Hown. }
  intros [er|[]] w' H; [|done]. destruct H as (j & Ho & Hj). cbn.
  pose proof (failed_as_cases int63n pool er (clock_of (UploadJobs.ID job)) job j Hrandom) as Hc. destruct (dropped er).
  - rewrite Hc in Hj. by exists j.
  - destruct Hc as [Hc _]. intros (j' & Hj' & Ho'). rewrite Hj in Hj'. injection Hj' as <-.
    by rewrite (owned_no_owner worker _ Hc) in Ho'.
Qed.
Lemma run_other e0 job B : (∀ h d, B (jobdb d) → B (jobdb (meanwhile D h d))) →
  (∀ db j, B db → B (with_row job j db)) → always (pres B) e0 (run job).
Proof using Hframe. intros H1 H2. apply run_job_frame; [done|]. intros e. by apply Hframe. Qed.
(** What is known of another job stays. *)
Lemma mine_pres e0 job id : id ≠ UploadJobs.ID job →
  always (pres (mine worker id)) e0 (run job) ∧ always (pres (λ db, ¬ mine worker id db)) e0 (run job).
Proof using Hpeer Hframe.
  intros Hne. split; apply run_other.
  - intros h d. by apply Hpeer.
  - intros db j. by apply mine_other.
  - intros h d H1 H2%Hpeer. by apply H1.
  - intros db j H1 H2. apply H1. by apply mine_other in H2.
Qed.
Lemma lease_left_pres e0 job id o : id ≠ UploadJobs.ID job →
  always (pres (lease_left id o)) e0 (run job).
Proof using Hpeer Hframe.
  intros Hne. destruct (mine_pres e0 job _ Hne) as [H1 H2]. unfold lease_left.
  destruct o as [[er|u]|]; [destruct (dropped er); [exact H1|exact H2]|exact H2|].
  intros w. eapply runs_weaken; [apply H1|]. intros r w' H [Hc Hm]. split; [done|]. by apply H.
Qed.
Lemma run_frames e0 job w : runs e0 (run job) w (λ _ w', ∀ id o, id ≠ UploadJobs.ID job →
  lease_left id o (jobdb (dbs w)) → lease_left id o (jobdb (dbs w'))).
Proof using Hpeer Hframe.
  intros n. destruct (run job e0 (w, n)) as [[er|r] [w' n']] eqn:E.
  - destruct (mine_pres e0 job (UploadJobs.ID job + 1) ltac:(lia)) as [H _]. specialize (H w n). by rewrite E in H.
  - intros id o Hne. pose proof (lease_left_pres e0 job id o Hne w n) as H. by rewrite E in H.
Qed.
Lemma select_stops_spec e0 w : runs e0 (select_stops D pick) w (λ b w', w' = w ∧ (b = true → ∃ h, is_Some (cancelled D h))).
Proof.
  intros n. split; [done|]. intros [H _]%andb_true_iff. apply bool_decide_eq_true in H. eauto.
Qed.
Lemma start_jobs_spec e0 jobs : NoDup (UploadJobs.ID <$> jobs) → ∀ w,
  (∀ job, job ∈ jobs → mine worker (UploadJobs.ID job) (jobdb (dbs w))) →
  runs e0 (start_jobs D pick (λ job, run job) jobs) w (λ t w',
    Forall2 (λ job o, lease_left (UploadJobs.ID job) o (jobdb (dbs w'))) jobs t.2 ∧
    ∀ id o, id ∉ UploadJobs.ID <$> jobs → lease_left id o (jobdb (dbs w)) → lease_left id o (jobdb (dbs w'))).
Proof using Hclocks Hrandom Hpeer Hframe Hown.
  induction jobs as [|job jobs IH]; intros Hnd w Hw; cbn [start_jobs].
  { apply runs_ret. split; [constructor|done]. }
  apply NoDup_cons in Hnd as [Hni Hnd]. runs_step. eapply runs_weaken; [apply select_stops_spec|]. intros [] w' [-> Hc].
  - apply runs_ret. split; [|done]. cbn [snd]. apply Forall2_same_length_lookup_2; [by rewrite length_replicate|].
    intros i job' o Hj [-> _]%lookup_replicate. split; [auto|]. apply Hw. by eapply list_elem_of_lookup_2.
  - runs_step. assert (Hw0 : mine worker (UploadJobs.ID job) (jobdb (dbs w))) by (apply Hw; left).
    assert (Hne : ∀ job', job' ∈ jobs → UploadJobs.ID job' ≠ UploadJobs.ID job).
    { intros job' Hj Heq. apply Hni. rewrite <- Heq. apply list_elem_of_fmap. by exists job'. }
    eapply runs_weaken; [apply (runs_both _ _ _ _ _ (run_own e0 job w Hw0) (run_frames e0 job w))|].
    intros r w1 [H1 Hf]. runs_step. eapply runs_weaken; [apply (IH Hnd)|].
    + intros job' Hj. apply (Hf (UploadJobs.ID job') (Some (inl (leaf DCanceled)))); [by apply Hne|]. apply Hw. by right.
    + intros t w2 [H2 Hf2]. apply runs_ret. cbn [snd]. split.
      * constructor; [|done]. by apply Hf2.
      * intros job' o Hn Hl. rewrite fmap_cons, not_elem_of_cons in Hn. destruct Hn as [Hn1 Hn2]. by apply Hf2, Hf.
Qed.
(** The whole tick, for a claim that takes jobs as [claim_mine] says. *)
Definition no_lease_lost (w : World) (t : bool * list (UploadJobs.UploadJob * option (GoErr + unit))) (w' : World) : Prop :=
  (∀ job o, (job, o) ∈ t.2 → lease_left (UploadJobs.ID job) o (jobdb (dbs w'))) ∧
  ∀ id, mine worker id (jobdb (dbs w')) → mine worker id (jobdb (dbs w)) ∨ ∃ job o, (job, o) ∈ t.2 ∧ UploadJobs.ID job = id.
Lemma tick_spec o e concurrency claimer w :
  (∀ limit lease n r db' n', claimer limit lease e (jobdb (dbs w), n) = (r, (db', n')) →
     match r with
     | inr js => NoDup (UploadJobs.ID <$> js) ∧ (∀ j, j ∈ js → mine worker (UploadJobs.ID j) db') ∧
                 ∀ id, mine worker id db' → mine worker id (jobdb (dbs w)) ∨ id ∈ UploadJobs.ID <$> js
     | inl _ => db' = jobdb (dbs w)
     end) →
  runs e (runPoolTick D o int63n clock_of pick pool worker concurrency claimer (λ job w, r ← process job w; mret (Returned r)))
    w (no_lease_lost w).
Proof using Hclocks Hrandom Hpeer Hframe Hown.
  intros Hclaim. unfold runPoolTick. runs_step. apply runs_try. intros n r db' n' Hr. unfold compose in Hr.
  specialize (Hclaim _ _ _ _ _ _ Hr). destruct r as [er|[|job jobs]].
  - subst db'. apply runs_ret. split; [intros job o' Hin; by apply elem_of_nil in Hin|by left].
  - destruct Hclaim as (_ & _ & Hc). apply runs_ret. split; [intros job o' Hin; by apply elem_of_nil in Hin|].
    intros id Hid. apply Hc in Hid as [?|Hid]; [by left|by apply elem_of_nil in Hid].
  - clear Hr. destruct Hclaim as (Hnd & Hm & Hc). revert Hnd Hm Hc. generalize (job :: jobs). clear job jobs. intros jobs Hnd Hm Hc.
    runs_step. eapply runs_weaken; [apply (start_jobs_spec e jobs Hnd); exact Hm|]. intros t w' [H1 H2]. apply runs_ret.
    split; cbn [snd].
    + intros job o' Hin. rewrite Forall2_lookup in H1. apply list_elem_of_lookup in Hin as [i Hi].
      apply lookup_zip_with_Some in Hi as (x & y & [= -> ->] & Hx & Hy). specialize (H1 i). rewrite Hx, Hy in H1.
      by inversion H1.
    + intros id Hid. destruct (decide (id ∈ UploadJobs.ID <$> jobs)) as [Hin|Hni].
      * right. apply list_elem_of_fmap in Hin as (job & -> & Hin). apply list_elem_of_lookup in Hin as [i Hi].
        pose proof (Forall2_length _ _ _ H1) as Hlen.
        destruct (lookup_lt_is_Some_2 t.2 i) as [o' Ho']; [rewrite <- Hlen; by eapply lookup_lt_Some|].
        exists job, o'. split; [|done]. apply list_elem_of_lookup. exists i. apply lookup_zip_with_Some. eauto.
      * left. destruct (decide (mine worker id (jobdb (dbs w)))) as [?|Hn]; [done|]. exfalso.
        assert (Hn' : ¬ mine worker id db') by (intros Hid'; by apply Hc in Hid' as [?|?]).
        by apply (H2 id (Some (inr tt)) Hni Hn').
Qed.
End Tick.

Lemma claimable now j : UploadJobs.ingest_candidate now j = true ∨ UploadJobs.publish_candidate now j = true →
  UploadJobs.job_status j ∈ ["pending"; "retry_wait"; "ingest_completed"].
Proof. apply UploadJobs.candidate_status. Qed.
Section Pools.
Context (D : Deps) (clock_of : Z → Env) (worker : string).
Context (Hclocks : ∀ id, reliable (clock_of id)).
Context (Hpeer : ∀ h d id, mine worker id (jobdb (meanwhile D h d)) ↔ mine worker id (jobdb d)).
Lemma ingest_own job w : mine worker (UploadJobs.ID job) (jobdb (dbs w)) →
  runs (clock_of (UploadJobs.ID job)) (processIngestJob D job worker) w
    (job_end job worker (λ db, ¬ mine worker (UploadJobs.ID job) db)).
Proof using Hclocks Hpeer.
  intros Hw. apply ingest_row; [done|intros h d; apply Hpeer|intros h d H1 H2%Hpeer; by apply H1| |done].
  intros asset size db j. by apply set_not_mine, owned_no_owner.
Qed.
Lemma publish_own job w : mine worker (UploadJobs.ID job) (jobdb (dbs w)) →
  runs (clock_of (UploadJobs.ID job)) (processPublishJob D job worker) w
    (job_end job worker (λ db, ¬ mine worker (UploadJobs.ID job) db)).
Proof using Hclocks Hpeer.
  intros Hw. apply publish_row; [done|intros h d; apply Hpeer| | |done]; intros pid asset db j; by apply set_not_mine, owned_no_owner.
Qed.
End Pools.


(** One pending job, streamed, and refused by the storage. *)
Definition pending_job : UploadJobs.UploadJob :=
  UploadJobs.mkUploadJob 1 (demo_spec "velox_artifact" [4; 2]) UploadJobs.no_session UploadJobs.no_lease
    (UploadJobs.mkJobStatus UploadJobs.UploadJobStatusPending None None None) None None 100 0 None 0 (Some 3) None.
Definition default_options : UploadWorkerOptions := applyDefaults (mkOptions 0 0 0 0 0 false 0 0 0).
Definition tick_run (status : Z) : (err + (bool * list (UploadJobs.UploadJob * option (GoErr + unit)))) * (World * nat) :=
  ingestTick (demo_deps status (inr "")) default_options (λ _, 0) (λ _, demo_env 300) (λ _, true) "ingest-1"
    (demo_env 200) (demo_world pending_job, O).
Definition job_state (w : World) : option (string * option string) :=
  (λ j, (UploadJobs.job_status j, UploadJobs.job_owner j)) <$> UploadJobs.jobs (jobdb (dbs w)) !! 1.
