(* ===== verification/Http.v ===== *)
(** * The HTTP client and the readers of the standard library it is used with

    The responses of [net/http], [io.ReadFull], [strings.SplitN], [fmt.Sscanf]
    with one [%d], [http.ParseTime], and [encoding/json] into a struct.  The
    clients of the providers ([YouTubeResumable], [YouTubePublish]) are written on
    top of them: the remote side is a function of the state of the world, and the
    requests that left are kept in a log. *)

From S2P Require Import Prelude Codec GoError.
From Stdlib Require Import ZArith Lia.
Local Open Scope Z_scope.

(** ** Messages *)
Definition Bytes : Type := list ascii.
Definition text (b : Bytes) : string := String.string_of_list_ascii b.
Definition of_text (s : string) : Bytes := String.list_ascii_of_string s.
(** How the stream of a body ends: [io.EOF], [io.ErrUnexpectedEOF] (the peer
    closed before the announced length), another error. *)
Inductive Ending := AtEOF | AtUnexpectedEOF | AtError (er : GoErr).
Record Response := mkResponse {
  StatusCode : Z;
  ContentLength : Z;               (* -1 when it is unknown *)
  header : list (string * string); (* canonical names, first value *)
  Body : Bytes;
  ending : Ending
}.
Definition Header_Get (r : Response) (name : string) : string :=
  default "" (snd <$> List.find (λ kv, bool_decide (kv.1 = name)) (header r)).
Record Request := mkRequest {
  Method : string;
  URL : string;
  req_header : list (string * string);
  payload : Bytes
}.

(** [io.ReadFull(body, buf)] with [len(buf) = n]: what is read, how the read
    ended, and the rest of the body.  A body that ends in the middle is
    [io.ErrUnexpectedEOF] whatever its own way of ending was, unless that was an
    error. *)
Inductive ReadErr := ReadEOF | ReadUnexpectedEOF | ReadFailed (er : GoErr).
Definition ReadFull (n : nat) (body : Bytes) (e : Ending) : Bytes * option ReadErr * Bytes :=
  if bool_decide (n ≤ length body)%nat then (take n body, None, drop n body)
  else (body,
        Some match e with
             | AtEOF => if bool_decide (body = []) then ReadEOF else ReadUnexpectedEOF
             | AtUnexpectedEOF => ReadUnexpectedEOF
             | AtError er => ReadFailed er
             end, []).

(** ** The client

    [st] is whatever the remote side depends on.  A request that cannot be built
    (its URL does not parse) is not sent. *)
Record World (S : Type) := mkWorld { st : S; sent : list Request }.
Arguments mkWorld {S}. Arguments st {S}. Arguments sent {S}.
Record Client (S : Type) := mkClient {
  Do : Request → S → (GoErr + Response) * S;
  bad_url : string → option GoErr;       (* url.Parse *)
  ctx_Err : S → option GoErr;            (* of the caller's context *)
  wait : Z → S → option GoErr * S;       (* a timer against the context *)
  rand : S → (Z → Z) * S;                (* rand.Int63n *)
  now : S → Z
}.
Arguments Do {S}. Arguments bad_url {S}. Arguments ctx_Err {S}. Arguments wait {S}.
Arguments rand {S}. Arguments now {S}.

Definition H (S A : Type) : Type := World S → (GoErr + A) * World S.
Section Monad.
Context {S : Type}.
Definition give {A} (a : A) : H S A := λ w, (inr a, w).
Definition fail {A} (er : GoErr) : H S A := λ w, (inl er, w).
Definition bind {A B} (m : H S A) (f : A → H S B) : H S B := λ w,
  match m w with (inr a, w') => f a w' | (inl er, w') => (inl er, w') end.
(** The outcome as a value, for the errors that are handled. *)
Definition attempt {A} (m : H S A) : H S (GoErr + A) := λ w, let '(r, w') := m w in (inr r, w').
Definition errorf {A} (msg : string) : H S A := fail (leaf (DNew msg)).
(** [fmt.Errorf("...: %w", err)] around the error of [m]. *)
Definition wrapping {A} (prefix : string) (m : H S A) : H S A := λ w,
  match m w with (inl er, w') => (inl (Errorf_w prefix er), w') | r => r end.
Definition on_st {A} (f : S → A * S) : H S A := λ w,
  let '(a, s') := f (st w) in (inr a, mkWorld s' (sent w)).
Definition asks {A} (f : S → A) : H S A := λ w, (inr (f (st w)), w).

Context (C : Client S).
(** [http.NewRequestWithContext] for a method that is a token. *)
Definition NewRequest (method url : string) (hs : list (string * string)) (p : Bytes) : H S Request :=
  match bad_url C url with
  | Some er => fail er
  | None => give (mkRequest method url hs p)
  end.
Definition send (req : Request) : H S Response := λ w,
  let '(r, s') := Do C req (st w) in (r, mkWorld s' (sent w ++ [req])).
End Monad.
Global Instance H_ret {S} : MRet (H S) := λ A, give.
Global Instance H_bind {S} : MBind (H S) := λ A B f m, bind m f.

(** ** Text *)
(** [strings.SplitN(s, sep, 2)] for a one-byte separator: both parts when it
    occurs. *)
Fixpoint SplitN2 (sep : ascii) (s : string) : option (string * string) :=
  match s with
  | "" => None
  | String a s' =>
      if Ascii.eqb a sep then Some ("", s')
      else '(x, y) ← SplitN2 sep s'; Some (String a x, y)
  end.
(** [len(strings.Split(s, sep)) == 2]: the separator occurs once. *)
Definition Split2 (sep : ascii) (s : string) : option (string * string) :=
  '(x, y) ← SplitN2 sep s; match SplitN2 sep y with None => Some (x, y) | Some _ => None end.
(** [fmt.Sscanf(s, "%d", &x)] for an [int64]: blanks, a sign and digits; what
    follows them is not looked at. *)
Definition blank_runes : list string := List.filter (λ w, negb (bool_decide (w = bytes [10%N]))) space_runes.
Definition Sscanf_d (s : string) : err + Z :=
  match trim_left blank_runes s with
  | "" => inl (errors_new "unexpected EOF")
  | String a _ as s =>
      if bool_decide (a = ascii_of_N 10) then inl (errors_new "unexpected newline")
      else
        let '(sign, r) := optional (is_char [43; 45]%N s) s in
        match span_digits r with
        | ("", "") => inl (errors_new "unexpected EOF")
        | ("", _) => inl (errors_new "expected integer")
        | (d, _) =>
            match ParseInt (sign +:+ d) with
            | (z, None) => inr z
            | (_, Some e) => inl (num_error "ParseInt" (sign +:+ d) e)
            end
        end
  end.
Example Sscanf_d_ex :
  Sscanf_d <$> ["41"; " +7x"; "-3"; ""; "x"; "9223372036854775808"] =
  [inr 41; inr 7; inr (-3); inl (errors_new "unexpected EOF"); inl (errors_new "expected integer");
   inl (num_error "ParseInt" "9223372036854775808" ErrRange)] ∧
  SplitN2 ":" "a:b:c" = Some ("a", "b:c") ∧ Split2 ":" "a:b:c" = None.
Proof. vm_compute. done. Qed.

(** ** [base64.StdEncoding]: the other alphabet, and padding *)
Fixpoint map_bytes (f : ascii → ascii) (s : string) : string :=
  match s with "" => "" | String a s' => String (f a) (map_bytes f s') end.
Definition Std_EncodeToString (s : string) : string :=
  let e := map_bytes (λ a, if Ascii.eqb a "-" then "+"%char else if Ascii.eqb a "_" then "/"%char else a)
             (EncodeToString s) in
  e +:+ match (String.length e mod 4)%nat with 2%nat => "==" | 3%nat => "=" | _ => "" end.
Definition drop_last (s : string) : string := String.substring 0 (String.length s - 1) s.
Definition ends_with_pad (s : string) : bool := String.eqb (String.substring (String.length s - 1) 1 s) "=".
Definition Std_DecodeString (s : string) : option string :=
  let s := drop_line_breaks s in
  if negb (bool_decide (String.length s mod 4 = 0)%nat) then None
  else
    let s := if ends_with_pad s then let s := drop_last s in if ends_with_pad s then drop_last s else s else s in
    if existsb (λ a, bool_decide (a ∈ ["-"; "_"; "="]%char)) (String.list_ascii_of_string s) then None
    else DecodeString (map_bytes (λ a, if Ascii.eqb a "+" then "-"%char else if Ascii.eqb a "/" then "_"%char else a) s).
Example Std_ex :
  Std_EncodeToString <$> ["a"; "ab"; "abc"; bytes [251; 255]%N] = ["YQ=="; "YWI="; "YWJj"; "+/8="] ∧
  Std_DecodeString <$> ["YQ=="; "YWI="; "YWJj"; "+/8="; "YQ"; "YQ="; "-_8="; "===="] =
  [Some "a"; Some "ab"; Some "abc"; Some (bytes [251; 255]%N); None; None; None; None].
Proof. vm_compute. done. Qed.

(** ** [http.ParseTime]: RFC 1123 in GMT, RFC 850, ANSI C

    Names are compared without regard to case; the day of the week is not
    compared with the date.  A zone abbreviation is taken for UTC, which is what
    [time.Parse] does with one that is not the local zone's. *)
Definition short_days : list string := ["Sun"; "Mon"; "Tue"; "Wed"; "Thu"; "Fri"; "Sat"].
Definition long_days : list string :=
  ["Sunday"; "Monday"; "Tuesday"; "Wednesday"; "Thursday"; "Friday"; "Saturday"].
Definition short_months : list string :=
  ["Jan"; "Feb"; "Mar"; "Apr"; "May"; "Jun"; "Jul"; "Aug"; "Sep"; "Oct"; "Nov"; "Dec"].
(** The index of the first name that is a prefix. *)
Fixpoint lookup_name (i : Z) (names : list string) (s : string) : option (Z * string) :=
  match names with
  | [] => None
  | n :: names' =>
      if EqualFold (take_s (String.length n) s) n then
        Some (i, String.substring (String.length n) (String.length s) s)
      else lookup_name (i + 1) names' s
  end.
Fixpoint span_upper (s : string) : string * string :=
  match s with
  | String a s' =>
      if ((65 <=? N_of_ascii a) && (N_of_ascii a <=? 90))%N then
        let '(u, r) := span_upper s' in (String a u, r)
      else ("", s)
  | "" => ("", "")
  end.
(** [parseTimeZone] on an abbreviation: three letters, four that end in T or are
    WITA, five that end in ST; after GMT an hour with a sign may follow. *)
Definition zone_name (s : string) : option string :=
  match string_prefix_drop "ChST" s, string_prefix_drop "MeST" s with
  | Some r, _ | None, Some r => Some r
  | None, None =>
      match string_prefix_drop "GMT" s with
      | Some r =>
          Some match is_char [43; 45]%N r with
               | Some (_, r') =>
                   match span_digits r' with
                   | ("", _) => r
                   | (d, r'') => match digits_value 0 d with
                                 | Some h => if h <=? 23 then r'' else r
                                 | None => r
                                 end
                   end
               | None => r
               end
      | None =>
          match span_upper s with
          | (String _ (String _ (String _ "")), r) => Some r
          | (String a (String b (String c (String d "") as u)), r) =>
              if String.eqb u "T" || String.eqb (String a (String b (String c u))) "WITA" then Some r else None
          | (u, r) =>
              if bool_decide (String.length u = 5%nat) && String.eqb (String.substring 3 2 u) "ST" then Some r else None
          end
      end
  end.
(** A blank of the layout: any number of blanks, one at least unless the text ends. *)
Fixpoint cut_space (s : string) : string :=
  match s with String " " s' => cut_space s' | _ => s end.
Definition space (s : string) : option string :=
  match s with "" => Some "" | String " " s' => Some (cut_space s') | _ => None end.
Definition clock (s : string) : option (Z * string) :=
  '(hh, s) ← getnum false s; _ ← in_range 0 23 hh; s ← expect ":" s;
  '(mi, s) ← getnum true s; _ ← in_range 0 59 mi; s ← expect ":" s;
  '(ss, s) ← getnum true s; _ ← in_range 0 59 ss;
  let '(ns, s) := frac_second s in
  Some ((hh * 3600 + mi * 60 + ss) * Second + ns, s).
Definition at_day (y m d t : Z) (rest : string) : option Z :=
  _ ← in_range 1 (days_in m y) d;
  if bool_decide (rest = "") then Some (days_from_civil y m d * 86400 * Second + t) else None.
Definition parse_RFC1123_GMT (s : string) : option Z :=
  '(_, s) ← lookup_name 0 short_days s; s ← expect "," s; s ← space s;
  '(d, s) ← getnum true s; s ← space s;
  '(m, s) ← lookup_name 1 short_months s; s ← space s;
  '(y, s) ← long_year s; s ← space s;
  '(t, s) ← clock s; s ← space s; s ← string_prefix_drop "GMT" s;
  at_day y m d t s.
Definition parse_RFC850 (s : string) : option Z :=
  '(_, s) ← lookup_name 0 long_days s; s ← expect "," s; s ← space s;
  '(d, s) ← getnum true s; s ← expect "-" s;
  '(m, s) ← lookup_name 1 short_months s; s ← expect "-" s;
  '(y, s) ← getnum true s; s ← space s;
  '(t, s) ← clock s; s ← space s;
  s ← match string_prefix_drop "UTC" s with Some r => Some r | None => zone_name s end;
  at_day (if 69 <=? y then 1900 + y else 2000 + y) m d t s.
Definition parse_ANSIC (s : string) : option Z :=
  '(_, s) ← lookup_name 0 short_days s; s ← space s;
  '(m, s) ← lookup_name 1 short_months s; s ← space s;
  '(d, s) ← getnum false s; s ← space s;
  '(t, s) ← clock s; s ← space s;
  '(y, s) ← long_year s;
  at_day y m d t s.
Definition ParseTime (s : string) : option Z :=
  match parse_RFC1123_GMT s, parse_RFC850 s with
  | Some t, _ | None, Some t => Some t
  | None, None => parse_ANSIC s
  end.
Example ParseTime_ex :
  ParseTime <$> ["Sun, 06 Nov 1994 08:49:37 GMT"; "Sunday, 06-Nov-94 08:49:37 GMT"; "Sun Nov  6 08:49:37 1994";
                 "mon, 06 NOV 1994 08:49:37 GMT"; "Sun, 31 Nov 1994 08:49:37 GMT"; "Sun, 06 Nov 1994 08:49:37"] =
  [Some 784111777000000000; Some 784111777000000000; Some 784111777000000000;
   Some 784111777000000000; None; None].
Proof. vm_compute. done. Qed.

(** ** [encoding/json] into a struct

    What a Go type is for the decoder.  A pointer is nil or its value; [Counts]
    is a struct with the [UnmarshalJSON] of the counters of YouTube, which come
    as numbers or as strings. *)
Inductive GoType :=
| GString
| GBool
| GInt64
| GPtr (t : GoType)
| GSlice (t : GoType)
| GStruct (fields : list (string * GoType))
| GCounts (names : list string) (flags : list string).
Inductive GoVal :=
| VNil
| VString (s : string)
| VBool (b : bool)
| VInt (z : Z)
| VSlice (l : list GoVal)
| VStruct (fields : list (string * GoVal)).
Fixpoint zero_of (t : GoType) : GoVal :=
  match t with
  | GString => VString ""
  | GBool => VBool false
  | GInt64 => VInt 0
  | GPtr _ | GSlice _ => VNil
  | GStruct fs => VStruct (prod_map id zero_of <$> fs)
  | GCounts names flags => VStruct (((λ n, (n, VInt 0)) <$> names) ++ ((λ n, (n, VBool false)) <$> flags))
  end.
(** The key of a member folded as [encoding/json] does: besides ASCII, the long
    s and the Kelvin sign. *)
Fixpoint fold_key (s : string) : string :=
  match s with
  | "" => ""
  | String a s' =>
      match string_prefix_drop (bytes [197; 191]%N) s, s' with
      | Some _, String _ s'' => "s" +:+ fold_key s''
      | _, _ =>
          match string_prefix_drop (bytes [226; 132; 170]%N) s, s' with
          | Some _, String _ (String _ s'') => "k" +:+ fold_key s''
          | _, _ => String (ascii_lower a) (fold_key s')
          end
      end
  end.
Definition find_field {A} (fs : list (string * A)) (k : string) : option (string * A) :=
  match List.find (λ f, bool_decide (f.1 = k)) fs with
  | Some f => Some f
  | None => List.find (λ f, bool_decide (ToLower f.1 = fold_key k)) fs
  end.
Definition get_field (v : GoVal) (k : string) : GoVal :=
  match v with
  | VStruct fs => default VNil (snd <$> List.find (λ f, bool_decide (f.1 = k)) fs)
  | _ => VNil
  end.
Definition set_field (v : GoVal) (k : string) (x : GoVal) : GoVal :=
  match v with
  | VStruct fs => VStruct ((λ f, if bool_decide (f.1 = k) then (k, x) else f) <$> fs)
  | v => v
  end.
(* Source: internal/services/youtube_channel_content.go *)
(* 452-468 decodeYouTubeCount *)
Definition decodeYouTubeCount (raw : json) : option Z :=
  match raw with
  | JNull => Some 0
  | JStr s => match ParseInt s with (z, None) => Some z | _ => None end
  | JNum l => match ParseInt l with (z, None) => Some z | _ => None end
  | _ => None
  end.
(** The last member a field takes. *)
Definition last_member (names : list (string * unit)) (n : string) (ms : list (string * json)) : option json :=
  snd <$> last (List.filter (λ m, bool_decide (fst <$> find_field names m.1 = Some n)) ms).
(* Source: internal/services/youtube_types.go *)
(* 44-66 youtubeStatistics.UnmarshalJSON; 147-167 youtubeVideoStats.UnmarshalJSON *)
Definition decode_counts (names flags : list string) (ms : list (string * json)) : option GoVal :=
  let fields := (λ n, (n, tt)) <$> (names ++ flags) in
  counts ← mapM (λ n, match last_member fields n ms with
                      | None => Some (n, VInt 0)
                      | Some raw => z ← decodeYouTubeCount raw; Some (n, VInt z)
                      end) names;
  bools ← mapM (λ n, foldl (λ o m, old ← o;
                       if bool_decide (fst <$> find_field fields m.1 = Some n) then
                         match m.2 with JNull => Some old | JBool b => Some (n, VBool b) | _ => None end
                       else Some old) (Some (n, VBool false)) ms) flags;
  Some (VStruct (counts ++ bools)).
(** [None]: some value does not have the type of its field. *)
Fixpoint decode (j : json) : GoType → GoVal → option GoVal :=
  fix into (t : GoType) (old : GoVal) {struct t} : option GoVal :=
  match t with
  | GPtr u => match j with
              | JNull => Some VNil
              | _ => into u (match old with VNil => zero_of u | _ => old end)
              end
  | GCounts names flags =>
      match j with
      | JNull => Some (zero_of t)
      | JObj ms => decode_counts names flags ms
      | _ => None
      end
  | GString => match j with JNull => Some old | JStr s => Some (VString s) | _ => None end
  | GBool => match j with JNull => Some old | JBool b => Some (VBool b) | _ => None end
  | GInt64 => match j with
              | JNull => Some old
              | JNum l => match ParseInt l with (z, None) => Some (VInt z) | _ => None end
              | _ => None
              end
  | GSlice u =>
      match j with
      | JNull => Some VNil
      | JArr js =>
          let olds := match old with VSlice l => l | _ => [] end in
          VSlice <$> (fix go js olds :=
            match js with
            | [] => Some []
            | j :: js =>
                v ← decode j u (default (zero_of u) (head olds));
                vs ← go js (tail olds); Some (v :: vs)
            end) js olds
      | _ => None
      end
  | GStruct fs =>
      match j with
      | JNull => Some old
      | JObj ms =>
          (fix go ms v :=
            match ms with
            | [] => Some v
            | (k, j) :: ms =>
                match find_field fs k with
                | None => go ms v
                | Some (n, u) => x ← decode j u (get_field v n); go ms (set_field v n x)
                end
            end) ms old
      | _ => None
      end
  end.
(** [json.Unmarshal], and [json.NewDecoder(body).Decode], which stops after the
    first value. *)
Definition Unmarshal (t : GoType) (s : string) : option GoVal := j ← read_json s; decode j t (zero_of t).
Definition Decode (t : GoType) (s : string) : option GoVal :=
  '(j, _) ← read_value (S (2 * String.length s)) max_nesting s; decode j t (zero_of t).
Definition as_string (v : GoVal) : string := match v with VString s => s | _ => "" end.
Definition video_shape : GoType := GStruct [("id", GString); ("n", GPtr GInt64); ("tags", GSlice GString)].
Example Decode_ex :
  Unmarshal video_shape (quoted "{'ID':'v','n':7,'tags':['a','b'],'other':{}}") =
    Some (VStruct [("id", VString "v"); ("n", VInt 7); ("tags", VSlice [VString "a"; VString "b"])]) ∧
  Unmarshal video_shape (quoted "{'id':null}") = Some (zero_of video_shape) ∧
  Unmarshal video_shape (quoted "{'id':7}") = None ∧ Unmarshal video_shape (quoted "{} x") = None ∧
  Decode video_shape (quoted "{} x") = Some (zero_of video_shape) ∧
  Unmarshal (GCounts ["viewCount"] []) (quoted "{'viewCount':'12'}") = Some (VStruct [("viewCount", VInt 12)]).
Proof. vm_compute. done. Qed.

(** ** Printed numbers in headers *)
Definition no_byte (c : ascii) (s : string) : Prop := c ∉ String.list_ascii_of_string s.
Lemma SplitN2_app c x y : no_byte c x → SplitN2 c (x +:+ String c y) = Some (x, y).
Proof.
  induction x as [|a x IH]; intros Hx; simpl.
  - by rewrite Ascii.eqb_refl.
  - apply not_elem_of_cons in Hx as [Ha Hx].
    destruct (Ascii.eqb_spec a c); [congruence|]. by rewrite (IH Hx).
Qed.
Lemma itoa_digits z : 0 ≤ z → all_digits (itoa z).
Proof. intros Hz. unfold itoa. destruct z; [apply string_of_N_digits..|lia]. Qed.
Lemma itoa_value z : 0 ≤ z → digits_value 0 (itoa z) = Some z.
Proof.
  intros Hz. unfold itoa. destruct z as [|p|]; [done| |lia].
  change (Z.to_N (Z.pos p)) with (Npos p). by rewrite string_of_N_value.
Qed.
Lemma itoa_inj a b : 0 ≤ a → 0 ≤ b → itoa a = itoa b → a = b.
Proof. intros Ha Hb H. pose proof (itoa_value a Ha) as E. rewrite H, itoa_value in E by done. congruence. Qed.
Lemma digits_no_byte c s : is_digit c = false → all_digits s → no_byte c s.
Proof.
  intros Hc Hs Hin. unfold all_digits in Hs. rewrite Forall_forall in Hs.
  apply Hs in Hin. rewrite Hc in Hin. done.
Qed.
Lemma span_digits_all s : all_digits s → span_digits s = (s, "").
Proof.
  induction s as [|a s IH]; intros Hs; cbn [span_digits]; [done|].
  apply Forall_cons in Hs as [Ha Hs]. apply Is_true_true in Ha. rewrite Ha.
  by rewrite IH.
Qed.
(** What follows the blanks and the sign. *)
Lemma Sscanf_itoa z : 0 ≤ z → in_int64 z → Sscanf_d (itoa z) = inr z.
Proof.
  intros Hz Hin. pose proof (itoa_digits z Hz) as Hd. pose proof (ParseInt_itoa z Hin) as Hp.
  assert (itoa z ≠ "") as Hne by (intros E; rewrite E in Hp; done).
  unfold Sscanf_d. destruct (itoa z) as [|a r] eqn:E; [done|].
  pose proof Hd as [Ha%Is_true_true Hr]%Forall_cons.
  assert (trim_left blank_runes (String a r) = String a r) as ->.
  { destruct a as [[] [] [] [] [] [] [] []]; try done. }
  rewrite bool_decide_eq_false_2 by (intros ->; done).
  assert (is_char [43; 45]%N (String a r) = None) as ->
    by (destruct a as [[] [] [] [] [] [] [] []]; done).
  cbn [optional default fst snd from_option]. rewrite span_digits_all by done.
  change ("" +:+ String a r) with (String a r). by rewrite Hp.
Qed.

(** ** A calculus for the clients

    [triple P m Q E]: from a world in [P], [m] ends in [Q] with its result or in
    [E] with its error. *)
Section triple.
Context {S : Type}.
Implicit Types P : World S → Prop.
Definition triple {A} P (m : H S A) (Q : A → World S → Prop) (E : GoErr → World S → Prop) : Prop :=
  ∀ w, P w → match m w with (inr a, w') => Q a w' | (inl er, w') => E er w' end.
Lemma client_give {A} P (a : A) Q E : (∀ w, P w → Q a w) → triple P (give a) Q E.
Proof. intros H w. apply H. Qed.
Lemma client_fail {A} P er (Q : A → World S → Prop) E : (∀ w, P w → E er w) → triple P (fail er) Q E.
Proof. intros H w. apply H. Qed.
Lemma client_bind {A B} P (m : H S A) (k : A → H S B) R Q E :
  triple P m R E → (∀ a, triple (R a) (k a) Q E) → triple P (m ≫= k) Q E.
Proof.
  intros Hm Hk w Hw. specialize (Hm w Hw). unfold mbind, H_bind, bind.
  destruct (m w) as [[er|a] w']; [done|]. by apply Hk.
Qed.
Lemma client_wrapping {A} P prefix (m : H S A) Q E :
  triple P m Q (λ er, E (Errorf_w prefix er)) → triple P (wrapping prefix m) Q E.
Proof.
  intros Hm w Hw. specialize (Hm w Hw). unfold wrapping.
  by destruct (m w) as [[er|a] w'].
Qed.
Lemma client_attempt {A} P (m : H S A) Q E :
  triple P m (λ a, Q (inr a)) (λ er, Q (inl er)) → triple P (attempt m) Q E.
Proof.
  intros Hm w Hw. specialize (Hm w Hw). unfold attempt.
  by destruct (m w) as [[er|a] w'].
Qed.
Lemma client_on_st {A} P (f : S → A * S) Q E :
  (∀ w, P w → Q (f (st w)).1 (mkWorld (f (st w)).2 (sent w))) → triple P (on_st f) Q E.
Proof. intros H w Hw. specialize (H w Hw). unfold on_st. by destruct (f (st w)). Qed.
Lemma client_asks {A} P (f : S → A) Q E : (∀ w, P w → Q (f (st w)) w) → triple P (asks f) Q E.
Proof. intros H w. apply H. Qed.
Lemma client_NewRequest P (C : Client S) method url hs p Q E :
  (∀ w, P w → Q (mkRequest method url hs p) w) → (∀ w er, P w → E er w) →
  triple P (NewRequest C method url hs p) Q E.
Proof. intros H1 H2 w Hw. unfold NewRequest. destruct (bad_url C url); [by apply H2|by apply H1]. Qed.
Lemma client_send P (C : Client S) req Q E :
  (∀ w, P w → let '(r, s') := Do C req (st w) in let w' := mkWorld s' (sent w ++ [req]) in
     match r with inr resp => Q resp w' | inl er => E er w' end) →
  triple P (send C req) Q E.
Proof. intros H w Hw. specialize (H w Hw). unfold send. by destruct (Do C req (st w)) as [[er|resp] s']. Qed.
Lemma client_weaken {A} P P' (m : H S A) Q Q' E E' :
  (∀ w, P w → P' w) → triple P' m Q' E' → (∀ a w, Q' a w → Q a w) → (∀ er w, E' er w → E er w) →
  triple P m Q E.
Proof.
  intros H0 Hm H1 H2 w Hw. specialize (Hm w (H0 w Hw)).
  destruct (m w) as [[er|a] w']; auto.
Qed.
Lemma client_pre {A} P P' (m : H S A) Q E : triple P' m Q E → (∀ w, P w → P' w) → triple P m Q E.
Proof. intros Hm H w Hw. by apply Hm, H. Qed.
Lemma client_any {A} P (m : H S A) : triple P m (λ _ _, True) (λ _ _, True).
Proof. intros w _. by destruct (m w) as [[er|a] w']. Qed.
Lemma client_pure {A} P (φ : Prop) (m : H S A) Q E :
  (φ → triple P m Q E) → triple (λ w, φ ∧ P w) m Q E.
Proof. intros Hm w [? Hw]. by apply Hm. Qed.
End triple.
Create HintDb client.
#[export] Hint Resolve client_give client_fail client_asks : client.

(** ** [json.Marshal] of a tree of maps and slices

    The members of a map are given in the order of their keys, the order in which
    they are printed. *)
Fixpoint marshal (j : json) : string :=
  match j with
  | JNull => "null"
  | JBool b => if b then "true" else "false"
  | JNum l => l
  | JStr s => json_string s
  | JArr l => "[" +:+ Join (marshal <$> l) "," +:+ "]"
  | JObj ms => json_object (prod_map id marshal <$> ms)
  end.
Example marshal_ex :
  marshal (JObj [("a", JArr [JNum "1"; JBool true]); ("b", JStr "x")]) = quoted "{'a':[1,true],'b':'x'}".
Proof. vm_compute. done. Qed.
