(* ===== verification/HttpProps.v ===== *)
(** * What the client prints can be read back

    [json.Marshal] of a tree without numbers is read as that tree by the reader of
    [Codec], whatever its strings hold. *)

From S2P Require Import Prelude Codec GoError Http.
From Stdlib Require Import ZArith Lia.
Local Open Scope Z_scope.

(** ** Trees *)
Section Induction.
Context (P : json → Prop) (Hnull : P JNull) (Hbool : ∀ b, P (JBool b)) (Hnum : ∀ l, P (JNum l)) (Hstr : ∀ s, P (JStr s))
  (Harr : ∀ l, Forall P l → P (JArr l)) (Hobj : ∀ ms, Forall (λ m, P m.2) ms → P (JObj ms)).
Fixpoint json_tree_ind (j : json) : P j :=
  match j with
  | JNull => Hnull
  | JBool b => Hbool b
  | JNum l => Hnum l
  | JStr s => Hstr s
  | JArr l => Harr l ((fix go l : Forall P l :=
      match l with [] => Forall_nil_2 _ | j :: l => Forall_cons_2 _ _ _ (json_tree_ind j) (go l) end) l)
  | JObj ms => Hobj ms ((fix go ms : Forall (λ m, P m.2) ms :=
      match ms with [] => Forall_nil_2 _ | m :: ms => Forall_cons_2 (λ m, P m.2) m ms (json_tree_ind m.2) (go ms) end) ms)
  end.
End Induction.
(** No number in it; how deep it is and how much fuel the reader needs. *)
Fixpoint textual (j : json) : bool :=
  match j with
  | JNum _ => false
  | JArr l => forallb textual l
  | JObj ms => forallb (λ m, textual m.2) ms
  | _ => true
  end.
Fixpoint height (j : json) : nat :=
  match j with
  | JArr l => S (foldr (λ j n, Nat.max (height j) n) O l)
  | JObj ms => S (foldr (λ m n, Nat.max (height m.2) n) O ms)
  | _ => O
  end.
Fixpoint effort (j : json) : nat :=
  match j with
  | JArr l => S (foldr (λ j n, S (Nat.max (effort j) n)) O l)
  | JObj ms => S (foldr (λ m n, S (Nat.max (effort m.2) n)) O ms)
  | _ => 1%nat
  end.
Definition after (c : ascii) : Prop := c ∈ [","; "}"; "]"]%char.
(** The reader finds [j] in front of what may follow a value. *)
Definition found (j : json) : Prop := ∀ fuel d c t, (effort j ≤ fuel)%nat → Z.of_nat (height j) ≤ d → after c →
  read_value fuel d (marshal j +:+ String c t) = Some (j, String c t).
Lemma found_string s : found (JStr s).
Proof.
  intros fuel d c t Hf _ _. destruct fuel as [|f]; [simpl in Hf; lia|]. cbn [marshal]. unfold json_string.
  rewrite app_assoc_s. change (bytes [34%N] +:+ ?x) with (String quote_char x). rewrite app_assoc_s.
  change (bytes [34%N] +:+ String c t) with (String quote_char (String c t)).
  transitivity ('(v, r) ← read_string (json_body s +:+ String quote_char (String c t));
                Some (JStr v, r)); [reflexivity|]. by rewrite read_json_body.
Qed.
Lemma found_literal j : j = JNull ∨ (∃ b, j = JBool b) → found j.
Proof. intros [->|[[] ->]] fuel d c t Hf _ _; (destruct fuel as [|f]; [simpl in Hf; lia|]); reflexivity. Qed.
(** The elements of an array and the members of an object, with what closes
    them. *)
Lemma read_elements_found l : l ≠ [] → Forall found l → ∀ fuel d t,
  (foldr (λ j n, S (Nat.max (effort j) n)) O l ≤ fuel)%nat →
  Z.of_nat (foldr (λ j n, Nat.max (height j) n) O l) ≤ d →
  read_elements fuel d (Join (marshal <$> l) "," +:+ String "]" t) = Some (l, t).
Proof.
  induction l as [|j l IH]; intros Hne Hl fuel d t Hf Hd; [done|]. apply Forall_cons in Hl as [Hj Hl].
  destruct fuel as [|f]; simpl in Hf, Hd; [lia|]. cbn [read_elements]. destruct l as [|j' l].
  - cbn [fmap list_fmap Join]. rewrite Hj by (unfold after; first [lia|set_solver]). reflexivity.
  - remember (j' :: l) as l' eqn:El.
    assert (Join (marshal <$> (j :: l')) "," +:+ String "]" t =
      marshal j +:+ String "," (Join (marshal <$> l') "," +:+ String "]" t)) as ->.
    { subst l'. cbn [fmap list_fmap Join]. by rewrite !app_assoc_s. }
    rewrite Hj by (unfold after; first [lia|set_solver]). cbn [mbind option_bind].
    change (skip_space (String "," ?s)) with (String "," s). rewrite expect_char.
    rewrite IH by (subst l'; first [done|lia]). reflexivity.
Qed.
Lemma read_members_found ms : ms ≠ [] → Forall (λ m, found m.2) ms → ∀ fuel d t,
  (foldr (λ m n, S (Nat.max (effort m.2) n)) O ms ≤ fuel)%nat →
  Z.of_nat (foldr (λ m n, Nat.max (height m.2) n) O ms) ≤ d →
  read_members fuel d (Join ((λ kv, json_string kv.1 +:+ ":" +:+ kv.2) <$> (prod_map id marshal <$> ms)) "," +:+ String "}" t) =
  Some (ms, t).
Proof.
  induction ms as [|[k j] ms IH]; intros Hne Hl fuel d t Hf Hd; [done|]. apply Forall_cons in Hl as [Hj Hl].
  destruct fuel as [|f]; simpl in Hf, Hd, Hj; [lia|]. cbn [read_members].
  set (rest := match ms with [] => String "}" t | _ => String "," (Join ((λ kv : string * string,
    json_string kv.1 +:+ ":" +:+ kv.2) <$> (prod_map id marshal <$> ms)) "," +:+ String "}" t) end).
  assert (Join ((λ kv, json_string kv.1 +:+ ":" +:+ kv.2) <$> (prod_map id marshal <$> ((k, j) :: ms))) "," +:+ String "}" t =
    String quote_char (json_body k +:+ String quote_char (String ":" (marshal j +:+ rest)))) as ->.
  { subst rest. destruct ms as [|[k' j'] ms]; cbn [fmap list_fmap prod_map fst snd Join]; unfold json_string;
      by rewrite !app_assoc_s. }
  change (skip_space (String quote_char ?s)) with (String quote_char s).
  rewrite expect_char. cbn [mbind option_bind]. rewrite read_json_body. cbn [mbind option_bind].
  change (skip_space (String ":" ?s)) with (String ":" s). rewrite expect_char. cbn [mbind option_bind].
  destruct ms as [|m ms]; subst rest.
  - rewrite Hj by (unfold after; first [lia|set_solver]). reflexivity.
  - rewrite Hj by (unfold after; first [lia|set_solver]). cbn [mbind option_bind].
    change (skip_space (String "," ?s)) with (String "," s). rewrite expect_char.
    rewrite IH by (first [done|simpl in *; lia]). reflexivity.
Qed.
(** A container ends with its bracket, whatever follows. *)
Lemma read_object ms : Forall (λ m, found m.2) ms → ∀ fuel d t,
  (effort (JObj ms) ≤ fuel)%nat → Z.of_nat (height (JObj ms)) ≤ d →
  read_value fuel d (marshal (JObj ms) +:+ t) = Some (JObj ms, t).
Proof.
  intros Hms fuel d t Hf Hd. destruct fuel as [|f]; [simpl in Hf; lia|]. cbn [height effort] in *.
  cbn [marshal]. unfold json_object. rewrite app_assoc_s, app_assoc_s.
  change ("}" +:+ t) with (String "}" t).
  destruct ms as [|m ms].
  - cbn [fmap list_fmap Join foldr] in *. cbn [read_value].
    change (skip_space ("{" +:+ "" +:+ String "}" t)) with (String "{" (String "}" t)). rewrite expect_char.
    destruct (Z.leb_spec d 0); [lia|]. change (skip_space (String "}" t)) with (String "}" t). by rewrite expect_char.
  - set (body := Join _ ","). assert (∃ b, body +:+ String "}" t = String quote_char b) as [b Hb].
    { subst body. destruct m as [k j], ms as [|m' ms]; by eexists. }
    change ("{" +:+ body +:+ String "}" t) with (String "{" (body +:+ String "}" t)). cbn [read_value].
    change (skip_space (String "{" ?s)) with (String "{" s). rewrite expect_char.
    destruct (Z.leb_spec d 0); [lia|].
    rewrite Hb at 1. change (expect "}" (skip_space (String quote_char b))) with (@None string). cbv iota.
    subst body. rewrite read_members_found by (first [done|lia]). reflexivity.
Qed.
Lemma read_array l : forallb textual l → Forall found l → ∀ fuel d t,
  (effort (JArr l) ≤ fuel)%nat → Z.of_nat (height (JArr l)) ≤ d →
  read_value fuel d (marshal (JArr l) +:+ t) = Some (JArr l, t).
Proof.
  intros Ht Hl fuel d t Hf Hd. destruct fuel as [|f]; [simpl in Hf; lia|]. cbn [height effort] in *.
  cbn [marshal]. rewrite app_assoc_s, app_assoc_s. change ("]" +:+ t) with (String "]" t).
  destruct l as [|j l].
  - cbn [fmap list_fmap Join foldr] in *. cbn [read_value].
    change (skip_space ("[" +:+ "" +:+ String "]" t)) with (String "[" (String "]" t)).
    change (expect "{" (String "[" ?s)) with (@None string). cbv iota. rewrite expect_char.
    destruct (Z.leb_spec d 0); [lia|]. change (skip_space (String "]" t)) with (String "]" t). by rewrite expect_char.
  - set (body := Join _ ","). assert (expect "]" (skip_space (body +:+ String "]" t)) = None) as Hb.
    { subst body. simpl in Ht. destruct j as [|[]|n|s|l'|ms]; destruct l as [|j' l]; try done. }
    change ("[" +:+ body +:+ String "]" t) with (String "[" (body +:+ String "]" t)). cbn [read_value].
    change (skip_space (String "[" ?s)) with (String "[" s).
    change (expect "{" (String "[" ?s)) with (@None string). cbv iota. rewrite expect_char.
    destruct (Z.leb_spec d 0); [lia|]. rewrite Hb.
    subst body. rewrite read_elements_found by (first [done|lia]). reflexivity.
Qed.
Lemma textual_found j : textual j → found j.
Proof.
  induction j as [| | | |l IH|ms IH] using json_tree_ind; intros Ht.
  - apply found_literal. by left.
  - apply found_literal. right. by eexists.
  - done.
  - apply found_string.
  - assert (Forall found l) as Hl.
    { simpl in Ht. induction IH as [|j l Hj _ IHl]; [done|]. simpl in Ht. apply andb_prop_elim in Ht as [H1 H2].
      constructor; [by apply Hj|by apply IHl]. }
    intros fuel d c t Hf Hd _. by apply read_array.
  - assert (Forall (λ m, found m.2) ms) as Hl.
    { simpl in Ht. induction IH as [|m ms Hm _ IHl]; [done|]. simpl in Ht. apply andb_prop_elim in Ht as [H1 H2].
      constructor; [by apply Hm|by apply IHl]. }
    intros fuel d c t Hf Hd _. by apply read_object.
Qed.
(** The body of a request is read as the tree it was printed from. *)
Lemma read_json_marshal ms : textual (JObj ms) → Z.of_nat (height (JObj ms)) ≤ max_nesting →
  read_json (marshal (JObj ms)) = Some (JObj ms).
Proof.
  intros Ht Hh. unfold read_json. rewrite <- (read_value_fuel _ _ (effort (JObj ms))).
  assert (Forall (λ m, found m.2) ms) as Hl.
  { simpl in Ht. clear Hh. induction ms as [|m ms IH]; [done|]. simpl in Ht. apply andb_prop_elim in Ht as [H1 H2].
    constructor; [by apply textual_found|by apply IH]. }
  rewrite <- (app_nil_s (marshal (JObj ms))) at 2.
  rewrite read_object by (first [done|lia]). by rewrite bool_decide_eq_true_2.
Qed.
