(* ===== verification/HttpClient.v ===== *)
(** * The HTTP client of the providers

    [src/internal/services/http_client.go]: the transport that repeats a request
    on a transient failure; and the throttling headers of
    [provider.go] and [provider_error.go], which tell the workers when to come
    back.  The wire below the transport, the timer and the random source are
    those of [Http.Client]; the context value of [WithRetryOptIn] and the
    [GetBody] of a request are arguments. *)

From S2P Require Import Prelude Codec GoError Http.
From Stdlib Require Import ZArith Lia.
Local Open Scope Z_scope.

(** ** [time.ParseDuration]

    A fraction is exact here; Go computes it in [float64], which is the same for
    fractions that end at the nanosecond or before. *)
Definition unit_of (u : string) : option Z :=
  match u with
  | "ns" => Some 1
  | "us" => Some 1000
  | "ms" => Some 1000000
  | "s" => Some Second
  | "m" => Some Minute
  | "h" => Some Hour
  | _ => if bool_decide (u ∈ [bytes [194; 181; 115]; bytes [206; 188; 115]]%N) then Some 1000 else None
  end.
(** [leadingInt]: [None] when the value passes [1<<63]. *)
Fixpoint leadingInt (x : Z) (s : string) : option (Z * string) :=
  match s with
  | String a s' =>
      match digit_value a with
      | Some d =>
          if Z.quot (2^63) 10 <? x then None
          else if 2^63 <? x * 10 + d then None else leadingInt (x * 10 + d) s'
      | None => Some (x, s)
      end
  | "" => Some (x, "")
  end.
(** [leadingFraction]: digits that no longer fit are dropped. *)
Fixpoint leadingFraction (x scale : Z) (overflow : bool) (s : string) : Z * Z * string :=
  match s with
  | String a s' =>
      match digit_value a with
      | Some d =>
          let y := x * 10 + d in
          if overflow || (Z.quot (2^63 - 1) 10 <? x) || (2^63 <? y) then leadingFraction x scale true s'
          else leadingFraction y (scale * 10) false s'
      | None => (x, scale, s)
      end
  | "" => (x, scale, "")
  end.
(** The unit: up to the next digit or point. *)
Fixpoint span_unit (s : string) : string * string :=
  match s with
  | String a s' =>
      if Ascii.eqb a "." || is_digit a then ("", s) else let '(u, r) := span_unit s' in (String a u, r)
  | "" => ("", "")
  end.
(** A number with its unit in nanoseconds, and the rest. *)
Definition duration_part (s : string) : option (Z * string) :=
  let starts := match s with String a _ => Ascii.eqb a "." || is_digit a | "" => false end in
  if negb starts then None
  else
    '(v, s1) ← leadingInt 0 s;
    let pre := negb (bool_decide (String.length s1 = String.length s)) in
    let '(f, scale, s2, post) :=
      match s1 with
      | String "." s1' =>
          let '(f, scale, s2) := leadingFraction 0 1 false s1' in
          (f, scale, s2, negb (bool_decide (String.length s2 = String.length s1')))
      | _ => (0, 1, s1, false)
      end in
    if negb pre && negb post then None
    else
      let '(u, s3) := span_unit s2 in
      unit ← unit_of u;
      if Z.quot (2^63) unit <? v then None
      else
        let total := v * unit + f * unit / scale in
        if 2^63 <? total then None else Some (total, s3).
(** Every part takes a byte, so the length of the text is enough fuel. *)
Fixpoint duration_parts (fuel : nat) (d : Z) (s : string) : option Z :=
  match fuel, s with
  | _, "" => Some d
  | O, _ => None
  | Datatypes.S fuel', _ =>
      '(v, s') ← duration_part s;
      if 2^63 <? d + v then None else duration_parts fuel' (d + v) s'
  end.
Definition ParseDuration (s : string) : option Z :=
  let '(neg, s) := match s with
                   | String "-" s' => (true, s')
                   | String "+" s' => (false, s')
                   | _ => (false, s)
                   end in
  match s with
  | "0" => Some 0
  | "" => None
  | _ =>
      d ← duration_parts (String.length s) 0 s;
      if neg then Some (- d) else if 2^63 - 1 <? d then None else Some d
  end.
Example ParseDuration_ex :
  ParseDuration <$> ["120s"; "2m30s"; "-1.5h"; ".5s"; "1h1"; ""; "0"; "5"; "9223372036854775808ns"; "1us2ns"] =
  [Some (120 * Second); Some (150 * Second); Some (-(90 * Minute)); Some 500000000; None; None; Some 0; None;
   None; Some 1002].
Proof. vm_compute. done. Qed.

(** [time.RFC1123], with a zone that is not the host's own taken for UTC. *)
Definition parse_RFC1123 (s : string) : option Z :=
  '(_, s) ← lookup_name 0 short_days s; s ← expect "," s; s ← space s;
  '(d, s) ← getnum true s; s ← space s;
  '(m, s) ← lookup_name 1 short_months s; s ← space s;
  '(y, s) ← long_year s; s ← space s;
  '(t, s) ← clock s; s ← space s;
  s ← match string_prefix_drop "UTC" s with Some r => Some r | None => zone_name s end;
  at_day y m d t s.
(** [Time.Sub] saturates. *)
Definition Sub (t u : Z) : Z := Z.max int64_min (Z.min int64_max (t - u)).

(** [time.Unix(n, 0)]: the seconds since year 1 wrap. *)
Definition time_Unix (n : Z) : Z := (wrap64 (n + 62135596800) - 62135596800) * Second.

(* Source: internal/services/provider.go *)
(* 248-289 ParseRetryAfter *)
Definition ParseRetryAfter (raw : string) (now : Z) : Z :=
  let raw := TrimSpace raw in
  if bool_decide (raw = "") then 0
  else match parse_RFC1123 raw with
  | Some t => let d := Sub t now in if d <? 0 then 0 else d
  | None =>
      match ParseDuration raw with
      | Some d => if d <? 0 then 0 else d
      | None =>
          match ParseInt raw with
          | (n, None) =>
              if n <=? 0 then 0
              else if n <=? 10000000 then n * Second
              else let d := Sub (time_Unix n) now in if d <? 0 then 0 else d
          | _ => 0
          end
      end
  end.
(** [http.CanonicalHeaderKey] on a token. *)
Definition ascii_upper (a : ascii) : ascii :=
  let n := N_of_ascii a in if ((97 <=? n) && (n <=? 122))%N then ascii_of_N (n - 32) else a.
Fixpoint canonical (up : bool) (s : string) : string :=
  match s with
  | "" => ""
  | String a s' => String (if up then ascii_upper a else ascii_lower a) (canonical (Ascii.eqb a "-") s')
  end.
Definition CanonicalHeaderKey (s : string) : string := canonical true s.
(* Source: internal/services/provider_error.go *)
(* 237-243 ParseThrottleHeaders *)
Definition throttle_names : list string :=
  ["Retry-After"; "X-RateLimit-Reset"; "X-Rate-Limit-Reset"; "X-Rate-Limit-Reset-After"; "x-rate-limit-reset"].
(* 232-251 ParseThrottleHeaders *)
Definition ParseThrottleHeaders (resp : Response) (now : Z) : Z :=
  default 0 (first_some (λ name,
    let v := Header_Get resp (CanonicalHeaderKey name) in
    if bool_decide (v = "") then None
    else let d := ParseRetryAfter v now in if 0 <? d then Some d else None) throttle_names).

(** ** The transport *)
(* Source: internal/services/http_client.go *)
Definition maxAttempts : Z := 3. (* 206 *)
Definition initialBackoff : Z := 100000000. (* 207 *)
Definition maxBackoff : Z := 30 * Second. (* 208 *)
(* 211-214 retryRoundTripper *)
Record retryRoundTripper := mkRetryRoundTripper { rrt_maxBackoff : Z }.
(** What can be had of the body of a request a second time. *)
Inductive Rebuild := NoBody | GetBody (r : GoErr + Bytes) | NoGetBody.

Section Transport.
Context {S : Type} (C : Client S).
Context (rrt : retryRoundTripper).
(** [retryContextKey] in the context, and the body. *)
Context (optIn : bool) (rebuild : Rebuild).

(* 218-223 retryRoundTripper.maxBackoffOrDefault *)
Definition maxBackoffOrDefault : Z :=
  if rrt_maxBackoff rrt =? 0 then maxBackoff else rrt_maxBackoff rrt.
(** Without the jitter. *)
(* 228-246 retryRoundTripper.delayForRetry *)
Definition retry_delay (base : Z) (resp : option Response) (now : Z) : Z :=
  let hint :=
    match resp with
    | None => base
    | Some resp =>
        let ra := Header_Get resp "Retry-After" in
        if bool_decide (ra = "") then base
        else
          let date := match ParseTime ra with
                      | Some t => let until := Sub t now in if 0 <? until then until else base
                      | None => base
                      end in
          match ParseInt ra with
          | (seconds, None) => if 0 <=? seconds then wrap64 (seconds * Second) else date
          | _ => date
          end
    end in
  let delay := if maxBackoffOrDefault <? hint then maxBackoffOrDefault else hint in
  if delay <=? 0 then initialBackoff else delay.
(** [None]: [rand.Int63n] panics, its argument being zero. *)
(* 228-251 retryRoundTripper.delayForRetry *)
Definition delayForRetry (base : Z) (resp : option Response) : H S (option Z) :=
  now ← asks (now C);
  let delay := retry_delay base resp now in
  let quarter := Z.quot delay 4 in
  if quarter <=? 0 then give None
  else int63n ← on_st (rand C); give (Some (wrap64 (delay + int63n quarter))).
(* 253-259 retryRoundTripper.capBackoff *)
Definition capBackoff (d : Z) : Z := if maxBackoffOrDefault <? d then maxBackoffOrDefault else d.
(* 261-271 isIdempotent *)
Definition isIdempotent (req : Request) : bool :=
  bool_decide (Method req ∈ ["GET"; "HEAD"; "OPTIONS"; "TRACE"]) || optIn.
(* 273-284 isRetryableStatus *)
Definition isRetryableStatus (code : Z) : bool := bool_decide (code ∈ [408; 429; 500; 502; 503; 504]).

(** A response whose body was closed keeps its headers. *)
Definition ErrBodyReadAfterClose : GoErr := leaf (DNew "http: invalid Read on closed Body").
Definition closed (resp : Response) : Response :=
  mkResponse (StatusCode resp) (ContentLength resp) (header resp) [] (AtError ErrBodyReadAfterClose).
(** What precedes an attempt after the first one: the body is built again, and
    the transport waits. *)
Inductive Again := GiveUp | Cancelled (er : GoErr) | Panics | Ready (req : Request) (backoff : Z).
(* 147-171 retryRoundTripper.RoundTrip *)
Definition again (req : Request) (backoff : Z) (lastResp : option Response) : H S Again :=
  let wait_for (req : Request) : H S Again :=
    d ← delayForRetry backoff lastResp;
    match d with
    | None => give Panics
    | Some d =>
        r ← on_st (wait C d);
        match r with
        | Some er => give (Cancelled er)
        | None => give (Ready req (capBackoff (wrap64 (backoff * 2))))
        end
    end in
  match rebuild with
  | NoBody => wait_for req
  | NoGetBody | GetBody (inl _) => give GiveUp
  | GetBody (inr b) => wait_for (mkRequest (Method req) (URL req) (req_header req) b)
  end.
(** The response and the error, as they are returned; [None] is the panic. *)
Definition RoundTripped : Type := option (option Response * option GoErr).
(* 147-202 retryRoundTripper.RoundTrip *)
Fixpoint round_trips (left : nat) (attempt : Z) (backoff : Z) (req : Request)
    (lastResp : option Response) (lastErr : option GoErr) : H S RoundTripped :=
  match left with
  | O => give (Some (lastResp, lastErr))
  | Datatypes.S left' =>
      next ← (if 0 <? attempt then again req backoff lastResp else give (Ready req backoff));
      match next with
      | GiveUp => give (Some (lastResp, lastErr))
      | Cancelled er => give (Some (None, Some er))
      | Panics => give None
      | Ready req backoff =>
          r ← Http.attempt (send C req);
          match r with
          | inl er =>
              if negb (isIdempotent req) || (attempt =? maxAttempts - 1) then give (Some (None, Some er))
              else round_trips left' (attempt + 1) backoff req None (Some er)
          | inr resp =>
              if negb (isRetryableStatus (StatusCode resp)) || negb (isIdempotent req) then
                give (Some (Some resp, None))
              else if attempt =? maxAttempts - 1 then give (Some (Some resp, None))
              else round_trips left' (attempt + 1) backoff req (Some (closed resp)) None
          end
      end
  end.
(* 142-203 retryRoundTripper.RoundTrip *)
Definition RoundTrip (req : Request) : H S RoundTripped :=
  round_trips (Z.to_nat maxAttempts) 0 initialBackoff req None None.
End Transport.

(** ** The delays *)
Lemma quot_bounds d : 0 < d → 0 ≤ Z.quot d 4 ≤ d / 4.
Proof. intros H. rewrite Z.quot_div_nonneg by lia. pose proof (Z.div_pos d 4). lia. Qed.
(** A delay is never negative. *)
Lemma digit_value_range a d : digit_value a = Some d → 0 ≤ d < 10.
Proof. unfold digit_value. cbv zeta. destruct (_ && _) eqn:E; [|done]. intros [= <-]. lia. Qed.
Lemma leadingInt_range s : ∀ x v r, 0 ≤ x → leadingInt x s = Some (v, r) → 0 ≤ v.
Proof.
  induction s as [|a s IH]; intros x v r Hx; simpl; [by intros [= <- _]|].
  destruct (digit_value a) as [d|] eqn:Ed; [|by intros [= <- _]]. apply digit_value_range in Ed.
  destruct (_ <? x); [done|]. destruct (2^63 <? _); [done|]. intros H. eapply IH; [|exact H]. lia.
Qed.
Lemma leadingFraction_range s : ∀ x k o, 0 ≤ x → 0 < k →
  let '(v, k', _) := leadingFraction x k o s in 0 ≤ v ∧ 0 < k'.
Proof.
  induction s as [|a s IH]; intros x k o Hx Hk; simpl; [done|].
  destruct (digit_value a) as [d|] eqn:Ed; [|done]. apply digit_value_range in Ed.
  destruct (_ || _); apply IH; lia.
Qed.
Lemma unit_of_pos u k : unit_of u = Some k → 0 < k.
Proof.
  intros H. assert (Hk : k ∈ [1; 1000; 1000000; Second; Minute; Hour]).
  { revert H. unfold unit_of.
    repeat match goal with
    | |- context [match ?x with _ => _ end] => destruct x
    end; intros H; by simplify_eq; set_solver. }
  repeat (apply elem_of_cons in Hk as [->|Hk]; [done|]). by apply elem_of_nil in Hk.
Qed.
Lemma duration_part_range s v r : duration_part s = Some (v, r) → 0 ≤ v.
Proof.
  unfold duration_part. destruct (negb _); [done|].
  destruct (leadingInt 0 s) as [[n s1]|] eqn:En; [|done]. apply leadingInt_range in En; [|done]. cbn.
  assert (Hf : ∀ s', let '(f, k, _) := leadingFraction 0 1 false s' in 0 ≤ f ∧ 0 < k) by (intros; by apply leadingFraction_range).
  set (frac := match s1 with "" => _ | String _ _ => _ end).
  assert (H : 0 ≤ frac.1.1.1 ∧ 0 < frac.1.1.2).
  { subst frac. destruct s1 as [|a s1]; [done|].
    destruct a as [[] [] [] [] [] [] [] []]; try done. specialize (Hf s1). by destruct (leadingFraction 0 1 false s1) as [[f k] s2]. }
  clearbody frac. destruct frac as [[[f k] s2] post]. cbn in H.
  destruct (_ && _); [done|]. destruct (span_unit s2) as [u s3].
  destruct (unit_of u) as [unit|] eqn:Eu; [|done]. apply unit_of_pos in Eu. cbn.
  destruct (_ <? n); [done|]. destruct (2^63 <? _); [done|]. intros [= <- _].
  pose proof (Z.div_pos (f * unit) k). nia.
Qed.
Lemma duration_parts_range fuel : ∀ d s v, 0 ≤ d → duration_parts fuel d s = Some v → 0 ≤ v.
Proof.
  induction fuel as [|fuel IH]; intros d s v Hd; simpl; destruct s as [|a s]; try (by intros [= <-]).
  destruct (duration_part _) as [[x s']|] eqn:E; [|done]. apply duration_part_range in E. cbn.
  destruct (2^63 <? _); [done|]. apply IH. lia.
Qed.
Lemma ParseDuration_max s d : ParseDuration s = Some d → d ≤ int64_max.
Proof.
  unfold ParseDuration, int64_max.
  set (p := match s with "" => _ | String _ _ => _ end). destruct p as [neg t]. clear s.
  assert (Hgen : (x ← duration_parts (String.length t) 0 t;
    if neg then Some (- x) else if 2^63 - 1 <? x then None else Some x) = Some d → d ≤ 2^63 - 1).
  { destruct (duration_parts _ 0 t) as [x|] eqn:E; [|done]. apply duration_parts_range in E; [|done]. cbn.
    destruct neg; [intros [= <-]; lia|]. destruct (Z.ltb_spec (2^63 - 1) x); [done|]. intros [= <-]. lia. }
  destruct t as [|[[] [] [] [] [] [] [] []] [|b t]]; try exact Hgen; [done|]. by intros [= <-].
Qed.
Lemma ParseRetryAfter_range raw now : 0 ≤ ParseRetryAfter raw now ≤ int64_max.
Proof.
  assert (Hsub : ∀ t, 0 ≤ (if Sub t now <? 0 then 0 else Sub t now) ≤ int64_max).
  { intros t. unfold Sub, int64_min, int64_max. destruct (Z.ltb_spec (Z.max (- 2^63) (Z.min (2^63 - 1) (t - now))) 0); lia. }
  unfold ParseRetryAfter. cbv zeta. case_bool_decide; [by unfold int64_max|].
  destruct (parse_RFC1123 _); [apply Hsub|].
  destruct (ParseDuration _) as [d|] eqn:E.
  - apply ParseDuration_max in E. unfold int64_max in *. destruct (Z.ltb_spec d 0); lia.
  - destruct (ParseInt _) as [n [e|]]; [by unfold int64_max|].
    destruct (Z.leb_spec n 0); [by unfold int64_max|].
    destruct (Z.leb_spec n 10000000); [unfold int64_max, Second; lia|apply Hsub].
Qed.
Lemma ParseThrottleHeaders_range resp now : 0 ≤ ParseThrottleHeaders resp now ≤ int64_max.
Proof.
  unfold ParseThrottleHeaders. destruct (first_some _ _) as [d|] eqn:E; [|by unfold int64_max].
  apply first_some_Some in E as (name & _ & H). simpl. cbv zeta in H.
  case_bool_decide; [done|]. pose proof (ParseRetryAfter_range (Header_Get resp (CanonicalHeaderKey name)) now).
  destruct (0 <? _); [|done]. by injection H as <-.
Qed.
Example ParseRetryAfter_ex :
  (λ s, ParseRetryAfter s (1700000000 * Second)) <$>
    ["120"; "2m"; "1700000060"; "Tue, 14 Nov 2023 22:14:20 GMT"; "-3"; "soon"; "10000001"] =
  [120 * Second; 120 * Second; 60 * Second; 60 * Second; 0; 0; 0].
Proof. vm_compute. done. Qed.

Section Delays.
Context {S : Type} (C : Client S) (rrt : retryRoundTripper).
Context (Hrand : ∀ s n, 0 < n → 0 ≤ (rand C s).1 n < n) (Hcap : 0 ≤ rrt_maxBackoff rrt < 2^62).

Lemma cap_bounds : 0 < maxBackoffOrDefault rrt < 2^62.
Proof using Hcap.
  unfold maxBackoffOrDefault, maxBackoff, Second. destruct (Z.eqb_spec (rrt_maxBackoff rrt) 0); lia.
Qed.
Lemma retry_delay_bounds base resp now :
  0 < retry_delay rrt base resp now ≤ Z.max initialBackoff (maxBackoffOrDefault rrt).
Proof using Hcap.
  unfold retry_delay. cbv zeta. set (hint := match resp with None => base | Some _ => _ end). clearbody hint.
  pose proof cap_bounds. unfold initialBackoff.
  destruct (Z.ltb_spec (maxBackoffOrDefault rrt) hint); [|destruct (Z.leb_spec hint 0)];
    try (destruct (Z.leb_spec (maxBackoffOrDefault rrt) 0)); lia.
Qed.
(** A wait is never longer than the cap and a quarter. *)
Lemma delayForRetry_bounds base resp w d w' :
  delayForRetry C rrt base resp w = (inr (Some d), w') →
  0 < d ≤ Z.max initialBackoff (maxBackoffOrDefault rrt) * 5 / 4.
Proof using Hrand Hcap.
  unfold delayForRetry, mbind, H_bind, bind, asks, on_st. cbv zeta.
  pose proof (retry_delay_bounds base resp (now C (st w))) as Hd. pose proof cap_bounds.
  set (delay := retry_delay _ _ _ _) in *. clearbody delay.
  pose proof (quot_bounds delay ltac:(lia)) as Hq.
  destruct (Z.leb_spec (Z.quot delay 4) 0); [done|].
  pose proof (Hrand (st w) (Z.quot delay 4) ltac:(lia)) as Hr.
  destruct (rand C (st w)) as [f s']. cbn in *. intros [= <- _].
  pose proof (Z.mul_div_le delay 4). unfold initialBackoff in *.
  assert (Hm : delay + f (Z.quot delay 4) ≤ Z.max 100000000 (maxBackoffOrDefault rrt) * 5 / 4).
  { apply Z.div_le_lower_bound; lia. }
  rewrite wrap64_id; [lia|]. unfold in_int64, int64_min, int64_max. lia.
Qed.
End Delays.

(** ** What goes out and what comes back *)
Section Spec.
Context {S : Type} (C : Client S) (rrt : retryRoundTripper) (optIn : bool) (rebuild : Rebuild).
Context (req : Request).
Definition unreplayable : Prop := match rebuild with NoGetBody | GetBody (inl _) => True | _ => False end.
(** A repetition has the target and the headers of the request, and its body
    as [GetBody] gives it. *)
Definition copy_of (q : Request) : Prop :=
  Method q = Method req ∧ URL q = URL req ∧ req_header q = req_header req ∧
  (payload q = payload req ∨ rebuild = GetBody (inr (payload q))).
(** What is returned is the answer to the last request, or the context's error;
    the body of a response is closed when the request could not be repeated. *)
Definition answer_to (q : Request) (out : RoundTripped) : Prop :=
  match out with
  | None => True
  | Some (Some resp, None) =>
      ∃ s resp', (Do C q s).1 = inr resp' ∧
        (resp = resp' ∨ resp = closed resp' ∧ unreplayable ∧ isRetryableStatus (StatusCode resp') = true)
  | Some (None, Some er) => (∃ s, (Do C q s).1 = inl er) ∨ ∃ d s, (wait C d s).1 = Some er
  | Some _ => False
  end.
(** The pair that is kept between two attempts. *)
Definition kept (q : Request) (resp : option Response) (er : option GoErr) : Prop :=
  match resp, er with
  | Some r, None => ∃ s resp', (Do C q s).1 = inr resp' ∧ r = closed resp' ∧ isRetryableStatus (StatusCode resp') = true
  | None, Some e => ∃ s, (Do C q s).1 = inl e
  | _, _ => False
  end.
Definition went_out (base : list Request) (n : Z) (reqs : list Request) (w : World S) : Prop :=
  sent w = base ++ reqs ∧ Z.of_nat (length reqs) = n ∧ Forall copy_of reqs.

Lemma again_spec q backoff lastResp base n reqs : copy_of q →
  triple (went_out base n reqs) (again C rrt rebuild q backoff lastResp)
    (λ a w, went_out base n reqs w ∧
       match a with
       | GiveUp => unreplayable
       | Cancelled er => ∃ d s, (wait C d s).1 = Some er
       | Panics => True
       | Ready q' _ => copy_of q'
       end) (λ _ _, False).
Proof.
  intros Hq.
  assert (Hwait : ∀ q', copy_of q' → triple (went_out base n reqs)
    (d ← delayForRetry C rrt backoff lastResp;
     match d with
     | None => give Panics
     | Some d => r ← on_st (wait C d);
         match r with
         | Some er => give (Cancelled er)
         | None => give (Ready q' (capBackoff rrt (wrap64 (backoff * 2))))
         end
     end) (λ a w, went_out base n reqs w ∧
       match a with
       | GiveUp => unreplayable
       | Cancelled er => ∃ d s, (wait C d s).1 = Some er
       | Panics => True
       | Ready q' _ => copy_of q'
       end) (λ _ _, False)).
  { intros q' Hq'. eapply (client_bind _ _ _ (λ _, went_out base n reqs)).
    - intros w Hw. unfold delayForRetry, mbind, H_bind, bind, asks, on_st. cbv zeta.
      destruct (_ <=? 0); [done|]. by destruct (rand C (st w)).
    - intros [d|]; [|by apply client_give].
      eapply (client_bind _ _ _ (λ r w, went_out base n reqs w ∧
        match r with Some er => ∃ d s, (wait C d s).1 = Some er | None => True end)).
      + apply client_on_st. intros w Hw. split; [done|].
        destruct (wait C d (st w)).1 eqn:E; [|done]. by eexists _, _.
      + intros [er|]; apply client_give; intros w [Hw H]; (split; [done|]); done. }
  destruct rebuild as [|[er|b]|] eqn:Er; cbn -[delayForRetry].
  - by apply Hwait.
  - apply client_give. intros w Hw. split; [done|]. unfold unreplayable. by rewrite Er.
  - apply Hwait. destruct Hq as (?&?&?&_). repeat split; try done. right. by rewrite Er.
  - apply client_give. intros w Hw. split; [done|]. unfold unreplayable. by rewrite Er.
Qed.

(** [k] requests went out and [q] was the last. *)
Definition last_sent (base : list Request) (k : Z) (q : Request) (w : World S) : Prop :=
  ∃ reqs, went_out base k (reqs ++ [q]) w.
Definition finished (base : list Request) (out : RoundTripped) (w : World S) : Prop :=
  ∃ reqs q, went_out base (Z.of_nat (length reqs) + 1) (reqs ++ [q]) w ∧
    (length reqs < Z.to_nat maxAttempts)%nat ∧ answer_to q out.

Lemma send_spec base k reqs q : copy_of q →
  triple (went_out base k reqs) (Http.attempt (send C q))
    (λ r w, went_out base (k + 1) (reqs ++ [q]) w ∧ ∃ s, (Do C q s).1 = r) (λ _ _, False).
Proof.
  intros Hq. apply client_attempt, client_send. intros w (Hs & Hk & Hr).
  destruct (Do C q (st w)) as [r s'] eqn:E.
  assert (H : went_out base (k + 1) (reqs ++ [q]) (mkWorld s' (sent w ++ [q])) ∧ ∃ s, (Do C q s).1 = r).
  { repeat split; simpl.
    - by rewrite Hs, app_assoc.
    - rewrite length_app. simpl. lia.
    - apply Forall_app; split; [done|by constructor].
    - exists (st w). by rewrite E. }
  by destruct r.
Qed.
Lemma finished_at base k reqs q out w : went_out base k (reqs ++ [q]) w → k ≤ maxAttempts →
  answer_to q out → finished base out w.
Proof.
  intros (Hs & Hk & Hr) Hm Ha. exists reqs, q.
  assert (Hl : Z.of_nat (length (reqs ++ [q])) = Z.of_nat (length reqs) + 1).
  { rewrite length_app. simpl. lia. }
  repeat split; [done..| |done]. unfold maxAttempts in *. lia.
Qed.
Lemma kept_answer q resp er : kept q resp er → unreplayable → answer_to q (Some (resp, er)).
Proof.
  unfold kept, answer_to. intros Hk Hu. destruct resp as [r|], er as [e|]; try done.
  - destruct Hk as (s & resp' & H1 & H2 & H3). exists s, resp'. split; [done|]. by right.
  - by left.
Qed.

Lemma round_trips_spec left : ∀ base attempt backoff q q0 resp er reqs,
  attempt + Z.of_nat left = maxAttempts → 0 ≤ attempt → copy_of q →
  (attempt = 0 ∧ reqs = [] ∧ left ≠ O ∨ 0 < attempt ∧ (∃ rs, reqs = rs ++ [q0]) ∧ kept q0 resp er ∧ left ≠ O) →
  triple (went_out base attempt reqs) (round_trips C rrt optIn rebuild left attempt backoff q resp er)
    (finished base) (λ _ _, False).
Proof.
  induction left as [|left IH]; intros base attempt backoff q q0 resp er reqs Hleft Hpos Hq Hcase;
    [destruct Hcase as [(?&?&?)|(?&?&?&?)]; done|].
  assert (Hmax : attempt + 1 ≤ maxAttempts) by lia.
  change (round_trips C rrt optIn rebuild (Datatypes.S left) attempt backoff q resp er) with
    (next ← (if 0 <? attempt then again C rrt rebuild q backoff resp else give (Ready q backoff));
      match next with
      | GiveUp => give (Some (resp, er))
      | Cancelled er => give (Some (None, Some er))
      | Panics => give None
      | Ready req backoff =>
          r ← Http.attempt (send C req);
          match r with
          | inl er =>
              if negb (isIdempotent optIn req) || (attempt =? maxAttempts - 1) then give (Some (None, Some er))
              else round_trips C rrt optIn rebuild left (attempt + 1) backoff req None (Some er)
          | inr resp =>
              if negb (isRetryableStatus (StatusCode resp)) || negb (isIdempotent optIn req) then
                give (Some (Some resp, None))
              else if attempt =? maxAttempts - 1 then give (Some (Some resp, None))
              else round_trips C rrt optIn rebuild left (attempt + 1) backoff req (Some (closed resp)) None
          end
      end : H S RoundTripped).
  apply (client_bind _ _ _ (λ a w, went_out base attempt reqs w ∧
       match a with
       | GiveUp => unreplayable ∧ 0 < attempt
       | Cancelled er => (∃ d s, (wait C d s).1 = Some er) ∧ 0 < attempt
       | Panics => 0 < attempt
       | Ready q' _ => copy_of q'
       end)).
  { destruct (Z.ltb_spec 0 attempt).
    - eapply client_weaken; [done|by apply again_spec| |done].
      intros [] w [Hw Ha]; split; done.
    - by apply client_give. }
  intros a. apply (client_pre _ (λ w, match a with
       | GiveUp => unreplayable ∧ 0 < attempt
       | Cancelled er => (∃ d s, (wait C d s).1 = Some er) ∧ 0 < attempt
       | Panics => 0 < attempt
       | Ready q' _ => copy_of q'
       end ∧ went_out base attempt reqs w)); [|intros w [? ?]; done].
  apply client_pure. intros Ha.
  assert (Hstop : 0 < attempt → ∀ out, answer_to q0 out →
    triple (went_out base attempt reqs) (give out) (finished base) (λ _ _, False)).
  { intros Hp out Ho. apply client_give. intros w Hw.
    destruct Hcase as [(?&?&?)|(_ & (rs & ->) & _ & _)]; [lia|].
    eapply finished_at; [exact Hw|lia|done]. }
  destruct a as [|er'| |q' b].
  - destruct Ha as [Hu Hp]. apply Hstop; [done|]. apply kept_answer; [|done].
    by destruct Hcase as [(?&?&?)|(_ & _ & Hk & _)]; [lia|].
  - destruct Ha as [Hc Hp]. apply Hstop; [done|]. by right.
  - by apply Hstop.
  - eapply client_bind; [by apply send_spec|]. intros r.
    apply (client_pre _ (λ w, (∃ s, (Do C q' s).1 = r) ∧ went_out base (attempt + 1) (reqs ++ [q']) w));
      [|intros w [? ?]; done].
    apply client_pure. intros [s Hs].
    assert (Hnow : ∀ out, answer_to q' out →
      triple (went_out base (attempt + 1) (reqs ++ [q'])) (give out) (finished base) (λ _ _, False)).
    { intros out Ho. apply client_give. intros w Hw. by eapply finished_at. }
    destruct r as [er'|resp'].
    + destruct (negb _ || _) eqn:E; [apply Hnow; left; eauto|].
      apply orb_false_elim in E as [_ E%Z.eqb_neq].
      eapply (IH _ _ _ _ q'); [lia|lia|done|]. right. repeat split; [lia|by eexists|by exists s|lia].
    + destruct (negb _ || _) eqn:E; [apply Hnow; exists s, resp'; by auto|].
      apply orb_false_elim in E as [Hret%negb_false_iff _].
      destruct (Z.eqb_spec attempt (maxAttempts - 1)); [apply Hnow; exists s, resp'; by auto|].
      eapply (IH _ _ _ _ q'); [lia|lia|done|]. right.
      repeat split; [lia|by eexists| |lia]. by exists s, resp'.
Qed.
Lemma round_trip_once (w : World S) : isIdempotent optIn req = false →
  RoundTrip C rrt optIn rebuild req w =
    let '(r, s') := Do C req (st w) in
    (inr (Some match r with inl er => (None, Some er) | inr resp => (Some resp, None) end),
     mkWorld s' (sent w ++ [req])).
Proof.
  intros Hi. unfold RoundTrip. change (Z.to_nat maxAttempts) with 3%nat. cbn [round_trips].
  unfold mbind, H_bind, bind. cbn [Z.ltb Z.compare give]. unfold give, Http.attempt, send. rewrite Hi.
  destruct (Do C req (st w)) as [[er|resp] s']; [done|]. by rewrite orb_true_r.
Qed.
End Spec.


(** ** Two corners *)
Definition served (answers : list Response) : Request → nat → (GoErr + Response) * nat :=
  λ _ k, (match nth_error answers k with Some a => inr a | None => inl (leaf (DNew "EOF")) end, Datatypes.S k).
Definition scripted (answers : list Response) (now : Z) : Client nat :=
  mkClient nat (served answers) (λ _, None) (λ _, None) (λ _ s, (None, s)) (λ s, (λ n, n / 2, s)) (λ _, now).
Definition busy (retryAfter : string) : Response :=
  mkResponse 503 (-1) [("Retry-After", retryAfter)] (of_text "try later") AtEOF.
Definition asked : Request := mkRequest "GET" "https://example.com" [] [].
(** A request whose body cannot be built again gets its answer with a body that
    is closed. *)
Example unreplayable_answer_is_closed :
  (RoundTrip (scripted [busy "1"] 0) (mkRetryRoundTripper 0) true NoGetBody
     (mkRequest "PUT" "https://example.com" [] (of_text "x")) (mkWorld O [])).1 =
  inr (Some (Some (closed (busy "1")), None)).
Proof. vm_compute. done. Qed.
(** A date that is less than four nanoseconds away leaves nothing to draw the
    jitter from. *)
Example near_date_panics :
  (RoundTrip (scripted [busy "Tue, 14 Nov 2023 22:14:20 GMT"] (1700000060 * Second - 3)) (mkRetryRoundTripper 0) false
     NoBody asked (mkWorld O [])).1 = inr None.
Proof. vm_compute. done. Qed.
Example third_answer_is_returned :
  (RoundTrip (scripted [busy "1"; busy "2"; busy "3"; busy "4"] 0) (mkRetryRoundTripper 0) false
     NoBody asked (mkWorld O [])).1 = inr (Some (Some (busy "3"), None)).
Proof. vm_compute. done. Qed.
