(* ===== verification/Webhooks.v ===== *)
(** * Outgoing webhooks

    [src/internal/repository/webhook_repo.go],
    [src/internal/services/webhook_dispatcher.go], [webhook_signer.go],
    [src/internal/worker/webhook_worker.go] and
    [src/pkg/api/webhooks_handlers.go]: an event is recorded once and fans out
    into one delivery per subscribed endpoint; the worker claims due deliveries
    under a lease, posts the signed event and writes what became of it.

    PostgreSQL's reading of JSON and of UUIDs are arguments.  So is
    [array_scans]: whether the driver hands [database/sql] a TEXT[] column in a
    form that [Scan] stores into a [[]string]; lib/pq gives the bytes of the
    literal, which it does not ([WebhooksProps.webhooks_never_sent]).  A text
    column takes what is UTF-8 without a zero byte.  A query whose rows break off
    in the middle is a failed statement here; the listings, which do not look at
    [rows.Err], would take what they have for everything. *)

From S2P Require Import Prelude Store GoError ErrorClass.
From S2P Require Backoff Codec Http HttpClient Sha256 Storage.
From Stdlib Require Import ZArith Lia.
Local Open Scope Z_scope.

(** ** Rows *)
(* Source: internal/repository/webhook_repo.go *)
(* 34-43 WebhookEndpoint *)
Record WebhookEndpoint := mkEndpoint {
  ep_ID : Z;
  ep_WorkspaceID : Z;
  ep_URL : string;
  ep_Secret : string;
  ep_Events : list string;
  ep_Status : string;
  ep_CreatedAt : Z;
  ep_UpdatedAt : Z
}.
(* 153-160 WebhookEvent *)
Record WebhookEvent := mkEvent {
  we_ID : Z;
  we_EventID : string;
  we_EventType : string;
  we_WorkspaceID : Z;
  we_Payload : string;
  we_CreatedAt : Z
}.
(** The texts are read through COALESCE: [""] is NULL. *)
(* 205-221 WebhookDelivery *)
Record WebhookDelivery := mkDelivery {
  wd_ID : Z;
  wd_EventID : Z;
  wd_EndpointID : Z;
  wd_Attempt : Z;
  wd_Status : string;
  wd_RequestLog : string;
  wd_ResponseLog : string;
  wd_ScheduledAt : Z;
  wd_CompletedAt : option Z;
  wd_LastError : string;
  wd_LeaseID : option string;
  wd_LeaseUntil : option Z;
  wd_HeartbeatAt : option Z
}.
Definition ErrWebhookEndpointNotFound : err := (* 46 *)
  sentinel "ErrWebhookEndpointNotFound" "webhook endpoint not found".
Definition ErrWebhookEventNotFound : err := (* 198 *)
  sentinel "ErrWebhookEventNotFound" "webhook event not found".
Definition ErrWebhookDeliveryNotFound : err := (* 224 *)
  sentinel "ErrWebhookDeliveryNotFound" "webhook delivery not found".
Definition ErrWebhookLeaseLost : err := (* 229 *)
  sentinel "ErrWebhookLeaseLost" "webhook delivery lease lost".
(** The three tables, the ids of the workspaces and the sequences. *)
(* Source: internal/database/migrations/033_webhook_runtime.sql *)
(* 42-66 webhook_endpoints *)
Record WebhookDB := mkWebhookDB {
  workspaces : gset Z;
  endpoints : gmap Z WebhookEndpoint;
  events : gmap Z WebhookEvent;
  deliveries : gmap Z WebhookDelivery;
  endpoint_serial : Z;
  event_serial : Z;
  delivery_serial : Z
}.
Definition on_deliveries {A} (f : gmap Z WebhookDelivery → A * gmap Z WebhookDelivery) (db : WebhookDB) :
    A * WebhookDB :=
  let '(a, t) := f (deliveries db) in
  (a, mkWebhookDB (workspaces db) (endpoints db) (events db) t (endpoint_serial db) (event_serial db)
        (delivery_serial db)).

(** What a column of type TEXT takes. *)
Definition storable (s : string) : bool :=
  bool_decide (Storage.of_runes (Storage.runes s) = s) &&
  negb (existsb (λ a, bool_decide (a = ascii_of_N 0)) (String.list_ascii_of_string s)).

Section Repository.
Context (jsonb : string → option string) (uuid_in : string → option string) (array_scans : bool).
(** What a statement returned, or the server's refusal. *)
Definition refused {A} (r : err + A) : M WebhookDB A :=
  match r with inl er => throw er | inr a => mret a end.

(** ** Endpoints *)
(* Source: internal/repository/webhook_repo.go *)
(* 50-58 WebhookRepository.CreateEndpoint *)
Definition insert_endpoint (p : WebhookEndpoint) (e : Env) (db : WebhookDB) : (err + WebhookEndpoint) * WebhookDB :=
  let id := endpoint_serial db in
  let next eps := mkWebhookDB (workspaces db) eps (events db) (deliveries db) (id + 1) (event_serial db)
                    (delivery_serial db) in
  if negb (forallb storable (ep_URL p :: ep_Secret p :: ep_Status p :: ep_Events p)) then
    (inl (db_err "create webhook endpoint"), db)
  else if negb (bool_decide (ep_Status p ∈ ["active"; "disabled"])) || negb (bool_decide (ep_WorkspaceID p ∈ workspaces db))
  then (inl (db_err "create webhook endpoint"), next (endpoints db))
  else
    let row := mkEndpoint id (ep_WorkspaceID p) (ep_URL p) (ep_Secret p) (ep_Events p) (ep_Status p)
                 (db_now e) (db_now e) in
    (inr row, next (<[id := row]> (endpoints db))).
(** The row with what the server filled in. *)
(* 49-60 WebhookRepository.CreateEndpoint *)
Definition CreateEndpoint (p : WebhookEndpoint) : M WebhookDB WebhookEndpoint :=
  r ← exec "create webhook endpoint" (insert_endpoint p); refused r.
(* 63-77 WebhookRepository.FindEndpointByID *)
Definition FindEndpointByID (id : Z) : M WebhookDB WebhookEndpoint :=
  r ← exec "find webhook endpoint" (λ _ db, (endpoints db !! id, db));
  match r with
  | None => throw ErrWebhookEndpointNotFound
  | Some p => if array_scans then mret p else throw (db_err "find webhook endpoint")
  end.
Definition by_endpoint_id (p q : WebhookEndpoint) : bool := ep_ID p <=? ep_ID q.
Definition endpoints_where (p : WebhookEndpoint → bool) (db : WebhookDB) : list WebhookEndpoint :=
  sort_by by_endpoint_id (List.filter p (map_to_list (endpoints db)).*2).
Definition scanned (op : string) (l : list WebhookEndpoint) : M WebhookDB (list WebhookEndpoint) :=
  if array_scans || bool_decide (l = []) then mret l else throw (db_err op).
(* 81-102 WebhookRepository.ListEndpointsForWorkspace *)
Definition ListEndpointsForWorkspace (workspaceID : Z) (includeDisabled : bool) : M WebhookDB (list WebhookEndpoint) :=
  l ← exec "list webhook endpoints" (λ _ db, (endpoints_where (λ p, (ep_WorkspaceID p =? workspaceID) &&
        (includeDisabled || bool_decide (ep_Status p = "active"))) db, db));
  scanned "scan webhook endpoint" l.
(** The deliveries go with the endpoint. *)
(* 106-121 WebhookRepository.DeleteEndpoint *)
Definition DeleteEndpoint (id : Z) : M WebhookDB unit :=
  k ← exec "delete webhook endpoint" (λ _ db,
    match endpoints db !! id with
    | None => (O, db)
    | Some _ => (1%nat, mkWebhookDB (workspaces db) (delete id (endpoints db)) (events db)
        (filter (λ kd, wd_EndpointID kd.2 ≠ id) (deliveries db)) (endpoint_serial db) (event_serial db)
        (delivery_serial db))
    end);
  n ← rows_affected "delete webhook endpoint" k;
  if bool_decide (n = O) then throw ErrWebhookEndpointNotFound else mret tt.
Definition subscribed (workspaceID : Z) (eventType : string) (p : WebhookEndpoint) : bool :=
  (ep_WorkspaceID p =? workspaceID) && bool_decide (ep_Status p = "active") &&
  bool_decide (eventType ∈ ep_Events p).
(** In the order of the ids; the query has no order. *)
(* 126-146 WebhookRepository.ListActiveEndpointsForEvent *)
Definition ListActiveEndpointsForEvent (workspaceID : Z) (eventType : string) : M WebhookDB (list WebhookEndpoint) :=
  l ← exec "list active endpoints for event" (λ _ db, (endpoints_where (subscribed workspaceID eventType) db, db));
  scanned "scan endpoint" l.

(** ** Events *)
Definition find_event (eventID : string) (db : WebhookDB) : option WebhookEvent :=
  head (List.filter (λ v, bool_decide (we_EventID v = eventID)) (map_to_list (events db)).*2).
(** On a known event id the old row stays as it is, and is returned. *)
(* 167-173 WebhookRepository.InsertEvent *)
Definition insert_event (v : WebhookEvent) (e : Env) (db : WebhookDB) : (err + Z * Z) * WebhookDB :=
  let id := event_serial db in
  let next evs := mkWebhookDB (workspaces db) (endpoints db) evs (deliveries db) (endpoint_serial db) (id + 1)
                    (delivery_serial db) in
  match jsonb (we_Payload v) with
  | None => (inl (db_err "insert webhook event"), db)
  | Some payload =>
      if negb (storable (we_EventID v) && storable (we_EventType v)) then (inl (db_err "insert webhook event"), db)
      else match find_event (we_EventID v) db with
      | Some old => (inr (we_ID old, we_CreatedAt old), next (events db))
      | None =>
          if bool_decide (we_WorkspaceID v ∈ workspaces db) then
            (inr (id, db_now e),
             next (<[id := mkEvent id (we_EventID v) (we_EventType v) (we_WorkspaceID v) payload (db_now e)]>
                     (events db)))
          else (inl (db_err "insert webhook event"), next (events db))
      end
  end.
(** The id and the time of creation that are scanned. *)
(* 166-178 WebhookRepository.InsertEvent *)
Definition InsertEvent (v : WebhookEvent) : M WebhookDB (Z * Z) :=
  r ← exec "insert webhook event" (insert_event v); refused r.
(* 181-195 WebhookRepository.FindEventByID *)
Definition FindEventByID (id : Z) : M WebhookDB WebhookEvent :=
  r ← exec "find webhook event" (λ _ db, (events db !! id, db));
  match r with None => throw ErrWebhookEventNotFound | Some v => mret v end.

(** ** Deliveries *)
Definition same_pair (event endpoint : Z) (d : WebhookDelivery) : bool :=
  (wd_EventID d =? event) && (wd_EndpointID d =? endpoint).
(** [inr false]: the pair is already there. *)
(* 241-252 WebhookRepository.CreateDelivery *)
Definition insert_delivery (event endpoint : Z) (e : Env) (db : WebhookDB) : (err + bool) * WebhookDB :=
  let id := delivery_serial db in
  let next ds := mkWebhookDB (workspaces db) (endpoints db) (events db) ds (endpoint_serial db) (event_serial db)
                   (id + 1) in
  if existsb (same_pair event endpoint) (map_to_list (deliveries db)).*2 then (inr false, next (deliveries db))
  else if bool_decide (is_Some (events db !! event)) && bool_decide (is_Some (endpoints db !! endpoint)) then
    (inr true, next (<[id := mkDelivery id event endpoint 0 "pending" "" "" (db_now e) None "" None None None]>
                      (deliveries db)))
  else (inl (db_err "create webhook delivery"), next (deliveries db)).
(* 240-257 WebhookRepository.CreateDelivery *)
Definition CreateDelivery (event endpoint : Z) : M WebhookDB bool :=
  r ← exec "create webhook delivery" (insert_delivery event endpoint); refused r.

(** [NOW() + (to_char(seconds, '%f') || ' seconds')::INTERVAL]: microseconds. *)
Definition interval (ttl : Z) : Z := (ttl + 500) / 1000 * 1000.
Definition lease_free (now : Z) (d : WebhookDelivery) : bool :=
  match wd_LeaseUntil d with None => true | Some u => u <=? now end.
Definition claimable (now : Z) (d : WebhookDelivery) : bool :=
  bool_decide (wd_Status d = "pending") && lease_free now d.
Definition due (now : Z) (d : WebhookDelivery) : bool := claimable now d && (wd_ScheduledAt d <=? now).
Definition due_order (x y : WebhookDelivery) : bool :=
  (wd_ScheduledAt x <? wd_ScheduledAt y) || ((wd_ScheduledAt x =? wd_ScheduledAt y) && (wd_ID x <=? wd_ID y)).
(* 277-288 WebhookRepository.ClaimDueDeliveries *)
Definition select_due (limit : Z) (e : Env) (db : WebhookDB) : list WebhookDelivery :=
  take (Z.to_nat limit) (sort_by due_order
    (List.filter (λ d, due (db_now e) d && negb (held e (wd_ID d))) (map_to_list (deliveries db)).*2)).
(** The lease on a row: what the UPDATE sets. *)
(* 315-323 WebhookRepository.ClaimDueDeliveries *)
Definition stamped (leaseID : string) (ttl : Z) (e : Env) (d : WebhookDelivery) : WebhookDelivery :=
  mkDelivery (wd_ID d) (wd_EventID d) (wd_EndpointID d) (wd_Attempt d + 1) (wd_Status d) (wd_RequestLog d)
    (wd_ResponseLog d) (wd_ScheduledAt d) (wd_CompletedAt d) (wd_LastError d) (Some leaseID)
    (Some (db_now e + interval ttl)) (Some (db_now e)).
Definition stamp (leaseID : string) (ttl id : Z) (e : Env) (db : WebhookDB) : option WebhookDelivery * WebhookDB :=
  on_deliveries (λ t, let '(k, t') := update_row id (claimable (db_now e)) (stamped leaseID ttl e) t in
    (if bool_decide (k = O) then None else t' !! id, t')) db.
(** [new_uuid i] is the UUID of the [i]-th row. *)
(* 311-331 WebhookRepository.ClaimDueDeliveries *)
Fixpoint stamp_all (new_uuid : nat → string) (ttl : Z) (i : nat) (l : list WebhookDelivery) :
    M WebhookDB (list WebhookDelivery) :=
  match l with
  | [] => mret []
  | d :: l =>
      r ← exec "stamp webhook lease" (stamp (new_uuid i) ttl (wd_ID d));
      match r with
      | None => throw (wrap "stamp webhook lease" (sentinel "sql.ErrNoRows" "sql: no rows in result set"))
      | Some d' => ds ← stamp_all new_uuid ttl (Datatypes.S i) l; mret (d' :: ds)
      end
  end.
(* 264-336 WebhookRepository.ClaimDueDeliveries *)
Definition ClaimDueDeliveries (new_uuid : nat → string) (limit leaseTTL : Z) : M WebhookDB (list WebhookDelivery) :=
  let limit := if limit <=? 0 then 25 else limit in
  if leaseTTL <=? 0 then throw (errors_new "claim due deliveries: lease TTL must be positive")
  else transact "claim tx" (
    out ← exec "claim due deliveries" (λ e db, (select_due limit e db, db));
    ds ← stamp_all new_uuid leaseTTL 0 out;
    mret (Commit ds)).

(** *** Writes under the lease *)
Definition fenced (leaseID : string) (now : Z) (d : WebhookDelivery) : bool :=
  bool_decide (wd_Status d = "pending") && bool_decide (wd_LeaseID d = Some leaseID) &&
  match wd_LeaseUntil d with None => false | Some u => now <? u end.
(** The server refuses an id that is no UUID and a text it cannot store. *)
Definition fenced_update (op : string) (texts : list string) (id : Z) (leaseID : string)
    (f : Env → WebhookDelivery → WebhookDelivery) (e : Env) (db : WebhookDB) : (err + nat) * WebhookDB :=
  match uuid_in leaseID with
  | None => (inl (db_err op), db)
  | Some l =>
      if negb (forallb storable texts) then (inl (db_err op), db)
      else let '(k, db') := on_deliveries (update_row id (fenced l (db_now e)) (f e)) db in (inr k, db')
  end.
(** The error of [RowsAffected] is dropped: nothing was affected then. *)
Definition exec_fenced (op : string) (texts : list string) (id : Z) (leaseID : string)
    (f : Env → WebhookDelivery → WebhookDelivery) : M WebhookDB unit :=
  r ← exec op (fenced_update op texts id leaseID f);
  k ← refused r;
  n ← try (rows_affected op k);
  if bool_decide (match n with inr n => n | inl _ => O end = O) then
    throw (wrap_suffix ErrWebhookLeaseLost ("id=" +:+ itoa id))
  else mret tt.
(* 340-359 WebhookRepository.HeartbeatLease *)
Definition HeartbeatLease (id : Z) (leaseID : string) (leaseTTL : Z) : M WebhookDB unit :=
  if bool_decide (leaseID = "") || (leaseTTL <=? 0) then
    throw (errors_new "heartbeat webhook lease: invalid lease arguments")
  else exec_fenced "heartbeat webhook lease" [] id leaseID (λ e d,
    mkDelivery (wd_ID d) (wd_EventID d) (wd_EndpointID d) (wd_Attempt d) (wd_Status d) (wd_RequestLog d)
      (wd_ResponseLog d) (wd_ScheduledAt d) (wd_CompletedAt d) (wd_LastError d) (wd_LeaseID d)
      (Some (db_now e + interval leaseTTL)) (Some (db_now e))).
Definition succeeded (responseLog : string) (e : Env) (d : WebhookDelivery) : WebhookDelivery :=
  mkDelivery (wd_ID d) (wd_EventID d) (wd_EndpointID d) (wd_Attempt d) "success" (wd_RequestLog d)
    responseLog (wd_ScheduledAt d) (Some (db_now e)) (wd_LastError d) None None None.
(* 364-380 WebhookRepository.MarkSuccess *)
Definition MarkSuccess (id : Z) (leaseID responseLog : string) : M WebhookDB unit :=
  exec_fenced "mark success" [responseLog] id leaseID (succeeded responseLog).
Definition rescheduled (lastError requestLog responseLog : string) (next : Z) (d : WebhookDelivery) : WebhookDelivery :=
  mkDelivery (wd_ID d) (wd_EventID d) (wd_EndpointID d) (wd_Attempt d) (wd_Status d) requestLog responseLog
    next (wd_CompletedAt d) lastError None None None.
(* 383-400 WebhookRepository.MarkRetry *)
Definition MarkRetry (id : Z) (leaseID lastError requestLog responseLog : string) (nextAttemptAt : Z) : M WebhookDB unit :=
  exec_fenced "mark retry" [lastError; requestLog; responseLog] id leaseID
    (λ _, rescheduled lastError requestLog responseLog nextAttemptAt).
Definition died (lastError requestLog responseLog : string) (e : Env) (d : WebhookDelivery) : WebhookDelivery :=
  mkDelivery (wd_ID d) (wd_EventID d) (wd_EndpointID d) (wd_Attempt d) "dead" requestLog responseLog
    (wd_ScheduledAt d) (Some (db_now e)) lastError None None None.
(* 403-420 WebhookRepository.MarkDead *)
Definition MarkDead (id : Z) (leaseID lastError requestLog responseLog : string) : M WebhookDB unit :=
  exec_fenced "mark dead" [lastError; requestLog; responseLog] id leaseID (died lastError requestLog responseLog).
(* 423-454 WebhookRepository.FindDeliveryByID *)
Definition FindDeliveryByID (id : Z) : M WebhookDB WebhookDelivery :=
  r ← exec "find delivery" (λ _ db, (deliveries db !! id, db));
  match r with None => throw ErrWebhookDeliveryNotFound | Some d => mret d end.
Definition replayed (e : Env) (d : WebhookDelivery) : WebhookDelivery :=
  mkDelivery (wd_ID d) (wd_EventID d) (wd_EndpointID d) 0 "pending" (wd_RequestLog d) "" (db_now e) None "" None
    None None.
(* 460-480 WebhookRepository.MarkReplay *)
Definition MarkReplay (id : Z) : M WebhookDB unit :=
  k ← exec "mark replay" (λ e, on_deliveries (update_row id (λ d, bool_decide (wd_Status d = "dead")) (replayed e)));
  n ← rows_affected "mark replay" k;
  if bool_decide (n = O) then throw ErrWebhookDeliveryNotFound else mret tt.
Definition outdated (cutoff : Z) (d : WebhookDelivery) : bool :=
  bool_decide (wd_Status d ∈ ["success"; "dead"]) &&
  match wd_CompletedAt d with None => false | Some t => t <? cutoff end.
(* 485-499 WebhookRepository.DeleteOlderThan *)
Definition DeleteOlderThan (cutoff : Z) : M WebhookDB nat :=
  k ← exec "delete older than" (λ _, on_deliveries (λ t,
    (size (filter (λ kd, outdated cutoff kd.2 = true) t), filter (λ kd, outdated cutoff kd.2 = false) t)));
  rows_affected "delete older than" k.
End Repository.

(** ** Emitting an event *)
(* Source: internal/services/webhook_dispatcher.go *)
Definition EventAccountConnected : string := "account.connected". (* 43 *)
Definition EventAccountReauthenticationRequired : string := "account.reauthentication_required". (* 44 *)
Definition EventPostPublished : string := "post.published". (* 45 *)
Definition EventPostPartiallyPublished : string := "post.partially_published". (* 46 *)
Definition EventPostFailed : string := "post.failed". (* 47 *)
Definition EventPostTargetPublished : string := "post_target.published". (* 48 *)
Definition EventPostTargetFailed : string := "post_target.failed". (* 49 *)
Definition MaxAttempts : Z := 5. (* 54 *)
(* 80-85 WebhookEvent *)
Record EmittedEvent := mkEmitted {
  em_EventID : string;
  em_EventType : string;
  em_WorkspaceID : Z;
  em_Payload : string
}.
Section Dispatcher.
Context (jsonb : string → option string) (array_scans : bool).
(* 160-173 WebhookDispatcher.Emit *)
Fixpoint fan_out (event : Z) (l : list WebhookEndpoint) : M WebhookDB unit :=
  match l with
  | [] => mret tt
  | p :: l => _ ← try (CreateDelivery event (ep_ID p)); fan_out event l
  end.
(** [random]: the 16 bytes of the dispatcher's own source.  The three values that
    are returned. *)
(* 114-175 WebhookDispatcher.Emit *)
Definition Emit (random : list Z) (v : EmittedEvent) : M WebhookDB (string * Z * option err) :=
  let errorf msg : M WebhookDB (string * Z * option err) := mret ("", 0, Some (errors_new msg)) in
  if bool_decide (em_EventType v = "") then errorf "dispatcher: EventType is required"
  else if em_WorkspaceID v <=? 0 then errorf "dispatcher: WorkspaceID is required"
  else if bool_decide (em_Payload v = "") then errorf "dispatcher: Payload is required"
  else
    let eventID := if bool_decide (em_EventID v = "") then "evt_" +:+ Sha256.EncodeToString random else em_EventID v in
    r ← try (InsertEvent jsonb (mkEvent 0 eventID (em_EventType v) (em_WorkspaceID v) (em_Payload v) 0));
    match r with
    | inl er => mret ("", 0, Some (wrap "dispatcher: insert event" er))
    | inr (id, _) =>
        l ← try (ListActiveEndpointsForEvent array_scans (em_WorkspaceID v) (em_EventType v));
        match l with
        | inl er => mret (eventID, 0, Some (wrap "dispatcher: list endpoints" er))
        | inr l => _ ← fan_out id l; mret (eventID, Z.of_nat (length l), None)
        end
    end.
End Dispatcher.

Definition next_base : Z := 60 * Second. (* 199 *)
Definition next_cap : Z := 12 * Hour. (* 200 *)
(** The doublings and the product with three are exact in [float64]. *)
(* 194-214 WebhookDispatcher.NextAttempt *)
Definition NextAttempt (int63n : Z → Z) (attempt now : Z) : Z :=
  let attempt := if attempt <? 1 then 1 else attempt in
  let prev := Nat.iter (Z.to_nat attempt) (λ p, p * 2) next_base in
  let prev := if next_cap <? prev then next_cap else prev in
  let temp := prev * 3 in
  let temp := if next_cap <? temp then next_cap else temp in
  now + Backoff.UniformDuration next_base temp int63n.
(** Success, dead, retry. *)
(* 219-229 IsTerminalStatus *)
Definition IsTerminalStatus (httpStatus : Z) (timedOut : bool) : bool * bool * bool :=
  if timedOut then
    let c := ClassifyError (leaf (DSentinel "context.DeadlineExceeded" "context deadline exceeded")) in
    (false, negb (Retryable c), Retryable c)
  else match ClassifyHTTPStatus "webhook" "delivery" httpStatus 0 with
  | None => (true, false, false)
  | Some c => (false, negb (Retryable c), Retryable c)
  end.

(** ** Signatures *)
(* Source: internal/services/webhook_signer.go *)
(* 48-55 WebhookSigner.Sign *)
Definition Sign (secret : string) (ts : Z) (eventID body : string) : string :=
  Sha256.EncodeToString (Sha256.bytes_of (Storage.hmacSHA256 secret (itoa ts +:+ "." +:+ body))).
(* 61-63 WebhookSigner.SignatureHeader *)
Definition SignatureHeader (secret : string) (ts : Z) (eventID body : string) : string :=
  "sha256=" +:+ Sign secret ts eventID body.
(* 69-79 WebhookSigner.FormatHeaders *)
Definition FormatHeaders (now : Z) (secret eventID body : string) : Z * list (string * string) :=
  let ts := now / Second in
  (ts, [("X-Signature", SignatureHeader secret ts eventID body); ("X-Timestamp", itoa ts); ("X-Event-Id", eventID);
        ("Content-Type", "application/json"); ("User-Agent", "InstaEditLogin-Webhooks/1.0")]).
(* 85-95 WebhookSigner.Verify *)
Definition Verify (secret : string) (ts : Z) (eventID signatureHex body : string) : bool :=
  match Sha256.DecodeString (Sign secret ts eventID body), Sha256.DecodeString signatureHex with
  | Some expected, Some got => bool_decide (expected = got)
  | _, _ => false
  end.

(** ** Operations on the tables, as sequences of steps *)
Inductive WebhookOp :=
| OpCreateEndpoint (p : WebhookEndpoint)
| OpDeleteEndpoint (id : Z)
| OpDeleteWorkspace (id : Z)
| OpEmit (random : list Z) (v : EmittedEvent)
| OpClaim (new_uuid : nat → string) (limit ttl : Z)
| OpHeartbeat (id : Z) (leaseID : string) (ttl : Z)
| OpSuccess (id : Z) (leaseID responseLog : string)
| OpRetry (id : Z) (leaseID lastError requestLog responseLog : string) (next : Z)
| OpDead (id : Z) (leaseID lastError requestLog responseLog : string)
| OpReplay (id : Z)
| OpSweep (cutoff : Z).
(** What the cascades take with a workspace. *)
Definition drop_workspace (id : Z) (db : WebhookDB) : WebhookDB :=
  let eps := filter (λ kp, ep_WorkspaceID kp.2 ≠ id) (endpoints db) in
  let evs := filter (λ kv, we_WorkspaceID kv.2 ≠ id) (events db) in
  mkWebhookDB (workspaces db ∖ {[ id ]}) eps evs
    (filter (λ kd, is_Some (eps !! wd_EndpointID kd.2) ∧ is_Some (evs !! wd_EventID kd.2)) (deliveries db))
    (endpoint_serial db) (event_serial db) (delivery_serial db).
Section History.
Context (jsonb : string → option string) (uuid_in : string → option string) (array_scans : bool).
Definition run_op (op : WebhookOp) : M WebhookDB unit :=
  match op with
  | OpCreateEndpoint p => _ ← CreateEndpoint p; mret tt
  | OpDeleteEndpoint id => DeleteEndpoint id
  | OpDeleteWorkspace id => exec "delete workspace" (λ _ db, (tt, drop_workspace id db))
  | OpEmit random v => _ ← Emit jsonb array_scans random v; mret tt
  | OpClaim new_uuid limit ttl => _ ← ClaimDueDeliveries new_uuid limit ttl; mret tt
  | OpHeartbeat id l ttl => HeartbeatLease uuid_in id l ttl
  | OpSuccess id l responseLog => MarkSuccess uuid_in id l responseLog
  | OpRetry id l lastError requestLog responseLog next => MarkRetry uuid_in id l lastError requestLog responseLog next
  | OpDead id l lastError requestLog responseLog => MarkDead uuid_in id l lastError requestLog responseLog
  | OpReplay id => MarkReplay id
  | OpSweep cutoff => _ ← DeleteOlderThan cutoff; mret tt
  end.
Definition history := list (Env * WebhookOp).
Definition run_history (h : history) (db : WebhookDB) : WebhookDB :=
  foldl (λ db eo, state_of (run_op eo.2 eo.1 (db, O))) db h.
End History.

(** ** The worker *)
(* Source: internal/worker/webhook_worker.go *)
Definition DefaultWebhookInterval : Z := 5 * Second. (* 20 *)
Definition DefaultWebhookHTTPTimeout : Z := 30 * Second. (* 21 *)
Definition DefaultWebhookBatchSize : Z := 25. (* 22 *)
Definition DefaultWebhookConcurrency : Z := 4. (* 23 *)
Definition DefaultWebhookLeaseTTL : Z := 60 * Second. (* 24 *)
(* 40-49 WebhookWorkerOptions *)
Record WebhookWorkerOptions := mkOptions {
  Interval : Z;
  BatchSize : Z;
  Concurrency : Z;
  HTTPTimeout : Z;
  LeaseTTL : Z;
  HeartbeatInterval : Z
}.
(** The fields of the worker that the options decide. *)
(* 75-115 NewWebhookWorkerWithOptions *)
Definition NewWebhookWorkerWithOptions (o : WebhookWorkerOptions) : WebhookWorkerOptions :=
  let or_default x d := if x <=? 0 then d else x in
  let timeout := or_default (HTTPTimeout o) DefaultWebhookHTTPTimeout in
  let ttl := or_default (LeaseTTL o) DefaultWebhookLeaseTTL in
  let minimumLease := wrap64 (timeout + 10 * Second) in
  let ttl := if ttl <? minimumLease then minimumLease else ttl in
  let heartbeat := if HeartbeatInterval o <=? 0 then Z.quot ttl 3 else HeartbeatInterval o in
  let heartbeat := if ttl <=? heartbeat then Z.quot ttl 3 else heartbeat in
  mkOptions (or_default (Interval o) DefaultWebhookInterval) (or_default (BatchSize o) DefaultWebhookBatchSize)
    (or_default (Concurrency o) DefaultWebhookConcurrency) timeout ttl heartbeat.
(* 129-134 WebhookWorker.WithConcurrency *)
Definition WithConcurrency (n : Z) (o : WebhookWorkerOptions) : WebhookWorkerOptions :=
  if 0 <? n then mkOptions (Interval o) (BatchSize o) n (HTTPTimeout o) (LeaseTTL o) (HeartbeatInterval o) else o.
(* 135-147 WebhookWorker.WithLeaseTTL *)
Definition WithLeaseTTL (ttl : Z) (o : WebhookWorkerOptions) : WebhookWorkerOptions :=
  if 0 <? ttl then
    let minimum := wrap64 (HTTPTimeout o + 10 * Second) in
    let ttl := if ttl <? minimum then minimum else ttl in
    mkOptions (Interval o) (BatchSize o) (Concurrency o) (HTTPTimeout o) ttl
      (if ttl <=? HeartbeatInterval o then Z.quot ttl 3 else HeartbeatInterval o)
  else o.

(** While a request is on its way the other goroutines of the worker, its
    heartbeats and other processes work on the tables; the answer comes at a later
    moment.  [status_line] is [resp.Status]. *)
Record Deps := mkDeps {
  Do : list Http.Request → Http.Request → GoErr + Http.Response;
  bad_url : string → option GoErr;
  status_line : Http.Response → string;
  peers : list Http.Request → history;
  after : list Http.Request → Env;
  int63n : list Http.Request → Z → Z;
  new_uuid : list Http.Request → nat → string
}.
Record World := mkWorld { tables : WebhookDB; sent : list Http.Request }.
Definition on_tables {A} : M WebhookDB A → M World A := zoom tables (λ t w, mkWorld t (sent w)).
Section Worker.
Context (jsonb : string → option string) (uuid_in : string → option string) (array_scans : bool).
Context (D : Deps) (o : WebhookWorkerOptions).
Definition post (req : Http.Request) : M World (GoErr + Http.Response) := λ e w,
  let log := sent w.1 ++ [req] in
  (inr (Do D log req), (mkWorld (run_history jsonb uuid_in array_scans (peers D log) (tables w.1)) log, w.2)).
(** The moment of the last answer, and what was drawn then. *)
Definition later {A} (f : Env → (Z → Z) → M World A) : M World A := λ e w,
  let e' := after D (sent w.1) in f e' (int63n D (sent w.1)) e' w.
(** The outcome is counted and logged. *)
(* 298-304 WebhookWorker.markDead *)
Definition markDead (d : WebhookDelivery) (leaseID lastErr requestLog responseLog : string) : M World unit :=
  _ ← try (on_tables (MarkDead uuid_in (wd_ID d) leaseID lastErr requestLog responseLog)); mret tt.
(* 271-296 WebhookWorker.routeFailure *)
Definition routeFailure (int63n : Z → Z) (d : WebhookDelivery) (leaseID : string) (classification : option NormalizedError)
    (detail requestLog responseLog : string) : M World unit :=
  let c := default (ClassifyError (leaf (DNew "webhook delivery failure"))) classification in
  let lastError := if bool_decide (detail = "") then Code c else Code c +:+ ": " +:+ detail in
  if negb (Retryable c) || bool_decide (Kind c = ErrorKindAuth) || bool_decide (Kind c = ErrorKindPermanent) then
    markDead d leaseID lastError requestLog responseLog
  else if MaxAttempts <=? wd_Attempt d then
    markDead d leaseID ("max attempts (" +:+ itoa MaxAttempts +:+ ") reached: " +:+ lastError) requestLog responseLog
  else
    e ← ask;
    let nextAt := NextAttempt int63n (wd_Attempt d) (app_now e) in
    let nextAt := if 0 <? RetryAfter c then app_now e + RetryAfter c else nextAt in
    _ ← try (on_tables (MarkRetry uuid_in (wd_ID d) leaseID lastError requestLog responseLog nextAt));
    mret tt.
(** The answer to the request, once it is there. *)
(* 249-264 WebhookWorker.processOne *)
Definition settle (d : WebhookDelivery) (leaseID requestLog : string) (r : GoErr + Http.Response) : M World unit :=
  later (λ e int63n,
    match r with
    | inl er => routeFailure int63n d leaseID (Some (ClassifyErrorFor "webhook" "delivery" er)) (Error er) requestLog ""
    | inr resp =>
        let status := Http.StatusCode resp in
        let responseLog := "HTTP " +:+ itoa status +:+ " " +:+ Http.text (take 8192 (Http.Body resp)) in
        match ClassifyHTTPStatus "webhook" "delivery" status (HttpClient.ParseThrottleHeaders resp (app_now e)) with
        | None => _ ← try (on_tables (MarkSuccess uuid_in (wd_ID d) leaseID responseLog)); mret tt
        | Some c => routeFailure int63n d leaseID (Some c) (status_line D resp) requestLog responseLog
        end
    end).
(* 232-240 WebhookWorker.processOne *)
Definition signed_request (p : WebhookEndpoint) (v : WebhookEvent) (now : Z) : Http.Request :=
  Http.mkRequest "POST" (ep_URL p) (FormatHeaders now (ep_Secret p) (we_EventID v) (we_Payload v)).2
    (Http.of_text (we_Payload v)).
(* 195-265 WebhookWorker.processOne *)
Definition processOne (d : WebhookDelivery) : M World unit :=
  match wd_LeaseID d with
  | None => mret tt
  | Some leaseID =>
      v ← try (on_tables (FindEventByID (wd_EventID d)));
      match v with
      | inl er => markDead d leaseID ("load event " +:+ itoa (wd_EventID d) +:+ ": " +:+ err_text er) "" ""
      | inr v =>
          p ← try (on_tables (FindEndpointByID array_scans (wd_EndpointID d)));
          match p with
          | inl er => markDead d leaseID ("load endpoint " +:+ itoa (wd_EndpointID d) +:+ ": " +:+ err_text er) "" ""
          | inr p =>
              e ← ask;
              match bad_url D (ep_URL p) with
              | Some er => markDead d leaseID ("build request: " +:+ Error er) "" ""
              | None =>
                  let requestLog := "POST " +:+ ep_URL p +:+ " ts=" +:+ itoa (app_now e / Second) +:+
                                    " event_id=" +:+ we_EventID v in
                  r ← post (signed_request p v (app_now e));
                  settle d leaseID requestLog r
              end
          end
      end
  end.
(** The goroutines of a batch one after the other; for each of them the others
    are among its peers. *)
Fixpoint process_all (l : list WebhookDelivery) : M World unit :=
  match l with [] => mret tt | d :: l => _ ← processOne d; process_all l end.
(* 169-193 WebhookWorker.runOnce *)
Definition runOnce : M World unit := λ e w,
  (let limit := if BatchSize o <? Concurrency o then BatchSize o else Concurrency o in
   r ← try (on_tables (ClaimDueDeliveries (new_uuid D (sent w.1)) limit (LeaseTTL o)));
   match r with inl _ => mret tt | inr l => process_all l end) e w.
End Worker.

(** ** The handlers *)
Inductive Reply :=
| RError (status : Z) (message : string)
| RCreated (p : WebhookEndpoint)
| REndpoints (l : list WebhookEndpoint)
| RNoContent
| RReplayed (id : Z).
Definition no_secret (p : WebhookEndpoint) : WebhookEndpoint :=
  mkEndpoint (ep_ID p) (ep_WorkspaceID p) (ep_URL p) "" (ep_Events p) (ep_Status p) (ep_CreatedAt p) (ep_UpdatedAt p).
(** The identity is its workspace; a body is decoded or refused. *)
Record EndpointBody := mkBody { b_URL : string; b_Secret : string; b_Events : list string; b_Status : string }.
Section Handlers.
Context (array_scans : bool).
(* Source: pkg/api/webhooks_handlers.go *)
(* 63-104 Router.handleCreateWebhookEndpoint *)
Definition handleCreateWebhookEndpoint (identity : option Z) (body : err + EndpointBody) : M WebhookDB Reply :=
  match identity, body with
  | None, _ => mret (RError 401 "missing identity")
  | _, inl er => mret (RError 400 ("invalid request body: " +:+ err_text er))
  | Some ws, inr b =>
      if bool_decide (b_URL b = "") || bool_decide (b_Secret b = "") then
        mret (RError 400 "url and secret are required")
      else
        let status := if bool_decide (b_Status b = "") then "active" else b_Status b in
        if negb (bool_decide (status ∈ ["active"; "disabled"])) then
          mret (RError 400 "status must be 'active' or 'disabled'")
        else
          r ← try (CreateEndpoint (mkEndpoint 0 ws (b_URL b) (b_Secret b) (b_Events b) status 0 0));
          match r with
          | inl er => mret (RError 500 ("failed to create endpoint: " +:+ err_text er))
          | inr p => mret (RCreated (no_secret p))
          end
  end.
(* 109-126 Router.handleListWebhookEndpoints *)
Definition handleListWebhookEndpoints (identity : option Z) (include_disabled : string) : M WebhookDB Reply :=
  match identity with
  | None => mret (RError 401 "missing identity")
  | Some ws =>
      r ← try (ListEndpointsForWorkspace array_scans ws (bool_decide (include_disabled = "true")));
      match r with
      | inl er => mret (RError 500 ("failed to list endpoints: " +:+ err_text er))
      | inr l => mret (REndpoints (no_secret <$> l))
      end
  end.
(** [parsePathIDAsInt64]. *)
Definition path_id (s : string) : option Z :=
  match Codec.ParseInt s with (n, None) => if n <=? 0 then None else Some n | _ => None end.
(* 130-160 Router.handleDeleteWebhookEndpoint *)
Definition handleDeleteWebhookEndpoint (identity : option Z) (id : string) : M WebhookDB Reply :=
  match identity, path_id id with
  | None, _ => mret (RError 401 "missing identity")
  | _, None => mret (RError 400 ("invalid id: " +:+ id))
  | Some ws, Some epID =>
      r ← try (FindEndpointByID array_scans epID);
      match r with
      | inl er =>
          if errors_is er "ErrWebhookEndpointNotFound" then mret (RError 404 "endpoint not found")
          else mret (RError 500 ("failed to load endpoint: " +:+ err_text er))
      | inr p =>
          if negb (ep_WorkspaceID p =? ws) then mret (RError 403 "endpoint belongs to a different workspace")
          else
            r ← try (DeleteEndpoint epID);
            match r with
            | inl er => mret (RError 500 ("failed to delete endpoint: " +:+ err_text er))
            | inr _ => mret RNoContent
            end
      end
  end.
(* 165-192 Router.handleReplayWebhookDelivery *)
Definition handleReplayWebhookDelivery (identity : option Z) (id : string) : M WebhookDB Reply :=
  match identity, path_id id with
  | None, _ => mret (RError 401 "missing identity")
  | _, None => mret (RError 400 "invalid delivery id")
  | Some _, Some deliveryID =>
      r ← try (MarkReplay deliveryID);
      match r with
      | inl er =>
          if errors_is er "ErrWebhookDeliveryNotFound" then
            mret (RError 404 "delivery not found or not in dead state")
          else mret (RError 500 ("failed to replay: " +:+ err_text er))
      | inr _ => mret (RReplayed deliveryID)
      end
  end.
End Handlers.
