(* ===== verification/WebhooksProps.v ===== *)
(** * What the webhooks keep

    Whatever runs on the tables, an event id has one row and a pair of event and
    endpoint one delivery; emitting reaches the subscribed endpoints of the
    workspace; a lease fences; one run of the worker sends at most one signed
    request and settles its row.  And, with a driver that does not scan TEXT[]
    into a slice, nothing is ever sent. *)

From S2P Require Import Prelude Store GoError ErrorClass Webhooks.
From S2P Require Backoff Codec Http HttpClient Sha256 Storage.
From Stdlib Require Import ZArith Lia.
Local Open Scope Z_scope.

(** ** The invariant of the tables *)
Record delivery_ok (db : WebhookDB) (k : Z) (d : WebhookDelivery) : Prop := {
  ok_key : wd_ID d = k;
  ok_serial : k < delivery_serial db;
  ok_event : is_Some (events db !! wd_EventID d);
  ok_endpoint : is_Some (endpoints db !! wd_EndpointID d);
  ok_status : wd_Status d ∈ ["pending"; "success"; "dead"];
  ok_lease : wd_Status d ≠ "pending" → wd_LeaseID d = None ∧ wd_LeaseUntil d = None;
  ok_attempt : 0 ≤ wd_Attempt d
}.
Definition endpoint_ok (db : WebhookDB) (k : Z) (p : WebhookEndpoint) : Prop :=
  ep_ID p = k ∧ k < endpoint_serial db ∧ ep_WorkspaceID p ∈ workspaces db ∧ ep_Status p ∈ ["active"; "disabled"].
Definition event_ok (db : WebhookDB) (k : Z) (v : WebhookEvent) : Prop :=
  we_ID v = k ∧ k < event_serial db ∧ we_WorkspaceID v ∈ workspaces db.
Record db_ok (db : WebhookDB) : Prop := {
  ok_endpoints : map_Forall (endpoint_ok db) (endpoints db);
  ok_events : map_Forall (event_ok db) (events db);
  ok_deliveries : map_Forall (delivery_ok db) (deliveries db);
  one_event : ∀ i j v v', events db !! i = Some v → events db !! j = Some v' → we_EventID v = we_EventID v' → i = j;
  one_delivery : ∀ i j d d', deliveries db !! i = Some d → deliveries db !! j = Some d' →
    wd_EventID d = wd_EventID d' → wd_EndpointID d = wd_EndpointID d' → i = j
}.
Definition keeps (db db' : WebhookDB) : Prop := db_ok db → db_ok db'.
#[export] Instance keeps_preorder : PreOrder keeps.
Proof. split; [by intros db H|]. intros a b c H1 H2 H. auto. Qed.

(** A change of one delivery that keeps its place. *)
Definition same_place (d d' : WebhookDelivery) : Prop :=
  wd_ID d' = wd_ID d ∧ wd_EventID d' = wd_EventID d ∧ wd_EndpointID d' = wd_EndpointID d ∧
  wd_Status d' ∈ ["pending"; "success"; "dead"] ∧
  (wd_Status d' ≠ "pending" → wd_LeaseID d' = None ∧ wd_LeaseUntil d' = None) ∧ 0 ≤ wd_Attempt d'.
Definition with_deliveries (t : gmap Z WebhookDelivery) (db : WebhookDB) : WebhookDB :=
  mkWebhookDB (workspaces db) (endpoints db) (events db) t (endpoint_serial db) (event_serial db) (delivery_serial db).
Lemma on_deliveries_snd {A} (f : gmap Z WebhookDelivery → A * gmap Z WebhookDelivery) db :
  (on_deliveries f db).2 = with_deliveries (f (deliveries db)).2 db.
Proof. unfold on_deliveries. by destruct (f (deliveries db)). Qed.
Lemma deliveries_keep t db : db_ok db →
  (∀ k d', t !! k = Some d' → ∃ d, deliveries db !! k = Some d ∧ (d' = d ∨ same_place d d')) →
  db_ok (with_deliveries t db).
Proof.
  intros [Hp Hv Hd H1 H2] Ht. split; [done|done| |done|].
  - intros k d' Hk. destruct (Ht k d' Hk) as (d & Hkd & Hs). destruct (Hd k d Hkd).
    destruct Hs as [->|(E1&E2&E3&E4&E5&E6)]; split; simpl; rewrite ?E1, ?E2, ?E3; done.
  - intros i j d d' Hi Hj. destruct (Ht i d Hi) as (di & Hdi & Ei), (Ht j d' Hj) as (dj & Hdj & Ej).
    destruct Ei as [->|(_&->&->&_)], Ej as [->|(_&->&->&_)]; by apply H2.
Qed.
Lemma webhook_update_keeps id p f db :
  (∀ d, p d = true → 0 ≤ wd_Attempt d → same_place d (f d)) →
  keeps db (with_deliveries (update_row id p f (deliveries db)).2 db).
Proof.
  intros Hf Hok. apply deliveries_keep; [done|]. intros k d' [Hk|(-> & d & Hk & Hp & ->)]%update_row_lookup.
  - exists d'. by auto.
  - exists d. split; [done|]. right. apply Hf; [done|]. by apply (ok_deliveries _ Hok _ _ Hk).
Qed.
Lemma filter_keeps (P : Z * WebhookDelivery → Prop) `{!∀ x, Decision (P x)} db :
  keeps db (with_deliveries (filter P (deliveries db)) db).
Proof.
  intros Hok. apply deliveries_keep; [done|]. intros k d' [Hk _]%map_lookup_filter_Some. exists d'. by auto.
Qed.

Section Keeps.
Context (uuid_in : string → option string).

Lemma fenced_keeps op texts id l f :
  (∀ e d, wd_Status d = "pending" → 0 ≤ wd_Attempt d → same_place d (f e d)) →
  respects keeps (exec_fenced uuid_in op texts id l f).
Proof.
  intros Hf. unfold exec_fenced, refused. respects_tac. apply respects_exec; [apply _|]. intros e db.
  unfold fenced_update. destruct (uuid_in l) as [l'|]; [|done]. destruct (negb _); [done|].
  destruct (on_deliveries _ db) as [k db'] eqn:E. simpl.
  replace db' with ((on_deliveries (update_row id (fenced l' (db_now e)) (f e)) db).2) by by rewrite E.
  rewrite on_deliveries_snd. apply webhook_update_keeps. intros d Hp. apply Hf.
  unfold fenced in Hp. by apply andb_prop in Hp as [[Hp%bool_decide_eq_true _]%andb_prop _].
Qed.
Ltac same := intros; repeat split; simpl; try done; try set_solver; try lia.
Lemma HeartbeatLease_keeps id l ttl : respects keeps (HeartbeatLease uuid_in id l ttl).
Proof. unfold HeartbeatLease. destruct (_ || _); [apply respects_throw, _|]. apply fenced_keeps. intros e d Hs Ha. repeat split; simpl; rewrite ?Hs; set_solver. Qed.
Lemma MarkSuccess_keeps id l r : respects keeps (MarkSuccess uuid_in id l r).
Proof. apply fenced_keeps. same. Qed.
Lemma MarkRetry_keeps id l a b c n : respects keeps (MarkRetry uuid_in id l a b c n).
Proof. apply fenced_keeps. intros e d Hs Ha. repeat split; simpl; rewrite ?Hs; set_solver. Qed.
Lemma MarkDead_keeps id l a b c : respects keeps (MarkDead uuid_in id l a b c).
Proof. apply fenced_keeps. same. Qed.
Lemma MarkReplay_keeps id : respects keeps (MarkReplay id).
Proof.
  unfold MarkReplay. respects_tac. apply respects_exec; [apply _|]. intros e db. rewrite on_deliveries_snd.
  apply webhook_update_keeps. same.
Qed.
Lemma DeleteOlderThan_keeps c : respects keeps (DeleteOlderThan c).
Proof.
  unfold DeleteOlderThan. respects_tac. apply respects_exec; [apply _|]. intros e db. rewrite on_deliveries_snd.
  apply filter_keeps.
Qed.
Lemma stamp_all_keeps uuid ttl l : ∀ i, respects keeps (stamp_all uuid ttl i l).
Proof.
  induction l as [|d l IH]; intros i; simpl; [apply respects_ret, _|]. respects_tac.
  apply respects_exec; [apply _|]. intros e db. unfold stamp. rewrite on_deliveries_snd.
  destruct (update_row _ _ _ _) as [k t'] eqn:E. simpl.
  replace t' with ((update_row (wd_ID d) (claimable (db_now e)) (stamped (uuid i) ttl e) (deliveries db)).2)
    by by rewrite E.
  apply webhook_update_keeps. intros x Hx Ha. unfold claimable in Hx.
  apply andb_prop in Hx as [Hx%bool_decide_eq_true _]. repeat split; simpl; rewrite ?Hx; try set_solver; try lia.
Qed.
Lemma ClaimDueDeliveries_keeps uuid limit ttl : respects keeps (ClaimDueDeliveries uuid limit ttl).
Proof.
  unfold ClaimDueDeliveries. destruct (ttl <=? 0); [apply respects_throw, _|]. respects_tac.
  - apply respects_exec; [apply _|]. done.
  - apply stamp_all_keeps.
Qed.
Lemma CreateDelivery_keeps event endpoint : respects keeps (CreateDelivery event endpoint).
Proof.
  unfold CreateDelivery, refused. respects_tac. apply respects_exec; [apply _|]. intros e db [Hp Hv Hd H1 H2].
  assert (Hbump : ∀ k d, deliveries db !! k = Some d →
    delivery_ok (mkWebhookDB (workspaces db) (endpoints db) (events db) (deliveries db) (endpoint_serial db)
      (event_serial db) (delivery_serial db + 1)) k d).
  { intros k d Hk. destruct (Hd k d Hk). split; simpl; try done. lia. }
  unfold insert_delivery. destruct (existsb _ _) eqn:Epair; [by split|].
  destruct (bool_decide _ && bool_decide _) eqn:Efk; [|by split].
  apply andb_prop in Efk as [Hev%bool_decide_eq_true Hen%bool_decide_eq_true].
  assert (Hnew : ∀ k d, deliveries db !! k = Some d → wd_EventID d = event → wd_EndpointID d = endpoint → False).
  { intros k d Hk E1 E2. apply not_true_iff_false in Epair. apply Epair, existsb_exists. exists d.
    split; [|unfold same_pair; rewrite E1, E2, !Z.eqb_refl; done].
    apply list_elem_of_In, list_elem_of_fmap. exists (k, d). split; [done|]. by apply elem_of_map_to_list. }
  split; simpl; [done|done| |done|].
  - intros k d. rewrite lookup_insert_Some. intros [[<- <-]|[Hne Hk]].
    + split; simpl; try done; try lia. set_solver.
    + destruct (Hbump k d Hk). by split.
  - intros i j d d'. rewrite !lookup_insert_Some. intros [[<- <-]|[Hi Hdi]] [[<- <-]|[Hj Hdj]]; simpl; try done.
    + intros E1 E2. by destruct (Hnew _ _ Hdj).
    + intros E1 E2. by destruct (Hnew _ _ Hdi).
    + by apply H2.
Qed.
End Keeps.

(** Rows that stay may move to larger tables. *)
Lemma delivery_grows db db' k d : delivery_serial db' = delivery_serial db →
  (∀ i, is_Some (events db !! i) → is_Some (events db' !! i)) →
  (∀ i, is_Some (endpoints db !! i) → is_Some (endpoints db' !! i)) →
  delivery_ok db k d → delivery_ok db' k d.
Proof. intros Es Hv Hp []. split; rewrite ?Es; auto. Qed.
Lemma insert_is_Some {A} (m : gmap Z A) i j x : is_Some (m !! j) → is_Some (<[i := x]> m !! j).
Proof. intros H. rewrite lookup_insert_is_Some'. by right. Qed.
Lemma find_event_spec eventID db :
  match find_event eventID db with
  | Some v => we_EventID v = eventID ∧ ∃ k, events db !! k = Some v
  | None => ∀ k v, events db !! k = Some v → we_EventID v ≠ eventID
  end.
Proof.
  unfold find_event. destruct (List.filter _ _) as [|v l] eqn:E; simpl.
  - intros k v Hk Hv. assert (H : v ∈ List.filter (λ v, bool_decide (we_EventID v = eventID)) (map_to_list (events db)).*2).
    { apply list_elem_of_In, filter_In. split; [|by apply bool_decide_eq_true].
      apply list_elem_of_In, list_elem_of_fmap. exists (k, v). split; [done|]. by apply elem_of_map_to_list. }
    rewrite E in H. by apply elem_of_nil in H.
  - assert (H : v ∈ List.filter (λ v, bool_decide (we_EventID v = eventID)) (map_to_list (events db)).*2)
      by (rewrite E; left).
    apply list_elem_of_In, filter_In in H as [H Hv%bool_decide_eq_true]. split; [done|].
    apply list_elem_of_In, list_elem_of_fmap in H as ([k v'] & -> & Hk). exists k. by apply elem_of_map_to_list.
Qed.
Lemma CreateEndpoint_keeps p : respects keeps (CreateEndpoint p).
Proof.
  unfold CreateEndpoint, refused. respects_tac. apply respects_exec; [apply _|]. intros e db [Hp Hv Hd H1 H2].
  assert (Hbump : ∀ k q, endpoints db !! k = Some q → ep_ID q = k ∧ k < endpoint_serial db + 1 ∧
    ep_WorkspaceID q ∈ workspaces db ∧ ep_Status q ∈ ["active"; "disabled"]).
  { intros k q Hk. destruct (Hp k q Hk) as (?&?&?&?). repeat split; try done. lia. }
  assert (Hgrow : ∀ db', delivery_serial db' = delivery_serial db → events db' = events db →
    (∀ i, is_Some (endpoints db !! i) → is_Some (endpoints db' !! i)) →
    map_Forall (delivery_ok db') (deliveries db)).
  { intros db' E1 E2 E3 k d Hk. eapply (delivery_grows db); [done|by rewrite E2|done|by apply Hd]. }
  unfold insert_endpoint. destruct (negb _); [by split|]. destruct (_ || _) eqn:E; [split; try done; by apply Hgrow|].
  apply orb_false_elim in E as [Es%negb_false_iff%bool_decide_eq_true Ew%negb_false_iff%bool_decide_eq_true].
  split; simpl; [|done| |done|done].
  - intros k q. rewrite lookup_insert_Some. intros [[<- <-]|[_ Hk]]; [|by apply Hbump].
    repeat split; simpl; try done. lia.
  - apply Hgrow; [done..|]. intros i. apply insert_is_Some.
Qed.
Lemma InsertEvent_keeps jsonb v : respects keeps (InsertEvent jsonb v).
Proof.
  unfold InsertEvent, refused. respects_tac. apply respects_exec; [apply _|]. intros e db [Hp Hv Hd H1 H2].
  assert (Hbump : ∀ k q, events db !! k = Some q → we_ID q = k ∧ k < event_serial db + 1 ∧ we_WorkspaceID q ∈ workspaces db).
  { intros k q Hk. destruct (Hv k q Hk) as (?&?&?). repeat split; try done. lia. }
  assert (Hgrow : ∀ db', delivery_serial db' = delivery_serial db → endpoints db' = endpoints db →
    (∀ i, is_Some (events db !! i) → is_Some (events db' !! i)) →
    map_Forall (delivery_ok db') (deliveries db)).
  { intros db' E1 E2 E3 k d Hk. eapply (delivery_grows db); [done|done|by rewrite E2|by apply Hd]. }
  unfold insert_event. destruct (jsonb _) as [payload|]; [|by split]. destruct (negb _); [by split|].
  pose proof (find_event_spec (we_EventID v) db) as Hf.
  destruct (find_event _ db) as [old|]; [split; try done; by apply Hgrow|].
  destruct (bool_decide _) eqn:Ew; [|split; try done; by apply Hgrow]. apply bool_decide_eq_true in Ew.
  split; simpl; [done| | | |done].
  - intros k q. rewrite lookup_insert_Some. intros [[<- <-]|[_ Hk]]; [|by apply Hbump].
    repeat split; simpl; try done. lia.
  - apply Hgrow; [done..|]. intros i. apply insert_is_Some.
  - intros i j q q'. rewrite !lookup_insert_Some. intros [[<- <-]|[Hi Hqi]] [[<- <-]|[Hj Hqj]]; simpl; try done.
    + intros E. by destruct (Hf _ _ Hqj).
    + intros E. by destruct (Hf _ _ Hqi).
    + by apply H1.
Qed.
Lemma drop_workspace_keeps id db : keeps db (drop_workspace id db).
Proof.
  intros [Hp Hv Hd H1 H2]. split; simpl.
  - intros k q [Hk Hne]%map_lookup_filter_Some. destruct (Hp k q Hk) as (?&?&?&?). repeat split; simpl; try done. set_solver.
  - intros k q [Hk Hne]%map_lookup_filter_Some. destruct (Hv k q Hk) as (?&?&?). repeat split; simpl; try done. set_solver.
  - intros k d [Hk [He Hn]]%map_lookup_filter_Some. destruct (Hd k d Hk). by split.
  - intros i j v v' [Hi _]%map_lookup_filter_Some [Hj _]%map_lookup_filter_Some. by apply H1.
  - intros i j d d' [Hi _]%map_lookup_filter_Some [Hj _]%map_lookup_filter_Some. by apply H2.
Qed.
Section Operations.
Context (jsonb : string → option string) (uuid_in : string → option string) (array_scans : bool).
Lemma reads_keep {A} op (f : Env → WebhookDB → A) : respects keeps (exec op (λ e db, (f e db, db))).
Proof. apply respects_exec; [apply _|]. by intros e db H. Qed.
Lemma fan_out_keeps event l : respects keeps (fan_out event l).
Proof. induction l as [|p l IH]; simpl; [apply respects_ret, _|]. respects_tac. apply CreateDelivery_keeps. Qed.
Lemma Emit_keeps random v : respects keeps (Emit jsonb array_scans random v).
Proof.
  unfold Emit. destruct (bool_decide _); [apply respects_ret, _|]. destruct (_ <=? 0); [apply respects_ret, _|].
  destruct (bool_decide _); [apply respects_ret, _|]. respects_tac; try apply InsertEvent_keeps; try apply fan_out_keeps.
  unfold ListActiveEndpointsForEvent, scanned. respects_tac. apply reads_keep.
Qed.
Lemma DeleteEndpoint_keeps id : respects keeps (DeleteEndpoint id).
Proof.
  unfold DeleteEndpoint. respects_tac. apply respects_exec; [apply _|]. intros e db [Hp Hv Hd H1 H2].
  destruct (endpoints db !! id) as [p|]; [|done]. simpl. split; simpl; [|done| |done|].
  - intros k q [_ Hk]%lookup_delete_Some. by apply Hp.
  - intros k d [Hk Hne]%map_lookup_filter_Some. destruct (Hd k d Hk). split; simpl; try done.
    rewrite lookup_delete_ne; [done|]. intros ->. done.
  - intros i j d d' [Hi _]%map_lookup_filter_Some [Hj _]%map_lookup_filter_Some. by apply H2.
Qed.
Lemma webhook_op_keeps op : respects keeps (run_op jsonb uuid_in array_scans op).
Proof.
  destruct op; simpl.
  - apply respects_bind; [apply _|apply CreateEndpoint_keeps|]. intros. apply respects_ret, _.
  - apply DeleteEndpoint_keeps.
  - apply respects_exec; [apply _|]. intros e db. apply drop_workspace_keeps.
  - apply respects_bind; [apply _|apply Emit_keeps|]. intros. apply respects_ret, _.
  - apply respects_bind; [apply _|apply ClaimDueDeliveries_keeps|]. intros. apply respects_ret, _.
  - apply HeartbeatLease_keeps.
  - apply MarkSuccess_keeps.
  - apply MarkRetry_keeps.
  - apply MarkDead_keeps.
  - apply MarkReplay_keeps.
  - apply respects_bind; [apply _|apply DeleteOlderThan_keeps|]. intros. apply respects_ret, _.
Qed.
Lemma webhook_history_keeps h db : db_ok db → db_ok (run_history jsonb uuid_in array_scans h db).
Proof.
  revert db. induction h as [|[e op] h IH]; intros db Hok; [done|]. apply IH. by apply (webhook_op_keeps op e db O).
Qed.
End Operations.

(** ** Emitting *)
Lemma same_pair_spec event endpoint d :
  same_pair event endpoint d = true ↔ wd_EventID d = event ∧ wd_EndpointID d = endpoint.
Proof. unfold same_pair. rewrite andb_true_iff, !Z.eqb_eq. done. Qed.
Definition has_pair (db : WebhookDB) (event endpoint : Z) : Prop :=
  ∃ i d, deliveries db !! i = Some d ∧ wd_EventID d = event ∧ wd_EndpointID d = endpoint.
Lemma pair_spec db event endpoint :
  existsb (same_pair event endpoint) (map_to_list (deliveries db)).*2 = true ↔ has_pair db event endpoint.
Proof.
  rewrite existsb_exists. split.
  - intros (d & Hd & Hp%same_pair_spec). apply list_elem_of_In, list_elem_of_fmap in Hd as ([i d'] & -> & Hi).
    exists i, d'. split; [by apply elem_of_map_to_list|done].
  - intros (i & d & Hi & Hp). exists d. split; [|by apply same_pair_spec].
    apply list_elem_of_In, list_elem_of_fmap. exists (i, d). split; [done|]. by apply elem_of_map_to_list.
Qed.
(** A row that was just made. *)
Definition fresh_delivery (e : Env) (event endpoint : Z) (d : WebhookDelivery) : Prop :=
  wd_EventID d = event ∧ wd_EndpointID d = endpoint ∧ wd_Status d = "pending" ∧ wd_Attempt d = 0 ∧
  wd_ScheduledAt d = db_now e ∧ wd_LeaseID d = None.
(** [db'] has the deliveries of [db] and new ones for [l]. *)
Record fanned (e : Env) (event : Z) (l : list WebhookEndpoint) (db db' : WebhookDB) : Prop := {
  fan_ok : db_ok db';
  fan_rest : workspaces db' = workspaces db ∧ endpoints db' = endpoints db ∧ events db' = events db;
  fan_old : deliveries db ⊆ deliveries db';
  fan_reached : Forall (λ p, has_pair db' event (ep_ID p)) l;
  fan_new : ∀ i d, deliveries db' !! i = Some d → deliveries db !! i = None →
    ∃ p, p ∈ l ∧ fresh_delivery e event (ep_ID p) d
}.
Lemma has_pair_mono db db' event endpoint :
  deliveries db ⊆ deliveries db' → has_pair db event endpoint → has_pair db' event endpoint.
Proof. intros Hs (i & d & Hi & Hp). exists i, d. split; [|done]. by eapply lookup_weaken. Qed.

Section Emitting.
Context (e : Env) (Hrel : reliable e).
Lemma CreateDelivery_run event p db n : db_ok db → is_Some (events db !! event) → is_Some (endpoints db !! ep_ID p) →
  ∃ b db' n', CreateDelivery event (ep_ID p) e (db, n) = (inr b, (db', n')) ∧ fanned e event [p] db db'.
Proof using Hrel.
  intros Hok Hev Hep.
  assert (Hrun : ∃ b, (insert_delivery event (ep_ID p) e db).1 = inr b).
  { unfold insert_delivery. destruct (existsb _ _); [by eexists|].
    rewrite (bool_decide_true _ Hev), (bool_decide_true _ Hep). by eexists. }
  destruct Hrun as [b Hb]. exists b, (insert_delivery event (ep_ID p) e db).2, (Datatypes.S n). split.
  { unfold CreateDelivery. erewrite bind_run by apply exec_fine, Hrel. by rewrite Hb. }
  assert (Hkeep : db_ok (insert_delivery event (ep_ID p) e db).2).
  { pose proof (CreateDelivery_keeps event (ep_ID p) e db n) as Hk. unfold CreateDelivery, state_of in Hk.
    erewrite bind_run in Hk by apply exec_fine, Hrel. rewrite Hb in Hk. by apply Hk. }
  unfold insert_delivery in *. destruct (existsb _ _) eqn:Epair.
  - apply pair_spec in Epair. split; simpl in *; [done|done|done|by constructor|]. by intros i d -> [=].
  - rewrite (bool_decide_true _ Hev), (bool_decide_true _ Hep) in *. simpl in *.
    assert (Hfree : deliveries db !! delivery_serial db = None).
    { destruct (deliveries db !! delivery_serial db) as [d|] eqn:E; [|done].
      pose proof (ok_serial _ _ _ (ok_deliveries _ Hok _ _ E)). lia. }
    split; simpl; [done|done|by apply insert_subseteq| |].
    + constructor; [|constructor]. eexists (delivery_serial db), _. split; [apply lookup_insert_eq|done].
    + intros i d. rewrite lookup_insert_Some. intros [[<- <-]|[_ ->]]; [|done]. intros _.
      exists p. split; [left|done].
Qed.
Lemma fan_out_run event l : ∀ db n, db_ok db → is_Some (events db !! event) →
  Forall (λ p, is_Some (endpoints db !! ep_ID p)) l →
  ∃ db' n', fan_out event l e (db, n) = (inr tt, (db', n')) ∧ fanned e event l db db'.
Proof using Hrel.
  induction l as [|p l IH]; intros db n Hok Hev Hl.
  { exists db, n. split; [done|]. split; [done|done|done|done|]. by intros i d ->. }
  inversion Hl as [|? ? Hp Hl']; subst.
  destruct (CreateDelivery_run event p db n Hok Hev Hp) as (b & db1 & n1 & Hrun & [Hok1 (Ew&Ep&Ee) Hold Hreach Hnew]).
  destruct (IH db1 n1) as (db2 & n2 & Hrun2 & [Hok2 (Ew2&Ep2&Ee2) Hold2 Hreach2 Hnew2]);
    [done|by rewrite Ee|by rewrite Ep|].
  exists db2, n2. split.
  { simpl. unfold try, mbind, M_bind. rewrite Hrun. done. }
  split; [done| | | |].
  - by rewrite Ew2, Ep2, Ee2.
  - by etrans.
  - inversion Hreach; subst. constructor; [|done]. by eapply has_pair_mono.
  - intros i d Hi Hn. destruct (deliveries db1 !! i) as [d1|] eqn:E1.
    + pose proof (lookup_weaken _ _ _ _ E1 Hold2). simplify_eq.
      destruct (Hnew i d E1 Hn) as (q & Hq & Hf). exists q. split; [|done]. set_solver.
    + destruct (Hnew2 i d Hi E1) as (q & Hq & Hf). exists q. split; [|done]. set_solver.
Qed.
Lemma endpoints_where_spec p db q : db_ok db →
  q ∈ endpoints_where p db ↔ endpoints db !! ep_ID q = Some q ∧ p q = true.
Proof.
  intros Hok. unfold endpoints_where. rewrite sort_by_perm, list_elem_of_In, filter_In, <- list_elem_of_In, list_elem_of_fmap.
  split.
  - intros [([k q'] & -> & Hk%elem_of_map_to_list) Hp]. simpl. split; [|done].
    by destruct (ok_endpoints _ Hok _ _ Hk) as [-> _].
  - intros [Hk Hp]. split; [|done]. exists (ep_ID q, q). split; [done|]. by apply elem_of_map_to_list.
Qed.
Lemma insert_event_run jsonb v db r db' : db_ok db → insert_event jsonb v e db = (inr r, db') →
  endpoints db' = endpoints db ∧ deliveries db' = deliveries db ∧ workspaces db' = workspaces db ∧
  (∃ old, events db' !! r.1 = Some old ∧ we_EventID old = we_EventID v ∧
     (events db !! r.1 = Some old ∨ find_event (we_EventID v) db = None ∧ we_WorkspaceID old = we_WorkspaceID v)).
Proof.
  intros Hok. unfold insert_event. destruct (jsonb _); [|done]. destruct (negb _); [done|].
  pose proof (find_event_spec (we_EventID v) db) as Hf. destruct (find_event _ db) as [old|].
  - intros [= <- <-]. repeat split; [done..|]. destruct Hf as [Hid [k Hk]].
    pose proof (ok_events _ Hok _ _ Hk) as (Hi & _). simpl. rewrite Hi. exists old. by auto.
  - destruct (bool_decide _); [|done]. intros [= <- <-]. repeat split; [done..|]. simpl.
    eexists. rewrite lookup_insert_eq. split; [done|]. split; [done|]. by right.
Qed.
End Emitting.

Lemma InsertEvent_run jsonb v e (Hrel : reliable e) db n :
  InsertEvent jsonb v e (db, n) = ((insert_event jsonb v e db).1, ((insert_event jsonb v e db).2, Datatypes.S n)).
Proof.
  unfold InsertEvent. erewrite bind_run by apply exec_fine, Hrel.
  by destruct (insert_event jsonb v e db) as [[er|r] db'].
Qed.
Lemma List_run ws ty e (Hrel : reliable e) db n :
  ListActiveEndpointsForEvent true ws ty e (db, n) = (inr (endpoints_where (subscribed ws ty) db), (db, Datatypes.S n)).
Proof. unfold ListActiveEndpointsForEvent. by erewrite bind_run by apply exec_fine, Hrel. Qed.
(** The outcome of a run of [Emit] that reports no error. *)
Lemma Emit_run jsonb random v e (Hrel : reliable e) db n eventID k db' n' : db_ok db →
  Emit jsonb true random v e (db, n) = (inr (eventID, k, None), (db', n')) →
  ∃ l event row, fanned e event l (mkWebhookDB (workspaces db) (endpoints db) (events db') (deliveries db)
      (endpoint_serial db) (event_serial db') (delivery_serial db)) db' ∧
    k = Z.of_nat (length l) ∧
    (∀ p, p ∈ l ↔ endpoints db !! ep_ID p = Some p ∧ subscribed (em_WorkspaceID v) (em_EventType v) p = true) ∧
    events db' !! event = Some row ∧ we_EventID row = eventID ∧
    (events db !! event = Some row ∨ we_WorkspaceID row = em_WorkspaceID v).
Proof.
  intros Hok. unfold Emit. destruct (bool_decide (em_EventType v = "")); [done|].
  destruct (em_WorkspaceID v <=? 0); [done|]. destruct (bool_decide (em_Payload v = "")); [done|]. cbv zeta.
  set (v' := mkEvent 0 _ _ _ _ _). pose proof (InsertEvent_run jsonb v' e Hrel db n) as Hins.
  unfold try, mbind, M_bind. rewrite Hins.
  destruct (insert_event jsonb v' e db) as [[er|[event created]] db1] eqn:Ei; [done|]. cbn [fst snd] in *.
  apply insert_event_run in Ei as Hi; [|done].
  destruct Hi as (Ep & Ed & Ew & row & Hrow & Hid & Hold).
  assert (Hok1 : db_ok db1).
  { pose proof (InsertEvent_keeps jsonb v' e db n) as Hk. rewrite Hins in Hk. by apply Hk. }
  rewrite List_run by done.
  set (l := endpoints_where _ db1).
  assert (Hl : ∀ p, p ∈ l ↔ endpoints db !! ep_ID p = Some p ∧ subscribed (em_WorkspaceID v) (em_EventType v) p = true).
  { intros p. unfold l. rewrite endpoints_where_spec by done. by rewrite Ep. }
  destruct (fan_out_run e Hrel event l db1 (Datatypes.S (Datatypes.S n))) as (db2 & n2 & Hrun & Hf).
  { done. } { by eexists. }
  { apply Forall_forall. intros p Hp%Hl. rewrite Ep. destruct Hp as [-> _]. by eexists. }
  rewrite Hrun. intros [= <- <- <- <-].
  pose proof (fan_rest _ _ _ _ _ Hf) as (Fw & Fp & Fe).
  exists l, event, row. split; [|split; [done|]; split; [done|]; rewrite Fe; split; [done|]].
  - destruct Hf as [H1 H2 H3 H4 H5]. split; simpl; [done|by rewrite Fw, Fp, Ew, Ep|by rewrite <- Ed|done|].
    intros i d. rewrite <- Ed. apply H5.
  - split; [done|]. destruct Hold as [?|[_ ?]]; [by left|by right].
Qed.


(** ** One run of the worker *)
Lemma bytes_of_range s : Forall (λ b, 0 ≤ b < 256) (Sha256.bytes_of s).
Proof.
  unfold Sha256.bytes_of. induction (String.list_ascii_of_string s) as [|a l IH]; constructor; [|done].
  simpl. pose proof (N_ascii_bounded a). lia.
Qed.
Lemma Verify_Sign secret ts eventID body : Verify secret ts eventID (Sign secret ts eventID body) body = true.
Proof.
  unfold Verify, Sign. rewrite Sha256.hex_decode_encode by apply bytes_of_range. by rewrite bool_decide_true.
Qed.
Lemma doublings k p : Nat.iter k (λ p, p * 2) p = p * 2 ^ Z.of_nat k.
Proof.
  induction k as [|k IH]; [simpl; lia|]. rewrite Nat.iter_succ, IH, Nat2Z.inj_succ, Z.pow_succ_r by lia. lia.
Qed.
(** The next attempt is between a minute and twelve hours away, within three
    times the doubled minutes. *)
Lemma NextAttempt_bounds int63n attempt now : Backoff.Int63n_contract int63n → 1 ≤ attempt →
  now + next_base ≤ NextAttempt int63n attempt now ≤ now + Z.min next_cap (3 * next_base * 2 ^ attempt).
Proof.
  intros Hr Ha. unfold NextAttempt. destruct (Z.ltb_spec attempt 1); [lia|].
  rewrite doublings, Z2Nat.id by lia.
  assert (Hp : 2 ≤ 2 ^ attempt) by (rewrite <- (Z.pow_1_r 2) at 1; apply Z.pow_le_mono_r; lia).
  assert (E1 : next_base = 60000000000) by done. assert (E2 : next_cap = 43200000000000) by done. rewrite E1, E2.
  set (temp := if _ <? _ then _ else _).
  assert (Ht : 60000000000 < temp ≤ Z.min 43200000000000 (3 * 60000000000 * 2 ^ attempt)).
  { unfold temp.
    destruct (Z.ltb_spec 43200000000000 (60000000000 * 2 ^ attempt)); [simpl; lia|].
    destruct (Z.ltb_spec 43200000000000 (60000000000 * 2 ^ attempt * 3)); lia. }
  destruct (Backoff.UniformDuration_range 60000000000 temp int63n Hr) as [? [?|[-> ?]]]; lia.
Qed.

(** What an answer decides, in terms of HTTP. *)
Inductive Verdict := Delivered | Again (hint : Z) | Buried.
Definition transient_status (s : Z) : bool := bool_decide (s ∈ [408; 425; 429]) || ((500 <=? s) && (s <? 600)).
Definition verdict (attempt now : Z) (r : GoErr + Http.Response) : Verdict :=
  match r with
  | inr resp =>
      let s := Http.StatusCode resp in
      if (200 <=? s) && (s <? 300) then Delivered
      else if transient_status s && (attempt <? 5) then Again (HttpClient.ParseThrottleHeaders resp now)
      else Buried
  | inl er =>
      if Retryable (ClassifyError er) && (attempt <? 5) then Again (RetryAfter (ClassifyError er)) else Buried
  end.
Definition response_log (r : GoErr + Http.Response) : string :=
  match r with
  | inr resp => "HTTP " +:+ itoa (Http.StatusCode resp) +:+ " " +:+ Http.text (take 8192 (Http.Body resp))
  | inl _ => ""
  end.
(** The texts that a write puts into the row. *)
Definition written_texts (d : WebhookDelivery) : list string :=
  if bool_decide (wd_Status d = "success") then [wd_ResponseLog d]
  else [wd_LastError d; wd_RequestLog d; wd_ResponseLog d].
Definition decided (e' : Env) (attempt : Z) (r : GoErr + Http.Response) (d row : WebhookDelivery) : Prop :=
  wd_ID row = wd_ID d ∧ wd_EventID row = wd_EventID d ∧ wd_EndpointID row = wd_EndpointID d ∧
  wd_Attempt row = wd_Attempt d ∧ wd_LeaseID row = None ∧ wd_LeaseUntil row = None ∧ wd_ResponseLog row = response_log r ∧
  match verdict attempt (app_now e') r with
  | Delivered => wd_Status row = "success" ∧ wd_CompletedAt row = Some (db_now e')
  | Again hint =>
      wd_Status row = "pending" ∧
      if 0 <? hint then wd_ScheduledAt row = app_now e' + hint
      else app_now e' + 60 * Second ≤ wd_ScheduledAt row ≤ app_now e' + 12 * Hour
  | Buried => wd_Status row = "dead" ∧ wd_CompletedAt row = Some (db_now e')
  end.
Definition put_delivery (row : WebhookDelivery) (db : WebhookDB) : WebhookDB :=
  if forallb storable (written_texts row) then with_deliveries (<[wd_ID row := row]> (deliveries db)) db else db.

Section Worker.
Context (jsonb uuid_in : string → option string) (D : Deps).
Lemma fenced_run op texts id l f e (Hrel : reliable e) db n d :
  uuid_in l = Some l → deliveries db !! id = Some d → fenced l (db_now e) d = true →
  state_of (exec_fenced uuid_in op texts id l f e (db, n)) =
    if forallb storable texts then with_deliveries (<[id := f e d]> (deliveries db)) db else db.
Proof.
  intros Hl Hd Hf. unfold exec_fenced. erewrite bind_run by apply exec_fine, Hrel. unfold fenced_update. rewrite Hl.
  destruct (forallb storable texts); [|done].
  unfold on_deliveries. rewrite (update_row_hit _ _ _ _ d) by done. cbn [fst snd negb refused].
  unfold mbind, M_bind, mret, M_ret, try, rows_affected, exec. cbn. rewrite Hrel. done.
Qed.
Lemma tried_on_tables {A} (m : M WebhookDB A) e db log n :
  ∃ n', (_ ← try (on_tables m); mret tt) e (mkWorld db log, n) =
    (inr tt, (mkWorld (state_of (m e (db, n))) log, n')).
Proof.
  unfold on_tables, zoom, try, mbind, M_bind, state_of. cbn. destruct (m e (db, n)) as [r [t k]]. by exists k.
Qed.

(** The row is where its key says, under the lease, and the database answers. *)
Record held_by (l : string) (id : Z) (e : Env) (db : WebhookDB) (d : WebhookDelivery) : Prop := {
  hb_reliable : reliable e;
  hb_uuid : uuid_in l = Some l;
  hb_row : deliveries db !! id = Some d;
  hb_key : wd_ID d = id;
  hb_fenced : fenced l (db_now e) d = true
}.
Lemma fenced_pending l now d : fenced l now d = true → wd_Status d = "pending".
Proof. unfold fenced. by intros [[?%bool_decide_eq_true _]%andb_prop _]%andb_prop. Qed.
(** A write of the worker, whose error it only logs. *)
Lemma settled op texts l id f e db log n d : held_by l id e db d →
  wd_ID (f e d) = wd_ID d → written_texts (f e d) = texts →
  ∃ n', (_ ← try (on_tables (exec_fenced uuid_in op texts id l f)); mret tt) e (mkWorld db log, n) =
    (inr tt, (mkWorld (put_delivery (f e d) db) log, n')).
Proof.
  intros [Hrel Hl Hd Hk Hf] Hid Ht. destruct (tried_on_tables (exec_fenced uuid_in op texts id l f) e db log n) as [n' ->].
  exists n'. erewrite fenced_run by done. unfold put_delivery. rewrite Ht, Hid, Hk. done.
Qed.
Lemma markDead_settles d l a b c e db log n d' : held_by l (wd_ID d) e db d' →
  ∃ n', markDead uuid_in d l a b c e (mkWorld db log, n) =
    (inr tt, (mkWorld (put_delivery (died a b c e d') db) log, n')).
Proof. intros H. by apply settled. Qed.

Lemma routeFailure_settles d l c a rq rp e draw db log n d' :
  held_by l (wd_ID d) e db d' → Backoff.Int63n_contract draw → 1 ≤ wd_Attempt d →
  (Retryable c = true → Kind c ≠ ErrorKindAuth ∧ Kind c ≠ ErrorKindPermanent) →
  ∃ n' row, routeFailure uuid_in draw d l (Some c) a rq rp e (mkWorld db log, n) =
      (inr tt, (mkWorld (put_delivery row db) log, n')) ∧
    wd_ID row = wd_ID d' ∧ wd_EventID row = wd_EventID d' ∧ wd_EndpointID row = wd_EndpointID d' ∧
    wd_Attempt row = wd_Attempt d' ∧ wd_LeaseID row = None ∧ wd_LeaseUntil row = None ∧ wd_ResponseLog row = rp ∧
    if Retryable c && (wd_Attempt d <? 5) then
      wd_Status row = "pending" ∧
      if 0 <? RetryAfter c then wd_ScheduledAt row = app_now e + RetryAfter c
      else app_now e + 60 * Second ≤ wd_ScheduledAt row ≤ app_now e + 12 * Hour
    else wd_Status row = "dead" ∧ wd_CompletedAt row = Some (db_now e).
Proof.
  intros Hh Hdraw Ha Hc. unfold routeFailure. cbn [default from_option id].
  destruct (Retryable c) eqn:Er; cbn [negb orb andb].
  2:{ destruct (markDead_settles d l (if bool_decide (a = "") then Code c else Code c +:+ ": " +:+ a) rq rp e db log n d' Hh)
        as [n' ->]. by eexists n', _. }
  destruct Hc as [H1 H2]; [done|]. rewrite (bool_decide_false _ H1), (bool_decide_false _ H2). cbn [orb].
  unfold MaxAttempts. destruct (Z.leb_spec 5 (wd_Attempt d)); destruct (Z.ltb_spec (wd_Attempt d) 5); try lia.
  - match goal with |- context [markDead uuid_in d l ?x rq rp e] => destruct (markDead_settles d l x rq rp e db log n d' Hh) as [n' ->] end.
    by eexists n', _.
  - cbv zeta. unfold mbind at 1, M_bind at 1, ask.
    set (next := if 0 <? RetryAfter c then _ else _).
    pose proof (fenced_pending _ _ _ (hb_fenced _ _ _ _ _ Hh)) as Hp.
    destruct (settled "mark retry" [if bool_decide (a = "") then Code c else Code c +:+ ": " +:+ a; rq; rp] l (wd_ID d)
      (λ _, rescheduled (if bool_decide (a = "") then Code c else Code c +:+ ": " +:+ a) rq rp next) e db log n d' Hh)
      as [n' Hrun]; [done|unfold written_texts; simpl; by rewrite Hp|].
    exists n', (rescheduled (if bool_decide (a = "") then Code c else Code c +:+ ": " +:+ a) rq rp next d').
    split; [exact Hrun|]. repeat split; [done|]. simpl. unfold next.
    destruct (Z.ltb_spec 0 (RetryAfter c)); [done|].
    pose proof (NextAttempt_bounds draw (wd_Attempt d) (app_now e) Hdraw Ha) as Hb.
    change next_base with (60 * Second) in Hb. change next_cap with (12 * Hour) in Hb. lia.
Qed.
Lemma retryable_kind er : Retryable (ClassifyErrorFor "webhook" "delivery" er) = true →
  Kind (ClassifyErrorFor "webhook" "delivery" er) ≠ ErrorKindAuth ∧
  Kind (ClassifyErrorFor "webhook" "delivery" er) ≠ ErrorKindPermanent.
Proof.
  simpl. intros Hr. destruct (Is er "context.Canceled") eqn:Ec.
  - unfold ClassifyError, classify_context in *. rewrite Ec in *. done.
  - destruct (classify_coherent er Ec) as [_ [H _]]. specialize (H Hr).
    apply elem_of_cons in H as [->|H]; [done|]. by apply list_elem_of_singleton in H as ->.
Qed.
Lemma classify_status s hint :
  match ClassifyHTTPStatus "webhook" "delivery" s hint with
  | None => (200 <=? s) && (s <? 300) = true
  | Some c => (200 <=? s) && (s <? 300) = false ∧ Retryable c = transient_status s ∧ RetryAfter c = hint ∧
      (Retryable c = true → Kind c ≠ ErrorKindAuth ∧ Kind c ≠ ErrorKindPermanent)
  end.
Proof.
  unfold ClassifyHTTPStatus, transient_status. destruct (_ && _) eqn:E0; [done|].
  destruct (Z.eqb_spec s 408) as [->|]; [done|]. destruct (Z.eqb_spec s 425) as [->|]; [done|].
  destruct (Z.eqb_spec s 429) as [->|]; [done|]. cbn [orb].
  rewrite (bool_decide_false (s ∈ [408; 425; 429])) by set_solver. cbn [orb].
  destruct (Z.eqb_spec s 401) as [->|]; [done|]. destruct (Z.eqb_spec s 403) as [->|]; [done|]. cbn [orb].
  destruct ((500 <=? s) && (s <? 600)) eqn:E5; [done|]. by destruct (s <? 100).
Qed.
End Worker.

Lemma FindEvent_run id v e (Hrel : reliable e) db k : events db !! id = Some v →
  FindEventByID id e (db, k) = (inr v, (db, S k)).
Proof. intros Hv. unfold FindEventByID. erewrite bind_run by apply exec_fine, Hrel. simpl. by rewrite Hv. Qed.
Lemma FindEndpoint_run id p e (Hrel : reliable e) db k : endpoints db !! id = Some p →
  FindEndpointByID true id e (db, k) = (inr p, (db, S k)).
Proof. intros Hp. unfold FindEndpointByID. erewrite bind_run by apply exec_fine, Hrel. simpl. by rewrite Hp. Qed.
Lemma read_run {A} (m : M WebhookDB A) a e db log k n' : m e (db, k) = (inr a, (db, n')) →
  try (on_tables m) e (mkWorld db log, k) = (inr (inr a), (mkWorld db log, n')).
Proof. intros Hm. unfold try, on_tables, zoom. simpl. by rewrite Hm. Qed.


(** ** A driver that does not scan arrays *)
Definition stays_empty (db db' : WebhookDB) : Prop := deliveries db = ∅ → deliveries db' = ∅.
#[export] Instance stays_empty_preorder : PreOrder stays_empty.
Proof. split; [by intros db H|]. intros a b c H1 H2 H. auto. Qed.
Lemma stmt_stays_empty {A} op (f : Env → WebhookDB → A * WebhookDB) :
  (∀ e db, deliveries db = ∅ → deliveries (f e db).2 = ∅) → respects stays_empty (exec op f).
Proof. intros H. apply respects_exec; [apply _|]. intros e db Hdb. by apply H. Qed.
Lemma update_row_empty id p f : (update_row id p f (∅ : gmap Z WebhookDelivery)) = (O, ∅).
Proof. by rewrite update_row_miss. Qed.
Section Empty.
Context (jsonb uuid_in : string → option string).
Lemma exec_fenced_empty op texts id l f : respects stays_empty (exec_fenced uuid_in op texts id l f).
Proof.
  unfold exec_fenced, refused. respects_tac. apply stmt_stays_empty. intros e db Hdb.
  unfold fenced_update. destruct (uuid_in l); [|done]. destruct (negb _); [done|].
  unfold on_deliveries. by rewrite Hdb, update_row_empty.
Qed.
Lemma stamp_all_empty uuid ttl l : ∀ i, respects stays_empty (stamp_all uuid ttl i l).
Proof.
  induction l as [|d l IH]; intros i; simpl; [apply respects_ret, _|]. respects_tac.
  apply stmt_stays_empty. intros e db Hdb. unfold stamp, on_deliveries. by rewrite Hdb, update_row_empty.
Qed.
Lemma List_unscanned ws ty e w l w' : ListActiveEndpointsForEvent false ws ty e w = (inr l, w') → l = [] ∧ w'.1 = w.1.
Proof.
  unfold ListActiveEndpointsForEvent. intros (l0 & [s n] & H1 & H2)%bind_inr. destruct w as [s0 n0].
  apply exec_inr in H1 as (_ & _ & [= _ <-]). unfold scanned in H2. cbn [orb] in H2.
  destruct (decide (l0 = [])) as [->|Hne]; [|by rewrite bool_decide_false in H2]. by injection H2 as <- <-.
Qed.
Lemma Emit_unscanned random v : respects stays_empty (Emit jsonb false random v).
Proof.
  unfold Emit. destruct (bool_decide _); [apply respects_ret, _|]. destruct (_ <=? 0); [apply respects_ret, _|].
  destruct (bool_decide _); [apply respects_ret, _|]. cbv zeta. apply respects_bind; [apply _| |].
  { apply respects_try. unfold InsertEvent, refused. respects_tac. apply stmt_stays_empty. intros e db Hdb.
    unfold insert_event. destruct (jsonb _); [|done]. destruct (negb _); [done|].
    destruct (find_event _ _); [done|]. by destruct (bool_decide _). }
  intros [er|[id created]]; [apply respects_ret, _|]. intros e s n Hs. unfold try, mbind, M_bind, state_of.
  destruct (ListActiveEndpointsForEvent false _ _ e (s, n)) as [[er|l] [s' n']] eqn:E.
  - simpl. revert E. unfold ListActiveEndpointsForEvent, mbind, M_bind, exec, scanned.
    destruct (fault e n); simpl; [|by intros [= _ <- _]..].
    destruct (bool_decide _); [done|]. by intros [= _ <- _].
  - apply List_unscanned in E as [-> E]. simpl in *. by subst.
Qed.
Lemma op_unscanned op : respects stays_empty (run_op jsonb uuid_in false op).
Proof.
  destruct op; simpl; try apply exec_fenced_empty.
  - respects_tac. unfold CreateEndpoint, refused. respects_tac. apply stmt_stays_empty. intros e db Hdb.
    unfold insert_endpoint. destruct (negb _); [done|]. by destruct (_ || _).
  - unfold DeleteEndpoint. respects_tac. apply stmt_stays_empty. intros e db Hdb.
    destruct (endpoints db !! id); [|done]. simpl. by rewrite Hdb, map_filter_empty.
  - apply stmt_stays_empty. intros e db Hdb. simpl. by rewrite Hdb, map_filter_empty.
  - apply respects_bind; [apply _|apply Emit_unscanned|]. intros. apply respects_ret, _.
  - apply respects_bind; [apply _| |intros; apply respects_ret, _].
    unfold ClaimDueDeliveries. destruct (ttl <=? 0); [apply respects_throw, _|]. respects_tac.
    + by apply stmt_stays_empty.
    + apply stamp_all_empty.
  - unfold HeartbeatLease. destruct (_ || _); [apply respects_throw, _|apply exec_fenced_empty].
  - unfold MarkReplay. respects_tac. apply stmt_stays_empty. intros e db Hdb.
    unfold on_deliveries. by rewrite Hdb, update_row_empty.
  - unfold DeleteOlderThan. respects_tac. apply stmt_stays_empty. intros e db Hdb.
    unfold on_deliveries. rewrite Hdb. simpl. by rewrite map_filter_empty.
Qed.
Lemma processOne_silent D d : respects (λ w w', sent w' = sent w) (processOne jsonb uuid_in false D d).
Proof.
  assert (Hpre : PreOrder (λ w w' : World, sent w' = sent w)) by (split; [by intros w|intros a b c H1 H2; congruence]).
  assert (Htab : ∀ A (m : M WebhookDB A), respects (λ w w', sent w' = sent w) (on_tables m)).
  { intros A m e w n. unfold on_tables, zoom, state_of. simpl. by destruct (m e (tables w, n)) as [r [t k]]. }
  assert (Hdead : ∀ l a b c, respects (λ w w', sent w' = sent w) (markDead uuid_in d l a b c)).
  { intros. unfold markDead. apply respects_bind; [done|by apply respects_try|]. intros. by apply respects_ret. }
  unfold processOne. destruct (wd_LeaseID d) as [l|]; [|by apply respects_ret].
  apply respects_bind; [done|by apply respects_try|]. intros [er|v]; [done|].
  intros e w n. unfold try, mbind, M_bind, state_of.
  destruct (on_tables (FindEndpointByID false (wd_EndpointID d)) e (w, n)) as [[er|p] [w' n']] eqn:E.
  - pose proof (Htab _ (FindEndpointByID false (wd_EndpointID d)) e w n) as H. rewrite E in H. simpl in H.
    simpl. rewrite <- H. apply Hdead.
  - exfalso. revert E. unfold on_tables, zoom, FindEndpointByID, mbind, M_bind, exec. simpl.
    destruct (fault e n); simpl; [|done..]. by destruct (endpoints (tables w) !! _).
Qed.
End Empty.

(** C40: With lib/pq no webhook is ever sent.  The driver does not scan a TEXT[]
    column into a slice, so every read of an endpoint fails: whatever is created,
    emitted, claimed and replayed, no delivery is ever made; and on whatever
    tables the worker runs, it sends no request.  (The tests of the worker and
    of the handlers use stores of their own.) *)
Theorem webhooks_never_sent (jsonb uuid_in : string → option string) :
  (∀ (h : history) (db : WebhookDB), deliveries db = ∅ → deliveries (run_history jsonb uuid_in false h db) = ∅) ∧
  ∀ (D : Deps) (o : WebhookWorkerOptions) (e : Env) (w : World) (n : nat),
    sent (state_of (runOnce jsonb uuid_in false D o e (w, n))) = sent w.
Proof.
  split.
  - induction h as [|[e op] h IH]; intros db Hdb; [done|]. apply IH. by apply (op_unscanned jsonb uuid_in op e db O).
  - intros D o e w n.
    assert (Hpre : PreOrder (λ w w' : World, sent w' = sent w)) by (split; [by intros x|intros a b c H1 H2; congruence]).
    assert (Hall : ∀ l, respects (λ w w', sent w' = sent w) (process_all jsonb uuid_in false D l)).
    { induction l as [|d l IH]; [by apply respects_ret|]. apply respects_bind; [done|apply processOne_silent|done]. }
    unfold runOnce. apply (respects_bind (λ w w' : World, sent w' = sent w)).
    + apply respects_try. intros e' w' n'. unfold on_tables, zoom, state_of. simpl.
      by destruct (ClaimDueDeliveries _ _ _ e' (tables w', n')) as [r [t k]].
    + intros [er|l]; [by apply respects_ret|apply Hall].
Qed.

(** ** A small system *)
Module Demo.
Definition some_text (s : string) : option string := Some s.
Definition clock (now : Z) : Env := mkEnv (now * Second) (now * Second) (λ _, Fine) (λ _, false) (λ _, false) "u".
Definition two_tenants : WebhookDB := mkWebhookDB {[ 1; 2 ]} ∅ ∅ ∅ 1 1 1.
Definition subscriber (ws : Z) : WebhookEndpoint :=
  mkEndpoint 0 ws ("https://hooks.example/" +:+ itoa ws) "s3cret" ["post.published"] "active" 0 0.
Definition published (ws : Z) : EmittedEvent := mkEmitted "evt_1" "post.published" ws "[1]".
Definition answering (r : GoErr + Http.Response) : Deps :=
  mkDeps (λ _ _, r) (λ _, None) (λ resp, itoa (Http.StatusCode resp) +:+ " status") (λ _, []) (λ _, clock 11) (λ _ n, n / 2)
    (λ _ _, "u").
Definition answered (status : Z) (body : string) : GoErr + Http.Response :=
  inr (Http.mkResponse status (-1) [] (Http.of_text body) Http.AtEOF).
(** One delivery of the first tenant, claimed at the tenth second. *)
Definition claimed : WebhookDB :=
  run_history some_text some_text true
    [(clock 1, OpCreateEndpoint (subscriber 1)); (clock 2, OpCreateEndpoint (subscriber 2));
     (clock 3, OpEmit [] (published 1)); (clock 10, OpClaim (λ _, "u") 25 (60 * Second))] two_tenants.
Definition the_delivery (db : WebhookDB) : option WebhookDelivery := deliveries db !! 1.
Definition delivered_with (D : Deps) (e : Env) : option (WebhookDelivery * nat) :=
  d ← the_delivery claimed;
  let w := state_of (processOne some_text some_text true D d e (mkWorld claimed [], O)) in
  d' ← the_delivery (tables w); Some (d', length (sent w)).
End Demo.
Import Demo.
Lemma two_tenants_ok : db_ok two_tenants.
Proof. by split. Qed.
Lemma clock_reliable now : reliable (clock now).
Proof. by intros n. Qed.
Lemma halves : Backoff.Int63n_contract (λ n, n / 2).
Proof. intros n Hn. split; [apply Z.div_pos; lia|apply Z.div_lt; lia]. Qed.
Lemma claimed_delivery : ∃ d, deliveries claimed !! 1 = Some d ∧ wd_EventID d = 1 ∧ wd_EndpointID d = 1 ∧
  wd_LeaseID d = Some "u" ∧ wd_Attempt d = 1 ∧ wd_ID d = 1 ∧ fenced "u" (11 * Second) d = true.
Proof. vm_compute. eexists. split; [reflexivity|]. repeat split. Qed.

(** ** What can go wrong *)
(** A worker that is stopped while a request is on its way buries the delivery:
    a cancelled context is not retryable. *)
Example shutdown_buries :
  (λ x : WebhookDelivery * nat, (wd_Status x.1, wd_LastError x.1)) <$>
    delivered_with (answering (inl (leaf (DSentinel "context.Canceled" "context canceled")))) (clock 10) =
  Some ("dead", "context_canceled: context canceled").
Proof. vm_compute. done. Qed.
(** So does a database that fails once while the event is read. *)
Example database_blip_buries :
  (λ x : WebhookDelivery * nat, (wd_Status x.1, x.2)) <$>
    delivered_with (answering (answered 200 "ok"))
      (mkEnv (10 * Second) (10 * Second) (λ n, if bool_decide (n = O) then Lost else Fine) (λ _, false) (λ _, false) "u") =
  Some ("dead", O).
Proof. vm_compute. done. Qed.
(** A body that is not UTF-8 cannot be stored: the delivery was accepted, and is
    still pending under its lease, to be posted again when that expires. *)
Example binary_answer_is_not_recorded :
  (λ x : WebhookDelivery * nat, (wd_Status x.1, wd_LeaseID x.1, x.2)) <$>
    delivered_with (answering (answered 200 (bytes [255%N]))) (clock 10) =
  Some ("pending", Some "u", 1%nat).
Proof. vm_compute. done. Qed.
(** The event id is unique over all tenants: a second tenant that uses it gets
    the event of the first one at its endpoint. *)
Example event_ids_are_shared :
  let db := run_history some_text some_text true [(clock 12, OpEmit [] (published 2))] claimed in
  (λ d, (wd_EventID d, ep_WorkspaceID <$> endpoints db !! wd_EndpointID d, we_WorkspaceID <$> events db !! wd_EventID d)) <$>
    deliveries db !! 2 = Some (1, Some 2, Some 1).
Proof. vm_compute. done. Qed.
(** A delivery is replayed for anybody, whatever workspace it belongs to. *)
Example replay_is_not_scoped :
  let dead := run_history some_text some_text true [(clock 12, OpDead 1 "u" "" "" "")] claimed in
  (handleReplayWebhookDelivery (Some 2) "1" (clock 13) (dead, O)).1 = inr (RReplayed 1).
Proof. vm_compute. done. Qed.
(** A worker that dies with the delivery costs an attempt, but nothing counts
    them: the seventh claim still offers it. *)
Example crashes_are_not_bounded :
  let claim k := (clock (100 * k), OpClaim (λ _, "u") 25 (60 * Second)) in
  wd_Attempt <$> deliveries (run_history some_text some_text true (claim <$> [1; 2; 3; 4; 5; 6]) claimed) !! 1 = Some 7.
Proof. vm_compute. done. Qed.
(** Other tenants' endpoints are out of reach, and secrets are not shown. *)
Lemma handleDelete_scoped array_scans ws id e db n (Hrel : reliable e) epID p :
  path_id id = Some epID → endpoints db !! epID = Some p → ep_WorkspaceID p ≠ ws →
  state_of (handleDeleteWebhookEndpoint array_scans (Some ws) id e (db, n)) = db.
Proof.
  intros Hid Hp Hws. unfold handleDeleteWebhookEndpoint, FindEndpointByID. rewrite Hid.
  unfold try, mbind, M_bind, exec. simpl. rewrite Hrel, Hp. destruct array_scans; simpl; [|done].
  apply Z.eqb_neq in Hws. by rewrite Hws.
Qed.
Lemma handleList_no_secret array_scans ws q e w l w' :
  handleListWebhookEndpoints array_scans (Some ws) q e w = (inr (REndpoints l), w') → Forall (λ p, ep_Secret p = "") l.
Proof.
  unfold handleListWebhookEndpoints, try, mbind, M_bind.
  destruct (ListEndpointsForWorkspace array_scans ws _ e w) as [[er|l0] w1]; [done|].
  intros [= <- _]. apply Forall_fmap, Forall_true. done.
Qed.
