(* ===== verification/YouTubeResumable.v ===== *)
(** * The resumable upload to YouTube

    [src/internal/services/youtube_upload_resumable.go] opens a session, sends the
    video in chunks and resumes after a failure; [youtube_upload_head.go] asks
    for the size of the source; [youtube_upload.go] has the options, the pauses,
    the saved progress and the private upload of the delivery pool. *)

From S2P Require Import Prelude Codec GoError Http.
From S2P Require Backoff PostModel.
From Stdlib Require Import ZArith Lia.
Local Open Scope Z_scope.

(** ** Options and pauses *)
(* Source: internal/services/youtube_upload.go *)
(* 25-30 youTubeUploadOptions *)
Record youTubeUploadOptions := mkOptions {
  ChunkSize : Z;
  MaxRetries : Z;
  BackoffBase : Z;
  BackoffCap : Z
}.
(** The four settings of the worker's configuration. *)
(* 46-66 loadYouTubeUploadOptions *)
Definition loadYouTubeUploadOptions (chunkBytes maxRetries baseMs capMs : Z) : youTubeUploadOptions :=
  let millis n := wrap64 (n * 1000000) in
  let base := if millis baseMs <=? 0 then Second else millis baseMs in
  mkOptions
    (if chunkBytes <=? 0 then 16 * 1024 * 1024 else chunkBytes)
    (if maxRetries <=? 0 then 5 else maxRetries)
    base
    (if millis capMs <? base then 5 * Minute else millis capMs).
(* 99-106 computeYouTubeBackoff *)
Fixpoint backoff_window (cap : Z) (n : nat) (prev : Z) : Z :=
  match n with
  | O => prev
  | S n' => let prev := wrap64 (prev * 3) in if cap <? prev then cap else backoff_window cap n' prev
  end.
(* 88-115 computeYouTubeBackoff *)
Definition computeYouTubeBackoff (base cap attempt : Z) (int63n : Z → Z) : Z :=
  let base := if base <=? 0 then Second else base in
  let cap := if cap <? base then base else cap in
  let attempt := if attempt <? 1 then 1 else attempt in
  let prev := backoff_window cap (Z.to_nat (attempt - 1)) base in
  let prev := if prev <? base then base else prev in
  Backoff.UniformDuration base prev int63n.
(** [time.Until]: the difference of two times saturates. *)
Definition Until (now t : Z) : Z := Z.max int64_min (Z.min int64_max (t - now)).
(* 258-274 parseRetryAfterHeader *)
Definition parseRetryAfterHeader (now : Z) (h : string) : Z :=
  let h := TrimSpace h in
  if bool_decide (h = "") then 0
  else
    let date := match ParseTime h with
                | Some t => let d := Until now t in if d <? 0 then 0 else d
                | None => 0
                end in
    match ParseInt h with
    | (secs, None) => if 0 <=? secs then wrap64 (secs * Second) else date
    | _ => date
    end.

(** ** The service

    A session store and an encryptor, when the upload job was attached. *)
Record SessionStore (S : Type) := mkStore {
  Save : Z → string → string → Z → Z → Z → S → option GoErr * S;
  Clear : Z → S → option GoErr * S
}.
Arguments Save {S}. Arguments Clear {S}.
(* Source: internal/services/youtube_oauth.go *)
(* 17-51 YouTubeOAuthService *)
Record Service (S : Type) := mkService {
  uploadOpts : youTubeUploadOptions;
  sessionJobID : Z;
  sessionWorkerID : string;
  sessionStore : option (SessionStore S);
  sessionEncryptor : option (string → GoErr + string)
}.
Arguments mkService {S}. Arguments uploadOpts {S}. Arguments sessionJobID {S}. Arguments sessionWorkerID {S}.
Arguments sessionStore {S}. Arguments sessionEncryptor {S}.
(* Source: internal/services/youtube_upload.go *)
(* 155-160 YouTubeOAuthService.AttachUploadSession *)
Definition AttachUploadSession {S} (s : Service S) (jobID : Z) (workerID : string)
    (store : option (SessionStore S)) (encryptor : option (string → GoErr + string)) : Service S :=
  mkService (uploadOpts s) jobID workerID store encryptor.
Definition ErrYouTubeSessionLost : GoErr := (* 293 *)
  leaf (DSentinel "ErrYouTubeSessionLost"
    "youtube upload session URI was rejected (404); resumption lost — re-initiating").
(** The ellipsis is one rune of three bytes. *)
(* 242-250 redactYouTubeSessionURI *)
Definition redactYouTubeSessionURI (uploadURL : string) : string :=
  let n := String.length uploadURL in
  if bool_decide (uploadURL = "") then ""
  else if bool_decide (n ≤ 16)%nat then uploadURL
  else take_s 12 uploadURL +:+ "…" +:+ String.substring (n - 4) 4 uploadURL.

Section Upload.
Context {S : Type} (C : Client S) (s : Service S).
Definition fails_with {A} (text : string) (er : GoErr) : H S A := fail (mkGoErr (DWrap text) [er]).

(* 88-115 computeYouTubeBackoff *)
Definition backoff (n : Z) : H S Z :=
  f ← on_st (rand C);
  give (computeYouTubeBackoff (BackoffBase (uploadOpts s)) (BackoffCap (uploadOpts s)) n f).
(* 122-134 defaultYouTubeSleep *)
Definition sleep (d : Z) : H S unit :=
  if d <=? 0 then give tt
  else r ← on_st (wait C d); match r with Some er => fail er | None => give tt end.
(* 205-207 YouTubeOAuthService.sessionExpiresAt *)
Definition sessionExpiresAt : H S Z := t ← asks (now C); give (t + 24 * Hour).
(** Errors are logged. *)
(* 179-197 YouTubeOAuthService.persistSessionProgress *)
Definition persistSessionProgress (uploadURL : string) (offset : Z) : H S unit :=
  match sessionStore s, sessionEncryptor s with
  | Some store, Some encrypt =>
      match encrypt uploadURL with
      | inl _ => give tt
      | inr cipher =>
          expiresAt ← sessionExpiresAt;
          _ ← on_st (Save store (sessionJobID s) (sessionWorkerID s) (Std_EncodeToString cipher) offset
                       (ChunkSize (uploadOpts s)) expiresAt);
          give tt
      end
  | _, _ => give tt
  end.
(** The result is always nil. *)
(* 216-229 YouTubeOAuthService.handleSessionLost *)
Definition handleSessionLost (deadUploadURL : string) : H S unit :=
  match sessionStore s with
  | Some store => _ ← on_st (Clear store (sessionJobID s)); give tt
  | None => give tt
  end.

(** ** The session *)
(* Source: internal/services/youtube_upload_resumable.go *)
(* 17-51 YouTubeOAuthService.initiateResumableSession *)
Definition initiateResumableSession (accessToken : string) (metadata : json) (fileSize : Z) (contentType : string) : H S string :=
  req ← NewRequest C "POST"
    "https://www.googleapis.com/upload/youtube/v3/videos?uploadType=resumable&part=snippet,status"
    [("Authorization", "Bearer " +:+ accessToken); ("Content-Type", "application/json");
     ("X-Upload-Content-Length", itoa fileSize); ("X-Upload-Content-Type", contentType)] (of_text (marshal metadata));
  resp ← wrapping "init request failed" (send C req);
  if negb (StatusCode resp =? 200) then errorf ("init session failed (status " +:+ itoa (StatusCode resp) +:+ ")")
  else
    let uploadURL := Header_Get resp "Location" in
    if bool_decide (uploadURL = "") then errorf "no Location header in init response" else give uploadURL.

(** The answer to a chunk: the id, the pause the server asked for, whether it is
    worth another try, the error. *)
Definition Put : Type := string * Z * bool * option GoErr.
Definition id_shape : GoType := GStruct [("id", GString)].
(* 235-277 YouTubeOAuthService.putChunkWithContentType *)
Definition put_outcome (retryAfter : Z) (resp : Response) : Put :=
  let code := StatusCode resp in
  let status kind := leaf (DNew (kind +:+ " (status " +:+ itoa code +:+ ", retry_after=" +:+
                                 Duration_String retryAfter +:+ ")")) in
  if (code =? 200) || (code =? 201) then
    match Unmarshal id_shape (text (Body resp)) with
    | None => ("", 0, false, Some (Errorf_w "failed to parse upload completion response" (leaf (DNew "json"))))
    | Some result => (as_string (get_field result "id"), 0, false, None)
    end
  else if code =? 308 then ("", 0, false, None)
  else if code =? 429 then
    ("", retryAfter, true, Some (mkGoErr (DRetryAfter retryAfter) [status "rate limited"]))
  else if 500 <=? code then
    ("", retryAfter, true, Some (mkGoErr (DRetryAfter retryAfter) [status "server error"]))
  else
    ("", 0, false, Some (mkGoErr (DWrap ("permanent upload error: unexpected PUT response (status " +:+ itoa code +:+ ")"))
       [leaf (DSentinel ErrPermanentUpload "permanent upload error")])).
(** The length of the request is that of its data. *)
(* 212-278 YouTubeOAuthService.putChunkWithContentType *)
Definition putChunkWithContentType (uploadURL : string) (data : Bytes) (contentRange contentType : string) : H S Put :=
  req ← attempt (NewRequest C "PUT" uploadURL
    (("Content-Range", contentRange) ::
     if bool_decide (contentType = "") then [] else [("Content-Type", contentType)]) data);
  match req with
  | inl er => give ("", 0, false, Some er)
  | inr req =>
      r ← attempt (send C req);
      match r with
      | inl er => give ("", 0, true, Some (Errorf_w "PUT chunk failed" er))
      | inr resp =>
          t ← asks (now C);
          give (put_outcome (parseRetryAfterHeader t (Header_Get resp "Retry-After")) resp)
      end
  end.
(* 208-210 YouTubeOAuthService.putChunk *)
Definition putChunk (uploadURL : string) (data : Bytes) (contentRange : string) : H S Put :=
  putChunkWithContentType uploadURL data contentRange "".

(** ** How much the server has *)
(* 341-360 YouTubeOAuthService.queryUploadStatus *)
Definition next_byte (rangeHeader : string) : GoErr + Z :=
  if bool_decide (rangeHeader = "") then inr 0
  else
    match SplitN2 "=" rangeHeader with
    | None => inl (leaf (DNew ("malformed Range header: " +:+ rangeHeader)))
    | Some (_, v) =>
        match SplitN2 "-" v with
        | None => inl (leaf (DNew ("malformed Range value: " +:+ v)))
        | Some (_, e) =>
            match Sscanf_d e with
            | inl er => inl (Errorf_w "failed to parse Range end byte" (of_err er))
            | inr lastByte => inr (wrap64 (lastByte + 1))
            end
        end
    end.
(* 290-361 YouTubeOAuthService.queryUploadStatus *)
Definition queryUploadStatus (uploadURL : string) (fileSize : Z) : H S Z :=
  req ← NewRequest C "PUT" uploadURL [("Content-Range", "bytes */" +:+ itoa fileSize)] [];
  resp ← send C req;
  if StatusCode resp =? 404 then fail ErrYouTubeSessionLost
  else if negb (StatusCode resp =? 308) then errorf ("unexpected status query response: " +:+ itoa (StatusCode resp))
  else match next_byte (Header_Get resp "Range") with inl er => fail er | inr n => give n end.
(** [left] is what remains of the loop; after the last failure the loop ends. *)
(* 377-390 YouTubeOAuthService.queryUploadStatusWithRetry *)
Fixpoint query_loop (uploadURL : string) (fileSize : Z) (left : nat) (n : Z) (lastErr : option GoErr) : H S Z :=
  match left with
  | O => match lastErr with Some er => fail er | None => give 0 end
  | Datatypes.S left' =>
      r ← attempt (queryUploadStatus uploadURL fileSize);
      match r with
      | inr offset => give offset
      | inl er =>
          if bool_decide (left' = O) then query_loop uploadURL fileSize left' (n + 1) (Some er)
          else d ← backoff n; _ ← sleep d; query_loop uploadURL fileSize left' (n + 1) (Some er)
      end
  end.
(* 372-391 YouTubeOAuthService.queryUploadStatusWithRetry *)
Definition queryUploadStatusWithRetry (uploadURL : string) (fileSize maxAttempts : Z) : H S Z :=
  let maxAttempts := if maxAttempts <=? 0 then 2 else maxAttempts in
  query_loop uploadURL fileSize (Z.to_nat maxAttempts) 1 None.

(** ** The chunks *)
Definition chunk_range (uploaded : Z) (n : nat) (fileSize : Z) : string :=
  "bytes " +:+ itoa uploaded +:+ "-" +:+ itoa (wrap64 (wrap64 (uploaded + Z.of_nat n) - 1)) +:+ "/" +:+ itoa fileSize.
(** The way one turn of the loop ends: the upload is complete, the source is at
    its end, the next chunk, or a new download from where the server is. *)
Inductive Turn :=
| Complete (videoID : string)
| Exhausted
| Next (uploaded : Z) (rest : Bytes)
| Resume (resumedAt : Z) (resp : Response).
(** The pause, the question and the new download after a failure that may be
    retried; [retries] is the new count. *)
(* 120-164 YouTubeOAuthService.uploadVideoChunks *)
Definition resume (uploadURL sourceURL : string) (fileSize uploaded retries retryAfter : Z) : H S Turn :=
  sleepFor ← (if 0 <? retryAfter then give retryAfter else backoff retries);
  _ ← wrapping ("upload cancelled during backoff at byte " +:+ itoa uploaded) (sleep sleepFor);
  resumedAt ← wrapping ("upload failed at byte " +:+ itoa uploaded +:+ " (status query failed)")
    (queryUploadStatusWithRetry uploadURL fileSize 2);
  req2 ← wrapping ("failed to re-download from byte " +:+ itoa resumedAt +:+ " (build request)")
    (NewRequest C "GET" sourceURL [("Range", "bytes=" +:+ itoa resumedAt +:+ "-")] []);
  resp2 ← wrapping ("failed to re-download from byte " +:+ itoa resumedAt) (send C req2);
  give (Resume resumedAt resp2).
(* 88-186 YouTubeOAuthService.uploadVideoChunks *)
Definition chunk_turn (uploadURL sourceURL : string) (fileSize uploaded retries : Z) (body : Bytes) (e : Ending) : H S Turn :=
  done ← asks (ctx_Err C);
  match done with
  | Some er => fail (Errorf_w "upload cancelled" er)
  | None =>
      let '(chunk, readErr, rest) := ReadFull (Z.to_nat (ChunkSize (uploadOpts s))) body e in
      match readErr with
      | Some (ReadFailed er) => fail (Errorf_w "failed to read video chunk" er)
      | _ =>
          let n := length chunk in
          if bool_decide (n = O) then give Exhausted
          else
            put ← putChunk uploadURL chunk (chunk_range uploaded n fileSize);
            let '(videoID, retryAfter, retryable, uploadErr) := put : Put in
            match uploadErr with
            | Some er =>
                if negb retryable then fail er
                else if MaxRetries (uploadOpts s) <=? retries then
                  fails_with ("upload failed at byte " +:+ itoa uploaded +:+ " after " +:+ itoa retries +:+
                              " retries: " +:+ Error er) er
                else resume uploadURL sourceURL fileSize uploaded (retries + 1) retryAfter
            | None =>
                _ ← persistSessionProgress uploadURL (wrap64 (uploaded + Z.of_nat n));
                if negb (bool_decide (videoID = "")) then give (Complete videoID)
                else if bool_decide (readErr = None) then give (Next (wrap64 (uploaded + Z.of_nat n)) rest)
                else give Exhausted
            end
      end
  end.
(** A chunk takes at least one byte of the body and a new download counts as a
    retry, so a body is read in at most as many turns as it has bytes and there
    are at most [resumes] new bodies.  [None] is the end of the fuel, which is never
    reached ([chunk_loop_ends]). *)
(* 88-186 YouTubeOAuthService.uploadVideoChunks *)
Fixpoint chunk_loop (resumes : nat) (uploadURL sourceURL : string) (fileSize : Z) :
    nat → Z → Z → Bytes → Ending → H S (option (option string)) :=
  fix stream (fuel : nat) (uploaded retries : Z) (body : Bytes) (e : Ending) {struct fuel} :=
  match fuel with
  | O => give None
  | Datatypes.S fuel =>
      t ← chunk_turn uploadURL sourceURL fileSize uploaded retries body e;
      match t with
      | Complete videoID => give (Some (Some videoID))
      | Exhausted => give (Some None)
      | Next uploaded rest => stream fuel uploaded retries rest e
      | Resume resumedAt resp =>
          match resumes with
          | O => give None
          | Datatypes.S resumes' =>
              chunk_loop resumes' uploadURL sourceURL fileSize (Datatypes.S (length (Body resp)))
                resumedAt (retries + 1) (Body resp) (ending resp)
          end
      end
  end.
(* 60-190 YouTubeOAuthService.uploadVideoChunks *)
Definition uploadVideoChunks (uploadURL sourceURL : string) (fileSize : Z) : H S string :=
  req ← NewRequest C "GET" sourceURL [] [];
  resp ← wrapping "failed to download source video" (send C req);
  if negb (StatusCode resp =? 200) then errorf ("source video returned status " +:+ itoa (StatusCode resp))
  else
    let fileSize := if fileSize <=? 0 then ContentLength resp else fileSize in
    if fileSize <=? 0 then errorf ("unable to determine video size (got " +:+ itoa fileSize +:+ ")")
    else
      r ← chunk_loop (Z.to_nat (MaxRetries (uploadOpts s))) uploadURL sourceURL fileSize
            (Datatypes.S (length (Body resp))) 0 0 (Body resp) (ending resp);
      match r with
      | Some (Some videoID) => give videoID
      | _ => errorf "upload completed but no video ID returned"
      end.

(** ** The size of the source *)
(* Source: internal/services/youtube_upload_head.go *)
(* 29-55 YouTubeOAuthService.headViaRange *)
Definition headViaRange (videoURL : string) : H S (Z * string) :=
  req ← NewRequest C "GET" videoURL [("Range", "bytes=0-0")] [];
  resp ← send C req;
  if negb (StatusCode resp =? 206) then
    errorf ("unable to determine video size (status " +:+ itoa (StatusCode resp) +:+ ")")
  else
    let contentRange := Header_Get resp "Content-Range" in
    match Split2 "/" contentRange with
    | None => errorf ("unexpected Content-Range: " +:+ contentRange)
    | Some (_, n) =>
        match Sscanf_d (TrimSpace n) with
        | inl er => fail (Errorf_w "failed to parse total size" (of_err er))
        | inr total => give (total, Header_Get resp "Content-Type")
        end
    end.
(* 10-27 YouTubeOAuthService.headVideo *)
Definition headVideo (videoURL : string) : H S (Z * string) :=
  req ← wrapping "HEAD request creation failed" (NewRequest C "HEAD" videoURL [] []);
  resp ← wrapping "HEAD request failed" (send C req);
  if negb (StatusCode resp =? 200) then headViaRange videoURL
  else give (ContentLength resp, Header_Get resp "Content-Type").

(** ** The private upload of the delivery pool *)
(* Source: internal/services/youtube_upload.go *)
(* 426-440 YouTubeOAuthService.buildPrivateUploadMetadata *)
Definition buildPrivateUploadMetadata (post : PostModel.Post) (nativePublishAt : option Z) : H S json :=
  t ← asks (now C);
  let publishAt := match nativePublishAt with
    | Some p => if t <? p then [("publishAt", JStr (rfc3339 p))] else []
    | None => []
    end in
  give (JObj [("snippet", JObj [("description", JStr (PostModel.post_Caption post));
                                ("title", JStr (PostModel.post_Title post))]);
              ("status", JObj (("privacyStatus", JStr "private") :: publishAt))]).
(** The service is not nil; [post] is the pointer. *)
(* 366-415 YouTubeOAuthService.UploadVideoAsPrivate *)
Definition UploadVideoAsPrivate (accessToken : string) (post : option PostModel.Post) (videoURL : string)
    (nativePublishAt : option Z) : H S string :=
  match post with
  | None => errorf "youtube UploadVideoAsPrivate: nil post"
  | Some post =>
      if bool_decide (accessToken = "") then errorf "youtube UploadVideoAsPrivate: empty accessToken"
      else if bool_decide (videoURL = "") then errorf "youtube UploadVideoAsPrivate: empty videoURL"
      else
        source ← wrapping "youtube UploadVideoAsPrivate: head source" (headVideo videoURL);
        let '(size, contentType) := source : Z * string in
        if size <=? 0 then errorf ("youtube UploadVideoAsPrivate: unknown source size (" +:+ itoa size +:+ ")")
        else
          metadata ← buildPrivateUploadMetadata post nativePublishAt;
          uploadURL ← wrapping "youtube UploadVideoAsPrivate: initiate resumable session"
            (initiateResumableSession accessToken metadata size contentType);
          videoID ← wrapping "youtube UploadVideoAsPrivate: chunked PUT" (uploadVideoChunks uploadURL videoURL size);
          if bool_decide (videoID = "") then errorf "youtube UploadVideoAsPrivate: completed but no video id returned"
          else give videoID
  end.
End Upload.
