(* ===== verification/YouTubeResumableProps.v ===== *)
(** * The resumable upload: what is stored, and how many requests it takes

    The remote side is any client that behaves as the protocol says
    ([ResumableServer]); the demonstration server at the end is one, and serves to
    show what happens when the source does not honour a range. *)

From S2P Require Import Prelude Codec GoError Http YouTubeResumable.
From S2P Require Backoff PostModel.
From Stdlib Require Import ZArith Lia.
Local Open Scope Z_scope.

(** ** Texts of the protocol *)
Lemma next_byte_print k : 0 ≤ k < 2^63 - 1 → next_byte ("bytes=0-" +:+ itoa k) = inr (k + 1).
Proof.
  intros Hk. unfold next_byte. rewrite bool_decide_eq_false_2 by done.
  change ("bytes=0-" +:+ itoa k) with ("bytes" +:+ String "=" ("0" +:+ String "-" (itoa k))).
  rewrite SplitN2_app by (unfold no_byte; set_solver).
  rewrite SplitN2_app by (unfold no_byte; set_solver).
  rewrite Sscanf_itoa by (unfold in_int64, int64_min, int64_max; lia).
  by rewrite wrap64_id by (unfold in_int64, int64_min, int64_max; lia).
Qed.
Lemma itoa_no_byte c z : is_digit c = false → 0 ≤ z → no_byte c (itoa z).
Proof. intros Hc Hz. apply digits_no_byte; [done|]. by apply itoa_digits. Qed.
Lemma range_start x y : 0 ≤ x →
  string_prefix_drop "bytes " ("bytes " +:+ itoa x +:+ "-" +:+ y) ≫= SplitN2 "-" = Some (itoa x, y).
Proof. intros Hx. apply (SplitN2_app "-" (itoa x) y). by apply itoa_no_byte. Qed.
Lemma chunk_range_inj a b n m total : 0 ≤ a → 0 ≤ b → chunk_range a n total = chunk_range b m total → a = b.
Proof.
  intros Ha Hb E. apply (f_equal (λ t, string_prefix_drop "bytes " t ≫= SplitN2 "-")) in E.
  unfold chunk_range in E. rewrite !range_start in E by done. injection E as E _. by apply itoa_inj.
Qed.

(** ** A server and a source that keep to the protocol *)
Section Integrity.
Context {S : Type} (C : Client S) (s : Service S).
Context (up source : string) (src : Bytes) (total : Z) (committed : S → Bytes).
Definition get_whole : Request := mkRequest "GET" source [] [].
Definition get_from (a : Z) : Request := mkRequest "GET" source [("Range", "bytes=" +:+ itoa a +:+ "-")] [].
Definition put_chunk (a : Z) (p : Bytes) : Request :=
  mkRequest "PUT" up [("Content-Range", chunk_range a (length p) total)] p.
Definition probe : Request := mkRequest "PUT" up [("Content-Range", "bytes */" +:+ itoa total)] [].
(** What is relied on: the source serves its bytes, from the position asked for;
    the server answers a probe with the range it has; it keeps a chunk only
    where its own bytes end or before, and a prefix of it at that; it says 200 or
    201 only when it has [total] bytes. *)
Class ResumableServer : Prop := {
  wait_quiet d x : committed (wait C d x).2 = committed x;
  rand_quiet x : committed (rand C x).2 = committed x;
  save_quiet store : sessionStore s = Some store →
    ∀ id worker text offset size at_ x, committed (Save store id worker text offset size at_ x).2 = committed x;
  no_payload_quiet req x : payload req = [] → committed (Do C req x).2 = committed x;
  source_whole x r : (Do C get_whole x).1 = inr r → StatusCode r = 200 → Body r `prefix_of` src;
  source_from a x r : 0 ≤ a → (Do C (get_from a) x).1 = inr r → Body r `prefix_of` drop (Z.to_nat a) src;
  probe_answer x r : (Do C probe x).1 = inr r → StatusCode r = 308 →
    Header_Get r "Range" = "" ∨ ∃ k, 0 ≤ k < 2^63 - 1 ∧ Header_Get r "Range" = "bytes=0-" +:+ itoa k;
  chunk_kept a p x : 0 ≤ a → p ≠ [] → committed (Do C (put_chunk a p) x).2 = committed x ∨
    ∃ k, (Z.to_nat a ≤ length (committed x))%nat ∧
         committed (Do C (put_chunk a p) x).2 = take (Z.to_nat a) (committed x) ++ take k p;
  chunk_complete a p x r : 0 ≤ a → p ≠ [] → (Do C (put_chunk a p) x).1 = inr r →
    StatusCode r = 200 ∨ StatusCode r = 201 → Z.of_nat (length (committed (Do C (put_chunk a p) x).2)) = total
}.
Context `{!ResumableServer} (Hsrc : Z.of_nat (length src) < 2^63).
(** The requests that left before. *)
Context (base : list Request).

(** A request carries the bytes its Content-Range names. *)
Definition carries (req : Request) : Prop := payload req = [] ∨
  ∃ a, 0 ≤ a ∧ req = put_chunk a (payload req) ∧ payload req `prefix_of` drop (Z.to_nat a) src.
Definition stored (w : World S) : Prop :=
  committed (st w) `prefix_of` src ∧ ∃ l, sent w = base ++ l ∧ Forall carries l.
Lemma stored_fresh x : committed x `prefix_of` src → stored (mkWorld x base).
Proof. intros Hx. split; [done|]. exists []. by rewrite app_nil_r. Qed.
Lemma stored_send w req x' : stored w → carries req → committed x' `prefix_of` src →
  stored (mkWorld x' (sent w ++ [req])).
Proof.
  intros [_ (l & Hl & Hf)] Hreq Hx. split; [done|]. exists (l ++ [req]). simpl. rewrite Hl, app_assoc.
  split; [done|]. apply Forall_app. by split; [|constructor].
Qed.
(** The last request was the chunk that made the file complete. *)
Definition finished (x : Bytes) (log : list Request) : Prop :=
  Z.of_nat (length x) = total ∧ ∃ a p, last log = Some (put_chunk a p).
Definition whole (w : World S) : Prop := stored w ∧ finished (committed (st w)) (sent w).
Notation safe m Q := (triple stored m Q (λ _, stored)).

Lemma safe_on_st {A} (f : S → A * S) : (∀ x, committed (f x).2 = committed x) → safe (on_st f) (λ _, stored).
Proof. intros Hf. apply client_on_st. intros w [H1 H2]. split; simpl; [by rewrite Hf|done]. Qed.
Lemma safe_send req Q : payload req = [] →
  (∀ w r, stored w → (Do C req (st w)).1 = inr r → Q r) →
  safe (send C req) (λ r w, Q r ∧ stored w).
Proof.
  intros Hp HQ. apply client_send. intros w Hw. pose proof (no_payload_quiet req (st w) Hp) as Hc.
  specialize (HQ w). destruct (Do C req (st w)) as [r x'] eqn:E. simpl in Hc.
  assert (stored (mkWorld x' (sent w ++ [req]))) as Hw'.
  { apply stored_send; [done|by left|]. rewrite Hc. apply Hw. }
  destruct r as [er|r]; [done|]. split; [|done]. by apply HQ.
Qed.
Lemma safe_give {A} (a : A) : safe (give a) (λ _, stored).
Proof. by apply client_give. Qed.
Lemma safe_fail {A} er (Q : A → World S → Prop) : safe (fail er) Q.
Proof. by apply client_fail. Qed.
Lemma safe_asks {A} (f : S → A) : safe (asks f) (λ _, stored).
Proof. by apply client_asks. Qed.
Lemma safe_backoff n : safe (backoff C s n) (λ _, stored).
Proof. eapply client_bind; [apply safe_on_st, rand_quiet|intros f; apply safe_give]. Qed.
Lemma safe_sleep d : safe (sleep C d) (λ _, stored).
Proof.
  unfold sleep. destruct (d <=? 0); [apply safe_give|].
  eapply client_bind; [apply safe_on_st, wait_quiet|]. intros [er|]; [apply safe_fail|apply safe_give].
Qed.
(** Saving the progress touches neither the stored bytes nor the log. *)
Lemma persist_keeps offset (φ : Bytes → list Request → Prop) (E : GoErr → World S → Prop) :
  triple (λ w, stored w ∧ φ (committed (st w)) (sent w)) (persistSessionProgress C s up offset)
    (λ _ w, stored w ∧ φ (committed (st w)) (sent w)) E.
Proof.
  unfold persistSessionProgress. destruct (sessionStore s) as [store|] eqn:Es; [|by apply client_give].
  destruct (sessionEncryptor s) as [enc|]; [|by apply client_give].
  destruct (enc up) as [|cipher]; [by apply client_give|].
  apply (client_bind _ _ _ (λ _ w, stored w ∧ φ (committed (st w)) (sent w))).
  { apply (client_bind _ _ _ (λ _ w, stored w ∧ φ (committed (st w)) (sent w))); [by apply client_asks|intros t; by apply client_give]. }
  intros t. apply (client_bind _ _ _ (λ _ w, stored w ∧ φ (committed (st w)) (sent w))); [|intros ?; by apply client_give].
  apply client_on_st. intros w [[H1 H2] H3].
  pose proof (save_quiet store Es (sessionJobID s) (sessionWorkerID s) (Std_EncodeToString cipher) offset
    (ChunkSize (uploadOpts s)) t (st w)) as Hq.
  unfold stored. simpl. by rewrite Hq.
Qed.
Lemma safe_new method url hs p : safe (NewRequest C method url hs p) (λ r w, r = mkRequest method url hs p ∧ stored w).
Proof. by apply client_NewRequest. Qed.

Lemma safe_query : safe (queryUploadStatus C up total) (λ n w, 0 ≤ n ∧ stored w).
Proof.
  unfold queryUploadStatus. eapply client_bind; [apply safe_new|]. intros req. apply client_pure. intros ->.
  eapply client_bind; [apply (safe_send probe (λ r, StatusCode r = 308 → Header_Get r "Range" = "" ∨ ∃ k, 0 ≤ k < 2^63 - 1 ∧ Header_Get r "Range" = "bytes=0-" +:+ itoa k))|].
  { done. }
  { intros w r _ Hr. by apply (probe_answer (st w)). }
  intros r. apply client_pure. intros Hr.
  destruct (StatusCode r =? 404); [apply safe_fail|].
  destruct (Z.eqb_spec (StatusCode r) 308) as [E|]; simpl; [|apply safe_fail].
  destruct (Hr E) as [->|(k & Hk & ->)].
  - apply client_give. split; [simpl; lia|done].
  - rewrite next_byte_print by done. apply client_give. split; [lia|done].
Qed.
Lemma safe_query_loop more n lastErr : (0 < more)%nat ∨ is_Some lastErr →
  safe (query_loop C s up total more n lastErr) (λ n w, 0 ≤ n ∧ stored w).
Proof.
  revert n lastErr. induction more as [|more IH]; intros n lastErr Hl; cbn [query_loop].
  { destruct lastErr; [apply safe_fail|]. destruct Hl as [|[? ?]]; [lia|done]. }
  eapply client_bind; [apply client_attempt|].
  { eapply client_weaken; [done|apply safe_query| |].
    - intros a w Hw. exact (Hw : (λ r w, match r with inr n => 0 ≤ n | inl _ => True end ∧ stored w) (inr a) w).
    - intros er w Hw. by split. }
  intros [er|o]; apply client_pure; intros Ho; [|by apply client_give].
  case_bool_decide; [apply IH; right; by eexists|].
  eapply client_bind; [apply safe_backoff|intros d].
  eapply client_bind; [apply safe_sleep|intros []]. apply IH. right. by eexists.
Qed.

(** A new download starts with the byte it was asked for. *)
Definition resumes (t : Turn) : Prop :=
  match t with Resume a r => 0 ≤ a ∧ Body r `prefix_of` drop (Z.to_nat a) src | _ => False end.
Lemma safe_resume uploaded retries retryAfter :
  safe (resume C s up source total uploaded retries retryAfter) (λ t w, resumes t ∧ stored w).
Proof.
  unfold resume. eapply client_bind; [destruct (0 <? retryAfter); [apply safe_give|apply safe_backoff]|intros d].
  eapply client_bind; [apply client_wrapping, safe_sleep|intros []].
  eapply client_bind; [apply client_wrapping, safe_query_loop; left; compute; lia|intros a].
  apply client_pure. intros Ha.
  eapply client_bind; [apply client_wrapping, safe_new|intros req]. apply client_pure. intros ->.
  eapply client_bind; [apply client_wrapping, (safe_send (get_from a) (λ r, Body r `prefix_of` drop (Z.to_nat a) src))|].
  { done. }
  { intros w r _ Hr. by apply (source_from a (st w)). }
  intros r. apply client_pure. intros Hr. by apply client_give.
Qed.

(** *** The chunks *)
Lemma put_outcome_id retryAfter r id retry able :
  put_outcome retryAfter r = (id, retry, able, None) → id ≠ "" → StatusCode r = 200 ∨ StatusCode r = 201.
Proof.
  unfold put_outcome. intros H Hid. destruct (_ || _) eqn:E; [lia|].
  repeat case_match; try done. by injection H as <- _ _.
Qed.
(** A chunk of the source at its place is stored at its place. *)
Lemma stored_chunk a p w r x' : 0 ≤ a → p ≠ [] → p `prefix_of` drop (Z.to_nat a) src → stored w →
  Do C (put_chunk a p) (st w) = (r, x') → stored (mkWorld x' (sent w ++ [put_chunk a p])).
Proof.
  intros Ha Hp Hpre Hw E. pose proof Hw as [H1 _].
  apply stored_send; [done|right; by exists a|].
  - pose proof (chunk_kept a p (st w) Ha Hp) as Hk. rewrite E in Hk. simpl in Hk.
    destruct Hk as [->|(k & Hle & ->)]; [done|].
    assert (take (Z.to_nat a) (committed (st w)) = take (Z.to_nat a) src) as ->.
    { destruct H1 as [t ->]. by rewrite take_app_le. }
    rewrite <- (take_drop (Z.to_nat a) src) at 2. apply prefix_app.
    transitivity p; [|done]. apply prefix_take.
Qed.
Definition chunk_result (p : Put) (w : World S) : Prop :=
  stored w ∧ (p.1.1.1 ≠ "" → p.2 = None → whole w).
Lemma safe_put a p : 0 ≤ a → p ≠ [] → p `prefix_of` drop (Z.to_nat a) src →
  safe (putChunk C up p (chunk_range a (length p) total)) chunk_result.
Proof.
  intros Ha Hp Hpre. unfold putChunk, putChunkWithContentType.
  apply (client_bind _ _ _ (λ r w, match r with inr q => q = put_chunk a p | inl _ => True end ∧ stored w)).
  { by apply client_attempt, client_NewRequest. }
  intros [er|q]; apply client_pure; [intros _|intros ->].
  { apply client_give. intros w Hw. by split. }
  apply (client_bind _ _ _ (λ r w, stored w ∧
    match r with inr r => StatusCode r = 200 ∨ StatusCode r = 201 → whole w | inl _ => True end)).
  { apply client_attempt, client_send. intros w Hw. destruct (Do C (put_chunk a p) (st w)) as [r x'] eqn:E.
    pose proof (stored_chunk a p w r x' Ha Hp Hpre Hw E) as Hst.
    pose proof (chunk_complete a p (st w)) as Hc. rewrite E in Hc. simpl in Hc.
    destruct r as [er|r].
    - by split.
    - split; [exact Hst|]. intros Hs. split; [exact Hst|]. split; [by apply (Hc r)|]. exists a, p. simpl. by rewrite last_snoc. }
  intros [er|r].
  { apply client_give. intros w [Hw _]. by split. }
  apply (client_bind _ _ _ (λ _ w, stored w ∧ (StatusCode r = 200 ∨ StatusCode r = 201 → whole w)));
    [by apply client_asks|intros t].
  apply client_give. intros w [Hw Hs]. split; [done|].
  destruct (put_outcome _ r) as [[[id ra] able] er] eqn:E. simpl. intros Hid ->.
  apply Hs. by eapply put_outcome_id.
Qed.

(** The body is the source from the byte the loop has reached. *)
Definition at_byte (uploaded : Z) (body : Bytes) : Prop :=
  0 ≤ uploaded ∧ body `prefix_of` drop (Z.to_nat uploaded) src.
Lemma ReadFull_split n body e c er rest : ReadFull n body e = (c, er, rest) →
  (er = None → body = c ++ rest) ∧ c `prefix_of` body.
Proof.
  unfold ReadFull. case_bool_decide; intros [= <- <- <-].
  - split; [intros _; by rewrite take_drop|apply prefix_take].
  - done.
Qed.
Lemma at_byte_next u n c rest : at_byte u (c ++ rest) → n = length c → c ≠ [] →
  at_byte (wrap64 (u + Z.of_nat n)) rest ∧ wrap64 (u + Z.of_nat n) = u + Z.of_nat n.
Proof.
  intros [Hu Hpre] -> Hc.
  assert (Z.to_nat u + length c ≤ length src)%nat as Hle.
  { apply prefix_length in Hpre. rewrite length_app, length_drop in Hpre.
    destruct c; [done|simpl in *; lia]. }
  assert (wrap64 (u + Z.of_nat (length c)) = u + Z.of_nat (length c)) as E
    by (apply wrap64_id; unfold in_int64, int64_min, int64_max; lia).
  rewrite E. split; [|done]. split; [lia|].
  rewrite Z2Nat.inj_add, Nat2Z.id by lia. rewrite <- drop_drop.
  destruct Hpre as [t Ht]. exists t. by rewrite Ht, <- app_assoc, drop_app_length.
Qed.
Definition turn_ok (t : Turn) (w : World S) : Prop :=
  match t with
  | Complete id => id ≠ "" ∧ whole w
  | Exhausted => True
  | Next u rest => at_byte u rest
  | Resume a r => at_byte a (Body r)
  end ∧ stored w.
(** After a chunk that was taken. *)
Lemma safe_advance u c rest (readErr : option ReadErr) body id :
  at_byte u body → c ≠ [] → (readErr = None → body = c ++ rest) →
  triple (λ w, stored w ∧ (id ≠ "" → whole w))
    (_ ← persistSessionProgress C s up (wrap64 (u + Z.of_nat (length c)));
     if negb (bool_decide (id = "")) then give (Complete id)
     else if bool_decide (readErr = None) then give (Next (wrap64 (u + Z.of_nat (length c))) rest)
     else give Exhausted) turn_ok (λ _, stored).
Proof.
  intros Hat Hc Hnext.
  apply (client_bind _ _ _ (λ _ w, stored w ∧ (id ≠ "" → finished (committed (st w)) (sent w)))).
  { eapply client_pre; [apply (persist_keeps _ (λ c l, id ≠ "" → finished c l))|]. intros w [Hw Hid]. split; [done|]. intros H. by apply Hid. }
  intros []. case_bool_decide; simpl.
  - case_bool_decide as Hr; apply client_give; intros w [Hw _]; [|done]. split; [|done].
    rewrite (Hnext Hr) in Hat. by eapply at_byte_next.
  - apply client_give. intros w [Hw Hid]. split; [|done]. split; [done|]. split; [done|by apply Hid].
Qed.
Lemma safe_turn u retries body e : at_byte u body →
  safe (chunk_turn C s up source total u retries body e) turn_ok.
Proof.
  intros Hat. unfold chunk_turn. eapply client_bind; [apply safe_asks|].
  intros [er|]; [apply safe_fail|].
  destruct (ReadFull _ body e) as [[c readErr] rest] eqn:E. apply ReadFull_split in E as [Hnext Hpre].
  destruct readErr as [[| |er]|] eqn:Er; try apply safe_fail.
  all: destruct (bool_decide _) eqn:Hn; [by apply client_give|apply bool_decide_eq_false in Hn].
  all: assert (c ≠ []) as Hc by (by intros ->).
  all: assert (c `prefix_of` drop (Z.to_nat u) src) as Hsl by (destruct Hat; by transitivity body).
  all: eapply client_bind; [by apply safe_put; [apply Hat|..]|intros [[[id ra] able] uploadErr]].
  all: unfold chunk_result; cbn [fst snd].
  all: destruct uploadErr as [er|];
    [eapply client_pre; [|intros w [Hw _]; exact Hw]; destruct able; simpl; [|apply safe_fail];
     destruct (_ <=? _); [apply safe_fail|]; eapply client_weaken; [done|apply safe_resume| |done];
     intros [| | |a r] w [Ht Hw]; done|].
  all: eapply client_pre; [by apply (safe_advance u c rest _ body id)|]; intros w [Hw Hid]; split; [done|]; intros H; by apply Hid.
Qed.
(** *** The loop *)
Lemma safe_loop n fuel u retries body e : at_byte u body →
  safe (chunk_loop C s n up source total fuel u retries body e)
    (λ r w, stored w ∧ ∀ id, r = Some (Some id) → whole w).
Proof.
  revert fuel u retries body e. induction n as [|n IHn]; intros fuel.
  all: induction fuel as [|fuel IH]; intros u retries body e Hat; cbn [chunk_loop]; [by apply client_give|].
  all: eapply client_bind; [by apply safe_turn|intros [id| |u' rest|a r]]; unfold turn_ok.
  all: try (apply client_give; intros w [H Hw]; split; [done|]; intros ? [= ->]; by apply H).
  all: try (apply client_pure; intros H).
  all: try (by apply IH). all: try (by apply IHn).
  all: try (apply client_give; by split).
Qed.
Lemma uploadVideoChunks_stores : 0 < total →
  triple stored (uploadVideoChunks C s up source total) (λ _, whole) (λ _, stored).
Proof.
  intros Htotal. unfold uploadVideoChunks. eapply client_bind; [apply safe_new|intros req; apply client_pure; intros ->].
  eapply client_bind; [apply client_wrapping,
    (safe_send get_whole (λ r, StatusCode r = 200 → Body r `prefix_of` src))|].
  { done. }
  { intros w' r _ Hr. by apply (source_whole (st w')). }
  intros r. apply client_pure. intros Hr. destruct (Z.eqb_spec (StatusCode r) 200) as [E|]; [|by apply client_fail].
  destruct (Z.leb_spec total 0); [lia|]. simpl. destruct (Z.leb_spec total 0); [lia|].
  eapply client_bind; [by apply safe_loop; split; [done|apply Hr]|].
  intros [[id|]|]; [|by apply client_fail; intros ? []..].
  apply client_give. intros w' [_ Hid]. by apply (Hid id).
Qed.
Lemma whole_file w : whole w → 0 < total → committed (st w) = take (Z.to_nat total) src.
Proof.
  intros [[[t ->] _] [Hlen _]] Htotal. by rewrite take_app_le, take_ge by lia.
Qed.
End Integrity.
Arguments ResumableServer {S} C s up source src total committed.


(** ** How many requests it takes *)
Section Requests.
Context {S : Type} (C : Client S) (s : Service S) (up source : string).
Definition requests (w : World S) : Z := Z.of_nat (length (sent w)).
(** At most [k] requests. *)
Definition costs {A} (k : Z) (m : H S A) : Prop :=
  ∀ c, triple (λ w, requests w = c) m (λ _ w, requests w ≤ c + k) (λ _ w, requests w ≤ c + k).
Lemma costs_pure {A} k (m : H S A) : 0 ≤ k → (∀ w, sent (m w).2 = sent w) → costs k m.
Proof.
  intros Hk Hm c w Hw. specialize (Hm w). unfold requests in *.
  destruct (m w) as [[er|a] w']; simpl in Hm; rewrite Hm; lia.
Qed.
Lemma costs_give {A} k (a : A) : 0 ≤ k → costs k (give a).
Proof. intros. by apply costs_pure. Qed.
Lemma costs_fail {A} k er : 0 ≤ k → costs k (fail er : H S A).
Proof. intros. by apply costs_pure. Qed.
Lemma costs_bind {A B} j k (m : H S A) (f : A → H S B) : 0 ≤ k →
  costs j m → (∀ a, costs k (f a)) → costs (j + k) (m ≫= f).
Proof.
  intros Hk Hm Hf c w Hw. specialize (Hm c w Hw). unfold mbind, H_bind, bind.
  destruct (m w) as [[er|a] w']; [lia|].
  specialize (Hf a (requests w') w' eq_refl). destruct (f a w') as [[er|b] w'']; lia.
Qed.
Lemma costs_wrapping {A} k prefix (m : H S A) : costs k m → costs k (wrapping prefix m).
Proof. intros Hm c. apply client_wrapping, Hm. Qed.
Lemma costs_attempt {A} k (m : H S A) : costs k m → costs k (attempt m).
Proof. intros Hm c. apply client_attempt, Hm. Qed.
Lemma costs_on_st {A} k (f : S → A * S) : 0 ≤ k → costs k (on_st f).
Proof. intros Hk. apply costs_pure; [done|]. intros w. unfold on_st. by destruct (f (st w)). Qed.
Lemma costs_send req : costs 1 (send C req).
Proof.
  intros c w Hw. unfold send, requests in *. destruct (Do C req (st w)) as [[er|r] x']; simpl;
    rewrite length_app; simpl; lia.
Qed.
Lemma costs_NewRequest k method url hs p : 0 ≤ k → costs k (NewRequest C method url hs p).
Proof. intros Hk. unfold NewRequest. destruct (bad_url C url); [by apply costs_fail|by apply costs_give]. Qed.
Lemma costs_weaken {A} j k (m : H S A) : costs j m → j ≤ k → costs k m.
Proof. intros Hm Hk c. eapply client_weaken; [|apply (Hm c)|..]; simpl; intros; first [done|lia]. Qed.
Lemma costs_backoff n : costs 0 (backoff C s n).
Proof. apply (costs_bind 0 0); [lia|by apply costs_on_st|]. intros. by apply costs_give. Qed.
Lemma costs_sleep d : costs 0 (sleep C d).
Proof.
  unfold sleep. destruct (d <=? 0); [by apply costs_give|].
  apply (costs_bind 0 0); [lia|by apply costs_on_st|]. intros [er|]; [by apply costs_fail|by apply costs_give].
Qed.
Lemma costs_query url n : costs 1 (queryUploadStatus C url n).
Proof.
  unfold queryUploadStatus. apply (costs_bind 0 1); [lia|by apply costs_NewRequest|intros req].
  apply (costs_bind 1 0); [lia|apply costs_send|intros r].
  repeat case_match; first [by apply costs_fail|by apply costs_give].
Qed.
Lemma costs_query_loop url size more n lastErr :
  costs (Z.of_nat more) (query_loop C s url size more n lastErr).
Proof.
  revert n lastErr. induction more as [|more IH]; intros n lastErr; cbn [query_loop].
  { destruct lastErr; [by apply costs_fail|by apply costs_give]. }
  replace (Z.of_nat (Datatypes.S more)) with (1 + Z.of_nat more) by lia.
  apply costs_bind; [lia|apply costs_attempt, costs_query|]. intros [er|o]; [|apply costs_give; lia].
  case_bool_decide; [apply IH|].
  apply (costs_bind 0 (Z.of_nat more)); [lia|apply costs_backoff|intros d].
  apply (costs_bind 0 (Z.of_nat more)); [lia|apply costs_sleep|intros _]. apply IH.
Qed.
Lemma costs_persist offset : costs 0 (persistSessionProgress C s up offset).
Proof.
  unfold persistSessionProgress. repeat case_match; try by apply costs_give.
  apply (costs_bind 0 0); [lia| |intros t].
  - apply (costs_bind 0 0); [lia|by apply costs_pure|intros; by apply costs_give].
  - apply (costs_bind 0 0); [lia|by apply costs_on_st|intros; by apply costs_give].
Qed.
Lemma costs_put data range : costs 1 (putChunk C up data range).
Proof.
  unfold putChunk, putChunkWithContentType.
  apply (costs_bind 0 1); [lia|by apply costs_attempt, costs_NewRequest|]. intros [er|req]; [by apply costs_give|].
  apply (costs_bind 1 0); [lia|by apply costs_attempt, costs_send|]. intros [er|r]; [by apply costs_give|].
  apply (costs_bind 0 0); [lia|by apply costs_pure|intros t; by apply costs_give].
Qed.
(** A resumption takes at most three, and its body answers a download. *)
Definition downloaded (r : Response) : Prop := ∃ req x, Method req = "GET" ∧ (Do C req x).1 = inr r.
Lemma resume_cost size u retries retryAfter c :
  triple (λ w, requests w = c) (resume C s up source size u retries retryAfter)
    (λ t w, (∃ a r, t = Resume a r ∧ downloaded r) ∧ requests w ≤ c + 3) (λ _ w, requests w ≤ c + 3).
Proof.
  unfold resume.
  apply (client_bind _ _ _ (λ _ w, requests w ≤ c)).
  { destruct (0 <? retryAfter); [by apply client_give; intros; lia|].
    eapply client_weaken; [|apply (costs_backoff retries c)|..]; simpl; intros; first [done|lia]. }
  intros d. apply (client_bind _ _ _ (λ _ w, requests w ≤ c)).
  { apply client_wrapping. intros w Hw. pose proof (costs_sleep d (requests w) w eq_refl) as H.
    destruct (sleep C d w) as [[er|a] w']; lia. }
  intros _. apply (client_bind _ _ _ (λ _ w, requests w ≤ c + 2)).
  { apply client_wrapping. intros w Hw.
    pose proof (costs_query_loop up size 2 1 None (requests w) w eq_refl) as H.
    unfold queryUploadStatusWithRetry. change (Z.to_nat _) with 2%nat.
    destruct (query_loop _ _ _ _ _ _ _ w) as [[er|a] w']; lia. }
  intros a. apply (client_bind _ _ _ (λ req w, Method req = "GET" ∧ requests w ≤ c + 2)).
  { apply client_wrapping, client_NewRequest; simpl; intros; [by split|lia]. }
  intros req. apply client_pure. intros Hreq.
  apply (client_bind _ _ _ (λ r w, downloaded r ∧ requests w ≤ c + 3)).
  { apply client_wrapping, client_send. intros w Hw. unfold downloaded, requests in *.
    destruct (Do C req (st w)) as [[er|r] x'] eqn:E; simpl; rewrite length_app; simpl; [lia|].
    split; [|lia]. exists req, (st w). by rewrite E. }
  intros r. apply client_pure. intros Hr. apply client_give. intros w Hw. split; [|done]. by exists a, r.
Qed.

Context (Hchunk : 0 < ChunkSize (uploadOpts s)).
Notation chunk := (Z.to_nat (ChunkSize (uploadOpts s))).
Definition turn_bound (c retries : Z) (body : Bytes) (t : Turn) (w : World S) : Prop :=
  match t with
  | Next _ rest => (length rest + chunk)%nat = length body ∧ requests w ≤ c + 1
  | Resume _ r => retries < MaxRetries (uploadOpts s) ∧ downloaded r ∧ requests w ≤ c + 4
  | _ => requests w ≤ c + 1
  end.
Definition error_bound (c retries : Z) (w : World S) : Prop :=
  requests w ≤ c + 1 ∨ retries < MaxRetries (uploadOpts s) ∧ requests w ≤ c + 4.
Lemma advance_cost c retries u n (readErr : option ReadErr) body rest id :
  (readErr = None → (length rest + chunk)%nat = length body) →
  triple (λ w, requests w ≤ c + 1)
    (_ ← persistSessionProgress C s up u;
     if negb (bool_decide (id = "")) then give (Complete id)
     else if bool_decide (readErr = None) then give (Next n rest) else give Exhausted)
    (turn_bound c retries body) (λ _, error_bound c retries).
Proof.
  intros Hn w Hw. pose proof (costs_persist u (requests w) w eq_refl) as H. unfold mbind, H_bind, bind.
  destruct (persistSessionProgress C s up u w) as [[er|?] w']; [left; lia|].
  destruct (negb _); simpl; [lia|]. case_bool_decide; simpl; [|lia]. split; [by apply Hn|lia].
Qed.
Lemma turn_cost c size u retries body e :
  triple (λ w, requests w = c) (chunk_turn C s up source size u retries body e)
    (turn_bound c retries body) (λ _, error_bound c retries).
Proof.
  unfold chunk_turn. apply (client_bind _ _ _ (λ _ w, requests w = c)); [by apply client_asks|].
  assert (∀ er, triple (λ w, requests w = c) (fail er : H S Turn) (turn_bound c retries body) (λ _, error_bound c retries))
    as Hfail by (intros er; apply client_fail; intros w Hw; left; lia).
  intros [er|]; [apply Hfail|].
  destruct (ReadFull chunk body e) as [[p readErr] rest] eqn:E.
  assert (readErr = None → (length rest + chunk)%nat = length body) as Hn.
  { unfold ReadFull in E. case_bool_decide; injection E as <- <- <-; [|done]. intros _. rewrite length_drop. lia. }
  destruct readErr as [[| |er]|] eqn:Er; try apply Hfail.
  all: destruct (bool_decide _); [apply client_give; intros w Hw; simpl; lia|].
  all: apply (client_bind _ _ _ (λ _ w, requests w ≤ c + 1));
    [eapply client_weaken; [|apply (costs_put p _ c)|..]; simpl; [done|intros; lia|intros; left; lia]|].
  all: intros [[[id ra] able] [er|]]; [|by apply advance_cost].
  all: destruct able; simpl; [|apply client_fail; intros w Hw; left; lia].
  all: destruct (Z.leb_spec (MaxRetries (uploadOpts s)) retries); [apply client_fail; intros w Hw; left; lia|].
  all: intros w Hw; pose proof (resume_cost size u (retries + 1) ra (requests w) w eq_refl) as Hc;
    destruct (resume _ _ _ _ _ _ _ _ w) as [[er'|t] w'];
    [right; split; [done|lia]|destruct Hc as [(a & r & -> & Hr) Hc]; repeat split; [done..|lia]].
Qed.
(** The loop is never out of fuel, and a bound for it when the downloads have at
    most [B] bytes. *)
Lemma chunk_loop_ends n size fuel u retries body e w :
  (length body < fuel)%nat → MaxRetries (uploadOpts s) ≤ retries + Z.of_nat n →
  (chunk_loop C s n up source size fuel u retries body e w).1 ≠ inr None.
Proof.
  revert fuel u retries body e w. induction n as [|n IHn]; intros fuel.
  all: induction fuel as [|fuel IH]; intros u retries body e w Hf Hn; cbn [chunk_loop]; [lia|].
  all: unfold mbind, H_bind, bind; pose proof (turn_cost (requests w) size u retries body e w eq_refl) as H;
    destruct (chunk_turn _ _ _ _ _ _ _ _ _ w) as [[er|[id| |u' rest|a r]] w']; try done.
  all: destruct H as [H1 H2].
  - apply IH; lia.
  - lia.
  - apply IH; lia.
  - apply IHn; lia.
Qed.
Definition body_puts (b : nat) : Z := Z.of_nat b `div` ChunkSize (uploadOpts s) + 1.
Lemma body_puts_next (b rest : nat) : (rest + chunk)%nat = b → body_puts b = body_puts rest + 1.
Proof.
  intros <-. unfold body_puts. rewrite Nat2Z.inj_add, Z2Nat.id by lia.
  rewrite <- (Z.mul_1_l (ChunkSize _)) at 1. rewrite Z.div_add by lia. lia.
Qed.
Lemma body_puts_pos b : 1 ≤ body_puts b.
Proof. unfold body_puts. pose proof (Z.div_pos (Z.of_nat b) (ChunkSize (uploadOpts s))). lia. Qed.
Lemma body_puts_le a b : (a ≤ b)%nat → body_puts a ≤ body_puts b.
Proof. intros H. unfold body_puts. pose proof (Z.div_le_mono (Z.of_nat a) (Z.of_nat b) (ChunkSize (uploadOpts s))). lia. Qed.
Lemma chunk_loop_bound B n size fuel u retries body e w :
  (∀ r, downloaded r → length (Body r) ≤ B)%nat →
  MaxRetries (uploadOpts s) ≤ retries + Z.of_nat n →
  requests (chunk_loop C s n up source size fuel u retries body e w).2 ≤
  requests w + body_puts (length body) + Z.of_nat n * (body_puts B + 3).
Proof.
  intros HB. pose proof (body_puts_pos B) as HpB.
  revert fuel u retries body e w. induction n as [|n IHn]; intros fuel.
  all: induction fuel as [|fuel IH]; intros u retries body e w Hn; cbn [chunk_loop];
    pose proof (body_puts_pos (length body)) as Hp; [simpl; lia|].
  all: unfold mbind, H_bind, bind; pose proof (turn_cost (requests w) size u retries body e w eq_refl) as H;
    destruct (chunk_turn _ _ _ _ _ _ _ _ _ w) as [[er|[id| |u' rest|a r]] w']; unfold turn_bound, error_bound in H; cbn beta iota in H.
  all: try (simpl; lia).
  - destruct H as [Hr H]. etrans; [exact (IH u' retries rest e w' Hn)|]. rewrite (body_puts_next _ _ Hr). lia.
  - destruct H as [Hr H]. etrans; [exact (IH u' retries rest e w' Hn)|]. rewrite (body_puts_next _ _ Hr). lia.
  - destruct H as (Hr & Hd & H).
    etrans; [exact (IHn (Datatypes.S (length (Body r))) a (retries + 1) (Body r) (ending r) w' ltac:(lia))|].
    pose proof (body_puts_le _ _ (HB r Hd)). lia.
Qed.
End Requests.

(** C38: The chunk loop ends, and a bounded number of requests goes out.  With the
    options of [loadYouTubeUploadOptions], whatever the configuration holds and
    however the network, the source and the server behave: the loop that
    [uploadVideoChunks] starts on a body ends before its fuel does, and when no
    download has more than [B] bytes the whole upload sends at most one download,
    [B / ChunkSize + 1] chunks, and for each retry the budget allows the chunks of
    one more download and three requests. *)
Theorem upload_requests_bounded {S} (C : Client S) (s : Service S) (up source : string) (size : Z)
    (chunkBytes maxRetries baseMs capMs : Z) (w : World S) :
  uploadOpts s = loadYouTubeUploadOptions chunkBytes maxRetries baseMs capMs →
  (∀ u body e, (chunk_loop C s (Z.to_nat (MaxRetries (uploadOpts s))) up source size
                  (Datatypes.S (length body)) u 0 body e w).1 ≠ inr None) ∧
  ∀ B : nat, (∀ req x r, Method req = "GET" → (Do C req x).1 = inr r → length (Body r) ≤ B)%nat →
    let puts := Z.of_nat B `div` ChunkSize (uploadOpts s) + 1 in
    requests (uploadVideoChunks C s up source size w).2 ≤
    requests w + 1 + puts + MaxRetries (uploadOpts s) * (puts + 3).
Proof.
  intros Hopts.
  assert (0 < ChunkSize (uploadOpts s) ∧ 0 < MaxRetries (uploadOpts s)) as [Hchunk Hmax].
  { rewrite Hopts. simpl. destruct (Z.leb_spec chunkBytes 0), (Z.leb_spec maxRetries 0); lia. }
  split. { intros u body e. apply chunk_loop_ends; [done|lia|lia]. }
  intros B HB. change (Z.of_nat B `div` ChunkSize (uploadOpts s) + 1) with (body_puts s B). cbv zeta.
  assert (∀ r, downloaded C r → length (Body r) ≤ B)%nat as HB' by (intros r (req & x & H1 & H2); by eapply HB).
  pose proof (body_puts_pos s Hchunk B) as HpB.
  assert (0 ≤ MaxRetries (uploadOpts s) * (body_puts s B + 3)) as Hprod by nia.
  unfold uploadVideoChunks, mbind, H_bind, bind, NewRequest.
  destruct (bad_url C source); [unfold fail; cbn [snd] in *; lia|]. unfold give at 1, wrapping.
  pose proof (costs_send C (mkRequest "GET" source [] []) (requests w) w eq_refl) as Hs.
  pose proof (HB (mkRequest "GET" source [] []) (st w)) as Hr. unfold send in *.
  destruct (Do C _ (st w)) as [[er|r] x']; cbn [fst snd] in *; [lia|].
  specialize (Hr r eq_refl eq_refl).
  match goal with |- context [mkWorld x' ?l] =>
    assert (requests (mkWorld x' l) ≤ requests w + 1) as Hs1 by exact Hs; generalize dependent (mkWorld x' l) end.
  intros w1 Hs1 _. generalize (if size <=? 0 then ContentLength r else size). intros sz.
  destruct (negb _); [unfold errorf, fail; cbn [snd] in *; lia|].
  destruct (sz <=? 0); [unfold errorf, fail; cbn [snd] in *; lia|].
  match goal with |- context [chunk_loop C s ?n up source sz ?f 0 0 ?b ?e w1] =>
    pose proof (chunk_loop_bound C s up source Hchunk B n sz f 0 0 b e w1 HB' ltac:(lia)) as Hl;
    destruct (chunk_loop C s n up source sz f 0 0 b e w1) as [res w''] end.
  pose proof (body_puts_le s Hchunk _ _ Hr). cbn [snd] in Hl.
  destruct res as [er|[[id|]|]]; unfold give, errorf, fail; cbn [snd] in *; lia.
Qed.

(** ** A demonstration server

    It keeps the video and counts the requests; [script] says what happens to each
    of them, [ranged] whether the source honours a range. *)
Module Demo.
Inductive Fate :=
| Serve
| Lost                 (* it is served and the answer does not come back *)
| Refuse (code : Z)    (* it is not served; at least 400 *)
| Keep (n : nat).      (* a chunk is kept up to its n-th byte *)
Record State := mkState { held : Bytes; clock : nat }.
Section Demo.
Context (script : nat → Fate) (ranged : bool) (data : Bytes) (up source : string) (total : Z).
Definition range_start_of (h : string) : option Z :=
  match string_prefix_drop "bytes=" h with
  | Some r => match SplitN2 "-" r with Some (a, _) => digits_value 0 a | None => None end
  | None => None
  end.
Definition get_answer (req : Request) : Response :=
  match req_header req with
  | [] => mkResponse 200 (Z.of_nat (length data)) [] data AtEOF
  | [("Range", h)] =>
      match range_start_of h with
      | Some a => if ranged then mkResponse 206 (-1)
                    (if bool_decide (h = "bytes=0-0") then
                       [("Content-Range", "bytes 0-0/" +:+ itoa (Z.of_nat (length data)))] else [])
                    (drop (Z.to_nat a) data) AtEOF
                  else mkResponse 200 (-1) [] data AtEOF
      | None => mkResponse 416 0 [] [] AtEOF
      end
  | _ => mkResponse 400 0 [] [] AtEOF
  end.
Definition status_answer (x : Bytes) : Response :=
  if Z.of_nat (length x) =? total then mkResponse 200 (-1) [] (of_text (quoted "{'id':'video1'}")) AtEOF
  else if Z.of_nat (length x) <? total then
    mkResponse 308 0 (if bool_decide (x = []) then []
      else [("Range", "bytes=0-" +:+ itoa (Z.of_nat (length x) - 1))]) [] AtEOF
  else mkResponse 500 0 [] [] AtEOF.
(** The next chunk is kept, up to the [k]-th byte.  A POST empties the file. *)
Definition keep (k : nat) (x : Bytes) (req : Request) : Response * Bytes :=
  let p := payload req in
  if bool_decide (p = []) then (status_answer x, x)
  else if bool_decide (req_header req = [("Content-Range", chunk_range (Z.of_nat (length x)) (length p) total)])
          && (Z.of_nat (length x + length p) <=? total)
  then let x' := x ++ take k p in (status_answer x', x')
  else (mkResponse 400 0 [] [] AtEOF, x).
Definition answer (k : nat) (req : Request) (x : Bytes) : Response * Bytes :=
  if bool_decide (Method req ∈ ["GET"; "HEAD"]) then (get_answer req, x)
  else if bool_decide (Method req = "PUT") then keep k x req
  else if bool_decide (payload req = []) then (mkResponse 400 0 [] [] AtEOF, x)
  else (mkResponse 200 0 [("Location", up)] [] AtEOF, []).
Definition network : GoErr := leaf (DNet "connection reset by peer" false false).
Definition demo_Do (req : Request) (s : State) : (GoErr + Response) * State :=
  let n := Datatypes.S (clock s) in
  match script (clock s) with
  | Serve => let '(r, x) := answer (length (payload req)) req (held s) in (inr r, mkState x n)
  | Keep k => let '(r, x) := answer k req (held s) in (inr r, mkState x n)
  | Lost => let '(_, x) := answer (length (payload req)) req (held s) in (inl network, mkState x n)
  | Refuse code => (inr (mkResponse (Z.max 400 code) 0 [] [] AtEOF), mkState (held s) n)
  end.
Definition client : Client State :=
  mkClient State demo_Do (λ _, None) (λ _, None) (λ _ s, (None, s)) (λ s, (λ _, 0, s)) (λ _, 0).
Definition service : Service State :=
  mkService (mkOptions 2 5 Second (5 * Minute)) 0 "" None None.
Lemma range_start_print a : 0 ≤ a → range_start_of ("bytes=" +:+ itoa a +:+ "-") = Some a.
Proof.
  intros Ha. unfold range_start_of.
  change (string_prefix_drop "bytes=" ("bytes=" +:+ itoa a +:+ "-")) with (Some (itoa a +:+ String "-" "")).
  cbn beta iota. rewrite SplitN2_app by by apply itoa_no_byte. by apply itoa_value.
Qed.
Lemma answer_quiet k req x : payload req = [] → (answer k req x).2 = x.
Proof.
  intros Hp. unfold answer, keep. rewrite Hp. repeat case_bool_decide; done.
Qed.
Lemma demo_answer req s r : (demo_Do req s).1 = inr r →
  (∃ k, (r, held (demo_Do req s).2) = answer k req (held s)) ∨
  (r = mkResponse (StatusCode r) 0 [] [] AtEOF ∧ 400 ≤ StatusCode r).
Proof.
  unfold demo_Do. destruct (script (clock s)).
  all: try (destruct (answer _ req (held s)) eqn:E; simpl; intros [= <-]; left; by eexists).
  simpl. intros [= <-]. right. simpl. split; [done|lia].
Qed.
(** A chunk is kept where the file ends, or not at all. *)
Lemma keep_spec url k a p x : 0 ≤ a → p ≠ [] → answer k (put_chunk url total a p) x = keep k x (put_chunk url total a p).
Proof. done. Qed.
Lemma keep_chunk url k a p x : 0 ≤ a → p ≠ [] →
  keep k x (put_chunk url total a p) = (mkResponse 400 0 [] [] AtEOF, x) ∨
  a = Z.of_nat (length x) ∧ Z.of_nat (length x + length p) ≤ total ∧
  keep k x (put_chunk url total a p) = (status_answer (x ++ take k p), x ++ take k p).
Proof.
  intros Ha Hp. unfold keep. cbn [payload req_header put_chunk].
  rewrite (bool_decide_eq_false_2 (p = [])) by done.
  case_bool_decide as Hr; simpl; [|by left]. destruct (Z.leb_spec (Z.of_nat (length x + length p)) total); [|by left].
  right. assert (chunk_range a (length p) total = chunk_range (Z.of_nat (length x)) (length p) total) as Hr'
    by congruence.
  apply chunk_range_inj in Hr'; [done|lia..].
Qed.
Lemma status_complete x : StatusCode (status_answer x) = 200 ∨ StatusCode (status_answer x) = 201 →
  Z.of_nat (length x) = total.
Proof.
  unfold status_answer. destruct (Z.eqb_spec (Z.of_nat (length x)) total); [done|].
  destruct (_ <? _); simpl; lia.
Qed.
End Demo.
End Demo.
Import Demo.
Lemma demo_server script data up url source total : total < 2^62 →
  ResumableServer (client script true data up total) service url source data total held.
Proof.
  intros Ht. constructor; try done.
  - intros req x Hp. simpl. unfold demo_Do. destruct (script (clock x)); simpl; try done.
    all: pose proof (answer_quiet true data up total) as Hq;
      match goal with |- context [answer ?a ?b ?c ?d ?k ?q ?h] =>
        specialize (Hq k q h Hp); by destruct (answer a b c d k q h) end.
  - intros x r Hr Hs. simpl in Hr. apply demo_answer in Hr as [[k Hr]|[Hr _]]; [|rewrite Hr; apply prefix_nil].
    by injection Hr as -> _.
  - intros a x r Ha Hr. simpl in Hr. apply demo_answer in Hr as [[k Hr]|[Hr _]]; [|rewrite Hr; apply prefix_nil].
    injection Hr as -> _. unfold get_answer. cbn [req_header get_from]. by rewrite range_start_print.
  - intros x r Hr Hs. simpl in Hr. apply demo_answer in Hr as [[k Hr]|[Hr _]]; [|by left; rewrite Hr].
    change (answer _ _ _ _ k (probe url total) ?h) with (status_answer total h, h) in Hr.
    injection Hr as -> _. unfold status_answer in *. destruct (_ =? total); simpl in *; [lia|].
    destruct (Z.ltb_spec (Z.of_nat (length (held x))) total); simpl in *; [|lia].
    case_bool_decide as Hx; [by left|]. right. exists (Z.of_nat (length (held x)) - 1).
    split; [|done]. destruct (held x); simpl in *; [done|lia].
  - intros a p x Ha Hp. simpl. unfold demo_Do. destruct (script (clock x)) as [| |code|k]; simpl; [| |by left|].
    all: rewrite keep_spec by done;
      match goal with |- context [keep ?t ?k _ _] =>
        destruct (keep_chunk total url k a p (held x) Ha Hp) as [->|(-> & Hle & ->)]; [by left|right; exists k] end.
    all: simpl; rewrite Nat2Z.id, (take_ge (held x)) by lia; done.
  - intros a p x r Ha Hp. simpl. unfold demo_Do. destruct (script (clock x)) as [| |code|k]; simpl.
    all: try rewrite keep_spec by done.
    all: try match goal with |- context [keep ?t ?k _ _] =>
        destruct (keep_chunk total url k a p (held x) Ha Hp) as [->|(-> & Hle & ->)] end.
    all: simpl; intros [= <-]; simpl; try lia.
    all: apply status_complete.
Qed.

(** *** Runs *)
Definition letters : Bytes := of_text "abcdef".
Definition on (n : nat) (f : Fate) (k : nat) : Fate := if bool_decide (k = n) then f else Serve.
Definition run (script : nat → Fate) (ranged : bool) (data : Bytes) : (GoErr + string) * World State :=
  uploadVideoChunks (client script ranged data "up" (Z.of_nat (length data))) service "up" "src"
    (Z.of_nat (length data)) (mkWorld (mkState [] 0) []).
(** No download has more than six bytes: at most 29 requests. *)
Lemma upload_requests_bounded_witness :
  uploadOpts service = loadYouTubeUploadOptions 2 0 0 0 ∧
  requests (run (λ n, if bool_decide (n = 0%nat) then Serve else Refuse 503) true letters).2 ≤ 0 + 1 + 4 + 5 * (4 + 3).
Proof.
  split; [reflexivity|].
  refine (proj2 (upload_requests_bounded _ service "up" "src" 6 2 0 0 0 (mkWorld (mkState [] 0) []) eq_refl) 6%nat _).
  intros req x r Hm Hr. simpl in Hr. apply demo_answer in Hr as [[k Hr]|[Hr _]]; [|rewrite Hr; simpl; lia].
  unfold answer in Hr. rewrite Hm in Hr. injection Hr as -> _. unfold get_answer.
  repeat case_match; simpl; rewrite ?length_drop; simpl; lia.
Defined.
(** The answer to the ranged download is not looked at: a source that sends the
    whole file makes a video of the right length and the wrong content. *)
Example ranged_answer_not_checked :
  let '(r, w) := run (on 2 (Refuse 503)) false letters in r = inr "video1" ∧ text (held (st w)) = "ababcd".
Proof. vm_compute. done. Qed.
(** The answer to the last chunk is lost: the probe says 200, which is an error, and
    the next attempt would upload the video again. *)
Example lost_completion_is_an_error :
  let '(r, w) := run (on 3 Lost) true letters in
  match r with inl er => Error er =
    "upload failed at byte 4 (status query failed): unexpected status query response: 200" | inr _ => False end ∧
  held (st w) = letters.
Proof. vm_compute. done. Qed.
(** A chunk that is kept in part: the Range of the 308 is not read, the next chunk
    leaves a gap and the upload is given up for good. *)
Example partial_chunk_is_permanent :
  match (run (on 1 (Keep 1)) true letters).1 with inl er => Is er ErrPermanentUpload = true | inr _ => False end.
Proof. vm_compute. done. Qed.
(** The budget is for the whole upload: each chunk fails once, the sixth failure is
    the end. *)
Example budget_is_shared :
  match (run (λ n, if bool_decide (n ∈ [1; 5; 9; 13; 17; 21]%nat) then Refuse 503 else Serve) true
           (of_text "abcdefghijklmn")).1 with
  | inl er => Error er = "upload failed at byte 10 after 5 retries: server error (status 503, retry_after=0s): retry after 0s"
  | inr _ => False
  end.
Proof. vm_compute. done. Qed.
