(* ===== verification/YouTubePublish.v ===== *)
(** * Publishing to YouTube

    [src/internal/services/youtube_publish.go]: the synchronous publish of a post,
    its reconciliation and its identifiers; [youtube_validate.go]: the checks of
    the content, of the token and the canary upload; [youtube_copyright.go]. *)

From S2P Require Import Prelude Codec GoError Http YouTubeResumable.
From S2P Require Backoff PostModel PublishWorker Cursor.
From Stdlib Require Import ZArith Lia.
Local Open Scope Z_scope.
Import PublishWorker (PublishPayload, pl_Text, pl_VideoURL, pl_Title, pl_Tags, pl_PrivacyLevel, pl_PublishAt,
  PublishResult, mkPublishResult, PlatformMediaID).

(** ** Identifiers *)
(* Source: internal/services/youtube_publish.go *)
(* 276-278 EncodeYouTubePublishID *)
Definition EncodeYouTubePublishID (channelID videoID : string) : string := channelID +:+ ":" +:+ videoID.
(* 287-293 decodeYouTubePublishID *)
Definition decodeYouTubePublishID (publishID : string) : GoErr + string * string :=
  match SplitN2 ":" publishID with
  | Some (c, v) =>
      if bool_decide (c = "") || bool_decide (v = "") then
        inl (leaf (DNew ("invalid youtube publish id: " +:+ publishID)))
      else inr (c, v)
  | None => inl (leaf (DNew ("invalid youtube publish id: " +:+ publishID)))
  end.

(** ** Metadata and privacy *)
(* 324-335 defaultVideoTitle *)
Definition defaultVideoTitle (payload : PublishPayload) : string :=
  if negb (bool_decide (pl_Title payload = "")) then pl_Title payload
  else if negb (bool_decide (pl_Text payload = "")) then
    if bool_decide (100 < String.length (pl_Text payload))%nat then take_s 97 (pl_Text payload) +:+ "..."
    else pl_Text payload
  else "Uploaded via InstaEdit".
(* 352-354 normalizeYouTubePrivacyLevel *)
Definition normalizeYouTubePrivacyLevel (level : string) : string := ToLower (TrimSpace level).
(* 340-347 validateYouTubePrivacyLevel *)
Definition validateYouTubePrivacyLevel (level : string) : option GoErr :=
  if bool_decide (ToLower (TrimSpace level) ∈ ["public"; "unlisted"; "private"]) then None
  else Some (leaf (DNew ("youtube privacy_level must be one of public, unlisted, private (got " +:+ quote level +:+ ")"))).
(** A time is its nanoseconds, the zero time is [None]. *)
(* 383-392 CoercePrivacyForUpdate *)
Definition CoercePrivacyForUpdate (privacyLevel : string) (publishAt : option Z) (now : Z) : string * option Z :=
  match publishAt with
  | Some p => if now <? p then ("private", Some p) else (privacyLevel, None)
  | None => (privacyLevel, None)
  end.
(* Source: internal/services/youtube_validate.go *)
(* 39-50 YouTubeOAuthService.ValidateContent *)
Definition ValidateContent (payload : PublishPayload) : option GoErr :=
  if bool_decide (pl_VideoURL payload = "") then Some (leaf (DNew "youtube requires a video for publishing"))
  else if bool_decide (pl_PrivacyLevel payload = "") then
    Some (leaf (DNew "youtube requires a privacy_level: one of public, unlisted, private"))
  else validateYouTubePrivacyLevel (pl_PrivacyLevel payload).
(* 306-306 statusCodeRegexp *)
Fixpoint find_status (s : string) : option string :=
  match s with
  | "" => None
  | String _ s' =>
      match string_prefix_drop "(status " s with
      | Some r => match digits1 r with
                  | Some (d, r') => match expect ")" r' with Some _ => Some d | None => find_status s' end
                  | None => find_status s'
                  end
      | None => find_status s'
      end
  end.
(* 359-376 isHardRejection4xxStatus *)
Definition isHardRejection4xxStatus (er : GoErr) : bool * bool :=
  match find_status (Error er) with
  | None => (false, false)
  | Some code =>
      if bool_decide (code = "400") then (false, true)
      else (bool_decide (code ∈ ["401"; "403"; "404"; "408"; "409"; "410"; "422"; "451"]), false)
  end.
Definition canaryUploadBase64 : string := (* 239 *)
  "AAAAIGZ0eXBpc29tAAACAGlzb21pc28yYXZjMW1wNDEAAAMUbW9vdgAAAGxtdmhkAAAAAAAAAAAAAAAAAAAD6AAAA+gAAQAAAQAAAAAAAAAAAAAAAAEAAAAAAAAAAAAAAAAAAAABAAAAAAAAAAAAAAAAAABAAAAAAAAAAAAAAAAAAAAAAAAAAAAAAAAAAAAAAAAAAgAAAj90cmFrAAAAXHRraGQAAAADAAAAAAAAAAAAAAABAAAAAAAAA+gAAAAAAAAAAAAAAAAAAAAAAAEAAAAAAAAAAAAAAAAAAAABAAAAAAAAAAAAAAAAAABAAAAAABAAAAAQAAAAAAAkZWR0cwAAABxlbHN0AAAAAAAAAAEAAAPoAAAAAAABAAAAAAG3bWRpYQAAACBtZGhkAAAAAAAAAAAAAAAAAABAAAAAQABVxAAAAAAALWhkbHIAAAAAAAAAAHZpZGUAAAAAAAAAAAAAAABWaWRlb0hhbmRsZXIAAAABYm1pbmYAAAAUdm1oZAAAAAEAAAAAAAAAAAAAACRkaW5mAAAAHGRyZWYAAAAAAAAAAQAAAAx1cmwgAAAAAQAAASJzdGJsAAAAvnN0c2QAAAAAAAAAAQAAAK5hdmMxAAAAAAAAAAEAAAAAAAAAAAAAAAAAAAAAABAAEABIAAAASAAAAAAAAAABFUxhdmM2Mi4xMS4xMDAgbGlieDI2NAAAAAAAAAAAAAAAGP//AAAANGF2Y0MBZAAK/+EAF2dkAAqs2V7ARAAAAwAEAAADAAg8SJZYAQAGaOvjyyLA/fj4AAAAABBwYXNwAAAAAQAAAAEAAAAUYnRydAAAAAAAABW4AAAAAAAAABhzdHRzAAAAAAAAAAEAAAABAABAAAAAABxzdHNjAAAAAAAAAAEAAAABAAAAAQAAAAEAAAAUc3RzegAAAAAAAAK3AAAAAQAAABRzdGNvAAAAAAAAAAEAAANEAAAAYXVkdGEAAABZbWV0YQAAAAAAAAAhaGRscgAAAAAAAAAAbWRpcmFwcGwAAAAAAAAAAAAAAAAsaWxzdAAAACSpdG9vAAAAHGRhdGEAAAABAAAAAExhdmY2Mi4zLjEwMAAAAAhmcmVlAAACv21kYXQAAAKfBgX//5vcRem95tlIt5Ys2CDZI+7veDI2NCAtIGNvcmUgMTY1IC0gSC4yNjQvTVBFRy00IEFWQyBjb2RlYyAtIENvcHlsZWZ0IDIwMDMtMjAyNSAtIGh0dHA6Ly93d3cudmlkZW9sYW4ub3JnL3gyNjQuaHRtbCAtIG9wdGlvbnM6IGNhYmFjPTEgcmVmPTMgZGVibG9jaz0xOjA6MCBhbmFseXNlPTB4MzoweDExMyBtZT1oZXggc3VibWU9NyBwc3k9MSBwc3lfcmQ9MS4wMDowLjAwIG1peGVkX3JlZj0xIG1lX3JhbmdlPTE2IGNocm9tYV9tZT0xIHRyZWxsaXM9MSA4eDhkY3Q9MSBjcW09MCBkZWFkem9uZT0yMSwxMSBmYXN0X3Bza2lwPTEgY2hyb21hX3FwX29mZnNldD0tMiB0aHJlYWRzPTEgbG9va2FoZWFkX3RocmVhZHM9MSBzbGljZWRfdGhyZWFkcz0wIG5yPTAgZGVjaW1hdGU9MSBpbnRlcmxhY2VkPTAgYmx1cmF5X2NvbXBhdD0wIGNvbnN0cmFpbmVkX2ludHJhPTAgYmZyYW1lcz0zIGJfcHlyYW1pZD0yIGJfYWRhcHQ9MSBiX2JpYXM9MCBkaXJlY3Q9MSB3ZWlnaHRiPTEgb3Blbl9nb3A9MCB3ZWlnaHRwPTIga2V5aW50PTI1MCBrZXlpbnRfbWluPTEgc2NlbmVjdXQ9NDAgaW50cmFfcmVmcmVzaD0wIHJjX2xvb2thaGVhZD00MCByYz1jcmYgbWJ0cmVlPTEgY3JmPTIzLjAgcWNvbXA9MC42MCBxcG1pbj0wIHFwbWF4PTY5IHFwc3RlcD00IGlwX3JhdGlvPTEuNDAgYXE9MToxLjAwAIAAAAAQZYiEABX//vfJ78Cm69vfgQ==".
(** It decodes ([canary_decodes]). *)
(* 243-252 mustDecodeCanaryUpload *)
Definition canaryUploadBytes : Bytes := of_text (default "" (Std_DecodeString canaryUploadBase64)).
Definition canaryUploadSize : Z := Z.of_nat (length canaryUploadBytes). (* 254 *)
Definition canaryUploadContentType : string := "video/mp4". (* 256 *)
Definition ErrYouTubeCanaryRejected : GoErr := (* 285 *)
  leaf (DSentinel "ErrYouTubeCanaryRejected" "youtube canary upload was rejected by videos.insert (auth-level 4xx)").
Definition ErrYouTubeCanaryInvalidMedia : GoErr := (* 291 *)
  leaf (DSentinel "ErrYouTubeCanaryInvalidMedia" "youtube canary: invalid media payload (400)").
Definition ErrGoogleTokenInfoInvalid : GoErr := (* 147 *)
  leaf (DSentinel "ErrGoogleTokenInfoInvalid" "google tokeninfo rejected the token").
(* Source: internal/services/provider_channel_binder.go *)
Definition ErrYouTubeChannelMismatch : GoErr := (* 22 *)
  leaf (DSentinel "ErrYouTubeChannelMismatch"
    "youtube channel binding mismatch: grant is not bound to the expected channel id").
(** [fmt.Errorf("%w: %w", a, b)] and [fmt.Errorf("%w: text", a)]. *)
Definition join2 (a b : GoErr) : GoErr := mkGoErr (DWrap (Error a +:+ ": " +:+ Error b)) [a; b].
Definition with_text (a : GoErr) (text : string) : GoErr := mkGoErr (DWrap (Error a +:+ ": " +:+ text)) [a].

(** ** Scopes *)
(* Source: internal/services/youtube_oauth_policy.go *)
Definition youtubeUploadOAuthScope : string := "https://www.googleapis.com/auth/youtube.upload". (* 9 *)
Definition youtubeReadonlyOAuthScope : string := "https://www.googleapis.com/auth/youtube.readonly". (* 10 *)
Definition YouTubeForceSSLScope : string := "https://www.googleapis.com/auth/youtube.force-ssl". (* 15 *)
(* 24-34 youtubeHasScope *)
Definition youtubeHasScope (scopes : list string) (required : string) : bool :=
  if bool_decide (required = "") then false else existsb (λ scope, bool_decide (scope = required)) scopes.
(** [strings.Fields]: the pieces between runs of white space; [fuel] bounds the
    bytes. *)
Fixpoint fields_go (fuel : nat) (cur : string) (s : string) : list string :=
  let flush := if bool_decide (cur = "") then [] else [cur] in
  match fuel, s with
  | Datatypes.S fuel', String a s' =>
      match first_some (λ w, string_prefix_drop w s) space_runes with
      | Some r => flush ++ fields_go fuel' "" r
      | None => fields_go fuel' (cur +:+ String a "") s'
      end
  | _, _ => flush
  end.
Definition Fields (s : string) : list string := fields_go (String.length s) "" s.
(* 38-50 youtubeScopeFlags *)
Definition youtubeScopeFlags (raw : string) : bool * bool * bool :=
  let has scope := existsb (λ f, bool_decide (f = scope)) (Fields raw) in
  (has youtubeUploadOAuthScope, has youtubeReadonlyOAuthScope, has YouTubeForceSSLScope).

(** ** The answers of the Data API *)
(* Source: internal/services/youtube_types.go *)
(* 86-98 youtubeThumbnails *)
Definition youtubeThumbnails : GoType :=
  let one := GPtr (GStruct [("url", GString); ("width", GInt64); ("height", GInt64)]) in
  GPtr (GStruct [("default", one); ("medium", one); ("high", one); ("standard", one); ("maxres", one)]).
(* 126-139 youtubeVideoSnippet *)
Definition youtubeVideoSnippet : GoType :=
  GStruct [("title", GString); ("description", GString); ("publishedAt", GString); ("channelId", GString);
           ("thumbnails", youtubeThumbnails); ("tags", GSlice GString); ("categoryId", GString);
           ("defaultLanguage", GString); ("defaultAudioLanguage", GString)].
(* 169-189 youtubeVideoContent *)
Definition youtubeVideoContent : GoType :=
  GStruct [("duration", GString); ("licensedContent", GBool);
           ("regionRestriction", GPtr (GStruct [("allowed", GSlice GString); ("blocked", GSlice GString)]))].
(* 117-124 youtubeVideo *)
Definition youtubeVideo : GoType :=
  GStruct [("id", GString); ("snippet", youtubeVideoSnippet);
           ("statistics", GCounts ["viewCount"; "likeCount"; "commentCount"] []);
           ("contentDetails", youtubeVideoContent);
           ("status", GStruct [("privacyStatus", GString); ("uploadStatus", GString);
                               ("rejectionReason", GString); ("failureReason", GString)]);
           ("processingDetails", GPtr (GStruct [("processingStatus", GString)]))].
(* 113-115 youtubeVideosResponse *)
Definition youtubeVideosResponse : GoType := GStruct [("items", GSlice youtubeVideo)].
Definition items_of (v : GoVal) : list GoVal := match get_field v "items" with VSlice l => l | _ => [] end.
Definition text_field (v : GoVal) (k : string) : string := as_string (get_field v k).
Definition texts_of (v : GoVal) : list string := match v with VSlice l => as_string <$> l | _ => [] end.
Definition ChannelID (video : GoVal) : string := text_field (get_field video "snippet") "channelId".
(** The status of the processing, when there are details. *)
Definition ProcessingStatus (video : GoVal) : option string :=
  match get_field video "processingDetails" with VNil => None | d => Some (text_field d "processingStatus") end.

Section Publish.
Context {S : Type} (C : Client S) (s : Service S).
(** A list of videos and its first one. *)
Definition first_video (what videoID : string) (resp : Response) : H S GoVal :=
  match Decode youtubeVideosResponse (text (Body resp)) with
  | None => fail (Errorf_w ("decode youtube " +:+ what) (leaf (DNew "json")))
  | Some result => match items_of result with
                   | [] => errorf ("youtube video " +:+ videoID +:+ " not found")
                   | video :: _ => give video
                   end
  end.
(* Source: internal/services/youtube_publish.go *)
(* 228-260 YouTubeOAuthService.fetchVideoStatus *)
Definition fetchVideoStatus (accessToken videoID : string) : H S GoVal :=
  req ← wrapping "create youtube video status request" (NewRequest C "GET"
    ("https://www.googleapis.com/youtube/v3/videos?part=snippet,status,processingDetails&id=" +:+
     Cursor.QueryEscape videoID) [("Authorization", "Bearer " +:+ accessToken)] []);
  resp ← wrapping "youtube video status request" (send C req);
  if negb (StatusCode resp =? 200) then errorf ("youtube video status returned " +:+ itoa (StatusCode resp))
  else first_video "video status" videoID resp.

(** ** Publishing *)
(* 298-322 YouTubeOAuthService.buildUploadMetadata *)
Definition buildUploadMetadata (payload : PublishPayload) : H S json :=
  t ← asks (now C);
  let privacy := normalizeYouTubePrivacyLevel (pl_PrivacyLevel payload) in
  let status := match pl_PublishAt payload with
    | Some p => if t <? p then [("privacyStatus", JStr "private"); ("publishAt", JStr (rfc3339 p))]
                else [("privacyStatus", JStr privacy)]
    | None => [("privacyStatus", JStr privacy)]
    end in
  let tags := if bool_decide (pl_Tags payload = []) then [] else [("tags", JArr (JStr <$> pl_Tags payload))] in
  give (JObj [("snippet", JObj (("description", JStr (pl_Text payload)) :: tags ++
                                [("title", JStr (defaultVideoTitle payload))]));
              ("status", JObj status)]).
(** The uploads: [left] more attempts, [sessRetried] when one session was lost.
    The result of clearing the saved session is only logged. *)
(* 93-138 YouTubeOAuthService.StartPublish *)
Fixpoint publish_attempts (left : nat) (sessRetried : bool) (accessToken : string) (metadata : json)
    (videoURL : string) (fileSize : Z) (contentType : string) (publishErr : option GoErr) : H S (option GoErr * string) :=
  match left with
  | O => give (publishErr, "")
  | Datatypes.S left' =>
      session ← attempt (initiateResumableSession C accessToken metadata fileSize contentType);
      match session with
      | inl er => give (Some (Errorf_w "failed to initiate resumable session" er), "")
      | inr uploadURL =>
          r ← attempt (uploadVideoChunks C s uploadURL videoURL fileSize);
          match r with
          | inr videoID => give (None, videoID)
          | inl er =>
              if negb (Is er "ErrYouTubeSessionLost") || sessRetried then give (Some er, "")
              else
                _ ← handleSessionLost s uploadURL;
                publish_attempts left' true accessToken metadata videoURL fileSize contentType (Some er)
          end
      end
  end.
(* 67-146 YouTubeOAuthService.StartPublish *)
Definition StartPublish (accessToken platformUserID : string) (payload : PublishPayload) : H S (string * string) :=
  match ValidateContent payload with
  | Some er => fail er
  | None =>
      source ← wrapping "failed to inspect source video" (headVideo C (pl_VideoURL payload));
      let '(fileSize, contentType) := source : Z * string in
      let contentType := if bool_decide (contentType = "") then "video/mp4" else contentType in
      metadata ← buildUploadMetadata payload;
      r ← publish_attempts 2 false accessToken metadata (pl_VideoURL payload) fileSize contentType None;
      let '(publishErr, videoID) := r : option GoErr * string in
      match publishErr with
      | Some er => fail (Errorf_w "failed to stream video" er)
      | None => give (EncodeYouTubePublishID platformUserID videoID, "processing")
      end
  end.
(* 47-63 YouTubeOAuthService.Publish *)
Definition Publish (accessToken platformUserID : string) (payload : PublishPayload) : H S PublishResult :=
  started ← StartPublish accessToken platformUserID payload;
  let '(publishID, _) := started : string * string in
  match decodeYouTubePublishID publishID with
  | inl er => fail er
  | inr (_, videoID) => give (mkPublishResult publishID ("https://www.youtube.com/watch?v=" +:+ videoID))
  end.
(* 150-166 YouTubeOAuthService.CheckPublishStatus *)
Definition CheckPublishStatus (accessToken publishID : string) : H S string :=
  match decodeYouTubePublishID publishID with
  | inl er => fail er
  | inr (_, videoID) =>
      video ← fetchVideoStatus accessToken videoID;
      give (default "processing" (ProcessingStatus video))
  end.
(** [None]: the video is still being processed. *)
(* 182-224 YouTubeOAuthService.Reconcile *)
Definition Reconcile (accessToken publishID : string) : H S (option PublishResult) :=
  match decodeYouTubePublishID publishID with
  | inl er => fail er
  | inr (platformUserID, videoID) =>
      video ← fetchVideoStatus accessToken videoID;
      if negb (bool_decide (ChannelID video = platformUserID)) then
        errorf ("youtube channel mismatch: expected " +:+ platformUserID +:+ ", got " +:+ ChannelID video)
      else
        let processingStatus := default "" (ProcessingStatus video) in
        if bool_decide (processingStatus ∈ [""; "processing"]) then give None
        else if bool_decide (processingStatus = "succeeded") then
          give (Some (mkPublishResult videoID ("https://www.youtube.com/watch?v=" +:+ videoID)))
        else if bool_decide (processingStatus = "failed") then
          errorf ("youtube processing failed for video " +:+ videoID)
        else if bool_decide (processingStatus = "terminated") then
          errorf ("youtube processing terminated for video " +:+ videoID)
        else give None
  end.

(** ** Checks of a token *)
(* Source: internal/services/youtube_validate.go *)
(* 53-71 YouTubeOAuthService.Validate *)
Definition Validate (accessToken : string) : H S unit :=
  req ← wrapping "youtube validate request" (NewRequest C "GET" "https://www.googleapis.com/oauth2/v2/userinfo"
    [("Authorization", "Bearer " +:+ accessToken)] []);
  resp ← wrapping "youtube validate failed" (send C req);
  if negb (StatusCode resp =? 200) then errorf ("youtube validate returned status " +:+ itoa (StatusCode resp))
  else give tt.
(* 80-87 youtubeTokenInfoResponse *)
Definition youtubeTokenInfoResponse : GoType :=
  GStruct [("aud", GString); ("azp", GString); ("scope", GString); ("expires_in", GInt64);
           ("access_type", GString); ("email", GString)].
(* 103-138 YouTubeTokenInfo *)
Record YouTubeTokenInfo := mkYouTubeTokenInfo {
  Aud : string; Azp : string; Scope : string; ExpiresIn : Z; Email : string;
  HasUpload : bool; HasReadonly : bool; HasForceSSL : bool; HasMonetary : bool
}.
Definition int_field (v : GoVal) (k : string) : Z := match get_field v k with VInt z => z | _ => 0 end.
(* 191-232 YouTubeOAuthService.GetTokenInfo *)
Definition GetTokenInfo (accessToken : string) : H S YouTubeTokenInfo :=
  if bool_decide (accessToken = "") then errorf "youtube tokeninfo: empty access token"
  else
    req ← wrapping "youtube tokeninfo: create request" (NewRequest C "GET"
      ("https://www.googleapis.com/oauth2/v3/tokeninfo?access_token=" +:+ Cursor.QueryEscape accessToken) [] []);
    resp ← wrapping "youtube tokeninfo: request" (send C req);
    let body := take 65536 (Body resp) in
    if StatusCode resp =? 400 then
      fail (Errorf_w ("youtube tokeninfo returned " +:+ itoa (StatusCode resp)) ErrGoogleTokenInfoInvalid)
    else if negb (StatusCode resp =? 200) then errorf ("youtube tokeninfo returned " +:+ itoa (StatusCode resp))
    else match Unmarshal youtubeTokenInfoResponse (text body) with
         | None => fail (Errorf_w "youtube tokeninfo: decode" (leaf (DNew "json")))
         | Some r =>
             let scope := text_field r "scope" in
             let '(up, ro, ssl) := youtubeScopeFlags scope in
             give (mkYouTubeTokenInfo (text_field r "aud") (text_field r "azp") scope
                     (wrap64 (int_field r "expires_in" * Second)) (text_field r "email") up ro ssl false)
         end.
(** A refusal that means something is told apart from a passing failure. *)
(* 466-472 YouTubeOAuthService.CanaryUpload; 483-489 YouTubeOAuthService.CanaryUpload *)
Definition canary_error (prefix : string) (er : GoErr) : GoErr :=
  let '(hard, invalidMedia) := isHardRejection4xxStatus er in
  if hard then join2 ErrYouTubeCanaryRejected er
  else if invalidMedia then join2 ErrYouTubeCanaryInvalidMedia er
  else Errorf_w prefix er.
(** The video and the channel it is on. *)
(* 435-517 YouTubeOAuthService.CanaryUpload *)
Definition CanaryUpload (accessToken expectedChannelID : string) : H S (string * string) :=
  if bool_decide (expectedChannelID = "") then errorf "youtube canary: empty expected channel id"
  else if bool_decide (accessToken = "") then errorf "youtube canary: empty access token"
  else
    t ← asks (now C);
    let title := "INSTAEDIT-OAUTH-CANARY-" +:+ expectedChannelID +:+ "-" +:+ itoa (t / Second) in
    let metadata := JObj
      [("snippet", JObj
         [("categoryId", JStr "22"); ("defaultLanguage", JStr "en");
          ("description", JStr "OAuth readiness canary video. Auto-uploaded by InstaEdit to confirm channel binding + upload capability. Safe to delete from YouTube Studio.");
          ("title", JStr title)]);
       ("status", JObj [("privacyStatus", JStr "private"); ("selfDeclaredMadeForKids", JBool false)])] in
    session ← attempt (initiateResumableSession C accessToken metadata canaryUploadSize canaryUploadContentType);
    match session with
    | inl er => fail (canary_error "youtube canary: initiate session" er)
    | inr uploadURL =>
        let contentRange := "bytes 0-" +:+ itoa (canaryUploadSize - 1) +:+ "/" +:+ itoa canaryUploadSize in
        put ← putChunkWithContentType C uploadURL canaryUploadBytes contentRange canaryUploadContentType;
        let '(videoID, _, _, putErr) := put : Put in
        match putErr with
        | Some er => fail (canary_error "youtube canary: upload chunk put" er)
        | None =>
            if bool_decide (videoID = "") then errorf "youtube canary: upload returned no video id (unexpected)"
            else
              video ← wrapping "youtube canary: post-upload videos.list" (fetchVideoStatus accessToken videoID);
              if bool_decide (ChannelID video = "") then
                errorf ("youtube canary: snippet.channelId is empty for video " +:+ videoID +:+
                        " (videos.list returned no channel binding)")
              else if negb (bool_decide (ChannelID video = expectedChannelID)) then
                fail (with_text ErrYouTubeChannelMismatch
                  ("canary uploaded to channel " +:+ quote (ChannelID video) +:+ ", expected " +:+
                   quote expectedChannelID +:+ " (video_id=" +:+ videoID +:+ ")"))
              else give (videoID, ChannelID video)
        end
    end.

(** ** Copyright *)
(* Source: internal/services/youtube_copyright.go *)
(* 17-26 YouTubeCopyrightCheck *)
Record YouTubeCopyrightCheck := mkYouTubeCopyrightCheck {
  Status : string; Message : string; processing_status : string; RejectionReason : string; FailureReason : string;
  LicensedContent : bool; BlockedRegions : list string; AllowedRegions : list string
}.
(* 68-91 YouTubeOAuthService.fetchCopyrightStatus *)
Definition fetchCopyrightStatus (accessToken videoID : string) : H S GoVal :=
  req ← wrapping "create youtube copyright request" (NewRequest C "GET"
    ("https://www.googleapis.com/youtube/v3/videos?part=status,processingDetails,contentDetails&id=" +:+
     Cursor.QueryEscape videoID) [("Authorization", "Bearer " +:+ accessToken)] []);
  resp ← wrapping "youtube copyright request" (send C req);
  if negb (StatusCode resp =? 200) then errorf ("youtube copyright request returned " +:+ itoa (StatusCode resp))
  else first_video "copyright response" videoID resp.
(* 34-65 YouTubeOAuthService.CheckCopyright *)
Definition copyright_of (video : GoVal) : YouTubeCopyrightCheck :=
  let status := get_field video "status" in
  let content := get_field video "contentDetails" in
  let rejection := text_field status "rejectionReason" in
  let failure := text_field status "failureReason" in
  let licensed := match get_field content "licensedContent" with VBool b => b | _ => false end in
  let processing := default "" (ProcessingStatus video) in
  let region := get_field content "regionRestriction" in
  let blocked := texts_of (get_field region "blocked") in
  let allowed := texts_of (get_field region "allowed") in
  let '(st, msg) :=
    if bool_decide (rejection ∈ ["claim"; "copyright"]) then
      ("claim", "YouTube ha rilevato una rivendicazione o un rifiuto copyright.")
    else if negb (bool_decide (blocked = [])) || negb (bool_decide (allowed = [])) then
      ("blocked", "Il video ha restrizioni geografiche su YouTube.")
    else if licensed then ("claim", "YouTube segnala contenuto concesso o rivendicato da un partner.")
    else if negb (bool_decide (processing = "")) && negb (bool_decide (processing = "succeeded")) then
      ("processing", "YouTube sta ancora elaborando il video.")
    else if negb (bool_decide (failure = "")) then
      ("error", "YouTube ha segnalato un errore durante l'elaborazione del video.")
    else ("clear", "Nessun problema copyright rilevato dai controlli YouTube.") in
  mkYouTubeCopyrightCheck st msg processing rejection failure licensed blocked allowed.
(* 28-66 YouTubeOAuthService.CheckCopyright *)
Definition CheckCopyright (accessToken videoID : string) : H S YouTubeCopyrightCheck :=
  video ← fetchCopyrightStatus accessToken videoID; give (copyright_of video).
End Publish.
