(* ===== verification/YouTubePublishProps.v ===== *)
(** * Publishing to YouTube: identifiers, the canary, and what a video holds *)

From S2P Require Import Prelude Codec GoError Http YouTubeResumable YouTubeResumableProps YouTubePublish.
From S2P Require Backoff PostModel PublishWorker Cursor.
From Stdlib Require Import ZArith Lia.
Local Open Scope Z_scope.
Import PublishWorker (PublishPayload, pl_VideoURL, mkPublishPayload).

(** ** Identifiers *)
Lemma no_byte_nil c : no_byte c "".
Proof. apply not_elem_of_nil. Qed.
Lemma SplitN2_inv c t x y : SplitN2 c t = Some (x, y) → t = x +:+ String c y ∧ no_byte c x.
Proof.
  revert x. induction t as [|a t IH]; intros x; simpl; [done|].
  destruct (Ascii.eqb_spec a c) as [->|Ha].
  - intros [= <- <-]. split; [done|apply no_byte_nil].
  - destruct (SplitN2 c t) as [[x' y']|] eqn:E; [|done]. simpl. intros [= <- <-].
    destruct (IH x' eq_refl) as [-> Hx]. split; [done|].
    unfold no_byte. simpl. rewrite not_elem_of_cons. split; [congruence|done].
Qed.
(** A publish identifier is the channel and the video, and nothing else: what
    [EncodeYouTubePublishID] makes of a channel without a colon and a video, both
    not empty, decodes to them, and every identifier that decodes is the encoding
    of such a pair. *)
Theorem publish_id_roundtrip (publishID channelID videoID : string) :
  decodeYouTubePublishID publishID = inr (channelID, videoID) ↔
  publishID = EncodeYouTubePublishID channelID videoID ∧ no_byte ":" channelID ∧ channelID ≠ "" ∧ videoID ≠ "".
Proof.
  unfold decodeYouTubePublishID, EncodeYouTubePublishID. split.
  - destruct (SplitN2 ":" publishID) as [[c v]|] eqn:E; [|done]. apply SplitN2_inv in E as [-> Hc].
    repeat case_bool_decide; simpl; try done. by intros [= <- <-].
  - intros (-> & Hc & Hne & Hv). change (":" +:+ videoID) with (String ":" videoID).
    rewrite SplitN2_app by done. by rewrite !bool_decide_eq_false_2.
Qed.

(** ** Privacy *)
(** Applied twice, as the publish worker does, it is applied once. *)
Lemma CoercePrivacyForUpdate_idemp level publishAt now :
  let '(l, p) := CoercePrivacyForUpdate level publishAt now in CoercePrivacyForUpdate l p now = (l, p).
Proof.
  destruct publishAt as [p|]; simpl; [|done]. destruct (Z.ltb_spec now p); simpl; [|done].
  destruct (Z.ltb_spec now p); [done|lia].
Qed.

(** ** The canary *)
Example canary_decodes : is_Some (Std_DecodeString canaryUploadBase64) ∧ canaryUploadSize = 1531.
Proof. vm_compute. split; [by eexists|reflexivity]. Qed.
(** The two refusals that are told apart, for every status code of three digits. *)
Lemma range_all (P : Z → bool) (a : Z) (n : nat) :
  forallb P (seqZ a (Z.of_nat n)) = true → ∀ z, a ≤ z < a + Z.of_nat n → P z = true.
Proof.
  rewrite forallb_forall. intros H z Hz. apply H. apply list_elem_of_In, elem_of_seqZ. lia.
Qed.
Definition canary_refusal (code : Z) : bool * bool :=
  (bool_decide (code ∈ [401; 403; 404; 408; 409; 410; 422; 451]), bool_decide (code = 400)).
Definition chunk_error (code retryAfter : Z) : option GoErr :=
  (put_outcome retryAfter (mkResponse code 0 [] [] AtEOF)).2.
Lemma chunk_error_classified code : 400 ≤ code < 600 →
  isHardRejection4xxStatus <$> chunk_error code 0 = Some (canary_refusal code).
Proof.
  intros Hc. pose proof (range_all (λ code, bool_decide
    (isHardRejection4xxStatus <$> chunk_error code 0 = Some (canary_refusal code))) 400 200) as H.
  specialize (H ltac:(vm_compute; reflexivity) code ltac:(lia)). by apply bool_decide_eq_true in H.
Qed.

(** ** What a published video holds *)
Section Site.
Context {S : Type} (C : Client S) (s : Service S) (source : string) (src : Bytes) (committed : string → S → Bytes).
(** A site that keeps to the protocol in every session, opens each session
    with an empty file, and a source whose announced size is its size. *)
Class VideoSite : Prop := {
  site_session up :: ResumableServer C s up source src (Z.of_nat (length src)) (committed up);
  site_fresh req x r : Method req = "POST" → (Do C req x).1 = inr r → StatusCode r = 200 →
    committed (Header_Get r "Location") (Do C req x).2 = [];
  site_size x r : (Do C (mkRequest "HEAD" source [] []) x).1 = inr r → StatusCode r = 200 →
    ContentLength r = Z.of_nat (length src);
  site_size_range x r : (Do C (mkRequest "GET" source [("Range", "bytes=0-0")] []) x).1 = inr r → StatusCode r = 206 →
    Header_Get r "Content-Range" = "bytes 0-0/" +:+ itoa (Z.of_nat (length src))
}.
Context `{!VideoSite} (Hsize : Z.of_nat (length src) < 2^63).
Notation size := (Z.of_nat (length src)).
Lemma TrimSpace_itoa z : 0 ≤ z → TrimSpace (itoa z) = itoa z.
Proof.
  intros Hz. apply Cursor.TrimSpace_graphic. eapply Forall_impl; [exact (itoa_digits z Hz)|].
  intros a Ha. destruct a as [[] [] [] [] [] [] [] []]; done.
Qed.
Lemma headVideo_size : triple (λ _, True) (headVideo C source) (λ r _, r.1 = size ∧ True) (λ _ _, True).
Proof.
  assert (triple (λ _, True) (headViaRange C source) (λ r _, r.1 = size ∧ True) (λ _ _, True)) as Hrange.
  { unfold headViaRange. eapply client_bind; [by apply (client_NewRequest _ _ _ _ _ _ (λ q _, q = mkRequest "GET" source [("Range", "bytes=0-0")] [] ∧ True))|].
    intros req. apply client_pure. intros ->. apply (client_bind (λ _, True) _ _ (λ r _, StatusCode r = 206 →
      Header_Get r "Content-Range" = "bytes 0-0/" +:+ itoa size)).
    { apply client_send. intros w _. pose proof (site_size_range (st w)) as H.
      destruct (Do C _ (st w)) as [[er|r] x']; [done|]. intros Hs. by apply H. }
    intros r w Hr. destruct (Z.eqb_spec (StatusCode r) 206) as [E|]; simpl; [|done].
    rewrite (Hr E). unfold Split2.
    change ("bytes 0-0/" +:+ itoa size) with ("bytes 0-0" +:+ String "/" (itoa size)).
    rewrite SplitN2_app by (unfold no_byte; set_solver).
    assert (SplitN2 "/" (itoa size) = None) as Hn.
    { destruct (SplitN2 "/" (itoa size)) as [[x y]|] eqn:E2; [|done].
      apply SplitN2_inv in E2 as [E2 _]. pose proof (itoa_no_byte "/" size eq_refl ltac:(lia)) as Hno.
      rewrite E2 in Hno. exfalso. apply Hno. rewrite list_app_s. simpl. set_solver. }
    cbn [mbind option_bind]. rewrite Hn, TrimSpace_itoa, Sscanf_itoa by (unfold in_int64, int64_min, int64_max; lia). done. }
  unfold headVideo. eapply client_bind; [by apply client_wrapping, (client_NewRequest _ _ _ _ _ _ (λ q _, q = mkRequest "HEAD" source [] [] ∧ True))|].
  intros req. apply client_pure. intros ->. apply (client_bind (λ _, True) _ _ (λ r _, StatusCode r = 200 → ContentLength r = size)).
  { apply client_wrapping, client_send. intros w _. pose proof (site_size (st w)) as H.
    destruct (Do C _ (st w)) as [[er|r] x']; [done|]. intros Hs. by apply H. }
  intros r w Hr. destruct (Z.eqb_spec (StatusCode r) 200) as [E|]; simpl; [split; [by apply Hr|done]|by apply Hrange].
Qed.

(** The last request completed a file, and that file is the source. *)
Definition holds_source (w : World S) : Prop :=
  ∃ up a p, last (sent w) = Some (put_chunk up size a p) ∧ committed up (st w) = src.
Lemma session_opens token metadata n contentType :
  triple (λ _, True) (initiateResumableSession C token metadata n contentType)
    (λ up w, committed up (st w) = []) (λ _ _, True).
Proof.
  unfold initiateResumableSession. eapply client_bind; [by apply (client_NewRequest _ _ _ _ _ _ (λ q _, Method q = "POST" ∧ True))|].
  intros req. apply client_pure. intros Hreq.
  apply (client_bind _ _ _ (λ r w, StatusCode r = 200 → committed (Header_Get r "Location") (st w) = [])).
  { apply client_wrapping, client_send. intros w _. pose proof (site_fresh req (st w)) as H.
    destruct (Do C req (st w)) as [[er|r] x']; [done|]. simpl. intros Hs. by apply (H r). }
  intros r w Hr. destruct (Z.eqb_spec (StatusCode r) 200) as [E|]; simpl; [|done].
  case_bool_decide; simpl; [done|by apply Hr].
Qed.
Lemma session_upload up : 0 < size →
  triple (λ w, committed up (st w) = []) (uploadVideoChunks C s up source size) (λ _, holds_source) (λ _ _, True).
Proof.
  intros Hpos w Hw.
  assert (stored up src size (committed up) (sent w) w) as Hst.
  { split; [rewrite Hw; apply prefix_nil|]. exists []. by rewrite app_nil_r. }
  pose proof (uploadVideoChunks_stores C s up source src size (committed up) Hsize (sent w) Hpos w Hst) as H.
  destruct (uploadVideoChunks C s up source size w) as [[er|id] w']; [done|].
  assert (committed up (st w') = take (Z.to_nat size) src) as Hfile by (by eapply whole_file). destruct H as [_ [_ (a & p & Hlast)]].
  exists up, a, p. split; [done|]. rewrite Hfile. apply take_ge. lia.
Qed.
Lemma publish_attempts_hold left retried token metadata contentType er : 0 < size → is_Some er ∨ (0 < left)%nat →
  triple (λ _, True) (publish_attempts C s left retried token metadata source size contentType er)
    (λ r w, r.1 = None → holds_source w) (λ _ _, True).
Proof.
  intros Hpos. revert retried er. induction left as [|left IH]; intros retried er Hleft; cbn [publish_attempts].
  { apply client_give. intros w _. destruct Hleft as [[? ->]|]; [done|lia]. }
  apply (client_bind _ _ _ (λ r w, match r with inr up => committed up (st w) = [] | inl _ => True end)).
  { apply client_attempt, session_opens. }
  intros [e|up]; [by apply client_give|].
  apply (client_bind _ _ _ (λ r w, match r with inr _ => holds_source w | inl _ => True end)).
  { by apply client_attempt, session_upload. }
  intros [e|id]; [|by apply client_give].
  destruct (_ || _); [by apply client_give|].
  apply (client_bind _ _ _ (λ _ _, True)); [apply client_any|].
  intros _. apply IH. left. by eexists.
Qed.
End Site.
Arguments VideoSite {S} C s source src committed.


(** *** Runs *)
Import Demo.
Lemma demo_site script data source : 0 < Z.of_nat (length data) < 2^62 →
  VideoSite (client script true data "up" (Z.of_nat (length data))) service source data (λ _, held).
Proof.
  intros Hd. constructor.
  - intros up. apply demo_server. lia.
  - intros req x r Hm. simpl. unfold demo_Do, answer. rewrite Hm.
    rewrite (bool_decide_eq_false_2 ("POST" ∈ ["GET"; "HEAD"])) by set_solver.
    change (bool_decide ("POST" = "PUT")) with false. cbn iota.
    destruct (bool_decide (payload req = [])), (script (clock x)); simpl; intros [= <-]; simpl; first [done|lia].
  - intros x r Hr Hs. apply demo_answer in Hr as [[k Hr]|[_ Hr]]; [by injection Hr as -> _|lia].
  - intros x r Hr Hs. apply demo_answer in Hr as [[k Hr]|[_ Hr]]; [by injection Hr as -> _|lia].
Qed.
Definition payload_of (url : string) : PublishPayload :=
  mkPublishPayload "caption" url "title" [] "private" "" "" None.
Definition start (script : nat → Fate) (user : string) : (GoErr + string * string) * World State :=
  StartPublish (client script true letters "up" 6) service "token" user (payload_of "src") (mkWorld (mkState [] 0) []).
(** A probe that says 404 is asked again before the session is given up. *)
Example dead_session_probed_twice :
  let script k := if bool_decide (k = 4%nat) then Refuse 503 else if bool_decide (k ∈ [5; 6]%nat) then Refuse 404 else Serve in
  map (λ q, (Method q, req_header q)) (firstn 3 (skipn 4 (sent (start script "UC1").2))) =
  [("PUT", [("Content-Range", "bytes 2-3/6")]); ("PUT", [("Content-Range", "bytes */6")]);
   ("PUT", [("Content-Range", "bytes */6")])].
Proof. vm_compute. done. Qed.
(** The delivery pool's upload does not open a second session. *)
Example private_upload_gives_up_on_lost_session :
  let script k := if bool_decide (k = 4%nat) then Refuse 503 else if bool_decide (k ∈ [5; 6]%nat) then Refuse 404 else Serve in
  match (UploadVideoAsPrivate (client script true letters "up" 6) service "token"
    (Some (PostModel.mkPost 1 1 "t" "c" "" None None None "" "" None 0 None "" None "" 0 0 0)) "src" None (mkWorld (mkState [] 0) [])).1 with
  | inl er => Is er "ErrYouTubeSessionLost" = true
  | inr _ => False
  end.
Proof. vm_compute. done. Qed.
(** A session that a chunk finds dead is an error for good. *)
Example dead_session_at_a_chunk_is_permanent :
  match (start (λ k, if bool_decide (k = 4%nat) then Refuse 404 else Serve) "UC1").1 with
  | inl er => Is er ErrPermanentUpload = true ∧ Is er "ErrYouTubeSessionLost" = false
  | inr _ => False
  end.
Proof. vm_compute. done. Qed.
(** Without a channel the video is uploaded and the identifier cannot be read. *)
Example publish_without_channel :
  (start (λ _, Serve) "").1 = inr (":video1", "processing") ∧
  decodeYouTubePublishID ":video1" = inl (leaf (DNew "invalid youtube publish id: :video1")).
Proof. vm_compute. done. Qed.
