(* ===== verification/YouTubeChannel.v ===== *)
(** * Changing a video of a YouTube channel

    [src/internal/services/youtube_channel_publish.go]: privacy, metadata and
    localizations; [youtube_channel_thumbnail.go]: the thumbnail, alone and with
    the publication; [youtube_channel_retry.go]: the retries around them;
    [src/internal/models/youtube_publish_options.go] and [validator.go]: the
    checks of the options. *)

From S2P Require Import Prelude Codec GoError Http YouTubePublish.
From S2P Require Cursor Storage.
From Stdlib Require Import ZArith Lia.
Local Open Scope Z_scope.

(** ** Options *)
(* Source: internal/models/youtube_publish_options.go *)
(* 20-23 YouTubeTranslation *)
Record YouTubeTranslation := mkYouTubeTranslation { tr_Title : string; tr_Description : string }.
(** [Translations] in the order in which the map is ranged over, which is not
    determined. *)
(* 52-59 YouTubePublishOptions *)
Record YouTubePublishOptions := mkYouTubePublishOptions {
  Title : string;
  Description : string;
  Tags : list string;
  DefaultLanguage : string;
  DefaultAudioLanguage : string;
  Translations : list (string * YouTubeTranslation)
}.
Definition YouTubeTagsMax : Z := 30. (* 65 *)
Definition YouTubeTagsTotalCharsMax : Z := 500. (* 66 *)
Definition BCP47LengthSanityMax : Z := 35. (* 67 *)
(** [%q] of a rune that is refused: the six of them. *)
Definition quote_rune (r : N) : string :=
  "'" +:+ (if (r =? 9)%N then "\t" else if (r =? 10)%N then "\n" else if (r =? 13)%N then "\r"
           else if (r =? 92)%N then "\\" else bytes [r]) +:+ "'".
(* 119-149 CheckBCP47Like *)
Definition CheckBCP47Like (label code : string) : option GoErr :=
  let bad msg := Some (leaf (DNew (label +:+ " " +:+ quote code +:+ msg))) in
  if bool_decide (code = "") then None
  else if BCP47LengthSanityMax <? Z.of_nat (String.length code) then bad " looks malformed (BCP-47 codes are short)"
  else match List.find (λ r, bool_decide (r ∈ [47; 92; 32; 9; 10; 13]%N)) (Storage.runes code) with
       | Some r => bad (" contains a forbidden character (" +:+ quote_rune r +:+ ")")
       | None =>
           if existsb (λ a, bool_decide (97 ≤ N_of_ascii a ≤ 122)%N) (String.list_ascii_of_string (ToLower code))
           then None else bad " has no language subtag"
       end.
(* 77-111 YouTubePublishOptions.Validate *)
Definition Validate (o : YouTubePublishOptions) : option GoErr :=
  let n := Z.of_nat (length (Tags o)) in
  let total := foldr (λ t acc, Z.of_nat (String.length t) + acc) 0 (Tags o) + (if 1 <? n then n - 1 else 0) in
  if YouTubeTagsMax <? n then
    Some (leaf (DNew ("too many tags: " +:+ itoa n +:+ " (max " +:+ itoa YouTubeTagsMax +:+ ")")))
  else if YouTubeTagsTotalCharsMax <? total then
    Some (leaf (DNew ("total tag characters " +:+ itoa total +:+ " exceeds YouTube bound " +:+ itoa YouTubeTagsTotalCharsMax)))
  else
    first_some id
      ([CheckBCP47Like "default_language" (DefaultLanguage o);
        CheckBCP47Like "default_audio_language" (DefaultAudioLanguage o);
        if negb (bool_decide (Translations o = [])) && bool_decide (DefaultLanguage o = "") then
          Some (leaf (DNew "translations require default_language (YouTube refuses localizations without one)"))
        else None] ++
       ((λ lt, first_some id
          [CheckBCP47Like "translation key" lt.1;
           if bool_decide (tr_Title lt.2 = "") && bool_decide (tr_Description lt.2 = "") then
             Some (leaf (DNew ("translation " +:+ quote lt.1 +:+
               " has empty title AND description (skip it or fill one)")))
           else None]) <$> Translations o)).
(* Source: internal/services/validator.go *)
(* 18-28 ValidateYouTubeSnippet *)
Definition ValidateYouTubeSnippet (title description : string) : option GoErr :=
  if bool_decide (100 < length (Storage.runes (TrimSpace title)))%nat then
    Some (leaf (DNew "title exceeds 100 characters"))
  else if bool_decide (5000 < length (Storage.runes (TrimSpace description)))%nat then
    Some (leaf (DNew "description exceeds 5000 characters"))
  else None.
(* Source: internal/models/youtube_metadata.go *)
(* 8-19 YouTubeMetadataPatch *)
Record YouTubeMetadataPatch := mkPatch {
  patch_Title : option string;
  patch_Description : option string;
  patch_CategoryID : option string;
  patch_PrivacyStatus : option string
}.
(* 26-32 YouTubeMetadataResult *)
Record YouTubeMetadataResult := mkResult {
  res_VideoID : string; res_Title : string; res_Description : string; res_CategoryID : string; res_PrivacyStatus : string
}.

(** ** Errors *)
(* Source: internal/services/youtube_publish.go *)
Definition ErrYouTubeVideoNotFound : GoErr := (* 41 *)
  leaf (DSentinel "ErrYouTubeVideoNotFound" "youtube video not found").
Definition api (code : Z) (category message : string) : GoErr := leaf (DYouTube (mkYouTubeAPIError code category message)).
(** The switch on the status, the same in every method; [read] is put in front of
    the server error of one of them. *)
(* Source: internal/services/youtube_channel_publish.go *)
(* 128-141 YouTubeOAuthService.updateVideoWithExtendedSnippet; 192-205 YouTubeOAuthService.UpsertLocalizations; 296-320 YouTubeOAuthService.UpdateVideoPrivacy *)
Definition status_error (op server : string) (code : Z) : GoErr :=
  if code =? 401 then api 401 "auth" (op +:+ ": unauthorized (status 401)")
  else if code =? 403 then api 403 "auth" (op +:+ ": forbidden (status 403)")
  else if code =? 404 then api 404 "not_found" (op +:+ ": video not found (status 404)")
  else if code =? 429 then api 429 "rate_limit" (op +:+ ": rate limited (status 429)")
  else if 500 <=? code then api code "server_error" (op +:+ ": " +:+ server +:+ " (status " +:+ itoa code +:+ ")")
  else api code "unexpected" (op +:+ ": unexpected status " +:+ itoa code).
(** Two of the methods wrap the 404 around a sentinel. *)
(* 301-313 YouTubeOAuthService.UpdateVideoPrivacy; 394-397 YouTubeOAuthService.UpdateVideoMetadata *)
Definition sentinel_404 (op server videoID : string) (code : Z) : GoErr :=
  let er := status_error op server code in
  if code =? 404 then
    mkGoErr (DWrap (Error ErrYouTubeVideoNotFound +:+ ": video_id=" +:+ videoID +:+ ": " +:+ Error er)) [ErrYouTubeVideoNotFound; er]
  else er.
(* Source: internal/services/youtube_channel_retry.go *)
(* 63-77 retryableError *)
Definition retryableError (er : GoErr) : bool :=
  if Is er "context.Canceled" || Is er "context.DeadlineExceeded" then false
  else match As as_youtube er with Some e => Transient e | None => false end.
(* 102-112 doWithRetry *)
Definition retry_delay (baseDelay : Z) (attempt : nat) (int63n : Z → Z) : Z :=
  let delay := wrap64 (baseDelay * wrap64 (Z.shiftl 1 (Z.of_nat attempt))) in
  let delay := if 30 * Second <? delay then 30 * Second else delay in
  if 0 <? delay then let half := Z.quot delay 2 in wrap64 (half + int63n (wrap64 (half + 1))) else delay.

Section Channel.
Context {S : Type} (C : Client S).
(** [fn] knows the number of the attempt: what it sends may be gone. *)
(* 88-119 doWithRetry *)
Fixpoint retry_loop (maxAttempts : nat) (baseDelay : Z) (fn : nat → H S unit) (left attempt_ : nat) (lastErr : option GoErr) : H S unit :=
  match left with
  | O => match lastErr with Some er => fail er | None => errorf "exceeded retry attempts" end
  | Datatypes.S left' =>
      done ← asks (ctx_Err C);
      match done with
      | Some er => fail er
      | None =>
          r ← attempt (fn attempt_);
          match r with
          | inr _ => give tt
          | inl er =>
              if negb (retryableError er) then fail er
              else if bool_decide (attempt_ < maxAttempts - 1)%nat then
                f ← on_st (rand C);
                w ← on_st (wait C (retry_delay baseDelay attempt_ f));
                match w with
                | Some cancelled => fail cancelled
                | None => retry_loop maxAttempts baseDelay fn left' (Datatypes.S attempt_) (Some er)
                end
              else retry_loop maxAttempts baseDelay fn left' (Datatypes.S attempt_) (Some er)
          end
      end
  end.
(* 86-124 doWithRetry *)
Definition doWithRetry (maxAttempts : nat) (baseDelay : Z) (fn : nat → H S unit) : H S unit :=
  retry_loop maxAttempts baseDelay fn maxAttempts 0 None.
(** A request with the bearer token; the failure of the transport is reported as
    one of the API. *)
Definition authorized (op method url accessToken contentType : string) (p : Bytes) : H S Request :=
  wrapping (op +:+ ": create request") (NewRequest C method url
    (("Authorization", "Bearer " +:+ accessToken) ::
     if bool_decide (contentType = "") then [] else [("Content-Type", contentType)]) p).
Definition send_api (op what : string) (req : Request) : H S Response :=
  r ← attempt (send C req);
  match r with
  | inl er => fail (api 0 "network" (op +:+ ": " +:+ what +:+ ": " +:+ Error er))
  | inr resp => give resp
  end.
Definition accepted (codes : list Z) (resp : Response) : bool := bool_decide (StatusCode resp ∈ codes).
Definition invalid_privacy (op status : string) : GoErr :=
  leaf (DNew (op +:+ ": invalid privacy status " +:+ quote status)).
Definition privacy_ok (status : string) : bool := bool_decide (status ∈ ["public"; "unlisted"; "private"]).

(** ** Privacy and snippet *)
(* Source: internal/services/youtube_channel_publish.go *)
(* 17-19 hasExtendedSnippet *)
Definition hasExtendedSnippet (opts : YouTubePublishOptions) : bool :=
  negb (bool_decide (Tags opts = [])) || negb (bool_decide (DefaultLanguage opts = "")) ||
  negb (bool_decide (DefaultAudioLanguage opts = "")).
Definition member (k v : string) : list (string * json) := if bool_decide (v = "") then [] else [(k, JStr v)].
(** The snippet is never empty; the members are in the order of their keys. *)
(* 40-142 YouTubeOAuthService.updateVideoWithExtendedSnippet *)
Definition updateVideoWithExtendedSnippet (accessToken videoID privacyStatus : string) (publishAt : option Z)
    (opts : YouTubePublishOptions) : H S unit :=
  let op := "youtube update video" in
  let privacyStatus := ToLower (TrimSpace privacyStatus) in
  if negb (privacy_ok privacyStatus) then fail (invalid_privacy op privacyStatus)
  else match ValidateYouTubeSnippet (Title opts) (Description opts) with
  | Some er => fail (Errorf_w op er)
  | None =>
      match publishAt with
      | Some _ =>
          if negb (bool_decide (privacyStatus = "private")) then
            errorf (op +:+ ": publishAt requires privacyStatus=private") else give tt
      | None => give tt
      end ≫= λ _,
      let status := ("privacyStatus", JStr privacyStatus) ::
        match publishAt with Some p => [("publishAt", JStr (rfc3339 p))] | None => [] end in
      let snippet := ("categoryId", JStr "22") :: member "defaultAudioLanguage" (DefaultAudioLanguage opts) ++
        member "defaultLanguage" (DefaultLanguage opts) ++ member "description" (Description opts) ++
        (if bool_decide (Tags opts = []) then [] else [("tags", JArr (JStr <$> Tags opts))]) ++
        member "title" (Title opts) in
      req ← authorized op "PUT" "https://www.googleapis.com/youtube/v3/videos?part=snippet,status" accessToken
        "application/json"
        (of_text (marshal (JObj [("id", JStr videoID); ("snippet", JObj snippet); ("status", JObj status)])));
      resp ← send_api op "request" req;
      if accepted [200; 204] resp then give tt
      else fail (status_error op "server error" (StatusCode resp))
  end.
(* 209-321 YouTubeOAuthService.UpdateVideoPrivacy *)
Definition UpdateVideoPrivacy (accessToken videoID privacyStatus : string) (publishAt : option Z)
    (title description : string) : H S unit :=
  let op := "youtube update video" in
  if bool_decide (videoID = "") then errorf (op +:+ ": empty video id")
  else
    let privacyStatus := ToLower (TrimSpace privacyStatus) in
    if negb (privacy_ok privacyStatus) then fail (invalid_privacy op privacyStatus)
    else match ValidateYouTubeSnippet title description with
    | Some er => fail (Errorf_w op er)
    | None =>
        let title := TrimSpace title in
        let description := TrimSpace description in
        t ← asks (now C);
        let '(privacyStatus, publishAt) := CoercePrivacyForUpdate privacyStatus publishAt t in
        let status := ("privacyStatus", JStr privacyStatus) ::
          match publishAt with Some p => [("publishAt", JStr (rfc3339 p))] | None => [] end in
        let texts := member "description" description ++ member "title" title in
        let snippet := if bool_decide (length texts = O) then []
                       else [("snippet", JObj (("categoryId", JStr "22") :: texts))] in
        let parts := if bool_decide (length texts = O) then "status" else "snippet,status" in
        req ← authorized op "PUT" ("https://www.googleapis.com/youtube/v3/videos?part=" +:+ parts) accessToken
          "application/json"
          (of_text (marshal (JObj (("id", JStr videoID) :: snippet ++ [("status", JObj status)]))));
        resp ← send_api op "request" req;
        if accepted [200; 204] resp then give tt
        else fail (sentinel_404 op "server error" videoID (StatusCode resp))
    end.
(** One request is made and sent up to three times; its body can be read once, so
    later attempts fail in the transport, which checks the length. *)
(* 156-207 YouTubeOAuthService.UpsertLocalizations *)
Definition UpsertLocalizations (accessToken videoID lang : string) (tr : YouTubeTranslation) : H S unit :=
  let op := "youtube upsert localizations " +:+ lang in
  match ValidateYouTubeSnippet (tr_Title tr) (tr_Description tr) with
  | Some er => fail (Errorf_w op er)
  | None =>
      let body := of_text (marshal (JObj [("id", JStr videoID);
        ("localizations", JObj [(lang, JObj [("description", JStr (tr_Description tr)); ("title", JStr (tr_Title tr))])])])) in
      req ← authorized op "PUT" "https://www.googleapis.com/youtube/v3/videos?part=localizations" accessToken
        "application/json" body;
      doWithRetry 3 Second (λ n,
        if bool_decide (n = O) then
          resp ← send_api op "request" req;
          if accepted [200; 204] resp then give tt
          else fail (status_error op "server error" (StatusCode resp))
        else
          fail (api 0 "network" (op +:+ ": request: http: ContentLength=" +:+ itoa (Z.of_nat (length body)) +:+
                                 " with Body length 0")))
  end.

(** ** Metadata *)
Definition or_current (patch : option string) (current : string) : string := default current patch.
(** The snippet that is written: what the video has, with the patch over it. *)
(* 427-469 YouTubeOAuthService.UpdateVideoMetadata *)
Definition merged_snippet (video : GoVal) (patch : YouTubeMetadataPatch) : string * string * string * json :=
  let snippet := get_field video "snippet" in
  let title := or_current (TrimSpace <$> patch_Title patch) (text_field snippet "title") in
  let description := or_current (patch_Description patch) (text_field snippet "description") in
  let categoryID := or_current (TrimSpace <$> patch_CategoryID patch) (text_field snippet "categoryId") in
  let category := if bool_decide (categoryID = "") then "22" else categoryID in
  let tags := texts_of (get_field snippet "tags") in
  (title, description, categoryID,
   JObj (("categoryId", JStr category) ::
         member "defaultAudioLanguage" (text_field snippet "defaultAudioLanguage") ++
         member "defaultLanguage" (text_field snippet "defaultLanguage") ++
         [("description", JStr description); ("tags", JArr (JStr <$> tags)); ("title", JStr title)])).
(** The checks of the patch, and the privacy it asks for. *)
(* 342-376 YouTubeOAuthService.UpdateVideoMetadata *)
Definition check_patch (op videoID : string) (patch : YouTubeMetadataPatch) : GoErr + string :=
  let blank := match patch_Title patch with Some t => bool_decide (TrimSpace t = "") | None => false end in
  if bool_decide (videoID = "") then inl (leaf (DNew (op +:+ ": empty video id")))
  else if blank then inl (leaf (DNew (op +:+ ": title cannot be empty")))
  else match ValidateYouTubeSnippet (default "" (patch_Title patch)) (default "" (patch_Description patch)) with
  | Some er => inl (Errorf_w op er)
  | None =>
      match patch_PrivacyStatus patch with
      | None => inr ""
      | Some p => let p := ToLower (TrimSpace p) in if privacy_ok p then inr p else inl (invalid_privacy op p)
      end
  end.
(* 378-421 YouTubeOAuthService.UpdateVideoMetadata *)
Definition read_current (op accessToken videoID : string) : H S GoVal :=
  readReq ← wrapping (op +:+ ": create read request") (NewRequest C "GET"
    ("https://www.googleapis.com/youtube/v3/videos?" +:+ Cursor.Encode [("part", "snippet,status"); ("id", videoID)])
    [("Authorization", "Bearer " +:+ accessToken)] []);
  readResp ← send_api op "read request" readReq;
  if negb (StatusCode readResp =? 200) then fail (sentinel_404 op "read server error" videoID (StatusCode readResp))
  else match Decode youtubeVideosResponse (text (Body readResp)) with
       | None => fail (Errorf_w (op +:+ ": decode read response") (leaf (DNew "json")))
       | Some current => match items_of current with
                         | [] => fail (with_text ErrYouTubeVideoNotFound ("video_id=" +:+ videoID))
                         | video :: _ => give video
                         end
       end.
(* 341-535 YouTubeOAuthService.UpdateVideoMetadata *)
Definition UpdateVideoMetadata (accessToken videoID expectedChannelID : string) (patch : YouTubeMetadataPatch) :
    H S YouTubeMetadataResult :=
  let op := "youtube update video metadata" in
  match check_patch op videoID patch with
  | inl er => fail er
  | inr patchPrivacy =>
      video ← read_current op accessToken videoID;
      if negb (bool_decide (expectedChannelID = "")) && negb (bool_decide (ChannelID video = "")) &&
         negb (bool_decide (ChannelID video = expectedChannelID)) then
        fail (api 403 "auth" (op +:+ ": video not owned by the expected channel"))
      else
        let '(title, description, categoryID, snippet) := merged_snippet video patch in
        match ValidateYouTubeSnippet title description with
        | Some er => fail (Errorf_w op er)
        | None =>
            if bool_decide (title = "") then errorf (op +:+ ": title cannot be empty")
            else
              let categoryID := if bool_decide (categoryID = "") then "22" else categoryID in
              let current := ToLower (TrimSpace (text_field (get_field video "status") "privacyStatus")) in
              let changedPrivacy := if bool_decide (patch_PrivacyStatus patch ≠ None) && negb (bool_decide (patchPrivacy = current))
                                    then patchPrivacy else "" in
              let status := if bool_decide (changedPrivacy = "") then []
                            else [("status", JObj [("privacyStatus", JStr changedPrivacy)])] in
              let parts := if bool_decide (changedPrivacy = "") then "snippet" else "snippet,status" in
              updateReq ← wrapping (op +:+ ": create update request") (NewRequest C "PUT"
                ("https://www.googleapis.com/youtube/v3/videos?part=" +:+ parts)
                [("Authorization", "Bearer " +:+ accessToken); ("Content-Type", "application/json")]
                (of_text (marshal (JObj (("id", JStr videoID) :: ("snippet", snippet) :: status)))));
              updateResp ← send_api op "update request" updateReq;
              if accepted [200; 204] updateResp then
                give (mkResult videoID title description categoryID changedPrivacy)
              else fail (sentinel_404 op "server error" videoID (StatusCode updateResp))
        end
  end.

(** ** Thumbnails *)
(* Source: internal/services/youtube_channel_thumbnail.go *)
(** The reader has exactly [size] bytes in the calls of this package. *)
(* 15-69 YouTubeOAuthService.SetThumbnail *)
Definition SetThumbnail (accessToken videoID mimeType : string) (body : Bytes) (size : Z) : H S unit :=
  let op := "youtube set thumbnail" in
  if bool_decide (videoID = "") then errorf (op +:+ ": empty video id")
  else if size <=? 0 then errorf (op +:+ ": invalid image size")
  else if 2 * 1024 * 1024 <? size then errorf (op +:+ ": image exceeds 2 MB limit")
  else if negb (bool_decide (mimeType ∈ ["image/jpeg"; "image/png"])) then
    errorf (op +:+ ": unsupported content type " +:+ quote mimeType +:+ " (only image/jpeg and image/png allowed)")
  else
    req ← authorized op "POST" ("https://www.googleapis.com/upload/youtube/v3/thumbnails/set?" +:+
      Cursor.Encode [("videoId", videoID)]) accessToken mimeType body;
    resp ← send_api op "request" req;
    if accepted [200; 201; 204] resp then give tt
    else fail (status_error op "server error" (StatusCode resp)).
(* 90-129 YouTubeOAuthService.PublishThumbnail *)
Definition PublishThumbnail (accessToken videoID : string) (thumbnailData : Bytes) (mimeType privacyStatus : string)
    (publishAt : option Z) (opts : YouTubePublishOptions) : H S string :=
  let op := "youtube publish thumbnail" in
  let size := Z.of_nat (length thumbnailData) in
  if size =? 0 then errorf (op +:+ ": empty thumbnail data")
  else if 2 * 1024 * 1024 <? size then errorf (op +:+ ": thumbnail exceeds 2 MB limit")
  else if negb (bool_decide (mimeType ∈ ["image/jpeg"; "image/png"])) then
    errorf (op +:+ ": unsupported content type " +:+ quote mimeType)
  else
    _ ← wrapping (op +:+ ": set thumbnail failed")
      (doWithRetry 3 Second (λ _, SetThumbnail accessToken videoID mimeType thumbnailData size));
    _ ← wrapping (op +:+ ": update video failed")
      (doWithRetry 3 Second (λ _,
        if hasExtendedSnippet opts then updateVideoWithExtendedSnippet accessToken videoID privacyStatus publishAt opts
        else UpdateVideoPrivacy accessToken videoID privacyStatus publishAt (Title opts) (Description opts)));
    give ("https://www.youtube.com/watch?v=" +:+ videoID).
End Channel.
