(* ===== verification/YouTubeChannelProps.v ===== *)
(** * Changing a video: what a patch leaves alone, and what a retry can do *)

From S2P Require Import Prelude Codec GoError Http HttpProps YouTubePublish YouTubeChannel.
From S2P Require YouTubeResumable YouTubeResumableProps Cursor Storage.
From Stdlib Require Import ZArith Lia.
Local Open Scope Z_scope.

(** ** A site where [videos.update] replaces the parts it is given

    What the documentation of the call says, and the comment of
    [UpdateVideoMetadata] repeats: an editable property that the snippet of the
    request leaves out is deleted. *)
Record View := mkView {
  v_title : string; v_description : string; v_category : string; v_tags : list string;
  v_language : string; v_audio : string; v_privacy : string; v_channel : string
}.
Definition view_of (video : GoVal) : View :=
  let snippet := get_field video "snippet" in
  mkView (text_field snippet "title") (text_field snippet "description") (text_field snippet "categoryId")
    (texts_of (get_field snippet "tags")) (text_field snippet "defaultLanguage")
    (text_field snippet "defaultAudioLanguage") (text_field (get_field video "status") "privacyStatus")
    (ChannelID video).
Definition jmember (k : string) (j : json) : option json :=
  match j with JObj ms => snd <$> List.find (λ m, bool_decide (m.1 = k)) ms | _ => None end.
Definition jtext (k : string) (j : json) : string := match jmember k j with Some (JStr s) => s | _ => "" end.
Definition jtexts (k : string) (j : json) : list string :=
  match jmember k j with Some (JArr l) => (λ x, match x with JStr s => s | _ => "" end) <$> l | _ => [] end.
Definition replaced (v : View) (body : json) : View :=
  let privacy := match jmember "status" body with Some st => jtext "privacyStatus" st | None => v_privacy v end in
  match jmember "snippet" body with
  | Some sn => mkView (jtext "title" sn) (jtext "description" sn) (jtext "categoryId" sn) (jtexts "tags" sn)
                 (jtext "defaultLanguage" sn) (jtext "defaultAudioLanguage" sn) privacy (v_channel v)
  | None => mkView (v_title v) (v_description v) (v_category v) (v_tags v) (v_language v) (v_audio v) privacy (v_channel v)
  end.

Section Site.
Context {S : Type} (C : Client S) (shown : S → View).
Class ReplacingSite : Prop := {
  read_shows req x r : Method req = "GET" → (Do C req x).1 = inr r → StatusCode r = 200 →
    ∃ result video rest, Decode youtubeVideosResponse (text (Body r)) = Some result ∧
      items_of result = video :: rest ∧ view_of video = shown x;
  read_quiet req x : Method req = "GET" → shown (Do C req x).2 = shown x;
  update_replaces req x r body : Method req = "PUT" → (Do C req x).1 = inr r → StatusCode r ∈ [200; 204] →
    read_json (text (payload req)) = Some body → shown (Do C req x).2 = replaced (shown x) body
}.
Context `{!ReplacingSite}.

Lemma text_of_text t : text (of_text t) = t.
Proof. apply String.string_of_list_ascii_of_string. Qed.
Lemma client_send_api P op what req Q (E : GoErr → World S → Prop) :
  (∀ w, P w → match (Do C req (st w)).1 with
              | inr r => Q r (mkWorld (Do C req (st w)).2 (sent w ++ [req]))
              | inl _ => ∀ er, E er (mkWorld (Do C req (st w)).2 (sent w ++ [req])) end) →
  triple P (send_api C op what req) Q E.
Proof.
  intros H w Hw. specialize (H w Hw). unfold send_api, mbind, H_bind, bind, attempt, send.
  destruct (Do C req (st w)) as [[er|r] x']; simpl in *; [apply H|done].
Qed.
Lemma read_current_shows op token id v :
  triple (λ w, shown (st w) = v) (read_current C op token id)
    (λ video w, view_of video = v ∧ shown (st w) = v) (λ _ _, True).
Proof.
  unfold read_current.
  apply (client_bind _ _ _ (λ req w, Method req = "GET" ∧ shown (st w) = v)).
  { by apply client_wrapping, client_NewRequest. }
  intros req. apply client_pure. intros Hm.
  apply (client_bind _ _ _ (λ r w, (StatusCode r = 200 → ∃ result video rest,
    Decode youtubeVideosResponse (text (Body r)) = Some result ∧ items_of result = video :: rest ∧ view_of video = v) ∧
    shown (st w) = v)).
  { apply client_send_api. intros w Hw. pose proof (read_shows req (st w)) as H. pose proof (read_quiet req (st w) Hm) as Hq.
    destruct (Do C req (st w)) as [[er|r] x']; simpl in *; [done|]. rewrite Hq, <- Hw. split; [|done].
    intros Hs. by apply H. }
  intros r. apply client_pure. intros Hr. destruct (Z.eqb_spec (StatusCode r) 200) as [E|]; simpl; [|by apply client_fail].
  destruct (Hr E) as (result & video & rest & -> & -> & Hv). by apply client_give.
Qed.

(** ** A patch *)
(** The view the patch asks for. *)
Definition patched (v : View) (patch : YouTubeMetadataPatch) : View :=
  let category := default (v_category v) (TrimSpace <$> patch_CategoryID patch) in
  mkView (default (v_title v) (TrimSpace <$> patch_Title patch)) (default (v_description v) (patch_Description patch))
    (if bool_decide (category = "") then "22" else category) (v_tags v) (v_language v) (v_audio v)
    (match patch_PrivacyStatus patch with
     | Some p => let p := ToLower (TrimSpace p) in
                 if bool_decide (p = ToLower (TrimSpace (v_privacy v))) then v_privacy v else p
     | None => v_privacy v
     end) (v_channel v).

Lemma textual_strings l : textual (JArr (JStr <$> l)) = true.
Proof. simpl. induction l as [|x l IH]; [done|exact IH]. Qed.
Lemma height_strings l : (height (JArr (JStr <$> l)) ≤ 1)%nat.
Proof. simpl. induction l as [|x l IH]; [simpl; lia|exact IH]. Qed.
Lemma jtexts_strings k l ms : jmember k (JObj ms) = Some (JArr (JStr <$> l)) → jtexts k (JObj ms) = l.
Proof. intros H. unfold jtexts. rewrite H. clear H. induction l as [|x l IH]; [done|]. simpl in *. by f_equal. Qed.
Definition metadata_body (videoID : string) (snippet : json) (privacy : string) : list (string * json) :=
  ("id", JStr videoID) :: ("snippet", snippet) ::
  (if bool_decide (privacy = "") then [] else [("status", JObj [("privacyStatus", JStr privacy)])]).
Lemma metadata_body_readable videoID video patch privacy :
  let '(_, _, _, snippet) := merged_snippet video patch in
  read_json (marshal (JObj (metadata_body videoID snippet privacy))) = Some (JObj (metadata_body videoID snippet privacy)).
Proof.
  unfold merged_snippet. apply read_json_marshal.
  - unfold metadata_body, member.
    pose proof (textual_strings (texts_of (get_field (get_field video "snippet") "tags"))) as Ht.
    remember (JArr (JStr <$> _)) as tags eqn:E. clear E.
    repeat case_bool_decide; cbn [textual forallb app snd andb]; by rewrite Ht.
  - unfold metadata_body, member, max_nesting.
    pose proof (height_strings (texts_of (get_field (get_field video "snippet") "tags"))) as Ht.
    remember (JArr (JStr <$> _)) as tags eqn:E. clear E.
    repeat case_bool_decide; cbn [height foldr app snd]; lia.
Qed.
Lemma replaced_patched videoID video patch privacy :
  let '(_, _, _, snippet) := merged_snippet video patch in
  privacy = match patch_PrivacyStatus patch with
            | Some p => let p := ToLower (TrimSpace p) in
                        if bool_decide (p = ToLower (TrimSpace (v_privacy (view_of video)))) then "" else p
            | None => ""
            end →
  (∀ p, patch_PrivacyStatus patch = Some p → ToLower (TrimSpace p) ≠ "") →
  replaced (view_of video) (JObj (metadata_body videoID snippet privacy)) = patched (view_of video) patch.
Proof.
  unfold merged_snippet. intros -> Hne. unfold replaced, patched, metadata_body.
  change (jmember "snippet" (JObj (("id", ?a) :: ("snippet", ?b) :: ?c))) with (Some b).
  f_equal.
  - unfold member. by repeat case_bool_decide.
  - unfold member. by repeat case_bool_decide.
  - apply jtexts_strings. unfold member. by repeat case_bool_decide.
  - unfold view_of, member. cbn [v_language]. generalize (text_field (get_field video "snippet") "defaultLanguage").
    intros l. repeat case_bool_decide; subst; reflexivity.
  - unfold view_of, member. cbn [v_audio]. generalize (text_field (get_field video "snippet") "defaultAudioLanguage").
    intros l. repeat case_bool_decide; subst; reflexivity.
  - destruct (patch_PrivacyStatus patch) as [p|] eqn:Ep; [|done]. cbv zeta.
    match goal with |- context [("snippet", ?b)] => generalize b; intros snippet end.
    destruct (bool_decide (ToLower (TrimSpace p) = _)); [reflexivity|].
    rewrite bool_decide_eq_false_2; [reflexivity|]. by apply Hne.
Qed.

Lemma check_patch_privacy op videoID patch privacy : check_patch op videoID patch = inr privacy →
  match patch_PrivacyStatus patch with
  | Some p => privacy = ToLower (TrimSpace p) ∧ privacy ≠ ""
  | None => privacy = ""
  end.
Proof.
  unfold check_patch. intros H. destruct (bool_decide (videoID = "")); [done|].
  destruct (match patch_Title patch with Some _ => _ | None => _ end); [done|].
  destruct (ValidateYouTubeSnippet _ _); [done|].
  destruct (patch_PrivacyStatus patch) as [p|]; [|by injection H as <-]. cbv zeta in H.
  destruct (privacy_ok _) eqn:E; [|done]. injection H as <-. split; [done|]. intros E'. by rewrite E' in E.
Qed.
Lemma merged_values video patch :
  let '(title, description, category, _) := merged_snippet video patch in
  title = v_title (patched (view_of video) patch) ∧ description = v_description (patched (view_of video) patch) ∧
  (if bool_decide (category = "") then "22" else category) = v_category (patched (view_of video) patch).
Proof. done. Qed.
(** The two facts the guards of the update leave behind. *)
Lemma channel_guard video expected :
  negb (bool_decide (expected = "")) && negb (bool_decide (ChannelID video = "")) &&
    negb (bool_decide (ChannelID video = expected)) = false →
  expected ≠ "" → v_channel (view_of video) ≠ "" → v_channel (view_of video) = expected.
Proof.
  intros H H1 H2. change (v_channel (view_of video)) with (ChannelID video) in *.
  rewrite !bool_decide_eq_false_2 in H by done. simpl in H. by apply negb_false_iff, bool_decide_eq_true in H.
Qed.
Lemma changed_privacy video patch privacy :
  match patch_PrivacyStatus patch with Some p => privacy = ToLower (TrimSpace p) ∧ privacy ≠ "" | None => privacy = "" end →
  (if bool_decide (patch_PrivacyStatus patch ≠ None) &&
      negb (bool_decide (privacy = ToLower (TrimSpace (text_field (get_field video "status") "privacyStatus"))))
   then privacy else "") =
  match patch_PrivacyStatus patch with
  | Some p => let p := ToLower (TrimSpace p) in
              if bool_decide (p = ToLower (TrimSpace (v_privacy (view_of video)))) then "" else p
  | None => "" end.
Proof.
  destruct (patch_PrivacyStatus patch) as [p|]; [|done]. intros [-> _].
  rewrite bool_decide_eq_true_2 by done. simpl. by repeat case_bool_decide.
Qed.
(** An update that is accepted replaces what its body says. *)
Lemma metadata_update_step {A} v op what prefix url hs ms (res : A) er :
  read_json (marshal (JObj ms)) = Some (JObj ms) →
  triple (λ w, shown (st w) = v)
    (req ← wrapping prefix (NewRequest C "PUT" url hs (of_text (marshal (JObj ms))));
     resp ← send_api C op what req;
     if accepted [200; 204] resp then give res else fail (er resp))
    (λ r w, r = res ∧ shown (st w) = replaced v (JObj ms)) (λ _ _, True).
Proof.
  intros Hread.
  apply (client_bind _ _ _ (λ req w, (Method req = "PUT" ∧ payload req = of_text (marshal (JObj ms))) ∧ shown (st w) = v)).
  { by apply client_wrapping, client_NewRequest. }
  intros req. apply client_pure. intros [Hm Hp].
  apply (client_bind _ _ _ (λ r w, StatusCode r ∈ [200; 204] → shown (st w) = replaced v (JObj ms))).
  { apply client_send_api. intros w Hw. pose proof (update_replaces req (st w)) as H.
    destruct (Do C req (st w)) as [[e|r] x']; cbn [fst snd st] in *; [done|]. intros Hs. rewrite <- Hw.
    apply (H r); [done..|]. by rewrite Hp, text_of_text. }
  intros r. unfold accepted. case_bool_decide; [|by apply client_fail]. apply client_give. auto.
Qed.
End Site.


(** ** Retries *)
(** [UpsertLocalizations] gives its request to the client three times, and the body
    of it can be read once: a failure that may be retried is never made good. *)
Section Retry.
Context {S : Type} (C : Client S).
Notation requests := YouTubeResumableProps.requests.
Notation costs := YouTubeResumableProps.costs.
Lemma retry_loop_S n base fn left i last : retry_loop C n base fn (Datatypes.S left) i last =
  (done ← asks (ctx_Err C);
   match done with
   | Some er => fail er
   | None =>
       r ← attempt (fn i);
       match r with
       | inr _ => give tt
       | inl er =>
           if negb (retryableError er) then fail er
           else if bool_decide (i < n - 1)%nat then
             f ← on_st (rand C);
             w ← on_st (wait C (retry_delay base i f));
             match w with
             | Some cancelled => fail cancelled
             | None => retry_loop C n base fn left (Datatypes.S i) (Some er)
             end
           else retry_loop C n base fn left (Datatypes.S i) (Some er)
       end
   end).
Proof. reflexivity. Qed.
Lemma costs_retry_loop k n base fn left i last : 0 ≤ k → (∀ i, costs k (fn i)) →
  costs (Z.of_nat left * k) (retry_loop C n base fn left i last).
Proof.
  intros Hk Hfn. revert i last. induction left as [|left IH]; intros i last; cbn [retry_loop].
  { destruct last; by apply YouTubeResumableProps.costs_fail. }
  replace (Z.of_nat (Datatypes.S left) * k) with (0 + (k + Z.of_nat left * k)) by lia.
  apply YouTubeResumableProps.costs_bind; [nia|by apply YouTubeResumableProps.costs_pure|].
  intros [er|]; [apply YouTubeResumableProps.costs_fail; nia|].
  apply YouTubeResumableProps.costs_bind; [nia|apply YouTubeResumableProps.costs_attempt, Hfn|].
  intros [er|?]; [|apply YouTubeResumableProps.costs_give; nia].
  destruct (negb _); [apply YouTubeResumableProps.costs_fail; nia|]. case_bool_decide; [|apply IH].
  apply (YouTubeResumableProps.costs_bind 0 (Z.of_nat left * k)); [nia|by apply YouTubeResumableProps.costs_on_st|intros f].
  apply (YouTubeResumableProps.costs_bind 0 (Z.of_nat left * k)); [nia|by apply YouTubeResumableProps.costs_on_st|].
  intros [er'|]; [apply YouTubeResumableProps.costs_fail; nia|apply IH].
Qed.
(** Attempts that all fail without a request. *)
Lemma retry_hopeless n base fn left i last l :
  (∀ j, (0 < j)%nat → ∃ er, fn j = fail er) → (0 < i)%nat → last ≠ None →
  triple (λ w : World S, sent w = l) (retry_loop C n base fn left i last) (λ _ _, False) (λ _ w, sent w = l).
Proof.
  intros Hfn. revert i last. induction left as [|left IH]; intros i last Hi Hl; cbn [retry_loop].
  { destruct last; [by apply client_fail|done]. }
  apply (client_bind _ _ _ (λ _ w, sent w = l)); [by apply client_asks|].
  intros [er|]; [by apply client_fail|]. destruct (Hfn i Hi) as [er ->].
  apply (client_bind _ _ _ (λ r w, r = inl er ∧ sent w = l)); [by apply client_attempt, client_fail|].
  intros r. apply client_pure. intros ->. destruct (negb _); [by apply client_fail|].
  case_bool_decide; [|apply IH; [lia|done]].
  apply (client_bind _ _ _ (λ _ w, sent w = l)); [by apply client_on_st|intros f].
  apply (client_bind _ _ _ (λ _ w, sent w = l)); [by apply client_on_st|].
  intros [er'|]; [by apply client_fail|apply IH; [lia|done]].
Qed.
End Retry.

(** The first attempt decides. *)
Definition sent_once {S} (C : Client S) (w w' : World S) : Prop :=
  ∃ req resp, sent w' = sent w ++ [req] ∧ (Do C req (st w)).1 = inr resp ∧ StatusCode resp ∈ [200; 204].
Definition sent_at_most {S} (w w' : World S) : Prop := ∃ l, sent w' = sent w ++ l ∧ (length l ≤ 1)%nat.
Lemma sent_nothing {S} (w : World S) : sent_at_most w w.
Proof. exists []. rewrite app_nil_r. split; [done|simpl; lia]. Qed.
Lemma hopeless_at_most {S} (C : Client S) w n base fn left i last :
  (∀ j, (0 < j)%nat → ∃ er, fn j = fail er) → (0 < i)%nat → last ≠ None →
  triple (sent_at_most w) (retry_loop C n base fn left i last) (λ _ _, False) (λ _, sent_at_most w).
Proof.
  intros Hfn Hi Hl w' (l & Hs & Hn).
  pose proof (retry_hopeless C n base fn left i last (sent w') Hfn Hi Hl w' eq_refl) as H.
  destruct (retry_loop C n base fn left i last w') as [[er|?] w'']; [|done].
  exists l. by rewrite H.
Qed.
Lemma upsert_once {S} (C : Client S) (token videoID lang : string) (tr : YouTubeTranslation) (w : World S) :
  triple (λ w0, w0 = w) (UpsertLocalizations C token videoID lang tr) (λ _, sent_once C w) (λ _, sent_at_most w).
Proof.
  unfold UpsertLocalizations. destruct (ValidateYouTubeSnippet _ _); [apply client_fail; intros ? ->; apply sent_nothing|].
  apply (client_bind _ _ _ (λ _ w0, w0 = w)).
  { apply client_wrapping, client_NewRequest; [done|]. intros ? ? ->. apply sent_nothing. }
  intros req. unfold doWithRetry. rewrite retry_loop_S.
  apply (client_bind _ _ _ (λ _ w0, w0 = w)); [by apply client_asks|].
  intros [er|]; [apply client_fail; intros ? ->; apply sent_nothing|].
  apply (client_bind _ _ _ (λ r w', match r with inr _ => sent_once C w w' | inl _ => sent_at_most w w' end)).
  { apply client_attempt. cbn [bool_decide decide].
    apply (client_bind _ _ _ (λ resp w', sent w' = sent w ++ [req] ∧ (Do C req (st w)).1 = inr resp)).
    - apply client_send_api. intros w0 ->. destruct (Do C req (st w)) as [[er|r] x']; simpl; [|done].
      intros _. exists [req]. split; [done|simpl; lia].
    - intros resp. unfold accepted. case_bool_decide.
      + apply client_give. intros w' [H1 H2]. by exists req, resp.
      + apply client_fail. intros w' [H1 H2]. exists [req]. split; [done|simpl; lia]. }
  intros [er|?]; [|by apply client_give]. destruct (negb _); [by apply client_fail|].
  apply (client_bind _ _ _ (λ _, sent_at_most w)); [by apply client_on_st|intros f].
  apply (client_bind _ _ _ (λ _, sent_at_most w)); [by apply client_on_st|].
  intros [er'|]; [by apply client_fail|].
  eapply client_weaken; [intros w0 Hw0; exact Hw0|apply hopeless_at_most|intros ? ? []|intros ? ? Hw0; exact Hw0].
  - intros [|j] Hj; [lia|]. by eexists.
  - lia.
  - done.
Qed.
(** A localization is sent once.  Whatever the site does,
    [UpsertLocalizations] sends at most one request, and it succeeds only when that
    one is accepted: of the three attempts [doWithRetry] may make, the second and
    the third find the body of the request read, and end in an error. *)
Theorem upsert_localizations_sends_once {S} (C : Client S) (token videoID lang : string) (tr : YouTubeTranslation) (w : World S) :
  let '(r, w') := UpsertLocalizations C token videoID lang tr w in
  (∃ l, sent w' = sent w ++ l ∧ (length l ≤ 1)%nat) ∧
  (r = inr tt → ∃ req resp, sent w' = sent w ++ [req] ∧ (Do C req (st w)).1 = inr resp ∧ StatusCode resp ∈ [200; 204]).
Proof.
  pose proof (upsert_once C token videoID lang tr w w eq_refl) as H.
  destruct (UpsertLocalizations C token videoID lang tr w) as [[er|[]] w']; [by split|].
  split; [|done]. destruct H as (req & resp & H & _). exists [req]. split; [done|simpl; lia].
Qed.

(** ** A demonstration site *)
Module DemoSite.
(** [upsert_failures]: how many of the requests to come are refused with 503. *)
Record State := mkState { video : View; failures : nat }.
Definition video_tree (v : View) : json :=
  JObj [("items", JArr [JObj
    [("snippet", JObj [("title", JStr (v_title v)); ("description", JStr (v_description v));
        ("channelId", JStr (v_channel v)); ("categoryId", JStr (v_category v)); ("tags", JArr (JStr <$> v_tags v));
        ("defaultLanguage", JStr (v_language v)); ("defaultAudioLanguage", JStr (v_audio v))]);
     ("status", JObj [("privacyStatus", JStr (v_privacy v))])]])].
Definition answer (code : Z) (t : string) : Response := mkResponse code (-1) [] (of_text t) AtEOF.
Definition demo_Do (req : Request) (s : State) : (GoErr + Response) * State :=
  match failures s with
  | Datatypes.S n => (inr (answer 503 ""), mkState (video s) n)
  | O =>
      if bool_decide (Method req = "GET") then (inr (answer 200 (marshal (video_tree (video s)))), s)
      else if bool_decide (Method req = "PUT") then
        match read_json (text (payload req)) with
        | Some body => (inr (answer 200 ""), mkState (replaced (video s) body) O)
        | None => (inr (answer 400 ""), s)
        end
      else (inr (answer 204 ""), s)
  end.
Definition client : Client State :=
  mkClient State demo_Do (λ _, None) (λ _, None) (λ _ s, (None, s)) (λ s, (λ _, 0, s)) (λ _, 1700000000 * Second).
Lemma Decode_read t s j : read_json s = Some j → Decode t s = decode j t (zero_of t).
Proof.
  unfold read_json, Decode. destruct (read_value _ _ s) as [[v r]|]; [|done].
  case_bool_decide; [|done]. by intros [= ->].
Qed.
Lemma video_tree_readable v : read_json (marshal (video_tree v)) = Some (video_tree v).
Proof.
  pose proof (textual_strings (v_tags v)) as Ht. pose proof (height_strings (v_tags v)) as Hh.
  unfold video_tree. remember (JArr (JStr <$> v_tags v)) as tags eqn:E. clear E. apply read_json_marshal.
  - cbn [textual forallb snd andb]. by rewrite Ht.
  - unfold max_nesting. cbn [height foldr snd]. lia.
Qed.
Lemma decode_strings l : decode (JArr (JStr <$> l)) (GSlice GString) VNil = Some (VSlice (VString <$> l)).
Proof.
  cbn [decode]. assert (∀ olds, (fix go js olds := match js with [] => Some [] | j :: js =>
    v ← decode j GString (default (zero_of GString) (head olds)); vs ← go js (tail olds); Some (v :: vs) end)
    (JStr <$> l) olds = Some (VString <$> l)) as H; [|by rewrite H].
  induction l as [|x l IH]; intros olds; [done|]. cbn [fmap list_fmap]. cbn [decode mbind option_bind]. by rewrite IH.
Qed.
(** The decoder one member at a time. *)
Fixpoint decode_members (fs : list (string * GoType)) (ms : list (string * json)) (v : GoVal) : option GoVal :=
  match ms with
  | [] => Some v
  | (k, j) :: ms =>
      match find_field fs k with
      | None => decode_members fs ms v
      | Some (n, u) => x ← decode j u (get_field v n); decode_members fs ms (set_field v n x)
      end
  end.
Lemma decode_struct fs ms v : decode (JObj ms) (GStruct fs) v = decode_members fs ms v.
Proof. revert v. induction ms as [|[k j] ms IH]; intros v; [done|]. simpl. destruct (find_field fs k) as [[n u]|]; [|apply IH].
  destruct (decode j u (get_field v n)); [|done]. apply IH. Qed.
Lemma decode_member fs k j ms v n u x : find_field fs k = Some (n, u) → decode j u (get_field v n) = Some x →
  decode_members fs ((k, j) :: ms) v = decode_members fs ms (set_field v n x).
Proof. intros H1 H2. cbn [decode_members]. by rewrite H1, H2. Qed.
Lemma decode_one j u olds : decode (JArr [j]) (GSlice u) olds =
  (λ v, VSlice [v]) <$> decode j u (default (zero_of u) (head (match olds with VSlice l => l | _ => [] end))).
Proof. cbn [decode]. by destruct (decode j u _). Qed.
Lemma texts_of_strings l : texts_of (VSlice (VString <$> l)) = l.
Proof. simpl. induction l as [|x l IH]; [done|]. simpl. by f_equal. Qed.
Ltac members := repeat lazymatch goal with
  |- decode_members ?fs ((?k, ?j) :: ?ms) ?v = _ =>
    let r := eval vm_compute in (find_field fs k) in
    lazymatch r with Some (?n, ?u) =>
      erewrite (decode_member fs k j ms v n u); [|reflexivity|first [reflexivity|eassumption]] end
  end.
Lemma decode_video v : ∃ result x rest, decode (video_tree v) youtubeVideosResponse (zero_of youtubeVideosResponse) = Some result ∧
  items_of result = x :: rest ∧ view_of x = v.
Proof.
  pose proof (decode_strings (v_tags v)) as Ht. unfold video_tree.
  remember (JArr (JStr <$> v_tags v)) as tags eqn:E. clear E.
  set (snippet := JObj (("title", _) :: _)). 
  assert (∃ s, decode snippet youtubeVideoSnippet (zero_of youtubeVideoSnippet) = Some s ∧
    text_field s "title" = v_title v ∧ text_field s "description" = v_description v ∧ text_field s "channelId" = v_channel v ∧
    text_field s "categoryId" = v_category v ∧ get_field s "tags" = VSlice (VString <$> v_tags v) ∧
    text_field s "defaultLanguage" = v_language v ∧ text_field s "defaultAudioLanguage" = v_audio v) as (s & Hs & Hv).
  { subst snippet. unfold youtubeVideoSnippet at 1. rewrite decode_struct. eexists. split; [members; reflexivity|].
    split_and!; reflexivity. }
  assert (∃ x, decode (JObj [("snippet", snippet); ("status", JObj [("privacyStatus", JStr (v_privacy v))])]) youtubeVideo (zero_of youtubeVideo) = Some x ∧
    get_field x "snippet" = s ∧ text_field (get_field x "status") "privacyStatus" = v_privacy v) as (x & Hx & Hs' & Hp).
  { unfold youtubeVideo at 1. rewrite decode_struct. eexists. split; [members; reflexivity|].
    split; reflexivity. }
  do 3 eexists. split_and!.
  - unfold youtubeVideosResponse at 1. rewrite decode_struct.
    erewrite decode_member; [|vm_compute; reflexivity|].
    2: { rewrite decode_one. change (decode _ _ (default _ _)) with (decode (JObj [("snippet", snippet); ("status", JObj [("privacyStatus", JStr (v_privacy v))])]) youtubeVideo (zero_of youtubeVideo)).
         rewrite Hx. reflexivity. }
    reflexivity.
  - reflexivity.
  - unfold view_of, ChannelID. rewrite Hs', Hp. destruct Hv as (-> & -> & -> & -> & -> & -> & ->).
    rewrite texts_of_strings. by destruct v.
Qed.
Lemma replacing : ReplacingSite client (λ s, video s).
Proof.
  split.
  - intros req x r Hm. simpl. unfold demo_Do. destruct (failures x); [|intros [= <-]; simpl; lia].
    rewrite Hm. simpl. intros [= <-] _. cbn [Body answer]. rewrite text_of_text.
    rewrite (Decode_read _ _ _ (video_tree_readable (video x))).
    destruct (decode_video (video x)) as (result & y & rest & H1 & H2 & H3). by exists result, y, rest.
  - intros req x Hm. simpl. unfold demo_Do. destruct (failures x); [|done]. by rewrite Hm.
  - intros req x r body Hm. simpl. unfold demo_Do. destruct (failures x).
    + rewrite Hm. simpl. intros Hr Hs Hb. by rewrite Hb.
    + simpl. intros [= <-] Hs. simpl in Hs. set_solver.
Qed.
End DemoSite.
Import DemoSite.
Definition shown_video : View := mkView "old" "text" "10" ["a"; "b"] "it" "en" "private" "UC1".
Definition start (failures : nat) : World State := mkWorld (mkState shown_video failures) [].
Definition title_patch : YouTubeMetadataPatch := mkPatch (Some " new ") None None (Some "Unlisted").
(** The privacy update of a publication sends a snippet of its own: on such a
    site a title alone deletes the description, the tags and the languages. *)
Example privacy_update_deletes_tags :
  let '(r, w') := UpdateVideoPrivacy client "token" "v1" "public" None "new" "" (start 0) in
  r = inr tt ∧ video (st w') = mkView "new" "" "22" [] "" "" "public" "UC1".
Proof. vm_compute. done. Qed.
(** A scheduled publication: with tags it is refused after the thumbnail has been
    set; without them the visibility is made private. *)
Definition with_tags : YouTubePublishOptions := mkYouTubePublishOptions "new" "" ["a"] "" "" [].
Definition without_tags : YouTubePublishOptions := mkYouTubePublishOptions "new" "" [] "" "" [].
Definition publish (opts : YouTubePublishOptions) : (GoErr + string) * World State :=
  PublishThumbnail client "token" "v1" (of_text "png") "image/png" "public" (Some (1800000000 * Second)) opts (start 0).
Example scheduled_publication_with_tags :
  match (publish with_tags).1 with
  | inl er => Error er = "youtube publish thumbnail: update video failed: youtube update video: publishAt requires privacyStatus=private"
  | inr _ => False
  end ∧ map Method (sent (publish with_tags).2) = ["POST"] ∧
  (publish without_tags).1 = inr "https://www.youtube.com/watch?v=v1" ∧
  v_privacy (video (st (publish without_tags).2)) = "private".
Proof. vm_compute. done. Qed.
(** One refusal is enough: the thumbnail is retried, the localization is not. *)
Example localization_is_not_retried :
  match (UpsertLocalizations client "token" "v1" "it" (mkYouTubeTranslation "t" "d") (start 1)).1 with
  | inl er => as_youtube (default DJoin (head (chain er))) =
      Some (mkYouTubeAPIError 0 "network" "youtube upsert localizations it: request: http: ContentLength=66 with Body length 0")
  | inr _ => False
  end ∧
  (SetThumbnail client "token" "v1" "image/png" (of_text "png") 3 (start 0)).1 = inr tt ∧
  (doWithRetry client 3 Second (λ _, SetThumbnail client "token" "v1" "image/png" (of_text "png") 3) (start 2)).1 = inr tt.
Proof. vm_compute. done. Qed.
