(* ===== verification/PostsAPI.v ===== *)
(** * The HTTP handlers of posts

    [src/pkg/api/posts_*.go]: creating a post behind the idempotency gate,
    reading, listing, editing, publishing and retrying.  A handler is a
    computation over the tables it reaches that ends in a response; nothing is
    thrown.  Decoding of request bodies, SHA-256, the group store and the media
    store are arguments. *)

From S2P Require Import Prelude Codec Cursor Store PostModel PostStore PostReads Idempotency.
From Stdlib Require Import ZArith Lia.
Local Open Scope Z_scope.

(** ** The tables *)
Record ApiDB := mkApiDB { a_posts : PostDB; a_workspaces : WorkspaceDB; a_idem : IdemDB }.
Definition on_posts {A} : M PostDB A → M ApiDB A :=
  zoom a_posts (λ p s, mkApiDB p (a_workspaces s) (a_idem s)).
Definition on_workspaces {A} : M WorkspaceDB A → M ApiDB A :=
  zoom a_workspaces (λ w s, mkApiDB (a_posts s) w (a_idem s)).
Definition on_idem {A} : M IdemDB A → M ApiDB A :=
  zoom a_idem (λ i s, mkApiDB (a_posts s) (a_workspaces s) i).

(** ** Requests and responses *)
(** The principal that the middleware puts in the context. *)
Record Identity := mkIdentity { IsAPIKey : bool; id_UserID : Z; id_WorkspaceID : Z }.
Record Request := mkRequest {
  UserIDFromContext : option Z;
  IdentityFromContext : option Identity;
  URLParam_id : string;
  URLParam_wid : string;
  Query : Values;
  IdempotencyKeyHeader : string;
  RequestBody : string
}.
Inductive Body :=
| BError (message : string)
| BPost (p : Post)
| BCreated (p : Post) (targets : list NewTarget)
| BDriveImport (p : Post)
| BPosts (l : list Post)
| BPage (r : paginatedPostListResponse)
| BTargets (l : list PostTarget)
| BTarget (t : PostTarget) (privacyLevel : string) (madeForKids : bool)
| BAddedTarget (post account id : Z)
| BStatus (status : string)
| BRaw (payload : string)
(** The handler panicked; [net/http] drops the connection. *)
| BPanic.
Record Response := mkResponse { code : Z; body : Body }.
(* Source: pkg/api/router_helpers.go *)
(* 132-136 writeJSON *)
Definition writeJSON (status : Z) (data : Body) : M ApiDB Response := mret (mkResponse status data).
(* 138-140 writeError *)
Definition writeError (status : Z) (message : string) : M ApiDB Response :=
  writeJSON status (BError message).
(** The user a request acts for; [None] is answered with 401. *)
(* 41-59 requireUserID *)
Definition userID_of (req : Request) : option Z :=
  match UserIDFromContext req with
  | Some uid => if 0 <? uid then Some uid
                else match IdentityFromContext req with
                     | Some i => if 0 <? id_UserID i then Some (id_UserID i) else None
                     | None => None
                     end
  | None => match IdentityFromContext req with
            | Some i => if 0 <? id_UserID i then Some (id_UserID i) else None
            | None => None
            end
  end.
(* 41-60 requireUserID *)
Definition requireUserID (req : Request) (k : Z → M ApiDB Response) : M ApiDB Response :=
  match userID_of req with
  | Some uid => k uid
  | None => writeError 401 "missing user identity"
  end.
(* 66-71 apiKeyCanAccessWorkspace *)
Definition apiKeyCanAccessWorkspace (identity : option Identity) (workspaceID : Z) : bool :=
  match identity with
  | None => false
  | Some i => if workspaceID <=? 0 then false
              else negb (IsAPIKey i) || (id_WorkspaceID i =? workspaceID)
  end.

(* Source: pkg/api/posts_types.go *)
(* 19-34 CreatePostContent *)
Record CreatePostContent := mkContent {
  c_Title : string;
  c_Caption : string;
  c_Media : list string;
  c_Language : string;
  c_TranslationEnabled : option bool
}.
(* 36-43 CreatePostTarget *)
Record CreatePostTarget := mkCreateTarget { ct_PlatformAccountID : Z; ct_GroupID : Z }.
(* 45-57 CreatePostRequest *)
Record CreatePostRequest := mkCreateRequest {
  cr_WorkspaceID : Z;
  cr_Content : CreatePostContent;
  cr_ScheduledAt : option Z;
  cr_PublishAt : option Z;
  cr_Status : string;
  cr_Targets : list CreatePostTarget
}.
(* 59-64 CreatePostRequest.ResolvePublishAt *)
Definition ResolvePublishAt (r : CreatePostRequest) : option Z :=
  match cr_PublishAt r with Some t => Some t | None => cr_ScheduledAt r end.
(* 80-97 mapRepoError *)
Definition mapRepoError (er : err) : Z * string :=
  if errors_is er "ErrPostUnauthorized" then (403, err_text er)
  else if errors_is er "ErrPostNotFound" then (404, err_text er)
  else if errors_is er "ErrPostTargetNotFound" then (404, err_text er)
  else if errors_is er "ErrIdempotencyConflict" then (409, err_text er)
  else if errors_is er "ErrNoRows" then (404, "post not found")
  else (500, err_text er).
(* Source: pkg/api/posts_lifecycle.go *)
(* 19-25 SchedulePostRequest *)
Record SchedulePostRequest := mkScheduleRequest { sr_PublishAt : option Z; sr_ScheduledAt : Z }.
(* 31-36 SchedulePostRequest.ResolvePublishAt *)
Definition ResolveScheduleAt (r : SchedulePostRequest) : Z :=
  match sr_PublishAt r with
  | Some t => if t =? 0 then sr_ScheduledAt r else t
  | None => sr_ScheduledAt r
  end.
(* Source: pkg/api/posts_mutations.go *)
(* 40-45 handlePatchPost *)
Record PatchPostRequest := mkPatchRequest {
  pr_Title : string;
  pr_Caption : string;
  pr_Media : list string;
  pr_Status : string
}.
(* Source: pkg/api/workspaces_handlers.go *)
(* 28-39 mapWorkspaceError *)
Definition mapWorkspaceError (er : err) : Z * string :=
  if errors_is er "ErrWorkspaceNotFound" then (404, err_text er)
  else if errors_is er "ErrNoRows" then (404, "workspace not found")
  else (500, "failed to process workspace: " +:+ err_text er).

(** What the router is wired with. *)
Record GroupRow := mkGroup { g_ID : Z; g_WorkspaceID : Z }.
Record Router := mkRouter {
  postStore : bool;
  workspaceStore : bool;
  idempotencyStore : bool;
  PublishHorizonDays : Z;
  (** [groupStore], when there is one: a group by id, and its members. *)
  groupStore : option ((Z → err + option GroupRow) * (Z → err + list Z));
  (** [resolveFirstMediaURL]: the presigned URL of the first asset of the user. *)
  resolveFirstMediaURL : Z → list string → err + string;
  jsonb_text : string → option string;
  sha256 : string → string;
  (** The read limit and [json.Unmarshal] into the request structs. *)
  read_body : string → err + string;
  decode_create : string → err + CreatePostRequest;
  decode_schedule : string → err + SchedulePostRequest;
  decode_patch : string → err + PatchPostRequest;
  decode_add_target : string → err + Z
}.

(** ** Pure steps of the handlers *)
(* Source: pkg/api/limits.go *)
(* 109-114 publishHorizonDays *)
Definition publishHorizonDays (r : Router) : Z :=
  if PublishHorizonDays r <=? 0 then 30 else PublishHorizonDays r.
(* Source: pkg/api/request_body.go *)
(* 49-55 idempotencyHash *)
Definition idempotencyHash (r : Router) (bodyBytes : string) : string :=
  if bool_decide (bodyBytes = "") then "" else sha256 r bodyBytes.
Definition bad_target (i : nat) (text : string) : err :=
  errors_new ("targets[" +:+ itoa (Z.of_nat i) +:+ "]" +:+ text).
(** The checks on the decoded request: the status and the message of a refusal. *)
(* Source: pkg/api/posts_create.go *)
(* 62-73 decodeCreatePostRequest *)
Fixpoint check_targets (i : nat) (l : list CreatePostTarget) : option (Z * string) :=
  match l with
  | [] => None
  | t :: l' =>
      if (ct_PlatformAccountID t <=? 0) && (ct_GroupID t <=? 0) then
        Some (422, err_text (bad_target i ".platform_account_id is required"))
      else if (0 <? ct_PlatformAccountID t) && (0 <? ct_GroupID t) then
        Some (422, err_text (bad_target i " cannot contain both platform_account_id and group_id"))
      else check_targets (S i) l'
  end.
(* 38-73 decodeCreatePostRequest *)
Definition check_create_request (body : CreatePostRequest) : option (Z * string) :=
  if cr_WorkspaceID body =? 0 then Some (422, "workspace_id is required")
  else if negb (bool_decide (cr_Status body = "")) && negb (IsValid (cr_Status body)) then
    Some (400, "status must be one of: draft, queued")
  else match (if bool_decide (c_Language (cr_Content body) = "") then None
              else CheckBCP47Like "content.language" (c_Language (cr_Content body))) with
       | Some er => Some (422, err_text er)
       | None =>
           if bool_decide (cr_Targets body = []) then Some (422, "at least one target is required")
           else check_targets 0 (cr_Targets body)
       end.
Definition too_large : err := errors_new "http: request body too large".
(** The body and its bytes, or the refusal. *)
(* 24-75 decodeCreatePostRequest *)
Definition decodeCreatePostRequest (r : Router) (req : Request) :
    (Z * string) + (CreatePostRequest * string) :=
  match read_body r (RequestBody req) with
  | inl er => inl (if bool_decide (er = too_large)
                   then (413, "request body exceeds 1048576 bytes")
                   else (400, "request body unreadable: " +:+ err_text er))
  | inr bytes =>
      match decode_create r bytes with
      | inl er => inl (400, "invalid request body: " +:+ err_text er)
      | inr body => match check_create_request body with
                    | Some refusal => inl refusal
                    | None => inr (body, bytes)
                    end
      end
  end.
(** Accounts in the order of their first mention; members of a group that are no
    accounts are skipped. *)
Definition add_account (resolved : list Z) (a : Z) : list Z :=
  if bool_decide (a ∈ resolved) then resolved else resolved ++ [a].
(* 272-315 expandCreatePostTargets *)
Fixpoint expand_loop (r : Router) (workspaceID : Z) (i : nat) (inputs : list CreatePostTarget)
    (resolved : list Z) : err + list Z :=
  match inputs with
  | [] => inr resolved
  | input :: inputs' =>
      if 0 <? ct_PlatformAccountID input then
        expand_loop r workspaceID (S i) inputs' (add_account resolved (ct_PlatformAccountID input))
      else match groupStore r with
      | None => inl (bad_target i ".group_id cannot be resolved: groups are not configured")
      | Some (find, members) =>
          match find (ct_GroupID input) with
          | inl er => inl (wrap (err_text (bad_target i ".group_id lookup failed")) er)
          | inr None => inl (bad_target i ".group_id is not available in this workspace")
          | inr (Some group) =>
              if negb (g_WorkspaceID group =? workspaceID) then
                inl (bad_target i ".group_id is not available in this workspace")
              else match members (g_ID group) with
              | inl er => inl (wrap (err_text (bad_target i ".group_id members lookup failed")) er)
              | inr [] => inl (bad_target i ".group_id has no channels")
              | inr accountIDs =>
                  expand_loop r workspaceID (S i) inputs'
                    (foldl (λ l a, if a <=? 0 then l else add_account l a) resolved accountIDs)
              end
          end
      end
  end.
(* 272-315 expandCreatePostTargets *)
Definition expandCreatePostTargets (r : Router) (workspaceID : Z) (inputs : list CreatePostTarget) :
    err + list Z :=
  match expand_loop r workspaceID 0 inputs [] with
  | inr [] => inl (errors_new "target group expansion produced no channels")
  | res => res
  end.
(** The metadata the request carries for the worker. *)
(* 231-245 createPostPersist *)
Definition create_metadata (content : CreatePostContent) : string :=
  let lang := TrimSpace (c_Language content) in
  let fields :=
    (if bool_decide (lang = "") then [] else [("source_language", json_string lang)]) ++
    match c_TranslationEnabled content with
    | None => []
    | Some b => [("translation_enabled", if b then "true" else "false")]
    end in
  if bool_decide (fields = []) then "" else json_object fields.
(* 214-224 createPostPersist *)
Definition new_post (workspaceID : Z) (content : CreatePostContent) (mediaURL : string)
    (publishAt : option Z) (status : string) : Post :=
  mkPost 0 workspaceID (c_Title content) (c_Caption content) mediaURL None None None "" "" None 0
    publishAt status None (create_metadata content) 0 0 0.
(** The publish time and the initial status, or the message of a refusal. *)
(* 155-181 resolveCreatePostSchedule *)
Definition resolveCreatePostSchedule (r : Router) (now : Z) (body : CreatePostRequest) :
    string + (option Z * string) :=
  let publishAt := ResolvePublishAt body in
  let days := publishHorizonDays r in
  let late := match publishAt with
              | Some t => now + wrap64 (days * 24 * Hour) <? t
              | None => false
              end in
  if late then
    inl ("publish_at must be within " +:+ itoa days +:+ " days from now (PUBLISH_HORIZON_DAYS)")
  else inr (publishAt,
            if negb (bool_decide (cr_Status body = "")) then cr_Status body
            else if bool_decide (is_Some publishAt) then PostStatusQueued else PostStatusDraft).
(** The post an edit sends to the repository: the fields the handlers copy. *)
(* Source: pkg/api/posts_mutations.go *)
(* 50-60 handlePatchPost *)
Definition edit_of (id : Z) (existing : Post) : Post :=
  mkPost id (post_WorkspaceID existing) (post_Title existing) (post_Caption existing)
    (post_MediaURL existing) None None None "" "" None 0 (post_PublishAt existing)
    (post_Status existing) None "" (post_Version existing) 0 0.
Definition with_texts (title caption : string) (media : option string) (p : Post) : Post :=
  let or a b := if bool_decide (a = "") then b else a in
  mkPost (post_ID p) (post_WorkspaceID p) (or title (post_Title p)) (or caption (post_Caption p))
    (default (post_MediaURL p) media) (post_MediaAssetID p) (post_StorageObjectKey p) (post_Bucket p)
    (post_PrivacyLevel p) (post_DefaultPrivacyLevel p) (post_UploadJobID p) (post_IngestAfter p)
    (post_PublishAt p) (post_Status p) (post_IdempotencyKey p) (post_Metadata p) (post_Version p)
    (post_CreatedAt p) (post_UpdatedAt p).
Definition with_publish_at (t : Z) (p : Post) : Post :=
  mkPost (post_ID p) (post_WorkspaceID p) (post_Title p) (post_Caption p) (post_MediaURL p)
    (post_MediaAssetID p) (post_StorageObjectKey p) (post_Bucket p) (post_PrivacyLevel p)
    (post_DefaultPrivacyLevel p) (post_UploadJobID p) (post_IngestAfter p) (Some t) (post_Status p)
    (post_IdempotencyKey p) (post_Metadata p) (post_Version p) (post_CreatedAt p) (post_UpdatedAt p).
(* Source: pkg/api/posts_targets.go *)
(* 256-264 handleGetSinglePostTarget *)
Definition made_for_kids (metadata : string) : bool :=
  match read_json metadata with
  | Some (JObj ms) =>
      let flags := (List.filter (λ kv, bool_decide (ToLower kv.1 = "made_for_kids")) ms).*2 in
      if existsb (λ v, match v with JBool _ | JNull => false | _ => true end) flags then false
      else match last (List.filter (λ v, match v with JNull => false | _ => true end) flags) with
           | Some (JBool b) => b
           | _ => false
           end
  | _ => false
  end.

(** ** The handlers *)
Section Handlers.
Context (r : Router).
Notation H := (M ApiDB Response).

Definition need_posts (k : H) : H :=
  if postStore r then k else writeError 501 "posts not configured on this server".
Definition need_workspaces (k : H) : H :=
  if workspaceStore r then k else writeError 501 "workspaces not configured on this server".
(** [strconv.ParseInt(chi.URLParam(req, "id"), 10, 64)]. *)
Definition with_id (what : string) (req : Request) (k : Z → H) : H :=
  match ParseInt (URLParam_id req) with
  | (id, None) => k id
  | (_, Some e) =>
      writeError 400 ("invalid " +:+ what +:+ " id: " +:+
                        err_text (num_error "ParseInt" (URLParam_id req) e))
  end.
(** [code, msg := mapRepoError(err); writeError(w, code, prefix+msg)]. *)
Definition repo_error (prefix : string) (er : err) : H :=
  let '(code, msg) := mapRepoError er in writeError code (prefix +:+ msg).
Definition reply_unless {A} (prefix : string) (m : M PostDB A) (k : A → H) : H :=
  x ← try (on_posts m);
  match x with inl er => repo_error prefix er | inr a => k a end.

(* Source: pkg/api/posts_shared.go *)
(* 44-50 postWorkspaceOwnedByUser *)
Definition postWorkspaceOwnedByUser (post : Post) (userID : Z) : M ApiDB bool :=
  if workspaceStore r then
    x ← try (on_workspaces (FindWorkspaceByID (post_WorkspaceID post)));
    mret match x with inr (Some ws) => ws_OwnerID ws =? userID | _ => false end
  else mret false.

(* Source: pkg/api/posts_read.go *)
(* 19-52 handleGetPost *)
Definition handleGetPost (req : Request) : H :=
  need_posts $ need_workspaces $ requireUserID req $ λ userID,
  with_id "post" req $ λ id,
  reply_unless "failed to get post: " (FindByID id) $ λ p,
  match p with
  | None => writeError 404 "post not found"
  | Some p =>
      owned ← postWorkspaceOwnedByUser p userID;
      if negb owned then writeError 404 "post not found" else writeJSON 200 (BPost p)
  end.
(** The post repository has the page methods, so the fallback of the list
    handlers is never taken. *)
(* 54-109 handleListByWorkspace *)
Definition handleListByWorkspace (req : Request) : H :=
  need_posts $
  match ParseInt (URLParam_wid req) with
  | (_, Some e) =>
      writeError 400 ("invalid workspace id: " +:+
                        err_text (num_error "ParseInt" (URLParam_wid req) e))
  | (wid, None) =>
      if wid <=? 0 then writeJSON 0 BPanic
      else if bool_decide (Get (Query req) "cursor" = "") && bool_decide (Get (Query req) "limit" = "")
      then reply_unless "failed to list posts: " (ListByWorkspace wid) $ λ l, writeJSON 200 (BPosts l)
      else
        let cursorContext := "workspace_id=" +:+ itoa wid in
        match parsePostListPage (Query req) cursorContext with
        | inl er => writeError 400 (err_text er)
        | inr (limit, after) =>
            reply_unless "failed to list posts: " (ListByWorkspacePage wid after limit) $ λ page,
            writeJSON 200 (BPage (postListResponse page.1 page.2 cursorContext))
        end
  end.
(** A workspace whose listing fails is left out. *)
(* 194-200 handleListPosts *)
Fixpoint list_all (wss : list Workspace) : M ApiDB (list Post) :=
  match wss with
  | [] => mret []
  | ws :: wss' =>
      x ← try (on_posts (ListByWorkspace (ws_ID ws)));
      rest ← list_all wss';
      mret (match x with inr l => l ++ rest | inl _ => rest end)
  end.
(** A failure of the pages of this handler is a 500 with the bare text. *)
Definition page_or_500 (m : M PostDB (list Post * bool)) (cursorContext : string) : H :=
  x ← try (on_posts m);
  match x with
  | inl er => writeError 500 ("failed to list posts: " +:+ err_text er)
  | inr page => writeJSON 200 (BPage (postListResponse page.1 page.2 cursorContext))
  end.
(* 111-240 handleListPosts *)
Definition handleListPosts (req : Request) : H :=
  need_posts $ need_workspaces $ requireUserID req $ λ userID,
  let q := Query req in
  let unpaged := bool_decide (Get q "cursor" = "") && bool_decide (Get q "limit" = "") in
  let wsIDStr := Get q "workspace_id" in
  if negb (bool_decide (wsIDStr = "")) then
    match ParseInt wsIDStr with
    | (_, Some _) => writeError 400 "invalid workspace_id"
    | (wid, None) =>
        x ← try (on_workspaces (FindWorkspaceByID wid));
        if match x with inr (Some ws) => negb (ws_OwnerID ws =? userID) | _ => true end then
          writeError 403 "workspace not owned by this user"
        else if unpaged then
          l ← try (on_posts (ListByWorkspace wid));
          match l with
          | inl er => writeError 500 ("failed to list posts: " +:+ err_text er)
          | inr l => writeJSON 200 (BPosts l)
          end
        else
          let cursorContext := listCursorFilterContext q ["workspace_id"] in
          match parsePostListPage q cursorContext with
          | inl er => writeError 400 (err_text er)
          | inr (limit, after) => page_or_500 (ListByWorkspacePage wid after limit) cursorContext
          end
    end
  else
    x ← try (on_workspaces (ListByOwner userID));
    match x with
    | inl er => writeError 500 ("failed to list workspaces: " +:+ err_text er)
    | inr wss =>
        let workspaceIDs :=
          sort_by Z.leb (List.filter (λ id, 0 <? id) (ws_ID <$> wss)) in
        if unpaged then all ← list_all wss; writeJSON 200 (BPosts all)
        else
          let cursorContext := "workspaces=" +:+ joinInt64List workspaceIDs in
          match parsePostListPage q cursorContext with
          | inl er => writeError 400 (err_text er)
          | inr (limit, after) =>
              page_or_500 (ListByWorkspacesPage workspaceIDs after limit) cursorContext
          end
    end.

(** *** Creating *)
(* Source: pkg/api/posts_create.go *)
(* 84-107 lookupCreatePostWorkspace *)
Definition lookupCreatePostWorkspace (req : Request) (userID workspaceID : Z)
    (k : Workspace → H) : H :=
  if match IdentityFromContext req with
     | Some i => IsAPIKey i && negb (apiKeyCanAccessWorkspace (Some i) workspaceID)
     | None => false
     end then writeError 404 "workspace not found"
  else
    x ← try (on_workspaces (FindWorkspaceByID workspaceID));
    match x with
    | inl er => let '(code, msg) := mapWorkspaceError er in
                writeError code ("workspace lookup: " +:+ msg)
    | inr None => writeError 404 "workspace not found"
    | inr (Some ws) =>
        if negb (ws_OwnerID ws =? userID) then writeError 403 "workspace not owned by this user"
        else k ws
    end.
(* Source: pkg/api/idempotency.go *)
(* 163-238 replayIdempotentResource *)
Definition replayIdempotentResource (rec : IdempotencyRecord) (cachedStatus : Z) :
    M ApiDB (err + Response) :=
  let id := rec_ResourceID rec in
  let failed t := mret (inl t) in
  let fetch (kind : string) (render : Post → Body) :=
    if negb (postStore r) then failed (errors_new "post store not configured")
    else
      x ← try (on_posts (FindByID id));
      match x with
      | inl er => failed (wrap ("replay fetch " +:+ kind +:+ " " +:+ itoa id) er)
      | inr None => failed (errors_new ("cached " +:+ kind +:+ " " +:+ itoa id +:+ " no longer exists"))
      | inr (Some post) => mret (inr (mkResponse cachedStatus (render post)))
      end in
  if bool_decide (rec_ResourceType rec = "post") then fetch "post" BPost
  else if bool_decide (rec_ResourceType rec = "drive_import") then
    fetch "drive_import post" BDriveImport
  else if bool_decide (rec_ResourceType rec = idempotencyResourceTypeDriveBatch) then
    if negb (idempotencyStore r) then
      failed (errors_new "idempotency store not configured for batch replay")
    else
      x ← try (on_idem (FindBatchReplay (rec_ID rec)));
      match x with
      | inl er => failed (wrap ("replay fetch batch side row for record " +:+ itoa (rec_ID rec)) er)
      | inr None => failed (errors_new ("cached drive_batch response missing for record " +:+
                                          itoa (rec_ID rec)))
      | inr (Some side) => mret (inr (mkResponse cachedStatus (BRaw (br_ResponsePayload side))))
      end
  else failed (errors_new ("unknown resource_type for replay: " +:+ quote (rec_ResourceType rec))).
(** [strings.Contains]. *)
Fixpoint Contains (s sub : string) : bool :=
  bool_decide (is_Some (string_prefix_drop sub s)) ||
  match s with "" => false | String _ s' => Contains s' sub end.
(* Source: pkg/api/posts_create.go *)
(* 113-142 applyCreatePostIdempotency *)
Definition applyCreatePostIdempotency (req : Request) (wsID : Z) (hash : string)
    (k : string → H) : H :=
  let idemKey := TrimSpace (IdempotencyKeyHeader req) in
  x ← try (on_idem (idempotencyLookup (idempotencyStore r) wsID idemKey hash "post"));
  match x with
  | inl er =>
      if Contains (err_text er) "exceeds" then writeError 400 (err_text er)
      else writeError 500 ("idempotency lookup: " +:+ err_text er)
  | inr (idempotencyConflict, _) => writeError 409 "idempotency_key_conflict"
  | inr (idempotencyReplay, Some rec) =>
      y ← replayIdempotentResource rec (rec_ResponseStatus rec);
      match y with
      | inl er => writeError 500 ("idempotency replay: " +:+ err_text er)
      | inr response => mret response
      end
  | inr (idempotencyReplay, None) => writeJSON 0 BPanic
  | inr (idempotencyContinue, _) => k idemKey
  end.
(* 187-265 createPostPersist *)
Definition createPostPersist (userID : Z) (ws : Workspace) (body : CreatePostRequest)
    (publishAt : option Z) (status idemKey hash : string) : H :=
  match expandCreatePostTargets r (cr_WorkspaceID body) (cr_Targets body) with
  | inl er => writeError 422 (err_text er)
  | inr resolvedTargets =>
      match resolveFirstMediaURL r userID (c_Media (cr_Content body)) with
      | inl er => writeError 422 (err_text er)
      | inr mediaURL =>
          let post := new_post (cr_WorkspaceID body) (cr_Content body) mediaURL publishAt status in
          let targets := (λ a, mkNewTarget 0 0 a PostStatusQueued) <$> resolvedTargets in
          reply_unless "failed to create post: " (Create post targets) $ λ created,
          _ ← on_idem (insertIdempotentRecord (idempotencyStore r) (ws_ID ws) idemKey "post"
                         (post_ID created.1) hash 201);
          writeJSON 201 (BCreated created.1 created.2)
      end
  end.
(* Source: pkg/api/posts_handlers.go *)
(* 9-57 handleCreatePost *)
Definition handleCreatePost (req : Request) : H :=
  need_posts $ need_workspaces $ requireUserID req $ λ userID,
  match decodeCreatePostRequest r req with
  | inl (code, msg) => writeError code msg
  | inr (body, bodyBytes) =>
      let hash := idempotencyHash r bodyBytes in
      lookupCreatePostWorkspace req userID (cr_WorkspaceID body) $ λ ws,
      applyCreatePostIdempotency req (ws_ID ws) hash $ λ idemKey,
      env ← ask;
      match resolveCreatePostSchedule r (app_now env) body with
      | inl msg => writeError 422 msg
      | inr (publishAt, status) => createPostPersist userID ws body publishAt status idemKey hash
      end
  end.

(** *** Editing *)
(* Source: pkg/api/posts_mutations.go *)
(* 13-89 handlePatchPost *)
Definition handlePatchPost (req : Request) : H :=
  need_posts $ need_workspaces $ requireUserID req $ λ userID,
  with_id "post" req $ λ id,
  x ← try (on_posts (FindByID id));
  match x with
  | inr (Some existing) =>
      owned ← postWorkspaceOwnedByUser existing userID;
      if negb owned then writeError 404 "post not found"
      else match decode_patch r (RequestBody req) with
      | inl er => writeError 400 ("invalid request body: " +:+ err_text er)
      | inr body =>
          match (if bool_decide (pr_Media body = []) then inr None
                 else match resolveFirstMediaURL r userID (pr_Media body) with
                      | inl er => inl er | inr u => inr (Some u) end) with
          | inl er => writeError 422 (err_text er)
          | inr media =>
              let s := pr_Status body in
              if negb (bool_decide (s = "")) && negb (IsValid s) then
                writeError 400 ("invalid status: " +:+ s)
              else
                let post := with_texts (pr_Title body) (pr_Caption body) media (edit_of id existing) in
                let post := if bool_decide (s = "") then post else set_post_status s post in
                reply_unless "failed to update post: " (Update post) $ λ _,
                writeJSON 200 (BPost post)
          end
      end
  | _ => writeError 404 "post not found"
  end.
(* 91-107 handleDeletePost *)
Definition handleDeletePost (req : Request) : H :=
  need_posts $ with_id "post" req $ λ id,
  reply_unless "failed to delete post: " (Delete id) $ λ _, writeJSON 200 (BStatus "deleted").

(** *** Lifecycle *)
(** A post that is missing or cannot be read. *)
Definition existing_or (x : err + option Post) (k : Post → H) : H :=
  match x with
  | inl er => repo_error "" er
  | inr None => writeError 404 "post not found"
  | inr (Some p) => k p
  end.
(* Source: pkg/api/posts_lifecycle.go *)
(* 40-87 handleSchedulePost *)
Definition handleSchedulePost (req : Request) : H :=
  need_posts $ with_id "post" req $ λ id,
  match decode_schedule r (RequestBody req) with
  | inl er => writeError 400 ("invalid request body: " +:+ err_text er)
  | inr body =>
      let publishAt := ResolveScheduleAt body in
      if publishAt =? 0 then writeError 400 "publish_at (or scheduled_at alias) is required"
      else
        x ← try (on_posts (FindByID id));
        existing_or x $ λ existing,
        let post := set_post_status PostStatusQueued (with_publish_at publishAt (edit_of id existing)) in
        reply_unless "failed to schedule: " (Update post) $ λ _, writeJSON 200 (BPost post)
  end.
(* 91-125 handlePublishPostID *)
Definition handlePublishPostID (req : Request) : H :=
  need_posts $ need_workspaces $ requireUserID req $ λ userID,
  with_id "post" req $ λ id,
  x ← try (on_posts (FindByID id));
  match x with
  | inr (Some post) =>
      y ← try (on_workspaces (FindWorkspaceByID (post_WorkspaceID post)));
      match y with
      | inr (Some ws) =>
          if negb (ws_OwnerID ws =? userID) ||
             negb (apiKeyCanAccessWorkspace (IdentityFromContext req) (post_WorkspaceID post))
          then writeError 404 "post not found"
          else reply_unless "failed to publish post: " (PublishPost id) $ λ _,
               writeJSON 200 (BStatus "publishing")
      | _ => writeError 404 "post not found"
      end
  | _ => writeError 404 "post not found"
  end.
(* 129-145 handleCancelPost *)
Definition handleCancelPost (req : Request) : H :=
  need_posts $ with_id "post" req $ λ id,
  reply_unless "failed to cancel post: " (CancelPost id) $ λ _, writeJSON 200 (BStatus "draft").
(* 149-165 handleRetryPost *)
Definition handleRetryPost (req : Request) : H :=
  need_posts $ with_id "post" req $ λ id,
  reply_unless "failed to retry post: " (RetryPost id) $ λ _, writeJSON 200 (BStatus "queued").

(** *** Targets *)
(* Source: pkg/api/posts_targets.go *)
(* 20-61 handleAddTarget *)
Definition handleAddTarget (req : Request) : H :=
  need_posts $ with_id "post" req $ λ id,
  match decode_add_target r (RequestBody req) with
  | inl er => writeError 400 ("invalid request body: " +:+ err_text er)
  | inr account =>
      if account =? 0 then writeError 400 "platform_account_id is required"
      else
        x ← try (on_posts (FindByID id));
        existing_or x $ λ _,
        reply_unless "failed to add target: " (SaveTarget id account PostStatusQueued) $ λ tid,
        writeJSON 201 (BAddedTarget id account tid)
  end.
(** The owner of the workspace of a post, checked the way the target handlers
    do. *)
Definition owner_or_404 (what : string) (post : Post) (userID : Z) (k : H) : H :=
  y ← try (on_workspaces (FindWorkspaceByID (post_WorkspaceID post)));
  match y with
  | inr (Some ws) => if negb (ws_OwnerID ws =? userID) then writeError 404 (what +:+ " not found") else k
  | _ => writeError 404 (what +:+ " not found")
  end.
(* 79-120 handleGetPostTargets *)
Definition handleGetPostTargets (req : Request) : H :=
  need_posts $ need_workspaces $ requireUserID req $ λ userID,
  with_id "post" req $ λ id,
  x ← try (on_posts (FindByID id));
  match x with
  | inr (Some post) =>
      owner_or_404 "post" post userID $
      reply_unless "failed to list post_targets: " (ListByPost id) $ λ l, writeJSON 200 (BTargets l)
  | _ => writeError 404 "post not found"
  end.
(* 206-270 handleGetSinglePostTarget *)
Definition handleGetSinglePostTarget (req : Request) : H :=
  need_posts $ need_workspaces $ requireUserID req $ λ userID,
  with_id "target" req $ λ id,
  reply_unless "failed to get post_target: " (FindTargetByID id) $ λ t,
  match t with
  | None => writeError 404 "post_target not found"
  | Some t =>
      x ← try (on_posts (FindByID (PostID t)));
      match x with
      | inr (Some post) =>
          owner_or_404 "post_target" post userID $
          writeJSON 200 (BTarget t (post_PrivacyLevel post)
            (negb (bool_decide (post_Metadata post = "")) && made_for_kids (post_Metadata post)))
      | _ => writeError 404 "post_target not found"
      end
  end.
(* 274-290 handleRetryTarget *)
Definition handleRetryTarget (req : Request) : H :=
  need_posts $ with_id "target" req $ λ id,
  reply_unless "failed to retry target: " (RetryTarget id) $ λ _, writeJSON 200 (BStatus "queued").
End Handlers.
