(* ===== verification/PostsAPIProps.v ===== *)
(** * Properties of the handlers of posts

    Who may see and change what, that creating is idempotent within a day, that
    the pages of a list enumerate it, and what an edit does to the media of a
    post. *)

From S2P Require Import Prelude Codec Cursor Store PostModel PostStore PostReads Idempotency PostsAPI.
From Stdlib Require Import ZArith Lia.
Local Open Scope Z_scope.

(** ** Running a handler *)
Lemma put_posts (s : ApiDB) : mkApiDB (a_posts s) (a_workspaces s) (a_idem s) = s.
Proof. by destruct s. Qed.
(** One read of a table, whatever the driver does. *)
Lemma try_posts_read {A} op (f : PostDB → A) e s n :
  ∃ x, try (on_posts (exec op (λ _ db, (f db, db)))) e (s, n) = (inr x, (s, S n)) ∧
       (x = inl (db_err op) ∨ x = inr (f (a_posts s))).
Proof.
  unfold try, on_posts, zoom, exec. simpl. destruct (fault e n); simpl; rewrite put_posts; eauto.
Qed.
Lemma try_workspaces_read {A} op (f : WorkspaceDB → A) e s n :
  ∃ x, try (on_workspaces (exec op (λ _ db, (f db, db)))) e (s, n) = (inr x, (s, S n)) ∧
       (x = inl (db_err op) ∨ x = inr (f (a_workspaces s))).
Proof.
  unfold try, on_workspaces, zoom, exec. simpl.
  destruct (fault e n); simpl; rewrite put_posts; eauto.
Qed.
Lemma find_post_run id e s n : reliable e →
  try (on_posts (FindByID id)) e (s, n) =
    (inr (inr (selected_post <$> posts (a_posts s) !! id)), (s, S n)).
Proof.
  intros Hrel. unfold try, on_posts, zoom, FindByID, FindByIDForWorkspace.
  rewrite exec_fine by done. cbn. rewrite put_posts. by destruct (posts (a_posts s) !! id).
Qed.
Lemma find_workspace_run id e s n : reliable e →
  try (on_workspaces (FindWorkspaceByID id)) e (s, n) = (inr (inr (a_workspaces s !! id)), (s, S n)).
Proof.
  intros Hrel. unfold try, on_workspaces, zoom, FindWorkspaceByID.
  rewrite exec_fine by done. cbn. by rewrite put_posts.
Qed.
Lemma bind_step {S A B} (m : M S A) (k : A → M S B) e w a w1 :
  m e w = (inr a, w1) → (m ≫= k) e w = k a e w1.
Proof. unfold mbind, M_bind. by intros ->. Qed.

(** ** Tenant isolation *)
(** A refusal: an error response, and nothing was written. *)
Definition refuses (h : M ApiDB Response) (e : Env) (s : ApiDB) (n : nat) : Prop :=
  state_of (h e (s, n)) = s ∧
  ∃ c msg, result_of (h e (s, n)) = inr (mkResponse c (BError msg)) ∧ 400 ≤ c.
(** No workspace of that id belongs to the user. *)
Definition foreign (s : ApiDB) (u wid : Z) : Prop :=
  ∀ w, a_workspaces s !! wid = Some w → ws_OwnerID w ≠ u.

Lemma refuses_error c msg e s n : 400 ≤ c → refuses (writeError c msg) e s n.
Proof. intros H. split; [done|]. by exists c, msg. Qed.
Lemma refuses_step {A} (m : M ApiDB A) k e s n a n1 :
  m e (s, n) = (inr a, (s, n1)) → refuses (k a) e s n1 → refuses (m ≫= k) e s n.
Proof. intros H Hk. unfold refuses. by rewrite (bind_step _ _ _ _ _ _ H). Qed.
Lemma repo_error_is prefix er : ∃ c msg, repo_error prefix er = writeError c msg ∧ 400 ≤ c.
Proof.
  unfold repo_error, mapRepoError.
  repeat (destruct (errors_is _ _); [by eexists _, _|]). by eexists _, _.
Qed.
Lemma refuses_repo_error prefix er e s n : refuses (repo_error prefix er) e s n.
Proof. destruct (repo_error_is prefix er) as (c & msg & -> & Hc). by apply refuses_error. Qed.
Lemma refuses_posts_read {A} op (f : PostDB → A) k e s n :
  (∀ x n', x = inl (db_err op) ∨ x = inr (f (a_posts s)) → refuses (k x) e s n') →
  refuses (x ← try (on_posts (exec op (λ _ db, (f db, db)))); k x) e s n.
Proof.
  intros H. destruct (try_posts_read op f e s n) as (x & Hx & Hc).
  eapply refuses_step; [exact Hx|by apply H].
Qed.
Lemma refuses_workspaces_read {A} op (f : WorkspaceDB → A) k e s n :
  (∀ x n', x = inl (db_err op) ∨ x = inr (f (a_workspaces s)) → refuses (k x) e s n') →
  refuses (x ← try (on_workspaces (exec op (λ _ db, (f db, db)))); k x) e s n.
Proof.
  intros H. destruct (try_workspaces_read op f e s n) as (x & Hx & Hc).
  eapply refuses_step; [exact Hx|by apply H].
Qed.
Lemma find_by_id_some id p db :
  posts db !! id = Some p →
  (selected_post <$> (p ← posts db !! id;
     if (0 =? 0) || (post_WorkspaceID p =? 0) then Some p else None)) = Some (selected_post p).
Proof. by intros ->. Qed.

Section Isolation.
Context (r : Router) (req : Request) (u : Z) (e : Env) (s : ApiDB).
Context (Hu : userID_of req = Some u).

Lemma refuses_need_posts h n : refuses h e s n → refuses (need_posts r h) e s n.
Proof. intros H. unfold need_posts. destruct (postStore r); [done|by apply refuses_error]. Qed.
Lemma refuses_need_workspaces h n : refuses h e s n → refuses (need_workspaces r h) e s n.
Proof. intros H. unfold need_workspaces. destruct (workspaceStore r); [done|by apply refuses_error]. Qed.
Lemma refuses_user k n : refuses (k u) e s n → refuses (requireUserID req k) e s n.
Proof using Hu. unfold requireUserID. by rewrite Hu. Qed.
Lemma refuses_id what id k n :
  ParseInt (URLParam_id req) = (id, None) → refuses (k id) e s n → refuses (with_id what req k) e s n.
Proof. unfold with_id. by intros ->. Qed.
(** The two ownership checks. *)
Lemma refuses_not_owned p k n c msg : foreign s u (post_WorkspaceID p) → 400 ≤ c →
  refuses (owned ← postWorkspaceOwnedByUser r p u;
           if negb owned then writeError c msg else k) e s n.
Proof.
  intros Hf Hc. unfold postWorkspaceOwnedByUser. destruct (workspaceStore r).
  - destruct (try_workspaces_read "failed to find workspace by id"
      (λ db : WorkspaceDB, db !! post_WorkspaceID p) e s n) as (x & Hx & Hxc).
    eapply refuses_step with (a := false) (n1 := S n); [|by apply refuses_error].
    unfold FindWorkspaceByID. rewrite (bind_step _ _ _ _ _ _ Hx).
    destruct Hxc as [->| ->]; [done|].
    destruct (a_workspaces s !! post_WorkspaceID p) as [w|] eqn:E; [|done].
    specialize (Hf w E). by replace (ws_OwnerID w =? u) with false by lia.
  - by eapply refuses_step; [done|apply refuses_error].
Qed.
Lemma refuses_owner_or_404 what p k n : foreign s u (post_WorkspaceID p) →
  refuses (owner_or_404 what p u k) e s n.
Proof.
  intros Hf. unfold owner_or_404, FindWorkspaceByID. apply refuses_workspaces_read.
  intros x n' [->| ->]; [by apply refuses_error|].
  destruct (a_workspaces s !! post_WorkspaceID p) as [w|] eqn:E; [|by apply refuses_error].
  specialize (Hf w E). replace (ws_OwnerID w =? u) with false by lia. by apply refuses_error.
Qed.
Lemma refuses_find id p k n :
  posts (a_posts s) !! id = Some p →
  (∀ er n', refuses (k (inl er)) e s n') → (∀ n', refuses (k (inr (Some (selected_post p)))) e s n') →
  refuses (x ← try (on_posts (FindByID id)); k x) e s n.
Proof.
  intros Hp H1 H2. unfold FindByID, FindByIDForWorkspace. apply refuses_posts_read.
  intros x n' [->| ->]; [done|]. by rewrite (find_by_id_some _ _ _ Hp).
Qed.
End Isolation.

(** C4: the guarded handlers keep tenants apart: for a caller who does not own the
    workspace, under any faults of the database, reading, editing, publishing a
    post and reading its targets or one target end in an error response and
    change nothing; so do creating a post in, and listing the posts of, such a
    workspace. *)
Theorem tenant_isolation (r : Router) (req : Request) (u : Z) (e : Env) (s : ApiDB) (n : nat)
    (Hu : userID_of req = Some u) :
  (∀ id p, ParseInt (URLParam_id req) = (id, None) → posts (a_posts s) !! id = Some p →
     foreign s u (post_WorkspaceID p) →
     Forall (λ h, refuses (h r req) e s n)
       [handleGetPost; handlePatchPost; handlePublishPostID; handleGetPostTargets]) ∧
  (∀ id t p, ParseInt (URLParam_id req) = (id, None) → targets (a_posts s) !! id = Some t →
     posts (a_posts s) !! t_post t = Some p → foreign s u (post_WorkspaceID p) →
     refuses (handleGetSinglePostTarget r req) e s n) ∧
  (∀ body bytes, decodeCreatePostRequest r req = inr (body, bytes) →
     foreign s u (cr_WorkspaceID body) → refuses (handleCreatePost r req) e s n) ∧
  (∀ wid, Get (Query req) "workspace_id" ≠ "" → ParseInt (Get (Query req) "workspace_id") = (wid, None) →
     foreign s u wid → refuses (handleListPosts r req) e s n).
Proof.
  split_and!.
  - intros id p Hid Hp Hf. repeat apply Forall_cons_2; [..|apply Forall_nil_2];
      apply refuses_need_posts, refuses_need_workspaces, (refuses_user req u _ _ Hu),
        (refuses_id _ _ _ _ id _ _ Hid).
    + unfold reply_unless. apply (refuses_find _ _ _ p); [done|intros; apply refuses_repo_error|].
      intros n'. by apply refuses_not_owned.
    + apply (refuses_find _ _ _ p); [done|intros; by apply refuses_error|].
      intros n'. by apply refuses_not_owned.
    + apply (refuses_find _ _ _ p); [done|intros; by apply refuses_error|]. intros n'.
      apply refuses_workspaces_read. intros x n1 [->| ->]; [by apply refuses_error|].
      cbn [post_WorkspaceID selected_post].
      destruct (a_workspaces s !! post_WorkspaceID p) as [w|] eqn:E; [|by apply refuses_error].
      specialize (Hf w E). replace (ws_OwnerID w =? u) with false by lia. by apply refuses_error.
    + apply (refuses_find _ _ _ p); [done|intros; by apply refuses_error|].
      intros n'. by apply refuses_owner_or_404.
  - intros id t p Hid Ht Hp Hf.
    apply refuses_need_posts, refuses_need_workspaces, (refuses_user req u _ _ Hu),
        (refuses_id _ _ _ _ id _ _ Hid).
    unfold reply_unless, FindTargetByID. apply refuses_posts_read.
    intros x n' [->| ->]; [apply refuses_repo_error|]. rewrite Ht.
    apply (refuses_find _ _ _ p); [done|intros; by apply refuses_error|].
    intros n1. by apply refuses_owner_or_404.
  - intros body bytes Hb Hf.
    apply refuses_need_posts, refuses_need_workspaces, (refuses_user req u _ _ Hu).
    rewrite Hb. unfold lookupCreatePostWorkspace. case_match; [by apply refuses_error|].
    apply refuses_workspaces_read. intros x n1 [->| ->].
    + unfold mapWorkspaceError. repeat case_match; simplify_eq/=; by apply refuses_error.
    + destruct (a_workspaces s !! cr_WorkspaceID body) as [w|] eqn:E; [|by apply refuses_error].
      specialize (Hf w E). replace (ws_OwnerID w =? u) with false by lia. by apply refuses_error.
  - intros wid Hne Hwid Hf.
    apply refuses_need_posts, refuses_need_workspaces, (refuses_user req u _ _ Hu).
    cbv zeta. rewrite bool_decide_eq_false_2 by done. cbn [negb]. rewrite Hwid.
    apply refuses_workspaces_read. intros x n1 [->| ->]; [by apply refuses_error|].
    destruct (a_workspaces s !! wid) as [w|] eqn:E; [|by apply refuses_error].
    specialize (Hf w E). replace (ws_OwnerID w =? u) with false by lia. by apply refuses_error.
Qed.

(** ** Handlers without a check *)
Definition as_caller (uid : option Z) (i : option Identity) (req : Request) : Request :=
  mkRequest uid i (URLParam_id req) (URLParam_wid req) (Query req) (IdempotencyKeyHeader req)
    (RequestBody req).
Lemma reply_unless_run {A} prefix (m : M PostDB A) k e s n a p n' :
  m e (a_posts s, n) = (inr a, (p, n')) →
  reply_unless prefix m k e (s, n) = k a e (mkApiDB p (a_workspaces s) (a_idem s), n').
Proof.
  intros H. unfold reply_unless.
  rewrite (bind_step _ _ _ _ (inr a) (mkApiDB p (a_workspaces s) (a_idem s), n')); [done|].
  unfold try, on_posts. by erewrite (zoom_run a_posts) by exact H.
Qed.
(** Deleting, cancelling, retrying and scheduling a post, adding and retrying
    a target and listing a workspace do not look at the caller: the handlers give
    the same computation for every principal.  So against a database that
    answers, anybody's DELETE of an existing post succeeds and takes its targets
    with it, and anybody lists every post of a workspace. *)
Theorem unguarded_handlers_ignore_caller (r : Router) (req : Request) (uid : option Z)
    (i : option Identity) (e : Env) (s : ApiDB) (n : nat) (id : Z) (p : Post)
    (Hrel : reliable e) (Hstore : postStore r = true)
    (Hid : ParseInt (URLParam_id req) = (id, None))
    (Hp : posts (a_posts s) !! id = Some p) :
  Forall (λ h, h r (as_caller uid i req) = h r req)
    [handleDeletePost; handleCancelPost; handleRetryPost; handleSchedulePost; handleAddTarget;
     handleRetryTarget; handleListByWorkspace] ∧
  (let w := handleDeletePost r (as_caller uid i req) e (s, n) in
   result_of w = inr (mkResponse 200 (BStatus "deleted")) ∧
   posts (a_posts (state_of w)) !! id = None ∧
   ∀ t row, targets (a_posts (state_of w)) !! t = Some row → t_post row ≠ id) ∧
  (ParseInt (URLParam_wid req) = (post_WorkspaceID p, None) → 0 < post_WorkspaceID p →
   Get (Query req) "cursor" = "" → Get (Query req) "limit" = "" →
   ∃ l, result_of (handleListByWorkspace r (as_caller uid i req) e (s, n)) =
          inr (mkResponse 200 (BPosts l)) ∧
        set_metadata (post_Metadata p) (selected_post p) ∈ l).
Proof.
  split_and!.
  - repeat constructor.
  - unfold handleDeletePost, need_posts, with_id. rewrite Hstore. cbn [URLParam_id as_caller].
    rewrite Hid. cbv zeta.
    erewrite reply_unless_run by (by apply exec_fine). cbn. split_and!; [done|apply lookup_delete_eq|].
    intros t row (_ & Hne)%map_lookup_filter_Some. exact Hne.
  - intros Hw Hpos Hc Hl. unfold handleListByWorkspace, need_posts. rewrite Hstore.
    cbn [URLParam_wid as_caller Query]. rewrite Hw. cbv beta iota.
    replace (post_WorkspaceID p <=? 0) with false by lia.
    rewrite Hc, Hl. rewrite bool_decide_eq_true_2 by done. cbn [andb].
    erewrite reply_unless_run by (by apply exec_fine). cbn [fst snd].
    eexists. split; [done|]. apply list_elem_of_fmap. exists p. split; [done|].
    apply posts_of_elem. split; [set_solver|eauto].
Qed.

(** ** Editing *)
Lemma update_run post q db e n : reliable e →
  posts db !! post_ID post = Some q → post_WorkspaceID q = post_WorkspaceID post →
  post_Status post ∈ post_status_labels →
  Update post e (db, n) =
    (inr tt, (with_posts (<[post_ID post := edited_post post q]> (posts db)) db, S (S n))).
Proof.
  intros Hrel Hq Hw Hs. unfold Update, exec_status. cbn [forallb].
  rewrite bool_decide_eq_true_2 by done. cbn [andb].
  rewrite (bind_step _ _ _ _ 1%nat (with_posts (<[post_ID post := edited_post post q]> (posts db)) db, S n)).
  2:{ rewrite exec_fine by done. unfold qUpdatePost.
      rewrite (update_row_hit _ _ _ _ q Hq) by lia. done. }
  unfold map_err. rewrite (bind_step _ _ _ _ 1%nat (with_posts
    (<[post_ID post := edited_post post q]> (posts db)) db, S (S n))).
  - by rewrite bool_decide_eq_false_2.
  - by rewrite rows_fine.
Qed.
(** An edit of a post by its owner that names neither media nor a status is
    stored, and besides the title and the caption it also rewrites what it does
    not mention: the media asset, the storage object and the bucket of the post
    are dropped and both privacy columns are emptied; every other column keeps
    its value. *)
Theorem patch_detaches_media (r : Router) (req : Request) (e : Env) (s : ApiDB) (n : nat)
    (u id : Z) (p : Post) (ws : Workspace) (b : PatchPostRequest)
    (Hrel : reliable e) (Hps : postStore r = true) (Hws : workspaceStore r = true)
    (Hu : userID_of req = Some u) (Hid : ParseInt (URLParam_id req) = (id, None))
    (Hp : posts (a_posts s) !! id = Some p) (Hpid : post_ID p = id)
    (Hst : post_Status p ∈ post_status_labels)
    (Hw : a_workspaces s !! post_WorkspaceID p = Some ws) (Ho : ws_OwnerID ws = u)
    (Hd : decode_patch r (RequestBody req) = inr b) (Hm : pr_Media b = []) (Hs : pr_Status b = "") :
  let or a c := if bool_decide (a = "") then c else a in
  let w := handlePatchPost r req e (s, n) in
  code <$> (match result_of w with inr x => Some x | inl _ => None end) = Some 200 ∧
  posts (a_posts (state_of w)) = <[id :=
    mkPost id (post_WorkspaceID p) (or (pr_Title b) (post_Title p)) (or (pr_Caption b) (post_Caption p))
      (post_MediaURL p) None None None "" "" (post_UploadJobID p) (post_IngestAfter p)
      (post_PublishAt p) (post_Status p) (post_IdempotencyKey p) (post_Metadata p) (post_Version p)
      (post_CreatedAt p) (post_UpdatedAt p)]> (posts (a_posts s)).
Proof.
  intros or w. subst w. unfold handlePatchPost, need_posts, need_workspaces, requireUserID, with_id.
  rewrite Hps, Hws, Hu, Hid.
  rewrite (bind_step _ _ _ _ _ _ (find_post_run id e s n Hrel)), Hp. cbn [fmap option_fmap option_map].
  rewrite (bind_step _ _ _ _ true (s, S (S n))).
  2:{ unfold postWorkspaceOwnedByUser. rewrite Hws.
      rewrite (bind_step _ _ _ _ _ _ (find_workspace_run _ e s (S n) Hrel)).
      cbn [post_WorkspaceID selected_post]. rewrite Hw, Ho, Z.eqb_refl. done. }
  cbn [negb]. rewrite Hd, Hm, Hs, !bool_decide_eq_true_2 by done. cbn [negb andb].
  set (post := with_texts _ _ _ _).
  erewrite reply_unless_run; [|apply (update_run post p); [done|exact Hp|done|done]].
  split; [done|]. cbn. f_equal. unfold edited_post. by rewrite Hpid.
Qed.

(** ** The targets of a new post *)
(** What a target of the request stands for. *)
Definition names (r : Router) (wid : Z) (input : CreatePostTarget) (a : Z) : Prop :=
  0 < a ∧
  (ct_PlatformAccountID input = a ∨
   ct_PlatformAccountID input ≤ 0 ∧ ∃ find members g l, groupStore r = Some (find, members) ∧
     find (ct_GroupID input) = inr (Some g) ∧ g_WorkspaceID g = wid ∧ members (g_ID g) = inr l ∧ a ∈ l).
Lemma add_account_spec l a : NoDup l → NoDup (add_account l a) ∧ ∀ b, b ∈ add_account l a ↔ b ∈ l ∨ b = a.
Proof.
  intros Hl. unfold add_account. case_bool_decide as Ha.
  - split; [done|]. intros b. split; [by left|]. intros [?| ->]; done.
  - split.
    + apply NoDup_app. split_and!; [done| |apply NoDup_singleton].
      intros x Hx ->%list_elem_of_singleton. done.
    + intros b. by rewrite elem_of_app, list_elem_of_singleton.
Qed.
Lemma add_members_spec l0 l : NoDup l →
  let l' := foldl (λ l a, if a <=? 0 then l else add_account l a) l l0 in
  NoDup l' ∧ ∀ b, b ∈ l' ↔ b ∈ l ∨ (b ∈ l0 ∧ 0 < b).
Proof.
  revert l. induction l0 as [|a l0 IH]; intros l Hl; cbn [foldl].
  { split; [done|]. intros b. set_solver. }
  destruct (Z.leb_spec a 0) as [Ha|Ha].
  - destruct (IH l Hl) as [H1 H2]. split; [done|]. intros b. rewrite H2, elem_of_cons. naive_solver lia.
  - destruct (add_account_spec l a Hl) as [H1 H2]. destruct (IH _ H1) as [H3 H4]. split; [done|].
    intros b. rewrite H4, H2, elem_of_cons. naive_solver lia.
Qed.
Lemma expand_loop_spec r wid i inputs l l' : NoDup l →
  expand_loop r wid i inputs l = inr l' →
  NoDup l' ∧ ∀ a, a ∈ l' ↔ a ∈ l ∨ ∃ input, input ∈ inputs ∧ names r wid input a.
Proof.
  revert i l. induction inputs as [|x inputs IH]; intros i l Hl H; cbn [expand_loop] in H.
  { injection H as <-. split; [done|]. intros a. set_solver. }
  destruct (Z.ltb_spec 0 (ct_PlatformAccountID x)) as [Hx|Hx].
  - destruct (add_account_spec l (ct_PlatformAccountID x) Hl) as [H1 H2].
    destruct (IH _ _ H1 H) as [H3 H4]. split; [done|]. intros a. rewrite H4, H2.
    setoid_rewrite elem_of_cons. unfold names. split.
    + intros [[?| ->]|(y & ? & ?)]; [by left|right; exists x; split; [by left|]; eauto|].
      right. exists y. eauto.
    + intros [?|(y & [-> |?] & Hy)]; [by left; left| |right; eauto].
      left. right. destruct Hy as [_ [?|[? _]]]; [done|lia].
  - destruct (groupStore r) as [[find members]|] eqn:Eg; [|done].
    destruct (find (ct_GroupID x)) as [?|[g|]] eqn:Ef; [done| |done].
    destruct (Z.eqb_spec (g_WorkspaceID g) wid) as [Hg|]; [|done]. cbn [negb] in H.
    destruct (members (g_ID g)) as [?|m] eqn:Em; [done|].
    assert (expand_loop r wid (S i) inputs
      (foldl (λ l a, if a <=? 0 then l else add_account l a) l m) = inr l') as H' by (by destruct m).
    destruct (add_members_spec m l Hl) as [H1 H2]. destruct (IH _ _ H1 H') as [H3 H4].
    split; [done|]. intros a. rewrite H4, H2. setoid_rewrite elem_of_cons. unfold names. split.
    + intros [[?|[? ?]]|(y & ? & ?)]; [by left| |right; eauto].
      right. exists x. split; [by left|]. split; [done|]. right. split; [lia|].
      exists find, members, g, m. done.
    + intros [?|(y & [-> |?] & Hy)]; [by left; left| |right; eauto].
      left. right. destruct Hy as [Hpos [?|[_ (f & ms & g' & m' & E1 & E2 & _ & E3 & Hin)]]]; [lia|].
      rewrite Eg in E1. injection E1 as <- <-. rewrite Ef in E2. injection E2 as <-.
      rewrite Em in E3. injection E3 as <-. done.
Qed.
(** The accounts a new post fans out to are exactly the ones its targets name,
    each once: a positive account listed directly, or a positive member of a listed
    group of the same workspace; there is at least one, and a group of another
    workspace is refused.  Whether an account belongs to the caller is not asked. *)
Theorem expandCreatePostTargets_spec (r : Router) (wid : Z) (inputs : list CreatePostTarget) :
  (∀ l, expandCreatePostTargets r wid inputs = inr l →
     NoDup l ∧ l ≠ [] ∧ ∀ a, a ∈ l ↔ ∃ input, input ∈ inputs ∧ names r wid input a) ∧
  (∀ input find members g, input ∈ inputs → ct_PlatformAccountID input ≤ 0 →
     groupStore r = Some (find, members) → find (ct_GroupID input) = inr (Some g) →
     g_WorkspaceID g ≠ wid → ∃ er, expandCreatePostTargets r wid inputs = inl er) ∧
  (∀ a, 0 < a → expandCreatePostTargets r wid [mkCreateTarget a 0] = inr [a]).
Proof.
  split_and!.
  - intros l. unfold expandCreatePostTargets.
    destruct (expand_loop r wid 0 inputs []) as [er|l'] eqn:E; [done|]. intros H.
    assert (l' = l ∧ l ≠ []) as [-> Hne] by (destruct l'; naive_solver).
    apply expand_loop_spec in E as [Hn Hin]; [|constructor]. split_and!; [done..|].
    intros a. rewrite Hin. set_solver.
  - intros x find members g Hx Hneg Hg Hf Hw. unfold expandCreatePostTargets.
    assert (∀ i l, ∃ er, expand_loop r wid i inputs l = inl er) as H; [|destruct (H 0%nat []) as [er ->]; eauto].
    induction inputs as [|y inputs IH]; [by apply elem_of_nil in Hx|]. intros i l.
    cbn [expand_loop]. apply elem_of_cons in Hx as [-> |Hx].
    + replace (0 <? ct_PlatformAccountID y) with false by lia. rewrite Hg, Hf.
      replace (g_WorkspaceID g =? wid) with false by lia. by eexists.
    + repeat case_match; eauto.
  - intros a Ha. unfold expandCreatePostTargets. cbn [expand_loop ct_PlatformAccountID].
    by replace (0 <? a) with true by lia.
Qed.

(** ** Idempotent creation *)
(** Ids are the keys of the table, they come from the sequence, and a workspace
    has a key once. *)
Definition records_ok (db : IdemDB) : Prop :=
  (∀ i rec, records db !! i = Some rec → i ≤ record_serial db) ∧
  (∀ i j rec rec', records db !! i = Some rec → records db !! j = Some rec' →
     rec_WorkspaceID rec = rec_WorkspaceID rec' →
     rec_IdempotencyKey rec = rec_IdempotencyKey rec' → i = j).
Lemma at_key_true w k rec :
  at_key w k rec = true ↔ rec_WorkspaceID rec = w ∧ rec_IdempotencyKey rec = k.
Proof. unfold at_key. rewrite andb_true_iff, Z.eqb_eq, bool_decide_eq_true. done. Qed.
Lemma find_record_some p db rec :
  find_record p db = Some rec → p rec = true ∧ ∃ i, records db !! i = Some rec.
Proof.
  unfold find_record. intros H. destruct (List.filter _ _) as [|x l] eqn:E; [done|].
  injection H as ->. assert (rec ∈ List.filter p (map_to_list (records db)).*2) as Hin
    by (rewrite E; by left).
  apply list_elem_of_In, filter_In in Hin as [Hin Hp]. apply list_elem_of_In in Hin.
  apply list_elem_of_fmap in Hin as ([i x] & -> & Hin%elem_of_map_to_list). eauto.
Qed.
Lemma find_record_none p db :
  find_record p db = None ↔ ∀ i rec, records db !! i = Some rec → p rec = false.
Proof.
  split.
  - intros H i rec Hi. apply not_true_iff_false. intros Hp. unfold find_record in H.
    assert (rec ∈ List.filter p (map_to_list (records db)).*2) as Hin.
    { apply list_elem_of_In, filter_In. split; [|done]. apply list_elem_of_In, list_elem_of_fmap.
      exists (i, rec). split; [done|]. by apply elem_of_map_to_list. }
    destruct (List.filter _ _); [by apply elem_of_nil in Hin|done].
  - intros H. destruct (find_record p db) as [rec|] eqn:E; [|done].
    apply find_record_some in E as (Hp & i & Hi). by rewrite (H _ _ Hi) in Hp.
Qed.
Lemma find_record_key (q : IdempotencyRecord → bool) w k db i rec :
  records_ok db → records db !! i = Some rec → at_key w k rec = true → q rec = true →
  find_record (λ x, at_key w k x && q x) db = Some rec.
Proof.
  intros [_ Hu] Hi Hk Hq. destruct (find_record _ db) as [rec'|] eqn:E.
  - apply find_record_some in E as ([Hk' _]%andb_true_iff & j & Hj).
    apply at_key_true in Hk as [??], Hk' as [??].
    assert (i = j) as -> by (eapply Hu; eauto; congruence). congruence.
  - rewrite find_record_none in E. specialize (E _ _ Hi). cbn in E. by rewrite Hk, Hq in E.
Qed.

Section Creation.
Context (r : Router) (e : Env) (Hrel : reliable e).

Lemma lookup_run wid k hash s n : 0 < wid → k ≠ "" →
  Z.of_nat (String.length k) ≤ idempotencyKeyMaxLen → String.length hash = 32%nat →
  idempotencyStore r = true →
  try (on_idem (idempotencyLookup (idempotencyStore r) wid k hash "post")) e (s, n) =
    (inr (inr match find_record (λ x, at_key wid k x && (app_now e <? rec_ExpiresAt x)) (a_idem s) with
              | None => (idempotencyContinue, None)
              | Some rec =>
                  if negb (bool_decide (rec_RequestHash rec = hash)) then (idempotencyConflict, None)
                  else if negb (bool_decide (rec_ResourceType rec = "post")) then
                    (idempotencyConflict, None)
                  else (idempotencyReplay, Some rec)
              end), (s, S n)).
Proof using Hrel.
  intros Hw Hk Hlen Hh ->. unfold try, on_idem, zoom, idempotencyLookup. cbn [negb].
  replace (wid <=? 0) with false by lia. rewrite (bool_decide_eq_false_2 (k = "")) by done.
  cbn [orb]. replace (idempotencyKeyMaxLen <? Z.of_nat (String.length k)) with false by lia.
  rewrite Hh. cbn [Z.of_nat negb]. change (Z.of_nat 32 =? 32) with true. cbn [negb].
  unfold FindActiveByKey. rewrite (bool_decide_eq_false_2 (k = "")) by done.
  unfold ask, map_err, mbind, M_bind. cbn [fst snd]. rewrite exec_fine by done.
  cbn. by rewrite put_posts.
Qed.

Lemma lookup_reads wid k hash s n : ∃ x n',
  try (on_idem (idempotencyLookup (idempotencyStore r) wid k hash "post")) e (s, n) =
    (inr x, (s, n')).
Proof using Hrel.
  unfold try, on_idem, zoom, idempotencyLookup. cbn [fst snd].
  repeat (destruct (_ : bool); [eexists _, _; cbn; by rewrite put_posts|]).
  unfold FindActiveByKey, ask, map_err, mbind, M_bind. cbn [fst snd].
  destruct (bool_decide (k = "")); [eexists _, _; cbn; by rewrite put_posts|].
  rewrite exec_fine by done. eexists _, _. cbn. by rewrite put_posts.
Qed.
(** A replay reads, and never answers the way a creation does. *)
Lemma replay_reads rec c s n : ∃ x n',
  replayIdempotentResource r rec c e (s, n) = (inr x, (s, n')) ∧
  ∀ c' p ts, x ≠ inr (mkResponse c' (BCreated p ts)).
Proof using Hrel.
  unfold replayIdempotentResource.
  assert (∀ er, ∃ x n', (mret (inl er) : M ApiDB (err + Response)) e (s, n) = (inr x, (s, n')) ∧
    ∀ c' p ts, x ≠ inr (mkResponse c' (BCreated p ts))) as Hfail by (intros er; by eexists _, _).
  assert (∀ kind render, (∀ p p' ts, render p ≠ BCreated p' ts) → ∃ x n',
    (x ← try (on_posts (FindByID (rec_ResourceID rec)));
     match x with
     | inl er => mret (inl (wrap ("replay fetch " +:+ kind +:+ " " +:+ itoa (rec_ResourceID rec)) er))
     | inr None => mret (inl (errors_new ("cached " +:+ kind +:+ " " +:+ itoa (rec_ResourceID rec) +:+
                                            " no longer exists")))
     | inr (Some post) => mret (inr (mkResponse c (render post)))
     end) e (s, n) = (inr x, (s, n')) ∧
    ∀ c' p ts, x ≠ inr (mkResponse c' (BCreated p ts))) as Hfetch.
  { intros kind render Hr. rewrite (bind_step _ _ _ _ _ _ (find_post_run _ e s n Hrel)).
    destruct (posts (a_posts s) !! rec_ResourceID rec) as [q|]; eexists _, _; split; try done.
    intros c' p ts [= _ H]. by eapply Hr. }
  cbv zeta. destruct (bool_decide _).
  { destruct (negb _); [apply Hfail|]. by apply (Hfetch "post"). }
  destruct (bool_decide _).
  { destruct (negb _); [apply Hfail|]. by apply (Hfetch "drive_import post"). }
  destruct (bool_decide _); [|apply Hfail]. destruct (negb _); [apply Hfail|].
  assert (∃ y n', try (on_idem (FindBatchReplay (rec_ID rec))) e (s, n) = (inr y, (s, n'))) as
    (y & n' & Hy).
  { unfold try, on_idem, zoom, FindBatchReplay. cbn [fst snd].
    destruct (rec_ID rec <=? 0); [eexists _, _; cbn; by rewrite put_posts|].
    rewrite exec_fine by done. eexists _, _. cbn. by rewrite put_posts. }
  rewrite (bind_step _ _ _ _ _ _ Hy). destruct y as [?|[side|]]; eexists _, _; by split.
Qed.

(** What a creation that answered 201 did. *)
Lemma handleCreatePost_inv req s n p ts w : handleCreatePost r req e (s, n) =
    (inr (mkResponse 201 (BCreated p ts)), w) →
  ∃ u body bytes ws ps n1 n2 n3,
    userID_of req = Some u ∧ decodeCreatePostRequest r req = inr (body, bytes) ∧
    (match IdentityFromContext req with
     | Some i => IsAPIKey i && negb (apiKeyCanAccessWorkspace (Some i) (cr_WorkspaceID body))
     | None => false end) = false ∧
    a_workspaces s !! cr_WorkspaceID body = Some ws ∧ ws_OwnerID ws = u ∧
    postStore r = true ∧ workspaceStore r = true ∧
    w.1 = mkApiDB ps (a_workspaces s)
            (state_of (insertIdempotentRecord (idempotencyStore r) (ws_ID ws)
               (TrimSpace (IdempotencyKeyHeader req)) "post" (post_ID p)
               (idempotencyHash r bytes) 201 e (a_idem s, n1))) ∧
    (∃ post l, Create post l e (a_posts s, n2) = (inr (p, ts), (ps, n3))).
Proof using Hrel.
  unfold handleCreatePost, need_posts, need_workspaces, requireUserID.
  destruct (postStore r) eqn:Hps; [|done]. destruct (workspaceStore r) eqn:Hws; [|done].
  destruct (userID_of req) as [u|] eqn:Hu; [|done].
  destruct (decodeCreatePostRequest r req) as [[c m]|[body bytes]] eqn:Hd; [done|].
  unfold lookupCreatePostWorkspace.
  destruct (match IdentityFromContext req with
     | Some i => IsAPIKey i && negb (apiKeyCanAccessWorkspace (Some i) (cr_WorkspaceID body))
     | None => false end) eqn:Hb; [done|].
  rewrite (bind_step _ _ _ _ _ _ (find_workspace_run _ e s n Hrel)).
  destruct (a_workspaces s !! cr_WorkspaceID body) as [ws|] eqn:Hw; [|done].
  destruct (Z.eqb_spec (ws_OwnerID ws) u) as [Ho|]; [|done]. cbn [negb].
  unfold applyCreatePostIdempotency. cbv zeta.
  set (key := TrimSpace (IdempotencyKeyHeader req)). set (hash := idempotencyHash r bytes).
  destruct (lookup_reads (ws_ID ws) key hash s (S n)) as (x & n2 & Hx).
  rewrite (bind_step _ _ _ _ _ _ Hx).
  destruct x as [er|[[] rec]].
  { destruct (Contains _ _); done. }
  2:{ destruct rec as [rec|]; [|done].
      destruct (replay_reads rec (rec_ResponseStatus rec) s n2) as (y & n3 & Hy & Hne).
      rewrite (bind_step _ _ _ _ _ _ Hy). destruct y as [er|resp]; [done|].
      intros [= -> _]. by destruct (Hne 201 p ts). }
  2:{ done. }
  rewrite (bind_step _ _ _ _ e (s, n2) eq_refl).
  destruct (resolveCreatePostSchedule _ _ _) as [msg|[publishAt status]]; [done|].
  unfold createPostPersist.
  destruct (expandCreatePostTargets _ _ _) as [er|l]; [done|].
  destruct (resolveFirstMediaURL _ _ _) as [er|url]; [done|]. cbv zeta.
  set (post := new_post _ _ _ _ _). set (tl := _ <$> l). unfold reply_unless.
  destruct (Create post tl e (a_posts s, n2)) as [[er|[p' ts']] [ps n3]] eqn:Hc.
  { rewrite (bind_step _ _ _ _ (inl er) (mkApiDB ps (a_workspaces s) (a_idem s), n3)).
    - by destruct (repo_error_is "failed to create post: " er) as (c & msg & -> & _).
    - unfold try, on_posts. by erewrite (zoom_run a_posts) by exact Hc. }
  rewrite (bind_step _ _ _ _ (inr (p', ts')) (mkApiDB ps (a_workspaces s) (a_idem s), n3)).
  2:{ unfold try, on_posts. by erewrite (zoom_run a_posts) by exact Hc. }
  cbn [fst snd]. intros H.
  assert (∃ m, on_idem (insertIdempotentRecord (idempotencyStore r) (ws_ID ws) key "post" (post_ID p')
     hash 201) e (mkApiDB ps (a_workspaces s) (a_idem s), n3) =
     (inr tt, (mkApiDB ps (a_workspaces s) (state_of (insertIdempotentRecord (idempotencyStore r)
        (ws_ID ws) key "post" (post_ID p') hash 201 e (a_idem s, n3))), m))) as [m Hm].
  { unfold on_idem, zoom, state_of. cbn [fst snd a_idem a_posts a_workspaces].
    unfold insertIdempotentRecord. destruct (negb _ || _); [by eexists|].
    unfold ask, try, mbind, M_bind. cbn [fst snd]. destruct (Insert _ _ _) as [x [i m]]. by eexists. }
  rewrite (bind_step _ _ _ _ _ _ Hm) in H. injection H as <- <- <-.
  exists u, body, bytes, ws, ps, n3, n2, n3. split_and!; try done. by exists post, tl.
Qed.

(** What remembering a creation does to the records: a row under a fresh id when
    the key is new to the workspace, nothing when the key was ever used. *)
Lemma remember_run wid key id hash db n : 0 < wid → key ≠ "" → String.length hash = 32%nat →
  0 < id → 0 ≤ app_now e →
  let db' := state_of (insertIdempotentRecord true wid key "post" id hash 201 e (db, n)) in
  match find_record (at_key wid key) db with
  | Some _ => records db' = records db
  | None => records db' = <[record_serial db + 1 :=
      mkIdempotencyRecord (record_serial db + 1) wid key "post" id hash 201 (app_now e + day)
        (db_now e)]> (records db)
  end.
Proof using Hrel.
  intros Hw Hk Hh Hid Hnow. unfold insertIdempotentRecord. cbn [negb orb].
  rewrite (bool_decide_eq_false_2 (key = "")) by done.
  unfold ask, try, mbind, M_bind, Insert, state_of.
  cbn [rec_WorkspaceID rec_IdempotencyKey rec_ResourceType rec_ResourceID rec_RequestHash
       rec_ResponseStatus rec_ExpiresAt fst snd].
  replace (wid <=? 0) with false by lia. rewrite (bool_decide_eq_false_2 (key = "")) by done.
  rewrite Hh. change (Z.of_nat 32 =? 32) with true. cbn [negb].
  rewrite (bool_decide_eq_false_2 ("post" = "")) by done.
  replace (id <=? 0) with false by lia. change ((201 <? 100) || (599 <? 201)) with false. cbv iota.
  assert ((app_now e + day =? 0) = false) as -> by (unfold day, Hour, Minute, Second; lia).
  cbv beta iota zeta. rewrite (bind_step _ _ _ _ _ _ (exec_fine e Hrel _ _ db n)).
  unfold insert_record.
  cbn [rec_WorkspaceID rec_IdempotencyKey rec_ResourceType rec_ResourceID rec_RequestHash
       rec_ResponseStatus rec_ExpiresAt].
  by destruct (find_record _ db).
Qed.

(** A request whose key has a live record in the workspace. *)
Lemma known_key_run req s n u body bytes ws i rec :
  postStore r = true → workspaceStore r = true → idempotencyStore r = true →
  userID_of req = Some u → decodeCreatePostRequest r req = inr (body, bytes) →
  (match IdentityFromContext req with
   | Some i => IsAPIKey i && negb (apiKeyCanAccessWorkspace (Some i) (cr_WorkspaceID body))
   | None => false end) = false →
  a_workspaces s !! cr_WorkspaceID body = Some ws → ws_OwnerID ws = u → 0 < ws_ID ws →
  TrimSpace (IdempotencyKeyHeader req) ≠ "" →
  Z.of_nat (String.length (TrimSpace (IdempotencyKeyHeader req))) ≤ idempotencyKeyMaxLen →
  String.length (idempotencyHash r bytes) = 32%nat →
  records_ok (a_idem s) → records (a_idem s) !! i = Some rec →
  at_key (ws_ID ws) (TrimSpace (IdempotencyKeyHeader req)) rec = true →
  app_now e < rec_ExpiresAt rec → rec_ResourceType rec = "post" →
  let w := handleCreatePost r req e (s, n) in
  if bool_decide (rec_RequestHash rec = idempotencyHash r bytes) then
    ∀ q, posts (a_posts s) !! rec_ResourceID rec = Some q →
    state_of w = s ∧ result_of w = inr (mkResponse (rec_ResponseStatus rec) (BPost (selected_post q)))
  else state_of w = s ∧ result_of w = inr (mkResponse 409 (BError "idempotency_key_conflict")).
Proof using Hrel.
  intros Hps Hws His Hu Hd Hb Hw Ho Hwpos Hk Hlen Hh Hok Hi Hat Hlive Hty w. subst w.
  unfold handleCreatePost, need_posts, need_workspaces, requireUserID. rewrite Hps, Hws, Hu, Hd.
  unfold lookupCreatePostWorkspace. rewrite Hb.
  rewrite (bind_step _ _ _ _ _ _ (find_workspace_run _ e s n Hrel)), Hw, Ho, Z.eqb_refl. cbn [negb].
  unfold applyCreatePostIdempotency. cbv zeta.
  rewrite (bind_step _ _ _ _ _ _ (lookup_run _ _ _ s (S n) Hwpos Hk Hlen Hh His)).
  erewrite find_record_key; [|done|exact Hi|done|by apply Z.ltb_lt].
  case_bool_decide; cbn [negb]; [|done].
  rewrite Hty. rewrite (bool_decide_eq_true_2 ("post" = "post")) by done. cbn [negb].
  intros q Hq. unfold replayIdempotentResource. rewrite Hty. cbv zeta.
  rewrite (bool_decide_eq_true_2 ("post" = "post")) by done. rewrite Hps. cbn [negb].
  erewrite bind_step; [|rewrite (bind_step _ _ _ _ _ _ (find_post_run _ e s _ Hrel)), Hq; done].
  done.
Qed.
End Creation.

(** The router keeps its documented assumptions: SHA-256 has 32 bytes, and an
    empty body does not decode. *)
Definition router_ok (r : Router) : Prop :=
  (∀ b, String.length (sha256 r b) = 32%nat) ∧ (∀ b, decode_create r "" ≠ inr b) ∧
  idempotencyStore r = true.
Definition workspaces_ok (db : WorkspaceDB) : Prop := ∀ i w, db !! i = Some w → ws_ID w = i ∧ 0 < i.
Lemma decoded_hash r req body bytes : router_ok r →
  decodeCreatePostRequest r req = inr (body, bytes) → String.length (idempotencyHash r bytes) = 32%nat.
Proof.
  intros (Hsha & Hempty & _). unfold decodeCreatePostRequest, idempotencyHash.
  destruct (read_body r _) as [?|b]; [done|]. destruct (decode_create r b) as [?|c] eqn:Ed; [done|].
  destruct (check_create_request c); [done|]. intros [= _ <-].
  case_bool_decide as Hb; [|apply Hsha]. subst b. by destruct (Hempty c).
Qed.

(** A key that ever expired protects nothing any more.  When the workspace has
    a record of the key that is past its expiry, a request under the key runs like
    one without, and its record cannot be stored: the records after an answer 201
    are the records before, so the same request will create again, and again. *)
Theorem expired_key_unprotected (r : Router) (req : Request) (e : Env) (s s' : ApiDB) (n m : nat)
    (p : Post) (ts : list NewTarget) (i : Z) (rec : IdempotencyRecord)
    (Hrel : reliable e) (Hr : router_ok r) (Hws : workspaces_ok (a_workspaces s))
    (Hi : records (a_idem s) !! i = Some rec)
    (Hat : ∀ body bytes, decodeCreatePostRequest r req = inr (body, bytes) →
             at_key (cr_WorkspaceID body) (TrimSpace (IdempotencyKeyHeader req)) rec = true)
    (Hne : rec_IdempotencyKey rec ≠ "")
    (Hrun : handleCreatePost r req e (s, n) = (inr (mkResponse 201 (BCreated p ts)), (s', m)))
    (Hpos : 0 < post_ID p) (Hnow : 0 ≤ app_now e) :
  records (a_idem s') = records (a_idem s) ∧ a_workspaces s' = a_workspaces s ∧
  ∃ post l n2 n3, Create post l e (a_posts s, n2) = (inr (p, ts), (a_posts s', n3)).
Proof.
  destruct (handleCreatePost_inv r e Hrel req s n p ts _ Hrun) as
    (u & body & bytes & ws & ps & k1 & k2 & k3 & Hu & Hd & Hb & Hw & Ho & Hps & Hwst & Hs & Hc).
  pose proof (Hws _ _ Hw) as [Hwid Hwpos]. pose proof (decoded_hash _ _ _ _ Hr Hd) as Hh.
  pose proof Hr as (_ & _ & His). rewrite His in Hs. specialize (Hat _ _ Hd).
  assert (TrimSpace (IdempotencyKeyHeader req) ≠ "") as Hk by (by apply at_key_true in Hat as [_ <-]).
  pose proof (remember_run e Hrel (ws_ID ws) _ (post_ID p) (idempotencyHash r bytes)
    (a_idem s) k1 ltac:(lia) Hk Hh Hpos Hnow) as Hmem. cbv zeta in Hmem.
  destruct (find_record (at_key (ws_ID ws) _) (a_idem s)) as [x|] eqn:E.
  - cbn in Hs. subst s'. cbn. split_and!; [done..|]. destruct Hc as (post & l & Hc). by exists post, l, k2, k3.
  - rewrite find_record_none in E. specialize (E _ _ Hi). rewrite Hwid in E. by rewrite Hat in E.
Qed.

(** ** A concrete server *)
Definition demo_env : Env := mkEnv 1000 1000 (λ _, Fine) (λ _, false) (λ _, false) "uuid".
Definition demo_router : Router :=
  mkRouter true true true 0 None (λ _ _, inr "") Some (λ b, take_s 32 (b +:+ zeros 32)) inr
    (λ b, if bool_decide (b = "") then inl (errors_new "unexpected end of JSON input")
          else inr (mkCreateRequest 1 (mkContent b "" [] "" None) None None "" [mkCreateTarget 5 0]))
    (λ _, inl (errors_new "none")) (λ b, inr (mkPatchRequest b "" [] "")) (λ _, inr 5).
Definition demo_post (id at_ : Z) : Post :=
  mkPost id 1 "title" "caption" "url" (Some "asset") (Some "key") (Some "bucket") "public" "private"
    None 900 None "draft" None "{}" 1 at_ at_.
Definition demo_state : ApiDB :=
  mkApiDB (mkPostDB {[ 1 := demo_post 1 900; 2 := demo_post 2 901; 3 := demo_post 3 901 ]} ∅ ∅
             (Outbox.mkOutboxDB ∅ 0) 4 1)
    {[ 1 := mkWorkspace 1 "team" 7 100 ]} (mkIdemDB ∅ ∅ 0).
Definition demo_request (uid : Z) (key body : string) : Request :=
  mkRequest (Some uid) None "1" "1" [("workspace_id", "1")] key body.
Lemma demo_reliable : reliable demo_env.
Proof. intros n. done. Qed.
Lemma take_s_length n s : (n ≤ String.length s)%nat → String.length (take_s n s) = n.
Proof. revert s. induction n as [|n IH]; intros [|a s] H; simpl in *; try lia. f_equal. apply IH. lia. Qed.
Lemma demo_router_ok : router_ok demo_router.
Proof.
  split_and!; [|done|done]. intros b. apply take_s_length. rewrite length_app_s, zeros_length. lia.
Qed.
Lemma demo_workspaces_ok : workspaces_ok (a_workspaces demo_state).
Proof. intros i w. cbn [a_workspaces demo_state]. by intros [<- <-]%lookup_singleton_Some. Qed.

Lemma tenant_isolation_witness :
  refuses (handleGetPost demo_router (demo_request 8 "" "x")) demo_env demo_state 0 ∧
  refuses (handlePatchPost demo_router (demo_request 8 "" "x")) demo_env demo_state 0.
Proof.
  pose proof (proj1 (tenant_isolation demo_router (demo_request 8 "" "x") 8 demo_env demo_state 0
    eq_refl) 1 (demo_post 1 900) eq_refl eq_refl) as H.
  assert (foreign demo_state 8 1) as Hf.
  { intros w Hw. change (Some (mkWorkspace 1 "team" 7 100) = Some w) in Hw. by injection Hw as <-. }
  specialize (H Hf). apply Forall_cons in H as [H1 H]. apply Forall_cons in H as [H2 _]. done.
Defined.
Lemma unguarded_handlers_ignore_caller_witness :
  result_of (handleDeletePost demo_router (as_caller None None (demo_request 7 "" "")) demo_env
               (demo_state, 0%nat)) = inr (mkResponse 200 (BStatus "deleted")).
Proof.
  apply (unguarded_handlers_ignore_caller demo_router (demo_request 7 "" "") None None demo_env
    demo_state 0 1 (demo_post 1 900) demo_reliable eq_refl eq_refl eq_refl).
Defined.
Lemma patch_detaches_media_witness :
  post_MediaAssetID <$> posts (a_posts (state_of
    (handlePatchPost demo_router (demo_request 7 "" "new") demo_env (demo_state, 0%nat)))) !! 1 =
  Some None.
Proof.
  rewrite (proj2 (patch_detaches_media demo_router (demo_request 7 "" "new") demo_env demo_state 0 7 1
    (demo_post 1 900) (mkWorkspace 1 "team" 7 100) (mkPatchRequest "new" "" [] "") demo_reliable
    eq_refl eq_refl eq_refl eq_refl eq_refl eq_refl ltac:(decide_closed) eq_refl eq_refl eq_refl
    eq_refl eq_refl)).
  reflexivity.
Defined.
Definition demo_created : (err + Response) * (ApiDB * nat) :=
  handleCreatePost demo_router (demo_request 7 "k1" "hello") demo_env (demo_state, 0%nat).
Definition demo_later : Env := mkEnv 2000 2000 (λ _, Fine) (λ _, false) (λ _, false) "uuid".
Definition demo_new_post : Post := default (demo_post 0 0) (posts (a_posts (state_of demo_created)) !! 4).
Lemma demo_records_ok db : records (a_idem db) = ∅ → records_ok (a_idem db).
Proof. intros E. split; intros *; rewrite E, ?lookup_empty; done. Qed.
Definition demo_result : Post * list NewTarget :=
  match result_of demo_created with
  | inr (mkResponse _ (BCreated p ts)) => (p, ts)
  | _ => (demo_post 0 0, [])
  end.
Lemma demo_created_eq : handleCreatePost demo_router (demo_request 7 "k1" "hello") demo_env
    (demo_state, 0%nat) =
  (inr (mkResponse 201 (BCreated demo_result.1 demo_result.2)), (state_of demo_created, demo_created.2.2)).
Proof. vm_compute. reflexivity. Qed.
Lemma demo_created_records_ok : records_ok (a_idem (state_of demo_created)).
Proof.
  set (rec := mkIdempotencyRecord 1 1 "k1" "post" 4 (take_s 32 ("hello" +:+ zeros 32)) 201
    (1000 + day) 1000).
  assert (a_idem (state_of demo_created) = mkIdemDB {[ 1 := rec ]} ∅ 1) as -> by (vm_compute; reflexivity).
  unfold records_ok. cbn [records record_serial]. split; [intros i x|intros i j x y].
  - by intros [<- _]%lookup_singleton_Some.
  - by intros [<- _]%lookup_singleton_Some [<- _]%lookup_singleton_Some.
Qed.
(** The state in which the key has expired. *)
Definition demo_much_later : Env :=
  mkEnv (1000 + 2 * day) (1000 + 2 * day) (λ _, Fine) (λ _, false) (λ _, false) "uuid".
Definition demo_again : (err + Response) * (ApiDB * nat) :=
  handleCreatePost demo_router (demo_request 7 "k1" "hello") demo_much_later (state_of demo_created, 0%nat).
Definition demo_again_result : Post * list NewTarget :=
  match result_of demo_again with
  | inr (mkResponse _ (BCreated p ts)) => (p, ts)
  | _ => (demo_post 0 0, [])
  end.
Lemma expired_key_unprotected_witness :
  post_ID demo_again_result.1 = 5 ∧
  records (a_idem (state_of demo_again)) = records (a_idem (state_of demo_created)).
Proof.
  split; [by vm_compute|].
  refine (proj1 (expired_key_unprotected demo_router (demo_request 7 "k1" "hello") demo_much_later
    (state_of demo_created) (state_of demo_again) 0 demo_again.2.2 demo_again_result.1
    demo_again_result.2 1
    (mkIdempotencyRecord 1 1 "k1" "post" 4 (take_s 32 ("hello" +:+ zeros 32)) 201 (1000 + day) 1000)
    demo_reliable demo_router_ok _ _ _ _ _ _ _)).
  - assert (a_workspaces (state_of demo_created) = a_workspaces demo_state) as -> by (by vm_compute).
    apply demo_workspaces_ok.
  - by vm_compute.
  - intros body bytes [= <- <-]. by vm_compute.
  - done.
  - vm_compute. reflexivity.
  - by vm_compute.
  - by vm_compute.
Defined.
