(* ===== verification/PostsAPILists.v ===== *)
(** * Walking the pages of a post list

    The cursors of [Cursor], the keyset query of [PostReads] and the handler of
    [PostsAPI] together: a client that follows [next_cursor] sees every post of
    the workspace once, newest first. *)

From S2P Require Import Prelude Codec Cursor Store PostModel PostStore PostReads Idempotency.
From S2P Require Import PostsAPI PostsAPIProps.
From Stdlib Require Import ZArith Lia.
Local Open Scope Z_scope.

(** A request for a page of a workspace. *)
Definition page_request (uid wid limit : Z) (cursor : string) : Request :=
  mkRequest (Some uid) None "" ""
    [("workspace_id", itoa wid); ("limit", itoa limit); ("cursor", cursor)] "" "".
Definition walk_context (wid : Z) : string := listCursorFilterContext
  [("workspace_id", itoa wid)] ["workspace_id"].
(** Follow the cursors, at most [fuel] pages. *)
Fixpoint walk (r : Router) (e : Env) (s : ApiDB) (uid wid limit : Z) (fuel : nat) (cursor : string) :
    option (list postListItem) :=
  match fuel with
  | O => None
  | S f =>
      match result_of (handleListPosts r (page_request uid wid limit cursor) e (s, 0%nat)) with
      | inr (mkResponse 200 (BPage page)) =>
          if HasMore page
          then rest ← walk r e s uid wid limit f (NextCursor page); Some (Posts page ++ rest)
          else Some (Posts page)
      | _ => None
      end
  end.

Section Walk.
Context (r : Router) (e : Env) (s : ApiDB) (uid wid limit : Z) (w : Workspace).
Context (Hrel : reliable e) (Hps : postStore r = true) (Hws : workspaceStore r = true).
Context (Huid : 0 < uid) (Hwid : 0 < wid ∧ in_int64 wid) (Hlim : 1 ≤ limit ≤ 100).
Context (Hw : a_workspaces s !! wid = Some w) (Ho : ws_OwnerID w = uid).
Context (Hids : post_ids_ok (a_posts s)).

Lemma page_context cursor :
  listCursorFilterContext (Query (page_request uid wid limit cursor)) ["workspace_id"] =
  walk_context wid.
Proof. reflexivity. Qed.

Lemma page_handler_run after cursor :
  parsePostListPage (Query (page_request uid wid limit cursor)) (walk_context wid) =
    inr (limit, after) →
  let rest := rows_behind [wid] after (a_posts s) in
  result_of (handleListPosts r (page_request uid wid limit cursor) e (s, 0%nat)) =
  inr (mkResponse 200 (BPage (postListResponse (selected_post <$> take (Z.to_nat limit) rest)
         (Z.to_nat limit <? length rest)%nat (walk_context wid)))).
Proof using Hrel Hps Hws Huid Hwid Hlim Hw Ho.
  intros Hparse rest. unfold handleListPosts, need_posts, need_workspaces, requireUserID, userID_of.
  rewrite Hps, Hws. cbn [UserIDFromContext page_request]. rewrite (proj2 (Z.ltb_lt 0 uid)) by done.
  cbv zeta. change (Query _) with (Query (page_request uid wid limit cursor)) at 1.
  assert (Get (Query (page_request uid wid limit cursor)) "workspace_id" = itoa wid) as -> by done.
  rewrite bool_decide_eq_false_2 by apply itoa_nonempty. cbn [negb].
  rewrite ParseInt_itoa by apply Hwid.
  rewrite (bind_step _ _ _ _ _ _ (find_workspace_run _ e s 0%nat Hrel)), Hw, Ho, Z.eqb_refl.
  cbn [negb].
  assert (Get (Query (page_request uid wid limit cursor)) "limit" = itoa limit) as -> by done.
  rewrite (bool_decide_eq_false_2 (itoa limit = "")) by apply itoa_nonempty.
  rewrite andb_false_r, page_context, Hparse. unfold page_or_500, ListByWorkspacePage.
  assert (listByWorkspaceIDsPage [wid] after limit e (a_posts s, 1%nat) =
    (inr (selected_post <$> take (Z.to_nat limit) rest, Z.to_nat limit <? length rest)%nat,
     (a_posts s, 2%nat))) as Hpage.
  { apply page_run; [done|done| |done]. apply Forall_cons_2; [apply Hwid|constructor]. }
  erewrite bind_step; [|unfold try, on_posts; by erewrite (zoom_run a_posts) by exact Hpage].
  reflexivity.
Qed.

(** From a split of the list on, the walk returns what is left. *)
Lemma walk_rest fuel L1 L2 cursor after :
  posts_of [wid] (a_posts s) = L1 ++ L2 →
  rows_behind [wid] after (a_posts s) = L2 →
  parsePostListPage (Query (page_request uid wid limit cursor)) (walk_context wid) =
    inr (limit, after) →
  (length L2 < fuel)%nat →
  Forall (λ p, post_CreatedAt p ≠ 0 ∧ printable_year (post_CreatedAt p) ∧
               0 < post_ID p ∧ in_int64 (post_ID p)) L2 →
  walk r e s uid wid limit fuel cursor =
    Some ((λ p, postListItemFromModel (selected_post p)) <$> L2).
Proof using All.
  revert L1 L2 cursor after. induction fuel as [|f IH]; intros L1 L2 cursor after HL Hafter Hparse Hf HF;
    [lia|]. cbn [walk].
  rewrite (page_handler_run _ _ Hparse), Hafter. cbv zeta beta iota.
  unfold postListResponse. cbn [HasMore Posts NextCursor].
  set (n := Z.to_nat limit). assert (0 < n)%nat as Hn by (subst n; lia).
  destruct (Nat.ltb_spec n (length L2)) as [Hmore|Hless].
  - destruct (lookup_lt_is_Some_2 L2 (n - 1)) as [x Hx]; [lia|].
    pose proof (take_S_r L2 (n - 1) x Hx) as Htake. replace (S (n - 1)) with n in Htake by lia.
    pose proof (take_drop_middle L2 (n - 1) x Hx) as Hsplit.
    replace (S (n - 1)) with n in Hsplit by lia.
    rewrite Htake, fmap_app. cbn [fmap list_fmap]. rewrite last_snoc.
    cbn [post_CreatedAt post_ID selected_post].
    assert (posts_of [wid] (a_posts s) = (L1 ++ take (n - 1) L2) ++ x :: drop n L2) as HL'
      by (by rewrite <- app_assoc, Hsplit).
    rewrite Forall_forall in HF. destruct (HF x) as (H0 & Hy & Hp & Hi);
      [by eapply list_elem_of_lookup_2|].
    rewrite (IH (L1 ++ take n L2) (drop n L2) _ (Some (position x))).
    + cbn [mbind option_bind]. f_equal.
      transitivity ((λ p, postListItemFromModel (selected_post p)) <$> (take n L2 ++ drop n L2));
        [|by rewrite take_drop].
      rewrite Htake, !fmap_app, <- !list_fmap_compose. reflexivity.
    + by rewrite <- app_assoc, take_drop.
    + by eapply rows_behind_split.
    + apply parse_next_page; done.
    + rewrite length_drop. lia.
    + apply Forall_forall. intros y Hin. apply HF. rewrite <- (take_drop n L2).
      apply elem_of_app. by right.
  - rewrite take_ge by lia. by rewrite <- list_fmap_compose.
Qed.
End Walk.

(** C21: following the cursors enumerates a list.  Against an unchanging database,
    a client that starts without a cursor and sends back each next_cursor gets the
    list items of every post of the workspace, each post once, newest first, for
    every page size from 1 to 100; one page more than there are posts is enough. *)
Theorem list_walk_complete (r : Router) (e : Env) (s : ApiDB) (uid wid limit : Z) (w : Workspace)
    (fuel : nat)
    (Hrel : reliable e) (Hps : postStore r = true) (Hws : workspaceStore r = true)
    (Huid : 0 < uid) (Hwid : 0 < wid ∧ in_int64 wid) (Hlim : 1 ≤ limit ≤ 100)
    (Hw : a_workspaces s !! wid = Some w) (Ho : ws_OwnerID w = uid)
    (Hids : post_ids_ok (a_posts s))
    (Hposts : ∀ id p, posts (a_posts s) !! id = Some p →
       post_CreatedAt p ≠ 0 ∧ printable_year (post_CreatedAt p) ∧ 0 < id ∧ in_int64 id)
    (Hfuel : (size (posts (a_posts s)) < fuel)%nat) :
  ∃ L, walk r e s uid wid limit fuel "" = Some ((λ p, postListItemFromModel (selected_post p)) <$> L) ∧
    NoDup L ∧ StronglySorted (λ x y, newest_first x y = true) L ∧
    ∀ p, p ∈ L ↔ post_WorkspaceID p = wid ∧ ∃ id, posts (a_posts s) !! id = Some p.
Proof.
  exists (posts_of [wid] (a_posts s)). split_and!.
  - eapply (walk_rest r e s uid wid limit w Hrel Hps Hws Huid Hwid Hlim Hw Ho Hids fuel [] _ "" None).
    + done.
    + unfold rows_behind. cbn [behind]. induction (posts_of [wid] (a_posts s)) as [|x l IH];
        [done|]. cbn [List.filter]. by rewrite IH.
    + by apply parse_first_page.
    + eapply Nat.le_lt_trans; [|exact Hfuel]. unfold posts_of. rewrite sort_by_perm.
      etrans; [apply filter_length_le|]. by rewrite length_fmap, length_map_to_list.
    + apply Forall_forall. intros p Hp%posts_of_elem. destruct Hp as [_ [id Hid]].
      rewrite (Hids _ _ Hid). by apply (Hposts id).
  - eapply NoDup_fmap_1, posts_of_ids, Hids.
  - apply posts_of_sorted.
  - intros p. rewrite posts_of_elem, list_elem_of_singleton. done.
Qed.
Lemma list_walk_complete_witness :
  walk demo_router demo_env demo_state 7 1 2 4 "" =
    Some ((λ p, postListItemFromModel (selected_post p)) <$>
            [demo_post 3 901; demo_post 2 901; demo_post 1 900]) ∧
  ∃ L, walk demo_router demo_env demo_state 7 1 2 4 "" =
    Some ((λ p, postListItemFromModel (selected_post p)) <$> L) ∧ NoDup L.
Proof.
  assert (∀ id p, posts (a_posts demo_state) !! id = Some p →
    (id = 1 ∧ p = demo_post 1 900) ∨ (id = 2 ∧ p = demo_post 2 901) ∨ (id = 3 ∧ p = demo_post 3 901)) as Hall.
  { intros id p. cbn [posts a_posts demo_state].
    intros [[<- <-]|[_ [[<- <-]|[_ [<- <-]%lookup_singleton_Some]]%lookup_insert_Some]]%lookup_insert_Some;
      tauto. }
  split; [vm_compute; reflexivity|].
  destruct (list_walk_complete demo_router demo_env demo_state 7 1 2 (mkWorkspace 1 "team" 7 100) 4)
    as (L & H1 & H2 & _).
  - exact demo_reliable.
  - done.
  - done.
  - done.
  - split; [done|]. by vm_compute.
  - done.
  - done.
  - done.
  - by intros id p [[-> ->]|[[-> ->]|[-> ->]]]%Hall.
  - intros id p [[-> ->]|[[-> ->]|[-> ->]]]%Hall; by vm_compute.
  - vm_compute. lia.
  - exists L. split; [exact H1|exact H2].
Defined.
